(* ===== verification/_CoqProject ===== *)
-Q . S2P
Prelude.v
Domain.v
Identity.v
Coordinator.v
CoordinatorFacts.v
CoordinatorSystem.v
CoordinatorSafety.v
CoordinatorClaims.v
AgentStore.v
AgentStoreFacts.v
AgentOps.v
AgentEngine.v
AgentEngineFacts.v
AgentSystem.v
AgentShared.v
AgentClaims.v
Guardian.v
GuardianMachine.v
GuardianFacts.v
GuardianSystem.v
GuardianClaims.v
Transactions.v
CloudStore.v
CloudWake.v
CloudJobs.v
CloudAccept.v
CloudRevoke.v
CloudRouting.v
CloudTopology.v
CloudReroute.v
CloudFacts.v
CloudDeliveries.v
CloudQueue.v
CloudSystem.v
CloudSteps.v
CloudNodeSteps.v
CloudRouteSteps.v
CloudMachine.v
CloudKept.v
CloudRequests.v
CloudClaims.v
CloudNodeClaims.v
CloudDemo.v
TopologyMemory.v
TopologyMirror.v
TopologyRefusals.v
TopologyDecisions.v
TopologyClaims.v
AccessStore.v
AccessSystem.v
AccessMachine.v
AccessClaims.v
AccessDemo.v
DurableFile.v
NodeRegistry.v
NodeEnrolment.v
NodeSystem.v
NodeClaims.v
LocalIpc.v
NodeBroker.v
NodeBrokerSystem.v
NodeBrokerClaims.v
ControlPlane.v
ControlInventory.v
ControlDeliveries.v
ControlOffers.v
ControlSchedule.v
ControlSync.v
ControlFacts.v
ControlLeases.v
ControlOfferFacts.v
ControlReports.v
ControlHandoffs.v
ControlClaims.v
ControlDemo.v
