(* ===== verification/Prelude.v ===== *)
(** * Verification of Piqae

    Piqae is durable printing infrastructure.  A control plane accepts print jobs and
    leases them to nodes; a node downloads a job, takes responsibility for it in a local
    SQLite queue, hands it to the operating system's spooler, and reports what it knows
    about the outcome.  Nothing can make the
    native handoff atomic, so the code's promises are about what happens around it: an
    intent is durable before the handoff, an uncertain handoff is never repeated without a
    decision, two connectors never drive one printer at once, and every observed state is
    delivered.  The sources are under src/; this development models the parts that make
    these promises, in the order the files are listed in _CoqProject.

    ** The parts and their files

    - [Prelude]: Rust's [Result] with its bind, the arithmetic of u64 and i64 at their
      width, BTreeMap iteration and Vec operations over stdpp's maps and lists, sorting.
    - [Domain] (crates/domain): [Module Job] has the twenty job states, the transition
      table of [JobState::can_transition_to] and [validate_transition], job options with
      [validate_bounds]; [Module Id] the typed identifiers; [Module Printer] capability
      profiles and their validation.  [JobFacts], [IdFacts] and [PrinterFacts] prove them.
    - [Identity] (the free functions at the end of
      crates/node-runtime/src/route_coordinator.rs): canonical identity evidence and the
      key that groups the queues of one physical printer.
    - [Coordinator] (crates/node-runtime/src/route_coordinator.rs): the document
      [CoordinatorDocument] of the journal, one definition per method of
      [RouteCoordinator].  A method that changes the journal is a function on documents
      ([reserve_inner], [finish_inner], ...) inside [journalled], which is
      [commit_document_change]: write, read back after a failure, and fail-stop when the
      outcome is unknown.  [Io] gives the outcome of the write.
    - [CoordinatorFacts], [CoordinatorSystem], [CoordinatorSafety], [CoordinatorClaims]:
      invariants of documents; the process as a step relation with calls, failed writes,
      crashes and restarts ([step], [reachable]) and its refinement of the document
      transitions ([doc_step]); the safety arguments; the properties with a concrete
      deployment ([Demo]).
    - [AgentStore] (crates/agent-storage/src/lib.rs and schema.sql): the tables as finite
      maps and lists, with the primary keys, foreign keys, UNIQUE and CHECK constraints
      that the transactions can hit, and every transaction on jobs, events, the outbox,
      reconciliation, local resolutions, cloud acceptance and content retention.  A
      transaction returns new tables or an error; the monad [SM] composes the operations
      that are several statements, with a storage failure, or a commit of another
      connection ([others]), before any of them.
    - [AgentStoreFacts], [AgentOps]: a Hoare logic for [SM], the elementary changes
      ([prim]) that every operation decomposes into, the invariant [store_wf] and the
      operations as one type [StoreOp].
    - [AgentEngine] (crates/agent-core/src/lib.rs): [AgentEngine] as the monad [M] over
      store, executor, clock and removed files.  [Executor] is the trait as a typeclass;
      [FakeExecutor] the source's instance.  Every call that leaves the process may be the
      one the process crashes at.
    - [AgentEngineFacts], [AgentSystem]: a Hoare logic for [M] over the tables and the
      trace of native submissions; the agent as runs of the engine interleaved with store
      operations, failures and restarts ([agent_step]).
    - [AgentShared], [AgentClaims]: the agent with a second connection to its database, whose
      commits come between any two statements of a run ([shared_step]); the properties with
      a concrete agent ([Demo]).
    - [Guardian] (crates/update-metadata and the first half of
      crates/update-guardian/src/lib.rs): signed release metadata, the verification of a
      candidate, the admission of an update.
    - [GuardianMachine] (the rest of crates/update-guardian): the checksummed journal as a
      file that an append may tear, and [UpdateGuardian] as a monad over journal, runtime
      and health check, whose calls may be interrupted.
    - [GuardianFacts], [GuardianSystem], [GuardianClaims]: what an append leaves behind;
      the abstract update protocol that the journal is a run of; the properties.
    - [Transactions] (crates/storage-postgres): one database transaction as a state and
      error monad over tables - new tables and an answer, or an error and no effect - with
      the usual statements, the tactics that take a committed transaction apart, and
      [preserves], what a transaction keeps when its statements do.
    - [CloudStore] (crates/storage-postgres and the schema under migrations/postgres): the
      tables of jobs, deliveries and nodes as finite maps with their keys and checks.
    - [CloudWake], [CloudJobs], [CloudAccept], [CloudRevoke] (storage-postgres/src/lib.rs):
      wake hints; creation, events, leases, cancellation, expiry; acceptance by a node;
      the command queue and the revocation of nodes.
    - [CloudRouting], [CloudTopology], [CloudReroute] (storage-postgres/src/
      destination_topology.rs and the rerouting of lib.rs): delivery attempts with
      reservations and fencing tokens, uncertain deliveries and their resolution; rerouting
      by binding and identity decisions; rerouting to another route, with the fences on
      stock, loaded media and tickets.
    - [CloudFacts], [CloudDeliveries], [CloudQueue]: the invariants of three groups of
      tables (jobs with events, acceptances and usage; attempts with reservations;
      commands with resolutions), each with the elementary steps that keep it.
    - [CloudSystem], [CloudSteps], [CloudNodeSteps], [CloudRouteSteps], [CloudMachine]: a
      transaction changes the store by such steps ([evolves]), one lemma per transaction;
      the control plane as any sequence of its transactions ([cloud_step], [runs],
      [reachable]).
    - [CloudKept], [CloudRequests], [CloudClaims], [CloudNodeClaims], [CloudDemo]: what no
      sequence of transactions takes back, the requests to resolve an uncertain delivery in
      the history of the store, the properties, and a concrete run that they are applied to.
    - [ControlPlane] (crates/control-plane/src/error.rs, lib.rs): the errors of a request, a
      handler as a sequence of transactions that keeps what it committed before an error
      ([Call]), the publication of events.
    - [ControlInventory] (destination_topology.rs of control-plane and of storage-postgres):
      the tables of what nodes report and the projection of a report: destinations, routes,
      evidence of identity, observations, the availability of the runtime.
    - [ControlDeliveries] (control-plane/src/destination_topology.rs): the reservation of a
      route for a leased job, evidence of handoffs, reports after the spooler, the end of an
      acknowledged resolution and the reprint it authorises.
    - [ControlOffers], [ControlSchedule], [ControlSync] (control-plane/src/api.rs, with parts
      of routing.rs and documents.rs): capabilities and the content of an offer; the
      scheduler that moves waiting jobs to a ready route; [agent_sync], the handler of a
      node's sync, with all its early returns.
    - [ControlFacts], [ControlLeases], [ControlOfferFacts], [ControlReports],
      [ControlHandoffs]: what a call does to the store when its transactions respect a
      relation ([moves]); the leases of a batch; what backs an offer; reports that come
      again.
    - [ControlClaims], [ControlDemo]: the properties of the sync; a concrete one.
    - [TopologyMemory] (storage-postgres/src/destination_topology.rs): the in-memory
      repository that stands in for the database, whose operations keep what they wrote
      before an error.
    - [TopologyMirror], [TopologyRefusals]: when its state mirrors that of the database, with
      one lemma per delivery operation that both then answer alike, refusals included.
    - [TopologyDecisions], [TopologyClaims]: what every other operation leaves of a recorded
      identity decision; the properties, with a concrete history.
    - [AccessStore] (storage-postgres/src/lib.rs): the tables of accounts and devices, and
      the transactions on API keys, the owner of a self-hosted installation, platform
      accounts with their grants and customer workspaces, enrolment tokens, browser
      pairing, node admission, connectors, request nonces and content keys.
    - [AccessSystem], [AccessMachine], [AccessClaims], [AccessDemo]: what no transaction on
      them takes back ([evolves]) and the uniqueness that all of them keep ([wf]); every
      request as a value ([Request], [serve]) and every sequence of commits before a time
      ([runs]); the properties; a concrete run.

    - [DurableFile] (crates/node-runtime/src/durable_file.rs): the replacement of a small
      file over a file system whose calls fail or are cut off, and the disk with the files
      that a crash may leave ([Disk]), which it refines and the next files use.
    - [NodeRegistry], [NodeEnrolment] (crates/node-runtime/src/connector_registry.rs,
      connector_enrollment.rs, secure_connector.rs): the connectors of a node and the keys
      they sign with, one definition per method; invitations; the cleanup of keys.
    - [NodeSystem], [NodeClaims]: a host as a step relation with failing writes, keys that
      are generated and deleted, crashes and restarts ([host_step], [host_reachable]), the
      invariant of the keys ([key_safe]) and what every change of a record keeps
      ([kept]); the properties, with a concrete node ([NodeDemo]).
    - [LocalIpc] (crates/local-ipc/src/lib.rs): the messages between applications and a
      node, the proofs of requests and responses, and the frames that carry them.
    - [NodeBroker] (crates/node-runtime/src/broker.rs): applications, consent of the
      operator, proofs with their replay protection, and the mapping of operations to
      commands of the runtime ([RuntimeCommand] of command.rs).
    - [NodeBrokerSystem], [NodeBrokerClaims]: the broker as a step relation under a clock
      that does not go back ([broker_step]) with the log of what happened; the properties,
      with a concrete broker ([BrokerDemo]).

    The engine calls the store ([store], [execute]) and the domain's state machine
    ([transition]); the coordinator uses the identity evidence.  Coordinator and engine
    meet only in the executor that the engine is given.  The store of the control plane and
    the node's store meet in the protocol between them, which is not modelled as one
    system: each side is proved for whatever the other sends.

    ** What the theorems show

    - Handoff: [no_blind_retries] and [intent_precedes_submission] hold for every executor
      and every sequence of failures, the latter also among the commits of a second
      connection; [resolutions_are_exclusive] and
      [retry_waits_for_deadline] cover the decisions that allow another attempt;
      [handoff_is_not_replayed] is the same promise at the level of the state machine.
    - Exclusion on a node: [routes_are_exclusive], [reserve_is_exclusive] and
      [register_is_exclusive] for reservations of a queue and of a physical group.
    - Replay barriers: [accepted_authority_is_final], [spent_offer_stays_spent],
      [ambiguity_needs_resolution], [restart_keeps_fences], [poisoned_is_inert],
      [held_reservation_can_be_closed], [observation_sequences_are_unique].
    - Durability and order on a node: [accepted_jobs_are_durable],
      [event_log_is_gap_free], [heads_are_serial], [acceptance_is_idempotent],
      [fresh_job_is_accepted], [acknowledgement_is_exact].
    - Cloud acceptance on a node: [activation_requires_confirmation],
      [confirmed_evidence_is_pinned], [quarantine_is_exact].
    - Updates: [journal_refines_protocol], [platform_acts_on_intents],
      [append_is_atomic], [verified_candidate_is_trusted], [releases_never_go_back],
      [update_terminates], [completed_update_was_healthy], [guardian_always_reopens].
    - Deliveries in the control plane: [deliveries_are_exclusive],
      [uncertain_destination_is_fenced] (with the fence read before the state the attempt
      commits in), [attempts_only_advance].
    - The in-memory repository: [memory_mirrors_database], [reversal_restores_topology].
    - Responsibility in the control plane: [acceptance_is_final],
      [acceptance_needs_lease_and_proof], [claimed_jobs_are_leased_once],
      [revocation_ends_accepted_work], [cancellation_reaches_the_node_or_ends],
      [expired_jobs_are_never_delivered].
    - Records of the control plane: [rows_are_well_typed], [events_explain_state],
      [terminal_jobs_are_final], [agent_events_apply_once], [usage_is_recorded_once],
      [creation_is_idempotent].
    - The sync of a node: [sync_is_a_run] carries every invariant of the store over to the
      handler, on its error paths too; [offers_are_backed], [offers_need_a_safe_runtime] and
      [encrypted_content_stays_encrypted] say what an offer promises;
      [no_lease_is_left_behind] that a sync which fails on the way leases nothing;
      [handoff_evidence_is_idempotent] covers lost answers, [poll_is_bounded] the pace.
    - Access to the control plane: [enrolment_secret_is_single_use],
      [pairing_yields_one_approved_node], [nonce_accepted_once_until_expiry],
      [revoked_api_key_never_authenticates], [revoked_node_never_authenticates],
      [archived_account_stays_closed], [node_limit_respected],
      [content_key_of_a_job_survives].
    - Files of a node: [replacement_is_atomic].
    - Connectors of a node: [connector_keys_are_kept], [revocation_is_durable],
      [node_starts_again], [shared_printers_are_found].
    - Applications on a node: [commands_are_granted], [requests_run_once],
      [issued_tokens_work], [retry_keys_are_apart], [proof_binds_request],
      [frames_round_trip].
    - Encodings and validation: [typed_id_round_trip], [typed_id_rejects_other_prefix],
      [route_key_preimage_injective], [validate_bounds_exact], [profile_validate_exact],
      [state_names_round_trip], [constant_time_comparison_is_equality],
      [terminal_iff_stuck], [no_job_is_stranded].
    - Where the code falls short: [interrupted_job_strands_printer],
      [blocked_job_cannot_become_uncertain], [referenced_content_is_never_retired],
      [journal_outgrows_open], [blocked_reopens_submission], [journal_life_is_bounded],
      [merge_lifts_the_fence], [expired_keys_create_nothing],
      [revoked_installation_cannot_reenrol], [paired_node_stays_locked_out],
      [replay_in_the_last_millisecond], [revision_zero_stops_the_node],
      [installation_key_is_lost], [local_expiry_is_never_projected],
      [uncounted_queues_are_rejected].

    ** Bounds, fuel and assumptions

    Two loops of the source are not structural.  The quarantine of proofless intents has
    one more unit of fuel than there are intents, and [quarantine_is_exact] proves that it
    is enough; the loop that ends the accepted work of a revoked node has one more than
    there are jobs, and [revocation_ends_accepted_work] proves that it is enough.  The bounds of the source (512 routes and handoffs, 4096
    replay barriers, pages of 100, 256 or 500 rows) are kept.  Unsigned integers are [N]
    and signed ones [Z]; saturating and checked operations are written out, and the
    engine's i64 additions wrap as a release build does.

    What the code calls outside the repository is a field of a typeclass: SHA-256, UUIDs
    and the JSON encodings ([External], [JournalCodec], [StoreExternal],
    [EngineExternal], [CloudExternal], [RegistryCodec], [BrokerCodec], [IpcCodec], and the
    cryptography of [Guardian]), ULIDs ([UlidCodec]), URLs ([UrlApi]), the executor, and for the sync the broker of
    events ([Outbox]), HMAC ([IdentityMac]) and JSON encodings ([ReprintJson],
    [DiagnosticJson], [MediaJson]).  Laws
    are assumed only where a theorem needs them: parsing inverts printing for ULIDs
    ([UlidLaws]) and for the files ([JournalLaws], [RegistryLaws], [BrokerLaws]), digests
    have 32 bytes and encodings are injective ([IpcLaws]), and the digests of the queue
    names and offers that a deployment meets are distinct ([Deployment]).  The demos instantiate all of them.
    A transaction of SQLite either commits or has no effect, and transactions are
    serialisable.  The agent's binary opens a second connection for its sync; [AgentShared]
    lets it commit between any two statements, while in [agent_reachable] the operations
    of the store come between whole runs of the engine.  A transaction of Postgres is taken to be
    atomic and to run alone, since it locks the rows it decides about first, with one
    exception: the fence of a destination is read under READ COMMITTED from rows that are not
    locked, and [begin_read_committed] takes the state it was read in as an argument.  A row that another
    transaction has locked is skipped where the statement says SKIP LOCKED, which the
    [locked] argument of such an operation decides.  The clocks of the database and of the
    server, new identifiers and random tokens are arguments.  Paths are separated by
    slashes.

    ** What is not modelled

    In the control plane: the handlers other than the sync of a node, the parsing of
    requests, the verification of tokens and signatures, documents ([Documents]), which
    media a target expects and has loaded and whether a printer renders a document
    ([RoutingMedia]: computations over other tables, in part in floating point, that write
    nothing, arbitrary functions of the state here), and the workers (crates/control-plane); in its
    store, WorkOS identities, queries of printers, documents, webhook delivery, billing beyond the quota checks,
    and listings; audit rows,
    [updated_at] columns and the length checks of text that only describes a row;
    interleavings inside a transaction.  On a node: the
    cloud worker and the embedded host, the agent binary that wires the parts together,
    sockets and the identification of peers by the operating system, key stores, the content
    store's files, printers, named profiles, stocks and targets in the agent storage apart
    from what job admission and execution read of them, schema upgrades of old databases,
    the platform executors, the renderer.  User interfaces and SDKs.  Timestamps that
    nothing reads (those of resolutions and of receipts) are left out of the tables. *)

From Stdlib Require Ascii String.
From stdpp Require Export sorting.
From stdpp Require Export base tactics list gmap strings sets fin_maps relations numbers.
Export list_basics.list list_relations.list list_misc.list.

Abbreviation ascii := Ascii.ascii.
Abbreviation N_of_ascii := Ascii.N_of_ascii.

#[export] Set Default Goal Selector "!".
#[export] Set Warnings "-clear-no-such-hyp".

(** * Rust's [Result] *)

Inductive result (E A : Type) : Type :=
| Ok (a : A)
| Err (e : E).
Arguments Ok {E A} a.
Arguments Err {E A} e.

#[export] Instance result_ret {E} : MRet (result E) := λ A a, Ok a.
#[export] Instance result_bind {E} : MBind (result E) := λ A B f m,
  match m with Ok a => f a | Err e => Err e end.
#[export] Instance result_fmap {E} : FMap (result E) := λ A B f m,
  match m with Ok a => Ok (f a) | Err e => Err e end.
#[export] Instance result_eq_dec {E A} `{EqDecision E, EqDecision A} :
  EqDecision (result E A).
Proof. solve_decision. Defined.

(** [Option::ok_or] and [anyhow]'s [Context] on an option. *)
Definition ok_or {E A} (o : option A) (e : E) : result E A :=
  match o with Some a => Ok a | None => Err e end.

(** [Result::map_err]. *)
Definition map_err {E F A} (f : E → F) (m : result E A) : result F A :=
  match m with Ok a => Ok a | Err e => Err (f e) end.

Definition is_ok {E A} (m : result E A) : bool :=
  match m with Ok _ => true | Err _ => false end.

Lemma bind_Ok {E A B} (m : result E A) (f : A → result E B) b :
  m ≫= f = Ok b ↔ ∃ a, m = Ok a ∧ f a = Ok b.
Proof. destruct m; cbn; split; [eauto|by intros (? & [= <-] & ?)|done|by intros (? & ? & ?)]. Qed.

Lemma ok_or_Ok {E A} (o : option A) (e : E) a : ok_or o e = Ok a ↔ o = Some a.
Proof. destruct o; naive_solver. Qed.

(** * Machine integers

    Unsigned integers are [N] and signed ones [Z]; the operations the source
    uses on them are written at their width. *)

Definition u64_max : N := 18446744073709551615.
Definition i64_max : Z := 9223372036854775807.
Definition i64_min : Z := -9223372036854775808.

Definition u64_saturating_add (a b : N) : N := N.min (a + b) u64_max.
Definition u64_checked_add (a b : N) : option N :=
  if decide (a + b ≤ u64_max)%N then Some (a + b)%N else None.
Definition i64_saturating_add (a b : Z) : Z := Z.max i64_min (Z.min (a + b) i64_max).

Lemma u64_saturating_add_lt a b :
  (a < u64_max → 0 < b → a < u64_saturating_add a b)%N.
Proof. unfold u64_saturating_add. lia. Qed.

Lemma u64_saturating_add_le a b : (a ≤ u64_max → a ≤ u64_saturating_add a b)%N.
Proof. unfold u64_saturating_add. lia. Qed.

Lemma u64_saturating_add_bound a b : (u64_saturating_add a b ≤ u64_max)%N.
Proof. unfold u64_saturating_add. lia. Qed.

Lemma u64_checked_add_Some a b c :
  u64_checked_add a b = Some c ↔ (c = a + b ∧ c ≤ u64_max)%N.
Proof. unfold u64_checked_add. case_decide; split; intros; destruct_and?; simplify_eq; done. Qed.

(** * Ordered maps

    A [BTreeMap<String, V>] is a [gmap string V]; where the source iterates over
    it the order of the keys is observable, so iteration goes through
    [btree_entries], the bindings in the order of their keys' bytes. *)

Definition entry_le {V} (p q : string * V) : Prop := String.le p.1 q.1.
#[export] Instance entry_le_dec {V} : RelDecision (@entry_le V).
Proof. intros p q. unfold entry_le. apply _. Defined.

Definition btree_entries {V} (m : gmap string V) : list (string * V) :=
  merge_sort entry_le (map_to_list m).
Definition btree_values {V} (m : gmap string V) : list V := (btree_entries m).*2.

Section btree.
Context {V : Type}.
Implicit Types (m : gmap string V) (k : string) (v : V).

Lemma btree_entries_perm m : btree_entries m ≡ₚ map_to_list m.
Proof. apply merge_sort_Permutation. Qed.

Lemma elem_of_btree_entries m k v : (k, v) ∈ btree_entries m ↔ m !! k = Some v.
Proof. by rewrite btree_entries_perm, elem_of_map_to_list. Qed.

Lemma elem_of_btree_values m v : v ∈ btree_values m ↔ ∃ k, m !! k = Some v.
Proof.
  unfold btree_values. rewrite list_elem_of_fmap. split.
  - intros ([k v'] & -> & Hkv). exists k. by apply elem_of_btree_entries.
  - intros [k Hkv]. exists (k, v). split; [done|]. by apply elem_of_btree_entries.
Qed.

Lemma length_btree_entries m : length (btree_entries m) = size m.
Proof. by rewrite btree_entries_perm, length_map_to_list. Qed.

#[global] Instance entry_le_total : Total (@entry_le V).
Proof. intros p q. apply (total String.le). Qed.
#[global] Instance entry_le_trans : Transitive (@entry_le V).
Proof. intros p q r. unfold entry_le. apply transitivity. Qed.

Lemma btree_entries_sorted m : StronglySorted entry_le (btree_entries m).
Proof. apply StronglySorted_merge_sort; apply _. Qed.
End btree.

(** * Vectors *)

(** [iter().find(P)] and [iter().rev().find(P)]. *)
Definition find_first {A} (P : A → Prop) `{∀ x, Decision (P x)} (l : list A) : option A :=
  snd <$> list_find P l.
Definition find_last {A} (P : A → Prop) `{∀ x, Decision (P x)} (l : list A) : option A :=
  find_first P (reverse l).

(** [if let Some(x) = iter_mut().rev().find(P) { *x = f(x) }]. *)
Fixpoint alter_first {A} (P : A → Prop) `{∀ x, Decision (P x)} (f : A → A)
    (l : list A) : list A :=
  match l with
  | [] => []
  | x :: l => if decide (P x) then f x :: l else x :: alter_first P f l
  end.
Definition alter_last {A} (P : A → Prop) `{∀ x, Decision (P x)} (f : A → A)
    (l : list A) : list A :=
  reverse (alter_first P f (reverse l)).

(** [values.drain(..values.len() - limit)] when the vector is longer than [limit]. *)
Definition trim_front {A} (values : list A) (limit : nat) : list A :=
  drop (length values - limit) values.

Section vec.
Context {A : Type} (P : A → Prop) `{∀ x, Decision (P x)}.
Implicit Types l : list A.

Lemma find_first_Some l x : find_first P l = Some x → x ∈ l ∧ P x.
Proof.
  unfold find_first. rewrite fmap_Some. intros ([i y] & Hy & ->).
  apply list_find_Some in Hy as (Hi & HP & _). simpl.
  split; [by eapply list_elem_of_lookup_2|done].
Qed.

Lemma find_first_None l : find_first P l = None ↔ Forall (λ x, ¬ P x) l.
Proof. unfold find_first. rewrite fmap_None. apply list_find_None. Qed.

Lemma find_first_is_Some l x : x ∈ l → P x → is_Some (find_first P l).
Proof.
  intros Hx HP. destruct (find_first P l) eqn:E; [eauto|].
  apply find_first_None in E. rewrite Forall_forall in E. by destruct (E x Hx HP).
Qed.

Lemma find_last_Some l x : find_last P l = Some x → x ∈ l ∧ P x.
Proof. unfold find_last. intros [Hx HP]%find_first_Some. by rewrite elem_of_reverse in Hx. Qed.

Lemma find_last_None l : find_last P l = None ↔ Forall (λ x, ¬ P x) l.
Proof. unfold find_last. by rewrite find_first_None, Forall_reverse. Qed.

Lemma find_last_is_Some l x : x ∈ l → P x → is_Some (find_last P l).
Proof. intros Hx HP. eapply find_first_is_Some; [by apply elem_of_reverse|done]. Qed.

Lemma alter_first_split l x f :
  find_first P l = Some x →
  ∃ l1 l2, l = l1 ++ x :: l2 ∧ alter_first P f l = l1 ++ f x :: l2 ∧ Forall (λ y, ¬ P y) l1.
Proof.
  unfold find_first. induction l as [|y l IH]; simpl; [done|]. case_decide as HP; simpl.
  - intros [= ->]. by exists [], l.
  - intros Hx. destruct IH as (l1 & l2 & -> & -> & Hl1).
    { by destruct (list_find P l) as [[??]|]. }
    exists (y :: l1), l2. split_and!; [done..|by constructor].
Qed.

Lemma alter_last_split l x f :
  find_last P l = Some x →
  ∃ l1 l2, l = l1 ++ x :: l2 ∧ alter_last P f l = l1 ++ f x :: l2 ∧ Forall (λ y, ¬ P y) l2.
Proof.
  unfold find_last, alter_last. intros (l1 & l2 & Hl & -> & Hl1)%(alter_first_split _ _ f).
  exists (reverse l2), (reverse l1).
  rewrite <- (reverse_involutive l), Hl, !reverse_app, !reverse_cons, <- !(assoc_L (++)).
  split_and!; [done..|]. by apply Forall_reverse.
Qed.

Lemma length_alter_last l f : length (alter_last P f l) = length l.
Proof.
  unfold alter_last. rewrite length_reverse, <- (length_reverse l).
  generalize (reverse l). intros l'. induction l'; simpl; [done|].
  case_decide; simpl; congruence.
Qed.

Lemma length_trim_front l n : length (trim_front l n) ≤ n.
Proof. unfold trim_front. rewrite length_drop. lia. Qed.

Lemma trim_front_id l n : length l ≤ n → trim_front l n = l.
Proof. intros. unfold trim_front. by replace (length l - n) with 0 by lia. Qed.
End vec.

(** ** Computed results *)

(** The value of a call, to evaluate examples. *)
Definition get_ok {E A} (m : result E A) (default : A) : A :=
  match m with Ok a => a | Err _ => default end.

(** A call that succeeded, and a lookup that found something. *)
Lemma ok_pair {E A C} (p : C * result E A) (default : A) :
  is_ok p.2 = true → p = (p.1, Ok (get_ok p.2 default)).
Proof. by destruct p as [? []]. Qed.

Lemma some_default {A} (o : option A) (x : A) :
  match o with Some _ => true | None => false end = true → o = Some (default x o).
Proof. by destruct o. Qed.

(** ** Sorting *)

(** Stable insertion sort: the order of [sort_by_key], and of [ORDER BY]. *)
Fixpoint insert_by {A} (leb : A → A → bool) (x : A) (l : list A) : list A :=
  match l with
  | [] => [x]
  | y :: l => if leb x y then x :: y :: l else y :: insert_by leb x l
  end.
Definition sort_by {A} (leb : A → A → bool) (l : list A) : list A :=
  foldr (insert_by leb) [] l.

Lemma insert_by_perm {A} (leb : A → A → bool) x l : insert_by leb x l ≡ₚ x :: l.
Proof.
  induction l as [|y l IH]; simpl; [done|]. case_match; [done|].
  rewrite IH. apply Permutation_swap.
Qed.

Lemma sort_by_perm {A} (leb : A → A → bool) l : sort_by leb l ≡ₚ l.
Proof. induction l as [|x l IH]; simpl; [done|]. by rewrite insert_by_perm, IH. Qed.

Lemma elem_of_sort_by {A} (leb : A → A → bool) l x : x ∈ sort_by leb l ↔ x ∈ l.
Proof. by rewrite sort_by_perm. Qed.

Lemma insert_by_least {A} (leb : A → A → bool) x l : HdRel (λ a b, leb a b = true) x l → insert_by leb x l = x :: l.
Proof. destruct l as [|y l]; simpl; [done|]. intros Hx. inversion Hx as [|? ? Hy]. by rewrite Hy. Qed.
Lemma sort_by_sorted {A} (leb : A → A → bool) l : Sorted (λ a b, leb a b = true) l → sort_by leb l = l.
Proof. induction 1 as [|x l _ IH Hx]; simpl; [done|]. rewrite IH. by apply insert_by_least. Qed.
Lemma insert_by_sorted {A} (leb : A → A → bool) x l : (∀ a b, leb a b = true ∨ leb b a = true) →
  Sorted (λ a b, leb a b = true) l → Sorted (λ a b, leb a b = true) (insert_by leb x l).
Proof.
  intros Ht. induction 1 as [|y l Hs IH Hy]; simpl; [by repeat constructor|]. destruct (leb x y) eqn:Hxy.
  - constructor; [by constructor|by constructor].
  - constructor; [done|]. destruct l as [|z l]; simpl in *; [constructor; by destruct (Ht x y) as [|]; congruence|].
    destruct (leb x z); constructor; [destruct (Ht x y); congruence|by inversion Hy].
Qed.
Lemma sort_by_idemp {A} (leb : A → A → bool) l : (∀ a b, leb a b = true ∨ leb b a = true) →
  sort_by leb (sort_by leb l) = sort_by leb l.
Proof.
  intros Ht. apply sort_by_sorted. induction l as [|x l IH]; simpl; [constructor|]. by apply insert_by_sorted.
Qed.
Lemma forallb_sort_by {A} (leb : A → A → bool) f l : forallb f (sort_by leb l) = forallb f l.
Proof.
  apply Bool.eq_iff_eq_true. rewrite !forallb_forall. split; intros Hf x Hx; apply Hf.
  - by apply list_elem_of_In, elem_of_sort_by, list_elem_of_In.
  - by apply list_elem_of_In, elem_of_sort_by, list_elem_of_In in Hx.
Qed.

Lemma foldl_inv {A B} (P : A → Prop) (f : A → B → A) (l : list B) (a : A) :
  P a → (∀ a x, x ∈ l → P a → P (f a x)) → P (foldl f a l).
Proof.
  revert a. induction l as [|x l IH]; intros a Ha Hf; simpl; [done|].
  apply IH; [apply Hf; set_solver|set_solver].
Qed.

Lemma filter_same_length {A} (P : A → Prop) `{∀ x, Decision (P x)} (l : list A) :
  length l ≤ length (filter P l) → filter P l = l.
Proof.
  induction l as [|x l IH]; [done|]. rewrite filter_cons. case_decide; simpl; intros Hl.
  - f_equal. apply IH. lia.
  - assert (Hle := length_filter P l). lia.
Qed.

Lemma string_app_assoc (a b c : string) : a +:+ b +:+ c = (a +:+ b) +:+ c.
Proof. induction a as [|x a IH]; [done|]. exact (f_equal (String.String x) IH). Qed.

(** A guard [a || b || ..] that did not fire. *)
Lemma not_or_and (P Q : Prop) : ¬ (P ∨ Q) → ¬ P ∧ ¬ Q.
Proof. tauto. Qed.

(** * Automation *)

Create HintDb piqae.
Create Rewrite HintDb piqae.
#[export] Hint Resolve u64_saturating_add_bound u64_saturating_add_le : piqae.
#[export] Hint Rewrite @elem_of_btree_entries @elem_of_btree_values @length_btree_entries : piqae.

(** Splits every conditional and option test of a hypothesis [H : body = r] and
    discards the branches the equation rules out. *)
Ltac branches H :=
  repeat (simplify_eq/=; case_match; simplify_eq/=; try (by inversion H)).

(** Case analysis on all conditionals of the goal. *)
Ltac cases_goal := repeat (case_match; simplify_eq/=).
