(* ===== verification/Domain.v ===== *)
(** The domain crate: job states and their canonical state machine, job options
    and their bounds, typed identifiers, printer capability profiles
    (crates/domain/src/{job,id,printer,profile}.rs). *)

From S2P Require Import Prelude.

(** * Text

    A Rust string is the sequence of its UTF-8 bytes. *)

(** [u8::is_ascii_control]: 0x00..=0x1F and 0x7F. *)
Definition is_ascii_control (c : ascii) : bool :=
  let n := N_of_ascii c in (n <? 32)%N || (n =? 127)%N.

(** [u8::is_ascii_hexdigit]. *)
Definition is_ascii_hexdigit (c : ascii) : bool :=
  let n := N_of_ascii c in
  ((48 <=? n) && (n <=? 57) || (65 <=? n) && (n <=? 70) || (97 <=? n) && (n <=? 102))%N.

(** [value.bytes().any(p)] and [value.bytes().all(p)]. *)
Fixpoint bytes_any (p : ascii → bool) (s : string) : bool :=
  match s with
  | String.EmptyString => false
  | String.String c s => p c || bytes_any p s
  end.
Fixpoint bytes_all (p : ascii → bool) (s : string) : bool :=
  match s with
  | String.EmptyString => true
  | String.String c s => p c && bytes_all p s
  end.

(** [value.contains(c)] for an ASCII character [c]. *)
Definition contains_char (c : ascii) (s : string) : bool :=
  bytes_any (Ascii.eqb c) s.

(** [value.strip_prefix(p)]. *)
Fixpoint strip_prefix (p s : string) : option string :=
  match p, s with
  | String.EmptyString, _ => Some s
  | String.String a p, String.String b s => if Ascii.eqb a b then strip_prefix p s else None
  | String.String _ _, String.EmptyString => None
  end.

(** [value.trim().is_empty()]: every character has Unicode's White_Space
    property.  Its characters outside ASCII are U+0085, U+00A0, U+1680,
    U+2000..U+200A, U+2028, U+2029, U+202F, U+205F and U+3000, matched here by
    their UTF-8 encodings. *)
Fixpoint is_blank (s : string) : bool :=
  match s with
  | String.EmptyString => true
  | String.String a s1 =>
    let n := N_of_ascii a in
    if ((9 <=? n) && (n <=? 13) || (n =? 32))%N then is_blank s1 else
    match s1 with
    | String.EmptyString => false
    | String.String b s2 =>
      let m := N_of_ascii b in
      if ((n =? 194) && ((m =? 133) || (m =? 160)))%N then is_blank s2 else
      match s2 with
      | String.EmptyString => false
      | String.String c s3 =>
        let o := N_of_ascii c in
        if ((n =? 225) && (m =? 154) && (o =? 128)
            || (n =? 226) && (m =? 128)
               && ((128 <=? o) && (o <=? 138) || (o =? 168) || (o =? 169) || (o =? 175))
            || (n =? 226) && (m =? 129) && (o =? 159)
            || (n =? 227) && (m =? 128) && (o =? 128))%N
        then is_blank s3 else false
      end
    end
  end.

(** * Jobs (crates/domain/src/job.rs) *)

Module Job.

Definition MAX_JOB_COPIES : N := 32767.
Definition MAX_JOB_NUP : N := 64.
Definition MAX_JOB_OPTION_TEXT_BYTES : nat := 4096.
Definition MAX_JOB_NATIVE_OPTIONS : nat := 256.
Definition MAX_JOB_NATIVE_OPTION_NAME_BYTES : nat := 255.

Inductive ContentKind := Pdf | Raw.
Inductive Duplex := OneSided | LongEdge | ShortEdge.
Inductive Rotation := Deg0 | Deg90 | Deg180 | Deg270.

#[export] Instance ContentKind_eq_dec : EqDecision ContentKind.
Proof. solve_decision. Defined.
#[export] Instance Duplex_eq_dec : EqDecision Duplex.
Proof. solve_decision. Defined.
#[export] Instance Rotation_eq_dec : EqDecision Rotation.
Proof. solve_decision. Defined.

Record JobOptions := {
  bin : option string;
  collate : option bool;
  color : option bool;
  copies : option N;
  dpi : option string;
  duplex : option Duplex;
  fit_to_page : option bool;
  media : option string;
  nup : option N;
  pages : option string;
  paper : option string;
  rotate : option Rotation;
  native_options : gmap string string;
}.

#[export] Instance JobOptions_eq_dec : EqDecision JobOptions.
Proof. solve_decision. Defined.

(** [JobOptions::default()]. *)
Definition default_options : JobOptions := {|
  bin := None; collate := None; color := None; copies := None; dpi := None;
  duplex := None; fit_to_page := None; media := None; nup := None; pages := None;
  paper := None; rotate := None; native_options := ∅
|}.

Definition is_none {A} (o : option A) : bool := match o with None => true | Some _ => false end.

Definition is_empty (o : JobOptions) : bool :=
  is_none o.(bin) && is_none o.(collate) && is_none o.(color) && is_none o.(copies)
  && is_none o.(dpi) && is_none o.(duplex) && is_none o.(fit_to_page) && is_none o.(media)
  && is_none o.(nup) && is_none o.(pages) && is_none o.(paper) && is_none o.(rotate)
  && bool_decide (o.(native_options) = ∅).

Inductive JobOptionsError :=
| CopiesOutOfRange
| NupOutOfRange
| InvalidText (name : string)
| TooManyNativeOptions
| InvalidNativeOption (name : string).

Definition invalid_option_text (value : string) : bool :=
  String.eqb value "" || (MAX_JOB_OPTION_TEXT_BYTES <? String.length value)%nat
  || bytes_any (λ byte, Ascii.eqb byte Ascii.zero || is_ascii_control byte) value.

Definition is_some_and {A} (o : option A) (p : A → bool) : bool :=
  match o with Some a => p a | None => false end.

(** The loop over the five textual options, in the order of the source. *)
Fixpoint check_texts (l : list (string * option string)) : result JobOptionsError unit :=
  match l with
  | [] => Ok ()
  | (name, value) :: l =>
    if is_some_and value invalid_option_text then Err (InvalidText name) else check_texts l
  end.

Definition invalid_native_option (name value : string) : bool :=
  String.eqb name "" || (MAX_JOB_NATIVE_OPTION_NAME_BYTES <? String.length name)%nat
  || bytes_any is_ascii_control name || invalid_option_text value.

(** The loop over [native_options], in the order of the keys. *)
Fixpoint check_native_options (l : list (string * string)) : result JobOptionsError unit :=
  match l with
  | [] => Ok ()
  | (name, value) :: l =>
    if invalid_native_option name value then Err (InvalidNativeOption name)
    else check_native_options l
  end.

Definition validate_bounds (o : JobOptions) : result JobOptionsError unit :=
  if is_some_and o.(copies) (λ v, (v =? 0) || (MAX_JOB_COPIES <? v))%N
  then Err CopiesOutOfRange else
  if is_some_and o.(nup) (λ v, (v =? 0) || (MAX_JOB_NUP <? v))%N
  then Err NupOutOfRange else
  _ ← check_texts [("bin", o.(bin)); ("dpi", o.(dpi)); ("media", o.(media));
                   ("pages", o.(pages)); ("paper", o.(paper))]%string;
  if (MAX_JOB_NATIVE_OPTIONS <? size o.(native_options))%nat
  then Err TooManyNativeOptions else
  check_native_options (btree_entries o.(native_options)).

(** Rotation's integer encoding. *)
Definition serialize_rotation (r : Rotation) : N :=
  match r with Deg0 => 0 | Deg90 => 90 | Deg180 => 180 | Deg270 => 270 end.
Definition deserialize_rotation (n : N) : option Rotation :=
  if (n =? 0)%N then Some Deg0 else
  if (n =? 90)%N then Some Deg90 else
  if (n =? 180)%N then Some Deg180 else
  if (n =? 270)%N then Some Deg270 else None.

(** ** The state machine *)

Inductive JobState :=
| Registered | ContentPending | WaitingForAgent | AgentDownloading | AgentAccepted
| QueuedLocal | Preparing | Rendering | SpoolIntent | AcceptedBySpooler | Spooling
| Printing | Blocked | CompletedReported | DeliveryUncertain | CancelRequested
| Cancelled | Expired | FailedRetryable | FailedTerminal.

#[export] Instance JobState_eq_dec : EqDecision JobState.
Proof. solve_decision. Defined.

Definition all_states : list JobState :=
  [Registered; ContentPending; WaitingForAgent; AgentDownloading; AgentAccepted;
   QueuedLocal; Preparing; Rendering; SpoolIntent; AcceptedBySpooler; Spooling;
   Printing; Blocked; CompletedReported; DeliveryUncertain; CancelRequested;
   Cancelled; Expired; FailedRetryable; FailedTerminal].

Definition is_terminal (s : JobState) : bool :=
  match s with
  | CompletedReported | DeliveryUncertain | Cancelled | Expired | FailedTerminal => true
  | _ => false
  end.

Definition can_transition_to (s next : JobState) : bool :=
  match s, next with
  | Registered, (ContentPending | WaitingForAgent | CancelRequested | Expired)
  | ContentPending, (WaitingForAgent | CancelRequested | Expired | FailedTerminal)
  | WaitingForAgent, (AgentDownloading | CancelRequested | Expired | FailedRetryable)
  | AgentDownloading, (AgentAccepted | WaitingForAgent | CancelRequested | Expired | FailedRetryable)
  | AgentAccepted, (QueuedLocal | CancelRequested | FailedRetryable)
  | QueuedLocal, (Preparing | CancelRequested | Blocked | Expired | FailedRetryable)
  | Preparing, (Rendering | SpoolIntent | CancelRequested | FailedRetryable | FailedTerminal)
  | Rendering, (SpoolIntent | CancelRequested | FailedRetryable | FailedTerminal)
  | SpoolIntent, (AcceptedBySpooler | DeliveryUncertain | FailedRetryable | FailedTerminal)
  | AcceptedBySpooler, (Spooling | Printing | CompletedReported | Blocked | DeliveryUncertain
                        | Cancelled | FailedTerminal)
  | Spooling, (Printing | CompletedReported | Blocked | DeliveryUncertain | Cancelled
               | FailedTerminal)
  | Printing, (CompletedReported | Blocked | DeliveryUncertain | Cancelled | FailedTerminal)
  | Blocked, (Spooling | Printing | CompletedReported | CancelRequested | Cancelled
              | FailedRetryable | FailedTerminal)
  | CancelRequested, (Cancelled | DeliveryUncertain | CompletedReported)
  | FailedRetryable, (WaitingForAgent | QueuedLocal | CancelRequested | Expired) => true
  | _, _ => false
  end.

Record StateTransitionError := { from : JobState; to : JobState }.

Definition validate_transition (f t : JobState) : result StateTransitionError unit :=
  if can_transition_to f t then Ok () else Err {| from := f; to := t |}.

Inductive JobFailureReason :=
| AgentUnavailable | ContentUnavailable | ContentChecksumMismatch | DownloadTimedOut
| InvalidPdf | UnsupportedOption | PrinterOffline | PrinterPaused | PaperOut
| AccessDenied | DriverError | ExecutorCrashed | ExecutorTimedOut | NodeUpdateRequired
| TargetConfigurationChanged | StockNotLoaded | DocumentMediaIncompatible
| AmbiguousHandoff | CancelledByUser | ReasonExpired | Internal.

#[export] Instance JobFailureReason_eq_dec : EqDecision JobFailureReason.
Proof. solve_decision. Defined.

End Job.

(** * Typed identifiers (crates/domain/src/id.rs)

    The [ulid] crate supplies the inner encoding; the laws are its documented
    ones: a ULID's text parses back, and it is Crockford base 32, which has no
    underscore. *)

Module Id.

Class UlidCodec := {
  Ulid : Type;
  ulid_to_string : Ulid → string;
  ulid_from_string : string → option Ulid;
}.

Class UlidLaws (U : UlidCodec) := {
  ulid_round_trip : ∀ u, ulid_from_string (ulid_to_string u) = Some u;
  ulid_no_underscore : ∀ u, contains_char (Ascii.ascii_of_N 95) (ulid_to_string u) = false;
}.

Record ParseTypedIdError := { value : string; expected_prefix : string }.

Section typed_id.
Context `{UlidCodec}.

Definition underscore : ascii := Ascii.ascii_of_N 95.

(** [Display::fmt] of the type the macro declares with [prefix]. *)
Definition display (prefix : string) (id : Ulid) : string :=
  prefix +:+ "_" +:+ ulid_to_string id.

(** [FromStr::from_str]. *)
Definition from_str (prefix v : string) : result ParseTypedIdError Ulid :=
  let err := {| value := v; expected_prefix := prefix |} in
  encoded ← match strip_prefix (prefix +:+ "_") v with
            | Some encoded => Ok encoded
            | None => if contains_char underscore v then Err err else Ok v
            end;
  ok_or (ulid_from_string encoded) err.
End typed_id.

(** The prefixes of the declared identifier types. *)
Definition prefixes : list string :=
  ["wsp"; "env"; "agt"; "ptr"; "dev"; "prf"; "npb"; "stk"; "tgt"; "bnd"; "pcs"; "job"; "evt"].

End Id.

(** * Printers (crates/domain/src/printer.rs) *)

Module Printer.

Definition PRINTER_PROFILE_SCHEMA_VERSION : N := 1.

Inductive PrinterState := Online | Offline | Paused | Busy | PaperOut | Error | Unknown.
#[export] Instance PrinterState_eq_dec : EqDecision PrinterState.
Proof. solve_decision. Defined.

Record NativePrinterChoice := { choice_value : string; choice_display_name : string }.

Record NativePrinterOption := {
  display_name : string;
  default_choice : option string;
  selected_choice : option string;
  choices : list NativePrinterChoice;
}.

(** [portable] is carried through [validate] untouched; it is a type parameter. *)
Record PrinterCapabilityProfile (Portable : Type) := {
  schema_version : N;
  revision : N;
  portable : Portable;
  native_options : gmap string NativePrinterOption;
}.
Arguments schema_version {Portable} _.
Arguments revision {Portable} _.
Arguments portable {Portable} _.
Arguments native_options {Portable} _.

Inductive PrinterProfileError :=
| UnsupportedSchema (v : N)
| EmptyOptionKey
| EmptyOptionName (key : string)
| InvalidChoice (key : string)
| UnknownDefault (key : string)
| UnknownSelection (key : string).

Definition draft {P} (portable : P) (native_options : gmap string NativePrinterOption) :
    PrinterCapabilityProfile P :=
  {| schema_version := PRINTER_PROFILE_SCHEMA_VERSION; revision := 0;
     portable := portable; native_options := native_options |}.

(** The loop over an option's choices; [None] when a value is blank or repeated,
    otherwise the set of the values. *)
Fixpoint collect_choices (cs : list NativePrinterChoice) (seen : gset string) :
    option (gset string) :=
  match cs with
  | [] => Some seen
  | c :: cs =>
    if is_blank c.(choice_value) || bool_decide (c.(choice_value) ∈ seen) then None
    else collect_choices cs ({[c.(choice_value)]} ∪ seen)
  end.

(** [if let Some(x) = o && !option.choices.is_empty() && !choices.contains(x)]. *)
Definition absent_choice (o : option string) (cs : list NativePrinterChoice)
    (seen : gset string) : bool :=
  match o with
  | Some x => negb (bool_decide (cs = [])) && negb (bool_decide (x ∈ seen))
  | None => false
  end.

Definition validate_option (key : string) (o : NativePrinterOption) :
    result PrinterProfileError unit :=
  if is_blank key then Err EmptyOptionKey else
  if is_blank o.(display_name) then Err (EmptyOptionName key) else
  match collect_choices o.(choices) ∅ with
  | None => Err (InvalidChoice key)
  | Some seen =>
    if absent_choice o.(default_choice) o.(choices) seen then Err (UnknownDefault key) else
    if absent_choice o.(selected_choice) o.(choices) seen then Err (UnknownSelection key) else
    Ok ()
  end.

Fixpoint validate_options (l : list (string * NativePrinterOption)) :
    result PrinterProfileError unit :=
  match l with
  | [] => Ok ()
  | (key, o) :: l => _ ← validate_option key o; validate_options l
  end.

Definition validate {P} (p : PrinterCapabilityProfile P) : result PrinterProfileError unit :=
  if bool_decide (p.(schema_version) = PRINTER_PROFILE_SCHEMA_VERSION)
  then validate_options (btree_entries p.(native_options))
  else Err (UnsupportedSchema p.(schema_version)).

End Printer.

(** * Properties of the state machine *)

Module JobFacts.
Import Job.

Definition job_step (s t : JobState) : Prop := can_transition_to s t = true.

Lemma elem_of_all_states s : s ∈ all_states.
Proof. destruct s; vm_compute; set_solver. Qed.

(** A finite check over the table decides a closed set of states. *)
Lemma rtc_closed (P : JobState → bool) (R : relation JobState) s t :
  (∀ x y, P x = true → R x y → P y = true) → P s = true → rtc R s t → P t = true.
Proof. intros HR Hs Hst. induction Hst; eauto. Qed.

(** A job state is terminal exactly when the transition table has no edge
    out of it, so a terminal job never restarts implicitly. *)
Theorem terminal_iff_stuck s :
  is_terminal s = true ↔ ∀ t, validate_transition s t = Err {| from := s; to := t |}.
Proof.
  split.
  - by destruct s; intros Hs [].
  - intros H. destruct s; try done; exfalso;
      first [by specialize (H ContentPending)|by specialize (H WaitingForAgent)
            |by specialize (H AgentDownloading)|by specialize (H AgentAccepted)
            |by specialize (H QueuedLocal)|by specialize (H Preparing)
            |by specialize (H SpoolIntent)|by specialize (H AcceptedBySpooler)
            |by specialize (H Printing)|by specialize (H Cancelled)
            |by specialize (H CompletedReported)].
Qed.

(** The states a job can be in once the spooler has accepted it and while no
    report of a blocked queue has been resolved as a retryable failure. *)
Definition handed_off (s : JobState) : bool :=
  match s with
  | AcceptedBySpooler | Spooling | Printing | Blocked | CompletedReported
  | DeliveryUncertain | Cancelled | FailedTerminal => true
  | _ => false
  end.

(** After the spooler accepted a job, no sequence of transitions that does
    not leave [Blocked] leads back to a state before the native handoff: the
    job stays in the states after it. *)
Theorem handoff_is_not_replayed t :
  rtc (λ s t, s ≠ Blocked ∧ job_step s t) AcceptedBySpooler t → handed_off t = true.
Proof.
  apply (rtc_closed handed_off); [|done].
  by intros [] [] Hx [Hb Hstep].
Qed.

Lemma handoff_is_not_replayed_witness :
  rtc (λ s t, s ≠ Blocked ∧ job_step s t) AcceptedBySpooler CompletedReported ∧
  handed_off CompletedReported = true.
Proof.
  assert (H : rtc (λ s t, s ≠ Blocked ∧ job_step s t) AcceptedBySpooler CompletedReported).
  { apply rtc_l with Printing; [by split|]. by apply rtc_once. }
  split; [exact H|]. exact (handoff_is_not_replayed _ H).
Defined.

(** The table itself does not separate a queue blocked before the handoff
    from a job blocked after it: from [AcceptedBySpooler] a job can reach
    [SpoolIntent] again through [Blocked] and [FailedRetryable]. *)
Theorem blocked_reopens_submission :
  rtc job_step AcceptedBySpooler SpoolIntent ∧
  ∀ t, job_step t FailedRetryable → handed_off t = true → t = Blocked.
Proof.
  split.
  - apply rtc_l with Blocked; [done|]. apply rtc_l with FailedRetryable; [done|].
    apply rtc_l with QueuedLocal; [done|]. apply rtc_l with Preparing; [done|].
    by apply rtc_once.
  - by intros [].
Qed.

(** Whatever the state of a job, some sequence of permitted transitions ends
    in a terminal state, and every state is reachable from [Registered]. *)
Theorem no_job_is_stranded s :
  rtc job_step Registered s ∧ ∃ t, rtc job_step s t ∧ is_terminal t = true.
Proof.
  assert (Hfwd : ∀ x y z, rtc job_step x y → job_step y z → rtc job_step x z)
    by (intros; eapply rtc_r; eauto).
  assert (Hw : rtc job_step Registered WaitingForAgent) by (by apply rtc_once).
  assert (Hd : rtc job_step Registered AgentDownloading) by (by eapply Hfwd).
  assert (Ha : rtc job_step Registered AgentAccepted) by (by eapply Hfwd).
  assert (Hq : rtc job_step Registered QueuedLocal) by (by eapply Hfwd).
  assert (Hp : rtc job_step Registered Preparing) by (by eapply Hfwd).
  assert (Hr : rtc job_step Registered Rendering) by (by eapply Hfwd).
  assert (Hi : rtc job_step Registered SpoolIntent) by (by eapply Hfwd).
  assert (Hs : rtc job_step Registered AcceptedBySpooler) by (by eapply Hfwd).
  assert (Hc : rtc job_step Registered CancelRequested) by (by apply rtc_once).
  split.
  - destruct s; try done;
      first [by apply rtc_refl|by apply rtc_once|by eapply (Hfwd _ _ _ Hs)
            |by eapply (Hfwd _ _ _ Hi)|by eapply (Hfwd _ _ _ Hc)].
  - assert (Hterm : ∀ x y, job_step x y → is_terminal y = true →
              ∃ t, rtc job_step x t ∧ is_terminal t = true)
      by (intros x y ??; exists y; split; [by apply rtc_once|done]).
    destruct s; first [by apply (Hterm _ Expired)|by apply (Hterm _ FailedTerminal)
                      |by apply (Hterm _ Cancelled)|(by eexists; split; [apply rtc_refl|])|idtac].
    exists Cancelled. split; [|done].
    apply rtc_l with CancelRequested; [done|by apply rtc_once].
Qed.

(** * Properties of the option bounds *)

Definition text_ok (v : string) : Prop :=
  v ≠ ""%string ∧ String.length v ≤ MAX_JOB_OPTION_TEXT_BYTES ∧ bytes_all (λ c, negb (is_ascii_control c)) v = true.

Lemma bytes_any_all p q s :
  (∀ c, q c = negb (p c)) → bytes_any p s = false ↔ bytes_all q s = true.
Proof.
  intros Hpq. induction s as [|c s IH]; simpl; [done|].
  rewrite Hpq, orb_false_iff, andb_true_iff, negb_true_iff. tauto.
Qed.

Lemma control_zero c : Ascii.eqb c Ascii.zero || is_ascii_control c = is_ascii_control c.
Proof. by destruct c as [[] [] [] [] [] [] [] []]. Qed.

Lemma invalid_option_text_spec v : invalid_option_text v = false ↔ text_ok v.
Proof.
  unfold invalid_option_text, text_ok.
  rewrite !orb_false_iff, Nat.ltb_ge, (bytes_any_all _ (λ c, negb (is_ascii_control c))).
  - destruct (String.eqb_spec v ""); naive_solver.
  - intros c. by rewrite control_zero.
Qed.

Definition opt_all {A} (P : A → Prop) (o : option A) : Prop := from_option P True o.

(** What [validate_bounds] promises to every executor. *)
Record bounds_ok (o : JobOptions) : Prop := {
  copies_ok : opt_all (λ v, 1 ≤ v ≤ 32767)%N o.(copies);
  nup_ok : opt_all (λ v, 1 ≤ v ≤ 64)%N o.(nup);
  bin_ok : opt_all text_ok o.(bin);
  dpi_ok : opt_all text_ok o.(dpi);
  media_ok : opt_all text_ok o.(media);
  pages_ok : opt_all text_ok o.(pages);
  paper_ok : opt_all text_ok o.(paper);
  native_count_ok : size o.(native_options) ≤ 256;
  native_ok : map_Forall (λ name value,
    name ≠ ""%string ∧ String.length name ≤ 255 ∧
    bytes_all (λ c, negb (is_ascii_control c)) name = true ∧ text_ok value) o.(native_options);
}.

Lemma is_some_and_false {A} (o : option A) (p : A → bool) (P : A → Prop) :
  (∀ a, p a = false ↔ P a) → is_some_and o p = false ↔ opt_all P o.
Proof. intros Hp. destruct o; simpl; [apply Hp|done]. Qed.

Lemma check_texts_Ok l :
  check_texts l = Ok () ↔ Forall (λ nv, opt_all text_ok nv.2) l.
Proof.
  induction l as [|[name value] l IH]; simpl; [done|].
  rewrite Forall_cons, <- IH. simpl.
  rewrite <- (is_some_and_false _ invalid_option_text) by apply invalid_option_text_spec.
  by destruct (is_some_and value invalid_option_text); naive_solver.
Qed.

Lemma invalid_native_option_spec name value :
  invalid_native_option name value = false ↔
  name ≠ ""%string ∧ String.length name ≤ 255 ∧
  bytes_all (λ c, negb (is_ascii_control c)) name = true ∧ text_ok value.
Proof.
  unfold invalid_native_option.
  rewrite !orb_false_iff, Nat.ltb_ge, invalid_option_text_spec.
  rewrite (bytes_any_all _ (λ c, negb (is_ascii_control c))) by done.
  unfold MAX_JOB_NATIVE_OPTION_NAME_BYTES.
  destruct (String.eqb_spec name ""); naive_solver.
Qed.

Lemma check_native_options_Ok l :
  check_native_options l = Ok () ↔
  Forall (λ nv, invalid_native_option nv.1 nv.2 = false) l.
Proof.
  induction l as [|[name value] l IH]; simpl; [done|].
  rewrite Forall_cons, <- IH. simpl.
  by destruct (invalid_native_option name value); naive_solver.
Qed.

Lemma range_check (m v : N) : ((v =? 0) || (m <? v) = false ↔ 1 ≤ v ≤ m)%N.
Proof. rewrite orb_false_iff, N.eqb_neq, N.ltb_ge. lia. Qed.

(** [validate_bounds] accepts exactly the options whose every field is
    inside its documented bound: the copy and n-up ranges, bounded text without
    control characters, at most 256 native options with bounded names. *)
Theorem validate_bounds_exact o : validate_bounds o = Ok () ↔ bounds_ok o.
Proof.
  unfold validate_bounds.
  assert (Hc := is_some_and_false (copies o) _ _ (range_check MAX_JOB_COPIES)).
  assert (Hn := is_some_and_false (nup o) _ _ (range_check MAX_JOB_NUP)).
  assert (Ht := check_texts_Ok [("bin", o.(bin)); ("dpi", o.(dpi)); ("media", o.(media));
                   ("pages", o.(pages)); ("paper", o.(paper))]%string).
  rewrite !Forall_cons in Ht. simpl in Ht.
  assert (Hm : check_native_options (btree_entries (native_options o)) = Ok () ↔
    map_Forall (λ name value,
      name ≠ ""%string ∧ String.length name ≤ 255 ∧
      bytes_all (λ c, negb (is_ascii_control c)) name = true ∧ text_ok value) o.(native_options)).
  { rewrite check_native_options_Ok, btree_entries_perm, map_Forall_to_list.
    apply Forall_proper; [|done]. intros [name value]. simpl. apply invalid_native_option_spec. }
  destruct (is_some_and (copies o)) eqn:Ec.
  { split; [done|]. intros []. by apply Hc in copies_ok0. }
  destruct (is_some_and (nup o)) eqn:En.
  { split; [done|]. intros []. by apply Hn in nup_ok0. }
  rewrite bind_Ok. split.
  - intros ([] & Htx & Hrest). case_match eqn:Es; [done|].
    apply Nat.ltb_ge in Es. apply Hm in Hrest. apply Ht in Htx. destruct_and!.
    split; try done; [by apply Hc|by apply Hn].
  - intros []. exists (). split; [by apply Ht|].
    rewrite (proj2 (Nat.ltb_ge _ _)) by done. by apply Hm.
Qed.

(** [JobOptions::is_empty] holds exactly for the default options, the ones
    the raw-job policy admits. *)
Theorem is_empty_iff_default o : is_empty o = true ↔ o = default_options.
Proof.
  split; [|by intros ->].
  destruct o as [[] [] [] [] [] [] [] [] [] [] [] [] m]; try done.
  unfold is_empty. simpl. rewrite bool_decide_eq_true. by intros ->.
Qed.

(** A rotation's number decodes to the rotation, and nothing else decodes:
    serialisation and deserialisation of [Rotation] are inverse partial maps. *)
Theorem rotation_round_trip n r : deserialize_rotation n = Some r ↔ n = serialize_rotation r.
Proof.
  split; [|by intros ->; destruct r].
  unfold deserialize_rotation. repeat case_match; intros; simplify_eq; by apply N.eqb_eq.
Qed.

End JobFacts.

(** * Properties of typed identifiers *)

Module IdFacts.
Import Id.
Section id.
Context `{U : UlidCodec} `{!UlidLaws U}.

Lemma strip_prefix_app p s : strip_prefix p (p +:+ s) = Some s.
Proof. induction p as [|c p IH]; simpl; [done|]. by rewrite Ascii.eqb_refl. Qed.

Lemma strip_prefix_Some p s t : strip_prefix p s = Some t → s = p +:+ t.
Proof.
  revert s. induction p as [|c p IH]; simpl; [by intros ? [= ->]|].
  intros [|d s]; [done|]. destruct (Ascii.eqb_spec c d) as [->|]; [|done].
  intros ->%IH. done.
Qed.

Lemma contains_char_app c p s :
  contains_char c (p +:+ s) = contains_char c p || contains_char c s.
Proof. unfold contains_char. induction p; simpl; [done|]. by rewrite IHp, orb_assoc. Qed.

Lemma strip_prefix_no_underscore p s :
  contains_char underscore s = false → strip_prefix (p +:+ "_") s = None.
Proof.
  intros Hs. destruct (strip_prefix _ s) eqn:E; [|done].
  apply strip_prefix_Some in E as ->.
  rewrite !contains_char_app in Hs. by destruct (contains_char underscore p).
Qed.

(** An identifier's text parses back to it, with its prefix and bare. *)
Theorem typed_id_round_trip prefix id :
  from_str prefix (display prefix id) = Ok id ∧ from_str prefix (ulid_to_string id) = Ok id.
Proof.
  unfold from_str, display. split.
  - assert (E : prefix +:+ "_" +:+ ulid_to_string id
                = (prefix +:+ "_") +:+ ulid_to_string id).
    { apply string_app_assoc. }
    rewrite E, strip_prefix_app. cbn. by rewrite ulid_round_trip.
  - rewrite strip_prefix_no_underscore by apply ulid_no_underscore.
    change underscore with (Ascii.ascii_of_N 95).
    rewrite ulid_no_underscore. cbn. by rewrite ulid_round_trip.
Qed.

(** An identifier of one resource never parses as an identifier of
    another: the declared prefixes are told apart whatever the ULID. *)
Theorem typed_id_rejects_other_prefix p q id :
  p ∈ prefixes → q ∈ prefixes → p ≠ q →
  from_str p (display q id) = Err {| value := display q id; expected_prefix := p |}.
Proof.
  intros Hp Hq Hpq. unfold from_str.
  assert (strip_prefix (p +:+ "_") (display q id) = None) as ->.
  { unfold display, prefixes in *.
    rewrite !elem_of_cons in Hp, Hq.
    destruct_or!; subst; try done; by apply elem_of_nil in Hp || apply elem_of_nil in Hq. }
  unfold display. rewrite !contains_char_app, orb_true_r. done.
Qed.
End id.

(** A codec with a single ULID, for the witnesses. *)
#[local] Instance unit_codec : UlidCodec :=
  {| Ulid := unit; ulid_to_string := λ _, "01ARZ3NDEKTSV4RRFFQ69G5FAV"%string;
     ulid_from_string := λ s,
       if String.eqb s "01ARZ3NDEKTSV4RRFFQ69G5FAV" then Some () else None |}.
#[local] Instance unit_codec_laws : UlidLaws unit_codec.
Proof. split; intros []; reflexivity. Defined.

Lemma typed_id_round_trip_witness :
  from_str "agt" (display "agt" ()) = Ok () ∧ from_str "agt" (ulid_to_string ()) = Ok ().
Proof. exact (typed_id_round_trip "agt" ()). Defined.

Lemma typed_id_rejects_other_prefix_witness :
  from_str "agt" (display "job" ()) =
    Err {| value := display "job" (); expected_prefix := "agt" |}.
Proof.
  refine (typed_id_rejects_other_prefix "agt" "job" () _ _ _).
  - by apply (bool_decide_unpack _).
  - by apply (bool_decide_unpack _).
  - discriminate.
Defined.

End IdFacts.

(** * Properties of printer capability profiles *)

Module PrinterFacts.
Import Printer.

(** The stable profile contract of one native option. *)
Record option_ok (key : string) (o : NativePrinterOption) : Prop := {
  key_ok : is_blank key = false;
  name_ok : is_blank o.(display_name) = false;
  choices_ok : Forall (λ c, is_blank c.(choice_value) = false) o.(choices);
  choices_distinct : NoDup (choice_value <$> o.(choices));
  default_ok : ∀ x, o.(default_choice) = Some x → o.(choices) ≠ [] →
    x ∈ choice_value <$> o.(choices);
  selected_ok : ∀ x, o.(selected_choice) = Some x → o.(choices) ≠ [] →
    x ∈ choice_value <$> o.(choices);
}.

Lemma collect_choices_spec cs (seen out : gset string) :
  collect_choices cs seen = Some out ↔
  Forall (λ c, is_blank c.(choice_value) = false) cs ∧
  NoDup (choice_value <$> cs) ∧ (∀ x, x ∈ choice_value <$> cs → x ∉ seen) ∧
  out = list_to_set (choice_value <$> cs) ∪ seen.
Proof.
  revert seen. induction cs as [|c cs IH]; intros seen; simpl.
  - split.
    + intros [= ->]. split_and!; [done|constructor|set_solver|set_solver].
    + intros (_ & _ & _ & ->). f_equal. set_solver.
  - rewrite Forall_cons, NoDup_cons.
    destruct (is_blank (choice_value c)) eqn:Eb; simpl; [naive_solver|].
    case_bool_decide as Hin.
    { split; [done|]. intros (_ & _ & Hd & _). exfalso. apply (Hd (choice_value c)); set_solver. }
    rewrite IH. split.
    + intros (Hb & Hnd & Hd & ->). split_and!; [done|done|set_solver|done|set_solver|set_solver].
    + intros ((_ & Hb) & (Hni & Hnd) & Hd & ->). split_and!; [done|done|set_solver|set_solver].
Qed.

Lemma absent_choice_spec d cs (seen : gset string) :
  absent_choice d cs seen = false ↔ ∀ x, d = Some x → cs ≠ [] → x ∈ seen.
Proof.
  unfold absent_choice. destruct d as [x|]; [|naive_solver].
  rewrite andb_false_iff, !negb_false_iff, !bool_decide_eq_true.
  split; [naive_solver|]. intros H. destruct cs; [by left|right; by apply H].
Qed.

Lemma validate_option_spec key o : validate_option key o = Ok () ↔ option_ok key o.
Proof.
  unfold validate_option.
  destruct (is_blank key) eqn:Ek; [split; [done|intros []; congruence]|].
  destruct (is_blank (display_name o)) eqn:En; [split; [done|intros []; congruence]|].
  destruct (collect_choices (choices o) ∅) as [seen|] eqn:Ec.
  - apply collect_choices_spec in Ec as (Hb & Hnd & _ & ->).
    assert (Hset : ∀ x, x ∈ (list_to_set (choice_value <$> choices o) ∪ ∅ : gset string) ↔
                   x ∈ choice_value <$> choices o) by set_solver.
    assert (Hd := absent_choice_spec (default_choice o) (choices o)
                    (list_to_set (choice_value <$> choices o) ∪ ∅)).
    assert (Hs := absent_choice_spec (selected_choice o) (choices o)
                    (list_to_set (choice_value <$> choices o) ∪ ∅)).
    setoid_rewrite Hset in Hd. setoid_rewrite Hset in Hs.
    destruct (absent_choice (default_choice o)); [split; [done|intros []; naive_solver]|].
    destruct (absent_choice (selected_choice o)); [split; [done|intros []; naive_solver]|].
    split; [|done]. intros _. split; naive_solver.
  - split; [done|]. intros [].
    assert (is_Some (collect_choices (choices o) ∅)) as [? ?]; [|congruence].
    eexists. apply collect_choices_spec. split_and!; [done|done|set_solver|done].
Qed.

(** A capability profile is valid exactly when its schema is the supported
    one and every native option has a non-blank key and name, distinct
    non-blank choices, and a default and a selection among its choices. *)
Theorem profile_validate_exact {P} (p : PrinterCapabilityProfile P) :
  validate p = Ok () ↔
  p.(schema_version) = PRINTER_PROFILE_SCHEMA_VERSION ∧
  map_Forall option_ok p.(native_options).
Proof.
  unfold validate. case_bool_decide as Hv; [|naive_solver].
  rewrite map_Forall_to_list, <- btree_entries_perm.
  transitivity (Forall (λ kv, option_ok kv.1 kv.2) (btree_entries (native_options p)));
    [|split; [intros; split; [done|]; eapply Forall_impl; [done|]; by intros []
             |intros [_ H]; eapply Forall_impl; [done|]; by intros []]].
  generalize (btree_entries (native_options p)). intros l.
  induction l as [|[k o] l IH]; simpl; [done|].
  rewrite Forall_cons, <- IH, bind_Ok, <- validate_option_spec. simpl. split; [|naive_solver].
  intros ([] & ? & ?). done.
Qed.

End PrinterFacts.
