(* ===== verification/Identity.v ===== *)
(** Physical identity evidence: how the node decides which operating-system
    queues reach one physical printer (the evidence types of
    crates/protocol/src/agent.rs and the free functions at the end of
    crates/node-runtime/src/route_coordinator.rs). *)

From S2P Require Import Prelude Domain.

Inductive PhysicalIdentityEvidenceKind :=
| IppPrinterUuid | DeviceSerial | UsbSerial | CertificateKey | NetworkMac
| NetworkEndpoint | ManufacturerModel | CapabilityFingerprint | DriverFingerprintKind.
Inductive IdentityEvidenceStrength := Strong | Medium | Weak.
Inductive IdentityConfidence := Verified | High | Possible | Conflict | UnknownConfidence.

#[export] Instance kind_eq_dec : EqDecision PhysicalIdentityEvidenceKind.
Proof. solve_decision. Defined.
#[export] Instance strength_eq_dec : EqDecision IdentityEvidenceStrength.
Proof. solve_decision. Defined.
#[export] Instance confidence_eq_dec : EqDecision IdentityConfidence.
Proof. solve_decision. Defined.

(** The discriminant [kind as u8]. *)
Definition kind_index (k : PhysicalIdentityEvidenceKind) : N :=
  match k with
  | IppPrinterUuid => 0 | DeviceSerial => 1 | UsbSerial => 2 | CertificateKey => 3
  | NetworkMac => 4 | NetworkEndpoint => 5 | ManufacturerModel => 6
  | CapabilityFingerprint => 7 | DriverFingerprintKind => 8
  end.

Record PhysicalIdentityEvidence := {
  kind : PhysicalIdentityEvidenceKind;
  value_sha256 : string;
  strength : IdentityEvidenceStrength;
}.
#[export] Instance evidence_eq_dec : EqDecision PhysicalIdentityEvidence.
Proof. solve_decision. Defined.

(** What the code calls outside the repository: the [sha2] and [hex] crates as one
    function from bytes to the lowercase hexadecimal digest, the [serde_json]
    encodings that are hashed, and the [uuid] crate's two renderings. *)
Class External := {
  sha256_hex : string → string;
  DriverFingerprint : Type;
  driver_json : DriverFingerprint → option string;
  evidence_json : list PhysicalIdentityEvidence → string;
  Uuid : Type;
  Uuid_eq_dec :: EqDecision Uuid;
  uuid_bytes : Uuid → string;
  uuid_to_string : Uuid → string;
}.

(** [&hex[..32]]. *)
Definition hex_prefix (s : string) : string := String.substring 0 32 s.

Definition byte (n : N) : string := String.String (Ascii.ascii_of_N n) String.EmptyString.
Definition nul : string := byte 0.

(** The part of [DiscoveredPrinter] (crates/protocol/src/executor.rs) the
    coordinator reads. *)
Record DiscoveredPrinter `{External} := {
  native_id : string;
  driver_fingerprint : option DriverFingerprint;
  identity_evidence : list PhysicalIdentityEvidence;
}.

Section evidence.
Context `{External}.

(** The order on [(kind as u8, value_sha256)]. *)
Definition key_leb (a b : N * string) : bool :=
  (a.1 <? b.1)%N || (a.1 =? b.1)%N && String.leb a.2 b.2.

Definition evidence_key (e : PhysicalIdentityEvidence) : N * string :=
  (kind_index e.(kind), e.(value_sha256)).

(** [Vec::dedup_by]: drops an element that matches the one kept before it. *)
Fixpoint dedup_from {A} (same : A → A → bool) (prev : A) (l : list A) : list A :=
  match l with
  | [] => []
  | x :: l => if same x prev then dedup_from same prev l else x :: dedup_from same x l
  end.
Definition dedup_by {A} (same : A → A → bool) (l : list A) : list A :=
  match l with [] => [] | x :: l => x :: dedup_from same x l end.

Definition well_formed_digest (e : PhysicalIdentityEvidence) : bool :=
  (String.length e.(value_sha256) =? 64)%nat && bytes_all is_ascii_hexdigit e.(value_sha256).

Definition canonical_evidence (printer : DiscoveredPrinter) : list PhysicalIdentityEvidence :=
  let listed := filter (λ e, well_formed_digest e = true) printer.(identity_evidence) in
  let with_driver :=
    match printer.(driver_fingerprint) with
    | Some driver =>
      match driver_json driver with
      | Some encoded =>
        listed ++ [{| kind := DriverFingerprintKind; value_sha256 := sha256_hex encoded;
                      strength := Medium |}]
      | None => listed
      end
    | None => listed
    end in
  let sorted := sort_by (λ a b, key_leb (evidence_key a) (evidence_key b)) with_driver in
  let deduped := dedup_by (λ l r, bool_decide (l.(kind) = r.(kind)) &&
                                  String.eqb l.(value_sha256) r.(value_sha256)) sorted in
  take 16 deduped.

Definition is_endpoint (e : PhysicalIdentityEvidence) : Prop :=
  e.(strength) = Medium ∧ e.(kind) = NetworkEndpoint.
Definition is_description (e : PhysicalIdentityEvidence) : Prop :=
  e.(strength) = Medium ∧ (e.(kind) = ManufacturerModel ∨ e.(kind) = CapabilityFingerprint).

Definition identity_confidence (evidence : list PhysicalIdentityEvidence) :
    IdentityConfidence :=
  let has_strong := bool_decide (Exists (λ e, e.(strength) = Strong) evidence) in
  let has_endpoint := bool_decide (Exists is_endpoint evidence) in
  let has_device_description := bool_decide (Exists is_description evidence) in
  let has_medium := bool_decide (Exists (λ e, e.(strength) = Medium) evidence) in
  if has_strong || (has_endpoint && has_device_description) then High
  else if has_medium then Possible
  else UnknownConfidence.

Definition topology_fingerprint (evidence : list PhysicalIdentityEvidence) : string :=
  sha256_hex (evidence_json evidence).

(** The single strong identity, or the single endpoint with its descriptions,
    that puts a route into a physical group: the bytes that are hashed. *)
Definition group_preimage (evidence : list PhysicalIdentityEvidence) : option string :=
  let strong :=
    dedup_by (λ a b, (a.1 =? b.1)%N && String.eqb a.2 b.2)
      (sort_by key_leb (evidence_key <$> filter (λ e, e.(strength) = Strong) evidence)) in
  match strong with
  | [identity] =>
    Some ("piqae-physical-coordination-v1" +:+ nul +:+ byte identity.1 +:+ identity.2)
  | _ =>
    match filter is_endpoint evidence, filter is_description evidence with
    | [endpoint], (_ :: _) as device_descriptions =>
      Some ("piqae-physical-coordination-v1" +:+ nul +:+ "medium" +:+ nul
            +:+ endpoint.(value_sha256)
            +:+ foldr (λ d acc, byte (kind_index d.(kind)) +:+ d.(value_sha256) +:+ acc)
                  "" device_descriptions)
    | _, _ => None
    end
  end.

Definition physical_coordination_key (local_route_key : string)
    (evidence : list PhysicalIdentityEvidence) : string :=
  match group_preimage evidence with
  | Some bytes => "pgrp_" +:+ hex_prefix (sha256_hex bytes)
  | None => local_route_key
  end.
End evidence.
