(* ===== verification/Coordinator.v ===== *)
(** The installation-wide route coordinator: printer topology, the fence of the
    native handoff and its durable journal
    (crates/node-runtime/src/route_coordinator.rs, with the journal write of
    crates/node-runtime/src/durable_file.rs). *)

From S2P Require Import Prelude Domain Identity.

Definition DOCUMENT_VERSION : N := 1.
Definition MAX_ROUTES : nat := 512.
Definition MAX_HANDOFFS : nat := 512.
Definition MAX_CONSUMED_AUTHORITATIVE_ROUTES : nat := 4096.
Definition MAX_ACKNOWLEDGED_CONNECTORS : nat := 512.
Definition MAX_TOPOLOGY_CHANGES : nat := 512.
Definition OBSERVATION_SEQUENCE_RESERVATION : N := 512.
Definition RESERVATION_LIFETIME_MS : Z := 2 * 60 * 1000.
#[global] Arguments MAX_ROUTES : simpl never.
#[global] Arguments MAX_HANDOFFS : simpl never.
#[global] Arguments MAX_CONSUMED_AUTHORITATIVE_ROUTES : simpl never.
#[global] Arguments MAX_ACKNOWLEDGED_CONNECTORS : simpl never.
#[global] Arguments MAX_TOPOLOGY_CHANGES : simpl never.

(** [DateTime<Utc>] as nanoseconds since the epoch. *)
Abbreviation DateTime := Z.
Definition timestamp_millis (t : DateTime) : Z := t / 1000000.

Inductive NativeHandoffOutcome := Accepted | RejectedBeforeHandoff | Ambiguous.
Inductive AmbiguousHandoffResolution := ReleaseForRetry | ConfirmAccepted.
Inductive TopologyChange := Added | Changed | Removed | Reconciled.
#[export] Instance outcome_eq_dec : EqDecision NativeHandoffOutcome.
Proof. solve_decision. Defined.
#[export] Instance topology_change_eq_dec : EqDecision TopologyChange.
Proof. solve_decision. Defined.

(** Every [bail!] and [context] of the coordinator. *)
Inductive CoordinatorError :=
| UnsupportedVersion
| StateExceedsBounds
| InvalidReplayBarrier
| ObservationSequenceExhausted
| JobMayHaveCrossedHandoff
| RouteReservedByAnotherConnector
| HandoffJournalFull
| ConflictingPhysicalReservations
| InvalidCloudReservation
| JobCrossedHandoffForAuthority
| GenerationAlreadyConsumed
| StaleGenerationForJob
| UnknownLocalRoute
| UnresolvedReservation
| ReplayBarrierJournalFull
| ConflictingAuthoritativeReservations
| ReservationNotActive
| StaleFencingToken
| ReservationDisappeared
| EvidenceDoesNotMatchReservation
| AcknowledgementJournalFull
| CommitBatchTooLarge
| ResolvedDifferently
| NoMatchingFence
| HandoffNotAmbiguous
| FailStopped
| PersistFailed.

Record CloudRouteReservation `{External} := {
  cloud_route_id : string;
  cloud_local_route_key : string;
  cloud_reservation_id : Uuid;
  cloud_generation : N;
  cloud_fencing_token : string;
  cloud_lease_expires_at : DateTime;
}.

Record RouteTopologyChange := {
  tc_local_route_key : string;
  tc_topology_revision : N;
  tc_observed_at : DateTime;
  tc_change : TopologyChange;
}.
#[export] Instance RouteTopologyChange_eq_dec : EqDecision RouteTopologyChange.
Proof. solve_decision. Defined.

Record PrinterRouteSnapshot := {
  snap_local_route_key : string;
  snap_inventory_revision : N;
  snap_topology_revision : N;
  snap_observed_at : DateTime;
  snap_identity_evidence : list PhysicalIdentityEvidence;
  snap_identity_confidence : IdentityConfidence;
  snap_topology_change : option TopologyChange;
  snap_profile_observed_at : option DateTime;
  snap_stock_observed_at : option DateTime;
}.

Record DurableRoute := {
  route_id : string;
  coordination_key : string;
  coordination_conflict : bool;
  native_fingerprint : string;
  generation : N;
  present : bool;
  route_evidence : list PhysicalIdentityEvidence;
  route_confidence : IdentityConfidence;
}.
#[export] Instance DurableRoute_eq_dec : EqDecision DurableRoute.
Proof. solve_decision. Defined.

Definition with_generation (g : N) (r : DurableRoute) : DurableRoute :=
  {| route_id := r.(route_id); coordination_key := r.(coordination_key);
     coordination_conflict := r.(coordination_conflict);
     native_fingerprint := r.(native_fingerprint); generation := g;
     present := r.(present); route_evidence := r.(route_evidence);
     route_confidence := r.(route_confidence) |}.
Definition with_present (p : bool) (r : DurableRoute) : DurableRoute :=
  {| route_id := r.(route_id); coordination_key := r.(coordination_key);
     coordination_conflict := r.(coordination_conflict);
     native_fingerprint := r.(native_fingerprint); generation := r.(generation);
     present := p; route_evidence := r.(route_evidence);
     route_confidence := r.(route_confidence) |}.
Definition with_domain (key : string) (conflict : bool) (r : DurableRoute) : DurableRoute :=
  {| route_id := r.(route_id); coordination_key := key;
     coordination_conflict := conflict;
     native_fingerprint := r.(native_fingerprint); generation := r.(generation);
     present := r.(present); route_evidence := r.(route_evidence);
     route_confidence := r.(route_confidence) |}.

Section types.
Context `{External}.

Record DurableReservation := {
  res_server_route_id : option string;
  res_local_route_key : string;
  res_reservation_id : Uuid;
  res_connector_id : string;
  res_job_id : string;
  res_generation : N;
  res_fencing_token : string;
  res_expires_unix_ms : Z;
}.
#[export] Instance DurableReservation_eq_dec : EqDecision DurableReservation.
Proof. solve_decision. Defined.

Record DurableHandoff := {
  ho_sequence : N;
  ho_connector_id : string;
  ho_server_route_id : option string;
  ho_local_route_key : string;
  ho_job_id : string;
  ho_reservation_id : Uuid;
  ho_fencing_generation : N;
  ho_fencing_token : string;
  ho_observed_at : DateTime;
  ho_outcome : NativeHandoffOutcome;
  ho_native_job_id : option string;
}.
#[export] Instance DurableHandoff_eq_dec : EqDecision DurableHandoff.
Proof. solve_decision. Defined.

Definition with_outcome (o : NativeHandoffOutcome) (h : DurableHandoff) : DurableHandoff :=
  {| ho_sequence := h.(ho_sequence); ho_connector_id := h.(ho_connector_id);
     ho_server_route_id := h.(ho_server_route_id);
     ho_local_route_key := h.(ho_local_route_key); ho_job_id := h.(ho_job_id);
     ho_reservation_id := h.(ho_reservation_id);
     ho_fencing_generation := h.(ho_fencing_generation);
     ho_fencing_token := h.(ho_fencing_token); ho_observed_at := h.(ho_observed_at);
     ho_outcome := o; ho_native_job_id := h.(ho_native_job_id) |}.

Record ConsumedAuthoritativeRoute := {
  con_connector_id : string;
  con_server_route_id : string;
  con_local_route_key : string;
  con_job_id : string;
  con_generation : N;
  con_reservation_id : Uuid;
  con_fencing_token : string;
  con_observed_at : DateTime;
  con_outcome : NativeHandoffOutcome;
  con_native_job_id : option string;
}.
#[export] Instance ConsumedAuthoritativeRoute_eq_dec : EqDecision ConsumedAuthoritativeRoute.
Proof. solve_decision. Defined.

Record CoordinatorDocument := {
  version : N;
  installation_namespace : Uuid;
  topology_revision : N;
  handoff_sequence : N;
  observation_sequence : N;
  routes : gmap string DurableRoute;
  reservations : gmap string DurableReservation;
  consumed_authoritative_routes : gmap string ConsumedAuthoritativeRoute;
  acknowledged_handoff_sequences : gmap string N;
  handoffs : list DurableHandoff;
  topology_changes : list RouteTopologyChange;
}.
#[export] Instance CoordinatorDocument_eq_dec : EqDecision CoordinatorDocument.
Proof. solve_decision. Defined.

Record RouteReservation := {
  rr_local_route_key : string;
  rr_server_route_id : option string;
  rr_coordination_key : string;
  rr_reservation_id : Uuid;
  rr_generation : N;
  rr_fencing_token : string;
}.
#[export] Instance RouteReservation_eq_dec : EqDecision RouteReservation.
Proof. solve_decision. Defined.

Record AuthoritativeRouteRegistration := {
  reservation : RouteReservation;
  newly_registered : bool;
}.
End types.

(** Field updates of the document. *)
Section updates.
Context `{External}.
Implicit Types d : CoordinatorDocument.

Definition set_topology_revision (v : N) d : CoordinatorDocument :=
  {| version := d.(version); installation_namespace := d.(installation_namespace);
     topology_revision := v; handoff_sequence := d.(handoff_sequence);
     observation_sequence := d.(observation_sequence); routes := d.(routes);
     reservations := d.(reservations);
     consumed_authoritative_routes := d.(consumed_authoritative_routes);
     acknowledged_handoff_sequences := d.(acknowledged_handoff_sequences);
     handoffs := d.(handoffs); topology_changes := d.(topology_changes) |}.
Definition set_handoff_sequence (v : N) d : CoordinatorDocument :=
  {| version := d.(version); installation_namespace := d.(installation_namespace);
     topology_revision := d.(topology_revision); handoff_sequence := v;
     observation_sequence := d.(observation_sequence); routes := d.(routes);
     reservations := d.(reservations);
     consumed_authoritative_routes := d.(consumed_authoritative_routes);
     acknowledged_handoff_sequences := d.(acknowledged_handoff_sequences);
     handoffs := d.(handoffs); topology_changes := d.(topology_changes) |}.
Definition set_observation_sequence (v : N) d : CoordinatorDocument :=
  {| version := d.(version); installation_namespace := d.(installation_namespace);
     topology_revision := d.(topology_revision); handoff_sequence := d.(handoff_sequence);
     observation_sequence := v; routes := d.(routes); reservations := d.(reservations);
     consumed_authoritative_routes := d.(consumed_authoritative_routes);
     acknowledged_handoff_sequences := d.(acknowledged_handoff_sequences);
     handoffs := d.(handoffs); topology_changes := d.(topology_changes) |}.
Definition set_routes (v : gmap string DurableRoute) d : CoordinatorDocument :=
  {| version := d.(version); installation_namespace := d.(installation_namespace);
     topology_revision := d.(topology_revision); handoff_sequence := d.(handoff_sequence);
     observation_sequence := d.(observation_sequence); routes := v;
     reservations := d.(reservations);
     consumed_authoritative_routes := d.(consumed_authoritative_routes);
     acknowledged_handoff_sequences := d.(acknowledged_handoff_sequences);
     handoffs := d.(handoffs); topology_changes := d.(topology_changes) |}.
Definition set_reservations (v : gmap string DurableReservation) d : CoordinatorDocument :=
  {| version := d.(version); installation_namespace := d.(installation_namespace);
     topology_revision := d.(topology_revision); handoff_sequence := d.(handoff_sequence);
     observation_sequence := d.(observation_sequence); routes := d.(routes);
     reservations := v;
     consumed_authoritative_routes := d.(consumed_authoritative_routes);
     acknowledged_handoff_sequences := d.(acknowledged_handoff_sequences);
     handoffs := d.(handoffs); topology_changes := d.(topology_changes) |}.
Definition set_consumed (v : gmap string ConsumedAuthoritativeRoute) d : CoordinatorDocument :=
  {| version := d.(version); installation_namespace := d.(installation_namespace);
     topology_revision := d.(topology_revision); handoff_sequence := d.(handoff_sequence);
     observation_sequence := d.(observation_sequence); routes := d.(routes);
     reservations := d.(reservations); consumed_authoritative_routes := v;
     acknowledged_handoff_sequences := d.(acknowledged_handoff_sequences);
     handoffs := d.(handoffs); topology_changes := d.(topology_changes) |}.
Definition set_acknowledged (v : gmap string N) d : CoordinatorDocument :=
  {| version := d.(version); installation_namespace := d.(installation_namespace);
     topology_revision := d.(topology_revision); handoff_sequence := d.(handoff_sequence);
     observation_sequence := d.(observation_sequence); routes := d.(routes);
     reservations := d.(reservations);
     consumed_authoritative_routes := d.(consumed_authoritative_routes);
     acknowledged_handoff_sequences := v;
     handoffs := d.(handoffs); topology_changes := d.(topology_changes) |}.
Definition set_handoffs (v : list DurableHandoff) d : CoordinatorDocument :=
  {| version := d.(version); installation_namespace := d.(installation_namespace);
     topology_revision := d.(topology_revision); handoff_sequence := d.(handoff_sequence);
     observation_sequence := d.(observation_sequence); routes := d.(routes);
     reservations := d.(reservations);
     consumed_authoritative_routes := d.(consumed_authoritative_routes);
     acknowledged_handoff_sequences := d.(acknowledged_handoff_sequences);
     handoffs := v; topology_changes := d.(topology_changes) |}.
Definition set_topology_changes (v : list RouteTopologyChange) d : CoordinatorDocument :=
  {| version := d.(version); installation_namespace := d.(installation_namespace);
     topology_revision := d.(topology_revision); handoff_sequence := d.(handoff_sequence);
     observation_sequence := d.(observation_sequence); routes := d.(routes);
     reservations := d.(reservations);
     consumed_authoritative_routes := d.(consumed_authoritative_routes);
     acknowledged_handoff_sequences := d.(acknowledged_handoff_sequences);
     handoffs := d.(handoffs); topology_changes := v |}.
End updates.

(** * Keys *)

Section keys.
Context `{External}.

(** [u64::to_be_bytes]. *)
Definition u64_be_bytes (n : N) : string :=
  foldr (λ i acc, byte (N.shiftr n (8 * i) mod 256) +:+ acc) ""
    [7; 6; 5; 4; 3; 2; 1; 0]%N.

(** [u64::try_from(value.len()).unwrap_or(u64::MAX)], then the bytes. *)
Definition length_prefixed (value : string) : string :=
  u64_be_bytes (N.min (N.of_nat (String.length value)) u64_max) +:+ value.

Definition route_id_of (namespace : Uuid) (native_id : string) : string :=
  "rte_" +:+ hex_prefix (sha256_hex ("piqae-route-v1" +:+ nul +:+ uuid_bytes namespace
                                     +:+ native_id)).

Definition authoritative_route_preimage
    (connector_id server_route_id local_route_key job_id : string) : string :=
  length_prefixed connector_id +:+ length_prefixed server_route_id
  +:+ length_prefixed local_route_key +:+ length_prefixed job_id.

Definition authoritative_route_key
    (connector_id server_route_id local_route_key job_id : string) : string :=
  sha256_hex (authoritative_route_preimage connector_id server_route_id local_route_key job_id).

Definition local_ambiguity_id (connector_id job_id local_route_key : string)
    (reservation_id : Uuid) (generation : N) : string :=
  "amb_" +:+ hex_prefix (sha256_hex
    ("piqae-local-ambiguity-v1" +:+ nul
     +:+ length_prefixed connector_id +:+ length_prefixed job_id
     +:+ length_prefixed local_route_key
     +:+ uuid_bytes reservation_id +:+ u64_be_bytes generation)).
End keys.

(** * Operations on the document *)

Section operations.
Context `{External}.
Implicit Types d : CoordinatorDocument.

(** [RouteCoordinator::route_id]. *)
Definition route_id_for d (native_id : string) : string :=
  route_id_of d.(installation_namespace) native_id.

(** [RouteCoordinator::coordination_key]. *)
Definition coordination_key_for d (native_id : string) : option string :=
  route ← d.(routes) !! native_id;
  if route.(present) then Some route.(coordination_key) else None.

Definition record_topology_change (route_id : string) (change : TopologyChange)
    (observed_at : DateTime) d : CoordinatorDocument :=
  set_topology_changes
    (trim_front
      (d.(topology_changes) ++
        [{| tc_local_route_key := route_id; tc_topology_revision := d.(topology_revision);
            tc_observed_at := observed_at; tc_change := change |}])
      MAX_TOPOLOGY_CHANGES) d.

Definition route_requires_retention d (route : DurableRoute) : Prop :=
  map_Exists (λ _ r, r.(res_local_route_key) = route.(route_id)) d.(reservations) ∨
  Exists (λ h, h.(ho_local_route_key) = route.(route_id) ∧ h.(ho_outcome) = Ambiguous)
    d.(handoffs).
#[export] Instance route_requires_retention_dec d route :
  Decision (route_requires_retention d route).
Proof. unfold route_requires_retention. apply _. Defined.

Definition prune_absent_routes d : CoordinatorDocument :=
  let retained_route_ids : gset string :=
    list_to_set (route_id <$>
      filter (λ r, r.(present) = false ∧ route_requires_retention d r)
        (btree_values d.(routes))) in
  set_routes
    (filter (λ '(_, r), r.(present) = true ∨ r.(route_id) ∈ retained_route_ids) d.(routes)) d.

(** The physical group [physical_coordination_key] proposes for a route. *)
Definition desired_key (r : DurableRoute) : string :=
  physical_coordination_key r.(route_id) r.(route_evidence).

(** [occupied_by_desired.entry(desired).or_default().insert(key)]. *)
Definition add_occupied (desired key : string) (m : gmap string (gset string)) :
    gmap string (gset string) :=
  <[desired := {[key]} ∪ default ∅ (m !! desired)]> m.

Definition route_with_id d (id : string) : option (string * DurableRoute) :=
  find_first (λ nr, nr.2.(route_id) = id) (btree_entries d.(routes)).

Definition occupied_by_routes d : gmap string (gset string) :=
  foldl (λ occupied nr,
    if decide (is_Some (d.(reservations) !! nr.2.(coordination_key)))
    then add_occupied (desired_key nr.2) nr.2.(coordination_key) occupied
    else occupied) ∅ (btree_entries d.(routes)).

Definition occupied_by_desired d : gmap string (gset string) :=
  foldl (λ occupied kr,
    match route_with_id d kr.2.(res_local_route_key) with
    | Some (_, route) => add_occupied (desired_key route) kr.1 occupied
    | None => occupied
    end) (occupied_by_routes d) (btree_entries d.(reservations)).

Definition reconcile_route d (r : DurableRoute) : DurableRoute :=
  let desired := desired_key r in
  match elements (default ∅ (occupied_by_desired d !! desired)) with
  | _ :: _ :: _ =>
    with_domain
      (if decide (is_Some (d.(reservations) !! r.(coordination_key)))
       then r.(coordination_key) else desired) true r
  | [active_key] => with_domain active_key false r
  | [] => with_domain desired false r
  end.

Definition reconcile_coordination_keys d : CoordinatorDocument :=
  set_routes (reconcile_route d <$> d.(routes)) d.

(** ** Discovery *)

Record ReconcileState := {
  rs_document : CoordinatorDocument;
  rs_accepted_unprotected : nat;
  rs_present : gset string;
  rs_snapshots : gmap string PrinterRouteSnapshot;
}.

(** One iteration of [for printer in printers]. *)
Definition reconcile_printer (protected_native_ids : gset string) (available : nat)
    (inventory_revision : N) (observed_at : DateTime)
    (s : ReconcileState) (printer : DiscoveredPrinter) : ReconcileState :=
  let nid := printer.(native_id) in
  if decide (nid ∈ s.(rs_present)) then s else
  let protected := bool_decide (nid ∈ protected_native_ids) in
  if negb protected && (available <=? s.(rs_accepted_unprotected))%nat then s else
  let d := s.(rs_document) in
  let rid := route_id_for d nid in
  let evidence := canonical_evidence printer in
  let confidence := identity_confidence evidence in
  let fingerprint := topology_fingerprint evidence in
  let desired := physical_coordination_key rid evidence in
  let previous := d.(routes) !! nid in
  let change :=
    match previous with
    | None => Some Added
    | Some route =>
      if negb route.(present) || negb (String.eqb route.(native_fingerprint) fingerprint)
      then Some Changed else None
    end in
  let d1 := match change with
            | Some _ => set_topology_revision (u64_saturating_add d.(topology_revision) 1) d
            | None => d
            end in
  let d2 := set_routes
    (<[nid := {| route_id := rid;
                 coordination_key := from_option coordination_key desired previous;
                 coordination_conflict := false;
                 native_fingerprint := fingerprint;
                 generation := from_option generation 0%N previous;
                 present := true;
                 route_evidence := evidence;
                 route_confidence := confidence |}]> d1.(routes)) d1 in
  let d3 := match change with
            | Some c => record_topology_change rid c observed_at d2
            | None => d2
            end in
  {| rs_document := d3;
     rs_accepted_unprotected :=
       (if protected then s.(rs_accepted_unprotected) else S s.(rs_accepted_unprotected));
     rs_present := {[nid]} ∪ s.(rs_present);
     rs_snapshots :=
       <[nid := {| snap_local_route_key := rid;
                   snap_inventory_revision := inventory_revision;
                   snap_topology_revision := d1.(topology_revision);
                   snap_observed_at := observed_at;
                   snap_identity_evidence := evidence;
                   snap_identity_confidence := confidence;
                   snap_topology_change := change;
                   snap_profile_observed_at := Some observed_at;
                   snap_stock_observed_at := None |}]> s.(rs_snapshots) |}.

(** One iteration of [for (native_id, route_id) in removed]. *)
Definition remove_route (observed_at : DateTime) d (nr : string * string) :
    CoordinatorDocument :=
  let d1 := set_topology_revision (u64_saturating_add d.(topology_revision) 1) d in
  let d2 := set_routes (alter (with_present false) nr.1 d1.(routes)) d1 in
  record_topology_change nr.2 Removed observed_at d2.

(** The body of [reconcile] up to [self.persist()]. *)
Definition reconcile_document (printers : list DiscoveredPrinter) (inventory_revision : N)
    (observed_at : DateTime) d :
    CoordinatorDocument * gmap string PrinterRouteSnapshot :=
  let d0 := prune_absent_routes d in
  let protected_native_ids : gset string :=
    list_to_set (fst <$>
      filter (λ nr, route_requires_retention d0 nr.2) (btree_entries d0.(routes))) in
  let available := MAX_ROUTES - size protected_native_ids in
  let s := foldl (reconcile_printer protected_native_ids available inventory_revision
                    observed_at)
    {| rs_document := d0; rs_accepted_unprotected := 0; rs_present := ∅;
       rs_snapshots := ∅ |} printers in
  let removed := (λ nr, (nr.1, nr.2.(route_id))) <$>
    filter (λ nr, nr.2.(present) = true ∧ nr.1 ∉ s.(rs_present))
      (btree_entries s.(rs_document).(routes)) in
  let d1 := foldl (remove_route observed_at) s.(rs_document) removed in
  (reconcile_coordination_keys (prune_absent_routes d1), s.(rs_snapshots)).

(** ** Reservation *)

(** [handoff.outcome] is [Accepted] or [Ambiguous] for this connector's job. *)
Definition crossed_handoff (connector_id job_id : string) (h : DurableHandoff) : Prop :=
  h.(ho_connector_id) = connector_id ∧ h.(ho_job_id) = job_id ∧
  (h.(ho_outcome) = Accepted ∨ h.(ho_outcome) = Ambiguous).

(** The values [Uuid::new_v4] returns are arguments. *)
Definition reserve_inner (connector_id native_id job_id : string) (now_unix_ms : Z)
    (new_reservation_id new_fencing_token : Uuid) d :
    result CoordinatorError (CoordinatorDocument * RouteReservation) :=
  let rid := route_id_for d native_id in
  let route := d.(routes) !! native_id in
  let ckey := from_option coordination_key rid route in
  if decide (Exists (crossed_handoff connector_id job_id) d.(handoffs))
  then Err JobMayHaveCrossedHandoff else
  match d.(reservations) !! ckey with
  | Some existing =>
    if decide (existing.(res_job_id) = job_id ∧ existing.(res_connector_id) = connector_id)
    then Ok (d, {| rr_local_route_key := rid;
                   rr_server_route_id := existing.(res_server_route_id);
                   rr_coordination_key := ckey;
                   rr_reservation_id := existing.(res_reservation_id);
                   rr_generation := existing.(res_generation);
                   rr_fencing_token := existing.(res_fencing_token) |})
    else Err RouteReservedByAnotherConnector
  | None =>
    if decide (MAX_HANDOFFS ≤ length d.(handoffs) + size d.(reservations))
    then Err HandoffJournalFull else
    if from_option coordination_conflict false route
    then Err ConflictingPhysicalReservations else
    let '(g, d1) :=
      match route_with_id d rid with
      | Some (nid, r) =>
        let g := u64_saturating_add r.(generation) 1 in
        (g, set_routes (<[nid := with_generation g r]> d.(routes)) d)
      | None => (1%N, d)
      end in
    let token := uuid_to_string new_fencing_token in
    let durable := {| res_server_route_id := None;
                      res_local_route_key := rid;
                      res_reservation_id := new_reservation_id;
                      res_connector_id := connector_id;
                      res_job_id := job_id;
                      res_generation := g;
                      res_fencing_token := token;
                      res_expires_unix_ms :=
                        i64_saturating_add now_unix_ms RESERVATION_LIFETIME_MS |} in
    Ok (set_reservations (<[ckey := durable]> d1.(reservations)) d1,
        {| rr_local_route_key := rid; rr_server_route_id := None;
           rr_coordination_key := ckey; rr_reservation_id := new_reservation_id;
           rr_generation := g; rr_fencing_token := token |})
  end.

(** The key an authoritative reservation will consume. *)
Definition reservation_key (r : DurableReservation) : option string :=
  s ← r.(res_server_route_id);
  Some (authoritative_route_key r.(res_connector_id) s r.(res_local_route_key) r.(res_job_id)).

Definition active_unconsumed d : gset string :=
  list_to_set (omap (λ r,
    key ← reservation_key r;
    if decide (is_Some (d.(consumed_authoritative_routes) !! key)) then None else Some key)
    (btree_values d.(reservations))).

Definition max_generation (connector_id job_id : string) (l : list DurableHandoff) : option N :=
  foldr (λ h acc,
    if decide (h.(ho_connector_id) = connector_id ∧ h.(ho_job_id) = job_id)
    then Some (from_option (N.max h.(ho_fencing_generation)) h.(ho_fencing_generation) acc)
    else acc) None l.

Definition register_authoritative_inner (connector_id native_id job_id : string)
    (cloud : CloudRouteReservation) (now : DateTime) d :
    result CoordinatorError (CoordinatorDocument * AuthoritativeRouteRegistration) :=
  let expected_route := route_id_for d native_id in
  if decide (cloud.(cloud_local_route_key) ≠ expected_route
             ∨ cloud.(cloud_route_id) = ""%string
             ∨ cloud.(cloud_generation) = 0%N
             ∨ cloud.(cloud_fencing_token) = ""%string
             ∨ 512 < String.length cloud.(cloud_fencing_token)
             ∨ (cloud.(cloud_lease_expires_at) ≤ now)%Z)
  then Err InvalidCloudReservation else
  if decide (map_Exists (λ _ c, c.(con_connector_id) = connector_id ∧
                                c.(con_job_id) = job_id ∧ c.(con_outcome) = Accepted)
               d.(consumed_authoritative_routes))
  then Err JobCrossedHandoffForAuthority else
  let consumed_key := authoritative_route_key connector_id cloud.(cloud_route_id)
                        cloud.(cloud_local_route_key) job_id in
  if from_option (λ c, bool_decide (c.(con_outcome) = Accepted
                                    ∨ (cloud.(cloud_generation) ≤ c.(con_generation))%N))
       false (d.(consumed_authoritative_routes) !! consumed_key)
  then Err GenerationAlreadyConsumed else
  if decide (Exists (crossed_handoff connector_id job_id) d.(handoffs))
  then Err JobMayHaveCrossedHandoff else
  if from_option (λ g, bool_decide (cloud.(cloud_generation) ≤ g)%N) false
       (max_generation connector_id job_id d.(handoffs))
  then Err StaleGenerationForJob else
  match route_with_id d expected_route with
  | None => Err UnknownLocalRoute
  | Some (_, route) =>
    let ckey := route.(coordination_key) in
    match d.(reservations) !! ckey with
    | Some existing =>
      if decide (existing.(res_connector_id) = connector_id
                 ∧ existing.(res_job_id) = job_id
                 ∧ existing.(res_reservation_id) = cloud.(cloud_reservation_id)
                 ∧ existing.(res_generation) = cloud.(cloud_generation)
                 ∧ existing.(res_fencing_token) = cloud.(cloud_fencing_token)
                 ∧ existing.(res_server_route_id) = Some cloud.(cloud_route_id))
      then Ok (d, {| reservation :=
                       {| rr_local_route_key := expected_route;
                          rr_server_route_id := existing.(res_server_route_id);
                          rr_coordination_key := ckey;
                          rr_reservation_id := existing.(res_reservation_id);
                          rr_generation := existing.(res_generation);
                          rr_fencing_token := existing.(res_fencing_token) |};
                     newly_registered := false |})
      else Err UnresolvedReservation
    | None =>
      if route.(coordination_conflict) then Err ConflictingPhysicalReservations else
      if decide (d.(consumed_authoritative_routes) !! consumed_key = None
                 ∧ (consumed_key ∉ active_unconsumed d)
                 ∧ MAX_CONSUMED_AUTHORITATIVE_ROUTES
                   ≤ size d.(consumed_authoritative_routes) + size (active_unconsumed d))
      then Err ReplayBarrierJournalFull else
      let durable := {| res_server_route_id := Some cloud.(cloud_route_id);
                        res_local_route_key := expected_route;
                        res_reservation_id := cloud.(cloud_reservation_id);
                        res_connector_id := connector_id;
                        res_job_id := job_id;
                        res_generation := cloud.(cloud_generation);
                        res_fencing_token := cloud.(cloud_fencing_token);
                        res_expires_unix_ms :=
                          timestamp_millis cloud.(cloud_lease_expires_at) |} in
      Ok (set_reservations (<[ckey := durable]> d.(reservations)) d,
          {| reservation :=
               {| rr_local_route_key := expected_route;
                  rr_server_route_id := durable.(res_server_route_id);
                  rr_coordination_key := ckey;
                  rr_reservation_id := durable.(res_reservation_id);
                  rr_generation := durable.(res_generation);
                  rr_fencing_token := durable.(res_fencing_token) |};
             newly_registered := true |})
    end
  end.

(** ** Terminal evidence *)

(** [RouteCoordinator::validate] after [ensure_operational]. *)
Definition validate_document (r : RouteReservation) d : result CoordinatorError unit :=
  match d.(reservations) !! r.(rr_coordination_key) with
  | None => Err ReservationNotActive
  | Some current =>
    if decide (current.(res_reservation_id) ≠ r.(rr_reservation_id)
               ∨ current.(res_generation) ≠ r.(rr_generation)
               ∨ current.(res_fencing_token) ≠ r.(rr_fencing_token)
               ∨ current.(res_server_route_id) ≠ r.(rr_server_route_id))
    then Err StaleFencingToken else Ok ()
  end.

Definition record_consumed_authoritative_route (r : DurableReservation)
    (outcome : NativeHandoffOutcome) (native_job_id : option string)
    (observed_at : DateTime) d : result CoordinatorError CoordinatorDocument :=
  match r.(res_server_route_id) with
  | None => Ok d
  | Some server_route_id =>
    let key := authoritative_route_key r.(res_connector_id) server_route_id
                 r.(res_local_route_key) r.(res_job_id) in
    if decide (d.(consumed_authoritative_routes) !! key = None
               ∧ MAX_CONSUMED_AUTHORITATIVE_ROUTES
                 ≤ size d.(consumed_authoritative_routes))
    then Err ReplayBarrierJournalFull else
    let consumed := {| con_connector_id := r.(res_connector_id);
                       con_server_route_id := server_route_id;
                       con_local_route_key := r.(res_local_route_key);
                       con_job_id := r.(res_job_id);
                       con_generation := r.(res_generation);
                       con_reservation_id := r.(res_reservation_id);
                       con_fencing_token := r.(res_fencing_token);
                       con_observed_at := observed_at;
                       con_outcome := outcome;
                       con_native_job_id := native_job_id |} in
    match d.(consumed_authoritative_routes) !! key with
    | Some existing =>
      if decide (r.(res_generation) ≤ existing.(con_generation))%N then Ok d
      else Ok (set_consumed (<[key := consumed]> d.(consumed_authoritative_routes)) d)
    | None => Ok (set_consumed (<[key := consumed]> d.(consumed_authoritative_routes)) d)
    end
  end.

Definition finish_inner (connector_id job_id : string) (r : RouteReservation)
    (outcome : NativeHandoffOutcome) (native_job_id : option string)
    (observed_at : DateTime) d : result CoordinatorError CoordinatorDocument :=
  _ ← validate_document r d;
  active ← ok_or (d.(reservations) !! r.(rr_coordination_key)) ReservationDisappeared;
  if decide (active.(res_connector_id) ≠ connector_id ∨ active.(res_job_id) ≠ job_id)
  then Err EvidenceDoesNotMatchReservation else
  let d1 := set_handoff_sequence (u64_saturating_add d.(handoff_sequence) 1) d in
  let d2 := set_handoffs
    (d1.(handoffs) ++
      [{| ho_sequence := d1.(handoff_sequence);
          ho_connector_id := connector_id;
          ho_server_route_id := r.(rr_server_route_id);
          ho_local_route_key := r.(rr_local_route_key);
          ho_job_id := job_id;
          ho_reservation_id := r.(rr_reservation_id);
          ho_fencing_generation := r.(rr_generation);
          ho_fencing_token := active.(res_fencing_token);
          ho_observed_at := observed_at;
          ho_outcome := outcome;
          ho_native_job_id := native_job_id |}]) d1 in
  if decide (outcome = Ambiguous) then Ok d2 else
  d3 ← record_consumed_authoritative_route active outcome native_job_id observed_at d2;
  Ok (set_reservations (delete r.(rr_coordination_key) d3.(reservations)) d3).

Definition acknowledge_document (connector_id : string) (through_sequence : N) d :
    result CoordinatorError CoordinatorDocument :=
  if decide (d.(acknowledged_handoff_sequences) !! connector_id = None
             ∧ MAX_ACKNOWLEDGED_CONNECTORS ≤ size d.(acknowledged_handoff_sequences))
  then Err AcknowledgementJournalFull else
  let cursor := from_option (N.max through_sequence) through_sequence
                  (d.(acknowledged_handoff_sequences) !! connector_id) in
  let d1 := set_acknowledged
              (<[connector_id := cursor]> d.(acknowledged_handoff_sequences)) d in
  Ok (set_handoffs
        (filter (λ h, h.(ho_connector_id) ≠ connector_id
                      ∨ (through_sequence < h.(ho_sequence))%N
                      ∨ h.(ho_outcome) = Ambiguous) d1.(handoffs)) d1).

Definition resolved_outcome (resolution : AmbiguousHandoffResolution) : NativeHandoffOutcome :=
  match resolution with
  | ReleaseForRetry => RejectedBeforeHandoff
  | ConfirmAccepted => Accepted
  end.

(** The handoff carries this exact reservation proof. *)
Definition handoff_matches (connector_id job_id local_route_key : string)
    (reservation_id : Uuid) (gen : N) (h : DurableHandoff) : Prop :=
  h.(ho_connector_id) = connector_id ∧ h.(ho_job_id) = job_id
  ∧ h.(ho_local_route_key) = local_route_key ∧ h.(ho_reservation_id) = reservation_id
  ∧ h.(ho_fencing_generation) = gen.
#[export] Instance handoff_matches_dec c j l r g h : Decision (handoff_matches c j l r g h).
Proof. unfold handoff_matches. apply _. Defined.

Definition resolve_ambiguous_handoff_inner (connector_id job_id local_route_key : string)
    (reservation_id : Uuid) (gen : N) (resolution : AmbiguousHandoffResolution) d :
    result CoordinatorError CoordinatorDocument :=
  let resolved := resolved_outcome resolution in
  match find_first (λ c, c.(con_connector_id) = connector_id ∧ c.(con_job_id) = job_id
                         ∧ c.(con_local_route_key) = local_route_key
                         ∧ c.(con_reservation_id) = reservation_id
                         ∧ c.(con_generation) = gen)
          (btree_values d.(consumed_authoritative_routes)) with
  | Some consumed =>
    if decide (consumed.(con_outcome) = resolved) then Ok d else Err ResolvedDifferently
  | None =>
    let already :=
      existing ← find_last (handoff_matches connector_id job_id local_route_key
                              reservation_id gen) d.(handoffs);
      if decide (existing.(ho_outcome) = Ambiguous) then None else Some existing in
    match already with
    | Some existing =>
      if decide (existing.(ho_outcome) = resolved) then Ok d else Err ResolvedDifferently
    | None =>
      kr ← ok_or
        (find_first (λ kr, kr.2.(res_connector_id) = connector_id
                           ∧ kr.2.(res_job_id) = job_id
                           ∧ kr.2.(res_local_route_key) = local_route_key
                           ∧ kr.2.(res_reservation_id) = reservation_id
                           ∧ kr.2.(res_generation) = gen)
           (btree_entries d.(reservations))) NoMatchingFence;
      let ckey := kr.1 in
      let is_match h := handoff_matches connector_id job_id local_route_key
                          reservation_id gen h ∧ h.(ho_outcome) = Ambiguous in
      handoff ← ok_or (find_last is_match d.(handoffs)) HandoffNotAmbiguous;
      let d1 := set_handoffs (alter_last is_match (with_outcome resolved) d.(handoffs)) d in
      active ← ok_or (d1.(reservations) !! ckey) ReservationDisappeared;
      d2 ← record_consumed_authoritative_route active resolved handoff.(ho_native_job_id)
             handoff.(ho_observed_at) d1;
      let d3 := set_reservations (delete ckey d2.(reservations)) d2 in
      let acknowledged := default 0%N (d3.(acknowledged_handoff_sequences) !! connector_id) in
      Ok (if decide (handoff.(ho_sequence) ≤ acknowledged)%N
          then set_handoffs (filter (λ h, h.(ho_sequence) ≠ handoff.(ho_sequence))
                               d3.(handoffs)) d3
          else d3)
    end
  end.

(** ** Compaction of local evidence *)

Record LocalHandoffCommit := {
  lc_job_id : string;
  lc_state : string;
  lc_native_job_id : option string;
  lc_ambiguity_confirmed : bool;
}.

(** [commits.iter().map(..).collect::<BTreeMap>()]: the last commit of a job wins. *)
Definition commits_by_job (commits : list LocalHandoffCommit) :
    gmap string LocalHandoffCommit :=
  foldl (λ m c, <[c.(lc_job_id) := c]> m) ∅ commits.

Definition post_handoff_states : list string :=
  ["accepted_by_spooler"; "spooling"; "printing"; "completed_reported"; "blocked";
   "cancel_requested"; "delivery_uncertain"].

Definition durably_projected (h : DurableHandoff) (c : LocalHandoffCommit) : bool :=
  match h.(ho_outcome) with
  | Accepted =>
    let accepted_state :=
      bool_decide (c.(lc_state) ∈ post_handoff_states ++ ["cancelled"; "failed_terminal"]) in
    let uncertain := bool_decide (c.(lc_state) = "delivery_uncertain"%string) in
    let no_native_id := bool_decide (h.(ho_native_job_id) = None) in
    let confirmed_without_native_id :=
      uncertain && no_native_id && c.(lc_ambiguity_confirmed) in
    accepted_state && bool_decide (c.(lc_native_job_id) = h.(ho_native_job_id))
    && (negb no_native_id || negb uncertain || confirmed_without_native_id)
  | RejectedBeforeHandoff =>
    bool_decide (c.(lc_state) ∈ ["failed_retryable"; "failed_terminal"; "cancelled";
                                 "expired"])
    || negb (bool_decide (c.(lc_native_job_id) = None))
       && bool_decide (c.(lc_state) ∈ post_handoff_states)
  | Ambiguous => false
  end.

(** The closure of [handoffs.retain]. *)
Definition retained_by_compaction (connector_id : string)
    (by_job : gmap string LocalHandoffCommit) (h : DurableHandoff) : bool :=
  if decide (h.(ho_connector_id) ≠ connector_id ∨ h.(ho_server_route_id) ≠ None
             ∨ h.(ho_outcome) = Ambiguous)
  then true
  else match by_job !! h.(ho_job_id) with
       | None => true
       | Some commit => negb (durably_projected h commit)
       end.

Definition compact_document (connector_id : string) (commits : list LocalHandoffCommit) d :
    CoordinatorDocument :=
  set_handoffs (filter (λ h, retained_by_compaction connector_id (commits_by_job commits) h
                             = true) d.(handoffs)) d.

(** ** Queries *)

Definition handle_of (ckey : string) (r : DurableReservation) : RouteReservation :=
  {| rr_local_route_key := r.(res_local_route_key);
     rr_server_route_id := r.(res_server_route_id);
     rr_coordination_key := ckey;
     rr_reservation_id := r.(res_reservation_id);
     rr_generation := r.(res_generation);
     rr_fencing_token := r.(res_fencing_token) |}.

Definition authoritative_reservations_for_connector d (connector_id : string) :
    list (string * RouteReservation) :=
  (λ kr, (kr.2.(res_job_id), handle_of kr.1 kr.2)) <$>
    filter (λ kr, kr.2.(res_connector_id) = connector_id
                  ∧ kr.2.(res_server_route_id) ≠ None) (btree_entries d.(reservations)).

Definition local_reservations_for_connector d (connector_id : string) :
    list (string * RouteReservation) :=
  (λ kr, (kr.2.(res_job_id), handle_of kr.1 kr.2)) <$>
    filter (λ kr, kr.2.(res_connector_id) = connector_id
                  ∧ kr.2.(res_server_route_id) = None) (btree_entries d.(reservations)).

Definition has_handoff_for_reservation d (connector_id job_id : string)
    (r : RouteReservation) : bool :=
  bool_decide (Exists (λ h, h.(ho_connector_id) = connector_id ∧ h.(ho_job_id) = job_id
                            ∧ h.(ho_reservation_id) = r.(rr_reservation_id)
                            ∧ h.(ho_fencing_generation) = r.(rr_generation)
                            ∧ h.(ho_local_route_key) = r.(rr_local_route_key))
                 d.(handoffs)).

Record LocalHandoffResolutionTarget := {
  lt_ambiguity_id : string;
  lt_local_route_key : string;
  lt_reservation_id : Uuid;
  lt_generation : N;
  lt_outcome : NativeHandoffOutcome;
}.

Definition local_handoff_resolution_target d (connector_id job_id : string) :
    option LocalHandoffResolutionTarget :=
  h ← find_last (λ h, h.(ho_connector_id) = connector_id ∧ h.(ho_job_id) = job_id
                      ∧ h.(ho_server_route_id) = None) d.(handoffs);
  Some {| lt_ambiguity_id := local_ambiguity_id h.(ho_connector_id) h.(ho_job_id)
                               h.(ho_local_route_key) h.(ho_reservation_id)
                               h.(ho_fencing_generation);
          lt_local_route_key := h.(ho_local_route_key);
          lt_reservation_id := h.(ho_reservation_id);
          lt_generation := h.(ho_fencing_generation);
          lt_outcome := h.(ho_outcome) |}.

Definition authoritative_owner_for_job d (job_id : string) :
    result CoordinatorError (option string) :=
  let owners : gset string :=
    list_to_set (res_connector_id <$>
      filter (λ r, r.(res_job_id) = job_id ∧ r.(res_server_route_id) ≠ None)
        (btree_values d.(reservations))) in
  if decide (1 < size owners) then Err ConflictingAuthoritativeReservations
  else Ok (head (elements owners)).

Record AuthoritativeHandoffResolution := {
  ar_outcome : NativeHandoffOutcome;
  ar_native_job_id : option string;
  ar_observed_at : DateTime;
}.

Definition authoritative_handoff_for_proof d (connector_id job_id reservation_id : string)
    (gen : N) (fencing_token : string) : option AuthoritativeHandoffResolution :=
  match find_last (λ h, h.(ho_connector_id) = connector_id ∧ h.(ho_job_id) = job_id
                        ∧ uuid_to_string h.(ho_reservation_id) = reservation_id
                        ∧ h.(ho_fencing_generation) = gen
                        ∧ h.(ho_fencing_token) = fencing_token) d.(handoffs) with
  | Some h => Some {| ar_outcome := h.(ho_outcome); ar_native_job_id := h.(ho_native_job_id);
                      ar_observed_at := h.(ho_observed_at) |}
  | None =>
    c ← find_first (λ c, c.(con_connector_id) = connector_id ∧ c.(con_job_id) = job_id
                         ∧ uuid_to_string c.(con_reservation_id) = reservation_id
                         ∧ c.(con_generation) = gen
                         ∧ c.(con_fencing_token) = fencing_token)
          (btree_values d.(consumed_authoritative_routes));
    Some {| ar_outcome := c.(con_outcome); ar_native_job_id := c.(con_native_job_id);
            ar_observed_at := c.(con_observed_at) |}
  end.

Record NativeHandoffEvidence (JobId : Type) := {
  ev_sequence : N;
  ev_route_id : option string;
  ev_local_route_key : string;
  ev_job_id : JobId;
  ev_reservation_id : Uuid;
  ev_fencing_generation : N;
  ev_fencing_token : string;
  ev_observed_at : DateTime;
  ev_outcome : NativeHandoffOutcome;
  ev_native_job_id : option string;
}.

(** [parse] is [str::parse::<JobId>] (see [Id.from_str]). *)
Definition handoffs_for_connector {JobId} (parse : string → option JobId) d
    (connector_id : string) (after_sequence : N) : list (NativeHandoffEvidence JobId) :=
  take 100 (omap (λ h,
    job ← parse h.(ho_job_id);
    Some {| ev_sequence := h.(ho_sequence);
            ev_route_id := h.(ho_server_route_id);
            ev_local_route_key := h.(ho_local_route_key);
            ev_job_id := job;
            ev_reservation_id := h.(ho_reservation_id);
            ev_fencing_generation := h.(ho_fencing_generation);
            ev_fencing_token := h.(ho_fencing_token);
            ev_observed_at := h.(ho_observed_at);
            ev_outcome := h.(ho_outcome);
            ev_native_job_id := h.(ho_native_job_id) |})
    (filter (λ h, h.(ho_connector_id) = connector_id
                  ∧ (after_sequence < h.(ho_sequence))%N) d.(handoffs))).

Record LocalHandoffEvidence := {
  le_sequence : N;
  le_job_id : string;
  le_ambiguity_id : string;
  le_observed_at : DateTime;
  le_outcome : NativeHandoffOutcome;
  le_native_job_id : option string;
}.

Definition local_handoffs_for_connector d (connector_id : string) :
    list LocalHandoffEvidence :=
  (λ h, {| le_sequence := h.(ho_sequence); le_job_id := h.(ho_job_id);
           le_ambiguity_id := local_ambiguity_id h.(ho_connector_id) h.(ho_job_id)
                                h.(ho_local_route_key) h.(ho_reservation_id)
                                h.(ho_fencing_generation);
           le_observed_at := h.(ho_observed_at); le_outcome := h.(ho_outcome);
           le_native_job_id := h.(ho_native_job_id) |}) <$>
    filter (λ h, h.(ho_connector_id) = connector_id ∧ h.(ho_server_route_id) = None)
      d.(handoffs).

(** [from_millis] is chrono's [DateTime::from_timestamp_millis]. *)
Definition cloud_proof_for_job (from_millis : Z → option DateTime) d
    (connector_id job_id : string) : option CloudRouteReservation :=
  r ← find_first (λ r, r.(res_connector_id) = connector_id ∧ r.(res_job_id) = job_id)
        (btree_values d.(reservations));
  server_route_id ← r.(res_server_route_id);
  expires ← from_millis r.(res_expires_unix_ms);
  Some {| cloud_route_id := server_route_id;
          cloud_local_route_key := r.(res_local_route_key);
          cloud_reservation_id := r.(res_reservation_id);
          cloud_generation := r.(res_generation);
          cloud_fencing_token := r.(res_fencing_token);
          cloud_lease_expires_at := expires |}.

(** [RouteReservation::matches_cloud_proof]. *)
Definition matches_cloud_proof (r : RouteReservation) (reservation_id : string) (gen : N)
    (fencing_token : string) : bool :=
  bool_decide (r.(rr_server_route_id) ≠ None
               ∧ uuid_to_string r.(rr_reservation_id) = reservation_id
               ∧ r.(rr_generation) = gen ∧ r.(rr_fencing_token) = fencing_token).
End operations.

(** * The journal and the coordinator's public operations *)

(** [serde_json] on the journal: bytes are an abstract type. *)
Class JournalCodec `{External} := {
  bytes : Type;
  bytes_eq_dec :: EqDecision bytes;
  to_vec_pretty : CoordinatorDocument → bytes;
  to_vec : CoordinatorDocument → bytes;
  from_slice : bytes → option CoordinatorDocument;
}.

(** How one write of the journal ends.  [replace_json] stages the bytes, renames
    the staged file over the journal and syncs the directory: an error before the
    rename leaves the old file, an error after it (the directory sync) the new. *)
Inductive PersistFault := NoFault | BeforeReplace | AfterReplace.

(** The environment of one operation: the outcome of its journal write, and
    whether the journal can be read back after a failure. *)
Record Io := { fault : PersistFault; readable : bool }.

Section coordinator.
Context `{JournalCodec}.

(** [disk] is the content of route-coordinator.json under [root]. *)
Record RouteCoordinator := {
  document : CoordinatorDocument;
  next_observation_sequence : N;
  reserved_observation_sequence : N;
  poisoned : bool;
  disk : option bytes;
}.

Definition with_document (d : CoordinatorDocument) (c : RouteCoordinator) : RouteCoordinator :=
  {| document := d; next_observation_sequence := c.(next_observation_sequence);
     reserved_observation_sequence := c.(reserved_observation_sequence);
     poisoned := c.(poisoned); disk := c.(disk) |}.
Definition with_poisoned (p : bool) (c : RouteCoordinator) : RouteCoordinator :=
  {| document := c.(document); next_observation_sequence := c.(next_observation_sequence);
     reserved_observation_sequence := c.(reserved_observation_sequence);
     poisoned := p; disk := c.(disk) |}.
Definition with_disk (b : option bytes) (c : RouteCoordinator) : RouteCoordinator :=
  {| document := c.(document); next_observation_sequence := c.(next_observation_sequence);
     reserved_observation_sequence := c.(reserved_observation_sequence);
     poisoned := c.(poisoned); disk := b |}.
Definition with_observation (next reserved : N) (c : RouteCoordinator) : RouteCoordinator :=
  {| document := c.(document); next_observation_sequence := next;
     reserved_observation_sequence := reserved;
     poisoned := c.(poisoned); disk := c.(disk) |}.

Definition persist (io : Io) (c : RouteCoordinator) :
    RouteCoordinator * result CoordinatorError unit :=
  let replaced := with_disk (Some (to_vec_pretty c.(document))) c in
  match io.(fault) with
  | NoFault => (replaced, Ok ())
  | BeforeReplace => (c, Err PersistFailed)
  | AfterReplace => (replaced, Err PersistFailed)
  end.

Definition documents_match (left right : CoordinatorDocument) : bool :=
  bool_decide (to_vec left = to_vec right).

Definition commit_document_change (io : Io) (previous : CoordinatorDocument)
    (c : RouteCoordinator) : RouteCoordinator * result CoordinatorError unit :=
  match persist io c with
  | (c1, Ok _) => (c1, Ok ())
  | (c1, Err e) =>
    let read := if io.(readable) then c1.(disk) ≫= from_slice else None in
    (match read with
     | Some on_disk =>
       if documents_match on_disk previous then with_document previous c1
       else with_poisoned true (with_document on_disk c1)
     | None => with_poisoned true (with_document previous c1)
     end, Err e)
  end.

(** The shape shared by the journalled operations: refuse when fail-stopped,
    run the body on a copy, roll back on its error, commit otherwise. *)
Definition journalled {A} (io : Io)
    (body : CoordinatorDocument → result CoordinatorError (CoordinatorDocument * A))
    (c : RouteCoordinator) : RouteCoordinator * result CoordinatorError A :=
  if c.(poisoned) then (c, Err FailStopped) else
  let previous := c.(document) in
  match body previous with
  | Err e => (with_document previous c, Err e)
  | Ok (d, a) =>
    match commit_document_change io previous (with_document d c) with
    | (c1, Ok _) => (c1, Ok a)
    | (c1, Err e) => (c1, Err e)
    end
  end.

Definition no_value {E A} (m : result E A) : result E (A * unit) :=
  a ← m; Ok (a, ()).

Definition reserve (io : Io) (connector_id native_id job_id : string) (now_unix_ms : Z)
    (new_reservation_id new_fencing_token : Uuid) :
    RouteCoordinator → RouteCoordinator * result CoordinatorError RouteReservation :=
  journalled io (reserve_inner connector_id native_id job_id now_unix_ms
                   new_reservation_id new_fencing_token).

Definition register_authoritative (io : Io) (connector_id native_id job_id : string)
    (cloud : CloudRouteReservation) (now : DateTime) :
    RouteCoordinator →
    RouteCoordinator * result CoordinatorError AuthoritativeRouteRegistration :=
  journalled io (register_authoritative_inner connector_id native_id job_id cloud now).

Definition validate (r : RouteReservation) (c : RouteCoordinator) :
    result CoordinatorError unit :=
  if c.(poisoned) then Err FailStopped else validate_document r c.(document).

Definition finish (io : Io) (connector_id job_id : string) (r : RouteReservation)
    (outcome : NativeHandoffOutcome) (native_job_id : option string)
    (observed_at : DateTime) :
    RouteCoordinator → RouteCoordinator * result CoordinatorError unit :=
  journalled io (λ d, no_value (finish_inner connector_id job_id r outcome native_job_id
                                  observed_at d)).

(** The second attempt has an environment of its own. *)
Definition finish_runtime (io retry_io : Io) (connector_id job_id : string)
    (r : RouteReservation) (outcome : NativeHandoffOutcome) (native_job_id : option string)
    (observed_at : DateTime) (c : RouteCoordinator) :
    RouteCoordinator * result CoordinatorError unit :=
  match finish io connector_id job_id r outcome native_job_id observed_at c with
  | (c1, Ok _) => (c1, Ok ())
  | (c1, Err first_error) =>
    if c1.(poisoned) then (with_poisoned true c1, Err first_error) else
    match finish retry_io connector_id job_id r outcome native_job_id observed_at c1 with
    | (c2, Ok _) => (c2, Ok ())
    | (c2, Err _) => (with_poisoned true c2, Err first_error)
    end
  end.

Definition acknowledge_handoffs (io : Io) (connector_id : string) (through_sequence : N) :
    RouteCoordinator → RouteCoordinator * result CoordinatorError unit :=
  journalled io (λ d, no_value (acknowledge_document connector_id through_sequence d)).

Definition resolve_ambiguous_handoff (io : Io)
    (connector_id job_id local_route_key : string) (reservation_id : Uuid) (gen : N)
    (resolution : AmbiguousHandoffResolution) :
    RouteCoordinator → RouteCoordinator * result CoordinatorError unit :=
  journalled io (λ d, no_value (resolve_ambiguous_handoff_inner connector_id job_id
                                  local_route_key reservation_id gen resolution d)).

Definition compact_local_terminal_handoffs (io : Io) (connector_id : string)
    (commits : list LocalHandoffCommit) (c : RouteCoordinator) :
    RouteCoordinator * result CoordinatorError nat :=
  if c.(poisoned) then (c, Err FailStopped) else
  if decide (MAX_HANDOFFS < length commits) then (c, Err CommitBatchTooLarge) else
  let previous := c.(document) in
  let d := compact_document connector_id commits previous in
  let removed := length previous.(handoffs) - length d.(handoffs) in
  if decide (removed = 0) then (with_document d c, Ok 0) else
  match commit_document_change io previous (with_document d c) with
  | (c1, Ok _) => (c1, Ok removed)
  | (c1, Err e) => (c1, Err e)
  end.

(** [reconcile] does not restore the document when its write fails. *)
Definition reconcile (io : Io) (printers : list DiscoveredPrinter) (inventory_revision : N)
    (observed_at : DateTime) (c : RouteCoordinator) :
    RouteCoordinator * result CoordinatorError (gmap string PrinterRouteSnapshot) :=
  if c.(poisoned) then (c, Err FailStopped) else
  let '(d, snapshots) :=
    reconcile_document printers inventory_revision observed_at c.(document) in
  match persist io (with_document d c) with
  | (c1, Ok _) => (c1, Ok snapshots)
  | (c1, Err e) => (c1, Err e)
  end.

(** [(start..=through).collect()]. *)
Definition sequence_range (start through : N) : list N :=
  (λ i, (start + N.of_nat i)%N) <$> seq 0 (N.to_nat (through + 1 - start)).

Definition allocate_observation_sequences (io : Io) (count : nat) (c : RouteCoordinator) :
    RouteCoordinator * result CoordinatorError (list N) :=
  if c.(poisoned) then (c, Err FailStopped) else
  let bounded := N.of_nat (Nat.min count MAX_ROUTES) in
  if decide (bounded = 0%N) then (c, Ok []) else
  let start := c.(next_observation_sequence) in
  match u64_checked_add start (bounded - 1) with
  | None => (c, Err ObservationSequenceExhausted)
  | Some allocated_through =>
    let reserve_more :=
      if decide (c.(reserved_observation_sequence) < allocated_through)%N then
        match u64_checked_add c.(document).(observation_sequence)
                (N.max OBSERVATION_SEQUENCE_RESERVATION bounded) with
        | None => (c, Err ObservationSequenceExhausted)
        | Some reserved_through =>
          let c1 := with_document
                      (set_observation_sequence reserved_through c.(document)) c in
          match persist io c1 with
          | (c2, Ok _) =>
            (with_observation c2.(next_observation_sequence) reserved_through c2, Ok ())
          | (c2, Err e) => (c2, Err e)
          end
        end
      else (c, Ok ()) in
    match reserve_more with
    | (c1, Err e) => (c1, Err e)
    | (c1, Ok _) =>
      match u64_checked_add allocated_through 1 with
      | None => (c1, Err ObservationSequenceExhausted)
      | Some next =>
        (with_observation next c1.(reserved_observation_sequence) c1,
         Ok (sequence_range start allocated_through))
      end
    end
  end.

Definition empty_document (namespace : Uuid) : CoordinatorDocument :=
  {| version := DOCUMENT_VERSION; installation_namespace := namespace;
     topology_revision := 0; handoff_sequence := 0; observation_sequence := 0;
     routes := ∅; reservations := ∅; consumed_authoritative_routes := ∅;
     acknowledged_handoff_sequences := ∅; handoffs := []; topology_changes := [] |}.

(** A consumed route the journal may not contain. *)
Definition invalid_consumed (key : string) (c : ConsumedAuthoritativeRoute) : Prop :=
  c.(con_generation) = 0%N ∨ c.(con_server_route_id) = ""%string
  ∨ c.(con_local_route_key) = ""%string ∨ c.(con_job_id) = ""%string
  ∨ c.(con_connector_id) = ""%string ∨ c.(con_fencing_token) = ""%string
  ∨ key ≠ authoritative_route_key c.(con_connector_id) c.(con_server_route_id)
            c.(con_local_route_key) c.(con_job_id).
#[export] Instance invalid_consumed_dec key c : Decision (invalid_consumed key c).
Proof. unfold invalid_consumed. apply _. Defined.

(** The checks and the repair of [open], up to the journal write. *)
Definition open_document (new_namespace : Uuid) (found : option bytes) :
    result CoordinatorError (CoordinatorDocument * N * N) :=
  d ← match found with
      | Some b => ok_or (from_slice b) PersistFailed
      | None => Ok (empty_document new_namespace)
      end;
  if decide (d.(version) ≠ DOCUMENT_VERSION) then Err UnsupportedVersion else
  if decide (MAX_HANDOFFS < length d.(handoffs)
             ∨ MAX_TOPOLOGY_CHANGES < length d.(topology_changes)
             ∨ MAX_CONSUMED_AUTHORITATIVE_ROUTES < size d.(consumed_authoritative_routes)
             ∨ MAX_ACKNOWLEDGED_CONNECTORS < size d.(acknowledged_handoff_sequences))
  then Err StateExceedsBounds else
  if decide (map_Exists invalid_consumed d.(consumed_authoritative_routes))
  then Err InvalidReplayBarrier else
  next ← ok_or (u64_checked_add d.(observation_sequence) 1) ObservationSequenceExhausted;
  let repaired := prune_absent_routes (reconcile_coordination_keys d) in
  if decide (MAX_ROUTES < size repaired.(routes)) then Err StateExceedsBounds
  else Ok (repaired, next, d.(observation_sequence)).

(** [open] on the bytes found at the journal's path ([None]: no file); the
    first component is the journal afterwards. *)
Definition open (io : Io) (new_namespace : Uuid) (found : option bytes) :
    option bytes * result CoordinatorError RouteCoordinator :=
  match open_document new_namespace found with
  | Err e => (found, Err e)
  | Ok (d, next, reserved) =>
    let '(c, r) := persist io {| document := d; next_observation_sequence := next;
                                 reserved_observation_sequence := reserved;
                                 poisoned := false; disk := found |} in
    (c.(disk), _ ← r; Ok c)
  end.
End coordinator.
