(* ===== verification/CoordinatorFacts.v ===== *)
(** Safety of the route coordinator: mutual exclusion on a route and on a
    physical printer, replay barriers, durability of the fence. *)

From S2P Require Import Prelude Domain Identity Coordinator.

(** * The exclusion domains of a document *)

Section domains.
Context `{External}.
Implicit Types (d : CoordinatorDocument) (n k : string) (ρ : DurableRoute).

(** Folding [add_occupied] over the entries a partial function selects. *)
Lemma elem_of_fold_occupied {A} (f : A → option (string * string)) g (l : list A) m D k :
  (∀ occ x, g occ x = match f x with
                      | Some (D, k) => add_occupied D k occ
                      | None => occ
                      end) →
  k ∈ default ∅ (foldl g m l !! D) ↔
  k ∈ default ∅ (m !! D) ∨ ∃ x, x ∈ l ∧ f x = Some (D, k).
Proof.
  intros Hg. revert m. induction l as [|x l IH]; intros m; simpl.
  { set_solver. }
  rewrite IH, Hg. setoid_rewrite elem_of_cons.
  destruct (f x) as [[D' k']|] eqn:Ef; [|naive_solver].
  unfold add_occupied. rewrite lookup_insert. case_decide as HD; simpl.
  - subst. rewrite elem_of_union, elem_of_singleton. naive_solver.
  - naive_solver.
Qed.

Lemma route_with_id_Some d id n ρ :
  route_with_id d id = Some (n, ρ) → d.(routes) !! n = Some ρ ∧ ρ.(route_id) = id.
Proof. intros [Hin Hid]%find_first_Some. by apply elem_of_btree_entries in Hin. Qed.

Lemma route_with_id_is_Some d n ρ :
  d.(routes) !! n = Some ρ → is_Some (route_with_id d ρ.(route_id)).
Proof. intros Hn. eapply find_first_is_Some; [by apply elem_of_btree_entries|done]. Qed.

Lemma elem_of_occupied d D k :
  k ∈ default ∅ (occupied_by_desired d !! D) ↔
  (∃ n ρ, d.(routes) !! n = Some ρ ∧ desired_key ρ = D ∧ ρ.(coordination_key) = k ∧
          is_Some (d.(reservations) !! k)) ∨
  (∃ r n ρ, d.(reservations) !! k = Some r ∧
            route_with_id d r.(res_local_route_key) = Some (n, ρ) ∧ desired_key ρ = D).
Proof.
  unfold occupied_by_desired.
  rewrite (elem_of_fold_occupied (λ kr : string * DurableReservation,
    '(_, ρ) ← route_with_id d kr.2.(res_local_route_key); Some (desired_key ρ, kr.1))).
  2:{ intros occ [k' r]. simpl. by destruct (route_with_id _ _) as [[??]|]. }
  unfold occupied_by_routes.
  rewrite (elem_of_fold_occupied (λ nr : string * DurableRoute,
    if decide (is_Some (d.(reservations) !! nr.2.(coordination_key)))
    then Some (desired_key nr.2, nr.2.(coordination_key)) else None)).
  2:{ intros occ [n' r]. simpl. by case_decide. }
  rewrite lookup_empty. simpl. split.
  - intros [[?|([n ρ] & Hin & Hf)]|([k' r] & Hin & Hf)]; [set_solver|..].
    + left. apply elem_of_btree_entries in Hin. simpl in Hf. case_decide; naive_solver.
    + right. apply elem_of_btree_entries in Hin. simpl in Hf.
      apply bind_Some in Hf as ([n ρ] & Hr & [= <- ->]). naive_solver.
  - intros [(n & ρ & Hn & <- & <- & Hk)|(r & n & ρ & Hk & Hr & <-)].
    + left; right. exists (n, ρ). rewrite elem_of_btree_entries. simpl. by case_decide.
    + right. exists (k, r). rewrite elem_of_btree_entries. simpl. by rewrite Hr.
Qed.

Lemma reconcile_routes_lookup d n ρ' :
  (reconcile_coordination_keys d).(routes) !! n = Some ρ' ↔
  ∃ ρ, d.(routes) !! n = Some ρ ∧ ρ' = reconcile_route d ρ.
Proof. simpl. rewrite lookup_fmap, fmap_Some. naive_solver. Qed.

Lemma reconcile_route_frame d ρ :
  (reconcile_route d ρ).(route_id) = ρ.(route_id) ∧
  (reconcile_route d ρ).(route_evidence) = ρ.(route_evidence) ∧
  (reconcile_route d ρ).(present) = ρ.(present) ∧
  (reconcile_route d ρ).(generation) = ρ.(generation) ∧
  desired_key (reconcile_route d ρ) = desired_key ρ.
Proof.
  unfold reconcile_route, desired_key.
  by destruct (elements _) as [|? [|??]].
Qed.

(** A reservation's fence is found through its route, or the route is conflicted. *)
Lemma reconcile_route_fence d ρ k :
  k ∈ default ∅ (occupied_by_desired d !! desired_key ρ) →
  (reconcile_route d ρ).(coordination_key) = k ∨
  (reconcile_route d ρ).(coordination_conflict) = true.
Proof.
  unfold reconcile_route. rewrite <- elem_of_elements.
  destruct (elements _) as [|a [|b l]]; simpl; [set_solver|set_solver|by right].
Qed.

(** Two routes of one physical group share a domain or are both conflicted. *)
Lemma reconcile_route_group d ρ1 ρ2 :
  desired_key ρ1 = desired_key ρ2 →
  (reconcile_route d ρ1).(coordination_conflict) =
    (reconcile_route d ρ2).(coordination_conflict) ∧
  ((reconcile_route d ρ1).(coordination_conflict) = true ∨
   (reconcile_route d ρ1).(coordination_key) = (reconcile_route d ρ2).(coordination_key)).
Proof.
  unfold reconcile_route. intros ->. destruct (elements _) as [|a [|b l]]; simpl; auto.
Qed.
End domains.

(** * Well-formed documents

    [known] are the native queue names the node ever sees; the truncated digest
    that names a route must not collide on them. *)

Section wf.
Context `{External} (ns : Uuid) (known : string → Prop).
Context (known_inj : ∀ n1 n2, known n1 → known n2 →
           route_id_of ns n1 = route_id_of ns n2 → n1 = n2).
Implicit Types (d : CoordinatorDocument) (n k : string) (ρ : DurableRoute)
  (r : DurableReservation).

(** The part of the invariant that holds at every point of an operation. *)
Record base_wf d : Prop := {
  wf_ns : d.(installation_namespace) = ns;
  wf_known : ∀ n ρ, d.(routes) !! n = Some ρ → known n;
  wf_route_id : ∀ n ρ, d.(routes) !! n = Some ρ → ρ.(route_id) = route_id_of ns n;
  wf_local : ∀ k r, d.(reservations) !! k = Some r →
    ∃ n, known n ∧ r.(res_local_route_key) = route_id_of ns n;
  wf_home : ∀ k r, d.(reservations) !! k = Some r →
    (∃ n ρ, d.(routes) !! n = Some ρ ∧ ρ.(route_id) = r.(res_local_route_key)) ∨
    k = r.(res_local_route_key);
  wf_exclusive : ∀ k1 r1 k2 r2,
    d.(reservations) !! k1 = Some r1 → d.(reservations) !! k2 = Some r2 →
    r1.(res_local_route_key) = r2.(res_local_route_key) → k1 = k2;
}.

(** The invariant between operations. *)
Record fence_wf d : Prop := {
  wf_base : base_wf d;
  wf_fence : ∀ k r n ρ, d.(reservations) !! k = Some r → d.(routes) !! n = Some ρ →
    ρ.(route_id) = r.(res_local_route_key) →
    ρ.(coordination_key) = k ∨ ρ.(coordination_conflict) = true;
  wf_group : ∀ n1 ρ1 n2 ρ2, d.(routes) !! n1 = Some ρ1 → d.(routes) !! n2 = Some ρ2 →
    desired_key ρ1 = desired_key ρ2 →
    ρ1.(coordination_conflict) = ρ2.(coordination_conflict) ∧
    (ρ1.(coordination_conflict) = true ∨ ρ1.(coordination_key) = ρ2.(coordination_key));
}.

Lemma base_route_unique d n1 ρ1 n2 ρ2 :
  base_wf d → d.(routes) !! n1 = Some ρ1 → d.(routes) !! n2 = Some ρ2 →
  ρ1.(route_id) = ρ2.(route_id) → n1 = n2.
Proof. intros [] H1 H2 Hid. apply known_inj; [eauto..|]. by rewrite <- (wf_route_id0 _ _ H1), <- (wf_route_id0 _ _ H2). Qed.

(** [route_with_id] finds the route of a native name. *)
Lemma route_with_id_lookup d n ρ :
  base_wf d → d.(routes) !! n = Some ρ →
  route_with_id d (route_id_of ns n) = Some (n, ρ).
Proof.
  intros Hwf Hn. assert (Hid := wf_route_id _ Hwf _ _ Hn).
  destruct (route_with_id_is_Some _ _ _ Hn) as [[n' ρ'] Hr]. rewrite Hid in Hr. rewrite Hr.
  apply route_with_id_Some in Hr as [Hn' Hid'].
  assert (n' = n) as -> by (eapply base_route_unique; eauto; congruence).
  congruence.
Qed.

Lemma route_with_id_known d n nρ :
  base_wf d → known n → route_with_id d (route_id_of ns n) = Some nρ →
  nρ.1 = n ∧ d.(routes) !! n = Some nρ.2.
Proof.
  intros Hwf Hk Hr. destruct nρ as [n' ρ']. apply route_with_id_Some in Hr as [Hn' Hid'].
  assert (n' = n) as -> by (apply known_inj; [by eapply wf_known|done|];
    by rewrite <- (wf_route_id _ Hwf _ _ Hn')).
  done.
Qed.

(** Regrouping restores the fence from any document that satisfies the base
    invariant, whatever its keys and conflict flags were. *)
Lemma reconcile_coordination_keys_wf d :
  base_wf d → fence_wf (reconcile_coordination_keys d).
Proof.
  intros Hwf. split.
  - destruct Hwf as [Hns Hk Hid Hl Hh He]. split; simpl; try done.
    + intros n ρ' (ρ & Hn & ->)%reconcile_routes_lookup. eauto.
    + intros n ρ' (ρ & Hn & ->)%reconcile_routes_lookup.
      destruct (reconcile_route_frame d ρ) as (-> & _). eauto.
    + intros k r Hr. destruct (Hh k r Hr) as [(n & ρ & Hn & Hρ)|?]; [left|by right].
      exists n, (reconcile_route d ρ). rewrite lookup_fmap, Hn.
      by destruct (reconcile_route_frame d ρ) as (-> & _).
  - simpl. intros k r n ρ' Hr (ρ & Hn & ->)%reconcile_routes_lookup.
    destruct (reconcile_route_frame d ρ) as (-> & _). intros Hid.
    apply reconcile_route_fence, elem_of_occupied. right.
    exists r, n, ρ. split_and!; [done| |done].
    rewrite <- Hid, (wf_route_id _ Hwf _ _ Hn). by apply route_with_id_lookup.
  - intros n1 ρ1' n2 ρ2' (ρ1 & Hn1 & ->)%reconcile_routes_lookup
      (ρ2 & Hn2 & ->)%reconcile_routes_lookup.
    destruct (reconcile_route_frame d ρ1) as (_ & _ & _ & _ & ->).
    destruct (reconcile_route_frame d ρ2) as (_ & _ & _ & _ & ->).
    apply reconcile_route_group.
Qed.

(** ** Pruning *)

Lemma prune_routes_lookup d n ρ :
  (prune_absent_routes d).(routes) !! n = Some ρ ↔
  d.(routes) !! n = Some ρ ∧
  (ρ.(present) = true ∨
   ∃ n' ρ', d.(routes) !! n' = Some ρ' ∧ ρ'.(present) = false ∧
            route_requires_retention d ρ' ∧ ρ'.(route_id) = ρ.(route_id)).
Proof.
  unfold prune_absent_routes. simpl. rewrite map_lookup_filter_Some.
  rewrite elem_of_list_to_set, list_elem_of_fmap.
  setoid_rewrite list_elem_of_filter. setoid_rewrite elem_of_btree_values.
  naive_solver.
Qed.

Lemma prune_reserved d k r n ρ :
  d.(reservations) !! k = Some r → d.(routes) !! n = Some ρ →
  ρ.(route_id) = r.(res_local_route_key) →
  (prune_absent_routes d).(routes) !! n = Some ρ.
Proof.
  intros Hr Hn Hid. apply prune_routes_lookup. split; [done|].
  destruct (ρ.(present)) eqn:Hp; [by left|right]. exists n, ρ. split_and!; [done..| |done].
  left. exists k, r. naive_solver.
Qed.

Lemma prune_base d : base_wf d → base_wf (prune_absent_routes d).
Proof.
  intros [Hns Hk Hid Hl Hh He]. split; simpl; try done.
  - intros n ρ [Hn _]%prune_routes_lookup. eauto.
  - intros n ρ [Hn _]%prune_routes_lookup. eauto.
  - intros k r Hr. destruct (Hh k r Hr) as [(n & ρ & Hn & Hρ)|?]; [left|by right].
    exists n, ρ. split; [|done]. by eapply prune_reserved.
Qed.

Lemma prune_fence d : fence_wf d → fence_wf (prune_absent_routes d).
Proof.
  intros [Hb Hf Hg]. split; simpl.
  - by apply prune_base.
  - intros k r n ρ Hr [Hn _]%prune_routes_lookup. eauto.
  - intros n1 ρ1 n2 ρ2 [Hn1 _]%prune_routes_lookup [Hn2 _]%prune_routes_lookup. eauto.
Qed.

(** ** Frames *)

(** Routes with the same exclusion domains: bookkeeping such as the generation
    and the presence flag may differ. *)
Definition same_domain ρ1 ρ2 : Prop :=
  ρ1.(route_id) = ρ2.(route_id) ∧ ρ1.(coordination_key) = ρ2.(coordination_key) ∧
  ρ1.(coordination_conflict) = ρ2.(coordination_conflict) ∧
  ρ1.(route_evidence) = ρ2.(route_evidence).
Definition same_domains (m1 m2 : gmap string DurableRoute) : Prop :=
  ∀ n, option_Forall2 same_domain (m1 !! n) (m2 !! n).

#[local] Instance same_domain_equiv : Equivalence same_domain.
Proof. unfold same_domain. split; red; naive_solver congruence. Qed.
Lemma same_domains_refl m : same_domains m m.
Proof. intros n. reflexivity. Qed.
#[local] Hint Resolve same_domains_refl : core.

Lemma same_domains_l m1 m2 n ρ1 :
  same_domains m1 m2 → m1 !! n = Some ρ1 → ∃ ρ2, m2 !! n = Some ρ2 ∧ same_domain ρ1 ρ2.
Proof. intros Hm Hn. specialize (Hm n). rewrite Hn in Hm. inv Hm. eauto. Qed.
Lemma same_domains_r m1 m2 n ρ2 :
  same_domains m1 m2 → m2 !! n = Some ρ2 → ∃ ρ1, m1 !! n = Some ρ1 ∧ same_domain ρ1 ρ2.
Proof. intros Hm Hn. specialize (Hm n). rewrite Hn in Hm. inv Hm. eauto. Qed.

Lemma same_domain_desired ρ1 ρ2 : same_domain ρ1 ρ2 → desired_key ρ1 = desired_key ρ2.
Proof. intros (Hi & _ & _ & He). unfold desired_key. by rewrite Hi, He. Qed.

(** Releasing reservations, and any change outside routes' domains and
    reservations, keeps the invariant. *)
Lemma fence_wf_frame d d' :
  fence_wf d → d'.(installation_namespace) = d.(installation_namespace) →
  same_domains d.(routes) d'.(routes) → d'.(reservations) ⊆ d.(reservations) →
  fence_wf d'.
Proof.
  intros [[Hns Hk Hid Hl Hh He] Hf Hg] Hns' Hr Hs.
  assert (Hs' : ∀ k r, d'.(reservations) !! k = Some r → d.(reservations) !! k = Some r)
    by (intros; by eapply lookup_weaken).
  split; [split|..].
  - congruence.
  - intros n ρ Hn. destruct (same_domains_r _ _ _ _ Hr Hn) as (? & ? & ?). eauto.
  - intros n ρ Hn. destruct (same_domains_r _ _ _ _ Hr Hn) as (ρ' & Hn' & (<- & _)). eauto.
  - eauto.
  - intros k r Hk'. destruct (Hh k r) as [(n & ρ & Hn & Hρ)|?]; [eauto|left|by right].
    destruct (same_domains_l _ _ _ _ Hr Hn) as (ρ' & Hn' & (? & _)). exists n, ρ'.
    split; congruence.
  - eauto.
  - intros k r n ρ Hk' Hn. destruct (same_domains_r _ _ _ _ Hr Hn)
      as (ρ' & Hn' & (<- & <- & <- & _)). eauto.
  - intros n1 ρ1 n2 ρ2 Hn1 Hn2 HD.
    destruct (same_domains_r _ _ _ _ Hr Hn1) as (ρ1' & Hn1' & Hd1).
    destruct (same_domains_r _ _ _ _ Hr Hn2) as (ρ2' & Hn2' & Hd2).
    rewrite <- (same_domain_desired _ _ Hd1), <- (same_domain_desired _ _ Hd2) in HD.
    destruct Hd1 as (_ & <- & <- & _), Hd2 as (_ & <- & <- & _). eauto.
Qed.

(** Adding a reservation for the route of [n] under its domain [k] keeps the
    invariant when the domain is free and the route not conflicted. *)
Lemma fence_wf_reserve d n k r :
  fence_wf d → known n → d.(reservations) !! k = None →
  r.(res_local_route_key) = route_id_of ns n →
  (∀ ρ, d.(routes) !! n = Some ρ →
     ρ.(coordination_key) = k ∧ ρ.(coordination_conflict) = false) →
  (d.(routes) !! n = None → k = route_id_of ns n) →
  fence_wf (set_reservations (<[k := r]> d.(reservations)) d).
Proof.
  intros [Hb Hf Hg] Hkn Hfree Hl Hsome Hnone.
  assert (Hb' := Hb). destruct Hb' as [Hns Hk Hid Hlo Hh He].
  assert (Hother : ∀ k' r', d.(reservations) !! k' = Some r' →
            r'.(res_local_route_key) = route_id_of ns n → False).
  { intros k' r' Hk' Hl'. destruct (d.(routes) !! n) as [ρ|] eqn:Hn.
    - destruct (Hsome ρ eq_refl) as [Hρk Hρc].
      destruct (Hf k' r' n ρ) as [?|?]; [done|done| |congruence..].
      rewrite Hl'. eauto.
    - rewrite Hnone in Hfree by done.
      destruct (Hh k' r' Hk') as [(n' & ρ' & Hn' & Hρ')|?]; [|congruence].
      assert (n' = n) as -> by
        (apply known_inj; [eauto|done|]; rewrite <- (Hid _ _ Hn'); congruence).
      congruence. }
  split; [split|..]; simpl; try done.
  - intros k' r'. rewrite lookup_insert_Some. naive_solver.
  - intros k' r'. rewrite lookup_insert_Some. intros [[<- <-]|[Hne Hk']]; [|eauto].
    destruct (d.(routes) !! n) as [ρ|] eqn:Hn; [left; exists n, ρ|right].
    + split; [done|]. rewrite Hl. eauto.
    + rewrite Hl. by apply Hnone.
  - intros k1 r1 k2 r2. rewrite !lookup_insert_Some.
    intros [[<- <-]|[Hne1 Hk1]] [[<- <-]|[Hne2 Hk2]] Hll; [done|..|eauto]; exfalso.
    + eapply Hother; [exact Hk2|congruence].
    + eapply Hother; [exact Hk1|congruence].
  - intros k' r' n' ρ'. rewrite lookup_insert_Some.
    intros [[<- <-]|[Hne Hk']] Hn' Hρ'; [|eauto].
    assert (n' = n) as ->.
    { apply known_inj; [eauto|done|]. rewrite <- (Hid _ _ Hn'). congruence. }
    left. by apply Hsome.
Qed.

(** ** Operations keep the invariant *)

Definition reserved_handle d n ckey r : RouteReservation :=
  {| rr_local_route_key := route_id_for d n;
     rr_server_route_id := r.(res_server_route_id);
     rr_coordination_key := ckey;
     rr_reservation_id := r.(res_reservation_id);
     rr_generation := r.(res_generation);
     rr_fencing_token := r.(res_fencing_token) |}.

Definition domain_of d n : string :=
  from_option coordination_key (route_id_for d n) (d.(routes) !! n).

Lemma with_generation_domains m n ρ g :
  m !! n = Some ρ → same_domains m (<[n := with_generation g ρ]> m).
Proof.
  intros Hn n'. rewrite lookup_insert. case_decide; [subst; rewrite Hn; by constructor|].
  reflexivity.
Qed.

(** The two ways [reserve] succeeds: the caller's own unresolved reservation,
    or a new reservation of a free domain. *)
Lemma reserve_inner_Ok conn n job now u t d d' rr :
  reserve_inner conn n job now u t d = Ok (d', rr) →
  ¬ Exists (crossed_handoff conn job) d.(handoffs) ∧
  ((d' = d ∧ ∃ r, d.(reservations) !! domain_of d n = Some r ∧
      r.(res_job_id) = job ∧ r.(res_connector_id) = conn ∧
      rr = reserved_handle d n (domain_of d n) r) ∨
   (d.(reservations) !! domain_of d n = None ∧
    length d.(handoffs) + size d.(reservations) < MAX_HANDOFFS ∧
    from_option coordination_conflict false (d.(routes) !! n) = false ∧
    ∃ r m, same_domains d.(routes) m ∧
      r.(res_server_route_id) = None ∧ r.(res_local_route_key) = route_id_for d n ∧
      r.(res_reservation_id) = u ∧ r.(res_connector_id) = conn ∧ r.(res_job_id) = job ∧
      d' = set_reservations (<[domain_of d n := r]> d.(reservations)) (set_routes m d) ∧
      rr = reserved_handle d n (domain_of d n) r)).
Proof.
  unfold reserve_inner. fold (domain_of d n).
  case_decide as Hcross; [done|]. intros Hr. split; [done|].
  destruct (d.(reservations) !! domain_of d n) as [r|] eqn:Hex.
  - case_decide as Hj; [|done]. simplify_eq. left. split; [done|]. exists r. naive_solver.
  - case_decide as Hcap; [done|]. apply Nat.nle_gt in Hcap.
    destruct (from_option coordination_conflict _ _) eqn:Hc; [done|].
    right. split_and!; [done..|].
    destruct (route_with_id d (route_id_for d n)) as [[n' ρ']|] eqn:Hw; simplify_eq/=.
    + apply route_with_id_Some in Hw as [Hn' _].
      eexists _, _. split_and!; cycle 6; [done|done|by apply with_generation_domains|done..].
    + eexists _, d.(routes). split_and!; cycle 6;
        [by instantiate (1 := {| res_server_route_id := _ |}); destruct d
        |done|apply same_domains_refl|done..].
Qed.

Lemma reserve_wf conn n job now u t d d' rr :
  fence_wf d → known n → reserve_inner conn n job now u t d = Ok (d', rr) → fence_wf d'.
Proof.
  intros Hwf Hkn (_ & [[-> _]|(Hfree & _ & Hc & r & m & Hm & _ & Hl & _ & _ & _ & -> & _)])
    %reserve_inner_Ok; [done|].
  assert (Hns := wf_ns _ (wf_base _ Hwf)).
  apply (fence_wf_frame (set_reservations (<[domain_of d n := r]> d.(reservations)) d));
    [|done..].
  apply (fence_wf_reserve d n); [done..| | |].
  - rewrite Hl. unfold route_id_for. by rewrite Hns.
  - intros ρ Hn. unfold domain_of. rewrite Hn in *. done.
  - intros Hn. unfold domain_of, route_id_for. by rewrite Hn, Hns.
Qed.

(** The two ways [register_authoritative] succeeds. *)
Lemma register_inner_Ok conn n job cloud now d d' reg :
  register_authoritative_inner conn n job cloud now d = Ok (d', reg) →
  let key := authoritative_route_key conn cloud.(cloud_route_id)
               cloud.(cloud_local_route_key) job in
  ¬ map_Exists (λ _ c, c.(con_connector_id) = conn ∧ c.(con_job_id) = job ∧
                       c.(con_outcome) = Accepted) d.(consumed_authoritative_routes) ∧
  ¬ Exists (crossed_handoff conn job) d.(handoffs) ∧
  cloud.(cloud_local_route_key) = route_id_for d n ∧
  cloud.(cloud_route_id) ≠ ""%string ∧ (0 < cloud.(cloud_generation))%N ∧
  cloud.(cloud_fencing_token) ≠ ""%string ∧
  (∀ c, d.(consumed_authoritative_routes) !! key = Some c →
    c.(con_outcome) ≠ Accepted ∧ (c.(con_generation) < cloud.(cloud_generation))%N) ∧
  ∃ n' ρ, route_with_id d (route_id_for d n) = Some (n', ρ) ∧
  ((d' = d ∧ reg.(newly_registered) = false ∧
    ∃ r, d.(reservations) !! ρ.(coordination_key) = Some r ∧
      r.(res_connector_id) = conn ∧ r.(res_job_id) = job ∧
      r.(res_reservation_id) = cloud.(cloud_reservation_id) ∧
      r.(res_generation) = cloud.(cloud_generation) ∧
      r.(res_fencing_token) = cloud.(cloud_fencing_token) ∧
      r.(res_server_route_id) = Some cloud.(cloud_route_id)) ∨
   (d.(reservations) !! ρ.(coordination_key) = None ∧
    ρ.(coordination_conflict) = false ∧ reg.(newly_registered) = true ∧
    (is_Some (d.(consumed_authoritative_routes) !! key) ∨
     key ∈ active_unconsumed d ∨
     size d.(consumed_authoritative_routes) + size (active_unconsumed d)
       < MAX_CONSUMED_AUTHORITATIVE_ROUTES) ∧
    ∃ r, r.(res_server_route_id) = Some cloud.(cloud_route_id) ∧
      r.(res_local_route_key) = route_id_for d n ∧
      r.(res_reservation_id) = cloud.(cloud_reservation_id) ∧
      r.(res_connector_id) = conn ∧ r.(res_job_id) = job ∧
      r.(res_generation) = cloud.(cloud_generation) ∧
      r.(res_fencing_token) = cloud.(cloud_fencing_token) ∧
      d' = set_reservations (<[ρ.(coordination_key) := r]> d.(reservations)) d)).
Proof.
  unfold register_authoritative_inner. cbv zeta.
  case_decide as Hv; [done|]. case_decide as Hacc; [done|].
  destruct (from_option _ false (_ !! _)) eqn:Hgen; [done|].
  case_decide as Hcross; [done|].
  destruct (from_option _ false (max_generation _ _ _)) eqn:Hmax; [done|].
  destruct (route_with_id d _) as [[n' ρ]|] eqn:Hw; [|done].
  apply not_or_and in Hv as [Hv1 Hv]. repeat apply not_or_and in Hv as [? Hv].
  intros Hr. split_and!; [done|done|by apply dec_stable|done|lia|done| |].
  { intros c Hc. rewrite Hc in Hgen. simpl in Hgen.
    apply bool_decide_eq_false in Hgen. apply not_or_and in Hgen as [??]. split; [done|lia]. }
  exists n', ρ. split; [done|].
  destruct (d.(reservations) !! ρ.(coordination_key)) as [r|] eqn:Hex.
  - case_decide as Hj; [|done]. simplify_eq/=. left. split_and!; [done..|]. naive_solver.
  - destruct (ρ.(coordination_conflict)) eqn:Hc; [done|].
    case_decide as Hcap; [done|]. simplify_eq/=. right. split_and!; [done..| |].
    + destruct (decide (d.(consumed_authoritative_routes) !!
        authoritative_route_key conn cloud.(cloud_route_id) cloud.(cloud_local_route_key) job
        = None)) as [Hnone|Hsome]; [|left; by apply not_eq_None_Some].
      right. destruct (decide (authoritative_route_key conn cloud.(cloud_route_id)
        cloud.(cloud_local_route_key) job ∈ active_unconsumed d)); [by left|right].
      apply Nat.nle_gt. naive_solver.
    + eexists. split_and!; cycle 7; done.
Qed.

Lemma register_wf conn n job cloud now d d' reg :
  fence_wf d → known n →
  register_authoritative_inner conn n job cloud now d = Ok (d', reg) → fence_wf d'.
Proof.
  intros Hwf Hkn Hr. assert (Hns := wf_ns _ (wf_base _ Hwf)).
  apply register_inner_Ok in Hr as (_ & _ & _ & _ & _ & _ & _ & n' & ρ & Hw &
    [[-> _]|(Hfree & Hc & _ & _ & r & _ & Hl & _ & _ & _ & _ & _ & ->)]); [done|].
  unfold route_id_for in *. rewrite Hns in *.
  destruct (route_with_id_known _ _ _ (wf_base _ Hwf) Hkn Hw) as [Hn' Hn]. simpl in *. subst n'.
  apply (fence_wf_reserve d n); [done..| |].
  - intros ρ' Hρ'. by simplify_eq.
  - congruence.
Qed.

Lemma record_consumed_frame r o nj t d d' :
  record_consumed_authoritative_route r o nj t d = Ok d' →
  d'.(installation_namespace) = d.(installation_namespace) ∧
  d'.(routes) = d.(routes) ∧ d'.(reservations) = d.(reservations) ∧
  d'.(handoffs) = d.(handoffs) ∧
  d'.(acknowledged_handoff_sequences) = d.(acknowledged_handoff_sequences).
Proof.
  unfold record_consumed_authoritative_route. intros Hr.
  repeat (case_match || case_decide); by simplify_eq/=.
Qed.

Lemma finish_inner_Ok conn job rr o nj t d d' :
  finish_inner conn job rr o nj t d = Ok d' →
  ∃ r, d.(reservations) !! rr.(rr_coordination_key) = Some r ∧
    r.(res_connector_id) = conn ∧ r.(res_job_id) = job ∧
    r.(res_reservation_id) = rr.(rr_reservation_id) ∧
    r.(res_generation) = rr.(rr_generation) ∧
    r.(res_fencing_token) = rr.(rr_fencing_token) ∧
    r.(res_server_route_id) = rr.(rr_server_route_id) ∧
    let h := {| ho_sequence := u64_saturating_add d.(handoff_sequence) 1;
                ho_connector_id := conn; ho_server_route_id := rr.(rr_server_route_id);
                ho_local_route_key := rr.(rr_local_route_key); ho_job_id := job;
                ho_reservation_id := rr.(rr_reservation_id);
                ho_fencing_generation := rr.(rr_generation);
                ho_fencing_token := r.(res_fencing_token); ho_observed_at := t;
                ho_outcome := o; ho_native_job_id := nj |} in
    let d2 := set_handoffs (d.(handoffs) ++ [h])
                (set_handoff_sequence (u64_saturating_add d.(handoff_sequence) 1) d) in
    (o = Ambiguous ∧ d' = d2 ∨
     o ≠ Ambiguous ∧ ∃ d3, record_consumed_authoritative_route r o nj t d2 = Ok d3 ∧
       d' = set_reservations (delete rr.(rr_coordination_key) d3.(reservations)) d3).
Proof.
  unfold finish_inner, validate_document. intros (? & Hv & Hr)%bind_Ok.
  destruct (d.(reservations) !! rr.(rr_coordination_key)) as [r|] eqn:Hex; [|done].
  simpl in Hr. destruct (decide _) as [?|Hs] in Hv; [done|]. repeat apply not_or_and in Hs as [? Hs].
  destruct (decide _) as [?|Hcj] in Hr; [done|]. apply not_or_and in Hcj as [??].
  exists r. split_and!; try (done || by apply dec_stable).
  destruct (decide _) as [Ho|Ho] in Hr; [left; by simplify_eq|right].
  split; [done|]. apply bind_Ok in Hr as (d3 & Hd3 & [= <-]). eauto.
Qed.

Lemma finish_wf conn job rr o nj t d d' :
  fence_wf d → finish_inner conn job rr o nj t d = Ok d' → fence_wf d'.
Proof.
  intros Hwf (r & _ & _ & _ & _ & _ & _ & _ & [[_ ->]|(_ & d3 & Hd3 & ->)])%finish_inner_Ok.
  - by apply (fence_wf_frame d).
  - apply record_consumed_frame in Hd3 as (? & ? & ? & _ & _). simpl in *.
    apply (fence_wf_frame d); simpl; [done|congruence|by rewrite H1|].
    rewrite H2. apply delete_subseteq.
Qed.

Lemma acknowledge_wf conn seq d d' :
  fence_wf d → acknowledge_document conn seq d = Ok d' → fence_wf d'.
Proof.
  unfold acknowledge_document. intros Hwf Hr. case_decide; simplify_eq.
  by apply (fence_wf_frame d).
Qed.

Lemma compact_wf conn commits d : fence_wf d → fence_wf (compact_document conn commits d).
Proof. intros Hwf. by apply (fence_wf_frame d). Qed.

(** The two ways a resolution succeeds: it was applied before, or it closes the
    fence of the matching ambiguous handoff. *)
Lemma resolve_inner_Ok conn job local u g res d d' :
  resolve_ambiguous_handoff_inner conn job local u g res d = Ok d' →
  d' = d ∨
  ∃ k r h l1 l2 d2,
    d.(reservations) !! k = Some r ∧ r.(res_connector_id) = conn ∧ r.(res_job_id) = job ∧
    r.(res_local_route_key) = local ∧ r.(res_reservation_id) = u ∧ r.(res_generation) = g ∧
    d.(handoffs) = l1 ++ h :: l2 ∧ handoff_matches conn job local u g h ∧
    h.(ho_outcome) = Ambiguous ∧
    record_consumed_authoritative_route r (resolved_outcome res) h.(ho_native_job_id)
      h.(ho_observed_at)
      (set_handoffs (l1 ++ with_outcome (resolved_outcome res) h :: l2) d) = Ok d2 ∧
    let d3 := set_reservations (delete k d2.(reservations)) d2 in
    d' = (if decide (h.(ho_sequence) ≤
                      default 0 (d.(acknowledged_handoff_sequences) !! conn))%N
          then set_handoffs (filter (λ h', h'.(ho_sequence) ≠ h.(ho_sequence))
                               d3.(handoffs)) d3
          else d3).
Proof.
  unfold resolve_ambiguous_handoff_inner. cbv zeta.
  destruct (find_first _ (btree_values _)) as [c|].
  { case_decide; [|done]. intros [= ->]. by left. }
  destruct (_ ≫= _) as [h0|]; [case_decide; [|done]; intros [= ->]; by left|].
  intros ([k r] & Hkr%ok_or_Ok & Hr)%bind_Ok. simpl in Hr.
  apply bind_Ok in Hr as (h & Hh%ok_or_Ok & Hr). apply bind_Ok in Hr as (r' & Hr'%ok_or_Ok & Hr).
  apply bind_Ok in Hr as (d2 & Hd2 & [= <-]). right.
  apply find_first_Some in Hkr as [Hk%elem_of_btree_entries Hm]. simpl in *.
  assert (r' = r) as -> by congruence.
  destruct (find_last_Some _ _ _ Hh) as [_ [Hmatch Hamb]].
  destruct (alter_last_split _ _ _ (with_outcome (resolved_outcome res)) Hh)
    as (l1 & l2 & Hl & Ha & _).
  rewrite Ha in Hd2.
  assert (Hack := record_consumed_frame _ _ _ _ _ _ Hd2). simpl in Hack.
  destruct Hack as (_ & _ & _ & _ & Hack). rewrite Hack.
  exists k, r, h, l1, l2, d2. naive_solver.
Qed.

Lemma resolve_wf conn job local u g res d d' :
  fence_wf d → resolve_ambiguous_handoff_inner conn job local u g res d = Ok d' → fence_wf d'.
Proof.
  intros Hwf [->|(k & r & h & l1 & l2 & d2 & Hk & _ & _ & _ & _ & _ & _ & _ & _ & Hd2 & ->)]
    %resolve_inner_Ok; [done|].
  apply record_consumed_frame in Hd2 as (Hns & Hro & Hre & _ & _). simpl in *.
  apply (fence_wf_frame d); [done|by case_decide| |].
  - case_decide; simpl; by rewrite Hro.
  - case_decide; simpl; rewrite Hre; apply delete_subseteq.
Qed.

(** ** Discovery *)

Lemma base_wf_routes d m :
  base_wf d →
  (∀ n ρ, m !! n = Some ρ → known n ∧ ρ.(route_id) = route_id_of ns n) →
  (∀ n, is_Some (d.(routes) !! n) → is_Some (m !! n)) →
  base_wf (set_routes m d).
Proof.
  intros [Hns Hk Hid Hl Hh He] Hm Hdom. split; simpl; try done.
  - intros n ρ Hn. by apply Hm in Hn as [??].
  - intros n ρ Hn. by apply Hm in Hn as [??].
  - intros k r Hr. destruct (Hh k r Hr) as [(n & ρ & Hn & Hρ)|?]; [left|by right].
    destruct (Hdom n) as [ρ' Hn']; [eauto|]. exists n, ρ'. split; [done|].
    destruct (Hm _ _ Hn') as [_ ->]. rewrite <- Hρ. symmetry. eauto.
Qed.

Lemma base_wf_frame d d' :
  base_wf d → d'.(installation_namespace) = d.(installation_namespace) →
  d'.(routes) = d.(routes) → d'.(reservations) = d.(reservations) → base_wf d'.
Proof. intros [] Hn Hr Hs. split; rewrite ?Hn, ?Hr, ?Hs; done. Qed.

Lemma reconcile_printer_base prot avail rev t s p :
  known p.(native_id) → base_wf s.(rs_document) →
  base_wf (reconcile_printer prot avail rev t s p).(rs_document).
Proof.
  intros Hp Hwf. unfold reconcile_printer. case_decide; [done|].
  destruct (_ && _); [done|]. cbv zeta. cbn [rs_document].
  assert (Hns := wf_ns _ Hwf).
  set (ρ := {| route_id := _ |}).
  assert (Hins : base_wf (set_routes (<[native_id p := ρ]> s.(rs_document).(routes))
                            s.(rs_document))).
  { apply base_wf_routes; [done| |].
    - intros n ρ'. rewrite lookup_insert_Some. intros [[<- <-]|[_ Hn]].
      + split; [done|]. simpl. unfold route_id_for. by rewrite Hns.
      + split; [by eapply wf_known|by eapply wf_route_id].
    - intros n [ρ' Hn]. rewrite lookup_insert_is_Some'. eauto. }
  destruct (routes (rs_document s) !! native_id p) as [ρ0|];
    [destruct (_ || _)|]; (eapply base_wf_frame; [exact Hins|done..]).
Qed.

Lemma remove_route_base t nr d : base_wf d → base_wf (remove_route t d nr).
Proof.
  intros Hwf. unfold remove_route. cbv zeta.
  eapply (base_wf_frame (set_routes (alter (with_present false) nr.1 d.(routes)) d));
    [|done..].
  apply base_wf_routes; [done| |].
  - intros n ρ. rewrite lookup_alter_Some.
    intros [(<- & ρ' & Hn & ->)|[_ Hn]]; simpl;
      (split; [by eapply wf_known|by eapply wf_route_id]).
  - intros n. by rewrite lookup_alter_is_Some.
Qed.

Lemma reconcile_document_wf printers rev t d :
  base_wf d → Forall (λ p, known p.(native_id)) printers →
  fence_wf (reconcile_document printers rev t d).1.
Proof.
  intros Hwf Hp. unfold reconcile_document. cbv zeta. cbn [fst].
  apply reconcile_coordination_keys_wf, prune_base.
  apply foldl_inv; [|intros; by apply remove_route_base].
  apply (foldl_inv (λ s, base_wf s.(rs_document))); simpl.
  - by apply prune_base.
  - intros s p Hin Hs. apply reconcile_printer_base; [|done].
    rewrite Forall_forall in Hp. eauto.
Qed.
End wf.
