(* ===== verification/CoordinatorSystem.v ===== *)
(** The route coordinator as a process: its operations, crashes and restarts as
    a step relation over the running coordinator and its journal, the document
    transitions that relation refines, and the safety properties that hold in
    every reachable state. *)
From S2P Require Import Prelude Identity Coordinator CoordinatorFacts.

(** What the journal's serialization is relied on for. *)
Class JournalLaws `{JournalCodec} : Prop := {
  from_slice_to_vec_pretty : ∀ d, from_slice (to_vec_pretty d) = Some d;
  to_vec_inj :: Inj (=) (=) to_vec;
}.

(** What SHA-256 is relied on for: the native queue names a node meets, and the
    connector/route/job combinations it is offered, have distinct digests. *)
Class Deployment `{External} := {
  known : string → Prop;
  offered : string → string → string → string → Prop;
  known_inj : ∀ ns n1 n2, known n1 → known n2 → route_id_of ns n1 = route_id_of ns n2 → n1 = n2;
  offered_inj : ∀ c s l j c' s' l' j', offered c s l j → offered c' s' l' j' →
    authoritative_route_key c s l j = authoritative_route_key c' s' l' j' →
    c = c' ∧ s = s' ∧ l = l' ∧ j = j';
}.

(** * The process *)

Section system.
Context `{JL : JournalLaws} {D : Deployment}.
Implicit Types (d : CoordinatorDocument) (c : RouteCoordinator) (P : CoordinatorDocument → Prop).

(** A call of the coordinator, with the values its environment supplies. *)
Inductive operation :=
  | OpReconcile (printers : list DiscoveredPrinter) (inventory_revision : N) (t : DateTime)
  | OpAllocate (count : nat)
  | OpReserve (conn native job : string) (now : Z) (id token : Uuid)
  | OpRegister (conn native job : string) (cloud : CloudRouteReservation) (now : DateTime)
  | OpFinish (conn job : string) (r : RouteReservation) (o : NativeHandoffOutcome)
      (native_job : option string) (t : DateTime)
  | OpFinishRuntime (retry : Io) (conn job : string) (r : RouteReservation)
      (o : NativeHandoffOutcome) (native_job : option string) (t : DateTime)
  | OpAcknowledge (conn : string) (through : N)
  | OpResolve (conn job local : string) (id : Uuid) (gen : N) (res : AmbiguousHandoffResolution)
  | OpCompact (conn : string) (commits : list LocalHandoffCommit).

(** The coordinator after a call, whether it succeeded or not. *)
Definition apply (io : Io) (op : operation) (c : RouteCoordinator) : RouteCoordinator :=
  match op with
  | OpReconcile ps rev t => (reconcile io ps rev t c).1
  | OpAllocate n => (allocate_observation_sequences io n c).1
  | OpReserve conn n job now id tok => (reserve io conn n job now id tok c).1
  | OpRegister conn n job cloud now => (register_authoritative io conn n job cloud now c).1
  | OpFinish conn job r o nj t => (finish io conn job r o nj t c).1
  | OpFinishRuntime retry conn job r o nj t => (finish_runtime io retry conn job r o nj t c).1
  | OpAcknowledge conn seq => (acknowledge_handoffs io conn seq c).1
  | OpResolve conn job l id g res => (resolve_ambiguous_handoff io conn job l id g res c).1
  | OpCompact conn commits => (compact_local_terminal_handoffs io conn commits c).1
  end.

(** Calls name queues and offers of the deployment. *)
Definition op_ok (op : operation) : Prop :=
  match op with
  | OpReconcile ps _ _ => Forall (λ p, known p.(native_id)) ps
  | OpReserve _ n _ _ _ _ => known n
  | OpRegister conn n job cloud _ =>
    known n ∧ offered conn cloud.(cloud_route_id) cloud.(cloud_local_route_key) job
  | _ => True
  end.

Inductive process := Running (c : RouteCoordinator) | Stopped (journal : option bytes).

(** A process may stop between calls, which also covers a stop inside a call:
    that call then ended with one of the journal faults. *)
Inductive step : process → process → Prop :=
  | StepOp io op c : op_ok op → step (Running c) (Running (apply io op c))
  | StepStop c : step (Running c) (Stopped c.(disk))
  | StepStart io ns b b' c : open io ns b = (b', Ok c) → step (Stopped b) (Running c)
  | StepStartFails io ns b b' e : open io ns b = (b', Err e) → step (Stopped b) (Stopped b').

Definition reachable (p : process) : Prop := rtc step (Stopped None) p.

(** * The document transitions the process refines *)

Inductive doc_step : CoordinatorDocument → CoordinatorDocument → Prop :=
  | DocReconcile ps rev t d : Forall (λ p, known p.(native_id)) ps →
      doc_step d (reconcile_document ps rev t d).1
  | DocAllocate v d : (d.(observation_sequence) ≤ v)%N → doc_step d (set_observation_sequence v d)
  | DocReserve conn n job now id tok d d' rr : known n →
      reserve_inner conn n job now id tok d = Ok (d', rr) → doc_step d d'
  | DocRegister conn n job cloud now d d' reg : known n →
      offered conn cloud.(cloud_route_id) cloud.(cloud_local_route_key) job →
      register_authoritative_inner conn n job cloud now d = Ok (d', reg) → doc_step d d'
  | DocFinish conn job r o nj t d d' :
      finish_inner conn job r o nj t d = Ok d' → doc_step d d'
  | DocAcknowledge conn seq d d' : acknowledge_document conn seq d = Ok d' → doc_step d d'
  | DocResolve conn job l id g res d d' :
      resolve_ambiguous_handoff_inner conn job l id g res d = Ok d' → doc_step d d'
  | DocCompact conn commits d : doc_step d (compact_document conn commits d)
  | DocOpen d : doc_step d (prune_absent_routes (reconcile_coordination_keys d)).

Definition closed P : Prop := ∀ d d', P d → doc_step d d' → P d'.

(** The journal holds a document that satisfies [P]. *)
Definition stored P (b : option bytes) : Prop := ∃ d, b = Some (to_vec_pretty d) ∧ P d.

(** [P] holds in memory and in the journal. *)
Definition everywhere P (p : process) : Prop :=
  match p with
  | Running c => P c.(document) ∧ stored P c.(disk)
  | Stopped b => stored P b
  end.

(** ** Journal writes *)

Lemma persist_everywhere P io c :
  P c.(document) → stored P c.(disk) → everywhere P (Running (persist io c).1).
Proof. intros HP Hd. unfold persist. destruct io as [[]?]; simpl; unfold stored; eauto. Qed.

Lemma persist_document io c : (persist io c).1.(document) = c.(document).
Proof. unfold persist. by destruct (fault io). Qed.

Lemma persist_poisoned io c : (persist io c).1.(poisoned) = c.(poisoned).
Proof. unfold persist. by destruct (fault io). Qed.

Lemma persist_Ok io c c' u :
  persist io c = (c', Ok u) → c' = with_disk (Some (to_vec_pretty c.(document))) c.
Proof. unfold persist. destruct (fault io); by intros [= <-]. Qed.

Lemma commit_everywhere P io previous c :
  P previous → P c.(document) → stored P c.(disk) →
  everywhere P (Running (commit_document_change io previous c).1).
Proof.
  intros Hp HP Hd. unfold commit_document_change.
  destruct (persist_everywhere P io c HP Hd) as [HP1 (d & Hb & Hd')].
  destruct (persist io c) as [c1 [[]|e]]; simpl in *; [by split; [|exists d]|].
  rewrite Hb. destruct (readable io); simpl; [|by split; [|exists d]].
  rewrite from_slice_to_vec_pretty. destruct (documents_match _ _); by split; [|exists d].
Qed.

Lemma journalled_everywhere {A} P io body c :
  (∀ d' (a : A), body c.(document) = Ok (d', a) → P d') →
  everywhere P (Running c) → everywhere P (Running (journalled io body c).1).
Proof.
  intros Hbody [HP Hd]. unfold journalled. destruct (poisoned c); [done|].
  destruct (body (document c)) as [[d' a]|e] eqn:Hb; [|done].
  assert (Hc := commit_everywhere P io c.(document) (with_document d' c) HP (Hbody _ _ eq_refl) Hd).
  by destruct (commit_document_change _ _ _) as [c1 [[]|?]].
Qed.

Lemma no_value_Ok {E A} (m : result E A) a u : no_value m = Ok (a, u) → m = Ok a.
Proof. destruct m; by intros [= <-]. Qed.

(** ** Every call keeps a closed property in memory and in the journal *)

Lemma finish_everywhere P io conn job r o nj t c :
  closed P → everywhere P (Running c) →
  everywhere P (Running (finish io conn job r o nj t c).1).
Proof.
  intros HC HE. apply journalled_everywhere; [|done].
  intros d' [] Hb%no_value_Ok. eapply HC; [apply HE|by econstructor].
Qed.

Lemma finish_runtime_everywhere P io io' conn job r o nj t c :
  closed P → everywhere P (Running c) →
  everywhere P (Running (finish_runtime io io' conn job r o nj t c).1).
Proof.
  intros HC HE. unfold finish_runtime.
  assert (H1 := finish_everywhere P io conn job r o nj t c HC HE).
  destruct (finish io conn job r o nj t c) as [c1 [[]|e]]; simpl in H1; [done|].
  destruct (poisoned c1); [done|].
  assert (H2 := finish_everywhere P io' conn job r o nj t c1 HC H1).
  by destruct (finish io' conn job r o nj t c1) as [c2 [[]|e']].
Qed.

Lemma allocate_everywhere P io n c :
  closed P → everywhere P (Running c) →
  everywhere P (Running (allocate_observation_sequences io n c).1).
Proof.
  intros HC [HP Hd]. unfold allocate_observation_sequences. destruct (poisoned c); [done|].
  cbv zeta. case_decide; [done|].
  destruct (u64_checked_add (next_observation_sequence c) _) as [a|]; [|done].
  case_decide; [|by destruct (u64_checked_add a 1)].
  destruct (u64_checked_add (observation_sequence _) _) as [v|] eqn:Hv; [|done].
  apply u64_checked_add_Some in Hv as [-> _].
  set (c1 := with_document _ c). assert (HE : everywhere P (Running (persist io c1).1)).
  { apply persist_everywhere; [|done]. eapply HC; [exact HP|]. constructor. lia. }
  destruct (persist io c1) as [c2 [[]|e]]; [|done].
  by destruct (u64_checked_add a 1).
Qed.

Lemma apply_everywhere P io op c :
  closed P → op_ok op → everywhere P (Running c) → everywhere P (Running (apply io op c)).
Proof.
  intros HC Hok HE. assert (HE' := HE). destruct HE' as [HP Hd]. destruct op; simpl in *.
  - unfold reconcile. destruct (poisoned c); [done|].
    destruct (reconcile_document _ _ _ _) as [d' snaps] eqn:Hr.
    assert (HE' : everywhere P (Running (persist io (with_document d' c)).1)).
    { apply persist_everywhere; [|done]. simpl.
      replace d' with (reconcile_document printers inventory_revision t c.(document)).1
        by (by rewrite Hr). eapply HC; [exact HP|by constructor]. }
    by destruct (persist _ _) as [c1 [[]|e]].
  - by apply allocate_everywhere.
  - apply journalled_everywhere; [|done]. intros. eapply HC; [exact HP|by econstructor].
  - destruct Hok. apply journalled_everywhere; [|done].
    intros. eapply HC; [exact HP|by econstructor].
  - by apply finish_everywhere.
  - by apply finish_runtime_everywhere.
  - apply journalled_everywhere; [|done].
    intros d' [] Hb%no_value_Ok. eapply HC; [exact HP|by econstructor].
  - apply journalled_everywhere; [|done].
    intros d' [] Hb%no_value_Ok. eapply HC; [exact HP|by econstructor].
  - unfold compact_local_terminal_handoffs. destruct (poisoned c); [done|].
    case_decide; [done|]. cbv zeta.
    assert (HPc : P (compact_document conn commits c.(document)))
      by (eapply HC; [exact HP|constructor]).
    case_decide; [done|].
    assert (HE' := commit_everywhere P io c.(document)
              (with_document (compact_document conn commits c.(document)) c) HP HPc Hd).
    by destruct (commit_document_change _ _ _) as [c1 [[]|?]].
Qed.

(** ** Starting *)

(** What a start that passes its checks leaves, on the document it read. *)
Lemma open_document_Ok ns b d next reserved :
  open_document ns b = Ok (d, next, reserved) →
  ∃ d0, match b with Some b => from_slice b = Some d0 | None => d0 = empty_document ns end ∧
    d = prune_absent_routes (reconcile_coordination_keys d0) ∧
    next = (d0.(observation_sequence) + 1)%N ∧ reserved = d0.(observation_sequence) ∧
    length d0.(handoffs) ≤ MAX_HANDOFFS ∧ size d.(routes) ≤ MAX_ROUTES.
Proof.
  unfold open_document. intros (d0 & Hd0 & Hr)%bind_Ok. exists d0.
  split; [by destruct b as [b|]; [apply ok_or_Ok in Hd0|injection Hd0]|].
  case_decide; [done|]. case_decide as Hb; [done|]. case_decide; [done|].
  apply bind_Ok in Hr as (nx & Hnx%ok_or_Ok & Hr). apply u64_checked_add_Some in Hnx as [-> _].
  cbv zeta in Hr. case_decide; [done|]. injection Hr as <- <- <-.
  split_and!; [done..|lia|lia].
Qed.

Lemma open_everywhere P io ns b :
  closed P → stored P b →
  everywhere P (match open io ns b with (_, Ok c) => Running c | (b', Err _) => Stopped b' end).
Proof.
  intros HC (d & -> & HP). unfold open.
  destruct (open_document _ _) as [[[d1 next] reserved]|e] eqn:Ho; [|by exists d].
  apply open_document_Ok in Ho as (d0 & Hd0 & -> & _).
  rewrite from_slice_to_vec_pretty in Hd0. injection Hd0 as <-.
  set (c0 := {| document := _ |}).
  assert (HE : everywhere P (Running (persist io c0).1)).
  { apply persist_everywhere; [|by exists d]. eapply HC; [exact HP|constructor]. }
  by destruct (persist io c0) as [c1 [[]|e]]; simpl; [|destruct HE].
Qed.

(** A first start leaves nothing, or a journal with the initial document. *)
Lemma open_fresh P io ns :
  closed P → P (empty_document ns) →
  let p := match open io ns None with (_, Ok c) => Running c | (b', Err _) => Stopped b' end in
  p = Stopped None ∨ everywhere P p.
Proof.
  intros HC HP. unfold open.
  destruct (open_document _ _) as [[[d1 next] reserved]|e] eqn:Ho; [|by left].
  apply open_document_Ok in Ho as (d0 & -> & -> & _).
  assert (HP' : P (prune_absent_routes (reconcile_coordination_keys (empty_document ns))))
    by (eapply HC; [exact HP|constructor]).
  unfold persist. destruct (fault io); simpl; [right|by left|right]; unfold stored; eauto.
Qed.

Lemma step_everywhere P p p' : closed P → everywhere P p → step p p' → everywhere P p'.
Proof.
  intros HC HE Hs. destruct Hs as [io op c Hok|c|io ns b b' c Ho|io ns b b' e Ho].
  - by apply apply_everywhere.
  - by destruct HE.
  - assert (H1 := open_everywhere P io ns b HC HE). by rewrite Ho in H1.
  - assert (H1 := open_everywhere P io ns b HC HE). by rewrite Ho in H1.
Qed.

Lemma steps_everywhere P p p' : closed P → everywhere P p → rtc step p p' → everywhere P p'.
Proof. intros HC HE Hs. induction Hs; [done|]. eauto using step_everywhere. Qed.

(** A property closed under the document transitions that holds of a fresh
    document holds in memory and in the journal of every reachable process. *)
Lemma reachable_everywhere P p :
  closed P → (∀ ns, P (empty_document ns)) → reachable p → p = Stopped None ∨ everywhere P p.
Proof.
  intros HC Hnew Hr. unfold reachable in Hr.
  apply (rtc_ind_r (R := step) (λ p, p = Stopped None ∨ everywhere P p) (Stopped None)); [by left| |done].
  clear p Hr. intros p p' _ Hs [->|HE]; [|right; by eapply step_everywhere].
  inversion Hs as [| |io ns b b' c Ho|io ns b b' e Ho]; subst;
    assert (H1 := open_fresh P io ns HC (Hnew ns)); rewrite Ho in H1; exact H1.
Qed.

Lemma reachable_running P c :
  closed P → (∀ ns, P (empty_document ns)) → reachable (Running c) → P c.(document).
Proof. intros HC Hnew Hr. by destruct (reachable_everywhere P (Running c) HC Hnew Hr) as [|[? _]]. Qed.

(** ** What a successful call leaves *)

Lemma commit_Ok io previous c c' u :
  commit_document_change io previous c = (c', Ok u) →
  c' = with_disk (Some (to_vec_pretty c.(document))) c.
Proof.
  unfold commit_document_change. destruct (persist io c) as [c1 [[]|e]] eqn:Hp; intros [= <-].
  by eapply persist_Ok.
Qed.

(** A failed commit that leaves the coordinator operational has proved that the
    journal still holds the previous document. *)
Lemma commit_Err io previous c c' e :
  c.(poisoned) = false → commit_document_change io previous c = (c', Err e) →
  c'.(poisoned) = false →
  c'.(document) = previous ∧
  ∃ b, c'.(disk) = Some b ∧ from_slice b = Some previous.
Proof.
  intros Hc. unfold commit_document_change. destruct (persist io c) as [c1 [[]|e1]] eqn:Hp; [done|].
  destruct (readable io); [|by intros [= <- _]].
  destruct (disk c1) as [b|] eqn:Hb; simpl; [|by intros [= <- _]].
  destruct (from_slice b) as [d|] eqn:Hd; [|by intros [= <- _]].
  unfold documents_match. case_bool_decide as Hm; [|by intros [= <- _]].
  apply to_vec_inj in Hm as ->. intros [= <- _] _. simpl. eauto.
Qed.

Lemma journalled_Ok {A} io body c c' (a : A) :
  journalled io body c = (c', Ok a) →
  c.(poisoned) = false ∧ ∃ d, body c.(document) = Ok (d, a) ∧
    c' = with_disk (Some (to_vec_pretty d)) (with_document d c).
Proof.
  unfold journalled. destruct (poisoned c); [done|].
  destruct (body _) as [[d' a']|e]; [|done].
  destruct (commit_document_change _ _ _) as [c1 [[]|e]] eqn:Hc; intros [= <- <-].
  apply commit_Ok in Hc. split; [done|]. by exists d'.
Qed.

Lemma journalled_Err {A} io (body : _ → result _ (_ * A)) c c' e :
  journalled io body c = (c', Err e) → c'.(poisoned) = false →
  c.(poisoned) = false ∧ c'.(document) = c.(document).
Proof.
  unfold journalled. destruct (poisoned c) eqn:Hp; [by intros [= <- _]; rewrite Hp|].
  destruct (body _) as [[d' a']|e']; [|by intros [= <- _]].
  destruct (commit_document_change _ _ _) as [c1 [[]|e']] eqn:Hc; [done|].
  intros [= <- _] Hp1. split; [done|]. apply commit_Err in Hc as [? _]; done.
Qed.

Lemma finish_Ok io conn job r o nj t c c' u :
  finish io conn job r o nj t c = (c', Ok u) →
  ∃ d, finish_inner conn job r o nj t c.(document) = Ok d ∧
    c'.(document) = d ∧ c'.(disk) = Some (to_vec_pretty d).
Proof.
  intros (_ & d & Hd%no_value_Ok & ->)%journalled_Ok. by exists d.
Qed.

(** Whichever of its two attempts succeeded, [finish_runtime] recorded the
    evidence exactly once. *)
Lemma finish_runtime_Ok io io' conn job r o nj t c c' u :
  finish_runtime io io' conn job r o nj t c = (c', Ok u) →
  ∃ d, finish_inner conn job r o nj t c.(document) = Ok d ∧
    c'.(document) = d ∧ c'.(disk) = Some (to_vec_pretty d).
Proof.
  unfold finish_runtime. destruct (finish io _ _ _ _ _ _ c) as [c1 [[]|e]] eqn:Hf.
  - intros [= <- _]. by eapply finish_Ok.
  - destruct (poisoned c1) eqn:Hp; [done|].
    destruct (journalled_Err _ _ _ _ _ Hf Hp) as [_ Hd].
    destruct (finish io' _ _ _ _ _ _ c1) as [c2 [[]|e']] eqn:Hf'; intros [= <- _].
    rewrite <- Hd. by eapply finish_Ok.
Qed.
End system.
