(* ===== verification/CoordinatorSafety.v ===== *)
(** Safety of the route coordinator in every reachable state: exclusive routes,
    replay barriers, durable fences and observation sequences that are never
    reused, across failed journal writes, crashes and restarts. *)
From S2P Require Import Prelude Identity Coordinator CoordinatorFacts CoordinatorSystem.

(** * The fence view of a document *)

(** Everything but the discovered topology and the observation counter. *)
Record same_fences `{External} (d d' : CoordinatorDocument) : Prop := {
  sf_namespace : d'.(installation_namespace) = d.(installation_namespace);
  sf_reservations : d'.(reservations) = d.(reservations);
  sf_handoffs : d'.(handoffs) = d.(handoffs);
  sf_consumed : d'.(consumed_authoritative_routes) = d.(consumed_authoritative_routes);
  sf_acknowledged : d'.(acknowledged_handoff_sequences) = d.(acknowledged_handoff_sequences);
  sf_handoff_sequence : d'.(handoff_sequence) = d.(handoff_sequence);
}.

Section fences.
Context `{External}.
Implicit Types (d : CoordinatorDocument).

#[export] Instance same_fences_equiv : Equivalence same_fences.
Proof.
  split.
  - by split.
  - intros ?? []. by split.
  - intros ??? [] []. split; congruence.
Qed.

Lemma reconcile_printer_fences prot avail rev t s p :
  same_fences s.(rs_document) (reconcile_printer prot avail rev t s p).(rs_document).
Proof.
  unfold reconcile_printer. case_decide; [done|]. destruct (_ && _); [done|].
  cbv zeta. cbn [rs_document]. by destruct (_ !! _); [destruct (_ || _)|].
Qed.

Lemma reconcile_fences ps rev t d : same_fences d (reconcile_document ps rev t d).1.
Proof.
  unfold reconcile_document. cbv zeta. cbn [fst].
  transitivity (prune_absent_routes d); [done|].
  match goal with |- same_fences _ (reconcile_coordination_keys (prune_absent_routes ?d1)) =>
    transitivity d1; [|done] end.
  apply foldl_inv; [|intros d1 nr _ Hs; etrans; [exact Hs|done]].
  apply (foldl_inv (λ s, same_fences (prune_absent_routes d) s.(rs_document))); [done|].
  intros s p _ Hs. etrans; [exact Hs|apply reconcile_printer_fences].
Qed.

Lemma open_fences d : same_fences d (prune_absent_routes (reconcile_coordination_keys d)).
Proof. done. Qed.

(** What consuming a reservation adds to the replay barriers. *)
Lemma record_consumed_Ok r o nj t d d' :
  record_consumed_authoritative_route r o nj t d = Ok d' →
  match reservation_key r with
  | None => d' = d
  | Some key =>
    (∃ old, d.(consumed_authoritative_routes) !! key = Some old ∧
            (r.(res_generation) ≤ old.(con_generation))%N ∧ d' = d) ∨
    (∃ new, new.(con_outcome) = o ∧ new.(con_generation) = r.(res_generation) ∧
       new.(con_connector_id) = r.(res_connector_id) ∧ new.(con_job_id) = r.(res_job_id) ∧
       new.(con_local_route_key) = r.(res_local_route_key) ∧
       Some new.(con_server_route_id) = r.(res_server_route_id) ∧
       new.(con_fencing_token) = r.(res_fencing_token) ∧
       d' = set_consumed (<[key := new]> d.(consumed_authoritative_routes)) d ∧
       (is_Some (d.(consumed_authoritative_routes) !! key) ∨
        size d.(consumed_authoritative_routes) < MAX_CONSUMED_AUTHORITATIVE_ROUTES))
  end.
Proof.
  unfold record_consumed_authoritative_route, reservation_key.
  destruct (res_server_route_id r) as [s|]; simpl; [|by intros [= <-]].
  cbv zeta. case_decide as Hfull; [done|].
  destruct (_ !! _) as [old|] eqn:Hold.
  - case_decide; intros [= <-]; [left; eauto|right].
    eexists. split_and!; cycle 7; [done|by left|done..].
  - intros [= <-]. right. eexists. split_and!; cycle 7; [done| |done..].
    right. apply Nat.nle_gt. naive_solver.
Qed.
End fences.

(** * Invariants of the documents *)

Section safety.
Context `{JL : JournalLaws} {D : Deployment}.
Implicit Types (d : CoordinatorDocument) (c : RouteCoordinator) (r : DurableReservation)
  (b : ConsumedAuthoritativeRoute).

Definition fenced d : Prop := ∃ ns, fence_wf ns known d.

Lemma fenced_empty ns : fenced (empty_document ns).
Proof. exists ns. split; [split|..]; simpl; try done; intros; by simplify_map_eq. Qed.

Lemma fenced_closed : closed fenced.
Proof.
  intros d d' [ns Hwf] Hs. assert (Hinj := known_inj ns). exists ns. destruct Hs.
  - apply reconcile_document_wf; [done| |done]. apply Hwf.
  - apply (fence_wf_frame _ _ d); [done|done|apply same_domains_refl|done].
  - by eapply reserve_wf.
  - by eapply register_wf.
  - by eapply finish_wf.
  - by eapply acknowledge_wf.
  - by eapply resolve_wf.
  - by apply compact_wf.
  - apply prune_fence, reconcile_coordination_keys_wf; [done|]. apply Hwf.
Qed.

(** No active reservation is behind the barrier of its own route and job. *)
Record barred d : Prop := {
  bar_fenced : fenced d;
  bar_key : ∀ k b, d.(consumed_authoritative_routes) !! k = Some b →
    k = authoritative_route_key b.(con_connector_id) b.(con_server_route_id)
          b.(con_local_route_key) b.(con_job_id);
  bar_offered : ∀ k r s, d.(reservations) !! k = Some r → r.(res_server_route_id) = Some s →
    offered r.(res_connector_id) s r.(res_local_route_key) r.(res_job_id);
  bar_fresh : ∀ k r key b, d.(reservations) !! k = Some r → reservation_key r = Some key →
    d.(consumed_authoritative_routes) !! key = Some b →
    b.(con_outcome) ≠ Accepted ∧ (b.(con_generation) < r.(res_generation))%N;
}.

Lemma barred_empty ns : barred (empty_document ns).
Proof. split; [apply fenced_empty|..]; simpl; intros; by simplify_map_eq. Qed.

Lemma barred_frame d d' :
  barred d → fenced d' →
  d'.(consumed_authoritative_routes) = d.(consumed_authoritative_routes) →
  d'.(reservations) ⊆ d.(reservations) → barred d'.
Proof.
  intros [_ Hk Ho Hf] Hwf Hc Hs. split; [done|..]; rewrite ?Hc; [done|..];
    intros k r ? **; [eapply Ho|eapply Hf]; eauto using lookup_weaken.
Qed.

(** An active reservation is the only one that can consume its key. *)
Lemma barred_key_unique d k1 r1 k2 r2 key :
  barred d → d.(reservations) !! k1 = Some r1 → d.(reservations) !! k2 = Some r2 →
  reservation_key r1 = Some key → reservation_key r2 = Some key → k1 = k2.
Proof.
  intros [[ns Hwf] _ Ho _] H1 H2. unfold reservation_key.
  destruct (res_server_route_id r1) as [s1|] eqn:Hs1; [|done].
  destruct (res_server_route_id r2) as [s2|] eqn:Hs2; [|done].
  simpl. intros [= Hk1] [= Hk2]. rewrite <- Hk2 in Hk1.
  apply offered_inj in Hk1 as (_ & _ & Hl & _); [|by eapply Ho..].
  eapply wf_exclusive; [apply Hwf|done..].
Qed.

(** Closing the reservation at [k] with its evidence keeps the barriers. *)
Lemma barred_consume d k r o nj t d1 d2 d' :
  barred d → d.(reservations) !! k = Some r →
  d1.(consumed_authoritative_routes) = d.(consumed_authoritative_routes) →
  record_consumed_authoritative_route r o nj t d1 = Ok d2 →
  fenced d' → d'.(reservations) = delete k d.(reservations) →
  d'.(consumed_authoritative_routes) = d2.(consumed_authoritative_routes) → barred d'.
Proof.
  intros Hb Hr Hc1 Hd2%record_consumed_Ok Hf' Hr' Hc'.
  destruct (reservation_key r) as [key|] eqn:Hkey; cycle 1.
  { subst d2. apply (barred_frame d); [done..|congruence|]. rewrite Hr'. apply delete_subseteq. }
  destruct Hd2 as [(old & Hold & Hle & ->)|(new & Ho & Hg & Hcn & Hj & Hl & Hs & _ & -> & _)].
  { rewrite Hc1 in Hold. destruct (bar_fresh _ Hb _ _ _ _ Hr Hkey Hold). lia. }
  simpl in Hc'. rewrite Hc1 in Hc'. split; [done|..]; rewrite ?Hc', ?Hr'.
  - intros k' b. rewrite lookup_insert_Some. intros [[<- <-]|[_ Hb']]; [|by eapply bar_key].
    unfold reservation_key in Hkey. rewrite <- Hs in Hkey. simpl in Hkey. congruence.
  - intros k' r' s [_ Hk']%lookup_delete_Some. by eapply bar_offered.
  - intros k' r' key' b [Hne Hk']%lookup_delete_Some Hkey'.
    rewrite lookup_insert_Some. intros [[<- _]|[_ Hb']]; [|by eapply bar_fresh].
    destruct Hne. by eapply barred_key_unique.
Qed.

(** A reservation that is new at its key keeps the barriers when it is not
    behind one itself. *)
Lemma barred_insert d d' k r :
  barred d → fenced d' →
  d'.(consumed_authoritative_routes) = d.(consumed_authoritative_routes) →
  d'.(reservations) = <[k := r]> d.(reservations) →
  (∀ s, r.(res_server_route_id) = Some s →
    offered r.(res_connector_id) s r.(res_local_route_key) r.(res_job_id)) →
  (∀ key b, reservation_key r = Some key → d.(consumed_authoritative_routes) !! key = Some b →
    b.(con_outcome) ≠ Accepted ∧ (b.(con_generation) < r.(res_generation))%N) →
  barred d'.
Proof.
  intros [_ Hk Ho Hf] Hwf Hc Hr Hoff Hfresh. split; [done|..]; rewrite ?Hc, ?Hr; [done|..].
  - intros k' r' s. rewrite lookup_insert_Some. naive_solver.
  - intros k' r' key b. rewrite lookup_insert_Some. naive_solver.
Qed.

Lemma barred_register conn n job cloud now d d' reg :
  barred d → fenced d' → offered conn cloud.(cloud_route_id) cloud.(cloud_local_route_key) job →
  register_authoritative_inner conn n job cloud now d = Ok (d', reg) → barred d'.
Proof.
  intros Hb Hwf Hoff Hr. apply register_inner_Ok in Hr as (_ & _ & Hl & _ & _ & _ & Hfresh &
    n' & ρ & _ & [[-> _]|(_ & _ & _ & _ & r & Hs & Hrl & _ & Hrc & Hrj & Hrg & _ & ->)]); [done|].
  eapply (barred_insert d); [done..| |]; simpl.
  - intros s. rewrite Hs, Hrc, Hrj, Hrl, <- Hl. by intros [= <-].
  - unfold reservation_key. rewrite Hs, Hrc, Hrj, Hrl, Hrg. simpl.
    intros key b [= <-]. rewrite <- Hl. apply Hfresh.
Qed.

Lemma barred_finish conn job rr o nj t d d' :
  barred d → fenced d' → finish_inner conn job rr o nj t d = Ok d' → barred d'.
Proof.
  intros Hb Hwf (r & Hr & _ & _ & _ & _ & _ & _ & [[_ ->]|(_ & d3 & Hd3 & ->)])%finish_inner_Ok.
  - by apply (barred_frame d).
  - assert (Hf := record_consumed_frame _ _ _ _ _ _ Hd3). simpl in Hf.
    destruct Hf as (_ & _ & Hre & _). eapply (barred_consume d); [exact Hb|exact Hr| |exact Hd3|done|..];
      [done|simpl; congruence|done].
Qed.

Lemma barred_resolve conn job l id g res d d' :
  barred d → fenced d' →
  resolve_ambiguous_handoff_inner conn job l id g res d = Ok d' → barred d'.
Proof.
  intros Hb Hwf [->|(k & r & h & l1 & l2 & d2 & Hk & _ & _ & _ & _ & _ & _ & _ & _ & Hd2 & ->)]
    %resolve_inner_Ok; [done|].
  assert (Hf := record_consumed_frame _ _ _ _ _ _ Hd2). simpl in Hf.
  destruct Hf as (_ & _ & Hre & _).
  eapply barred_consume; [exact Hb|exact Hk| |exact Hd2|done| |]; [done|..];
    case_decide; simpl; congruence.
Qed.

Lemma barred_closed : closed barred.
Proof.
  intros d d' Hb Hs. assert (Hwf : fenced d')
    by (eapply fenced_closed; [apply bar_fenced|]; eassumption).
  destruct Hs as [ps rev t d| | conn n job now id tok d d' rr Hn Hr| | | | | |].
  - destruct (reconcile_fences ps rev t d) as [_ Hre _ Hc _ _].
    apply (barred_frame d); [done..|]. by rewrite Hre.
  - by apply (barred_frame d).
  - apply reserve_inner_Ok in Hr as [_ [[-> _]|(_ & _ & _ & r & m & _ & Hs & _ & _ & _ & _ & -> & _)]];
      [done|].
    eapply (barred_insert d); [done..| |]; unfold reservation_key; by rewrite Hs.
  - by eapply barred_register.
  - by eapply barred_finish.
  - unfold acknowledge_document in *. case_decide; simplify_eq. by apply (barred_frame d).
  - by eapply barred_resolve.
  - by apply (barred_frame d).
  - by apply (barred_frame d).
Qed.

(** ** Permanent facts of the replay barriers *)

(** What consuming an active reservation does to the barriers: nothing, or a
    newer generation at its own key, which was not accepted before. *)
Lemma consumed_step d k r o nj t d1 d2 :
  barred d → d.(reservations) !! k = Some r →
  d1.(consumed_authoritative_routes) = d.(consumed_authoritative_routes) →
  record_consumed_authoritative_route r o nj t d1 = Ok d2 →
  d2.(consumed_authoritative_routes) = d.(consumed_authoritative_routes) ∨
  ∃ key b, d2.(consumed_authoritative_routes)
             = <[key := b]> d.(consumed_authoritative_routes) ∧
    ∀ old, d.(consumed_authoritative_routes) !! key = Some old →
      old.(con_outcome) ≠ Accepted ∧ (old.(con_generation) < b.(con_generation))%N.
Proof.
  intros Hb Hr Hc1 Hd2%record_consumed_Ok.
  destruct (reservation_key r) as [key|] eqn:Hkey; [|left; congruence].
  destruct Hd2 as [(old & _ & _ & ->)|(new & _ & Hg & _ & _ & _ & _ & _ & -> & _)];
    [left; congruence|right]. exists key, new. simpl. rewrite Hc1, Hg. split; [done|].
  intros old Hold. by eapply bar_fresh.
Qed.

(** A fact of the barriers that newer generations keep is permanent. *)
Lemma barrier_closed (Q : gmap string ConsumedAuthoritativeRoute → Prop) :
  (∀ m key b, Q m →
    (∀ old, m !! key = Some old →
      old.(con_outcome) ≠ Accepted ∧ (old.(con_generation) < b.(con_generation))%N) →
    Q (<[key := b]> m)) →
  closed (λ d, barred d ∧ Q d.(consumed_authoritative_routes)).
Proof.
  intros HQ d d' [Hb Ha] Hs. split; [by eapply barred_closed|].
  assert (Hconsume : ∀ k r o nj t d1 d2, d.(reservations) !! k = Some r →
    d1.(consumed_authoritative_routes) = d.(consumed_authoritative_routes) →
    record_consumed_authoritative_route r o nj t d1 = Ok d2 →
    Q d2.(consumed_authoritative_routes)).
  { intros k r o nj t d1 d2 Hr Hc1 Hd2.
    destruct (consumed_step _ _ _ _ _ _ _ _ Hb Hr Hc1 Hd2) as [->|(key & b & -> & Hnew)]; eauto. }
  destruct Hs as [ps rev t d| | conn' n job' now id tok d d' rr Hn Hr
    |conn' n job' cloud now d d' reg _ _ Hr|conn' job' rr o nj t d d' Hf|conn' seq d d' Hr
    |conn' job' l id g res d d' Hr| |]; try done.
  - by rewrite (sf_consumed _ _ (reconcile_fences ps rev t d)).
  - by apply reserve_inner_Ok in Hr as [_ [[-> _]|(_ & _ & _ & r & m & _ & _ & _ & _ & _ & _ & -> & _)]].
  - by apply register_inner_Ok in Hr as (_ & _ & _ & _ & _ & _ & _ & n' & ρ & _ &
      [[-> _]|(_ & _ & _ & _ & r & _ & _ & _ & _ & _ & _ & _ & ->)]).
  - apply finish_inner_Ok in Hf as (r & Hr & _ & _ & _ & _ & _ & _ & [[_ ->]|(_ & d3 & Hd3 & ->)]);
      [done|]. by eapply Hconsume in Hd3; [| |done].
  - unfold acknowledge_document in *. by case_decide; simplify_eq.
  - apply resolve_inner_Ok in Hr as [->|(k & r & h & l1 & l2 & d2 & Hk & _ & _ & _ & _ & _ & _ &
      _ & _ & Hd2 & ->)]; [done|].
    eapply Hconsume in Hd2; [|done|done]. by case_decide.
Qed.

(** The connector's job has crossed native handoff. *)
Definition accepted_by (conn job : string) (m : gmap string ConsumedAuthoritativeRoute) : Prop :=
  map_Exists (λ _ b, b.(con_connector_id) = conn ∧ b.(con_job_id) = job ∧
                     b.(con_outcome) = Accepted) m.

(** The generation at this barrier is used up. *)
Definition spent (key : string) (gen : N) (m : gmap string ConsumedAuthoritativeRoute) : Prop :=
  ∃ b, m !! key = Some b ∧ (gen ≤ b.(con_generation))%N.

Lemma accepted_closed conn job :
  closed (λ d, barred d ∧ accepted_by conn job d.(consumed_authoritative_routes)).
Proof.
  apply barrier_closed. intros m key b (key' & b' & Hm & Hb') Hnew. exists key', b'.
  split; [|done]. rewrite lookup_insert_Some. right. split; [|done]. intros ->.
  destruct (Hnew _ Hm). naive_solver.
Qed.

Lemma spent_closed key gen :
  closed (λ d, barred d ∧ spent key gen d.(consumed_authoritative_routes)).
Proof.
  apply barrier_closed. intros m key' b (b' & Hm & Hg) Hnew.
  destruct (decide (key' = key)) as [->|Hne].
  - exists b. rewrite lookup_insert_eq. split; [done|]. destruct (Hnew _ Hm). lia.
  - exists b'. by rewrite lookup_insert_ne.
Qed.

(** Evidence recorded for an authoritative reservation bars its generation. *)
Lemma finish_spends conn job rr s o nj t d d' :
  barred d → rr.(rr_server_route_id) = Some s → o ≠ Ambiguous →
  finish_inner conn job rr o nj t d = Ok d' →
  ∃ key b r, d'.(consumed_authoritative_routes) !! key = Some b ∧
    d.(reservations) !! rr.(rr_coordination_key) = Some r ∧
    key = authoritative_route_key conn s r.(res_local_route_key) job ∧
    b.(con_generation) = rr.(rr_generation) ∧ b.(con_outcome) = o ∧
    b.(con_connector_id) = conn ∧ b.(con_job_id) = job.
Proof.
  intros Hb Hs Ho (r & Hr & <- & <- & _ & Hg & _ & Hrs & [[? _]|(_ & d3 & Hd3 & ->)])%finish_inner_Ok;
    [done|].
  assert (Hkey : reservation_key r = Some (authoritative_route_key r.(res_connector_id) s
    r.(res_local_route_key) r.(res_job_id))).
  { unfold reservation_key. by rewrite Hrs, Hs. }
  apply record_consumed_Ok in Hd3. rewrite Hkey in Hd3. simpl in Hd3.
  destruct Hd3 as [(old & Hold & Hle & _)|(new & Hno & Hng & Hnc & Hnj & _ & _ & _ & -> & _)].
  - destruct (bar_fresh _ Hb _ _ _ _ Hr Hkey Hold). lia.
  - eexists _, new, r. simpl. rewrite lookup_insert_eq. split_and!; (done || congruence).
Qed.

End safety.

(** * The journal and the fences in memory *)

Section durability.
Context `{JL : JournalLaws} {D : Deployment}.
Implicit Types (d : CoordinatorDocument) (c : RouteCoordinator) (r : DurableReservation).

(** An operational coordinator's journal holds its fences. *)
Definition agrees c : Prop :=
  c.(poisoned) = false →
  ∃ bs d, c.(disk) = Some bs ∧ from_slice bs = Some d ∧ same_fences d c.(document).

Lemma persisted_agrees d c : agrees (with_disk (Some (to_vec_pretty d)) (with_document d c)).
Proof. intros _. exists (to_vec_pretty d), d. by rewrite from_slice_to_vec_pretty. Qed.

Lemma commit_agrees io previous c :
  c.(poisoned) = false → agrees (commit_document_change io previous c).1.
Proof.
  intros Hp. destruct (commit_document_change io previous c) as [c' [u|e]] eqn:Hc.
  - apply commit_Ok in Hc as ->. destruct c. apply persisted_agrees.
  - intros Hp'. destruct (commit_Err _ _ _ _ _ Hp Hc Hp') as (Hd & bs & Hb & Hfs).
    exists bs, previous. simpl. by rewrite Hd.
Qed.

Lemma journalled_agrees {A} io (body : _ → result _ (_ * A)) c :
  agrees c → agrees (journalled io body c).1.
Proof.
  intros Ha. unfold journalled. destruct (poisoned c) eqn:Hp; [done|].
  destruct (body _) as [[d a]|e]; [|done].
  assert (Hc := commit_agrees io c.(document) (with_document d c) Hp).
  by destruct (commit_document_change _ _ _) as [c1 [[]|?]].
Qed.

Lemma persist_agrees io c d :
  agrees c → same_fences c.(document) d → agrees (persist io (with_document d c)).1.
Proof.
  intros Ha Hs. unfold persist. destruct (fault io); simpl; [apply persisted_agrees| |apply persisted_agrees].
  intros Hp. destruct (Ha Hp) as (bs & d0 & Hb & Hfs & Hd0). exists bs, d0.
  split_and!; [done..|]. by etrans.
Qed.

Lemma finish_runtime_agrees io io' conn job rr o nj t c :
  agrees c → agrees (finish_runtime io io' conn job rr o nj t c).1.
Proof.
  intros Ha. unfold finish_runtime, finish.
  assert (H1 := journalled_agrees io (λ d, no_value (finish_inner conn job rr o nj t d)) c Ha).
  destruct (journalled io _ c) as [c1 [[]|e]]; [done|]. simpl in H1.
  destruct (poisoned c1); [done|].
  assert (H2 := journalled_agrees io' (λ d, no_value (finish_inner conn job rr o nj t d)) c1 H1).
  by destruct (journalled io' _ c1) as [c2 [[]|e']].
Qed.

Lemma allocate_agrees io n c : agrees c → agrees (allocate_observation_sequences io n c).1.
Proof.
  intros Ha. unfold allocate_observation_sequences. destruct (poisoned c); [done|]. cbv zeta.
  case_decide; [done|]. destruct (u64_checked_add (next_observation_sequence c) _) as [a|]; [|done].
  case_decide; [|by destruct (u64_checked_add a 1)].
  destruct (u64_checked_add (observation_sequence _) _) as [v|]; [|done].
  assert (Hag : agrees (persist io (with_document (set_observation_sequence v c.(document)) c)).1)
    by (by apply persist_agrees).
  destruct (persist _ _) as [c2 [[]|e]]; [|done]. by destruct (u64_checked_add a 1).
Qed.

Lemma apply_agrees io op c : agrees c → agrees (apply io op c).
Proof.
  intros Ha. destruct op; simpl; try by apply journalled_agrees.
  - unfold reconcile. destruct (poisoned c); [done|].
    assert (Hf := reconcile_fences printers inventory_revision t c.(document)).
    destruct (reconcile_document _ _ _ _) as [d' snaps].
    assert (Hag := persist_agrees io c d' Ha Hf). by destruct (persist _ _) as [c1 [[]|e]].
  - by apply allocate_agrees.
  - by apply finish_runtime_agrees.
  - unfold compact_local_terminal_handoffs. destruct (poisoned c) eqn:Hp; [done|].
    case_decide; [done|]. cbv zeta. case_decide as Hrem.
    + intros _. destruct (Ha Hp) as (bs & d & Hb & Hfs & [Hn Hr Hh Hc Hk Hq]). exists bs, d.
      split_and!; [done..|]. split; simpl; try done. rewrite <- Hh.
      apply filter_same_length. simpl in Hrem. lia.
    + assert (Hag := commit_agrees io c.(document)
        (with_document (compact_document conn commits c.(document)) c) Hp).
      by destruct (commit_document_change _ _ _) as [c1 [[]|?]].
Qed.

Lemma open_Ok io ns b b' c :
  open io ns b = (b', Ok c) →
  open_document ns b = Ok (c.(document), c.(next_observation_sequence),
                           c.(reserved_observation_sequence)) ∧
  c.(poisoned) = false ∧ c.(disk) = Some (to_vec_pretty c.(document)) ∧ b' = c.(disk).
Proof.
  unfold open. destruct (open_document ns b) as [[[d nx] rs]|e]; [|done].
  unfold persist. destruct (fault io); simpl; intros [= <- Hc]; try done. by subst c.
Qed.

Lemma reachable_agrees c : reachable (Running c) → agrees c.
Proof.
  intros Hr. unfold reachable in Hr.
  apply (rtc_ind_r (R := step) (λ p, ∀ c, p = Running c → agrees c) (Stopped None))
    with (z := Running c); [done| |done|done].
  clear c Hr. intros p p' _ Hs IH c ->. inversion Hs; subst; [by eauto using apply_agrees|].
  intros _. destruct (open_Ok _ _ _ _ _ ltac:(eassumption)) as (_ & _ & Hd & _).
  rewrite Hd. eexists _, _. by rewrite from_slice_to_vec_pretty.
Qed.

(** * Observation sequences *)

Lemma sequence_range_spec a z v : v ∈ sequence_range a z ↔ (a ≤ v ≤ z)%N.
Proof.
  unfold sequence_range. rewrite list_elem_of_fmap. split.
  - intros (k & -> & Hk%elem_of_seq). lia.
  - intros [Ha Hz]. exists (N.to_nat (v - a)). rewrite elem_of_seq. lia.
Qed.

Lemma observation_closed v : closed (λ d, (v ≤ d.(observation_sequence))%N).
Proof.
  assert (Hprinter : ∀ prot avail rev t s p,
    (reconcile_printer prot avail rev t s p).(rs_document).(observation_sequence)
    = s.(rs_document).(observation_sequence)).
  { intros. unfold reconcile_printer. case_decide; [done|]. destruct (_ && _); [done|].
    cbv zeta. cbn [rs_document]. by destruct (_ !! _); [destruct (_ || _)|]. }
  assert (Hconsumed : ∀ r o nj t d d', record_consumed_authoritative_route r o nj t d = Ok d' →
    d'.(observation_sequence) = d.(observation_sequence)).
  { intros r o nj t d d' Hr. apply record_consumed_Ok in Hr.
    destruct (reservation_key r); [|by subst].
    by destruct Hr as [(? & _ & _ & ->)|(? & _ & _ & _ & _ & _ & _ & _ & -> & _)]. }
  intros d d' Hv Hs. destruct Hs as [ps rev t d| | conn' n job' now id tok d d' rr Hn Hr
    |conn' n job' cloud now d d' reg _ _ Hr|conn' job' rr o nj t d d' Hf|conn' seq d d' Hr
    |conn' job' l id g res d d' Hr| |]; try done.
  - unfold reconcile_document. cbv zeta. cbn [fst]. simpl. apply foldl_inv; [|done].
    apply (foldl_inv (λ s, (v ≤ s.(rs_document).(observation_sequence))%N)); [done|].
    intros. by rewrite Hprinter.
  - simpl. lia.
  - by apply reserve_inner_Ok in Hr as [_ [[-> _]|(_ & _ & _ & r & m & _ & _ & _ & _ & _ & _ & -> & _)]].
  - by apply register_inner_Ok in Hr as (_ & _ & _ & _ & _ & _ & _ & n' & ρ & _ &
      [[-> _]|(_ & _ & _ & _ & r & _ & _ & _ & _ & _ & _ & _ & ->)]).
  - apply finish_inner_Ok in Hf as (r & _ & _ & _ & _ & _ & _ & _ & [[_ ->]|(_ & d3 & Hd3 & ->)]);
      [done|]. apply Hconsumed in Hd3. simpl in *. by rewrite Hd3.
  - unfold acknowledge_document in *. by case_decide; simplify_eq.
  - apply resolve_inner_Ok in Hr as [->|(k & r & h & l1 & l2 & d2 & _ & _ & _ & _ & _ & _ & _ &
      _ & _ & Hd2 & ->)]; [done|]. apply Hconsumed in Hd2. by case_decide; simpl in *; rewrite Hd2.
Qed.

(** The numbers below the counter are reserved in memory and in the journal. *)
Definition sequence_wf c : Prop :=
  (c.(next_observation_sequence) ≤ c.(reserved_observation_sequence) + 1)%N ∧
  everywhere (λ d, (c.(reserved_observation_sequence) ≤ d.(observation_sequence))%N) (Running c).

(** How one allocation ends. *)
Lemma allocate_cases io n c :
  let c' := (allocate_observation_sequences io n c).1 in
  let res := (allocate_observation_sequences io n c).2 in
  (c'.(next_observation_sequence) = c.(next_observation_sequence) ∧
   c'.(reserved_observation_sequence) = c.(reserved_observation_sequence) ∧
   ∀ l, res = Ok l → l = []) ∨
  (∃ v, c'.(next_observation_sequence) = c.(next_observation_sequence) ∧
        c'.(reserved_observation_sequence) = v ∧ c'.(document).(observation_sequence) = v ∧
        c'.(disk) = Some (to_vec_pretty c'.(document)) ∧
        (c.(document).(observation_sequence) ≤ v)%N ∧ ∀ l, res ≠ Ok l) ∨
  (∃ a v, c'.(next_observation_sequence) = (a + 1)%N ∧
     (c.(next_observation_sequence) ≤ a)%N ∧
     c'.(reserved_observation_sequence) = v ∧
     res = Ok (sequence_range c.(next_observation_sequence) a) ∧
     (v = c.(reserved_observation_sequence) ∧ (a ≤ v)%N ∧ c'.(document) = c.(document) ∧
        c'.(disk) = c.(disk) ∨
      c'.(document).(observation_sequence) = v ∧ c'.(disk) = Some (to_vec_pretty c'.(document)) ∧
        (c.(document).(observation_sequence) ≤ v)%N ∧
        (a + c.(document).(observation_sequence) + 1
           ≤ c.(next_observation_sequence) + v)%N)).
Proof.
  cbv zeta. unfold allocate_observation_sequences. destruct (poisoned c); [by left|]. cbv zeta.
  case_decide as Hz; [left; naive_solver|].
  destruct (u64_checked_add (next_observation_sequence c) _) as [a|] eqn:Ha; [|by left].
  apply u64_checked_add_Some in Ha as [-> _].
  case_decide as Hmore; cycle 1.
  { destruct (u64_checked_add _ 1) as [nx|] eqn:Hn; [|by left].
    apply u64_checked_add_Some in Hn as [-> _]. right; right.
    eexists _, _. simpl. split_and!; [done|lia|done|done|]. left. split_and!; (done || lia). }
  destruct (u64_checked_add (observation_sequence _) _) as [v|] eqn:Hv; [|by left].
  apply u64_checked_add_Some in Hv as [-> _].
  destruct (persist io _) as [c2 [[]|e]] eqn:Hp; cycle 1.
  { left. unfold persist in Hp. by destruct (fault io); simplify_eq. }
  apply persist_Ok in Hp as ->. simpl.
  destruct (u64_checked_add _ 1) as [nx|] eqn:Hn.
  - apply u64_checked_add_Some in Hn as [-> _]. right; right. eexists _, _. simpl.
    split_and!; [done|lia|done|done|]. right. split_and!; [done|done|lia|lia].
  - right; left. eexists. simpl. split_and!; [done|done|done|done|lia|done].
Qed.

Definition counters c : N * N :=
  (c.(next_observation_sequence), c.(reserved_observation_sequence)).

Lemma persist_counters io c : counters (persist io c).1 = counters c.
Proof. unfold persist. by destruct (fault io). Qed.

Lemma commit_counters io previous c :
  counters (commit_document_change io previous c).1 = counters c.
Proof.
  assert (Hp := persist_counters io c). unfold commit_document_change.
  destruct (persist io c) as [c1 [[]|e]]; [done|]. rewrite <- Hp.
  destruct (if readable io then _ else _) as [d|]; [by destruct (documents_match _ _)|done].
Qed.

Lemma journalled_counters {A} io (body : _ → result _ (_ * A)) c :
  counters (journalled io body c).1 = counters c.
Proof.
  unfold journalled. destruct (poisoned c); [done|]. destruct (body _) as [[d a]|e]; [|done].
  assert (Hc := commit_counters io c.(document) (with_document d c)).
  by destruct (commit_document_change _ _ _) as [c1 [[]|?]].
Qed.

Lemma apply_counters io op c :
  (∀ n, op ≠ OpAllocate n) → counters (apply io op c) = counters c.
Proof.
  intros Hop. destruct op; simpl; try (by apply journalled_counters).
  - unfold reconcile. destruct (poisoned c); [done|].
    destruct (reconcile_document _ _ _ _) as [d' snaps].
    assert (Hp := persist_counters io (with_document d' c)).
    by destruct (persist _ _) as [c1 [[]|e]].
  - by destruct (Hop count).
  - unfold finish_runtime, finish.
    assert (Hc := journalled_counters io (λ d, no_value (finish_inner conn job r o native_job t d)) c).
    destruct (journalled io _ c) as [c1 [[]|e]]; [done|]. simpl in Hc. rewrite <- Hc.
    destruct (poisoned c1); [done|].
    assert (Hc1 := journalled_counters retry (λ d, no_value (finish_inner conn job r o native_job t d)) c1).
    by destruct (journalled retry _ c1) as [c2 [[]|e']].
  - unfold compact_local_terminal_handoffs. destruct (poisoned c); [done|].
    case_decide; [done|]. cbv zeta. case_decide; [done|].
    assert (Hc := commit_counters io c.(document)
      (with_document (compact_document conn commits c.(document)) c)).
    by destruct (commit_document_change _ _ _) as [c1 [[]|?]].
Qed.

Lemma is_allocate op : (∃ n, op = OpAllocate n) ∨ ∀ n, op ≠ OpAllocate n.
Proof. destruct op; eauto. Qed.

Lemma stored_pretty (P : CoordinatorDocument → Prop) d : P d → stored P (Some (to_vec_pretty d)).
Proof. by exists d. Qed.

Lemma everywhere_impl (P Q : CoordinatorDocument → Prop) p :
  (∀ d, P d → Q d) → everywhere P p → everywhere Q p.
Proof. unfold everywhere, stored. destruct p; naive_solver. Qed.

Lemma allocate_wf io n c :
  sequence_wf c → sequence_wf (allocate_observation_sequences io n c).1.
Proof.
  intros [Hn He]. assert (He' := allocate_everywhere _ io n c (observation_closed _) He).
  destruct (allocate_cases io n c) as [(H1 & H2 & _)|[(v & H1 & H2 & H3 & H4 & H5 & _)
    |(a & v & H1 & H2 & H3 & _ & H4)]]; unfold sequence_wf.
  - by rewrite H1, H2.
  - rewrite H1, H2. destruct He as [Hd _]. simpl in Hd. split; [lia|]. simpl. rewrite H4.
    split; [lia|]. apply stored_pretty. lia.
  - rewrite H1, H3. destruct He as [Hd Hs]. simpl in Hd.
    destruct H4 as [(-> & Ha & Hdoc & Hdisk)|(H4 & Hdisk & H5 & H6)].
    + split; [lia|]. simpl. by rewrite Hdoc, Hdisk.
    + split; [lia|]. simpl. rewrite Hdisk. split; [lia|]. apply stored_pretty. lia.
Qed.

Lemma open_sequence io ns b b' c : open io ns b = (b', Ok c) → sequence_wf c.
Proof.
  intros (Ho & _ & Hd & _)%open_Ok.
  apply open_document_Ok in Ho as (d0 & _ & Hdoc & Hn & Hr & _).
  assert (Hobs : c.(document).(observation_sequence) = d0.(observation_sequence)) by by rewrite Hdoc.
  split; [lia|]. simpl. rewrite Hd, Hr. split; [lia|]. apply stored_pretty. lia.
Qed.

Lemma reachable_sequence c : reachable (Running c) → sequence_wf c.
Proof.
  intros Hr. unfold reachable in Hr.
  apply (rtc_ind_r (R := step) (λ p, ∀ c, p = Running c → sequence_wf c) (Stopped None))
    with (z := Running c); [done| |done|done].
  clear c Hr. intros p p' _ Hs IH c ->.
  inversion Hs as [io op c0 Hok| |io ns b b' c0 Ho|]; subst; [|by eapply open_sequence].
  specialize (IH c0 eq_refl). destruct (is_allocate op) as [[n ->]|Hop]; [by apply allocate_wf|].
  assert (Hc := apply_counters io op c0 Hop). injection Hc as Hn Hrs.
  destruct IH as [H1 H2]. unfold sequence_wf. rewrite Hn, Hrs. split; [done|].
  by apply apply_everywhere; [apply observation_closed|..].
Qed.

(** The number [v] was handed out: no later process hands it out again. *)
Definition issued (v : N) (p : process) : Prop :=
  everywhere (λ d, (v ≤ d.(observation_sequence))%N) p ∧
  match p with Running c => (v < c.(next_observation_sequence))%N | Stopped _ => True end.

Lemma allocate_next io n c :
  (c.(next_observation_sequence)
   ≤ (allocate_observation_sequences io n c).1.(next_observation_sequence))%N.
Proof.
  destruct (allocate_cases io n c) as [(-> & _)|[(v & -> & _)|(a & v & -> & Hle & _)]]; lia.
Qed.

Lemma issued_step v p p' : issued v p → step p p' → issued v p'.
Proof.
  intros [He Hn] Hs. split; [by eapply step_everywhere; [apply observation_closed| |]|].
  destruct Hs as [io op c Hok|c|io ns b b' c Ho|]; [|done| |done].
  - destruct (is_allocate op) as [[n ->]|Hop].
    + assert (Hle := allocate_next io n c). simpl. lia.
    + assert (Hc := apply_counters io op c Hop). injection Hc as Hc _. by rewrite Hc.
  - destruct He as (d & -> & Hv). apply open_Ok in Ho as (Ho & _).
    apply open_document_Ok in Ho as (d0 & Hd0 & _ & -> & _).
    rewrite from_slice_to_vec_pretty in Hd0. injection Hd0 as <-. lia.
Qed.

Lemma issued_steps v p p' : issued v p → rtc step p p' → issued v p'.
Proof. intros Hi Hs. induction Hs; eauto using issued_step. Qed.

Lemma allocate_issued io n c c' l v :
  sequence_wf c → allocate_observation_sequences io n c = (c', Ok l) → v ∈ l →
  (c.(next_observation_sequence) ≤ v)%N ∧ issued v (Running c').
Proof.
  intros Hwf Ha Hv. assert (Hwf' := allocate_wf io n c Hwf).
  assert (Hcases := allocate_cases io n c). rewrite Ha in Hwf', Hcases. simpl in *.
  destruct Hcases as [(_ & _ & Hl)|[(? & _ & _ & _ & _ & _ & Hl)|(a & w & H1 & H2 & H3 & H4 & _)]].
  - rewrite (Hl l eq_refl) in Hv. set_solver.
  - by destruct (Hl l).
  - injection H4 as ->. apply sequence_range_spec in Hv. destruct Hwf' as [Hle He].
    split; [lia|]. split; [|lia]. eapply everywhere_impl; [|exact He]. simpl. lia.
Qed.
End durability.

(** * Capacity of the replay barriers *)

Section capacity.
Context `{JL : JournalLaws} {D : Deployment}.
Implicit Types (d : CoordinatorDocument) (r : DurableReservation) (x : string).

(** The barriers in use and those an active reservation will need. *)
Definition claimed d : gset string :=
  dom d.(consumed_authoritative_routes) ∪ active_unconsumed d.

Definition capacity d : Prop := size (claimed d) ≤ MAX_CONSUMED_AUTHORITATIVE_ROUTES.

Lemma elem_of_active_unconsumed d x :
  x ∈ active_unconsumed d ↔
  d.(consumed_authoritative_routes) !! x = None ∧
  ∃ k r, d.(reservations) !! k = Some r ∧ reservation_key r = Some x.
Proof.
  unfold active_unconsumed. rewrite elem_of_list_to_set, list_elem_of_omap.
  setoid_rewrite elem_of_btree_values. split.
  - intros (r & [k Hk] & Hx). apply bind_Some in Hx as (key & Hkey & Hx).
    case_decide as Hd; [done|]. injection Hx as ->. split; [by apply eq_None_not_Some|eauto].
  - intros (Hnone & k & r & Hk & Hkey). exists r. split; [eauto|]. rewrite Hkey. simpl.
    rewrite decide_False; [done|]. rewrite Hnone. by intros [].
Qed.

Lemma elem_of_claimed d x :
  x ∈ claimed d ↔
  is_Some (d.(consumed_authoritative_routes) !! x) ∨
  ∃ k r, d.(reservations) !! k = Some r ∧ reservation_key r = Some x.
Proof.
  unfold claimed. rewrite elem_of_union, elem_of_dom, elem_of_active_unconsumed.
  destruct (d.(consumed_authoritative_routes) !! x) as [b|] eqn:Hx; [|naive_solver].
  split; [eauto|]. intros _. eauto.
Qed.

Lemma size_claimed d :
  size (claimed d) = size d.(consumed_authoritative_routes) + size (active_unconsumed d).
Proof.
  unfold claimed. rewrite size_union; [by rewrite size_dom|].
  intros x Hx%elem_of_dom [Hn _]%elem_of_active_unconsumed. rewrite Hn in Hx. by destruct Hx.
Qed.

Lemma capacity_mono d d' : claimed d' ⊆ claimed d → capacity d → capacity d'.
Proof. intros Hs%subseteq_size. unfold capacity. lia. Qed.

Lemma capacity_frame d d' :
  d'.(consumed_authoritative_routes) = d.(consumed_authoritative_routes) →
  d'.(reservations) ⊆ d.(reservations) → capacity d → capacity d'.
Proof.
  intros Hc Hr. apply capacity_mono. intros x. rewrite !elem_of_claimed, Hc.
  intros [?|(k & r & Hk & Hx)]; [by left|right]. eauto using lookup_weaken.
Qed.

Lemma capacity_consume d k r o nj t d1 d2 d' :
  d.(reservations) !! k = Some r →
  d1.(consumed_authoritative_routes) = d.(consumed_authoritative_routes) →
  record_consumed_authoritative_route r o nj t d1 = Ok d2 →
  d'.(reservations) = delete k d.(reservations) →
  d'.(consumed_authoritative_routes) = d2.(consumed_authoritative_routes) →
  capacity d → capacity d'.
Proof.
  intros Hr Hc1 Hd2%record_consumed_Ok Hr' Hc'. apply capacity_mono.
  intros x. rewrite !elem_of_claimed, Hr', Hc'. intros [Hx|(k' & r' & Hk' & Hx)]; cycle 1.
  { apply lookup_delete_Some in Hk' as [_ Hk']. right. eauto. }
  destruct (reservation_key r) as [key|] eqn:Hkey; [|subst; left; congruence].
  destruct Hd2 as [(old & _ & _ & ->)|(new & _ & _ & _ & _ & _ & _ & _ & -> & _)];
    [left; congruence|]. simpl in Hx. rewrite Hc1 in Hx.
  apply lookup_insert_is_Some in Hx as [<-|[_ Hx]]; [right; eauto|by left].
Qed.

Lemma capacity_register conn n job cloud now d d' reg :
  register_authoritative_inner conn n job cloud now d = Ok (d', reg) → capacity d → capacity d'.
Proof.
  intros Hr Hcap. apply register_inner_Ok in Hr as (_ & _ & Hl & _ & _ & _ & _ & n' & ρ & _ &
    [[-> _]|(_ & _ & _ & Hroom & r & Hs & Hrl & _ & Hrc & Hrj & _ & _ & ->)]); [done|].
  set (key := authoritative_route_key _ _ _ _) in *. unfold capacity in *.
  assert (Hsub : claimed (set_reservations (<[coordination_key ρ := r]> d.(reservations)) d)
                   ⊆ {[key]} ∪ claimed d).
  { intros x. rewrite elem_of_union, elem_of_singleton, !elem_of_claimed. simpl.
    intros [?|(k & r' & Hk & Hx)]; [by right; left|].
    apply lookup_insert_Some in Hk as [[_ <-]|[_ Hk]]; [left|right; right; eauto].
    unfold reservation_key in Hx. rewrite Hs, Hrl, Hrc, Hrj, <- Hl in Hx. by injection Hx. }
  apply subseteq_size in Hsub. destruct (decide (key ∈ claimed d)) as [Hin|Hout].
  - replace ({[key]} ∪ claimed d) with (claimed d) in Hsub by set_solver. lia.
  - rewrite size_union, size_singleton, (size_claimed d) in Hsub by set_solver.
    rewrite elem_of_claimed in Hout.
    destruct Hroom as [?|[(_ & ?)%elem_of_active_unconsumed|?]]; [naive_solver..|lia].
Qed.

Lemma capacity_empty ns : capacity (empty_document ns).
Proof. unfold capacity. rewrite size_claimed. vm_compute. lia. Qed.

Lemma capacity_closed : closed capacity.
Proof.
  intros d d' Hcap Hs. destruct Hs as [ps rev t d| | conn' n job' now id tok d d' rr Hn Hr
    | |conn' job' rr o nj t d d' Hf|conn' seq d d' Hr|conn' job' l id g res d d' Hr| |];
    try by apply (capacity_frame d).
  - destruct (reconcile_fences ps rev t d) as [_ Hre _ Hc _ _].
    apply (capacity_frame d); [done| |done]. by rewrite Hre.
  - apply reserve_inner_Ok in Hr as [_ [[-> _]|(_ & _ & _ & r & m & _ & Hs & _ & _ & _ & _ & -> & _)]];
      [done|]. apply (capacity_mono d); [|done]. intros x. rewrite !elem_of_claimed. simpl.
    intros [?|(k & r' & Hk & Hx)]; [by left|]. apply lookup_insert_Some in Hk as [[_ <-]|[_ Hk]];
      [|right; eauto]. unfold reservation_key in Hx. by rewrite Hs in Hx.
  - by eapply capacity_register.
  - apply finish_inner_Ok in Hf as (r & Hr & _ & _ & _ & _ & _ & _ & [[_ ->]|(_ & d3 & Hd3 & ->)]);
      [by apply (capacity_frame d)|].
    assert (Hfr := record_consumed_frame _ _ _ _ _ _ Hd3). simpl in Hfr.
    destruct Hfr as (_ & _ & Hre & _).
    eapply capacity_consume; [exact Hr| |exact Hd3|simpl; congruence|done|done]. done.
  - unfold acknowledge_document in *. case_decide; simplify_eq. by apply (capacity_frame d).
  - apply resolve_inner_Ok in Hr as [->|(k & r & h & l1 & l2 & d2 & Hk & _ & _ & _ & _ & _ & _ &
      _ & _ & Hd2 & ->)]; [done|].
    assert (Hfr := record_consumed_frame _ _ _ _ _ _ Hd2). simpl in Hfr.
    destruct Hfr as (_ & _ & Hre & _).
    eapply capacity_consume; [exact Hk| |exact Hd2|..]; [done| | |done];
      case_decide; simpl; congruence.
Qed.

(** An active reservation always has room for its barrier. *)
Lemma consume_succeeds d k r o nj t d1 :
  capacity d → d.(reservations) !! k = Some r →
  d1.(consumed_authoritative_routes) = d.(consumed_authoritative_routes) →
  ∃ d2, record_consumed_authoritative_route r o nj t d1 = Ok d2.
Proof.
  intros Hcap Hr Hc1. unfold record_consumed_authoritative_route.
  destruct (res_server_route_id r) as [s|] eqn:Hs; [|eauto]. cbv zeta. rewrite Hc1.
  set (key := authoritative_route_key _ _ _ _).
  rewrite decide_False; [repeat case_match; eauto|]. intros [Hnone Hfull].
  unfold capacity in Hcap. rewrite size_claimed in Hcap.
  assert (Hin : {[key]} ⊆ active_unconsumed d).
  { apply singleton_subseteq_l, elem_of_active_unconsumed. split; [done|]. exists k, r.
    split; [done|]. unfold reservation_key. by rewrite Hs. }
  apply subseteq_size in Hin. rewrite size_singleton in Hin. lia.
Qed.
End capacity.
