(* ===== verification/CoordinatorClaims.v ===== *)
(** What the route coordinator guarantees, as theorems over every reachable
    state, and a concrete deployment that exercises them. *)
From S2P Require Import Prelude Identity Coordinator CoordinatorFacts CoordinatorSystem CoordinatorSafety.

Section claims.
Context `{JL : JournalLaws} {D : Deployment}.
Implicit Types (d : CoordinatorDocument) (c : RouteCoordinator) (r : DurableReservation)
  (ρ : DurableRoute) (n k : string).

(** * Lemmas *)

Lemma reachable_fenced c : reachable (Running c) → ∃ ns, fence_wf ns known c.(document).
Proof. apply (reachable_running fenced); [apply fenced_closed|apply fenced_empty]. Qed.

Lemma reachable_barred c : reachable (Running c) → barred c.(document).
Proof. apply (reachable_running barred); [apply barred_closed|apply barred_empty]. Qed.

(** An unconflicted route with a free domain shares its physical group with no
    active reservation. *)
Lemma group_is_free ns d n ρ :
  fence_wf ns known d → d.(routes) !! n = Some ρ → ρ.(coordination_conflict) = false →
  d.(reservations) !! ρ.(coordination_key) = None →
  ∀ k' r' n' ρ', d.(reservations) !! k' = Some r' → d.(routes) !! n' = Some ρ' →
    ρ'.(route_id) = r'.(res_local_route_key) → desired_key ρ' ≠ desired_key ρ.
Proof.
  intros [Hb Hf Hg] Hn Hc Hfree k' r' n' ρ' Hk' Hn' Hid Heq.
  destruct (Hg _ _ _ _ Hn' Hn Heq) as [Hc' [?|Hkey]]; [congruence|].
  destruct (Hf _ _ _ _ Hk' Hn' Hid); congruence.
Qed.

Lemma open_oversized io ns d :
  d.(version) = DOCUMENT_VERSION → MAX_HANDOFFS < length d.(handoffs) →
  (open io ns (Some (to_vec_pretty d))).2 = Err StateExceedsBounds.
Proof.
  intros Hv Hl. unfold open, open_document. rewrite from_slice_to_vec_pretty. simpl.
  rewrite decide_False by congruence. by rewrite decide_True by (by left).
Qed.

(** * Claims *)

(** C2: route exclusion.  In every reachable state, whatever journal writes
    failed and however often the process restarted, an OS route has at most one
    active reservation; and two reservations of routes that are evidenced to be
    one physical printer exist only while both routes are marked conflicting,
    which refuses every new reservation of them. *)
Theorem routes_are_exclusive c :
  reachable (Running c) →
  (∀ k1 r1 k2 r2, c.(document).(reservations) !! k1 = Some r1 →
     c.(document).(reservations) !! k2 = Some r2 →
     r1.(res_local_route_key) = r2.(res_local_route_key) → k1 = k2) ∧
  (∀ n1 ρ1 k1 r1 n2 ρ2 k2 r2,
     c.(document).(routes) !! n1 = Some ρ1 → c.(document).(routes) !! n2 = Some ρ2 →
     desired_key ρ1 = desired_key ρ2 →
     c.(document).(reservations) !! k1 = Some r1 → r1.(res_local_route_key) = ρ1.(route_id) →
     c.(document).(reservations) !! k2 = Some r2 → r2.(res_local_route_key) = ρ2.(route_id) →
     k1 = k2 ∨ ρ1.(coordination_conflict) = true ∧ ρ2.(coordination_conflict) = true).
Proof.
  intros [ns [Hb Hf Hg]]%reachable_fenced. split; [apply Hb|].
  intros n1 ρ1 k1 r1 n2 ρ2 k2 r2 Hn1 Hn2 Hd Hk1 Hl1 Hk2 Hl2.
  destruct (Hg _ _ _ _ Hn1 Hn2 Hd) as [Hc Hor].
  destruct (Hf _ _ _ _ Hk1 Hn1 (eq_sym Hl1)), (Hf _ _ _ _ Hk2 Hn2 (eq_sym Hl2)); naive_solver.
Qed.

(** A reservation is granted exclusively.  When [reserve] succeeds for a
    discovered queue, the caller already held that reservation, or no reservation
    of any route of the same physical group was active before the call. *)
Theorem reserve_is_exclusive io conn n job now id tok c c' rr ρ :
  reachable (Running c) → known n → c.(document).(routes) !! n = Some ρ →
  reserve io conn n job now id tok c = (c', Ok rr) →
  (∃ r, c.(document).(reservations) !! rr.(rr_coordination_key) = Some r ∧
        r.(res_connector_id) = conn ∧ r.(res_job_id) = job ∧
        r.(res_reservation_id) = rr.(rr_reservation_id)) ∨
  (∀ k' r' n' ρ', c.(document).(reservations) !! k' = Some r' →
     c.(document).(routes) !! n' = Some ρ' → ρ'.(route_id) = r'.(res_local_route_key) →
     desired_key ρ' ≠ desired_key ρ).
Proof.
  intros [ns Hwf]%reachable_fenced Hkn Hn (_ & d & Hr & _)%journalled_Ok.
  apply reserve_inner_Ok in Hr as [_ [(_ & r & Hr & Hj & Hc & ->)|(Hfree & _ & Hc & _)]].
  - left. exists r. naive_solver.
  - right. unfold domain_of in Hfree. rewrite Hn in Hfree, Hc. by eapply group_is_free.
Qed.

(** The same for the control plane's reservations.  A cloud reservation that
    is newly registered finds no active reservation in the queue's physical group. *)
Theorem register_is_exclusive io conn n job cloud now c c' reg ρ :
  reachable (Running c) → known n → c.(document).(routes) !! n = Some ρ →
  register_authoritative io conn n job cloud now c = (c', Ok reg) →
  reg.(newly_registered) = true →
  ∀ k' r' n' ρ', c.(document).(reservations) !! k' = Some r' →
     c.(document).(routes) !! n' = Some ρ' → ρ'.(route_id) = r'.(res_local_route_key) →
     desired_key ρ' ≠ desired_key ρ.
Proof.
  intros [ns Hwf]%reachable_fenced Hkn Hn (_ & d & Hr & _)%journalled_Ok Hnew.
  apply register_inner_Ok in Hr as (_ & _ & _ & _ & _ & _ & _ & n' & ρ' & Hw &
    [(_ & ? & _)|(Hfree & Hc & _)]); [congruence|].
  assert (Hns := wf_ns _ _ _ (wf_base _ _ _ Hwf)). unfold route_id_for in Hw. rewrite Hns in Hw.
  rewrite (route_with_id_lookup _ _ (known_inj ns) _ _ _ (wf_base _ _ _ Hwf) Hn) in Hw.
  simplify_eq. by eapply group_is_free.
Qed.

(** C3: an accepted handoff is final.  Once the evidence that a cloud-authorized
    job was accepted by the native queue is recorded, no later registration for
    that connector and job succeeds, in any state reached from there by calls,
    failed journal writes, crashes and restarts, for any reservation the control
    plane offers. *)
Theorem accepted_authority_is_final io io' conn job rr s nj t c c1 u c2 :
  reachable (Running c) → rr.(rr_server_route_id) = Some s →
  finish_runtime io io' conn job rr Accepted nj t c = (c1, Ok u) →
  rtc step (Running c1) (Running c2) →
  ∀ io2 n cloud now, is_ok (register_authoritative io2 conn n job cloud now c2).2 = false.
Proof.
  intros Hb%reachable_barred Hs (d & Hf & Hdoc & Hdisk)%finish_runtime_Ok Hsteps io2 n cloud now.
  assert (Hbd : barred d) by (eapply barred_closed; [exact Hb|by econstructor]).
  destruct (finish_spends conn job rr s Accepted nj t _ d Hb Hs ltac:(done) Hf)
    as (key & b & r & Hkey & _ & _ & _ & Ho & Hc & Hj).
  apply (steps_everywhere _ _ _ (accepted_closed conn job)) in Hsteps as [[_ Hacc] _].
  - destruct (register_authoritative _ _ _ _ _ _ _) as [c3 [reg|e]] eqn:Hr; [|done].
    apply journalled_Ok in Hr as (_ & d' & Hr & _). apply register_inner_Ok in Hr as [Hno _].
    by destruct Hno.
  - simpl. rewrite Hdoc, Hdisk. assert (Ha : accepted_by conn job d.(consumed_authoritative_routes))
      by (by exists key, b). split; [done|]. by apply stored_pretty.
Qed.

(** A spent offer never regains authority.  After any terminal evidence for a
    cloud reservation, a registration for the same connector, server route, queue
    and job with that generation or an older one fails in every later state. *)
Theorem spent_offer_stays_spent io io' conn job rr s o nj t c c1 u c2 r :
  reachable (Running c) → rr.(rr_server_route_id) = Some s → o ≠ Ambiguous →
  c.(document).(reservations) !! rr.(rr_coordination_key) = Some r →
  finish_runtime io io' conn job rr o nj t c = (c1, Ok u) →
  rtc step (Running c1) (Running c2) →
  ∀ io2 n cloud now, cloud.(cloud_route_id) = s →
    cloud.(cloud_local_route_key) = r.(res_local_route_key) →
    (cloud.(cloud_generation) ≤ rr.(rr_generation))%N →
    is_ok (register_authoritative io2 conn n job cloud now c2).2 = false.
Proof.
  intros Hb%reachable_barred Hs Ho Hr (d & Hf & Hdoc & Hdisk)%finish_runtime_Ok Hsteps
    io2 n cloud now Hcs Hcl Hcg.
  assert (Hbd : barred d) by (eapply barred_closed; [exact Hb|by econstructor]).
  destruct (finish_spends _ _ _ _ _ _ _ _ _ Hb Hs Ho Hf)
    as (key & b & r' & Hkey & Hr' & Hk & Hg & _). assert (r' = r) as -> by congruence.
  assert (Hsp : spent key rr.(rr_generation) d.(consumed_authoritative_routes))
    by (exists b; split; [done|lia]).
  assert (He : everywhere (λ d, barred d ∧ spent key rr.(rr_generation)
                 d.(consumed_authoritative_routes)) (Running c1))
    by (simpl; rewrite Hdoc, Hdisk; split; [done|by apply stored_pretty]).
  destruct (steps_everywhere _ _ _ (spent_closed _ _) He Hsteps) as [[_ (b' & Hb' & Hg')] _].
  destruct (register_authoritative _ _ _ _ _ _ _) as [c3 [reg|e]] eqn:Hreg; [|done].
  apply journalled_Ok in Hreg as (_ & d' & Hreg & _).
  apply register_inner_Ok in Hreg as (_ & _ & _ & _ & _ & _ & Hfresh & _).
  rewrite Hk, <- Hcl, <- Hcs in Hb'. apply Hfresh in Hb' as [_ ?]. lia.
Qed.

(** C31: a restart loses no fence.  When an operational coordinator stops and
    starts again on its journal, it has the same reservations, handoff evidence,
    replay barriers, acknowledgement cursors and handoff counter as before. *)
Theorem restart_keeps_fences io ns b' c c' :
  reachable (Running c) → c.(poisoned) = false →
  open io ns c.(disk) = (b', Ok c') → same_fences c.(document) c'.(document).
Proof.
  intros Ha%reachable_agrees Hp (Ho & _)%open_Ok.
  destruct (Ha Hp) as (bs & d & Hb & Hfs & Hsf). rewrite Hb in Ho.
  apply open_document_Ok in Ho as (d0 & Hd0 & -> & _). assert (d0 = d) as -> by congruence.
  etrans; [symmetry; exact Hsf|apply open_fences].
Qed.

(** Observation sequences are never reused.  A number handed out later, even
    after crashes, restarts and failed journal writes, is larger than every
    number handed out before. *)
Theorem observation_sequences_are_unique io io' count count' c c1 c2 c3 l l' :
  reachable (Running c) → allocate_observation_sequences io count c = (c1, Ok l) →
  rtc step (Running c1) (Running c2) →
  allocate_observation_sequences io' count' c2 = (c3, Ok l') →
  ∀ v v', v ∈ l → v' ∈ l' → (v < v')%N.
Proof.
  intros Hr Ha Hsteps Ha' v v' Hv Hv'.
  destruct (allocate_issued _ _ _ _ _ _ (reachable_sequence _ Hr) Ha Hv) as [_ Hi].
  assert (Hi2 := issued_steps _ _ _ Hi Hsteps). destruct Hi2 as [_ Hn].
  assert (Hr2 : reachable (Running c2)).
  { unfold reachable in *. etrans; [exact Hr|]. eapply rtc_l; [|exact Hsteps].
    replace c1 with (apply io (OpAllocate count) c) by (simpl; by rewrite Ha). by constructor. }
  destruct (allocate_issued _ _ _ _ _ _ (reachable_sequence _ Hr2) Ha' Hv') as [Hle _]. lia.
Qed.

(** A held reservation can always be closed.  When the journal write does not
    fail, [finish] with a valid handle of the owning connector's job succeeds:
    the barrier its evidence needs was reserved when the reservation was made. *)
Theorem held_reservation_can_be_closed io conn job rr r o nj t c :
  reachable (Running c) → io.(fault) = NoFault → validate rr c = Ok () →
  c.(document).(reservations) !! rr.(rr_coordination_key) = Some r →
  r.(res_connector_id) = conn → r.(res_job_id) = job →
  ∃ c', finish io conn job rr o nj t c = (c', Ok ()).
Proof.
  intros Hr Hio Hv Hres Hc Hj.
  assert (Hcap := reachable_running capacity c capacity_closed capacity_empty Hr).
  unfold validate in Hv. unfold finish, journalled. destruct (poisoned c); [done|].
  unfold finish_inner. rewrite Hv, Hres. simpl.
  rewrite decide_False by (intros [?|?]; congruence).
  unfold no_value, commit_document_change, persist. rewrite Hio.
  case_decide; simpl; [eauto|].
  match goal with |- context [record_consumed_authoritative_route r o nj t ?d1] =>
    destruct (consume_succeeds c.(document) _ r o nj t d1 Hcap Hres eq_refl) as [d2 ->] end.
  simpl. eauto.
Qed.

(** Ambiguity is only removed by resolution.  Every document transition -
    discovery, reservations, evidence, server acknowledgement, compaction and
    restart - keeps an ambiguous handoff record, except the explicit resolution
    of a record with its sequence number. *)
Theorem ambiguity_needs_resolution d d' h :
  doc_step d d' → h ∈ d.(handoffs) → h.(ho_outcome) = Ambiguous →
  h ∈ d'.(handoffs) ∨
  ∃ conn job l id g res h0,
    resolve_ambiguous_handoff_inner conn job l id g res d = Ok d' ∧ h0 ∈ d.(handoffs) ∧
    handoff_matches conn job l id g h0 ∧ h0.(ho_sequence) = h.(ho_sequence).
Proof.
  intros Hs Hin Ho. destruct Hs as [ps rev t d| | conn n job now id tok d d' rr Hn Hr
    |conn n job cloud now d d' reg _ _ Hr|conn job rr o nj t d d' Hf|conn seq d d' Hr
    |conn job l id g res d d' Hr|conn commits d|]; try by left.
  - left. by rewrite (sf_handoffs _ _ (reconcile_fences ps rev t d)).
  - left. by apply reserve_inner_Ok in Hr
      as [_ [[-> _]|(_ & _ & _ & r & m & _ & _ & _ & _ & _ & _ & -> & _)]].
  - left. by apply register_inner_Ok in Hr as (_ & _ & _ & _ & _ & _ & _ & n' & ρ & _ &
      [[-> _]|(_ & _ & _ & _ & r & _ & _ & _ & _ & _ & _ & _ & ->)]).
  - left. apply finish_inner_Ok in Hf
      as (r & _ & _ & _ & _ & _ & _ & _ & [[_ ->]|(_ & d3 & Hd3 & ->)]); [simpl; set_solver|].
    apply record_consumed_frame in Hd3 as (_ & _ & _ & Hh & _). simpl in *. rewrite Hh. set_solver.
  - left. unfold acknowledge_document in Hr. case_decide; simplify_eq. simpl.
    apply list_elem_of_filter. naive_solver.
  - assert (Hr' := Hr). apply resolve_inner_Ok in Hr' as [->|(k & r & h0 & l1 & l2 & d2 & _ & _ & _ &
      _ & _ & _ & Hl & Hm & _ & Hd2 & ->)]; [by left|].
    destruct (decide (h0.(ho_sequence) = h.(ho_sequence))) as [Heq|Hne].
    { right. exists conn, job, l, id, g, res, h0. split_and!; [done| |done..]. rewrite Hl. set_solver. }
    left. apply record_consumed_frame in Hd2 as (_ & _ & _ & Hh & _). simpl in Hh.
    assert (Hin2 : h ∈ d2.(handoffs)) by (rewrite Hh; rewrite Hl in Hin; set_solver).
    case_decide; simpl; [|done]. apply list_elem_of_filter. naive_solver.
  - left. simpl. apply list_elem_of_filter. split; [|done].
    unfold retained_by_compaction. by rewrite decide_True by auto.
Qed.

(** Fail-stop.  After a journal write with an unknown outcome the coordinator
    changes nothing any more: every call leaves it as it is, and the calls that
    return a reservation, or validate one, are refused. *)
Theorem poisoned_is_inert io op c :
  c.(poisoned) = true →
  apply io op c = c ∧ (∀ rr, validate rr c = Err FailStopped) ∧
  (∀ conn n job now id tok, (reserve io conn n job now id tok c).2 = Err FailStopped) ∧
  (∀ conn n job cloud now,
     (register_authoritative io conn n job cloud now c).2 = Err FailStopped).
Proof.
  intros Hp. split_and!.
  - destruct op; simpl; unfold reconcile, allocate_observation_sequences, reserve,
      register_authoritative, finish_runtime, finish, acknowledge_handoffs,
      resolve_ambiguous_handoff, compact_local_terminal_handoffs, journalled;
      rewrite ?Hp; simpl; rewrite ?Hp; simpl; try done. destruct c; simpl in *; by subst.
  - intros. unfold validate. by rewrite Hp.
  - intros. unfold reserve, journalled. by rewrite Hp.
  - intros. unfold register_authoritative, journalled. by rewrite Hp.
Qed.
End claims.

(** * Keys *)

Section keys.
Implicit Types s : string.

Lemma byte_inj a b : (a < 256 → b < 256 → byte a = byte b → a = b)%N.
Proof.
  intros Ha Hb [= Hab]. apply (f_equal Ascii.N_of_ascii) in Hab.
  by rewrite !Ascii.N_ascii_embedding in Hab.
Qed.

Lemma string_app_inj_length s1 s2 t1 t2 :
  String.length s1 = String.length s2 → s1 +:+ t1 = s2 +:+ t2 → s1 = s2 ∧ t1 = t2.
Proof.
  revert s2. induction s1 as [|a s1 IH]; intros [|b s2] Hl; try done.
  change (String.String a (s1 +:+ t1) = String.String b (s2 +:+ t2) →
          String.String a s1 = String.String b s2 ∧ t1 = t2).
  intros [= -> Ht]. injection Hl as Hl. by destruct (IH _ Hl Ht) as [-> ->].
Qed.

Lemma byte_app_inj a b s1 s2 :
  (a < 256)%N → (b < 256)%N → byte a +:+ s1 = byte b +:+ s2 → a = b ∧ s1 = s2.
Proof.
  intros Ha Hb [Hab ->]%string_app_inj_length; [|done]. split; [|done]. by apply byte_inj.
Qed.

(** The base-256 digits determine a 64-bit number. *)
Lemma u64_digits n m :
  (n ≤ u64_max)%N → (m ≤ u64_max)%N →
  (∀ i, i ∈ [7; 6; 5; 4; 3; 2; 1; 0]%N → N.shiftr n (8 * i) mod 256 = N.shiftr m (8 * i) mod 256)%N →
  n = m.
Proof.
  intros Hn Hm Hd. apply N.bits_inj. intros j.
  destruct (decide (j < 64)%N) as [Hj|Hj].
  - assert (Hi' : (N.shiftr n (8 * (j / 8)) mod 256 = N.shiftr m (8 * (j / 8)) mod 256)%N).
    { apply Hd. assert (Hq : (j / 8 < 8)%N) by (apply N.Div0.div_lt_upper_bound; lia).
      clear -Hq. generalize dependent (j / 8)%N. intros q Hq. rewrite !elem_of_cons, elem_of_nil. lia. }
    apply (f_equal (λ x, N.testbit x (j mod 8))) in Hi'. change 256%N with (2 ^ 8)%N in Hi'.
    assert (Hlt : (j mod 8 < 8)%N) by (apply N.mod_lt; lia).
    rewrite !N.mod_pow2_bits_low, !N.shiftr_spec' in Hi' by done.
    rewrite (N.add_comm (j mod 8)), <- (N.div_mod j 8) in Hi' by done. done.
  - assert (Hb : ∀ x, (x ≤ u64_max)%N → N.testbit x j = false); [|by rewrite !Hb].
    intros x Hx. destruct (decide (x = 0)%N) as [->|Hx0]; [apply N.bits_0|].
    apply N.bits_above_log2. apply N.log2_lt_pow2; [lia|].
    apply (N.lt_le_trans _ (2 ^ 64)); [unfold u64_max in Hx; lia|].
    apply N.pow_le_mono_r; lia.
Qed.

Lemma u64_be_bytes_inj n m s1 s2 :
  (n ≤ u64_max)%N → (m ≤ u64_max)%N →
  u64_be_bytes n +:+ s1 = u64_be_bytes m +:+ s2 → n = m ∧ s1 = s2.
Proof.
  intros Hn Hm [Hb ->]%string_app_inj_length; [|done]. split; [|done].
  apply u64_digits; [done..|]. unfold u64_be_bytes in Hb. cbn [foldr] in Hb.
  repeat (apply byte_app_inj in Hb as [? Hb]; [|apply N.mod_lt; lia..]).
  intros i. rewrite !elem_of_cons, elem_of_nil.
  intros Hi. by repeat (destruct Hi as [->|Hi]; [done|]).
Qed.

Definition fits s : Prop := (N.of_nat (String.length s) ≤ u64_max)%N.

Lemma length_prefixed_inj s1 s2 t1 t2 :
  fits s1 → fits s2 → length_prefixed s1 +:+ t1 = length_prefixed s2 +:+ t2 →
  s1 = s2 ∧ t1 = t2.
Proof.
  intros H1 H2. unfold length_prefixed, fits in *. rewrite !N.min_l by done.
  rewrite <- !string_app_assoc.
  intros [Hl%Nat2N.inj Ht]%u64_be_bytes_inj; [|done..]. by apply string_app_inj_length.
Qed.

(** The barrier key names its components.  The digested bytes of
    [authoritative_route_key] determine connector, server route, queue and job:
    two different combinations only share a key if SHA-256 collides on them. *)
Theorem route_key_preimage_injective c r l j c' r' l' j' :
  Forall fits [c; r; l; j; c'; r'; l'; j'] →
  authoritative_route_preimage c r l j = authoritative_route_preimage c' r' l' j' ↔
  c = c' ∧ r = r' ∧ l = l' ∧ j = j'.
Proof.
  intros Hf. unfold authoritative_route_preimage. rewrite !Forall_cons in Hf.
  destruct Hf as (Hc & Hr & Hl & Hj & Hc' & Hr' & Hl' & Hj' & _).
  split; [|by intros (-> & -> & -> & ->)].
  intros [-> [-> [-> Hlast]%length_prefixed_inj]%length_prefixed_inj]%length_prefixed_inj; [|done..].
  split_and!; [done..|]. apply (f_equal (λ s, s +:+ "")) in Hlast.
  by apply length_prefixed_inj in Hlast as [? _].
Qed.
End keys.

(** * Unacknowledged offers *)

(** A free route whose offers were all rejected before handoff, up to
    generation [i], and not acknowledged. *)
Section growth.
Context `{JL : JournalLaws} {D : Deployment} (conn job n s token : string) (ρ : DurableRoute) (ns : Uuid).
Context (Hs : s ≠ ""%string) (Htoken : token ≠ ""%string) (Hlen : String.length token ≤ 512).
Context (Hconflict : ρ.(coordination_conflict) = false).
Implicit Types (d : CoordinatorDocument) (i : N).

Definition offer (id : Uuid) (gen : N) (expires : DateTime) : CloudRouteReservation :=
  {| cloud_route_id := s; cloud_local_route_key := route_id_of ns n; cloud_reservation_id := id;
     cloud_generation := gen; cloud_fencing_token := token; cloud_lease_expires_at := expires |}.

Definition offer_handle (id : Uuid) (gen : N) : RouteReservation :=
  {| rr_local_route_key := route_id_of ns n; rr_server_route_id := Some s;
     rr_coordination_key := ρ.(coordination_key); rr_reservation_id := id;
     rr_generation := gen; rr_fencing_token := token |}.

Record all_rejected i d : Prop := {
  ar_ns : d.(installation_namespace) = ns;
  ar_route : option_map snd (route_with_id d (route_id_of ns n)) = Some ρ;
  ar_free : d.(reservations) = ∅;
  ar_barrier : ∀ k b, d.(consumed_authoritative_routes) !! k = Some b →
    k = authoritative_route_key conn s (route_id_of ns n) job ∧
    b.(con_outcome) ≠ Accepted ∧ (b.(con_generation) ≤ i)%N;
  ar_handoffs : Forall (λ h, h.(ho_outcome) = RejectedBeforeHandoff ∧
                             (h.(ho_fencing_generation) ≤ i)%N) d.(handoffs);
}.

Lemma max_generation_le i l g :
  Forall (λ h, (h.(ho_fencing_generation) ≤ i)%N) l → max_generation conn job l = Some g → (g ≤ i)%N.
Proof.
  intros Hl. revert g. induction Hl as [|h l Hh _ IH]; [done|]. intros g. simpl.
  case_decide; [|apply IH]. intros [= <-]. destruct (max_generation conn job l) as [g'|]; simpl;
    [|done]. specialize (IH g' eq_refl). lia.
Qed.

Lemma all_rejected_small i d :
  all_rejected i d →
  size d.(consumed_authoritative_routes) + size (active_unconsumed d)
    < MAX_CONSUMED_AUTHORITATIVE_ROUTES.
Proof.
  intros [_ _ Hfree Hb _]. assert (Hact : active_unconsumed d = ∅).
  { apply elem_of_equiv_empty_L. intros x (_ & k & r & Hk & _)%elem_of_active_unconsumed.
    by rewrite Hfree in Hk. }
  rewrite Hact, size_empty, <- size_dom.
  assert (Hsub : dom d.(consumed_authoritative_routes)
                 ⊆ {[authoritative_route_key conn s (route_id_of ns n) job]}).
  { intros k [b Hk]%elem_of_dom. apply Hb in Hk as [-> _]. set_solver. }
  apply subseteq_size in Hsub. rewrite size_singleton in Hsub.
  unfold MAX_CONSUMED_AUTHORITATIVE_ROUTES. lia.
Qed.

Lemma register_rejected_again i id expires now d :
  all_rejected i d → (now < expires)%Z →
  ∃ r reg, register_authoritative_inner conn n job (offer id (i + 1) expires) now d
    = Ok (set_reservations (<[ρ.(coordination_key) := r]> d.(reservations)) d, reg) ∧
    r.(res_server_route_id) = Some s ∧ r.(res_local_route_key) = route_id_of ns n ∧
    r.(res_reservation_id) = id ∧ r.(res_connector_id) = conn ∧ r.(res_job_id) = job ∧
    r.(res_generation) = (i + 1)%N ∧ r.(res_fencing_token) = token.
Proof.
  intros Har Hnow. assert (Hsmall := all_rejected_small _ _ Har).
  destruct Har as [Hns Hroute Hfree Hb Hh]. unfold register_authoritative_inner.
  unfold route_id_for. rewrite Hns. simpl.
  rewrite decide_False by (intros [?|[?|[?|[?|[?|?]]]]]; (done || lia)).
  rewrite decide_False by (intros (k & b & Hk & _ & _ & ?); by apply Hb in Hk as (_ & ? & _)).
  destruct (from_option _ false (_ !! _)) eqn:Hgen.
  { destruct (_ !! _) as [b|] eqn:Hk in Hgen; [|done]. simpl in Hgen.
    apply Hb in Hk as (_ & ? & ?). apply bool_decide_eq_true in Hgen as [?|?]; [done|lia]. }
  rewrite decide_False.
  2: { intros (h & Hin & _ & _ & Hor)%Exists_exists. rewrite Forall_forall in Hh.
       apply Hh in Hin as [Ho _]. rewrite Ho in Hor. naive_solver. }
  destruct (from_option _ false (max_generation _ _ _)) eqn:Hmax.
  { destruct (max_generation conn job d.(handoffs)) as [g|] eqn:Hg; [|done]. simpl in Hmax.
    apply max_generation_le with (i := i) in Hg; [|eapply Forall_impl; [exact Hh|naive_solver]].
    apply bool_decide_eq_true in Hmax. lia. }
  destruct (route_with_id d (route_id_of ns n)) as [[n' ρ']|]; [|done]. simplify_eq/=.
  rewrite Hfree, lookup_empty, Hconflict.
  rewrite decide_False by (intros (_ & _ & ?); lia). eexists _, _. split; [done|]. done.
Qed.

Lemma finish_rejected_again i id t d r :
  all_rejected i d →
  r.(res_server_route_id) = Some s → r.(res_local_route_key) = route_id_of ns n →
  r.(res_reservation_id) = id → r.(res_connector_id) = conn → r.(res_job_id) = job →
  r.(res_generation) = (i + 1)%N → r.(res_fencing_token) = token →
  ∃ d', finish_inner conn job (offer_handle id (i + 1)) RejectedBeforeHandoff None t
          (set_reservations (<[ρ.(coordination_key) := r]> d.(reservations)) d) = Ok d' ∧
    all_rejected (i + 1) d' ∧ length d'.(handoffs) = S (length d.(handoffs)) ∧
    d'.(version) = d.(version).
Proof.
  intros Har Hrs Hrl Hrid Hrc Hrj Hrg Hrt. assert (Hsmall := all_rejected_small _ _ Har).
  destruct Har as [Hns Hroute Hfree Hb Hh]. unfold finish_inner, validate_document. simpl.
  rewrite !lookup_insert_eq. simpl. rewrite decide_False by naive_solver. simpl.
  rewrite decide_False by naive_solver. simpl.
  match goal with |- context [record_consumed_authoritative_route r ?o ?nj t ?d1] =>
    destruct (record_consumed_authoritative_route r o nj t d1) as [d3|e] eqn:Hd3 end; cycle 1.
  { unfold record_consumed_authoritative_route in Hd3. rewrite Hrs in Hd3. cbv zeta in Hd3.
    rewrite decide_False in Hd3 by (simpl; intros [_ ?]; lia). simpl in Hd3.
    repeat case_match; done. }
  apply record_consumed_Ok in Hd3. unfold reservation_key in Hd3.
  rewrite Hrs, Hrl, Hrc, Hrj in Hd3. simpl in Hd3. simpl. eexists. split; [done|].
  assert (Hdel : delete ρ.(coordination_key) (<[ρ.(coordination_key) := r]> d.(reservations)) = ∅)
    by (by rewrite Hfree, insert_empty, delete_singleton_eq).
  assert (Hf' : ∀ h, h.(ho_outcome) = RejectedBeforeHandoff → h.(ho_fencing_generation) = (i + 1)%N →
    Forall (λ h, h.(ho_outcome) = RejectedBeforeHandoff ∧
                 (h.(ho_fencing_generation) ≤ i + 1)%N) (d.(handoffs) ++ [h])).
  { intros h Ho Hg. apply Forall_app. split; [|apply Forall_singleton; split; [done|lia]].
    eapply Forall_impl; [exact Hh|]. simpl. intros ? []. split; [done|lia]. }
  destruct Hd3 as [(old & Hold & Hle & ->)|(new & Hno & Hng & _ & _ & _ & _ & _ & -> & _)].
  { apply Hb in Hold as (_ & _ & ?). lia. }
  simpl. split; [|rewrite length_app; simpl; split; [lia|done]].
  split; simpl; [done|done|by rewrite Hdel| |by apply Hf'].
  intros k b. rewrite lookup_insert_Some. intros [[<- <-]|[_ Hk]]; [|apply Hb in Hk; naive_solver lia].
  rewrite Hno, Hng. split_and!; [done|done|lia].
Qed.

Context (id : N → Uuid) (now expires t : DateTime) (Hnow : (now < expires)%Z) (io : Io)
  (Hio : io.(fault) = NoFault).

Fixpoint rejected_offers (k : nat) (i : N) : list operation :=
  match k with
  | O => []
  | S k => OpRegister conn n job (offer (id (i + 1)) (i + 1) expires) now
           :: OpFinish conn job (offer_handle (id (i + 1)) (i + 1)) RejectedBeforeHandoff None t
           :: rejected_offers k (i + 1)
  end.

Lemma journalled_NoFault {A} (body : _ → result _ (_ * A)) c d a :
  c.(poisoned) = false → body c.(document) = Ok (d, a) →
  (journalled io body c).1 = with_disk (Some (to_vec_pretty d)) (with_document d c).
Proof.
  intros Hp Hb. unfold journalled, commit_document_change, persist. by rewrite Hp, Hb, Hio.
Qed.

Lemma reconcile_NoFault ps rev t' c :
  c.(poisoned) = false →
  (reconcile io ps rev t' c).1.(disk)
  = Some (to_vec_pretty (reconcile io ps rev t' c).1.(document)).
Proof.
  intros Hp. unfold reconcile, persist. rewrite Hp, Hio.
  by destruct (reconcile_document ps rev t' c.(document)).
Qed.

(** Every such offer succeeds and leaves one more record. *)
Lemma rejected_offers_grow k i c :
  all_rejected i c.(document) → c.(poisoned) = false →
  c.(disk) = Some (to_vec_pretty c.(document)) →
  let c' := foldl (λ c op, apply io op c) c (rejected_offers k i) in
  c'.(poisoned) = false ∧ c'.(disk) = Some (to_vec_pretty c'.(document)) ∧
  length c'.(document).(handoffs) = k + length c.(document).(handoffs) ∧
  c'.(document).(version) = c.(document).(version).
Proof.
  revert i c. induction k as [|k IH]; intros i c Har Hp Hd; [done|].
  destruct (register_rejected_again i (id (i + 1)) expires now _ Har Hnow)
    as (r & reg & Hreg & Hrs & Hrl & Hrid & Hrc & Hrj & Hrg & Hrt).
  destruct (finish_rejected_again i (id (i + 1)) t _ r Har Hrs Hrl Hrid Hrc Hrj Hrg Hrt)
    as (d' & Hfin & Har' & Hlen' & Hver).
  cbn [rejected_offers foldl apply]. unfold register_authoritative, finish.
  erewrite (journalled_NoFault (register_authoritative_inner _ _ _ _ _)); [|done|exact Hreg].
  erewrite (journalled_NoFault (λ d, no_value _)); [|done|simpl; rewrite Hfin; reflexivity].
  destruct (IH (i + 1)%N (with_disk (Some (to_vec_pretty d')) (with_document d' c)))
    as (H1 & H2 & H3 & H4); [done..|].
  split_and!; [exact H1|exact H2|etrans; [exact H3|simpl; lia]|etrans; [exact H4|exact Hver]].
Qed.
End growth.

(** * A concrete deployment *)

Module Demo.

Fixpoint last_char (s : string) : ascii :=
  match s with
  | String.EmptyString => Ascii.zero
  | String.String a String.EmptyString => a
  | String.String _ s' => last_char s'
  end.

(** A stand-in for the digest that starts with the last byte of its input. *)
Definition digest (s : string) : string := String.String (last_char s) s.

#[local] Instance demo_external : External := {|
  sha256_hex := digest;
  DriverFingerprint := string;
  driver_json := Some;
  evidence_json _ := "[]"%string;
  Uuid := N;
  uuid_bytes u := byte u;
  uuid_to_string u := byte u;
|}.

#[local] Instance demo_codec : JournalCodec := {|
  bytes := CoordinatorDocument;
  to_vec_pretty d := d;
  to_vec d := d;
  from_slice := Some;
|}.

#[local] Instance demo_laws : JournalLaws.
Proof. by split; [|intros ??]. Qed.

Definition queue_a : string := "a".
Definition queue_b : string := "b".
Definition conn : string := "connector".
Definition job : string := "job_1".
Definition uid (n : N) : Uuid := n.
Definition namespace : Uuid := uid 7.
Definition local_a : string := route_id_of namespace queue_a.

Lemma last_char_app s a : last_char (s +:+ String.String a String.EmptyString) = a.
Proof.
  induction s as [|x s IH]; [done|].
  change (last_char (String.String x (s +:+ String.String a String.EmptyString)) = a).
  rewrite <- IH at 2. by destruct s.
Qed.

(** The last byte of a queue's name follows the [rte_] of its identifier. *)
Lemma route_id_last ns s a :
  String.get 4 (route_id_of ns (s +:+ String.String a String.EmptyString)) = Some a.
Proof.
  unfold route_id_of. rewrite !string_app_assoc. simpl sha256_hex. unfold digest.
  rewrite last_char_app. done.
Qed.

Definition demo_known (n : string) : Prop := n = queue_a ∨ n = queue_b.
Definition demo_offered (c s l j : string) : Prop :=
  c = conn ∧ s = "srv"%string ∧ l = local_a ∧ j = job.

Lemma demo_known_inj ns n1 n2 :
  demo_known n1 → demo_known n2 → route_id_of ns n1 = route_id_of ns n2 → n1 = n2.
Proof.
  intros Hn1 Hn2 Heq. assert (Ha := route_id_last ns "" (Ascii.ascii_of_N 97)).
  assert (Hb := route_id_last ns "" (Ascii.ascii_of_N 98)).
  destruct Hn1 as [->| ->], Hn2 as [->| ->]; try done; exfalso; revert Ha Hb Heq;
    unfold queue_a, queue_b; simpl String.append; congruence.
Qed.

Lemma demo_offered_inj c s l j c' s' l' j' :
  demo_offered c s l j → demo_offered c' s' l' j' →
  authoritative_route_key c s l j = authoritative_route_key c' s' l' j' →
  c = c' ∧ s = s' ∧ l = l' ∧ j = j'.
Proof. unfold demo_offered. naive_solver. Qed.

#[local] Instance demo_deployment : Deployment := {|
  known := demo_known; offered := demo_offered;
  known_inj := demo_known_inj; offered_inj := demo_offered_inj;
|}.

Definition io_ok : Io := {| fault := NoFault; readable := true |}.
Definition io_lost : Io := {| fault := BeforeReplace; readable := true |}.

(** The two queues carry the same serial number: one physical printer. *)
Definition serial : PhysicalIdentityEvidence :=
  {| kind := DeviceSerial;
     value_sha256 := "0123456789abcdef0123456789abcdef0123456789abcdef0123456789abcdef";
     strength := Strong |}.
Definition printer (n : string) : DiscoveredPrinter :=
  {| native_id := n; driver_fingerprint := None; identity_evidence := [serial] |}.

Definition cloud (gen : N) : CloudRouteReservation :=
  {| cloud_route_id := "srv"; cloud_local_route_key := local_a;
     cloud_reservation_id := gen; cloud_generation := gen; cloud_fencing_token := "token";
     cloud_lease_expires_at := 1000 |}.


Definition started : RouteCoordinator :=
  get_ok (open io_ok namespace None).2
    {| document := empty_document namespace; next_observation_sequence := 0;
       reserved_observation_sequence := 0; poisoned := true; disk := None |}.

Definition run (ops : list operation) (c : RouteCoordinator) : RouteCoordinator :=
  foldl (λ c op, apply io_ok op c) c ops.

Definition discovered : list operation := [OpReconcile [printer queue_a; printer queue_b] 1 10].
Definition registered : list operation := discovered ++ [OpRegister conn queue_a job (cloud 1) 20].

(** The handle [register_authoritative] returned. *)
Definition handle : RouteReservation :=
  {| rr_local_route_key := local_a; rr_server_route_id := Some "srv"%string;
     rr_coordination_key :=
       default "" (coordination_key_for (run discovered started).(document) queue_a);
     rr_reservation_id := 1%N; rr_generation := 1; rr_fencing_token := "token" |}.

Lemma run_steps ops c :
  Forall op_ok ops → rtc step (Running c) (Running (run ops c)).
Proof.
  revert c. induction ops as [|op ops IH]; intros c Hf; [done|].
  inversion Hf; subst. eapply rtc_l; [by constructor|]. by apply IH.
Qed.

Lemma started_reachable : reachable (Running started).
Proof. apply rtc_once. by apply (StepStart io_ok namespace None (open io_ok namespace None).1). Qed.

Lemma run_reachable ops : Forall op_ok ops → reachable (Running (run ops started)).
Proof. intros Hf. unfold reachable. etrans; [exact started_reachable|by apply run_steps]. Qed.

Lemma discovered_ok : Forall op_ok discovered.
Proof.
  apply Forall_singleton. simpl. unfold demo_known.
  repeat apply Forall_cons_2; [by left|by right|apply Forall_nil_2].
Qed.

Lemma registered_ok : Forall op_ok registered.
Proof.
  apply Forall_app. split; [apply discovered_ok|].
  apply Forall_singleton. by split; [left|].
Qed.


(** ** The claims at this deployment *)

Definition c_reg : RouteCoordinator := run registered started.

Lemma c_reg_reachable : reachable (Running c_reg).
Proof. apply run_reachable, registered_ok. Qed.

Lemma c_disc_reachable : reachable (Running (run discovered started)).
Proof. apply run_reachable, discovered_ok. Qed.

Definition route_a : DurableRoute :=
  default {| route_id := ""; coordination_key := ""; coordination_conflict := true;
             native_fingerprint := ""; generation := 0; present := false;
             route_evidence := []; route_confidence := UnknownConfidence |}
    ((run discovered started).(document).(routes) !! queue_a).

Lemma routes_are_exclusive_witness :
  size c_reg.(document).(reservations) = 1 ∧
  (∀ k1 r1 k2 r2, c_reg.(document).(reservations) !! k1 = Some r1 →
     c_reg.(document).(reservations) !! k2 = Some r2 →
     r1.(res_local_route_key) = r2.(res_local_route_key) → k1 = k2).
Proof.
  split; [vm_compute; reflexivity|]. apply (routes_are_exclusive c_reg). apply c_reg_reachable.
Defined.

Definition c_disc : RouteCoordinator := run discovered started.
Definition reserved : RouteCoordinator * result CoordinatorError RouteReservation :=
  reserve io_ok conn queue_a "job_2" 5 (uid 9) (uid 9) c_disc.
Definition reserved_rr : RouteReservation := get_ok reserved.2 handle.

Lemma reserve_is_exclusive_witness :
  is_ok reserved.2 = true ∧
  ((∃ r, c_disc.(document).(reservations) !! reserved_rr.(rr_coordination_key) = Some r ∧
         r.(res_connector_id) = conn ∧ r.(res_job_id) = "job_2"%string ∧
         r.(res_reservation_id) = reserved_rr.(rr_reservation_id)) ∨
   (∀ k' r' n' ρ', c_disc.(document).(reservations) !! k' = Some r' →
      c_disc.(document).(routes) !! n' = Some ρ' →
      ρ'.(route_id) = r'.(res_local_route_key) → desired_key ρ' ≠ desired_key route_a)).
Proof.
  split; [vm_compute; reflexivity|].
  apply (reserve_is_exclusive io_ok conn queue_a "job_2" 5 (uid 9) (uid 9) c_disc reserved.1
           reserved_rr route_a);
    [apply c_disc_reachable|by left|vm_compute; reflexivity|apply ok_pair; vm_compute; reflexivity].
Defined.

Definition newly : RouteCoordinator * result CoordinatorError AuthoritativeRouteRegistration :=
  register_authoritative io_ok conn queue_a job (cloud 1) 20 c_disc.

Lemma register_is_exclusive_witness :
  is_ok newly.2 = true ∧
  ∀ k' r' n' ρ', c_disc.(document).(reservations) !! k' = Some r' →
    c_disc.(document).(routes) !! n' = Some ρ' →
    ρ'.(route_id) = r'.(res_local_route_key) → desired_key ρ' ≠ desired_key route_a.
Proof.
  split; [vm_compute; reflexivity|].
  apply (register_is_exclusive io_ok conn queue_a job (cloud 1) 20 c_disc newly.1
    (get_ok newly.2 {| reservation := handle; newly_registered := false |}) route_a);
    [apply c_disc_reachable|by left|vm_compute; reflexivity
    |apply ok_pair; vm_compute; reflexivity|vm_compute; reflexivity].
Defined.

(** The first journal write is lost, the second attempt succeeds. *)
Definition accepted : RouteCoordinator * result CoordinatorError unit :=
  finish_runtime io_lost io_ok conn job handle Accepted (Some "42"%string) 30 c_reg.
Definition acked : list operation := [OpAcknowledge conn 1].

Lemma acked_ok : Forall op_ok acked.
Proof. by apply Forall_singleton. Qed.

Lemma accepted_authority_is_final_witness :
  length (run acked accepted.1).(document).(handoffs) = 0 ∧
  is_ok (register_authoritative io_ok conn queue_a job (cloud 2) 40 (run acked accepted.1)).2 = false.
Proof.
  split; [vm_compute; reflexivity|].
  apply (accepted_authority_is_final io_lost io_ok conn job handle "srv" (Some "42"%string) 30
           c_reg accepted.1 (get_ok accepted.2 ()) (run acked accepted.1));
    [apply c_reg_reachable|reflexivity|apply (ok_pair accepted); vm_compute; reflexivity
    |apply run_steps, acked_ok].
Defined.

Definition rejected : RouteCoordinator * result CoordinatorError unit :=
  finish_runtime io_ok io_ok conn job handle RejectedBeforeHandoff None 30 c_reg.
Definition found : option DurableReservation :=
  c_reg.(document).(reservations) !! handle.(rr_coordination_key).
Definition found_r : DurableReservation :=
  default {| res_server_route_id := None; res_local_route_key := ""; res_reservation_id := uid 0;
             res_connector_id := ""; res_job_id := ""; res_generation := 0;
             res_fencing_token := ""; res_expires_unix_ms := 0 |} found.

Lemma spent_offer_stays_spent_witness :
  is_ok (register_authoritative io_ok conn queue_a job (cloud 2) 40 (run acked rejected.1)).2 = true ∧
  is_ok (register_authoritative io_ok conn queue_a job (cloud 1) 40 (run acked rejected.1)).2 = false.
Proof.
  split; [vm_compute; reflexivity|].
  apply (spent_offer_stays_spent io_ok io_ok conn job handle "srv" RejectedBeforeHandoff None 30
           c_reg rejected.1 (get_ok rejected.2 ()) (run acked rejected.1) found_r);
    [apply c_reg_reachable|reflexivity|discriminate
    |apply (some_default found); vm_compute; reflexivity
    |apply (ok_pair rejected); vm_compute; reflexivity
    |apply run_steps, acked_ok|reflexivity|vm_compute; reflexivity|vm_compute; discriminate].
Defined.

Definition reopened := open io_ok (uid 8) c_reg.(disk).
Definition c_reopened : RouteCoordinator := get_ok reopened.2 started.

Lemma restart_keeps_fences_witness :
  size c_reopened.(document).(reservations) = 1 ∧
  same_fences c_reg.(document) c_reopened.(document).
Proof.
  split; [vm_compute; reflexivity|].
  apply (restart_keeps_fences io_ok (uid 8) reopened.1 c_reg c_reopened);
    [apply c_reg_reachable|vm_compute; reflexivity|apply ok_pair; vm_compute; reflexivity].
Defined.

Definition drawn := allocate_observation_sequences io_ok 3 c_reg.
Definition reopened_drawn := open io_ok (uid 8) drawn.1.(disk).
Definition c_drawn : RouteCoordinator := get_ok reopened_drawn.2 started.
Definition drawn_again := allocate_observation_sequences io_ok 2 c_drawn.

Lemma observation_sequences_are_unique_witness :
  drawn.2 = Ok [1; 2; 3]%N ∧ drawn_again.2 = Ok [513; 514]%N ∧
  (∀ v v', v ∈ [1; 2; 3]%N → v' ∈ [513; 514]%N → (v < v')%N).
Proof.
  assert (H1 : drawn.2 = Ok [1; 2; 3]%N) by (vm_compute; reflexivity).
  assert (H2 : drawn_again.2 = Ok [513; 514]%N) by (vm_compute; reflexivity).
  split; [exact H1|]. split; [exact H2|].
  apply (observation_sequences_are_unique io_ok io_ok 3 2 c_reg drawn.1 c_drawn drawn_again.1);
    [apply c_reg_reachable|rewrite <- H1; apply surjective_pairing| |rewrite <- H2;
     apply surjective_pairing].
  eapply rtc_l; [apply StepStop|]. apply rtc_once.
  apply (StepStart io_ok (uid 8) drawn.1.(disk) reopened_drawn.1).
  apply (ok_pair reopened_drawn). vm_compute. reflexivity.
Defined.

Lemma held_reservation_can_be_closed_witness :
  ∃ c', finish io_ok conn job handle Ambiguous None 30 c_reg = (c', Ok ()).
Proof.
  apply (held_reservation_can_be_closed io_ok conn job handle found_r Ambiguous None 30 c_reg);
    [apply c_reg_reachable|reflexivity|vm_compute; reflexivity
    |apply (some_default found); vm_compute; reflexivity|vm_compute; reflexivity
    |vm_compute; reflexivity].
Defined.

Definition ambiguous := finish io_ok conn job handle Ambiguous None 30 c_reg.
Definition ambiguous_doc : CoordinatorDocument := ambiguous.1.(document).
Definition ambiguous_h : DurableHandoff :=
  {| ho_sequence := 1; ho_connector_id := conn; ho_server_route_id := Some "srv"%string;
     ho_local_route_key := local_a; ho_job_id := job; ho_reservation_id := uid 1;
     ho_fencing_generation := 1; ho_fencing_token := "token"; ho_observed_at := 30;
     ho_outcome := Ambiguous; ho_native_job_id := None |}.
Definition acknowledged := acknowledge_document conn 1 ambiguous_doc.
Definition acknowledged_doc : CoordinatorDocument := get_ok acknowledged ambiguous_doc.

Lemma acknowledged_Ok : acknowledge_document conn 1 ambiguous_doc = Ok acknowledged_doc.
Proof.
  unfold acknowledged_doc, acknowledged.
  assert (Hok : is_ok (acknowledge_document conn 1 ambiguous_doc) = true)
    by (vm_compute; reflexivity).
  by destruct (acknowledge_document conn 1 ambiguous_doc).
Qed.

Lemma ambiguous_recorded : ambiguous_h ∈ ambiguous_doc.(handoffs).
Proof. apply (bool_decide_unpack _). vm_compute. exact I. Qed.

Lemma ambiguity_needs_resolution_witness :
  ambiguous_h ∈ acknowledged_doc.(handoffs) ∨
  ∃ conn' job' l id g res h0,
    resolve_ambiguous_handoff_inner conn' job' l id g res ambiguous_doc = Ok acknowledged_doc ∧
    h0 ∈ ambiguous_doc.(handoffs) ∧ handoff_matches conn' job' l id g h0 ∧
    h0.(ho_sequence) = ambiguous_h.(ho_sequence).
Proof.
  apply (ambiguity_needs_resolution ambiguous_doc acknowledged_doc ambiguous_h);
    [apply (DocAcknowledge conn 1), acknowledged_Ok|apply ambiguous_recorded|reflexivity].
Defined.

Lemma poisoned_is_inert_witness :
  apply io_ok (OpFinish conn job handle Accepted None 30) (with_poisoned true c_reg)
  = with_poisoned true c_reg.
Proof.
  apply (poisoned_is_inert io_ok (OpFinish conn job handle Accepted None 30)
           (with_poisoned true c_reg)). reflexivity.
Defined.

Lemma route_key_preimage_injective_witness :
  authoritative_route_preimage "ab" "c" "d" "e" = authoritative_route_preimage "a" "bc" "d" "e" ↔
  "ab"%string = "a"%string ∧ "c"%string = "bc"%string ∧ "d"%string = "d"%string ∧ "e"%string = "e"%string.
Proof.
  apply (route_key_preimage_injective "ab" "c" "d" "e" "a" "bc" "d" "e").
  repeat constructor; vm_compute; discriminate.
Defined.

(** ** The journal can outgrow the bound that [open] enforces *)

Definition offers (k : nat) : list operation :=
  discovered ++ rejected_offers conn job queue_a "srv" "token" route_a namespace uid 20 1000 30 k 0.

Definition c_offers (k : nat) : RouteCoordinator := run (offers k) started.

Lemma offers_ok k : Forall op_ok (offers k).
Proof.
  apply Forall_app. split; [apply discovered_ok|]. generalize 0%N.
  induction k as [|k IH]; intros i; simpl; [by apply Forall_nil|].
  repeat apply Forall_cons_2; [|done|apply IH]. by split; [left|].
Qed.

Lemma c_disc_all_rejected :
  all_rejected conn job queue_a "srv" route_a namespace 0 c_disc.(document).
Proof.
  split; [vm_compute; reflexivity..| |].
  - intros k b Hk. exfalso. revert Hk. by vm_compute.
  - vm_compute. constructor.
Qed.

Lemma c_disc_start :
  c_disc.(poisoned) = false ∧ c_disc.(disk) = Some (to_vec_pretty c_disc.(document)) ∧
  length c_disc.(document).(handoffs) = 0 ∧ c_disc.(document).(version) = DOCUMENT_VERSION.
Proof.
  split; [vm_compute; reflexivity|]. split; [|split; vm_compute; reflexivity].
  apply (reconcile_NoFault io_ok eq_refl [printer queue_a; printer queue_b] 1 10 started eq_refl).
Qed.

Lemma c_offers_grown k :
  (c_offers k).(poisoned) = false ∧
  (c_offers k).(disk) = Some (to_vec_pretty (c_offers k).(document)) ∧
  length (c_offers k).(document).(handoffs) = k ∧
  (c_offers k).(document).(version) = DOCUMENT_VERSION.
Proof.
  unfold c_offers, run, offers. rewrite foldl_app. fold (run discovered started). fold c_disc.
  destruct c_disc_start as (Hp0 & Hd0 & Hl0 & Hv0).
  destruct (rejected_offers_grow conn job queue_a "srv" "token" route_a namespace
    ltac:(done) ltac:(done) ltac:(vm_compute; lia) ltac:(vm_compute; reflexivity)
    uid 20 1000 30 ltac:(lia) io_ok eq_refl k 0 c_disc c_disc_all_rejected Hp0 Hd0)
    as (Hp & Hd & Hl & Hv).
  split_and!; [exact Hp|exact Hd| |by rewrite Hv]. rewrite Hl, Hl0. lia.
Qed.

(** A restart can be refused.  513 cloud offers that are registered and
    rejected before any acknowledgement arrives each append a handoff record,
    because neither [register_authoritative] nor [finish] bounds the journal; every
    call succeeds and the coordinator is operational, and the next [open] on its
    own journal fails with "route coordinator state exceeds supported bounds". *)
Theorem journal_outgrows_open :
  reachable (Running (c_offers 513)) ∧ (c_offers 513).(poisoned) = false ∧
  length (c_offers 513).(document).(handoffs) = 513 ∧
  ∀ io ns, (open io ns (c_offers 513).(disk)).2 = Err StateExceedsBounds.
Proof.
  split; [apply run_reachable, offers_ok|].
  destruct (c_offers_grown 513) as (Hp & Hd & Hl & Hv).
  split; [exact Hp|]. split; [exact Hl|]. intros io ns. rewrite Hd.
  apply open_oversized; [exact Hv|]. rewrite Hl. unfold MAX_HANDOFFS. lia.
Qed.
End Demo.
