(* ===== verification/AgentStore.v ===== *)
(** The agent's durable queue (crates/agent-storage): the SQLite tables that hold
    jobs, their events, the event outbox, reconciliation schedules and cloud
    acceptance, and every transaction on them.

    A table is a finite map from its primary key, or the list of its rows in
    insertion order.  A transaction is a function that returns the new tables or an
    error; an error rolls back, so the caller keeps the old tables.  The columns
    that carry a serialized value ([printer_native_binding_json]) hold the value. *)
From S2P Require Import Prelude Domain.

(** What the store calls outside the repository: the JSON parsers of [serde_json]
    and of SQLite, and the text of the [n]-th identifier drawn from
    [EventId::new()]. *)
Class StoreExternal := {
  json_value : string → bool;
  sqlite_json_valid : string → bool;
  event_id_text : nat → string;
}.

(** * Rows *)

Record PrinterNativeBindingPin := {
  pin_process_session_id : string;
  pin_generation : N;
  pin_printer_id : string;
  pin_output_profile_id : string;
  pin_language_profile_id : string;
  pin_language : string;
  pin_language_version : string;
  pin_profile_version : string;
  pin_media_type : string;
  pin_driver_fingerprint_sha256 : string;
  pin_support_pack_digest_sha256 : string;
}.
#[export] Instance PrinterNativeBindingPin_eq_dec : EqDecision PrinterNativeBindingPin.
Proof. solve_decision. Defined.

Record AcceptedJob := {
  aj_job_id : string;
  aj_submission_id : string;
  aj_printer_id : string;
  aj_printer_native_id : string;
  aj_title : string;
  aj_content_sha256 : string;
  aj_content_path : string;
  aj_content_kind : string;
  aj_options_json : string;
  aj_expires_unix_ms : option Z;
  aj_accepted_unix_ms : Z;
  aj_cloud_managed : bool;
}.

Record JobPersistenceFacts := {
  fx_route_connector_id : option string;
  fx_target_id : option string;
  fx_binding_id : option string;
  fx_profile_id : option string;
  fx_profile_revision : option N;
  fx_stock_id : option string;
  fx_loaded_media_snapshot_json : option string;
  fx_profile_snapshot_json : option string;
  fx_printer_native_binding : option PrinterNativeBindingPin;
}.

Definition default_facts : JobPersistenceFacts :=
  {| fx_route_connector_id := None; fx_target_id := None; fx_binding_id := None;
     fx_profile_id := None; fx_profile_revision := None; fx_stock_id := None;
     fx_loaded_media_snapshot_json := None; fx_profile_snapshot_json := None;
     fx_printer_native_binding := None |}.

Record LocalJob := {
  job_id : string;
  submission_id : string;
  printer_id : string;
  printer_native_id : string;
  printer_sequence : Z;
  title : string;
  content_sha256 : string;
  content_path : string;
  content_kind : string;
  options_json : string;
  state : string;
  expires_unix_ms : option Z;
  native_job_id : option string;
  target_id : option string;
  binding_id : option string;
  profile_id : option string;
  profile_revision : option N;
  stock_id : option string;
  loaded_media_snapshot_json : option string;
  cloud_managed : bool;
  profile_snapshot_json : option string;
  printer_native_binding : option PrinterNativeBindingPin;
  route_connector_id : option string;
}.

(** The columns of [jobs] that an update changes. *)
Definition with_columns (st : string) (native : option string) (owner : option string)
    (j : LocalJob) : LocalJob :=
  {| job_id := j.(job_id); submission_id := j.(submission_id); printer_id := j.(printer_id);
     printer_native_id := j.(printer_native_id); printer_sequence := j.(printer_sequence);
     title := j.(title); content_sha256 := j.(content_sha256); content_path := j.(content_path);
     content_kind := j.(content_kind); options_json := j.(options_json); state := st;
     expires_unix_ms := j.(expires_unix_ms); native_job_id := native;
     target_id := j.(target_id); binding_id := j.(binding_id); profile_id := j.(profile_id);
     profile_revision := j.(profile_revision); stock_id := j.(stock_id);
     loaded_media_snapshot_json := j.(loaded_media_snapshot_json);
     cloud_managed := j.(cloud_managed); profile_snapshot_json := j.(profile_snapshot_json);
     printer_native_binding := j.(printer_native_binding); route_connector_id := owner |}.

Definition with_state (st : string) (j : LocalJob) : LocalJob :=
  with_columns st j.(native_job_id) j.(route_connector_id) j.

(** A row of [jobs]. *)
Record JobRow := {
  row_job : LocalJob;
  next_attempt_unix_ms : option Z;
  attempt_count : N;
  accepted_unix_ms : Z;
  updated_unix_ms : Z;
  confidential : bool;
}.

Definition row_state (r : JobRow) : string := r.(row_job).(state).

(** [SET state = .., updated_unix_ms = ..] and nothing else. *)
Definition set_state (st : string) (t : Z) (r : JobRow) : JobRow :=
  {| row_job := with_state st r.(row_job); next_attempt_unix_ms := r.(next_attempt_unix_ms);
     attempt_count := r.(attempt_count); accepted_unix_ms := r.(accepted_unix_ms);
     updated_unix_ms := t; confidential := r.(confidential) |}.

(** A retryable failure: [state], [next_attempt_unix_ms], [attempt_count + 1]. *)
Definition set_retry (st : string) (next t : Z) (r : JobRow) : JobRow :=
  {| row_job := with_state st r.(row_job); next_attempt_unix_ms := Some next;
     attempt_count := r.(attempt_count) + 1; accepted_unix_ms := r.(accepted_unix_ms);
     updated_unix_ms := t; confidential := r.(confidential) |}.

Definition set_native (native : string) (st : string) (t : Z) (r : JobRow) : JobRow :=
  {| row_job := with_columns st (Some native) r.(row_job).(route_connector_id) r.(row_job);
     next_attempt_unix_ms := r.(next_attempt_unix_ms); attempt_count := r.(attempt_count);
     accepted_unix_ms := r.(accepted_unix_ms); updated_unix_ms := t;
     confidential := r.(confidential) |}.

(** A new authoritative attempt: [state], [route_connector_id], no retry deadline. *)
Definition set_attempt (st : string) (owner : option string) (t : Z) (r : JobRow) : JobRow :=
  {| row_job := with_columns st r.(row_job).(native_job_id) owner r.(row_job);
     next_attempt_unix_ms := None; attempt_count := r.(attempt_count);
     accepted_unix_ms := r.(accepted_unix_ms); updated_unix_ms := t;
     confidential := r.(confidential) |}.

Record EventRow := {
  ev_event_id : string;
  ev_job_id : string;
  ev_job_sequence : Z;
  ev_state : string;
  ev_reason : option string;
  ev_message : option string;
  ev_details_json : string;
  ev_observed_unix_ms : Z;
}.

Record OutboxRow := {
  ob_sequence : Z;
  ob_event : EventRow;
  ob_acknowledged_unix_ms : option Z;
}.

Record ReconciliationRow := {
  rc_next_observe_unix_ms : Z;
  rc_uncertainty_deadline_unix_ms : Z;
  rc_attempt_count : N;
  rc_last_native_state : option string;
  rc_last_error_code : option string;
  rc_cancel_requested : bool;
}.

Record ReconciliationItem := {
  item_job : LocalJob;
  item_next_observe_unix_ms : Z;
  item_uncertainty_deadline_unix_ms : Z;
  item_attempt_count : N;
  item_cancel_requested : bool;
}.

Record ObservationRow := {
  obs_observation_id : string;
  obs_job_id : string;
  obs_native_job_id : string;
  obs_state : string;
  obs_authority : string;
  obs_details_json : string;
  obs_observed_unix_ms : Z;
}.

Record CloudRouteProof := {
  proof_reservation_id : string;
  proof_generation : N;
  proof_fencing_token : string;
}.

Record CloudAcceptIntent := {
  in_lease_id : string;
  in_lease_token : string;
  in_lease_expires_unix_ms : Z;
  in_content_sha256 : string;
  in_local_sequence : Z;
  in_route_reservation_id : option string;
  in_route_generation : option Z;
  in_route_fencing_token : option string;
  in_remote_accept_confirmed : bool;
  in_prepared_unix_ms : Z;
}.

Record CloudReleaseCleanup := {
  cl_lease_id : string;
  cl_lease_token : string;
  cl_reason : string;
  cl_quarantined_unix_ms : Z;
}.

Record ContentRow := {
  cf_path : string;
  cf_reference_count : N;
  cf_verified_unix_ms : Z;
  cf_reclaiming : bool;
}.

(** The columns of [printer_profiles] and [profile_native_blobs] that admission and
    execution read. *)
Record ProfileRow := {
  prof_printer_id : string;
  prof_deleted : bool;
  prof_native_kind : string;
  prof_native_blob_id : option string;
  prof_native_digest : option string;
  prof_driver_fingerprint_json : string;
  prof_safe_overrides_json : string;
}.

Record NativeBlobRow := {
  blob_id : string;
  blob_native_kind : string;
  blob_schema_version : N;
  blob_digest : string;
  blob_native_blob : string;
}.

Record ResolutionRow := { rs_job_id : string; rs_resolution : string }.

Record QueueCounts := { queued : N; active : N }.

(** * Tables *)

Record AgentStore := {
  jobs : gmap string JobRow;
  job_events : list EventRow;
  event_outbox : list OutboxRow;
  next_outbox_sequence : Z;
  job_reconciliation : gmap string ReconciliationRow;
  native_observations : list ObservationRow;
  local_handoff_resolutions : gmap string ResolutionRow;
  cloud_route_proofs : gmap string CloudRouteProof;
  cloud_accept_intents : gmap string CloudAcceptIntent;
  cloud_release_cleanups : gmap string CloudReleaseCleanup;
  printer_sequences : gmap string Z;
  inbox_receipts : gset string;
  content_files : gmap string ContentRow;
  printer_profiles : gmap (string * N) ProfileRow;
  profile_native_blobs : gmap (string * N) NativeBlobRow;
  executor_crashes : N;
  last_runtime_error_code : option string;
}.

Definition empty_store : AgentStore :=
  {| jobs := ∅; job_events := []; event_outbox := []; next_outbox_sequence := 1;
     job_reconciliation := ∅; native_observations := []; local_handoff_resolutions := ∅;
     cloud_route_proofs := ∅; cloud_accept_intents := ∅; cloud_release_cleanups := ∅;
     printer_sequences := ∅; inbox_receipts := ∅; content_files := ∅; printer_profiles := ∅; profile_native_blobs := ∅;
     executor_crashes := 0; last_runtime_error_code := None |}.

Inductive StorageError :=
  | Sql
  | Json
  | JobConflict (job_id : string)
  | JobNotFound (job_id : string)
  | EventSequence (job_id : string) (expected actual : Z)
  | InvalidLocalEvent
  | InvalidPrinterProfile
  | ContentReclaimInProgress (sha256 : string).

(** ** Writing one table *)

Definition set_jobs (v : gmap string JobRow) (s : AgentStore) : AgentStore :=
  {| jobs := v; job_events := s.(job_events); event_outbox := s.(event_outbox);
     next_outbox_sequence := s.(next_outbox_sequence);
     job_reconciliation := s.(job_reconciliation);
     native_observations := s.(native_observations);
     local_handoff_resolutions := s.(local_handoff_resolutions);
     cloud_route_proofs := s.(cloud_route_proofs);
     cloud_accept_intents := s.(cloud_accept_intents);
     cloud_release_cleanups := s.(cloud_release_cleanups);
     printer_sequences := s.(printer_sequences); inbox_receipts := s.(inbox_receipts);
     content_files := s.(content_files); printer_profiles := s.(printer_profiles);
     profile_native_blobs := s.(profile_native_blobs);
     executor_crashes := s.(executor_crashes);
     last_runtime_error_code := s.(last_runtime_error_code) |}.
Definition set_events (evs : list EventRow) (obx : list OutboxRow) (next : Z) (s : AgentStore) : AgentStore :=
  {| jobs := s.(jobs); job_events := evs; event_outbox := obx; next_outbox_sequence := next;
     job_reconciliation := s.(job_reconciliation);
     native_observations := s.(native_observations);
     local_handoff_resolutions := s.(local_handoff_resolutions);
     cloud_route_proofs := s.(cloud_route_proofs);
     cloud_accept_intents := s.(cloud_accept_intents);
     cloud_release_cleanups := s.(cloud_release_cleanups);
     printer_sequences := s.(printer_sequences); inbox_receipts := s.(inbox_receipts);
     content_files := s.(content_files); printer_profiles := s.(printer_profiles);
     profile_native_blobs := s.(profile_native_blobs);
     executor_crashes := s.(executor_crashes);
     last_runtime_error_code := s.(last_runtime_error_code) |}.
Definition set_outbox (v : list OutboxRow) (s : AgentStore) : AgentStore :=
  {| jobs := s.(jobs); job_events := s.(job_events); event_outbox := v;
     next_outbox_sequence := s.(next_outbox_sequence);
     job_reconciliation := s.(job_reconciliation);
     native_observations := s.(native_observations);
     local_handoff_resolutions := s.(local_handoff_resolutions);
     cloud_route_proofs := s.(cloud_route_proofs);
     cloud_accept_intents := s.(cloud_accept_intents);
     cloud_release_cleanups := s.(cloud_release_cleanups);
     printer_sequences := s.(printer_sequences); inbox_receipts := s.(inbox_receipts);
     content_files := s.(content_files); printer_profiles := s.(printer_profiles);
     profile_native_blobs := s.(profile_native_blobs);
     executor_crashes := s.(executor_crashes);
     last_runtime_error_code := s.(last_runtime_error_code) |}.
Definition set_reconciliation (v : gmap string ReconciliationRow) (s : AgentStore) : AgentStore :=
  {| jobs := s.(jobs); job_events := s.(job_events); event_outbox := s.(event_outbox);
     next_outbox_sequence := s.(next_outbox_sequence); job_reconciliation := v;
     native_observations := s.(native_observations);
     local_handoff_resolutions := s.(local_handoff_resolutions);
     cloud_route_proofs := s.(cloud_route_proofs);
     cloud_accept_intents := s.(cloud_accept_intents);
     cloud_release_cleanups := s.(cloud_release_cleanups);
     printer_sequences := s.(printer_sequences); inbox_receipts := s.(inbox_receipts);
     content_files := s.(content_files); printer_profiles := s.(printer_profiles);
     profile_native_blobs := s.(profile_native_blobs);
     executor_crashes := s.(executor_crashes);
     last_runtime_error_code := s.(last_runtime_error_code) |}.
Definition set_observations (v : list ObservationRow) (s : AgentStore) : AgentStore :=
  {| jobs := s.(jobs); job_events := s.(job_events); event_outbox := s.(event_outbox);
     next_outbox_sequence := s.(next_outbox_sequence);
     job_reconciliation := s.(job_reconciliation); native_observations := v;
     local_handoff_resolutions := s.(local_handoff_resolutions);
     cloud_route_proofs := s.(cloud_route_proofs);
     cloud_accept_intents := s.(cloud_accept_intents);
     cloud_release_cleanups := s.(cloud_release_cleanups);
     printer_sequences := s.(printer_sequences); inbox_receipts := s.(inbox_receipts);
     content_files := s.(content_files); printer_profiles := s.(printer_profiles);
     profile_native_blobs := s.(profile_native_blobs);
     executor_crashes := s.(executor_crashes);
     last_runtime_error_code := s.(last_runtime_error_code) |}.
Definition set_resolutions (v : gmap string ResolutionRow) (s : AgentStore) : AgentStore :=
  {| jobs := s.(jobs); job_events := s.(job_events); event_outbox := s.(event_outbox);
     next_outbox_sequence := s.(next_outbox_sequence);
     job_reconciliation := s.(job_reconciliation);
     native_observations := s.(native_observations); local_handoff_resolutions := v;
     cloud_route_proofs := s.(cloud_route_proofs);
     cloud_accept_intents := s.(cloud_accept_intents);
     cloud_release_cleanups := s.(cloud_release_cleanups);
     printer_sequences := s.(printer_sequences); inbox_receipts := s.(inbox_receipts);
     content_files := s.(content_files); printer_profiles := s.(printer_profiles);
     profile_native_blobs := s.(profile_native_blobs);
     executor_crashes := s.(executor_crashes);
     last_runtime_error_code := s.(last_runtime_error_code) |}.
Definition set_proofs (v : gmap string CloudRouteProof) (s : AgentStore) : AgentStore :=
  {| jobs := s.(jobs); job_events := s.(job_events); event_outbox := s.(event_outbox);
     next_outbox_sequence := s.(next_outbox_sequence);
     job_reconciliation := s.(job_reconciliation);
     native_observations := s.(native_observations);
     local_handoff_resolutions := s.(local_handoff_resolutions); cloud_route_proofs := v;
     cloud_accept_intents := s.(cloud_accept_intents);
     cloud_release_cleanups := s.(cloud_release_cleanups);
     printer_sequences := s.(printer_sequences); inbox_receipts := s.(inbox_receipts);
     content_files := s.(content_files); printer_profiles := s.(printer_profiles);
     profile_native_blobs := s.(profile_native_blobs);
     executor_crashes := s.(executor_crashes);
     last_runtime_error_code := s.(last_runtime_error_code) |}.
Definition set_intents (v : gmap string CloudAcceptIntent) (s : AgentStore) : AgentStore :=
  {| jobs := s.(jobs); job_events := s.(job_events); event_outbox := s.(event_outbox);
     next_outbox_sequence := s.(next_outbox_sequence);
     job_reconciliation := s.(job_reconciliation);
     native_observations := s.(native_observations);
     local_handoff_resolutions := s.(local_handoff_resolutions);
     cloud_route_proofs := s.(cloud_route_proofs); cloud_accept_intents := v;
     cloud_release_cleanups := s.(cloud_release_cleanups);
     printer_sequences := s.(printer_sequences); inbox_receipts := s.(inbox_receipts);
     content_files := s.(content_files); printer_profiles := s.(printer_profiles);
     profile_native_blobs := s.(profile_native_blobs);
     executor_crashes := s.(executor_crashes);
     last_runtime_error_code := s.(last_runtime_error_code) |}.
Definition set_cleanups (v : gmap string CloudReleaseCleanup) (s : AgentStore) : AgentStore :=
  {| jobs := s.(jobs); job_events := s.(job_events); event_outbox := s.(event_outbox);
     next_outbox_sequence := s.(next_outbox_sequence);
     job_reconciliation := s.(job_reconciliation);
     native_observations := s.(native_observations);
     local_handoff_resolutions := s.(local_handoff_resolutions);
     cloud_route_proofs := s.(cloud_route_proofs);
     cloud_accept_intents := s.(cloud_accept_intents); cloud_release_cleanups := v;
     printer_sequences := s.(printer_sequences); inbox_receipts := s.(inbox_receipts);
     content_files := s.(content_files); printer_profiles := s.(printer_profiles);
     profile_native_blobs := s.(profile_native_blobs);
     executor_crashes := s.(executor_crashes);
     last_runtime_error_code := s.(last_runtime_error_code) |}.
Definition set_intake (seqs : gmap string Z) (receipts : gset string) (content : gmap string ContentRow) (s : AgentStore) : AgentStore :=
  {| jobs := s.(jobs); job_events := s.(job_events); event_outbox := s.(event_outbox);
     next_outbox_sequence := s.(next_outbox_sequence);
     job_reconciliation := s.(job_reconciliation);
     native_observations := s.(native_observations);
     local_handoff_resolutions := s.(local_handoff_resolutions);
     cloud_route_proofs := s.(cloud_route_proofs);
     cloud_accept_intents := s.(cloud_accept_intents);
     cloud_release_cleanups := s.(cloud_release_cleanups); printer_sequences := seqs;
     inbox_receipts := receipts; content_files := content; printer_profiles := s.(printer_profiles);
     profile_native_blobs := s.(profile_native_blobs);
     executor_crashes := s.(executor_crashes);
     last_runtime_error_code := s.(last_runtime_error_code) |}.
Definition set_health (crashes : N) (code : string) (s : AgentStore) : AgentStore :=
  {| jobs := s.(jobs); job_events := s.(job_events); event_outbox := s.(event_outbox);
     next_outbox_sequence := s.(next_outbox_sequence);
     job_reconciliation := s.(job_reconciliation);
     native_observations := s.(native_observations);
     local_handoff_resolutions := s.(local_handoff_resolutions);
     cloud_route_proofs := s.(cloud_route_proofs);
     cloud_accept_intents := s.(cloud_accept_intents);
     cloud_release_cleanups := s.(cloud_release_cleanups);
     printer_sequences := s.(printer_sequences); inbox_receipts := s.(inbox_receipts);
     content_files := s.(content_files); printer_profiles := s.(printer_profiles);
     profile_native_blobs := s.(profile_native_blobs);
     executor_crashes := crashes; last_runtime_error_code := Some code |}.

(** * Statements shared by the transactions *)

#[local] Open Scope Z_scope.

Section store.
Context `{StoreExternal}.
Implicit Types (s : AgentStore).

(** [SELECT COALESCE(MAX(job_sequence), 0) + 1 FROM job_events WHERE job_id = ..]. *)
Definition max_sequence (job : string) (l : list EventRow) : Z :=
  foldr (λ e m, if decide (e.(ev_job_id) = job) then Z.max e.(ev_job_sequence) m else m) 0 l.
Definition next_sequence (job : string) s : Z := max_sequence job s.(job_events) + 1.

(** The two inserts, with the constraints of schema.sql: the foreign key to [jobs],
    the primary key [event_id], [UNIQUE (job_id, job_sequence)] and
    [CHECK (json_valid(details_json))]. *)
Definition append_event_tx (event_id job : string) (sequence : Z) (st : string)
    (reason message : option string) (details : string) (t : Z) s :
    result StorageError AgentStore :=
  if decide (s.(jobs) !! job = None) then Err Sql else
  if decide (Exists (λ e, e.(ev_event_id) = event_id ∨
                          (e.(ev_job_id) = job ∧ e.(ev_job_sequence) = sequence)) s.(job_events))
  then Err Sql else
  if negb (sqlite_json_valid details) then Err Sql else
  let e := {| ev_event_id := event_id; ev_job_id := job; ev_job_sequence := sequence;
              ev_state := st; ev_reason := reason; ev_message := message;
              ev_details_json := details; ev_observed_unix_ms := t |} in
  Ok (set_events (s.(job_events) ++ [e])
        (s.(event_outbox) ++ [{| ob_sequence := s.(next_outbox_sequence); ob_event := e;
                                 ob_acknowledged_unix_ms := None |}])
        (s.(next_outbox_sequence) + 1) s).

(** [UPDATE jobs SET .. WHERE job_id = .. AND ..], [None] when no row changed. *)
Definition update_job (job : string) (guard : JobRow → bool) (f : JobRow → JobRow) s :
    option AgentStore :=
  match s.(jobs) !! job with
  | Some r => if guard r then Some (set_jobs (<[job := f r]> s.(jobs)) s) else None
  | None => None
  end.

Definition query_job (job : string) s : option LocalJob := row_job <$> s.(jobs) !! job.

Definition state_in (l : list string) (r : JobRow) : bool := bool_decide (row_state r ∈ l).
Definition is_cloud (r : JobRow) : bool := r.(row_job).(cloud_managed).

(** An event at the next sequence and a guarded update of the row, in one
    transaction. *)
Definition append_and_update (event_id job st : string) (reason message : option string)
    (details : string) (t : Z) (guard : JobRow → bool) (f : JobRow → JobRow)
    (error : StorageError) s : result StorageError AgentStore :=
  s1 ← append_event_tx event_id job (next_sequence job s) st reason message details t s;
  ok_or (update_job job guard f s1) error.

(** ** Events *)

Definition append_event (event_id job : string) (expected : Z) (st : string)
    (reason message : option string) (details : string) (t : Z) s :
    result StorageError AgentStore :=
  if negb (json_value details) then Err Json else
  let actual := next_sequence job s in
  if decide (expected ≠ actual) then Err (EventSequence job expected actual) else
  s1 ← append_event_tx event_id job expected st reason message details t s;
  ok_or (update_job job (λ _, true) (set_state st t) s1) (JobNotFound job).

(** ** Native handoff *)

Definition upsert_reconciliation (job : string) (next deadline : Z) s : AgentStore :=
  let row := match s.(job_reconciliation) !! job with
             | Some r => {| rc_next_observe_unix_ms := next;
                            rc_uncertainty_deadline_unix_ms := deadline;
                            rc_attempt_count := r.(rc_attempt_count);
                            rc_last_native_state := r.(rc_last_native_state);
                            rc_last_error_code := r.(rc_last_error_code);
                            rc_cancel_requested := r.(rc_cancel_requested) |}
             | None => {| rc_next_observe_unix_ms := next;
                          rc_uncertainty_deadline_unix_ms := deadline;
                          rc_attempt_count := 0; rc_last_native_state := None;
                          rc_last_error_code := None; rc_cancel_requested := false |}
             end in
  set_reconciliation (<[job := row]> s.(job_reconciliation)) s.

Definition delete_proof (job : string) s : AgentStore :=
  set_proofs (delete job s.(cloud_route_proofs)) s.

Definition record_native_acceptance (event_id job native details : string)
    (t next_observe deadline : Z) s : result StorageError AgentStore :=
  if negb (json_value details) then Err Json else
  s1 ← append_and_update event_id job "accepted_by_spooler" None
         (Some "Operating system accepted the job"%string) details t
         (state_in ["spool_intent"%string])
         (set_native native "accepted_by_spooler" t) (JobNotFound job) s;
  Ok (delete_proof job (upsert_reconciliation job next_observe deadline s1)).

Definition schedule_native_reconciliation (job native : string) (next_observe deadline : Z) s :
    result StorageError AgentStore :=
  s1 ← ok_or (update_job job (λ _, true)
                (λ r, set_native native (row_state r) next_observe r) s) (JobNotFound job);
  Ok (delete_proof job (upsert_reconciliation job next_observe deadline s1)).

Definition set_native_job_id (job native : string) (t : Z) s : result StorageError AgentStore :=
  ok_or (update_job job (λ _, true) (λ r, set_native native (row_state r) t r) s)
    (JobNotFound job).

Definition record_local_retryable_failure (event_id job reason message details : string)
    (t next_attempt : Z) s : result StorageError AgentStore :=
  if negb (json_value details) then Err Json else
  append_and_update event_id job "failed_retryable" (Some reason) (Some message) details t
    (λ r, state_in ["spool_intent"%string] r && negb (is_cloud r))
    (set_retry "failed_retryable" next_attempt t) InvalidLocalEvent s.

Definition record_local_handoff_uncertainty (event_id job : string) (t : Z) s :
    result StorageError AgentStore :=
  append_and_update event_id job "delivery_uncertain" (Some "ambiguous_handoff"%string)
    (Some "Native handoff outcome is uncertain after restart"%string) "{}" t
    (λ r, state_in ["spool_intent"%string] r && negb (is_cloud r))
    (set_state "delivery_uncertain" t) InvalidLocalEvent s.

Definition record_cloud_handoff_recovery (event_id job st reason message : string) (t : Z) s :
    result StorageError AgentStore :=
  if negb (bool_decide (st ∈ ["failed_retryable"%string; "delivery_uncertain"%string]))
  then Err InvalidLocalEvent else
  s1 ← append_and_update event_id job st (Some reason) (Some message) "{}" t
         (λ r, state_in ["spool_intent"%string] r && is_cloud r) (set_state st t)
         InvalidLocalEvent s;
  Ok (if decide (st = "failed_retryable"%string) then delete_proof job s1 else s1).

(** ** Resolution of an uncertain handoff *)

Definition LOCAL_HANDOFF_RELEASE_FOR_RETRY : string := "release_for_retry".
Definition LOCAL_HANDOFF_CONFIRM_ACCEPTED : string := "confirm_accepted".

(** [SELECT resolution .. WHERE job_id = .. AND ambiguity_id = ..]. *)
Definition local_handoff_resolution (job ambiguity : string) s : option string :=
  r ← s.(local_handoff_resolutions) !! ambiguity;
  if decide (r.(rs_job_id) = job) then Some r.(rs_resolution) else None.

(** The insert fails when the ambiguity is resolved under another job. *)
Definition insert_resolution (ambiguity job resolution : string) s :
    result StorageError AgentStore :=
  if decide (s.(local_handoff_resolutions) !! ambiguity = None)
  then Ok (set_resolutions (<[ambiguity := {| rs_job_id := job; rs_resolution := resolution |}]>
             s.(local_handoff_resolutions)) s)
  else Err Sql.

Definition release_uncertain_local_handoff_for_retry (event_id job ambiguity : string)
    (t next_attempt : Z) s : result StorageError AgentStore :=
  match local_handoff_resolution job ambiguity s with
  | Some existing =>
    if decide (existing = LOCAL_HANDOFF_RELEASE_FOR_RETRY) then Ok s else Err InvalidLocalEvent
  | None =>
    s1 ← append_and_update event_id job "failed_retryable"
           (Some "ambiguous_handoff_released"%string)
           (Some "Local operator released the uncertain handoff for retry"%string) "{}" t
           (λ r, negb (is_cloud r) && state_in ["delivery_uncertain"%string] r)
           (set_retry "failed_retryable" next_attempt t) InvalidLocalEvent s;
    insert_resolution ambiguity job LOCAL_HANDOFF_RELEASE_FOR_RETRY s1
  end.

Definition confirm_uncertain_local_handoff_accepted (event_id job ambiguity : string)
    (t : Z) s : result StorageError AgentStore :=
  match local_handoff_resolution job ambiguity s with
  | Some existing =>
    if decide (existing = LOCAL_HANDOFF_CONFIRM_ACCEPTED) then Ok s else Err InvalidLocalEvent
  | None =>
    s1 ← append_and_update event_id job "delivery_uncertain"
           (Some "ambiguous_handoff_confirmed"%string)
           (Some "Local operator confirmed native acceptance"%string) "{}" t
           (λ r, negb (is_cloud r) && state_in ["delivery_uncertain"%string] r)
           (λ r, set_state (row_state r) t r) InvalidLocalEvent s;
    insert_resolution ambiguity job LOCAL_HANDOFF_CONFIRM_ACCEPTED s1
  end.

Definition release_uncertain_cloud_handoff_for_retry (event_id job : string) (t : Z) s :
    result StorageError AgentStore :=
  if from_option (λ r, is_cloud r && state_in ["failed_retryable"%string] r) false (s.(jobs) !! job)
  then Ok s else
  s1 ← append_and_update event_id job "failed_retryable"
         (Some "ambiguous_handoff_released"%string)
         (Some "Authority released the uncertain handoff for a fresh offer"%string) "{}" t
         (λ r, is_cloud r && state_in ["delivery_uncertain"%string] r)
         (set_state "failed_retryable" t) InvalidLocalEvent s;
  Ok (delete_proof job s1).

Definition finalize_uncertain_cloud_handoff_recovery (job : string) s :
    result StorageError AgentStore :=
  let uncertain := from_option (λ r, is_cloud r && state_in ["delivery_uncertain"%string] r) false
                     (s.(jobs) !! job) in
  if uncertain then Ok (delete_proof job s) else Err InvalidLocalEvent.

(** ** Reconciliation *)

Definition clamp (lo hi n : nat) : nat := Nat.max lo (Nat.min hi n).

(** Rows in an [ORDER BY (number, text)]. *)
Definition order_leb (a b : Z * string) : bool :=
  (a.1 <? b.1) || ((a.1 =? b.1) && bool_decide (String.le a.2 b.2)).

Definition native_states : list string :=
  ["accepted_by_spooler"; "spooling"; "printing"; "blocked"; "cancel_requested"]%string.

Definition reconciliation_items s : list ReconciliationItem :=
  omap (λ kr,
    r ← s.(jobs) !! kr.1;
    Some {| item_job := r.(row_job);
            item_next_observe_unix_ms := kr.2.(rc_next_observe_unix_ms);
            item_uncertainty_deadline_unix_ms := kr.2.(rc_uncertainty_deadline_unix_ms);
            item_attempt_count := kr.2.(rc_attempt_count);
            item_cancel_requested := kr.2.(rc_cancel_requested) |})
    (btree_entries s.(job_reconciliation)).

Definition due_reconciliations (now : Z) (limit : nat) s : list ReconciliationItem :=
  take (clamp 1 100 limit)
    (sort_by (λ a b, order_leb (a.(item_next_observe_unix_ms), a.(item_job).(job_id))
                               (b.(item_next_observe_unix_ms), b.(item_job).(job_id)))
       (filter (λ i, i.(item_next_observe_unix_ms) ≤ now ∧
                     i.(item_job).(state) ∈ native_states) (reconciliation_items s))).

Definition record_reconciliation_attempt (observation_id job native native_state authority details : string)
    (error_code : option string) (t next_observe : Z) s : result StorageError AgentStore :=
  if negb (json_value details) then Err Json else
  if decide (s.(jobs) !! job = None ∨ sqlite_json_valid details = false ∨
             Exists (λ o, o.(obs_observation_id) = observation_id) s.(native_observations))
  then Err Sql else
  let s1 := set_observations (s.(native_observations) ++
              [{| obs_observation_id := observation_id; obs_job_id := job;
                  obs_native_job_id := native; obs_state := native_state;
                  obs_authority := authority; obs_details_json := details;
                  obs_observed_unix_ms := t |}]) s in
  match s1.(job_reconciliation) !! job with
  | None => Err (JobNotFound job)
  | Some r =>
    Ok (set_reconciliation
          (<[job := {| rc_next_observe_unix_ms := next_observe;
                       rc_uncertainty_deadline_unix_ms := r.(rc_uncertainty_deadline_unix_ms);
                       rc_attempt_count := r.(rc_attempt_count) + 1;
                       rc_last_native_state := Some native_state;
                       rc_last_error_code := error_code;
                       rc_cancel_requested := false |}]> s1.(job_reconciliation)) s1)
  end.

Definition finish_reconciliation (job : string) s : AgentStore :=
  set_reconciliation (delete job s.(job_reconciliation)) s.

(** [UPDATE job_reconciliation SET cancel_requested = 1, ..]. *)
Definition mark_cancel (job : string) (t : Z) s : AgentStore :=
  set_reconciliation
    (alter (λ r, {| rc_next_observe_unix_ms := t;
                    rc_uncertainty_deadline_unix_ms := r.(rc_uncertainty_deadline_unix_ms);
                    rc_attempt_count := r.(rc_attempt_count);
                    rc_last_native_state := r.(rc_last_native_state);
                    rc_last_error_code := r.(rc_last_error_code);
                    rc_cancel_requested := true |}) job s.(job_reconciliation)) s.

(** ** Runtime health *)

Definition record_executor_failure (code : string) s : AgentStore :=
  set_health (u64_saturating_add s.(executor_crashes)
                (if String.eqb code "executor_crashed" then 1 else 0)) code s.

Definition failure_health s : N * option string :=
  (s.(executor_crashes), s.(last_runtime_error_code)).

(** ** The outbox *)

Definition pending_events (after : Z) (limit : nat) s : list OutboxRow :=
  take (clamp 1 500 limit)
    (filter (λ o, o.(ob_acknowledged_unix_ms) = None ∧ after < o.(ob_sequence)) s.(event_outbox)).

Definition cloud_event s (o : OutboxRow) : bool :=
  from_option is_cloud false (s.(jobs) !! o.(ob_event).(ev_job_id)).

Definition pending_cloud_events (after : Z) (limit : nat) s : list OutboxRow :=
  take (clamp 1 500 limit)
    (filter (λ o, cloud_event s o = true ∧ o.(ob_acknowledged_unix_ms) = None ∧
                  after < o.(ob_sequence)) s.(event_outbox)).

Definition latest_pending_cloud_event_sequence s : Z :=
  foldr (λ o m, Z.max o.(ob_sequence) m) 0
    (filter (λ o, cloud_event s o = true ∧ o.(ob_acknowledged_unix_ms) = None) s.(event_outbox)).

Definition acknowledge_row (t : Z) (guard : OutboxRow → bool) (o : OutboxRow) : OutboxRow :=
  if guard o && bool_decide (o.(ob_acknowledged_unix_ms) = None)
  then {| ob_sequence := o.(ob_sequence); ob_event := o.(ob_event);
          ob_acknowledged_unix_ms := Some t |}
  else o.

Definition acknowledge_where (t : Z) (guard : OutboxRow → bool) s : AgentStore * nat :=
  (set_outbox (acknowledge_row t guard <$> s.(event_outbox)) s,
   length (filter (λ o, guard o = true ∧ o.(ob_acknowledged_unix_ms) = None) s.(event_outbox))).

Definition acknowledge_events (through t : Z) s : AgentStore * nat :=
  acknowledge_where t (λ o, o.(ob_sequence) <=? through) s.

Definition acknowledge_cloud_event (event_id : string) (t : Z) s :
    result StorageError (AgentStore * nat) :=
  match find_first (λ o, o.(ob_event).(ev_event_id) = event_id) s.(event_outbox) with
  | None => Err (JobNotFound ("event:" +:+ event_id))
  | Some o0 =>
    Ok (acknowledge_where t (λ o, (o.(ob_sequence) <=? o0.(ob_sequence)) && cloud_event s o) s)
  end.

(** ** Validation of a job and of the facts pinned with it *)

Definition MAX_NATIVE_PROFILE_BLOB_BYTES : N := 1024 * 1024.

(** [char::is_control] on UTF-8 bytes: U+0000-001F, U+007F, and U+0080-009F, whose
    encoding is [C2] and a continuation byte. *)
Fixpoint any_control (text : string) : bool :=
  match text with
  | EmptyString => false
  | String a rest =>
    let c := N_of_ascii a in
    (c <? 32)%N || (c =? 127)%N
    || ((c =? 194)%N && match rest with
                        | String b _ => (N_of_ascii b <? 160)%N
                        | EmptyString => false
                        end)
    || any_control rest
  end.

Definition invalid_connector (value : string) : bool :=
  String.eqb value "" || (128 <? String.length value)%nat || any_control value.

Definition is_sha256_hex (value : string) : bool :=
  (String.length value =? 64)%nat &&
  bytes_all (λ a, let c := N_of_ascii a in
                  ((48 <=? c) && (c <=? 57))%N || ((97 <=? c) && (c <=? 102))%N) value.

Definition valid_snapshot (encoded : option string) : result StorageError unit :=
  match encoded with
  | None => Ok ()
  | Some text =>
    if (MAX_NATIVE_PROFILE_BLOB_BYTES * 2 <? N.of_nat (String.length text))%N
    then Err InvalidLocalEvent else
    if json_value text then Ok () else Err Json
  end.

Definition valid_pin (pin : PrinterNativeBindingPin) : bool :=
  negb (pin.(pin_generation) =? 0)%N &&
  forallb (λ v, negb (String.eqb v "") && (String.length v <=? 512)%nat)
    [pin.(pin_process_session_id); pin.(pin_printer_id); pin.(pin_output_profile_id);
     pin.(pin_language_profile_id); pin.(pin_language); pin.(pin_language_version);
     pin.(pin_profile_version); pin.(pin_media_type)] &&
  is_sha256_hex pin.(pin_driver_fingerprint_sha256) &&
  is_sha256_hex pin.(pin_support_pack_digest_sha256).

Definition validate_job_persistence_facts (facts : JobPersistenceFacts) :
    result StorageError unit :=
  if from_option invalid_connector false facts.(fx_route_connector_id)
  then Err InvalidLocalEvent else
  if negb (eqb (bool_decide (is_Some facts.(fx_profile_id)))
               (bool_decide (is_Some facts.(fx_profile_revision))))
  then Err InvalidLocalEvent else
  if decide (is_Some facts.(fx_profile_snapshot_json) ∧ facts.(fx_profile_id) = None)
  then Err InvalidLocalEvent else
  _ ← valid_snapshot facts.(fx_loaded_media_snapshot_json);
  _ ← valid_snapshot facts.(fx_profile_snapshot_json);
  if negb (from_option valid_pin true facts.(fx_printer_native_binding))
  then Err InvalidLocalEvent else Ok ().

Definition validate_job_native_binding (job : AcceptedJob) (facts : JobPersistenceFacts) :
    result StorageError unit :=
  match facts.(fx_printer_native_binding) with
  | Some pin => if decide (pin.(pin_printer_id) = job.(aj_printer_id))
                then Ok () else Err InvalidLocalEvent
  | None => Ok ()
  end.

(** A [u64] column beyond [i64::MAX] has no SQLite representation. *)
Definition storable (n : option N) : bool := from_option (λ n, Z.of_N n <=? i64_max) true n.

Definition validate_profile_fact_tx (facts : JobPersistenceFacts) s : result StorageError unit :=
  match facts.(fx_profile_id), facts.(fx_profile_revision) with
  | Some profile, Some revision =>
    if decide (is_Some facts.(fx_profile_snapshot_json)) then Ok () else
    if negb (storable (Some revision)) then Err Sql else
    if from_option (λ p, negb p.(prof_deleted)) false (s.(printer_profiles) !! (profile, revision))
    then Ok () else Err InvalidPrinterProfile
  | _, _ => Ok ()
  end.

(** The columns that [pin_job_profile] writes. *)
Definition set_pins (target binding : option string) (profile : string) (revision : N)
    (stock media : option string) (r : JobRow) : JobRow :=
  let j := r.(row_job) in
  {| row_job :=
       {| job_id := j.(job_id); submission_id := j.(submission_id); printer_id := j.(printer_id);
          printer_native_id := j.(printer_native_id); printer_sequence := j.(printer_sequence);
          title := j.(title); content_sha256 := j.(content_sha256);
          content_path := j.(content_path); content_kind := j.(content_kind);
          options_json := j.(options_json); state := j.(state);
          expires_unix_ms := j.(expires_unix_ms); native_job_id := j.(native_job_id);
          target_id := target; binding_id := binding; profile_id := Some profile;
          profile_revision := Some revision; stock_id := stock;
          loaded_media_snapshot_json := media; cloud_managed := j.(cloud_managed);
          profile_snapshot_json := j.(profile_snapshot_json);
          printer_native_binding := j.(printer_native_binding);
          route_connector_id := j.(route_connector_id) |};
     next_attempt_unix_ms := r.(next_attempt_unix_ms); attempt_count := r.(attempt_count);
     accepted_unix_ms := r.(accepted_unix_ms); updated_unix_ms := r.(updated_unix_ms);
     confidential := r.(confidential) |}.

(** [profile_id IS NULL OR (profile_id = ?4 AND profile_revision = ?5)]. *)
Definition pinnable (profile : string) (revision : N) (r : JobRow) : bool :=
  match r.(row_job).(profile_id) with
  | None => true
  | Some pinned =>
    String.eqb pinned profile && bool_decide (r.(row_job).(profile_revision) = Some revision)
  end.

Definition pin_job_profile (job : string) (target binding : option string) (profile : string)
    (revision : N) (stock media : option string) s : result StorageError AgentStore :=
  if negb (from_option json_value true media) then Err Json else
  if negb (storable (Some revision)) then Err Sql else
  if negb (from_option (λ p, negb p.(prof_deleted)) false
             (s.(printer_profiles) !! (profile, revision))) then Err InvalidPrinterProfile else
  match s.(jobs) !! job with
  | None => Err (JobNotFound job)
  | Some r =>
    if negb (pinnable profile revision r) then Err (JobConflict job) else
    if negb (from_option sqlite_json_valid true media) then Err Sql else
    Ok (set_jobs (<[job := set_pins target binding profile revision stock media r]> s.(jobs)) s)
  end.

Definition accepted_job_matches (existing : LocalJob) (offered : AcceptedJob) : bool :=
  bool_decide (existing.(submission_id) = offered.(aj_submission_id)) &&
  bool_decide (existing.(printer_id) = offered.(aj_printer_id)) &&
  bool_decide (existing.(printer_native_id) = offered.(aj_printer_native_id)) &&
  bool_decide (existing.(title) = offered.(aj_title)) &&
  bool_decide (existing.(content_sha256) = offered.(aj_content_sha256)) &&
  bool_decide (existing.(content_kind) = offered.(aj_content_kind)) &&
  bool_decide (existing.(options_json) = offered.(aj_options_json)) &&
  bool_decide (existing.(expires_unix_ms) = offered.(aj_expires_unix_ms)) &&
  eqb existing.(cloud_managed) offered.(aj_cloud_managed).

Definition job_persistence_facts_match_without_route_owner (existing : LocalJob)
    (facts : JobPersistenceFacts) : bool :=
  bool_decide (existing.(target_id) = facts.(fx_target_id)) &&
  bool_decide (existing.(binding_id) = facts.(fx_binding_id)) &&
  bool_decide (existing.(profile_id) = facts.(fx_profile_id)) &&
  bool_decide (existing.(profile_revision) = facts.(fx_profile_revision)) &&
  bool_decide (existing.(stock_id) = facts.(fx_stock_id)) &&
  bool_decide (existing.(loaded_media_snapshot_json) = facts.(fx_loaded_media_snapshot_json)) &&
  bool_decide (existing.(profile_snapshot_json) = facts.(fx_profile_snapshot_json)) &&
  bool_decide (existing.(printer_native_binding) = facts.(fx_printer_native_binding)).

Definition job_persistence_facts_match (existing : LocalJob) (facts : JobPersistenceFacts) :
    bool :=
  bool_decide (existing.(route_connector_id) = facts.(fx_route_connector_id)) &&
  job_persistence_facts_match_without_route_owner existing facts.

(** ** Acceptance *)

(** The row an accepted job inserts. *)
Definition new_row (job : AcceptedJob) (facts : JobPersistenceFacts) (sequence : Z)
    (st : string) (is_confidential : bool) : JobRow :=
  {| row_job :=
       {| job_id := job.(aj_job_id); submission_id := job.(aj_submission_id);
          printer_id := job.(aj_printer_id); printer_native_id := job.(aj_printer_native_id);
          printer_sequence := sequence; title := job.(aj_title);
          content_sha256 := job.(aj_content_sha256); content_path := job.(aj_content_path);
          content_kind := job.(aj_content_kind); options_json := job.(aj_options_json);
          state := st; expires_unix_ms := job.(aj_expires_unix_ms); native_job_id := None;
          target_id := facts.(fx_target_id); binding_id := facts.(fx_binding_id);
          profile_id := facts.(fx_profile_id); profile_revision := facts.(fx_profile_revision);
          stock_id := facts.(fx_stock_id);
          loaded_media_snapshot_json := facts.(fx_loaded_media_snapshot_json);
          cloud_managed := job.(aj_cloud_managed);
          profile_snapshot_json := facts.(fx_profile_snapshot_json);
          printer_native_binding := facts.(fx_printer_native_binding);
          route_connector_id := facts.(fx_route_connector_id) |};
     next_attempt_unix_ms := None; attempt_count := 0;
     accepted_unix_ms := job.(aj_accepted_unix_ms); updated_unix_ms := job.(aj_accepted_unix_ms);
     confidential := is_confidential |}.

(** The constraints of the [jobs] table on an inserted row. *)
Definition row_constraints (r : JobRow) s : bool :=
  let j := r.(row_job) in
  bool_decide (s.(jobs) !! j.(job_id) = None) &&
  bool_decide (j.(content_kind) ∈ ["pdf"%string; "raw"%string]) &&
  sqlite_json_valid j.(options_json) &&
  from_option sqlite_json_valid true j.(loaded_media_snapshot_json) &&
  from_option sqlite_json_valid true j.(profile_snapshot_json) &&
  storable j.(profile_revision) &&
  forallb (λ kr, negb (bool_decide (kr.2.(row_job).(printer_id) = j.(printer_id)) &&
                       (kr.2.(row_job).(printer_sequence) =? j.(printer_sequence))))
    (map_to_list s.(jobs)).

(** The content's row with one more reference; a content file that is being reclaimed
    cannot be referenced. *)
Definition reference_content (job : AcceptedJob) s : result StorageError ContentRow :=
  match s.(content_files) !! job.(aj_content_sha256) with
  | Some c =>
    if c.(cf_reclaiming) then Err (ContentReclaimInProgress job.(aj_content_sha256))
    else Ok {| cf_path := c.(cf_path); cf_reference_count := c.(cf_reference_count) + 1;
               cf_verified_unix_ms := c.(cf_verified_unix_ms); cf_reclaiming := false |}
  | None => Ok {| cf_path := job.(aj_content_path); cf_reference_count := 1;
                  cf_verified_unix_ms := job.(aj_accepted_unix_ms); cf_reclaiming := false |}
  end.

(** The inserts that [accept_job_with_facts] and [prepare_cloud_job_with_facts] share:
    the printer's sequence, the receipt, the content reference and the job. *)
Definition insert_job (job : AcceptedJob) (facts : JobPersistenceFacts) (st : string)
    (is_confidential : bool) s : result StorageError AgentStore :=
  let sequence := default 1 (s.(printer_sequences) !! job.(aj_printer_id)) in
  if decide (job.(aj_job_id) ∈ s.(inbox_receipts)) then Err Sql else
  content ← reference_content job s;
  let s1 := set_intake (<[job.(aj_printer_id) := sequence + 1]> s.(printer_sequences))
              ({[job.(aj_job_id)]} ∪ s.(inbox_receipts))
              (<[job.(aj_content_sha256) := content]> s.(content_files)) s in
  let row := new_row job facts sequence st is_confidential in
  if row_constraints row s1
  then Ok (set_jobs (<[job.(aj_job_id) := row]> s1.(jobs)) s1) else Err Sql.

Definition accept_job_with_facts (event_id : string) (job : AcceptedJob)
    (facts : JobPersistenceFacts) s : result StorageError (AgentStore * LocalJob) :=
  _ ← validate_job_persistence_facts facts;
  _ ← validate_job_native_binding job facts;
  match query_job job.(aj_job_id) s with
  | Some existing =>
    if accepted_job_matches existing job && job_persistence_facts_match existing facts
    then Ok (s, existing) else Err (JobConflict job.(aj_job_id))
  | None =>
    _ ← validate_profile_fact_tx facts s;
    s1 ← insert_job job facts "queued_local" false s;
    s2 ← append_event_tx event_id job.(aj_job_id) 1 "queued_local" None
           (Some "Job is durable in the local queue"%string) "{}" job.(aj_accepted_unix_ms) s1;
    local ← ok_or (query_job job.(aj_job_id) s2) (JobNotFound job.(aj_job_id));
    Ok (s2, local)
  end.

Definition accept_job (event_id : string) (job : AcceptedJob) s :
    result StorageError (AgentStore * LocalJob) :=
  accept_job_with_facts event_id job default_facts s.

(** ** Cloud acceptance *)

(** [constant_time_str_eq]: no early exit on the first differing byte. *)
Fixpoint bytes_difference (l r : string) (difference : N) : N :=
  match l, r with
  | String a l, String b r =>
    bytes_difference l r (N.lor difference (N.lxor (N_of_ascii a) (N_of_ascii b)))
  | _, _ => difference
  end.
Definition constant_time_str_eq (l r : string) : bool :=
  (String.length l =? String.length r)%nat && (bytes_difference l r 0 =? 0)%N.

Definition route_proof (i : CloudAcceptIntent) : option CloudRouteProof :=
  reservation ← i.(in_route_reservation_id);
  generation ← i.(in_route_generation);
  token ← i.(in_route_fencing_token);
  if negb (String.eqb reservation "") && (0 <? generation) && negb (String.eqb token "")
  then Some {| proof_reservation_id := reservation; proof_generation := Z.to_N generation;
               proof_fencing_token := token |}
  else None.

Definition cloud_route_proof_matches (l r : CloudRouteProof) : bool :=
  constant_time_str_eq l.(proof_reservation_id) r.(proof_reservation_id) &&
  (l.(proof_generation) =? r.(proof_generation))%N &&
  constant_time_str_eq l.(proof_fencing_token) r.(proof_fencing_token).

Definition cloud_accept_evidence_matches (i : CloudAcceptIntent) (job : LocalJob)
    (lease_id lease_token : string) (route : CloudRouteProof) : bool :=
  constant_time_str_eq i.(in_lease_id) lease_id &&
  constant_time_str_eq i.(in_lease_token) lease_token &&
  constant_time_str_eq i.(in_content_sha256) job.(content_sha256) &&
  (job.(printer_sequence) =? i.(in_local_sequence)) &&
  from_option (λ v, constant_time_str_eq v route.(proof_reservation_id)) false
    i.(in_route_reservation_id) &&
  bool_decide (i.(in_route_generation) = Some (Z.of_N route.(proof_generation))) &&
  from_option (λ v, constant_time_str_eq v route.(proof_fencing_token)) false
    i.(in_route_fencing_token).

(** A negative column has no [u64] value: the read fails. *)
Definition row_to_cloud_accept_intent (i : CloudAcceptIntent) :
    result StorageError CloudAcceptIntent :=
  if (i.(in_local_sequence) <? 0) || from_option (λ g, g <? 0) false i.(in_route_generation)
  then Err Sql else Ok i.

Definition query_cloud_accept_intent (job : string) s :
    result StorageError (option CloudAcceptIntent) :=
  match s.(cloud_accept_intents) !! job with
  | None => Ok None
  | Some i => i ← row_to_cloud_accept_intent i; Ok (Some i)
  end.

Definition upsert_cloud_accept_intent (job : LocalJob) (lease_id lease_token : string)
    (lease_expires : Z) (route : CloudRouteProof) (prepared : Z) s :
    result StorageError AgentStore :=
  existing ← query_cloud_accept_intent job.(job_id) s;
  if from_option (λ i, i.(in_remote_accept_confirmed) &&
                       negb (cloud_accept_evidence_matches i job lease_id lease_token route))
       false existing
  then Err (JobConflict job.(job_id)) else
  if negb (storable (Some route.(proof_generation))) then Err InvalidLocalEvent else
  if job.(printer_sequence) <=? 0 then Err Sql else
  Ok (set_intents
        (<[job.(job_id) :=
             {| in_lease_id := lease_id; in_lease_token := lease_token;
                in_lease_expires_unix_ms := lease_expires;
                in_content_sha256 := job.(content_sha256);
                in_local_sequence := job.(printer_sequence);
                in_route_reservation_id := Some route.(proof_reservation_id);
                in_route_generation := Some (Z.of_N route.(proof_generation));
                in_route_fencing_token := Some route.(proof_fencing_token);
                in_remote_accept_confirmed :=
                  from_option in_remote_accept_confirmed false existing;
                in_prepared_unix_ms := prepared |}]> s.(cloud_accept_intents)) s).

Definition upsert_cloud_route_proof (job : string) (route : CloudRouteProof) s :
    result StorageError AgentStore :=
  if negb (storable (Some route.(proof_generation))) then Err InvalidLocalEvent else
  Ok (set_proofs (<[job := route]> s.(cloud_route_proofs)) s).

Definition cloud_route_proof (job : string) s : option CloudRouteProof :=
  s.(cloud_route_proofs) !! job.

(** [Path::file_name] with [/] as the separator: the last component that is neither
    empty nor [.], when it is not [..]. *)
Fixpoint path_components (path current : string) : list string :=
  match path with
  | EmptyString => [current]
  | String a rest =>
    if (N_of_ascii a =? 47)%N then current :: path_components rest ""
    else path_components rest (current +:+ String a "")
  end.
Definition file_name (path : string) : option string :=
  name ← last (filter (λ c, c ≠ ""%string ∧ c ≠ "."%string) (path_components path ""));
  if String.eqb name ".." then None else Some name.

Definition is_confidential_path (path : string) : bool :=
  from_option (String.prefix "confidential-") false (file_name path).

Definition same_cloud_job (existing : LocalJob) (job : AcceptedJob)
    (facts : JobPersistenceFacts) : bool :=
  accepted_job_matches existing job &&
  job_persistence_facts_match_without_route_owner existing facts &&
  (bool_decide (existing.(route_connector_id) = facts.(fx_route_connector_id)) ||
   bool_decide (existing.(route_connector_id) = None) ||
   String.eqb existing.(state) "failed_retryable").

Definition attempt_states : list string := ["cloud_accept_pending"; "failed_retryable"]%string.

(** The branch of [prepare_cloud_job_with_facts] for a job that is already stored. *)
Definition prepare_existing (existing : LocalJob) (job : AcceptedJob)
    (lease_id lease_token : string) (lease_expires : Z) (route : CloudRouteProof)
    (facts : JobPersistenceFacts) s : result StorageError (AgentStore * LocalJob) :=
  let id := job.(aj_job_id) in
  if negb (same_cloud_job existing job facts) then Err (JobConflict id) else
  if negb (bool_decide (existing.(state) ∈ attempt_states)) then
    if from_option (λ p, cloud_route_proof_matches p route) false (cloud_route_proof id s)
    then Ok (s, existing) else Err InvalidLocalEvent
  else
  let t := job.(aj_accepted_unix_ms) in
  s1 ← ok_or (update_job id (λ r, state_in attempt_states r && is_cloud r)
                (set_attempt "cloud_accept_pending" facts.(fx_route_connector_id) t) s)
         InvalidLocalEvent;
  let pending := with_columns "cloud_accept_pending" existing.(native_job_id)
                   facts.(fx_route_connector_id) existing in
  let s2 := if String.eqb existing.(state) "failed_retryable"
            then set_intents (delete id s1.(cloud_accept_intents)) s1 else s1 in
  s3 ← upsert_cloud_accept_intent pending lease_id lease_token lease_expires route t s2;
  s4 ← upsert_cloud_route_proof id route s3;
  Ok (s4, pending).

Definition prepare_cloud_job_with_facts (job : AcceptedJob) (lease_id lease_token : string)
    (lease_expires : Z) (route : CloudRouteProof) (facts : JobPersistenceFacts) s :
    result StorageError (AgentStore * LocalJob) :=
  let id := job.(aj_job_id) in
  _ ← validate_job_persistence_facts facts;
  _ ← validate_job_native_binding job facts;
  if negb job.(aj_cloud_managed) || String.eqb lease_token ""
     || String.eqb route.(proof_reservation_id) "" || (route.(proof_generation) =? 0)%N
     || String.eqb route.(proof_fencing_token) ""
  then Err InvalidLocalEvent else
  match query_job id s with
  | Some existing => prepare_existing existing job lease_id lease_token lease_expires route facts s
  | None =>
    _ ← validate_profile_fact_tx facts s;
    s1 ← insert_job job facts "cloud_accept_pending" (is_confidential_path job.(aj_content_path)) s;
    local ← ok_or (query_job id s1) (JobNotFound id);
    s2 ← upsert_cloud_accept_intent local lease_id lease_token lease_expires route
           job.(aj_accepted_unix_ms) s1;
    s3 ← upsert_cloud_route_proof id route s2;
    Ok (s3, local)
  end.

Definition prepare_cloud_job (job : AcceptedJob) (lease_id lease_token : string)
    (lease_expires : Z) (route : CloudRouteProof) s :
    result StorageError (AgentStore * LocalJob) :=
  prepare_cloud_job_with_facts job lease_id lease_token lease_expires route default_facts s.

(** [SELECT .. FROM cloud_accept_intents ORDER BY prepared_unix_ms, job_id]. *)
Definition ordered_intents s : list (string * CloudAcceptIntent) :=
  sort_by (λ a b, order_leb (a.2.(in_prepared_unix_ms), a.1) (b.2.(in_prepared_unix_ms), b.1))
    (map_to_list s.(cloud_accept_intents)).

Definition pending_cloud_accepts s : result StorageError (list (string * CloudAcceptIntent)) :=
  foldr (λ ki acc, i ← row_to_cloud_accept_intent ki.2; l ← acc; Ok ((ki.1, i) :: l))
    (Ok []) (ordered_intents s).

Definition confirm_intent (t : Z) (i : CloudAcceptIntent) : CloudAcceptIntent :=
  {| in_lease_id := i.(in_lease_id); in_lease_token := i.(in_lease_token);
     in_lease_expires_unix_ms := i.(in_lease_expires_unix_ms);
     in_content_sha256 := i.(in_content_sha256); in_local_sequence := i.(in_local_sequence);
     in_route_reservation_id := i.(in_route_reservation_id);
     in_route_generation := i.(in_route_generation);
     in_route_fencing_token := i.(in_route_fencing_token);
     in_remote_accept_confirmed := true; in_prepared_unix_ms := t |}.

Definition confirm_cloud_accept (job : string) (t : Z) s : result StorageError AgentStore :=
  match s.(cloud_accept_intents) !! job with
  | Some i => Ok (set_intents (<[job := confirm_intent t i]> s.(cloud_accept_intents)) s)
  | None => Err InvalidLocalEvent
  end.

(** [INSERT .. ON CONFLICT(job_id) DO NOTHING], the delete of the intent, and
    [UPDATE jobs SET state = 'cancelled' .. AND state = 'cloud_accept_pending']. *)
Definition quarantine (job : string) (i : CloudAcceptIntent) (reason : string) (t : Z) s :
    AgentStore :=
  let cleanup := {| cl_lease_id := i.(in_lease_id); cl_lease_token := i.(in_lease_token);
                    cl_reason := reason; cl_quarantined_unix_ms := t |} in
  let s1 := set_cleanups (match s.(cloud_release_cleanups) !! job with
                          | Some _ => s.(cloud_release_cleanups)
                          | None => <[job := cleanup]> s.(cloud_release_cleanups)
                          end) s in
  let s2 := set_intents (delete job s1.(cloud_accept_intents)) s1 in
  default s2 (update_job job (state_in ["cloud_accept_pending"%string])
                (set_state "cancelled" t) s2).

(** An intent without a complete route proof. *)
Definition proofless (i : CloudAcceptIntent) : bool :=
  from_option (λ v, String.eqb v "") true i.(in_route_reservation_id) ||
  from_option (λ g, g <=? 0) true i.(in_route_generation) ||
  from_option (λ v, String.eqb v "") true i.(in_route_fencing_token).

Definition quarantine_batch (t : Z) (rows : list (string * CloudAcceptIntent)) s : AgentStore :=
  foldl (λ s ki, quarantine ki.1 ki.2 "route_reservation_required" t s) s rows.

(** The [loop]: every round removes at least one intent, so the number of intents
    bounds the rounds. *)
Fixpoint quarantine_loop (fuel : nat) (t : Z) s : option AgentStore :=
  match fuel with
  | O => None
  | S fuel =>
    match take 256 (filter (λ ki, proofless ki.2 = true) (ordered_intents s)) with
    | [] => Some s
    | rows => quarantine_loop fuel t (quarantine_batch t rows s)
    end
  end.

Definition pending_cloud_release_cleanups s : list (string * CloudReleaseCleanup) :=
  take 256 (sort_by (λ a b, order_leb (a.2.(cl_quarantined_unix_ms), a.1)
                                      (b.2.(cl_quarantined_unix_ms), b.1))
              (map_to_list s.(cloud_release_cleanups))).

Definition quarantine_invalid_cloud_accepts (t : Z) s :
    option (AgentStore * list (string * CloudReleaseCleanup)) :=
  s1 ← quarantine_loop (S (size s.(cloud_accept_intents))) t s;
  Some (s1, pending_cloud_release_cleanups s1).

Definition quarantine_prepared_cloud_accept (job reason : string) (t : Z) s :
    result StorageError (AgentStore * option CloudReleaseCleanup) :=
  if String.eqb reason "" || (128 <? String.length reason)%nat then Err InvalidLocalEvent else
  match s.(cloud_accept_intents) !! job with
  | Some i =>
    if i.(in_remote_accept_confirmed) then Ok (s, None) else
    Ok (quarantine job i reason t s,
        Some {| cl_lease_id := i.(in_lease_id); cl_lease_token := i.(in_lease_token);
                cl_reason := reason; cl_quarantined_unix_ms := t |})
  | None => Ok (s, None)
  end.

Definition complete_cloud_release_cleanup (job : string) s : AgentStore :=
  set_cleanups (delete job s.(cloud_release_cleanups)) s.
Definition complete_all_cloud_release_cleanups s : AgentStore := set_cleanups ∅ s.

Definition activate_cloud_job (event_id job : string) (t : Z) s :
    result StorageError (AgentStore * LocalJob) :=
  current ← ok_or (query_job job s) (JobNotFound job);
  if String.eqb current.(state) "queued_local" then Ok (s, current) else
  if negb (String.eqb current.(state) "cloud_accept_pending") then Err InvalidLocalEvent else
  if negb (from_option in_remote_accept_confirmed false (s.(cloud_accept_intents) !! job))
  then Err InvalidLocalEvent else
  s1 ← ok_or (update_job job (λ _, true) (set_state "queued_local" t) s) (JobNotFound job);
  s2 ← append_event_tx event_id job (next_sequence job s1) "queued_local" None
         (Some "Job is durable in the local queue"%string) "{}" t s1;
  let s3 := set_intents (delete job s2.(cloud_accept_intents)) s2 in
  local ← ok_or (query_job job s3) (JobNotFound job);
  Ok (s3, local).

Definition abandon_cloud_accept (job : string) (t : Z) s : result StorageError AgentStore :=
  current ← ok_or (query_job job s) (JobNotFound job);
  if String.eqb current.(state) "cancelled" then Ok s else
  if negb (String.eqb current.(state) "cloud_accept_pending") then Err InvalidLocalEvent else
  let s1 := delete_proof job s in
  let s2 := set_intents (delete job s1.(cloud_accept_intents)) s1 in
  ok_or (update_job job (λ _, true) (set_state "cancelled" t) s2) (JobNotFound job).

Definition set_owner (owner : string) (t : Z) (r : JobRow) : JobRow :=
  {| row_job := with_columns (row_state r) r.(row_job).(native_job_id) (Some owner) r.(row_job);
     next_attempt_unix_ms := r.(next_attempt_unix_ms); attempt_count := r.(attempt_count);
     accepted_unix_ms := r.(accepted_unix_ms); updated_unix_ms := t;
     confidential := r.(confidential) |}.

Definition backfill_cloud_route_owner (job connector : string) (t : Z) s :
    result StorageError AgentStore :=
  if invalid_connector connector then Err InvalidLocalEvent else
  match update_job job (λ r, is_cloud r && bool_decide (r.(row_job).(route_connector_id) = None))
          (set_owner connector t) s with
  | Some s1 => Ok s1
  | None =>
    if from_option (λ j, j.(cloud_managed) &&
                         bool_decide (j.(route_connector_id) = Some connector))
         false (query_job job s)
    then Ok s else Err InvalidLocalEvent
  end.

(** ** Queries over the queue *)

(** The rows of [jobs] as a [SELECT] scans them: by primary key. *)
Definition job_rows s : list JobRow := btree_values s.(jobs).

Definition by_acceptance (a b : JobRow) : bool :=
  order_leb (a.(accepted_unix_ms), a.(row_job).(job_id)) (b.(accepted_unix_ms), b.(row_job).(job_id)).

Definition has_queued_work s : bool :=
  existsb (state_in ["queued_local"; "failed_retryable"; "preparing"; "rendering"; "spool_intent";
                     "accepted_by_spooler"; "spooling"; "printing"]%string) (job_rows s).

Definition count_states (states : list string) (rows : list JobRow) : N :=
  N.of_nat (length (filter (λ r, row_state r ∈ states) rows)).

Definition queued_states : list string := ["queued_local"; "failed_retryable"]%string.
Definition active_states : list string :=
  ["preparing"; "rendering"; "spool_intent"; "accepted_by_spooler"; "spooling"; "printing"]%string.

Definition queue_counts s : QueueCounts :=
  {| queued := count_states queued_states (job_rows s);
     active := count_states active_states (job_rows s) |}.

Definition printer_queue_counts (printer : string) s : QueueCounts :=
  let rows := filter (λ r, r.(row_job).(printer_id) = printer) (job_rows s) in
  {| queued := count_states queued_states rows;
     active := count_states (active_states ++ ["blocked"%string]) rows |}.

Definition jobs_for_printer (printer : string) (limit : nat) s : list LocalJob :=
  row_job <$> take (clamp 1 500 limit)
    (sort_by (λ a b, b.(row_job).(printer_sequence) <=? a.(row_job).(printer_sequence))
       (filter (λ r, r.(row_job).(printer_id) = printer) (job_rows s))).

Definition i32_max : N := 2147483647.
Definition local_job_history (offset : N) (limit : nat) s : list LocalJob :=
  row_job <$> take (clamp 1 200 limit)
    (drop (N.to_nat (N.min offset i32_max)) (reverse (sort_by by_acceptance (job_rows s)))).

(** The inventory queries read 513 rows and refuse more than 512. *)
Definition inventory (rows : list JobRow) : result StorageError (list LocalJob) :=
  let found := take 513 (sort_by by_acceptance rows) in
  if (512 <? length found)%nat then Err InvalidLocalEvent else Ok (row_job <$> found).

Definition cloud_jobs_missing_route_owner s : result StorageError (list LocalJob) :=
  inventory (filter (λ r, is_cloud r = true ∧ r.(row_job).(route_connector_id) = None ∧
    row_state r ∈ ["cloud_accept_pending"; "queued_local"; "preparing"; "rendering";
                   "spool_intent"; "failed_retryable"]%string) (job_rows s)).

Definition cloud_handoff_recovery_candidates s : result StorageError (list LocalJob) :=
  inventory (filter (λ r, is_Some (cloud_route_proof r.(row_job).(job_id) s) ∧ is_cloud r = true ∧
    row_state r ∈ ["spool_intent"; "delivery_uncertain"]%string) (job_rows s)).

Definition named_profile_revision (printer profile : string) (revision : N) s :
    result StorageError (option ProfileRow) :=
  if negb (storable (Some revision)) then Err Sql else
  Ok (p ← s.(printer_profiles) !! (profile, revision);
      if decide (p.(prof_printer_id) = printer) then Some p else None).

Definition native_profile_blob (profile : string) (revision : N) s :
    result StorageError (option NativeBlobRow) :=
  if negb (storable (Some revision)) then Err Sql else
  Ok (s.(profile_native_blobs) !! (profile, revision)).

(** A job that may become the head of its printer's queue. *)
Definition runnable (r : JobRow) : bool :=
  (String.eqb (row_state r) "queued_local"
   || (String.eqb (row_state r) "failed_retryable" && negb (is_cloud r))) &&
  (negb (is_cloud r) || bool_decide (is_Some r.(row_job).(route_connector_id))).

(** [SELECT MIN(head.printer_sequence) ..]. *)
Definition min_sequence (rows : list JobRow) : option Z :=
  foldr (λ r m, Some (from_option (Z.min r.(row_job).(printer_sequence))
                        r.(row_job).(printer_sequence) m)) None rows.

Definition is_head (now : Z) s (r : JobRow) : bool :=
  let same := filter (λ o, o.(row_job).(printer_id) = r.(row_job).(printer_id)) (job_rows s) in
  runnable r &&
  from_option (λ t, t <=? now) true r.(next_attempt_unix_ms) &&
  from_option (λ t, now <? t) true r.(row_job).(expires_unix_ms) &&
  negb (existsb (state_in active_states) same) &&
  bool_decide (min_sequence (filter (λ o, runnable o = true) same)
               = Some r.(row_job).(printer_sequence)).

Definition runnable_heads (now : Z) s : list LocalJob :=
  row_job <$> sort_by by_acceptance (filter (λ r, is_head now s r = true) (job_rows s)).

(** ** Content retention *)

Definition terminal_names : list string :=
  ["completed_reported"; "failed_terminal"; "cancelled"; "expired"]%string.

(** A job that still needs the content: delivery-uncertain jobs do. *)
Definition retains (sha256 path : string) (r : JobRow) : bool :=
  bool_decide (r.(row_job).(content_sha256) = sha256) &&
  bool_decide (r.(row_job).(content_path) = path) &&
  negb (bool_decide (row_state r ∈ terminal_names)).
Definition retained (sha256 path : string) s : bool :=
  existsb (retains sha256 path) (job_rows s).

Definition set_reclaiming (v : bool) (c : ContentRow) : ContentRow :=
  {| cf_path := c.(cf_path); cf_reference_count := c.(cf_reference_count);
     cf_verified_unix_ms := c.(cf_verified_unix_ms); cf_reclaiming := v |}.

Definition set_content (v : gmap string ContentRow) s : AgentStore :=
  set_intake s.(printer_sequences) s.(inbox_receipts) v s.

(** [UPDATE content_files SET reclaiming = .. WHERE sha256 = .. AND path = .. AND
    reclaiming = ..]. *)
Definition update_reclaiming (sha256 path : string) (old new : bool) s : AgentStore :=
  match s.(content_files) !! sha256 with
  | Some c => if decide (c.(cf_path) = path ∧ c.(cf_reclaiming) = old)
              then set_content (<[sha256 := set_reclaiming new c]> s.(content_files)) s else s
  | None => s
  end.

Definition reclaim_candidates (limit : nat) s : list (string * string) :=
  (λ kc, (kc.1, kc.2.(cf_path))) <$>
    take (clamp 1 256 limit)
      (sort_by (λ a b, order_leb (a.2.(cf_verified_unix_ms), a.1) (b.2.(cf_verified_unix_ms), b.1))
         (filter (λ kc, kc.2.(cf_reclaiming) = false ∧ retained kc.1 kc.2.(cf_path) s = false)
            (map_to_list s.(content_files)))).

(** Nothing is written between the query and the updates, so every candidate is
    claimed. *)
Definition claim_reclaimable_terminal_content (limit : nat) s :
    AgentStore * list (string * string) :=
  let candidates := reclaim_candidates limit s in
  (foldl (λ s c, if retained c.1 c.2 s then s else update_reclaiming c.1 c.2 false true s)
     s candidates,
   filter (λ c, retained c.1 c.2 s = false) candidates).

Definition set_content_path (path : string) (r : JobRow) : JobRow :=
  let j := r.(row_job) in
  {| row_job :=
       {| job_id := j.(job_id); submission_id := j.(submission_id); printer_id := j.(printer_id);
          printer_native_id := j.(printer_native_id); printer_sequence := j.(printer_sequence);
          title := j.(title); content_sha256 := j.(content_sha256); content_path := path;
          content_kind := j.(content_kind); options_json := j.(options_json); state := j.(state);
          expires_unix_ms := j.(expires_unix_ms); native_job_id := j.(native_job_id);
          target_id := j.(target_id); binding_id := j.(binding_id); profile_id := j.(profile_id);
          profile_revision := j.(profile_revision); stock_id := j.(stock_id);
          loaded_media_snapshot_json := j.(loaded_media_snapshot_json);
          cloud_managed := j.(cloud_managed); profile_snapshot_json := j.(profile_snapshot_json);
          printer_native_binding := j.(printer_native_binding);
          route_connector_id := j.(route_connector_id) |};
     next_attempt_unix_ms := r.(next_attempt_unix_ms); attempt_count := r.(attempt_count);
     accepted_unix_ms := r.(accepted_unix_ms); updated_unix_ms := r.(updated_unix_ms);
     confidential := r.(confidential) |}.

(** [DELETE FROM content_files WHERE .. AND reclaiming = 1], under the foreign key
    [jobs.content_sha256 REFERENCES content_files(sha256)]: a row that a job still
    references cannot go. *)
Definition delete_content (sha256 path : string) s : result StorageError AgentStore :=
  match s.(content_files) !! sha256 with
  | Some c =>
    if decide (c.(cf_path) = path ∧ c.(cf_reclaiming) = true) then
      if existsb (λ r, bool_decide (r.(row_job).(content_sha256) = sha256)) (job_rows s)
      then Err Sql else Ok (set_content (delete sha256 s.(content_files)) s)
    else Ok s
  | None => Ok s
  end.

Definition mark_terminal_content_reclaimed (sha256 path : string) s :
    result StorageError (AgentStore * bool) :=
  if retained sha256 path s then Ok (update_reclaiming sha256 path true false s, false) else
  let s1 := set_jobs ((λ r, if bool_decide (r.(row_job).(content_sha256) = sha256) &&
                               bool_decide (r.(row_job).(content_path) = path) &&
                               state_in terminal_names r
                            then set_content_path ("retired:" +:+ sha256) r else r) <$> s.(jobs)) s in
  s2 ← delete_content sha256 path s1;
  Ok (s2, true).

Definition cancel_terminal_content_reclaim (sha256 path : string) s : AgentStore :=
  update_reclaiming sha256 path true false s.

(** [configure]: a claim does not survive the process. *)
Definition reopen s : AgentStore :=
  set_content (set_reclaiming false <$> s.(content_files)) s.

Definition tracked_content_paths s : result StorageError (gset string) :=
  let paths := take 4097 (sort_by String.leb (cf_path ∘ snd <$> map_to_list s.(content_files))) in
  if (4096 <? size (list_to_set (C := gset string) paths))%nat then Err InvalidLocalEvent
  else Ok (list_to_set paths).

Definition set_confidential (v : bool) (r : JobRow) : JobRow :=
  {| row_job := r.(row_job); next_attempt_unix_ms := r.(next_attempt_unix_ms);
     attempt_count := r.(attempt_count); accepted_unix_ms := r.(accepted_unix_ms);
     updated_unix_ms := r.(updated_unix_ms); confidential := v |}.

Definition confidential_files_due s : list (string * string) :=
  (λ r, (r.(row_job).(job_id), r.(row_job).(content_path))) <$>
    take 256 (filter (λ r, r.(confidential) = true ∧
                           row_state r ∈ "delivery_uncertain"%string :: terminal_names) (job_rows s)).

Definition mark_confidential_file_deleted (job : string) s : AgentStore :=
  default s (update_job job confidential (set_confidential false) s).
End store.

(** * Operations of several transactions

    [SM] threads the tables, the failures SQLite will report, the number of event
    identifiers drawn so far, and what another connection to the database commits before
    each statement.  Each statement outside a transaction, and each transaction as a
    whole, may fail with [Sql] and then has no effect. *)

Record StoreEnv := {
  db : AgentStore;
  faults : list bool;
  drawn : nat;
  others : list (AgentStore → AgentStore);
}.

(** The tables that the next statement finds. *)
Definition meanwhile (env : StoreEnv) : AgentStore :=
  match head env.(others) with
  | Some commit => commit env.(db)
  | None => env.(db)
  end.
Definition next_env (s : AgentStore) (env : StoreEnv) : StoreEnv :=
  {| db := s; faults := tail env.(faults); drawn := env.(drawn); others := tail env.(others) |}.

Definition SM (A : Type) : Type := StoreEnv → StoreEnv * result StorageError A.

#[export] Instance sm_ret : MRet SM := λ A a env, (env, Ok a).
#[export] Instance sm_bind : MBind SM := λ A B k m env,
  match m env with
  | (env, Ok a) => k a env
  | (env, Err e) => (env, Err e)
  end.

Definition sm_fail {A} (e : StorageError) : SM A := λ env, (env, Err e).

Definition new_event_id `{StoreExternal} : SM string :=
  λ env, ({| db := env.(db); faults := env.(faults); drawn := S env.(drawn); others := env.(others) |},
          Ok (event_id_text env.(drawn))).

(** One statement or transaction: it fails when the next fault says so. *)
Definition transaction {A} (f : AgentStore → result StorageError (AgentStore * A)) : SM A :=
  λ env,
  let found := meanwhile env in
  match head env.(faults) with
  | Some true => (next_env found env, Err Sql)
  | _ =>
    match f found with
    | Ok (s, a) => (next_env s env, Ok a)
    | Err e => (next_env found env, Err e)
    end
  end.

Definition query {A} (f : AgentStore → A) : SM A := transaction (λ s, Ok (s, f s)).
Definition execute (f : AgentStore → result StorageError AgentStore) : SM unit :=
  transaction (λ s, s1 ← f s; Ok (s1, ())).

Fixpoint for_each {A} (f : A → SM unit) (l : list A) : SM unit :=
  match l with
  | [] => mret ()
  | x :: l => _ ← f x; for_each f l
  end.

Section operations.
Context `{StoreExternal}.

(** The sequence is read by a statement of its own, before the transaction. *)
Definition append_next_event (event_id job st : string) (reason message : option string)
    (details : string) (t : Z) : SM Z :=
  sequence ← query (next_sequence job);
  _ ← execute (append_event event_id job sequence st reason message details t);
  mret sequence.

(** [append_next_event(&EventId::new().to_string(), ..)]. *)
Definition append_next (job st : string) (reason message : option string) (details : string)
    (t : Z) : SM Z :=
  event_id ← new_event_id;
  append_next_event event_id job st reason message details t.

Definition cancel_before_handoff (job : string) (t : Z) : SM bool :=
  found ← query (query_job job);
  match found with
  | None => sm_fail (JobNotFound job)
  | Some j =>
    if String.eqb j.(state) "cloud_accept_pending" then mret false else
    if negb (bool_decide (j.(state) ∈ queued_states)) then mret false else
    _ ← append_next job "cancel_requested" (Some "cancelled_by_server"%string)
          (Some "Cancellation requested by control plane"%string) "{}" t;
    _ ← append_next job "cancelled" (Some "cancelled_by_server"%string)
          (Some "Cancelled before native handoff"%string) "{}" t;
    mret true
  end.

Definition request_cancel (job : string) (t : Z) : SM bool :=
  found ← query (query_job job);
  match found with
  | None => sm_fail (JobNotFound job)
  | Some j =>
    if bool_decide (j.(state) ∈ queued_states) then cancel_before_handoff job t else
    if String.eqb j.(state) "cloud_accept_pending" then mret false else
    if negb (bool_decide (j.(state) ∈ ["accepted_by_spooler"; "spooling"; "printing";
                                       "blocked"]%string)) then mret false else
    _ ← append_next job "cancel_requested" (Some "cancelled_by_server"%string)
          (Some "Cancellation requested after native handoff"%string) "{}" t;
    _ ← execute (λ s, Ok (mark_cancel job t s));
    mret true
  end.

(** The waiting jobs whose deadline has passed. *)
Definition waiting_expired (now : Z) (s : AgentStore) : list string :=
  (λ r, r.(row_job).(job_id)) <$>
    filter (λ r, row_state r ∈ queued_states ∧
                 from_option (λ t, t <=? now) false r.(row_job).(expires_unix_ms) = true)
      (job_rows s).

Definition expire_waiting (now : Z) : SM nat :=
  ids ← query (waiting_expired now);
  _ ← for_each (λ job,
        sequence ← query (next_sequence job);
        event_id ← new_event_id;
        execute (append_event event_id job sequence "expired"
                   (Some "expired_before_handoff"%string)
                   (Some "Job expired before native submission"%string) "{}" now)) ids;
  mret (length ids).
End operations.
