(* ===== verification/AgentStoreFacts.v ===== *)
(** What the transactions of [AgentStore] do: a small program logic for the store's
    monad, the rows each transaction changes, the edges along which an operation of
    the store may move a job, and the invariant of the tables. *)
From S2P Require Import Prelude Domain AgentStore.

#[local] Open Scope Z_scope.

(** * A program logic for [SM]

    [sm_triple P m Q E]: from tables that satisfy [P], [m] returns a value and tables
    that satisfy [Q], or fails and leaves tables that satisfy [E], whatever faults the
    environment has in store, as long as no other connection commits. *)

Definition quiet (v : StoreEnv) : Prop := v.(others) = [].
Lemma quiet_meanwhile v : quiet v → meanwhile v = v.(db).
Proof. unfold quiet, meanwhile. by intros ->. Qed.
Lemma quiet_next s v : quiet v → quiet (next_env s v).
Proof. unfold quiet. simpl. by intros ->. Qed.
Create HintDb agent.
#[export] Hint Resolve quiet_next : agent.

Definition sm_triple {A} (P : AgentStore → Prop) (m : SM A)
    (Q : A → AgentStore → Prop) (E : AgentStore → Prop) : Prop :=
  ∀ v, quiet v → P v.(db) → match m v with
                            | (v1, Ok a) => quiet v1 ∧ Q a v1.(db)
                            | (v1, Err _) => quiet v1 ∧ E v1.(db)
                            end.

Section triples.
Implicit Types (P E : AgentStore → Prop).

Lemma sm_triple_ret {A} P E (a : A) (Q : A → AgentStore → Prop) :
  (∀ s, P s → Q a s) → sm_triple P (mret a) Q E.
Proof. intros HQ v Hq HP. by split; [|apply HQ]. Qed.

Lemma sm_triple_fail {A} P E err (Q : A → AgentStore → Prop) :
  (∀ s, P s → E s) → sm_triple P (sm_fail err) Q E.
Proof. intros HE v Hq HP. by split; [|apply HE]. Qed.

Lemma sm_triple_bind {A B} P E (R : A → AgentStore → Prop) (Q : B → AgentStore → Prop)
    (m : SM A) (k : A → SM B) :
  sm_triple P m R E → (∀ a, sm_triple (R a) (k a) Q E) → sm_triple P (x ← m; k x) Q E.
Proof.
  intros Hm Hk v Hq HP. specialize (Hm v Hq HP). unfold mbind, sm_bind.
  destruct (m v) as [v1 [a|err]]; [|done]. destruct Hm. by apply (Hk a).
Qed.

Lemma sm_triple_weaken {A} P P' E E' (Q Q' : A → AgentStore → Prop) (m : SM A) :
  (∀ s, P' s → P s) → (∀ a s, Q a s → Q' a s) → (∀ s, E s → E' s) →
  sm_triple P m Q E → sm_triple P' m Q' E'.
Proof.
  intros HP HQ HE Hm v Hq Hv. specialize (Hm v Hq (HP _ Hv)).
  destruct (m v) as [v1 [a|err]]; naive_solver.
Qed.

Lemma sm_triple_pre {A} P P' E (Q : A → AgentStore → Prop) (m : SM A) :
  sm_triple P m Q E → (∀ s, P' s → P s) → sm_triple P' m Q E.
Proof. intros Hm HP. by eapply sm_triple_weaken. Qed.

Lemma sm_triple_post {A} P E (Q Q' : A → AgentStore → Prop) (m : SM A) :
  sm_triple P m Q E → (∀ a s, Q a s → Q' a s) → sm_triple P m Q' E.
Proof. intros Hm HQ. by eapply sm_triple_weaken. Qed.

(** A transaction runs whole or not at all. *)
Lemma sm_triple_transaction {A} P E (Q : A → AgentStore → Prop) f :
  (∀ s, P s → E s) → (∀ s s1 a, P s → f s = Ok (s1, a) → Q a s1) →
  sm_triple P (transaction f) Q E.
Proof.
  intros HE HQ v Hq HP. unfold transaction. rewrite (quiet_meanwhile v Hq).
  destruct (head (faults v)) as [[]|]; [by split; [apply quiet_next|apply HE]| |];
    destruct (f (db v)) as [[s1 a]|err] eqn:Hf; simpl; eauto with agent.
Qed.

Lemma sm_triple_query {A} P E (Q : A → AgentStore → Prop) f :
  (∀ s, P s → E s) → (∀ s, P s → Q (f s) s) → sm_triple P (query f) Q E.
Proof. intros HE HQ. apply sm_triple_transaction; [done|]. intros s s1 a HP [= <- <-]. auto. Qed.

Lemma sm_triple_read {A B} P E (Q : B → AgentStore → Prop) (f : AgentStore → A) (k : A → SM B) :
  (∀ s, P s → E s) → (∀ a, sm_triple P (k a) Q E) → sm_triple P (x ← query f; k x) Q E.
Proof.
  intros HE Hk. apply (sm_triple_bind _ _ (λ _, P)); [by apply sm_triple_query|done].
Qed.

End triples.

Lemma sm_triple_execute (P E : AgentStore → Prop) (Q : unit → AgentStore → Prop) f :
  (∀ s, P s → E s) → (∀ s s1, P s → f s = Ok s1 → Q () s1) → sm_triple P (execute f) Q E.
Proof.
  intros HE HQ. apply sm_triple_transaction; [done|].
  intros s s1 [] HP (s2 & Hf & [= <-])%bind_Ok. eauto.
Qed.

Lemma sm_triple_event_id `{StoreExternal} (P E : AgentStore → Prop) :
  sm_triple P new_event_id (λ _, P) E.
Proof. by intros v Hq HP. Qed.

(** * Rows *)

(** The columns of a job that no operation changes: everything but the state, the
    spooler's identifier, the route's owner, the content path and the routing facts that
    [pin_job_profile] may record. *)
Definition pinned (j : LocalJob) : LocalJob :=
  {| job_id := j.(job_id); submission_id := j.(submission_id); printer_id := j.(printer_id);
     printer_native_id := j.(printer_native_id); printer_sequence := j.(printer_sequence);
     title := j.(title); content_sha256 := j.(content_sha256); content_path := "";
     content_kind := j.(content_kind); options_json := j.(options_json); state := "";
     expires_unix_ms := j.(expires_unix_ms); native_job_id := None; target_id := None;
     binding_id := None; profile_id := None; profile_revision := None; stock_id := None;
     loaded_media_snapshot_json := None; cloud_managed := j.(cloud_managed);
     profile_snapshot_json := j.(profile_snapshot_json);
     printer_native_binding := j.(printer_native_binding); route_connector_id := None |}.

(** What every change of a job's row keeps: the pinned columns, and a profile once one is
    recorded. *)
Definition keeps (j j1 : LocalJob) : Prop :=
  pinned j1 = pinned j ∧
  (is_Some j.(profile_id) →
   j1.(profile_id) = j.(profile_id) ∧ j1.(profile_revision) = j.(profile_revision)).

#[export] Instance keeps_preorder : PreOrder keeps.
Proof.
  split; [by intros j|]. intros j1 j2 j3 [Hp12 Hf12] [Hp23 Hf23]. split; [congruence|].
  intros Hj1. destruct (Hf12 Hj1) as [Hid Hrev]. rewrite <- Hid, <- Hrev. apply Hf23.
  by rewrite Hid.
Qed.

Lemma keeps_refl j : keeps j j.
Proof. done. Qed.
#[export] Hint Resolve keeps_refl : core.

Definition job_state (s : AgentStore) (k : string) : option string :=
  row_state <$> s.(jobs) !! k.

(** [s1] is [s] with the row of [k] changed by [f]. *)
Definition row_changed (k : string) (f : JobRow → JobRow) (s s1 : AgentStore) : Prop :=
  ∃ r, s.(jobs) !! k = Some r ∧ s1.(jobs) = <[k := f r]> s.(jobs).

Section rows.
Context `{StoreExternal}.
Implicit Types (s : AgentStore).

Lemma update_job_Some k g f s s1 :
  update_job k g f s = Some s1 ↔
  ∃ r, s.(jobs) !! k = Some r ∧ g r = true ∧ s1 = set_jobs (<[k := f r]> s.(jobs)) s.
Proof.
  unfold update_job. split.
  - destruct (s.(jobs) !! k) as [r|]; [|done]. destruct (g r) eqn:Hg; [|done]. intros [= <-]. eauto.
  - by intros (r & -> & -> & ->).
Qed.

Lemma append_event_tx_Ok id k seq st re me de t s s1 :
  append_event_tx id k seq st re me de t s = Ok s1 →
  is_Some (s.(jobs) !! k) ∧ sqlite_json_valid de = true ∧
  Forall (λ e, ev_event_id e ≠ id ∧ ¬ (ev_job_id e = k ∧ ev_job_sequence e = seq)) s.(job_events) ∧
  let e := {| ev_event_id := id; ev_job_id := k; ev_job_sequence := seq; ev_state := st;
              ev_reason := re; ev_message := me; ev_details_json := de;
              ev_observed_unix_ms := t |} in
  s1 = set_events (s.(job_events) ++ [e])
         (s.(event_outbox) ++ [{| ob_sequence := s.(next_outbox_sequence); ob_event := e;
                                  ob_acknowledged_unix_ms := None |}])
         (s.(next_outbox_sequence) + 1) s.
Proof.
  unfold append_event_tx. intros Htx.
  destruct (decide _) as [|Hk]; [done|]. destruct (decide _) as [|Hex]; [done|].
  destruct (sqlite_json_valid de) eqn:Hjson; [|done]. simpl in Htx. injection Htx as <-.
  split; [by apply not_eq_None_Some|]. split; [done|]. split; [|done].
  apply Forall_Exists_neg in Hex. eapply Forall_impl; [exact Hex|]. naive_solver.
Qed.

Lemma append_event_tx_jobs id k seq st re me de t s s1 :
  append_event_tx id k seq st re me de t s = Ok s1 → s1.(jobs) = s.(jobs).
Proof. by intros (_ & _ & _ & ->)%append_event_tx_Ok. Qed.

Lemma append_and_update_Ok id k st re me de t g f err s s1 :
  append_and_update id k st re me de t g f err s = Ok s1 →
  ∃ s0 r, append_event_tx id k (next_sequence k s) st re me de t s = Ok s0 ∧
    s.(jobs) !! k = Some r ∧ g r = true ∧ s1 = set_jobs (<[k := f r]> s.(jobs)) s0.
Proof.
  unfold append_and_update. intros (s0 & Htx & Hup)%bind_Ok.
  apply ok_or_Ok, update_job_Some in Hup as (r & Hk & Hg & ->).
  pose proof (append_event_tx_jobs _ _ _ _ _ _ _ _ _ _ Htx) as Hjobs. rewrite Hjobs in Hk |- *.
  by exists s0, r.
Qed.

Lemma append_event_Ok id k seq st re me de t s s1 :
  append_event id k seq st re me de t s = Ok s1 →
  seq = next_sequence k s ∧
  ∃ s0 r, append_event_tx id k seq st re me de t s = Ok s0 ∧
    s.(jobs) !! k = Some r ∧ s1 = set_jobs (<[k := set_state st t r]> s.(jobs)) s0.
Proof.
  unfold append_event. intros Hap. destruct (json_value de); [|done]. simpl in Hap.
  destruct (decide _) as [|Hseq]; [done|].
  apply bind_Ok in Hap as (s0 & Htx & Hup). apply dec_stable in Hseq.
  apply ok_or_Ok, update_job_Some in Hup as (r & Hk & _ & ->).
  pose proof (append_event_tx_jobs _ _ _ _ _ _ _ _ _ _ Htx) as Hjobs. rewrite Hjobs in Hk |- *.
  split; [done|]. by exists s0, r.
Qed.

End rows.

(** * The edges of the store

    The pairs of states between which an operation of the store moves a job.  The
    edges of [release_edges] put a job that may have reached the spooler back in the
    queue; only an explicit release of that job takes them. *)

Definition store_edges : list (string * string) :=
  [("cloud_accept_pending", "queued_local"); ("cloud_accept_pending", "cancelled");
   ("failed_retryable", "cloud_accept_pending");
   ("queued_local", "cancel_requested"); ("failed_retryable", "cancel_requested");
   ("accepted_by_spooler", "cancel_requested"); ("spooling", "cancel_requested");
   ("printing", "cancel_requested"); ("blocked", "cancel_requested");
   ("cancel_requested", "cancelled");
   ("queued_local", "expired"); ("failed_retryable", "expired");
   ("spool_intent", "accepted_by_spooler"); ("spool_intent", "delivery_uncertain")]%string.

Definition release_edges : list (string * string) :=
  [("spool_intent", "failed_retryable"); ("delivery_uncertain", "failed_retryable")]%string.

(** [released] names the job that the operation releases, if it is a release. *)
Definition edge (released : option string) (k a b : string) : Prop :=
  (a, b) ∈ store_edges ∨ (released = Some k ∧ (a, b) ∈ release_edges).

Definition entry_states : list string := ["queued_local"; "cloud_accept_pending"]%string.

(** The tables that a job's life is recorded in. *)
Definition core (s : AgentStore) :=
  (s.(jobs), s.(job_events), s.(event_outbox), s.(next_outbox_sequence), s.(printer_sequences),
   s.(inbox_receipts)).

(** * Elementary changes

    Every transaction is a sequence of these. *)

Inductive prim `{StoreExternal} (released : option string) (s : AgentStore) :
    AgentStore → Prop :=
| prim_event id k st re me de t s1 :
    append_event_tx id k (next_sequence k s) st re me de t s = Ok s1 → prim released s s1
| prim_row k r r1 :
    s.(jobs) !! k = Some r → keeps r.(row_job) r1.(row_job) →
    (row_state r1 = row_state r ∨ edge released k (row_state r) (row_state r1)) →
    prim released s (set_jobs (<[k := r1]> s.(jobs)) s)
| prim_rows f :
    (∀ r, keeps r.(row_job) (f r).(row_job) ∧ row_state (f r) = row_state r) →
    prim released s (set_jobs (f <$> s.(jobs)) s)
| prim_intake job facts st conf s1 :
    s.(jobs) !! job.(aj_job_id) = None → st ∈ entry_states →
    insert_job job facts st conf s = Ok s1 → prim released s s1
| prim_ack t g : prim released s (acknowledge_where t g s).1
| prim_side s1 :
    core s1 = core s →
    (∀ r k, s.(jobs) !! k = Some r → is_Some (s.(content_files) !! r.(row_job).(content_sha256)) →
            is_Some (s1.(content_files) !! r.(row_job).(content_sha256))) →
    prim released s s1.

Definition evolves `{StoreExternal} (released : option string) : relation AgentStore :=
  rtc (prim released).

#[export] Instance evolves_preorder `{StoreExternal} released : PreOrder (evolves released).
Proof. unfold evolves. apply _. Qed.

(** * The invariant of the tables *)

Definition job_sequences (k : string) (l : list EventRow) : list Z :=
  ev_job_sequence <$> filter (λ e, ev_job_id e = k) l.

Record store_wf (s : AgentStore) : Prop := {
  wf_key k r : s.(jobs) !! k = Some r → r.(row_job).(job_id) = k;
  wf_event_job : Forall (λ e, is_Some (s.(jobs) !! ev_job_id e)) s.(job_events);
  wf_contiguous k :
    job_sequences k s.(job_events) = seqZ 1 (Z.of_nat (length (job_sequences k s.(job_events))));
  wf_event_ids : NoDup (ev_event_id <$> s.(job_events));
  wf_outbox : ob_event <$> s.(event_outbox) = s.(job_events);
  wf_outbox_order : ob_sequence <$> s.(event_outbox) = seqZ 1 (Z.of_nat (length s.(event_outbox)));
  wf_next_outbox : s.(next_outbox_sequence) = 1 + Z.of_nat (length s.(event_outbox));
  wf_receipts : s.(inbox_receipts) = dom s.(jobs);
  wf_printer_sequence k r : s.(jobs) !! k = Some r →
    ∃ next, s.(printer_sequences) !! r.(row_job).(printer_id) = Some next ∧
            1 ≤ r.(row_job).(printer_sequence) < next;
  wf_printer_next p next : s.(printer_sequences) !! p = Some next → 1 ≤ next;
  wf_unique k1 k2 r1 r2 : s.(jobs) !! k1 = Some r1 → s.(jobs) !! k2 = Some r2 →
    r1.(row_job).(printer_id) = r2.(row_job).(printer_id) →
    r1.(row_job).(printer_sequence) = r2.(row_job).(printer_sequence) → k1 = k2;
  wf_content k r : s.(jobs) !! k = Some r →
    is_Some (s.(content_files) !! r.(row_job).(content_sha256));
}.

Lemma empty_store_wf : store_wf empty_store.
Proof.
  split; simpl; try done; try (intros *; by rewrite ?lookup_empty).
  all: constructor.
Qed.

(** ** Sequences *)

Lemma max_sequence_foldr k l : max_sequence k l = foldr Z.max 0 (job_sequences k l).
Proof.
  unfold job_sequences. induction l as [|e l IH]; simpl; [done|].
  rewrite filter_cons. case_decide; simpl; by rewrite IH.
Qed.

Lemma foldr_max_app l x : 0 ≤ x → foldr Z.max 0 (l ++ [x]) = Z.max (foldr Z.max 0 l) x.
Proof. intros Hx. induction l as [|y l IH]; simpl; lia. Qed.

Lemma seqZ_snoc (n : nat) : seqZ 1 (Z.of_nat (S n)) = seqZ 1 (Z.of_nat n) ++ [Z.of_nat n + 1].
Proof.
  rewrite Nat2Z.inj_succ, <- Z.add_1_r, seqZ_app by lia. f_equal.
  rewrite seqZ_cons by lia. simpl. f_equal. lia.
Qed.

Lemma foldr_max_seqZ (n : nat) : foldr Z.max 0 (seqZ 1 (Z.of_nat n)) = Z.of_nat n.
Proof.
  induction n as [|n IH]; [done|].
  rewrite seqZ_snoc, foldr_max_app, IH by lia. lia.
Qed.

Lemma next_sequence_wf s k : store_wf s →
  next_sequence k s = Z.of_nat (length (job_sequences k s.(job_events))) + 1.
Proof.
  intros Hwf. unfold next_sequence. rewrite max_sequence_foldr, (wf_contiguous _ Hwf k).
  by rewrite foldr_max_seqZ, length_seqZ, Nat2Z.id.
Qed.

Lemma job_sequences_snoc k l e :
  job_sequences k (l ++ [e]) =
  job_sequences k l ++ (if decide (ev_job_id e = k) then [ev_job_sequence e] else []).
Proof.
  unfold job_sequences. rewrite filter_app, fmap_app, filter_cons, filter_nil.
  by case_decide.
Qed.

(** ** Preservation *)

Section preservation.
Context `{StoreExternal}.
Implicit Types (s : AgentStore).

Lemma append_event_tx_wf id k st re me de t s s1 :
  store_wf s → append_event_tx id k (next_sequence k s) st re me de t s = Ok s1 → store_wf s1.
Proof.
  intros Hwf (Hk & _ & Hfresh & ->)%append_event_tx_Ok.
  pose proof (next_sequence_wf _ k Hwf) as Hnext. destruct Hwf.
  split; simpl; try done.
  - apply Forall_app. split; [done|]. by constructor.
  - intros k'. rewrite job_sequences_snoc. simpl. case_decide as Hk'; [subst k'|].
    + rewrite length_app. simpl. rewrite Nat.add_1_r, seqZ_snoc, <- wf_contiguous0. by rewrite Hnext.
    + by rewrite app_nil_r.
  - rewrite fmap_app. apply NoDup_app. split; [done|]. split; [|apply NoDup_singleton].
    intros x (e & -> & He)%list_elem_of_fmap. rewrite Forall_forall in Hfresh.
    destruct (Hfresh e He). set_solver.
  - by rewrite fmap_app, wf_outbox0.
  - rewrite fmap_app, length_app. simpl. rewrite Nat.add_1_r, seqZ_snoc, wf_outbox_order0. simpl.
    do 2 f_equal. lia.
  - rewrite length_app. simpl. lia.
Qed.

Lemma keeps_fields (j j1 : LocalJob) :
  keeps j j1 →
  j1.(job_id) = j.(job_id) ∧ j1.(printer_id) = j.(printer_id) ∧
  j1.(printer_sequence) = j.(printer_sequence) ∧ j1.(content_sha256) = j.(content_sha256) ∧
  j1.(cloud_managed) = j.(cloud_managed) ∧ j1.(content_kind) = j.(content_kind).
Proof. by intros [[=] _]. Qed.

(** The jobs table may change as long as no row loses its pinned columns. *)
Lemma jobs_wf s (m : gmap string JobRow) :
  store_wf s → dom m = dom s.(jobs) →
  (∀ k r1, m !! k = Some r1 → ∃ r, s.(jobs) !! k = Some r ∧
                                   keeps r.(row_job) r1.(row_job)) →
  store_wf (set_jobs m s).
Proof.
  intros [] Hdom Hpin. split; simpl; try done.
  - intros k r1 (r & Hr & (-> & _)%keeps_fields)%Hpin. eauto.
  - eapply Forall_impl; [exact wf_event_job0|]. intros e He.
    apply elem_of_dom. rewrite Hdom. by apply elem_of_dom.
  - by rewrite Hdom.
  - intros k r1 (r & Hr & (_ & -> & -> & _)%keeps_fields)%Hpin. eauto.
  - intros k1 k2 r1 r2 (r1' & Hr1 & (_ & -> & -> & _)%keeps_fields)%Hpin
      (r2' & Hr2 & (_ & -> & -> & _)%keeps_fields)%Hpin. eauto.
  - intros k r1 (r & Hr & (_ & _ & _ & -> & _)%keeps_fields)%Hpin. eauto.
Qed.

Lemma insert_job_Ok job facts st conf s s1 :
  insert_job job facts st conf s = Ok s1 →
  let seq := default 1 (s.(printer_sequences) !! job.(aj_printer_id)) in
  ∃ c, s1 = set_jobs (<[job.(aj_job_id) := new_row job facts seq st conf]> s.(jobs))
              (set_intake (<[job.(aj_printer_id) := seq + 1]> s.(printer_sequences))
                 ({[job.(aj_job_id)]} ∪ s.(inbox_receipts))
                 (<[job.(aj_content_sha256) := c]> s.(content_files)) s).
Proof.
  unfold insert_job. intros Hin. destruct (decide _) as [|_]; [done|].
  apply bind_Ok in Hin as (c & _ & Hin).
  destruct (row_constraints _ _); [|done]. injection Hin as <-. by exists c.
Qed.

Lemma insert_job_wf job facts st conf s s1 :
  store_wf s → s.(jobs) !! job.(aj_job_id) = None →
  insert_job job facts st conf s = Ok s1 → store_wf s1.
Proof.
  intros Hwf Hnone (c & ->)%insert_job_Ok. destruct Hwf.
  set (seq := default 1 _). set (row := new_row _ _ _ _ _).
  assert (1 ≤ seq) as Hseq.
  { subst seq. destruct (_ !! job.(aj_printer_id)) eqn:Hp; simpl; [eauto|lia]. }
  assert (∀ k r, s.(jobs) !! k = Some r → r.(row_job).(printer_id) = job.(aj_printer_id) →
                 r.(row_job).(printer_sequence) < seq) as Hbelow.
  { intros k r Hr Hp. destruct (wf_printer_sequence0 _ _ Hr) as (next & Hnext & Hlt).
    subst seq. rewrite Hp in Hnext. rewrite Hnext. simpl. lia. }
  split; simpl; try done.
  - intros k r [[<- <-]|[_ Hr]]%lookup_insert_Some; eauto.
  - eapply Forall_impl; [exact wf_event_job0|]. intros e He.
    destruct (decide (job.(aj_job_id) = ev_job_id e)) as [<-|]; simplify_map_eq; eauto.
  - by rewrite dom_insert_L, wf_receipts0.
  - intros k r [[<- <-]|[_ Hr]]%lookup_insert_Some; simpl.
    + exists (seq + 1). rewrite lookup_insert_eq. split; [done|]. lia.
    + destruct (decide (r.(row_job).(printer_id) = job.(aj_printer_id))) as [Hp|Hp].
      * specialize (Hbelow _ _ Hr Hp). destruct (wf_printer_sequence0 _ _ Hr) as (next & _ & Hlt).
        exists (seq + 1). rewrite Hp, lookup_insert_eq. split; [done|]. lia.
      * rewrite lookup_insert_ne by done. eauto.
  - intros p next [[<- <-]|[_ Hp]]%lookup_insert_Some; [lia|eauto].
  - intros k1 k2 r1 r2 [[<- <-]|[_ Hr1]]%lookup_insert_Some [[<- <-]|[_ Hr2]]%lookup_insert_Some;
      simpl; intros Hp Hs; [done| | |by eauto].
    + specialize (Hbelow _ _ Hr2 (eq_sym Hp)). lia.
    + specialize (Hbelow _ _ Hr1 Hp). lia.
  - intros k r [[<- <-]|[_ Hr]]%lookup_insert_Some; simpl; [by rewrite lookup_insert_eq|].
    destruct (decide (job.(aj_content_sha256) = r.(row_job).(content_sha256))) as [->|];
      simplify_map_eq; eauto.
Qed.

Lemma acknowledge_where_wf t g s : store_wf s → store_wf (acknowledge_where t g s).1.
Proof.
  assert (∀ {A} (p : OutboxRow → A), (∀ o, p (acknowledge_row t g o) = p o) →
    p <$> (acknowledge_row t g <$> s.(event_outbox)) = p <$> s.(event_outbox)) as Hsame.
  { intros A p Hp. rewrite <- list_fmap_compose. apply list_fmap_ext. intros. apply Hp. }
  intros []. split; simpl; rewrite ?length_fmap; try done; rewrite Hsame; try done;
    intros o; unfold acknowledge_row; by case_match.
Qed.

Lemma row_wf k r r1 s :
  store_wf s → s.(jobs) !! k = Some r → keeps r.(row_job) r1.(row_job) →
  store_wf (set_jobs (<[k := r1]> s.(jobs)) s).
Proof.
  intros Hwf Hr Hpin. apply jobs_wf; [done| |].
  - rewrite dom_insert_L. apply elem_of_dom_2 in Hr. set_solver.
  - intros k' r' [[<- <-]|[_ Hr']]%lookup_insert_Some; eauto.
Qed.

Lemma append_event_wf id k seq st re me de t s s1 :
  store_wf s → append_event id k seq st re me de t s = Ok s1 → store_wf s1.
Proof.
  intros Hwf (-> & s2 & r & Htx & Hr & ->)%append_event_Ok.
  pose proof (append_event_tx_jobs _ _ _ _ _ _ _ _ _ _ Htx) as Hjobs. rewrite <- Hjobs in Hr |- *.
  eapply row_wf; [by eapply append_event_tx_wf|exact Hr|done].
Qed.

Lemma prim_wf released s s1 : store_wf s → prim released s s1 → store_wf s1.
Proof.
  intros Hwf [|k r r1 Hr Hpin _|f Hf|job facts st conf s2 Hnone _ Hin|t g|s2 Hcore Hcontent].
  - by eapply append_event_tx_wf.
  - by eapply row_wf.
  - apply jobs_wf; [done|by rewrite dom_fmap_L|].
    intros k r' Hr'. rewrite lookup_fmap in Hr'. apply fmap_Some in Hr' as (r & Hr & ->).
    exists r. by destruct (Hf r).
  - by eapply insert_job_wf.
  - by apply acknowledge_where_wf.
  - injection Hcore as Hjobs Hevents Hout Hnext Hseq Hrec. destruct Hwf.
    split; rewrite ?Hjobs, ?Hevents, ?Hout, ?Hnext, ?Hseq, ?Hrec; try done. eauto.
Qed.

Lemma evolves_wf released s s1 : store_wf s → evolves released s s1 → store_wf s1.
Proof. intros Hwf Hev. induction Hev; [done|]. eauto using prim_wf. Qed.
End preservation.
