(* ===== verification/AgentOps.v ===== *)
(** The operations of the agent's store as one type, and what all of them have in
    common: each is a sequence of elementary changes, so each keeps the invariant of
    the tables and moves jobs only along the edges of the store. *)
From S2P Require Import Prelude Domain AgentStore AgentStoreFacts.

#[local] Open Scope Z_scope.


(** Decides an [edge] between two concrete states. *)
Ltac solve_edge :=
  first [ left; apply (bool_decide_unpack _); vm_compute; exact I
        | right; split; [reflexivity | apply (bool_decide_unpack _); vm_compute; exact I] ].

(** A hypothesis that a row's state is one of a list of names, case by case. *)
Ltac state_cases H :=
  apply bool_decide_eq_true in H;
  repeat (apply elem_of_cons in H as [H|H]); [..|by apply not_elem_of_nil in H].

Section transactions.
Context `{StoreExternal} (released : option string).
Implicit Types (s : AgentStore).

Lemma evolves_side s s1 :
  core s1 = core s → s1.(content_files) = s.(content_files) → evolves released s s1.
Proof. intros Hcore Hcontent. apply rtc_once, prim_side; [done|]. by rewrite Hcontent. Qed.

Lemma evolves_row s k r r1 :
  s.(jobs) !! k = Some r → keeps r.(row_job) r1.(row_job) →
  (row_state r1 = row_state r ∨ edge released k (row_state r) (row_state r1)) →
  evolves released s (set_jobs (<[k := r1]> s.(jobs)) s).
Proof. intros. by eapply rtc_once, prim_row. Qed.

Lemma evolves_update_job k g f s s1 :
  update_job k g f s = Some s1 →
  (∀ r, g r = true → keeps r.(row_job) (f r).(row_job) ∧
        (row_state (f r) = row_state r ∨ edge released k (row_state r) (row_state (f r)))) →
  evolves released s s1.
Proof.
  intros (r & Hr & Hg & ->)%update_job_Some Hf. destruct (Hf r Hg). by eapply evolves_row.
Qed.

Lemma evolves_append_and_update id k st re me de t g f err s s1 :
  append_and_update id k st re me de t g f err s = Ok s1 →
  (∀ r, g r = true → keeps r.(row_job) (f r).(row_job) ∧
        (row_state (f r) = row_state r ∨ edge released k (row_state r) (row_state (f r)))) →
  evolves released s s1.
Proof.
  intros (s0 & r & Htx & Hr & Hg & ->)%append_and_update_Ok Hf. destruct (Hf r Hg).
  pose proof (append_event_tx_jobs _ _ _ _ _ _ _ _ _ _ Htx) as Hjobs.
  eapply rtc_l; [by eapply prim_event|]. rewrite <- Hjobs. eapply evolves_row; [|done..].
  by rewrite Hjobs.
Qed.

Lemma evolves_append_event id k seq st re me de t s s1 :
  append_event id k seq st re me de t s = Ok s1 →
  (∀ r, s.(jobs) !! k = Some r → edge released k (row_state r) st) →
  evolves released s s1.
Proof.
  intros (-> & s0 & r & Htx & Hr & ->)%append_event_Ok Hedge.
  pose proof (append_event_tx_jobs _ _ _ _ _ _ _ _ _ _ Htx) as Hjobs.
  eapply rtc_l; [by eapply prim_event|]. rewrite <- Hjobs. apply (evolves_row _ _ r); [|done|right; by apply Hedge].
  by rewrite Hjobs.
Qed.

(** ** Native handoff *)

Lemma evolves_handoff_tables k next deadline s :
  evolves released s (delete_proof k (upsert_reconciliation k next deadline s)).
Proof. by apply evolves_side. Qed.

Lemma record_native_acceptance_evolves id k native de t next deadline s s1 :
  record_native_acceptance id k native de t next deadline s = Ok s1 → evolves released s s1.
Proof.
  unfold record_native_acceptance. intros Hop. destruct (json_value de); [|done]. simpl in Hop.
  apply bind_Ok in Hop as (s2 & Hup & [= <-]). etrans; [|apply evolves_handoff_tables].
  eapply evolves_append_and_update; [exact Hup|]. intros r Hg. split; [done|]. state_cases Hg.
  right. rewrite Hg. solve_edge.
Qed.

Lemma schedule_native_reconciliation_evolves k native next deadline s s1 :
  schedule_native_reconciliation k native next deadline s = Ok s1 → evolves released s s1.
Proof.
  unfold schedule_native_reconciliation. intros (s2 & Hup%ok_or_Ok & [= <-])%bind_Ok.
  etrans; [|apply evolves_handoff_tables]. eapply evolves_update_job; [exact Hup|]. by split; [|left].
Qed.

Lemma set_native_job_id_evolves k native t s s1 :
  set_native_job_id k native t s = Ok s1 → evolves released s s1.
Proof. intros Hup%ok_or_Ok. eapply evolves_update_job; [exact Hup|]. by split; [|left]. Qed.

Lemma record_local_handoff_uncertainty_evolves id k t s s1 :
  record_local_handoff_uncertainty id k t s = Ok s1 → evolves released s s1.
Proof.
  intros Hop. eapply evolves_append_and_update; [exact Hop|].
  intros r [Hg _]%andb_prop. split; [done|]. state_cases Hg. right. rewrite Hg. solve_edge.
Qed.

(** ** Resolution *)

Lemma insert_resolution_evolves a k re s s1 :
  insert_resolution a k re s = Ok s1 → evolves released s s1.
Proof. unfold insert_resolution. case_decide; [|done]. intros [= <-]. by apply evolves_side. Qed.

Lemma confirm_uncertain_local_handoff_accepted_evolves id k a t s s1 :
  confirm_uncertain_local_handoff_accepted id k a t s = Ok s1 → evolves released s s1.
Proof.
  unfold confirm_uncertain_local_handoff_accepted. intros Hop.
  destruct (local_handoff_resolution k a s) as [ex|].
  { destruct (decide _); [|done]. by injection Hop as <-. }
  apply bind_Ok in Hop as (s2 & Hup & Hins). etrans; [|by eapply insert_resolution_evolves].
  eapply evolves_append_and_update; [exact Hup|]. by split; [|left].
Qed.

Lemma finalize_uncertain_cloud_handoff_recovery_evolves k s s1 :
  finalize_uncertain_cloud_handoff_recovery k s = Ok s1 → evolves released s s1.
Proof.
  unfold finalize_uncertain_cloud_handoff_recovery. case_match; [|done]. intros [= <-].
  by apply evolves_side.
Qed.

(** ** Reconciliation *)

Lemma record_reconciliation_attempt_evolves o k native ns au de err t next s s1 :
  record_reconciliation_attempt o k native ns au de err t next s = Ok s1 → evolves released s s1.
Proof.
  unfold record_reconciliation_attempt. intros Hop.
  destruct (json_value de); [|done]. simpl in Hop. destruct (decide _); [done|].
  case_match; [|done]. injection Hop as <-. by apply evolves_side.
Qed.

Lemma finish_reconciliation_evolves k s : evolves released s (finish_reconciliation k s).
Proof. by apply evolves_side. Qed.

Lemma mark_cancel_evolves k t s : evolves released s (mark_cancel k t s).
Proof. by apply evolves_side. Qed.

Lemma record_executor_failure_evolves code s : evolves released s (record_executor_failure code s).
Proof. by apply evolves_side. Qed.

(** ** Outbox *)

Lemma acknowledge_where_evolves t g s : evolves released s (acknowledge_where t g s).1.
Proof. apply rtc_once, prim_ack. Qed.

Lemma acknowledge_cloud_event_evolves id t s s1 n :
  acknowledge_cloud_event id t s = Ok (s1, n) → evolves released s s1.
Proof.
  unfold acknowledge_cloud_event. destruct (find_first _ _); [|done]. intros [= <- _].
  apply acknowledge_where_evolves.
Qed.
End transactions.

(** The transactions that put a job that may have been handed off back in the queue. *)
Section releases.
Context `{StoreExternal}.
Implicit Types (s : AgentStore).

Lemma record_local_retryable_failure_evolves id k re me de t next s s1 :
  record_local_retryable_failure id k re me de t next s = Ok s1 → evolves (Some k) s s1.
Proof.
  unfold record_local_retryable_failure. intros Hop. destruct (json_value de); [|done].
  eapply evolves_append_and_update; [exact Hop|].
  intros r [Hg _]%andb_prop. split; [done|]. state_cases Hg. right. rewrite Hg. solve_edge.
Qed.

Lemma record_cloud_handoff_recovery_evolves id k st re me t s s1 :
  record_cloud_handoff_recovery id k st re me t s = Ok s1 → evolves (Some k) s s1.
Proof.
  unfold record_cloud_handoff_recovery. intros Hop.
  destruct (bool_decide _) eqn:Hst; [|done]. simpl in Hop.
  apply bind_Ok in Hop as (s2 & Hup & [= <-]).
  trans s2; [|destruct (decide (st = _)); [by apply evolves_side|reflexivity]].
  eapply evolves_append_and_update; [exact Hup|].
  intros r [Hg _]%andb_prop. split; [done|]. state_cases Hg. right. rewrite Hg.
  state_cases Hst; subst st; solve_edge.
Qed.

Lemma release_uncertain_local_handoff_for_retry_evolves id k a t next s s1 :
  release_uncertain_local_handoff_for_retry id k a t next s = Ok s1 → evolves (Some k) s s1.
Proof.
  unfold release_uncertain_local_handoff_for_retry. intros Hop.
  destruct (local_handoff_resolution k a s) as [ex|].
  { destruct (decide _); [|done]. by injection Hop as <-. }
  apply bind_Ok in Hop as (s2 & Hup & Hins). etrans; [|by eapply insert_resolution_evolves].
  eapply evolves_append_and_update; [exact Hup|].
  intros r [_ Hg]%andb_prop. split; [done|]. state_cases Hg. right. rewrite Hg. solve_edge.
Qed.

Lemma release_uncertain_cloud_handoff_for_retry_evolves id k t s s1 :
  release_uncertain_cloud_handoff_for_retry id k t s = Ok s1 → evolves (Some k) s s1.
Proof.
  unfold release_uncertain_cloud_handoff_for_retry. intros Hop.
  destruct (from_option _ _ _); [by injection Hop as <-|].
  apply bind_Ok in Hop as (s2 & Hup & [= <-]). trans s2; [|by apply evolves_side].
  eapply evolves_append_and_update; [exact Hup|].
  intros r [_ Hg]%andb_prop. split; [done|]. state_cases Hg. right. rewrite Hg. solve_edge.
Qed.
End releases.

(** ** Acceptance *)

Section intake.
Context `{StoreExternal} (released : option string).
Implicit Types (s : AgentStore).

Lemma query_job_None k s : query_job k s = None → s.(jobs) !! k = None.
Proof. unfold query_job. by destruct (s.(jobs) !! k). Qed.

Lemma query_job_Some k j s :
  query_job k s = Some j ↔ ∃ r, s.(jobs) !! k = Some r ∧ r.(row_job) = j.
Proof. unfold query_job. rewrite fmap_Some. naive_solver. Qed.

(** A job that is not stored has no events. *)
Lemma fresh_next_sequence k s : store_wf s → s.(jobs) !! k = None → next_sequence k s = 1.
Proof.
  intros Hwf Hk. rewrite (next_sequence_wf _ _ Hwf).
  assert (job_sequences k s.(job_events) = []) as ->; [|done].
  unfold job_sequences.
  pose proof (wf_event_job _ Hwf) as Hjobs. induction Hjobs as [|e l He Hl IH]; [done|].
  rewrite filter_cons_False; [done|]. intros <-. by rewrite Hk in He; destruct He.
Qed.

Lemma insert_job_evolves job facts st conf s s1 :
  s.(jobs) !! job.(aj_job_id) = None → st ∈ entry_states →
  insert_job job facts st conf s = Ok s1 → evolves released s s1.
Proof. intros. by eapply rtc_once, prim_intake. Qed.

Lemma insert_job_events job facts st conf s s1 :
  insert_job job facts st conf s = Ok s1 → s1.(job_events) = s.(job_events).
Proof. by intros (c & ->)%insert_job_Ok. Qed.

Lemma accept_job_with_facts_evolves id job facts s s1 j :
  store_wf s → accept_job_with_facts id job facts s = Ok (s1, j) → evolves released s s1.
Proof.
  intros Hwf. unfold accept_job_with_facts. intros (_ & _ & (_ & _ & Hop)%bind_Ok)%bind_Ok.
  destruct (query_job _ s) as [ex|] eqn:Hq.
  { case_match; [|done]. by injection Hop as <- _. }
  apply query_job_None in Hq.
  apply bind_Ok in Hop as (_ & _ & (s2 & Hin & (s3 & Htx & (j3 & _ & [= <- _])%bind_Ok)%bind_Ok)%bind_Ok).
  etrans; [eapply insert_job_evolves; [done| |exact Hin]; set_solver|].
  eapply rtc_once, prim_event. rewrite <- Htx. f_equal. unfold next_sequence.
  rewrite (insert_job_events _ _ _ _ _ _ Hin). by apply fresh_next_sequence.
Qed.

Lemma upsert_cloud_accept_intent_evolves j li lt le route t s s1 :
  upsert_cloud_accept_intent j li lt le route t s = Ok s1 → evolves released s s1.
Proof.
  unfold upsert_cloud_accept_intent. intros (ex & _ & Hop)%bind_Ok.
  destruct (from_option _ _ _); [done|]. destruct (storable _); [|done]. simpl in Hop.
  destruct (_ <=? _); [done|]. injection Hop as <-. by apply evolves_side.
Qed.

Lemma upsert_cloud_route_proof_evolves k route s s1 :
  upsert_cloud_route_proof k route s = Ok s1 → evolves released s s1.
Proof.
  unfold upsert_cloud_route_proof. destruct (storable _); [|done]. intros [= <-].
  by apply evolves_side.
Qed.

Lemma prepare_existing_evolves ex job li lt le route facts s s1 j :
  prepare_existing ex job li lt le route facts s = Ok (s1, j) → evolves released s s1.
Proof.
  unfold prepare_existing. intros Hop. destruct (same_cloud_job _ _ _); [|done]. simpl in Hop.
  destruct (bool_decide _); simpl in Hop; [|case_match; [by injection Hop as <- _|done]].
  apply bind_Ok in Hop as (s2 & Hup%ok_or_Ok & (s3 & Hin & (s4 & Hpr & [= <- _])%bind_Ok)%bind_Ok).
  etrans; [|by eapply upsert_cloud_route_proof_evolves].
  etrans; [|by eapply upsert_cloud_accept_intent_evolves].
  trans s2; [|case_match; [by apply evolves_side|reflexivity]].
  eapply evolves_update_job; [exact Hup|]. intros r [Hg _]%andb_prop. split; [done|].
  state_cases Hg; rewrite Hg; [by left|right; solve_edge].
Qed.

Lemma prepare_cloud_job_with_facts_evolves job li lt le route facts s s1 j :
  prepare_cloud_job_with_facts job li lt le route facts s = Ok (s1, j) → evolves released s s1.
Proof.
  unfold prepare_cloud_job_with_facts. intros (_ & _ & (_ & _ & Hop)%bind_Ok)%bind_Ok.
  destruct (_ || _); [done|].
  destruct (query_job _ s) as [ex|] eqn:Hq; [by eapply prepare_existing_evolves|].
  apply query_job_None in Hq. apply bind_Ok in Hop as (_ & _ & (s2 & Hin & Hop)%bind_Ok).
  apply bind_Ok in Hop as (local & _ & (s3 & Hup & (s4 & Hpr & [= <- _])%bind_Ok)%bind_Ok).
  etrans; [eapply insert_job_evolves; [done| |exact Hin]; set_solver|].
  etrans; [by eapply upsert_cloud_accept_intent_evolves|].
  by eapply upsert_cloud_route_proof_evolves.
Qed.
End intake.

(** ** Cloud acceptance and content *)

Section cloud.
Context `{StoreExternal} (released : option string).
Implicit Types (s : AgentStore).

Lemma confirm_cloud_accept_evolves k t s s1 :
  confirm_cloud_accept k t s = Ok s1 → evolves released s s1.
Proof.
  unfold confirm_cloud_accept. case_match; [|done]. intros [= <-]. by apply evolves_side.
Qed.

Lemma quarantine_evolves k i re t s : evolves released s (quarantine k i re t s).
Proof.
  unfold quarantine. set (s2 := set_intents _ _). trans s2; [by apply evolves_side|].
  destruct (update_job _ _ _ s2) as [s3|] eqn:Hup; simpl; [|reflexivity].
  eapply evolves_update_job; [exact Hup|]. intros r Hg. split; [done|].
  state_cases Hg. right. rewrite Hg. solve_edge.
Qed.

Lemma quarantine_batch_evolves t rows s : evolves released s (quarantine_batch t rows s).
Proof.
  unfold quarantine_batch. revert s. induction rows as [|ki rows IH]; intros s; simpl; [reflexivity|].
  etrans; [apply quarantine_evolves|apply IH].
Qed.

Lemma quarantine_loop_evolves n t s s1 :
  quarantine_loop n t s = Some s1 → evolves released s s1.
Proof.
  revert s. induction n as [|n IH]; intros s; simpl; [done|].
  case_match; [by intros [= <-]|]. intros Hrest%IH. etrans; [|exact Hrest].
  apply (quarantine_batch_evolves t (_ :: _)).
Qed.

Lemma quarantine_prepared_cloud_accept_evolves k re t s s1 c :
  quarantine_prepared_cloud_accept k re t s = Ok (s1, c) → evolves released s s1.
Proof.
  unfold quarantine_prepared_cloud_accept. destruct (_ || _); [done|].
  repeat case_match; try done; intros [= <- _]; [reflexivity| |reflexivity].
  apply quarantine_evolves.
Qed.

Lemma activate_cloud_job_evolves id k t s s1 j :
  activate_cloud_job id k t s = Ok (s1, j) → evolves released s s1.
Proof.
  unfold activate_cloud_job. intros (cur & Hq%ok_or_Ok & Hop)%bind_Ok.
  apply query_job_Some in Hq as (r0 & Hr0 & <-).
  destruct (String.eqb _ "queued_local"); [by injection Hop as <- _|].
  destruct (String.eqb_spec (state (row_job r0)) "cloud_accept_pending") as [Hst|]; [|done].
  simpl in Hop. destruct (from_option _ _ _); [|done]. simpl in Hop.
  apply bind_Ok in Hop as (s2 & Hup%ok_or_Ok & (s3 & Htx & (j3 & _ & [= <- _])%bind_Ok)%bind_Ok).
  apply update_job_Some in Hup as (r & Hr & _ & ->). rewrite Hr0 in Hr. injection Hr as <-.
  trans s3; [|by apply evolves_side]. etrans; [|by eapply rtc_once, prim_event].
  apply (evolves_row _ _ _ r0); [done|done|]. right. unfold row_state at 1. rewrite Hst. solve_edge.
Qed.

Lemma abandon_cloud_accept_evolves k t s s1 :
  abandon_cloud_accept k t s = Ok s1 → evolves released s s1.
Proof.
  unfold abandon_cloud_accept. intros (cur & Hq%ok_or_Ok & Hop)%bind_Ok.
  apply query_job_Some in Hq as (r0 & Hr0 & <-).
  destruct (String.eqb _ "cancelled"); [by injection Hop as <-|].
  destruct (String.eqb_spec (state (row_job r0)) "cloud_accept_pending") as [Hst|]; [|done].
  simpl in Hop. apply ok_or_Ok, update_job_Some in Hop as (r & Hr & _ & ->).
  simpl in Hr. rewrite Hr0 in Hr. injection Hr as <-.
  etrans; [|apply (evolves_row _ _ _ r0); [exact Hr0|done|]]; [by apply evolves_side|].
  right. unfold row_state at 1. rewrite Hst. solve_edge.
Qed.

Lemma backfill_cloud_route_owner_evolves k c t s s1 :
  backfill_cloud_route_owner k c t s = Ok s1 → evolves released s s1.
Proof.
  unfold backfill_cloud_route_owner. destruct (invalid_connector c); [done|].
  destruct (update_job _ _ _ s) as [s2|] eqn:Hup.
  - intros [= <-]. eapply evolves_update_job; [exact Hup|]. by split; [|left].
  - case_match; [|done]. by intros [= <-].
Qed.

Lemma pin_job_profile_evolves k ta bi p v st me s s1 :
  pin_job_profile k ta bi p v st me s = Ok s1 → evolves released s s1.
Proof.
  unfold pin_job_profile. intros Hop. do 3 (destruct (negb _); [done|]).
  destruct (s.(jobs) !! k) as [r|] eqn:Hr; [|done].
  destruct (pinnable p v r) eqn:Hpin; [|done]. simpl in Hop. destruct (negb _); [done|].
  injection Hop as <-. eapply evolves_row; [exact Hr| |by left]. split; [done|].
  intros [q Hq]. unfold pinnable in Hpin. rewrite Hq in Hpin.
  apply andb_prop in Hpin as [->%String.eqb_eq Hv%bool_decide_eq_true]. by rewrite Hv, Hq.
Qed.

Lemma update_reclaiming_evolves sha path old new s :
  evolves released s (update_reclaiming sha path old new s).
Proof.
  unfold update_reclaiming. destruct (_ !! sha) as [c|] eqn:Hc; [|reflexivity].
  case_decide; [|reflexivity]. apply rtc_once, prim_side; [done|]. intros r k _ [c' Hc'].
  simpl. destruct (decide (sha = r.(row_job).(content_sha256))) as [->|];
    simplify_map_eq; eauto.
Qed.

Lemma claim_reclaimable_evolves limit s :
  evolves released s (claim_reclaimable_terminal_content limit s).1.
Proof.
  simpl. generalize (reclaim_candidates limit s) as l. intros l. revert s.
  induction l as [|c l IH]; intros s; simpl; [reflexivity|]. etrans; [|apply IH].
  case_match; [reflexivity|apply update_reclaiming_evolves].
Qed.

Lemma mark_terminal_content_reclaimed_evolves sha path s s1 b :
  mark_terminal_content_reclaimed sha path s = Ok (s1, b) → evolves released s s1.
Proof.
  unfold mark_terminal_content_reclaimed. case_match.
  { intros [= <- _]. apply update_reclaiming_evolves. }
  intros (s2 & Hdel & [= <- _])%bind_Ok.
  revert Hdel. set (s3 := set_jobs _ _). intros Hdel. trans s3.
  { apply rtc_once, prim_rows. intros r. by case_match. }
  revert Hdel. unfold delete_content.
  destruct (s3.(content_files) !! sha) as [c|]; [|by intros [= <-]].
  case_decide; [|by intros [= <-]]. destruct (existsb _ _) eqn:Hex; [done|]. intros [= <-].
  apply rtc_once, prim_side; [done|]. intros r k Hr Hc. simpl.
  destruct (decide (sha = r.(row_job).(content_sha256))) as [Hsha|]; [|by simplify_map_eq].
  apply not_true_iff_false in Hex. exfalso. apply Hex, existsb_exists. exists r.
  split; [apply list_elem_of_In, elem_of_btree_values; eauto|by apply bool_decide_eq_true].
Qed.

Lemma reopen_evolves s : evolves released s (reopen s).
Proof.
  apply rtc_once, prim_side; [done|]. intros r k _ [c Hc]. simpl. rewrite lookup_fmap, Hc. eauto.
Qed.

Lemma mark_confidential_file_deleted_evolves k s :
  evolves released s (mark_confidential_file_deleted k s).
Proof.
  unfold mark_confidential_file_deleted.
  destruct (update_job _ _ _ s) as [s1|] eqn:Hup; simpl; [|reflexivity].
  eapply evolves_update_job; [exact Hup|]. by split; [|left].
Qed.
End cloud.

(** * Operations *)

Inductive StoreOp :=
| AcceptJob (job : AcceptedJob) (facts : JobPersistenceFacts)
| PrepareCloudJob (job : AcceptedJob) (lease_id lease_token : string) (lease_expires : Z)
    (route : CloudRouteProof) (facts : JobPersistenceFacts)
| ConfirmCloudAccept (job : string) (t : Z)
| ActivateCloudJob (job : string) (t : Z)
| AbandonCloudAccept (job : string) (t : Z)
| QuarantineInvalid (t : Z)
| QuarantinePrepared (job reason : string) (t : Z)
| CompleteCleanup (job : string)
| CompleteAllCleanups
| BackfillOwner (job connector : string) (t : Z)
| PinJobProfile (job : string) (target binding : option string) (profile : string) (revision : N)
    (stock media : option string)
| FinalizeCloudRecovery (job : string)
| RecordNativeAcceptance (job native details : string) (t next_observe deadline : Z)
| ScheduleNativeReconciliation (job native : string) (next_observe deadline : Z)
| SetNativeJobId (job native : string) (t : Z)
| RecordLocalUncertainty (job : string) (t : Z)
| ConfirmLocalAccepted (job ambiguity : string) (t : Z)
| RequestCancel (job : string) (t : Z)
| CancelBeforeHandoff (job : string) (t : Z)
| ExpireWaiting (now : Z)
| FinishReconciliation (job : string)
| AcknowledgeEvents (through t : Z)
| AcknowledgeCloudEvent (event_id : string) (t : Z)
| ClaimReclaimable (limit : nat)
| MarkReclaimed (sha256 path : string)
| CancelReclaim (sha256 path : string)
| MarkConfidentialDeleted (job : string)
| Reopen
(** the releases *)
| RecordLocalRetryable (job reason message details : string) (t next_attempt : Z)
| RecordCloudRecovery (job st reason message : string) (t : Z)
| ReleaseLocal (job ambiguity : string) (t next_attempt : Z)
| ReleaseCloud (job : string) (t : Z).

(** The job that an operation may put back in the queue after a possible handoff. *)
Definition releases (op : StoreOp) : option string :=
  match op with
  | RecordLocalRetryable job _ _ _ _ _ | RecordCloudRecovery job _ _ _ _
  | ReleaseLocal job _ _ _ | ReleaseCloud job _ => Some job
  | _ => None
  end.

Section operations.
Context `{StoreExternal}.

Definition discard {A} (m : SM A) : SM unit := _ ← m; mret ().
Definition always (f : AgentStore → AgentStore) : SM unit := execute (λ s, Ok (f s)).
Definition with_id (f : string → AgentStore → result StorageError AgentStore) : SM unit :=
  id ← new_event_id; execute (f id).
Definition dropping {A} (f : AgentStore → result StorageError (AgentStore * A)) : SM unit :=
  discard (transaction f).

Definition run (op : StoreOp) : SM unit :=
  match op with
  | AcceptJob job facts => id ← new_event_id; dropping (accept_job_with_facts id job facts)
  | PrepareCloudJob job li lt le route facts =>
    dropping (prepare_cloud_job_with_facts job li lt le route facts)
  | ConfirmCloudAccept job t => execute (confirm_cloud_accept job t)
  | ActivateCloudJob job t => id ← new_event_id; dropping (activate_cloud_job id job t)
  | AbandonCloudAccept job t => execute (abandon_cloud_accept job t)
  | QuarantineInvalid t =>
    dropping (λ s, ok_or (quarantine_invalid_cloud_accepts t s) Sql)
  | QuarantinePrepared job reason t => dropping (quarantine_prepared_cloud_accept job reason t)
  | CompleteCleanup job => always (complete_cloud_release_cleanup job)
  | CompleteAllCleanups => always complete_all_cloud_release_cleanups
  | BackfillOwner job connector t => execute (backfill_cloud_route_owner job connector t)
  | PinJobProfile job target binding profile revision stock media =>
    execute (pin_job_profile job target binding profile revision stock media)
  | FinalizeCloudRecovery job => execute (finalize_uncertain_cloud_handoff_recovery job)
  | RecordNativeAcceptance job native details t next deadline =>
    with_id (λ id, record_native_acceptance id job native details t next deadline)
  | ScheduleNativeReconciliation job native next deadline =>
    execute (schedule_native_reconciliation job native next deadline)
  | SetNativeJobId job native t => execute (set_native_job_id job native t)
  | RecordLocalUncertainty job t => with_id (λ id, record_local_handoff_uncertainty id job t)
  | ConfirmLocalAccepted job a t =>
    with_id (λ id, confirm_uncertain_local_handoff_accepted id job a t)
  | RequestCancel job t => discard (request_cancel job t)
  | CancelBeforeHandoff job t => discard (cancel_before_handoff job t)
  | ExpireWaiting now => discard (expire_waiting now)
  | FinishReconciliation job => always (finish_reconciliation job)
  | AcknowledgeEvents through t => dropping (λ s, Ok (acknowledge_events through t s))
  | AcknowledgeCloudEvent id t => dropping (acknowledge_cloud_event id t)
  | ClaimReclaimable limit => dropping (λ s, Ok (claim_reclaimable_terminal_content limit s))
  | MarkReclaimed sha256 path => dropping (mark_terminal_content_reclaimed sha256 path)
  | CancelReclaim sha256 path => always (cancel_terminal_content_reclaim sha256 path)
  | MarkConfidentialDeleted job => always (mark_confidential_file_deleted job)
  | Reopen => always reopen
  | RecordLocalRetryable job reason message details t next =>
    with_id (λ id, record_local_retryable_failure id job reason message details t next)
  | RecordCloudRecovery job st reason message t =>
    with_id (λ id, record_cloud_handoff_recovery id job st reason message t)
  | ReleaseLocal job a t next =>
    with_id (λ id, release_uncertain_local_handoff_for_retry id job a t next)
  | ReleaseCloud job t => with_id (λ id, release_uncertain_cloud_handoff_for_retry id job t)
  end.
End operations.

(** * Every operation evolves the tables *)

Definition sm_evolves `{StoreExternal} {A} (released : option string) (m : SM A) : Prop :=
  ∀ v, quiet v → store_wf v.(db) → quiet (m v).1 ∧ evolves released v.(db) (m v).1.(db).

Section rules.
Context `{StoreExternal} (released : option string).

Lemma sm_evolves_ret {A} (a : A) : sm_evolves released (mret a).
Proof. intros v Hq _. by split; [|reflexivity]. Qed.

Lemma sm_evolves_event_id : sm_evolves released new_event_id.
Proof. intros v Hq _. by split; [|reflexivity]. Qed.

Lemma sm_evolves_bind {A B} (m : SM A) (k : A → SM B) :
  sm_evolves released m → (∀ a, sm_evolves released (k a)) → sm_evolves released (x ← m; k x).
Proof.
  intros Hm Hk v Hq Hwf. destruct (Hm v Hq Hwf) as [Hq1 Hev]. unfold mbind, sm_bind.
  destruct (m v) as [v1 [a|err]]; simpl in *; [|done].
  destruct (Hk a v1 Hq1) as [Hq2 Hev2]; [by eapply evolves_wf|]. split; [done|]. by etrans.
Qed.

Lemma sm_evolves_transaction {A} (f : AgentStore → result StorageError (AgentStore * A)) :
  (∀ s s1 a, store_wf s → f s = Ok (s1, a) → evolves released s s1) →
  sm_evolves released (transaction f).
Proof.
  intros Hf v Hq Hwf. unfold transaction. rewrite (quiet_meanwhile v Hq).
  destruct (head (faults v)) as [[]|]; [by split; [apply quiet_next|reflexivity]| |];
    destruct (f (db v)) as [[s1 a]|err] eqn:Hrun; (split; [by apply quiet_next|]); simpl; eauto; reflexivity.
Qed.

Lemma sm_evolves_execute f :
  (∀ s s1, store_wf s → f s = Ok s1 → evolves released s s1) → sm_evolves released (execute f).
Proof.
  intros Hf. apply sm_evolves_transaction. intros s s1 [] Hwf (s2 & Hrun & [= <-])%bind_Ok. eauto.
Qed.

Lemma sm_evolves_discard {A} (m : SM A) : sm_evolves released m → sm_evolves released (discard m).
Proof. intros Hm. apply sm_evolves_bind; [done|]. intros a. apply sm_evolves_ret. Qed.

Lemma sm_evolves_with_id f :
  (∀ id s s1, f id s = Ok s1 → evolves released s s1) → sm_evolves released (with_id f).
Proof.
  intros Hf. apply sm_evolves_bind; [apply sm_evolves_event_id|]. intros id.
  apply sm_evolves_execute. eauto.
Qed.

Lemma sm_evolves_always f :
  (∀ s, evolves released s (f s)) → sm_evolves released (always f).
Proof. intros Hf. apply sm_evolves_execute. intros s s1 _ [= <-]. apply Hf. Qed.

Lemma sm_evolves_triple {A} (m : SM A) :
  (∀ s0, store_wf s0 → sm_triple (λ s, s = s0) m (λ _, evolves released s0) (evolves released s0)) →
  sm_evolves released m.
Proof.
  intros Hm v Hq Hwf. specialize (Hm _ Hwf v Hq eq_refl). by destruct (m v) as [v1 [a|err]].
Qed.
End rules.

Section operations_evolve.
Context `{StoreExternal}.

(** Appending an event at a known state follows an edge of the store. *)
Lemma append_next_evolves s0 k st0 st re me de t :
  (st0, st) ∈ store_edges →
  sm_triple (λ s, evolves None s0 s ∧ job_state s k = Some st0) (append_next k st re me de t)
    (λ _ s, evolves None s0 s ∧ job_state s k = Some st) (evolves None s0).
Proof.
  intros Hedge. eapply sm_triple_bind; [apply sm_triple_event_id|]. intros id.
  apply sm_triple_read; [tauto|]. intros seq.
  eapply (sm_triple_bind _ _ (λ _ s, evolves None s0 s ∧ job_state s k = Some st));
    [|intros _; by apply sm_triple_ret].
  apply sm_triple_execute; [tauto|]. intros s s1 [Hev Hst] Hap. split.
  - etrans; [exact Hev|]. eapply evolves_append_event; [exact Hap|]. intros r Hr.
    unfold job_state in Hst. rewrite Hr in Hst. injection Hst as ->. by left.
  - apply append_event_Ok in Hap as (_ & s2 & r & _ & _ & ->).
    unfold job_state. simpl. by rewrite lookup_insert_eq.
Qed.

Lemma query_job_state k j s : query_job k s = Some j → job_state s k = Some j.(state).
Proof. intros (r & Hr & <-)%query_job_Some. unfold job_state. by rewrite Hr. Qed.

Lemma cancel_before_handoff_evolves k t : sm_evolves None (cancel_before_handoff k t).
Proof.
  apply sm_evolves_triple. intros s0 _.
  apply (sm_triple_bind _ _ (λ found s, s = s0 ∧ found = query_job k s0)).
  { apply sm_triple_query; [by intros s ->|naive_solver]. }
  intros [j|]; [|apply sm_triple_fail; by intros s [-> _]].
  destruct (String.eqb _ _); [apply sm_triple_ret; by intros s [-> _]|].
  destruct (bool_decide _) eqn:Hst; simpl; [|apply sm_triple_ret; by intros s [-> _]].
  assert ((j.(state), "cancel_requested"%string) ∈ store_edges) as Hedge.
  { state_cases Hst; rewrite Hst; apply (bool_decide_unpack _); vm_compute; exact I. }
  eapply (sm_triple_bind _ _ (λ _ s, evolves None s0 s ∧
            job_state s k = Some "cancel_requested"%string)).
  { eapply sm_triple_pre; [by apply (append_next_evolves s0 k j.(state))|].
    intros s [-> Hj]. split; [reflexivity|]. by apply query_job_state. }
  intros _. eapply (sm_triple_bind _ _ (λ _, evolves None s0));
    [|intros _; by apply sm_triple_ret].
  eapply sm_triple_post; [apply (append_next_evolves s0 k "cancel_requested")|by intros a s []].
  apply (bool_decide_unpack _); vm_compute; exact I.
Qed.

Lemma request_cancel_evolves k t : sm_evolves None (request_cancel k t).
Proof.
  apply sm_evolves_triple. intros s0 Hwf.
  apply (sm_triple_bind _ _ (λ found s, s = s0 ∧ found = query_job k s0)).
  { apply sm_triple_query; [by intros s ->|naive_solver]. }
  intros [j|]; [|apply sm_triple_fail; by intros s [-> _]].
  destruct (bool_decide _).
  { intros v Hq [Hv _]. pose proof (cancel_before_handoff_evolves k t v Hq) as Hc. rewrite Hv in Hc.
    specialize (Hc Hwf). by destruct (cancel_before_handoff k t v) as [? []]. }
  destruct (String.eqb _ _); [apply sm_triple_ret; by intros s [-> _]|].
  destruct (bool_decide _) eqn:Hst; simpl; [|apply sm_triple_ret; by intros s [-> _]].
  eapply (sm_triple_bind _ _ (λ _ s, evolves None s0 s ∧
            job_state s k = Some "cancel_requested"%string)).
  { eapply sm_triple_pre; [apply (append_next_evolves s0 k j.(state))|].
    - state_cases Hst; rewrite Hst; apply (bool_decide_unpack _); vm_compute; exact I.
    - intros s [-> Hj]. split; [reflexivity|]. by apply query_job_state. }
  intros _. eapply (sm_triple_bind _ _ (λ _, evolves None s0));
    [|intros _; by apply sm_triple_ret].
  apply sm_triple_execute; [tauto|]. intros s s1 [Hev _] [= <-].
  etrans; [exact Hev|]. apply mark_cancel_evolves.
Qed.

(** ** The rows of the queue *)

Lemma elem_of_job_rows r s : store_wf s → r ∈ job_rows s ↔ s.(jobs) !! r.(row_job).(job_id) = Some r.
Proof.
  intros Hwf. unfold job_rows. rewrite elem_of_btree_values. split; [|eauto].
  intros [k Hk]. by rewrite (wf_key _ Hwf _ _ Hk).
Qed.

Lemma job_rows_ids s : store_wf s → NoDup ((λ r, r.(row_job).(job_id)) <$> job_rows s).
Proof.
  intros Hwf. unfold job_rows, btree_values. rewrite <- list_fmap_compose.
  rewrite (list_fmap_ext _ fst).
  - rewrite btree_entries_perm. apply NoDup_fst_map_to_list.
  - intros i [k r] Hi. simpl. apply (wf_key _ Hwf), elem_of_btree_entries.
    by eapply list_elem_of_lookup_2.
Qed.

Lemma filtered_ids s (P : JobRow → Prop) `{∀ r, Decision (P r)} :
  store_wf s → NoDup ((λ r, r.(row_job).(job_id)) <$> filter P (job_rows s)).
Proof.
  intros Hwf. eapply sublist_NoDup; [apply (job_rows_ids _ Hwf)|].
  apply fmap_sublist, sublist_filter.
Qed.

Lemma expire_loop s0 now ids :
  NoDup ids →
  sm_triple
    (λ s, evolves None s0 s ∧ ∀ k, k ∈ ids → ∃ st, st ∈ queued_states ∧ job_state s k = Some st)
    (for_each (λ job,
        sequence ← query (next_sequence job);
        event_id ← new_event_id;
        execute (append_event event_id job sequence "expired"
                   (Some "expired_before_handoff"%string)
                   (Some "Job expired before native submission"%string) "{}" now)) ids)
    (λ _, evolves None s0) (evolves None s0).
Proof.
  induction ids as [|k ids IH]; intros Hnd; [apply sm_triple_ret; tauto|].
  apply NoDup_cons in Hnd as [Hk Hnd].
  simpl. eapply sm_triple_bind; [|intros u; apply IH, Hnd].
  apply sm_triple_read; [tauto|]. intros seq.
  eapply sm_triple_bind; [apply sm_triple_event_id|]. intros id.
  apply sm_triple_execute; [tauto|]. intros s s1 [Hev Hq] Hap. split.
  - etrans; [exact Hev|]. eapply evolves_append_event; [exact Hap|]. intros r Hr.
    destruct (Hq k) as (st & Hst & Hjs); [set_solver|]. unfold job_state in Hjs.
    rewrite Hr in Hjs. injection Hjs as ->.
    repeat (apply elem_of_cons in Hst as [->|Hst]); [solve_edge..|by apply not_elem_of_nil in Hst].
  - intros k' Hk'. destruct (Hq k') as (st & Hst & Hjs); [set_solver|]. exists st. split; [done|].
    apply append_event_Ok in Hap as (_ & s2 & r & _ & _ & ->).
    unfold job_state in *. simpl. rewrite lookup_insert_ne; [done|]. by intros ->.
Qed.

Lemma expire_waiting_evolves now : sm_evolves None (expire_waiting now).
Proof.
  apply sm_evolves_triple. intros s0 Hwf.
  apply (sm_triple_bind _ _ (λ ids s, s = s0 ∧ ids = waiting_expired now s0)).
  { apply sm_triple_query; [by intros s ->|naive_solver]. }
  intros ids. eapply (sm_triple_bind _ _ (λ _, evolves None s0)); [|intros _; by apply sm_triple_ret].
  destruct (decide (ids = waiting_expired now s0)) as [->|Hne];
    [|intros v _ [_ Hids]; by destruct Hne].
  eapply sm_triple_pre; [apply expire_loop; by apply filtered_ids|].
  intros s [-> _]. split; [reflexivity|].
  intros k (r & -> & [[Hst _] Hr]%list_elem_of_filter)%list_elem_of_fmap.
  apply (elem_of_job_rows _ _ Hwf) in Hr. exists (row_state r). split; [done|].
  unfold job_state. by rewrite Hr.
Qed.
End operations_evolve.

#[export] Hint Resolve accept_job_with_facts_evolves prepare_cloud_job_with_facts_evolves
  confirm_cloud_accept_evolves activate_cloud_job_evolves abandon_cloud_accept_evolves
  quarantine_prepared_cloud_accept_evolves backfill_cloud_route_owner_evolves pin_job_profile_evolves
  finalize_uncertain_cloud_handoff_recovery_evolves record_native_acceptance_evolves
  schedule_native_reconciliation_evolves set_native_job_id_evolves
  record_local_handoff_uncertainty_evolves confirm_uncertain_local_handoff_accepted_evolves
  request_cancel_evolves cancel_before_handoff_evolves expire_waiting_evolves
  finish_reconciliation_evolves acknowledge_cloud_event_evolves
  mark_terminal_content_reclaimed_evolves update_reclaiming_evolves
  mark_confidential_file_deleted_evolves reopen_evolves record_local_retryable_failure_evolves
  record_cloud_handoff_recovery_evolves release_uncertain_local_handoff_for_retry_evolves
  release_uncertain_cloud_handoff_for_retry_evolves : agent.

Section runs.
Context `{StoreExternal}.

Lemma run_evolves op : sm_evolves (releases op) (run op).
Proof.
  destruct op; cbn [run releases]; unfold dropping;
    repeat first [ apply sm_evolves_always; intros ?
                 | apply sm_evolves_execute; intros ???
                 | apply sm_evolves_with_id; intros ???
                 | apply sm_evolves_bind; [apply sm_evolves_event_id|intros ?]
                 | apply sm_evolves_discard
                 | apply sm_evolves_transaction; intros ???? ];
    eauto with agent; try (by apply evolves_side).
  - intros (s2 & Hloop & [= <- _])%ok_or_Ok%bind_Some. by eapply quarantine_loop_evolves.
  - intros [= <- _]. apply acknowledge_where_evolves.
  - intros [= <- _]. apply (claim_reclaimable_evolves _ limit).
Qed.
End runs.
