(* ===== verification/AgentEngine.v ===== *)
(** The agent's engine (crates/agent-core/src/lib.rs, [AgentEngine]): it takes the head
    of every printer's queue through the local state machine, hands it to the
    executor, and reconciles accepted jobs with the operating system's spooler.

    The engine is a state monad [M] over the store's environment, the executor and
    the clock, with [AgentError] as its error.  Every call that leaves the process (a
    statement on the store, a call of the executor, the removal of a file) first takes
    the next entry of the environment's faults: a fault stops the call before it
    happens, so a list of faults describes a storage failure or a crash at any point.
    Before each of these calls, another connection to the database may commit.
    [trace] is what the theorems observe; the engine never reads it. *)
From S2P Require Import Prelude Domain AgentStore.
Import Job.

#[local] Open Scope Z_scope.

(** * Data *)

Inductive NativeProfileKind :=
| PortableOptions | WindowsDevmode | WindowsPrintTicket | MacosPrintcore | CupsOptions
| CupsInstance | NativeQueue.

#[export] Instance NativeProfileKind_eq_dec : EqDecision NativeProfileKind.
Proof. solve_decision. Defined.

(** serde's [snake_case] names. *)
Definition native_kind_from_name (name : string) : option NativeProfileKind :=
  if String.eqb name "portable_options" then Some PortableOptions else
  if String.eqb name "windows_devmode" then Some WindowsDevmode else
  if String.eqb name "windows_print_ticket" then Some WindowsPrintTicket else
  if String.eqb name "macos_printcore" then Some MacosPrintcore else
  if String.eqb name "cups_options" then Some CupsOptions else
  if String.eqb name "cups_instance" then Some CupsInstance else
  if String.eqb name "native_queue" then Some NativeQueue else None.

Inductive SafeProfileOverride :=
| OverrideBin | OverrideCollate | OverrideColor | OverrideCopies | OverrideDpi
| OverrideDuplex | OverrideFitToPage | OverrideMedia | OverrideNup | OverridePages
| OverridePaper | OverrideRotate.

Record DriverFingerprint := {
  df_platform : string;
  df_driver_name : string;
  df_driver_version : option string;
  df_architecture : option string;
  df_native_queue_id : string;
  df_device_fingerprint : option string;
  df_driver_package_fingerprint : option string;
  df_firmware_version : option string;
}.

Record NativeProfilePayload := {
  np_profile_id : string;
  np_revision : N;
  np_kind : NativeProfileKind;
  np_schema_version : N;
  np_digest : string;
  np_blob : string;
  np_safe_overrides : list SafeProfileOverride;
  np_driver_fingerprint : DriverFingerprint;
}.

Inductive DurableProfileSnapshot :=
| Portable (profile_id : string) (revision : N)
| Native (payload : NativeProfilePayload).

(** [route_fence] is always [None] when the engine submits: the coordinated executor
    fills it in. *)
Record LocalSubmission := {
  sub_job_id : string;
  sub_submission_id : string;
  sub_printer_id : string;
  sub_printer_native_id : string;
  sub_title : string;
  sub_content_path : string;
  sub_content_kind : string;
  sub_options : JobOptions;
  sub_native_profile : option NativeProfilePayload;
  sub_printer_native_binding : option PrinterNativeBindingPin;
  sub_route_connector_id : option string;
  sub_deadline_unix_ms : Z;
}.

Record NativeAcceptance := { acc_native_job_id : string }.

Record NativeJobReference := {
  ref_job_id : string;
  ref_printer_native_id : string;
  ref_native_job_id : string;
  ref_deadline_unix_ms : Z;
}.

Record ExecutorFailure := {
  code : string;
  message : string;
  retryable : bool;
  handoff_may_have_succeeded : bool;
  native_code : option string;
}.

(** The states the spooler reports. *)
Module Spool.
Inductive NativeJobState :=
| Queued | Printing | Blocked | Completed | Failed | Cancelled | Missing | Unknown.
End Spool.
Import Spool(NativeJobState).

Record NativeJobObservation := {
  ob_state : NativeJobState;
  ob_native_code : option string;
  ob_message : option string;
}.

Inductive AgentError :=
| Storage (error : StorageError)
| InvalidNativeProfile
| InvalidState (name : string)
| InvalidTransition (from to : JobState)
| Interrupted.

(** The [Executor] trait: each call may change the executor. *)
Class Executor (X : Type) := {
  submit : LocalSubmission → X → X * result ExecutorFailure NativeAcceptance;
  observe : NativeJobReference → X → X * result ExecutorFailure NativeJobObservation;
  cancel : NativeJobReference → X → X * result ExecutorFailure unit;
}.

(** The JSON texts of [serde_json], the parsers it derives, the text of a
    [JobOptionsError], and the [n]-th reading of the clock. *)
Class EngineExternal := {
  options_from_json : string → result string JobOptions;
  options_error_text : JobOptionsError → string;
  invalid_options_json : string → string;
  acceptance_json : string → string;
  failure_json : ExecutorFailure → string;
  observation_json : NativeJobObservation → string;
  snapshot_from_json : string → option DurableProfileSnapshot;
  overrides_from_json : string → option (list SafeProfileOverride);
  driver_from_json : string → option DriverFingerprint;
  unix_ms : nat → Z;
}.

(** * State names *)

Definition state_name (s : JobState) : string :=
  match s with
  | Registered => "registered" | ContentPending => "content_pending"
  | WaitingForAgent => "waiting_for_agent" | AgentDownloading => "agent_downloading"
  | AgentAccepted => "agent_accepted" | QueuedLocal => "queued_local"
  | Preparing => "preparing" | Rendering => "rendering" | SpoolIntent => "spool_intent"
  | AcceptedBySpooler => "accepted_by_spooler" | Spooling => "spooling"
  | Printing => "printing" | Blocked => "blocked"
  | CompletedReported => "completed_reported" | DeliveryUncertain => "delivery_uncertain"
  | CancelRequested => "cancel_requested" | Cancelled => "cancelled" | Expired => "expired"
  | FailedRetryable => "failed_retryable" | FailedTerminal => "failed_terminal"
  end.

Definition parse_state (value : string) : result AgentError JobState :=
  if String.eqb value "registered" then Ok Registered else
  if String.eqb value "content_pending" then Ok ContentPending else
  if String.eqb value "waiting_for_agent" then Ok WaitingForAgent else
  if String.eqb value "agent_downloading" then Ok AgentDownloading else
  if String.eqb value "agent_accepted" then Ok AgentAccepted else
  if String.eqb value "queued_local" then Ok QueuedLocal else
  if String.eqb value "preparing" then Ok Preparing else
  if String.eqb value "rendering" then Ok Rendering else
  if String.eqb value "spool_intent" then Ok SpoolIntent else
  if String.eqb value "accepted_by_spooler" then Ok AcceptedBySpooler else
  if String.eqb value "spooling" then Ok Spooling else
  if String.eqb value "printing" then Ok Printing else
  if String.eqb value "blocked" then Ok Blocked else
  if String.eqb value "completed_reported" then Ok CompletedReported else
  if String.eqb value "delivery_uncertain" then Ok DeliveryUncertain else
  if String.eqb value "cancel_requested" then Ok CancelRequested else
  if String.eqb value "cancelled" then Ok Cancelled else
  if String.eqb value "expired" then Ok Expired else
  if String.eqb value "failed_retryable" then Ok FailedRetryable else
  if String.eqb value "failed_terminal" then Ok FailedTerminal else
  Err (InvalidState value).

Definition native_state_name (s : NativeJobState) : string :=
  match s with
  | Spool.Queued => "queued" | Spool.Printing => "printing" | Spool.Blocked => "blocked"
  | Spool.Completed => "completed" | Spool.Failed => "failed"
  | Spool.Cancelled => "cancelled" | Spool.Missing => "missing" | Spool.Unknown => "unknown"
  end.

Definition DEFAULT_EXECUTION_DEADLINE_MS : Z := 120000.
Definition DEFAULT_OBSERVATION_DEADLINE_MS : Z := 30000.
Definition DEFAULT_RECONCILIATION_INTERVAL_MS : Z := 2000.
Definition DEFAULT_UNCERTAINTY_AFTER_MS : Z := 10 * 60 * 1000.
Definition DEFAULT_LOCAL_RETRY_DELAY_MS : Z := 2000.

(** [+] on [i64], as a release build computes it. *)
Definition i64_add (a b : Z) : Z := (a + b - i64_min) mod 2 ^ 64 + i64_min.

(** * The engine's monad *)

(** A call of [submit]: what was submitted, the outcome, and the durable state of the
    job when the call was made, with the number of intents that the log holds for it. *)
Record Submission := {
  call : LocalSubmission;
  outcome : result ExecutorFailure NativeAcceptance;
  durable_state : option string;
  durable_intents : nat;
}.

(** The recorded intents to submit a job. *)
Definition intents (job : string) (s : AgentStore) : nat :=
  length (filter (λ ev, ev.(ev_job_id) = job ∧ ev.(ev_state) = "spool_intent"%string) s.(job_events)).

(** What the theorems observe, newest first: the calls of [submit], and the explicit
    releases that operations of the store make between runs of the engine. *)
Inductive TraceEvent :=
| Submitted (s : Submission)
| Released (job_id : string).

Record Engine (X : Type) := {
  env : StoreEnv;
  executor : X;
  ticks : nat;
  removed_files : list string;
  trace : list TraceEvent;
}.
Arguments env {X}.
Arguments executor {X}.
Arguments ticks {X}.
Arguments removed_files {X}.
Arguments trace {X}.

Definition M (X A : Type) : Type := Engine X → Engine X * result AgentError A.

#[export] Instance m_ret {X} : MRet (M X) := λ A a e, (e, Ok a).
#[export] Instance m_bind {X} : MBind (M X) := λ A B k m e,
  match m e with
  | (e, Ok a) => k a e
  | (e, Err err) => (e, Err err)
  end.

Definition throw {X A} (err : AgentError) : M X A := λ e, (e, Err err).
Definition lift {X A} (r : result AgentError A) : M X A := λ e, (e, r).

Definition with_env {X} (v : StoreEnv) (e : Engine X) : Engine X :=
  {| env := v; executor := e.(executor); ticks := e.(ticks);
     removed_files := e.(removed_files); trace := e.(trace) |}.

(** A call of the store: its errors become [AgentError::Storage]. *)
Definition store {X A} (m : SM A) : M X A := λ e,
  let '(v, r) := m e.(env) in (with_env v e, map_err Storage r).

(** The next fault, before a call that is not a statement on the store. *)
Definition interruptible {X} : M X unit := λ e,
  let v := e.(env) in
  (with_env (next_env (meanwhile v) v) e, match head v.(faults) with Some true => Err Interrupted | _ => Ok () end).

(** A call that cannot fail by itself: a fault stops it before it happens. *)
Definition effect {X A} (f : Engine X → Engine X * A) : M X A :=
  _ ← interruptible;
  (λ e, let '(e1, a) := f e in (e1, Ok a)) : M X A.

(** * Operations *)

Section engine.
Context `{StoreExternal} `{EngineExternal} {X : Type} `{Executor X}.
Implicit Types (e : Engine X) (job : LocalJob).

Definition now_ms : M X Z := λ e,
  ({| env := e.(env); executor := e.(executor); ticks := S e.(ticks);
      removed_files := e.(removed_files); trace := e.(trace) |}, Ok (unix_ms e.(ticks))).

(** [let _ = tokio::fs::remove_file(path).await]. *)
Definition remove_file (path : string) : M X unit :=
  effect (λ e, ({| env := e.(env); executor := e.(executor); ticks := e.(ticks);
                   removed_files := path :: e.(removed_files); trace := e.(trace) |}, ())).

Definition call_submit (s : LocalSubmission) :
    M X (result ExecutorFailure NativeAcceptance) :=
  effect (λ e,
    let '(x, r) := submit s e.(executor) in
    let seen := row_state <$> e.(env).(db).(jobs) !! s.(sub_job_id) in
    ({| env := e.(env); executor := x; ticks := e.(ticks); removed_files := e.(removed_files);
        trace := Submitted {| call := s; outcome := r; durable_state := seen;
                              durable_intents := intents s.(sub_job_id) e.(env).(db) |} :: e.(trace) |}, r)).

Definition call_executor {A} (f : X → X * A) : M X A :=
  effect (λ e,
    let '(x, r) := f e.(executor) in
    ({| env := e.(env); executor := x; ticks := e.(ticks); removed_files := e.(removed_files);
        trace := e.(trace) |}, r)).

Definition confidential_content_path (path : string) : option string :=
  if is_confidential_path path then Some path else None.

(** Removes the plaintext of a confidential job. *)
Definition remove_confidential (path : string) : M X unit :=
  match confidential_content_path path with
  | Some path => remove_file path
  | None => mret ()
  end.

Definition accept (job : AcceptedJob) : M X LocalJob :=
  store (id ← new_event_id; transaction (accept_job id job)).
Definition accept_with_facts (job : AcceptedJob) (facts : JobPersistenceFacts) : M X LocalJob :=
  store (id ← new_event_id; transaction (accept_job_with_facts id job facts)).

Definition transition (job_id from : string) (to : JobState) (reason : option string)
    (message details : string) : M X unit :=
  from ← lift (parse_state from);
  _ ← lift (map_err (λ _, InvalidTransition from to) (validate_transition from to));
  now ← now_ms;
  _ ← store (append_next job_id (state_name to) reason (Some message) details now);
  mret ().

Definition transition_if_needed (job : LocalJob) (to : JobState) (reason : option string)
    (message details : string) : M X unit :=
  if String.eqb job.(state) (state_name to) then mret ()
  else transition job.(job_id) job.(state) to reason message details.

Definition finish_schedule (job_id : string) : M X unit :=
  store (execute (λ s, Ok (finish_reconciliation job_id s))).

Definition mark_uncertain (job : LocalJob) (message details : string) (now : Z) : M X unit :=
  _ ← transition_if_needed job DeliveryUncertain (Some "ambiguous_handoff"%string) message details;
  finish_schedule job.(job_id).

(** ** Execution *)

Definition begin_execution (job : LocalJob) : M X unit :=
  st ← lift (parse_state job.(state));
  st ← (if decide (st = FailedRetryable) then
          if job.(cloud_managed) then throw (InvalidTransition FailedRetryable Preparing) else
          _ ← transition job.(job_id) job.(state) QueuedLocal (Some "local_retry"%string)
                "Retrying locally queued job after a pre-handoff failure" "{}";
          mret QueuedLocal
        else mret st);
  transition job.(job_id) (state_name st) Preparing None "Validating local job" "{}".

Definition fail_invalid_job_options (job : LocalJob) (error : string) : M X unit :=
  transition job.(job_id) "preparing" FailedTerminal (Some "invalid_print_options"%string)
    "Print options failed local safety validation before native handoff"
    (invalid_options_json error).

Definition validate_job_options (job : LocalJob) : M X (option JobOptions) :=
  match options_from_json job.(options_json) with
  | Err error => _ ← fail_invalid_job_options job error; mret None
  | Ok options =>
    match validate_bounds options with
    | Ok _ => mret (Some options)
    | Err error => _ ← fail_invalid_job_options job (options_error_text error); mret None
    end
  end.

Definition require {A} (o : option A) : M X A := lift (ok_or o InvalidNativeProfile).

(** The profile a local job pins, from the store's inventory. *)
Definition stored_native_profile (job : LocalJob) (profile : string) (revision : N) :
    M X (option NativeProfilePayload) :=
  found ← store (transaction (λ s, r ← named_profile_revision job.(printer_id) profile revision s;
                                   Ok (s, r)));
  metadata ← require found;
  kind ← require (native_kind_from_name metadata.(prof_native_kind));
  if decide (kind = PortableOptions) then mret None else
  found ← store (transaction (λ s, r ← native_profile_blob profile revision s; Ok (s, r)));
  native ← require found;
  if decide (metadata.(prof_native_blob_id) ≠ Some native.(blob_id) ∨
             metadata.(prof_native_digest) ≠ Some native.(blob_digest) ∨
             metadata.(prof_native_kind) ≠ native.(blob_native_kind))
  then throw InvalidNativeProfile else
  kind ← require (native_kind_from_name native.(blob_native_kind));
  overrides ← require (overrides_from_json metadata.(prof_safe_overrides_json));
  driver ← require (driver_from_json metadata.(prof_driver_fingerprint_json));
  mret (Some {| np_profile_id := profile; np_revision := revision; np_kind := kind;
                np_schema_version := native.(blob_schema_version);
                np_digest := native.(blob_digest); np_blob := native.(blob_native_blob);
                np_safe_overrides := overrides; np_driver_fingerprint := driver |}).

Definition native_profile_for_job (job : LocalJob) : M X (option NativeProfilePayload) :=
  match job.(profile_id), job.(profile_revision) with
  | None, None => mret None
  | Some profile, Some revision =>
    match job.(profile_snapshot_json) with
    | Some encoded =>
      snapshot ← require (snapshot_from_json encoded);
      match snapshot with
      | Portable id rev =>
        if decide (id = profile ∧ rev = revision) then mret None else throw InvalidNativeProfile
      | Native payload =>
        if decide (payload.(np_profile_id) = profile ∧ payload.(np_revision) = revision)
        then mret (Some payload) else throw InvalidNativeProfile
      end
    | None =>
      if job.(cloud_managed) then throw InvalidNativeProfile
      else stored_native_profile job profile revision
    end
  | _, _ => throw InvalidNativeProfile
  end.

Definition submission_for (job : LocalJob) (options : JobOptions)
    (profile : option NativeProfilePayload) (deadline : Z) : LocalSubmission :=
  {| sub_job_id := job.(job_id); sub_submission_id := job.(submission_id);
     sub_printer_id := job.(printer_id); sub_printer_native_id := job.(printer_native_id);
     sub_title := job.(title); sub_content_path := job.(content_path);
     sub_content_kind := job.(content_kind); sub_options := options;
     sub_native_profile := profile; sub_printer_native_binding := job.(printer_native_binding);
     sub_route_connector_id := job.(route_connector_id); sub_deadline_unix_ms := deadline |}.

(** The [Ok] arm of [execute_job]. *)
Definition record_accepted (job : LocalJob) (acceptance : NativeAcceptance) : M X unit :=
  now ← now_ms;
  let native := acceptance.(acc_native_job_id) in
  _ ← store (id ← new_event_id;
             execute (record_native_acceptance id job.(job_id) native (acceptance_json native) now
                        (i64_add now DEFAULT_RECONCILIATION_INTERVAL_MS)
                        (i64_add now DEFAULT_UNCERTAINTY_AFTER_MS)));
  remove_confidential job.(content_path).

(** The [Err] arm of [execute_job]. *)
Definition record_failed (job : LocalJob) (error : ExecutorFailure) : M X unit :=
  _ ← store (execute (λ s, Ok (record_executor_failure error.(code) s)));
  let '(st, reason) :=
    if error.(handoff_may_have_succeeded) then (DeliveryUncertain, "ambiguous_handoff"%string)
    else if error.(retryable) then (FailedRetryable, error.(code))
    else (FailedTerminal, error.(code)) in
  let details := failure_json error in
  _ ← (if error.(retryable) && negb error.(handoff_may_have_succeeded) && negb job.(cloud_managed)
       then
         now ← now_ms;
         store (id ← new_event_id;
                execute (record_local_retryable_failure id job.(job_id) reason error.(message)
                           details now (i64_add now DEFAULT_LOCAL_RETRY_DELAY_MS)))
       else transition job.(job_id) "spool_intent" st (Some reason) error.(message) details);
  if error.(retryable) then mret () else remove_confidential job.(content_path).

Definition execute_job (job : LocalJob) : M X unit :=
  _ ← begin_execution job;
  options ← validate_job_options job;
  match options with
  | None => remove_confidential job.(content_path)
  | Some options =>
    let pdf := String.eqb job.(content_kind) "pdf" in
    _ ← (if pdf
         then transition job.(job_id) "preparing" Rendering None
                "Preparing PDF for native submission" "{}"
         else mret ());
    _ ← transition job.(job_id) (if pdf then "rendering" else "preparing") SpoolIntent None
          "Persisted native spool intent" "{}";
    profile ← native_profile_for_job job;
    now ← now_ms;
    outcome ← call_submit (submission_for job options profile
                             (i64_add now DEFAULT_EXECUTION_DEADLINE_MS));
    match outcome with
    | Ok acceptance => record_accepted job acceptance
    | Err error => record_failed job error
    end
  end.

(** ** Reconciliation *)

Definition record_attempt (job_id native native_state authority details : string)
    (error_code : option string) (now : Z) : M X unit :=
  store (id ← new_event_id;
         execute (record_reconciliation_attempt id job_id native native_state authority details
                    error_code now (i64_add now DEFAULT_RECONCILIATION_INTERVAL_MS))).

Definition reconcile_cancellation (item : ReconciliationItem) (reference : NativeJobReference)
    (native : string) (now : Z) : M X unit :=
  let job := item.(item_job) in
  r ← call_executor (cancel reference);
  match r with
  | Ok _ =>
    _ ← record_attempt job.(job_id) native "cancelled" "executor" "{}" None now;
    _ ← transition job.(job_id) job.(state) Cancelled (Some "cancelled_by_user"%string)
          "Operating system accepted cancellation" "{}";
    finish_schedule job.(job_id)
  | Err error =>
    let details := failure_json error in
    _ ← record_attempt job.(job_id) native "cancel_failed" "executor" details
          (Some error.(code)) now;
    if item.(item_uncertainty_deadline_unix_ms) <=? now
    then mark_uncertain job "Cancellation outcome could not be proved" details now
    else mret ()
  end.

Definition apply_native_observation (item : ReconciliationItem) (native : string)
    (observation : NativeJobObservation) (now : Z) : M X unit :=
  let job := item.(item_job) in
  let details := observation_json observation in
  let in_states l := bool_decide (job.(state) ∈ l) in
  _ ← record_attempt job.(job_id) native (native_state_name observation.(ob_state))
        "native_spooler" details None now;
  match observation.(ob_state) with
  | Spool.Queued =>
    if in_states ["accepted_by_spooler"; "blocked"]%string
    then transition_if_needed job Spooling None "Native spooler reports the job queued" details
    else mret ()
  | Spool.Printing =>
    if in_states ["accepted_by_spooler"; "spooling"; "blocked"]%string
    then transition_if_needed job Printing None "Native spooler reports the job printing" details
    else mret ()
  | Spool.Blocked =>
    transition_if_needed job Blocked (Some "driver_error"%string)
      "Native spooler reports the job blocked" details
  | Spool.Completed =>
    _ ← transition_if_needed job CompletedReported None
          "Operating system spooler reported completion; physical output is not proven" details;
    finish_schedule job.(job_id)
  | Spool.Failed =>
    _ ← transition_if_needed job FailedTerminal (Some "driver_error"%string)
          "Native spooler reported terminal failure" details;
    finish_schedule job.(job_id)
  | Spool.Cancelled =>
    _ ← transition_if_needed job Cancelled None "Native spooler reported cancellation" details;
    finish_schedule job.(job_id)
  | Spool.Missing | Spool.Unknown =>
    if item.(item_uncertainty_deadline_unix_ms) <=? now
    then mark_uncertain job "Native spooler could not prove the final job outcome" details now
    else mret ()
  end.

Definition reconcile_item (item : ReconciliationItem) (now : Z) : M X unit :=
  let job := item.(item_job) in
  match job.(native_job_id) with
  | None =>
    mark_uncertain job "Native reconciliation schedule has no spooler identifier" "{}" now
  | Some native =>
    let reference :=
      {| ref_job_id := job.(job_id); ref_printer_native_id := job.(printer_native_id);
         ref_native_job_id := native;
         ref_deadline_unix_ms := i64_add now DEFAULT_OBSERVATION_DEADLINE_MS |} in
    if item.(item_cancel_requested) || String.eqb job.(state) "cancel_requested"
    then reconcile_cancellation item reference native now else
    r ← call_executor (observe reference);
    match r with
    | Ok observation => apply_native_observation item native observation now
    | Err error =>
      let details := failure_json error in
      _ ← record_attempt job.(job_id) native "observation_error" "executor" details
            (Some error.(code)) now;
      if item.(item_uncertainty_deadline_unix_ms) <=? now
      then mark_uncertain job
             "Native job could not be observed before the uncertainty deadline" details now
      else mret ()
    end
  end.

(** [for x in l { f(x)?; }]. *)
Fixpoint for_each_m {A} (f : A → M X unit) (l : list A) : M X unit :=
  match l with
  | [] => mret ()
  | x :: l => _ ← f x; for_each_m f l
  end.

Definition reconcile_due : M X nat :=
  now ← now_ms;
  items ← store (query (due_reconciliations now 32));
  _ ← for_each_m (λ item, reconcile_item item now) items;
  mret (length items).

Definition run_once : M X nat :=
  now ← now_ms;
  _ ← store (expire_waiting now);
  heads ← store (query (runnable_heads now));
  _ ← for_each_m execute_job heads;
  reconciled ← reconcile_due;
  mret (length heads + reconciled)%nat.

End engine.

(** * The test executor *)

Record FakeExecutor := {
  submitted : list LocalSubmission;
  fake_result : option (result ExecutorFailure NativeAcceptance);
  observations : list (result ExecutorFailure NativeJobObservation);
  cancellations : nat;
}.

(** The decimal text of a counter, as [format!] prints it. *)
Class DecimalText := decimal : nat → string.

#[export] Instance fake_executor `{DecimalText} : Executor FakeExecutor := {|
  submit s x :=
    let sent := x.(submitted) ++ [s] in
    ({| submitted := sent; fake_result := None; observations := x.(observations);
        cancellations := x.(cancellations) |},
     default (Ok {| acc_native_job_id := "fake-" +:+ decimal (length sent) |}) x.(fake_result));
  observe _ x :=
    match x.(observations) with
    | r :: rest =>
      ({| submitted := x.(submitted); fake_result := x.(fake_result); observations := rest;
          cancellations := x.(cancellations) |}, r)
    | [] => (x, Ok {| ob_state := Spool.Unknown;
                      ob_native_code := Some "fake-observation-exhausted"%string;
                      ob_message := None |})
    end;
  cancel _ x :=
    ({| submitted := x.(submitted); fake_result := x.(fake_result);
        observations := x.(observations); cancellations := S x.(cancellations) |}, Ok ());
|}.
