(* ===== verification/AgentEngineFacts.v ===== *)
(** What one run of the engine does: a program logic for the engine's monad, and the
    effect of executing and of reconciling one job, under every sequence of faults. *)
From S2P Require Import Prelude Domain AgentStore AgentStoreFacts AgentOps AgentEngine.
Import Job.

#[local] Open Scope Z_scope.

(** * A program logic for [M]

    Assertions speak of the tables and of the trace; no other connection commits. *)

Definition assertion : Type := AgentStore → list TraceEvent → Prop.

Definition m_triple {X A} (P : assertion) (m : M X A) (Q : A → assertion) (E : assertion) :
    Prop :=
  ∀ e, quiet e.(env) → P e.(env).(db) e.(trace) →
       match m e with
       | (e1, Ok a) => quiet e1.(env) ∧ Q a e1.(env).(db) e1.(trace)
       | (e1, Err _) => quiet e1.(env) ∧ E e1.(env).(db) e1.(trace)
       end.

Section logic.
Context {X : Type}.
Implicit Types (P E : assertion).

Lemma m_triple_ret {A} P E (a : A) (Q : A → assertion) :
  (∀ s t, P s t → Q a s t) → m_triple (X := X) P (mret a) Q E.
Proof. intros HQ e Hq HP. by split; [|apply HQ]. Qed.

Lemma m_triple_throw {A} P E err (Q : A → assertion) :
  (∀ s t, P s t → E s t) → m_triple (X := X) P (throw err) Q E.
Proof. intros HE e Hq HP. by split; [|apply HE]. Qed.

Lemma m_triple_lift {A} P E (r : result AgentError A) (Q : A → assertion) :
  (∀ s t, P s t → E s t) → (∀ a s t, r = Ok a → P s t → Q a s t) →
  m_triple (X := X) P (lift r) Q E.
Proof. intros HE HQ e Hq HP. unfold lift. destruct r; auto. Qed.

Lemma m_triple_bind {A B} P E (R : A → assertion) (Q : B → assertion) (m : M X A)
    (k : A → M X B) :
  m_triple P m R E → (∀ a, m_triple (R a) (k a) Q E) → m_triple P (x ← m; k x) Q E.
Proof.
  intros Hm Hk e Hq HP. specialize (Hm e Hq HP). unfold mbind, m_bind.
  destruct (m e) as [e1 [a|err]]; [|done]. destruct Hm. by apply (Hk a).
Qed.

Lemma m_triple_weaken {A} P P' E E' (Q Q' : A → assertion) (m : M X A) :
  m_triple P m Q E → (∀ s t, P' s t → P s t) → (∀ a s t, Q a s t → Q' a s t) →
  (∀ s t, E s t → E' s t) → m_triple P' m Q' E'.
Proof.
  intros Hm HP HQ HE e Hq He. specialize (Hm e Hq (HP _ _ He)).
  destruct (m e) as [e1 [a|err]]; naive_solver.
Qed.

Lemma m_triple_pre {A} P P' E (Q : A → assertion) (m : M X A) :
  m_triple P m Q E → (∀ s t, P' s t → P s t) → m_triple P' m Q E.
Proof. intros Hm HP. by eapply m_triple_weaken. Qed.

Lemma m_triple_post {A} P E (Q Q' : A → assertion) (m : M X A) :
  m_triple P m Q E → (∀ a s t, Q a s t → Q' a s t) → m_triple P m Q' E.
Proof. intros Hm HQ. by eapply m_triple_weaken. Qed.

Lemma m_triple_exists {A Y} (φ : Y → Prop) (P : Y → assertion) E (Q : A → assertion) (m : M X A) :
  (∀ y, φ y → m_triple (P y) m Q E) → m_triple (λ s t, ∃ y, φ y ∧ P y s t) m Q E.
Proof. intros Hm e Hq (y & Hy & HP). by apply (Hm y Hy). Qed.

Lemma m_triple_store {A} P E (Q : A → assertion) (m : SM A) :
  (∀ t, sm_triple (λ s, P s t) m (λ a s, Q a s t) (λ s, E s t)) → m_triple (X := X) P (store m) Q E.
Proof.
  intros Hm e Hq HP. specialize (Hm _ _ Hq HP). unfold store.
  by destruct (m (env e)) as [v [a|err]].
Qed.

(** Calls outside the store leave the tables alone. *)
Lemma m_triple_interruptible P E :
  (∀ s t, P s t → E s t) → m_triple (X := X) P interruptible (λ _, P) E.
Proof.
  intros HE e Hq HP. unfold interruptible. rewrite (quiet_meanwhile _ Hq).
  destruct (head _) as [[]|]; simpl; auto with agent.
Qed.

Lemma m_triple_effect {A} P E (Q : A → assertion) (f : Engine X → Engine X * A) :
  (∀ s t, P s t → E s t) →
  (∀ e, P e.(env).(db) e.(trace) → (f e).1.(env) = e.(env) ∧ Q (f e).2 (f e).1.(env).(db) (f e).1.(trace)) →
  m_triple P (effect f) Q E.
Proof.
  intros HE HQ. eapply m_triple_bind; [by apply m_triple_interruptible|].
  intros _ e Hq HP. destruct (HQ e HP) as [Henv HQ1]. destruct (f e). simpl in *. by rewrite Henv in *.
Qed.
End logic.

Section calls.
Context `{StoreExternal} `{EngineExternal} {X : Type} `{Executor X}.
Implicit Types (P E : assertion).

Lemma m_triple_now P E : m_triple (X := X) P now_ms (λ _, P) E.
Proof. by intros e Hq HP. Qed.

Lemma m_triple_remove_confidential P E path :
  (∀ s t, P s t → E s t) → m_triple (X := X) P (remove_confidential path) (λ _, P) E.
Proof.
  intros HE. unfold remove_confidential. destruct (confidential_content_path path).
  - by apply m_triple_effect.
  - by apply m_triple_ret.
Qed.

Lemma m_triple_call_executor {A} P E (f : X → X * A) :
  (∀ s t, P s t → E s t) → m_triple P (call_executor f) (λ _, P) E.
Proof. intros HE. apply m_triple_effect; [done|]. intros e HP. by destruct (f (executor e)). Qed.

(** A loop: [I] speaks of the elements still to come. *)
Lemma m_triple_for_each {A} (I : list A → assertion) (f : A → M X unit) (l : list A) E :
  (∀ x l, m_triple (I (x :: l)) (f x) (λ _, I l) E) →
  m_triple (I l) (for_each_m f l) (λ _, I []) E.
Proof.
  intros Hf. induction l as [|x l IH]; simpl; [by apply m_triple_ret|].
  apply (m_triple_bind _ _ (λ _, I l)); [apply Hf|]. intros _. apply IH.
Qed.
End calls.

(** * State names *)

Lemma parse_state_name s : parse_state (state_name s) = Ok s.
Proof. by destruct s. Qed.

Lemma parse_state_Ok name s : parse_state name = Ok s → name = state_name s.
Proof.
  unfold parse_state. intros Hp.
  repeat match type of Hp with
  | (if String.eqb name ?n then _ else _) = _ =>
    destruct (String.eqb_spec name n) as [->|_]; [by injection Hp as <-|]
  end. done.
Qed.

(** A step of the domain's state machine, on names. *)
Definition engine_moves (a b : string) : Prop :=
  ∃ f g, a = state_name f ∧ b = state_name g ∧ can_transition_to f g = true.

(** The states of a job that has not been handed to the executor. *)
Definition pre_states : list string :=
  ["cloud_accept_pending"; "queued_local"; "preparing"; "rendering"; "failed_retryable"]%string.

(** An outcome that proves the job did not reach the spooler and may be retried. *)
Definition definite (s : Submission) : bool :=
  match s.(outcome) with
  | Err error => error.(retryable) && negb error.(handoff_may_have_succeeded)
  | Ok _ => false
  end.

(** * One job *)

(** From [s0] to [s] only the row of [k] changed, along the state machine. *)
Record touched (k : string) (s0 s : AgentStore) : Prop := {
  touched_wf : store_wf s;
  touched_frame k1 : k1 ≠ k → s.(jobs) !! k1 = s0.(jobs) !! k1;
  touched_row : ∃ r0 r, s0.(jobs) !! k = Some r0 ∧ s.(jobs) !! k = Some r ∧
    keeps r0.(row_job) r.(row_job) ∧ rtc engine_moves (row_state r0) (row_state r);
}.

Section one_job.
Context `{StoreExternal} `{EngineExternal} {X : Type} `{Executor X}.
Implicit Types (s : AgentStore) (t : list TraceEvent).

Lemma touched_refl k r s : store_wf s → s.(jobs) !! k = Some r → touched k s s.
Proof. intros Hwf Hr. split; [done..|]. by exists r, r. Qed.

(** One more change of the row. *)
Lemma touched_step k s0 s s1 r r1 :
  touched k s0 s → store_wf s1 → s.(jobs) !! k = Some r → s1.(jobs) = <[k := r1]> s.(jobs) →
  keeps r.(row_job) r1.(row_job) → rtc engine_moves (row_state r) (row_state r1) →
  touched k s0 s1.
Proof.
  intros [_ Hframe (r0 & r' & Hr0 & Hr' & Hpin0 & Hmoves0)] Hwf Hr Hjobs Hpin Hmoves.
  rewrite Hr in Hr'. injection Hr' as <-. split; [done| |].
  - intros k1 Hne. rewrite Hjobs, lookup_insert_ne by done. by apply Hframe.
  - exists r0, r1. rewrite Hjobs, lookup_insert_eq. split_and!; [done|done|by etrans|by etrans].
Qed.

Lemma touched_same k s0 s s1 :
  touched k s0 s → store_wf s1 → s1.(jobs) = s.(jobs) → touched k s0 s1.
Proof. intros [_ Hframe Hrow] Hwf Hjobs. split; [done|by rewrite Hjobs..]. Qed.

(** The assertions of the specifications below: the trace is [t0], and the job is in
    state [st], or in some state. *)
Definition at_state (k : string) (s0 : AgentStore) (t0 : list TraceEvent) (st : string) :
    assertion :=
  λ s t, t = t0 ∧ touched k s0 s ∧ job_state s k = Some st.
Definition somewhere (k : string) (s0 : AgentStore) (t0 : list TraceEvent) : assertion :=
  λ s t, t = t0 ∧ touched k s0 s.

Lemma at_somewhere k s0 t0 st s t : at_state k s0 t0 st s t → somewhere k s0 t0 s t.
Proof. intros (-> & Ht & _). by split. Qed.

Lemma touched_event k s0 st f g re me de id seq now s s1 :
  touched k s0 s → job_state s k = Some st → st = state_name f → can_transition_to f g = true →
  append_event id k seq (state_name g) re me de now s = Ok s1 →
  touched k s0 s1 ∧ job_state s1 k = Some (state_name g).
Proof.
  intros Ht Hst -> Hcan Hap. pose proof (append_event_wf _ _ _ _ _ _ _ _ _ _ (touched_wf _ _ _ Ht) Hap) as Hwf.
  apply append_event_Ok in Hap as (_ & s2 & r & _ & Hr & ->). split.
  - eapply touched_step; [exact Ht|exact Hwf|exact Hr|done|done|].
    apply rtc_once. exists f, g. unfold job_state in Hst. rewrite Hr in Hst. by injection Hst as ->.
  - unfold job_state. simpl. by rewrite lookup_insert_eq.
Qed.

(** A transition that fails leaves the job where it was. *)
Lemma transition_exact k s0 t0 from to reason me de :
  m_triple (X := X) (at_state k s0 t0 from) (transition k from to reason me de)
    (λ _, at_state k s0 t0 (state_name to)) (at_state k s0 t0 from).
Proof.
  apply (m_triple_bind _ _ (λ f s t, from = state_name f ∧ at_state k s0 t0 from s t)).
  { apply m_triple_lift; [done|]. intros f s t Hf%parse_state_Ok. by split. }
  intros f.
  apply (m_triple_bind _ _ (λ _ s t, (from = state_name f ∧ can_transition_to f to = true) ∧
                                     at_state k s0 t0 from s t)).
  { apply m_triple_lift; [tauto|].
    unfold validate_transition. intros [] s t Hv [-> Hat]. by destruct (can_transition_to f to). }
  intros _. eapply m_triple_bind; [apply m_triple_now|]. intros now. cbn beta.
  apply (m_triple_bind _ _ (λ _, at_state k s0 t0 (state_name to))); [|intros _; by apply m_triple_ret].
  apply m_triple_store. intros t.
  eapply sm_triple_bind; [apply sm_triple_event_id|]. intros id.
  apply sm_triple_read; [tauto|]. intros seq.
  eapply (sm_triple_bind _ _ (λ _ s, at_state k s0 t0 (state_name to) s t));
    [|intros _; by apply sm_triple_ret].
  apply sm_triple_execute; [tauto|].
  intros s s1 [[Hfrom Hcan] (-> & Ht & Hst)] Hap. split; [done|].
  by eapply touched_event.
Qed.

Lemma transition_triple k s0 t0 from to reason me de :
  m_triple (X := X) (at_state k s0 t0 from) (transition k from to reason me de)
    (λ _, at_state k s0 t0 (state_name to)) (somewhere k s0 t0).
Proof.
  eapply m_triple_weaken; [apply transition_exact|done|done|]. intros s t. apply at_somewhere.
Qed.
End one_job.

(** * Execution *)

Section execution.
Context `{StoreExternal} `{EngineExternal} {X : Type} `{Executor X}.
Variables (job : LocalJob) (s0 : AgentStore) (t0 : list TraceEvent).
Implicit Types (P E : assertion).

#[local] Abbreviation k := job.(job_id).

Lemma begin_execution_triple :
  m_triple (X := X) (at_state k s0 t0 job.(state)) (begin_execution job)
    (λ _, at_state k s0 t0 "preparing") (somewhere k s0 t0).
Proof.
  apply (m_triple_bind _ _ (λ st s t, job.(state) = state_name st ∧
                                      at_state k s0 t0 job.(state) s t)).
  { apply m_triple_lift; [by apply at_somewhere|]. intros st s t Hst%parse_state_Ok. by split. }
  intros st. apply (m_triple_bind _ _ (λ st, at_state k s0 t0 (state_name st)));
    [|intros st'; apply transition_triple].
  case_decide; [|apply m_triple_ret; by intros s t [-> Hat]].
  destruct (cloud_managed job); [apply m_triple_throw; intros s t [_ Hat]; by eapply at_somewhere|].
  apply (m_triple_bind _ _ (λ _, at_state k s0 t0 (state_name QueuedLocal)));
    [|intros _; by apply m_triple_ret].
  eapply m_triple_pre; [apply transition_triple|]. by intros s t [_ Hat].
Qed.

Lemma validate_job_options_triple :
  m_triple (X := X) (at_state k s0 t0 "preparing") (validate_job_options job)
    (λ o, match o with Some _ => at_state k s0 t0 "preparing" | None => somewhere k s0 t0 end)
    (somewhere k s0 t0).
Proof.
  assert (∀ error, m_triple (X := X) (at_state k s0 t0 "preparing")
    (_ ← fail_invalid_job_options job error; mret (None : option JobOptions))
    (λ o, match o with Some _ => at_state k s0 t0 "preparing" | None => somewhere k s0 t0 end)
    (somewhere k s0 t0)) as Hfail.
  { intros error. eapply m_triple_bind; [apply transition_triple|]. intros u.
    apply m_triple_ret. by apply at_somewhere. }
  unfold validate_job_options. destruct (options_from_json _); [|apply Hfail].
  destruct (validate_bounds _); [by apply m_triple_ret|apply Hfail].
Qed.

(** Reading the profile changes nothing. *)
Lemma native_profile_triple P E :
  (∀ s t, P s t → E s t) →
  m_triple (X := X) P (native_profile_for_job job) (λ _, P) E.
Proof.
  intros HE.
  assert (∀ A B (o : option A) (f : A → M X B), (∀ a, m_triple P (f a) (λ _, P) E) →
            m_triple P (x ← require o; f x) (λ _, P) E) as Hrequire.
  { intros A B o f Hf. apply (m_triple_bind _ _ (λ _, P)); [|done]. by apply m_triple_lift. }
  assert (∀ A B (g : AgentStore → result StorageError A) (f : A → M X B),
            (∀ a, m_triple P (f a) (λ _, P) E) →
            m_triple P (x ← store (transaction (λ s, r ← g s; Ok (s, r))); f x) (λ _, P) E) as Hread.
  { intros A B g f Hf. apply (m_triple_bind _ _ (λ _, P)); [|done]. apply m_triple_store. intros t.
    apply sm_triple_transaction; [by eauto|]. by intros s s1 a HP (r & _ & [= <- _])%bind_Ok. }
  unfold native_profile_for_job, stored_native_profile.
  repeat first [ done | case_match | apply Hrequire; intros ? | apply Hread; intros ?
               | by apply m_triple_ret | by apply m_triple_throw ].
Qed.

(** The call of [submit] is recorded with the durable state of the job. *)
Definition sub_ok (sub : Submission) : Prop :=
  sub.(call).(sub_job_id) = k ∧ sub.(call).(sub_printer_id) = job.(printer_id) ∧
  sub.(durable_state) = Some "spool_intent"%string.

Lemma call_submit_triple options profile deadline :
  m_triple (at_state k s0 t0 "spool_intent")
    (call_submit (submission_for job options profile deadline))
    (λ r s t, ∃ sub, (sub.(outcome) = r ∧ sub_ok sub) ∧
                     at_state k s0 (Submitted sub :: t0) "spool_intent" s t)
    (somewhere k s0 t0).
Proof.
  apply m_triple_effect; [by apply at_somewhere|]. intros e (Ht & Htouched & Hst).
  destruct (submit _ (executor e)) as [x r]. simpl. split; [done|].
  refine (ex_intro _ _ (conj _ (conj (f_equal (cons _) Ht) _))); by split_and?.
Qed.

(** After the call: the job is past the handoff, or the outcome is definite. *)
Definition after_submit (sub : Submission) : assertion :=
  λ s t, sub_ok sub ∧ ∃ st, at_state k s0 (Submitted sub :: t0) st s t ∧
                            (definite sub = true ∨ st ∉ pre_states).

Lemma after_submit_intro sub st s t :
  sub_ok sub → at_state k s0 (Submitted sub :: t0) st s t →
  bool_decide (st ∈ pre_states) = false → after_submit sub s t.
Proof. intros Hok Hat Hst%bool_decide_eq_false. split; [done|]. eauto. Qed.

Lemma submit_intent sub s t :
  sub_ok sub → at_state k s0 (Submitted sub :: t0) "spool_intent" s t → after_submit sub s t.
Proof. intros. by eapply after_submit_intro. Qed.

(** A transaction that moves the row from [spool_intent] along the state machine. *)
Lemma at_state_update t1 released g s s1 t r f :
  at_state k s0 t1 "spool_intent" s t → evolves released s s1 →
  s.(jobs) !! k = Some r → s1.(jobs) = <[k := f r]> s.(jobs) →
  keeps r.(row_job) (f r).(row_job) → row_state (f r) = state_name g →
  can_transition_to SpoolIntent g = true → at_state k s0 t1 (state_name g) s1 t.
Proof.
  intros (Ht & Htouched & Hst) Hev Hr Hjobs Hpin Hg Hcan. split_and!; [done| |].
  - eapply touched_step; [exact Htouched| |exact Hr|exact Hjobs|done|].
    + eapply evolves_wf; [by eapply touched_wf|done].
    + unfold job_state in Hst. rewrite Hr in Hst. injection Hst as ->.
      apply rtc_once. exists SpoolIntent, g. by rewrite Hg.
  - unfold job_state. rewrite Hjobs, lookup_insert_eq. simpl. by rewrite Hg.
Qed.

Lemma record_accepted_triple sub acceptance :
  sub_ok sub →
  m_triple (X := X) (at_state k s0 (Submitted sub :: t0) "spool_intent")
    (record_accepted job acceptance) (λ _, after_submit sub) (after_submit sub).
Proof.
  intros Hok. eapply m_triple_bind; [apply m_triple_now|]. intros now. cbn beta.
  apply (m_triple_bind _ _ (λ _, after_submit sub));
    [|intros _; by apply m_triple_remove_confidential].
  apply m_triple_store. intros t. eapply sm_triple_bind; [apply sm_triple_event_id|]. intros id.
  apply sm_triple_execute; [intros s; by apply submit_intent|]. intros s s1 Hsub Hop.
  pose proof (record_native_acceptance_evolves None _ _ _ _ _ _ _ _ _ Hop) as Hev.
  revert Hop. unfold record_native_acceptance. destruct (json_value _); [|done]. simpl.
  intros (s2 & (s3 & r & _ & Hr & _ & ->)%append_and_update_Ok & [= <-])%bind_Ok.
  eapply (after_submit_intro _ (state_name AcceptedBySpooler)); [done| |by vm_compute].
  by eapply (at_state_update _ None AcceptedBySpooler s _ t r).
Qed.

(** The state chosen for a failure is past the handoff unless the failure is definite. *)
Lemma record_failed_triple sub error :
  sub_ok sub → sub.(outcome) = Err error →
  m_triple (X := X) (at_state k s0 (Submitted sub :: t0) "spool_intent") (record_failed job error)
    (λ _, after_submit sub) (after_submit sub).
Proof.
  intros Hok Hout.
  apply (m_triple_bind _ _ (λ _, at_state k s0 (Submitted sub :: t0) "spool_intent")).
  { apply m_triple_store. intros t. apply sm_triple_execute; [intros s; by apply submit_intent|].
    intros s s1 (Ht & Htouched & Hst) [= <-]. split_and!; try done.
    eapply touched_same; [exact Htouched| |done].
    eapply evolves_wf; [by eapply touched_wf|apply (record_executor_failure_evolves None)]. }
  intros _.
  destruct (if handoff_may_have_succeeded error then _ else _) as [st reason] eqn:Hchoice.
  apply (m_triple_bind _ _ (λ _, after_submit sub)); [|intros _; destruct (retryable error);
    [by apply m_triple_ret|by apply m_triple_remove_confidential]].
  destruct (_ && _) eqn:Hlocal.
  - apply andb_prop in Hlocal as [Hdef _].
    eapply m_triple_bind; [apply m_triple_now|]. intros now. cbn beta.
    apply m_triple_store. intros t. eapply sm_triple_bind; [apply sm_triple_event_id|]. intros id.
    apply sm_triple_execute; [intros s; by apply submit_intent|]. intros s s1 Hsub Hop.
    pose proof (record_local_retryable_failure_evolves _ _ _ _ _ _ _ _ _ Hop) as Hev.
    revert Hop. unfold record_local_retryable_failure. destruct (json_value _); [|done]. simpl.
    intros (s3 & r & _ & Hr & _ & ->)%append_and_update_Ok.
    split; [done|]. exists (state_name FailedRetryable). split.
    + by eapply (at_state_update _ _ FailedRetryable s _ t r).
    + left. unfold definite. by rewrite Hout.
  - eapply m_triple_weaken; [apply transition_exact|done| |intros s t; by apply submit_intent].
    intros u s t Hat. split; [done|]. exists (state_name st). split; [done|].
    unfold definite. rewrite Hout. destruct (handoff_may_have_succeeded error).
    { injection Hchoice as <- <-. right. apply (bool_decide_unpack _). by vm_compute. }
    destruct (retryable error); [by left|]. injection Hchoice as <- <-.
    right. apply (bool_decide_unpack _). by vm_compute.
Qed.

(** What [execute_job] may have done, however it ends. *)
Definition executed : assertion :=
  λ s t, somewhere k s0 t0 s t ∨ ∃ sub, after_submit sub s t.

Lemma execute_job_triple :
  m_triple (X := X) (at_state k s0 t0 job.(state)) (execute_job job) (λ _, executed) executed.
Proof.
  assert (∀ s t, somewhere k s0 t0 s t → executed s t) as Hsome by (by left).
  assert (∀ st s t, at_state k s0 t0 st s t → executed s t) as Hat.
  { intros st s t Hst. by apply Hsome, (at_somewhere _ _ _ st). }
  assert (∀ A P (m : M X A) Q, m_triple P m Q (somewhere k s0 t0) → m_triple P m Q executed) as Herr.
  { intros A P m Q Hm. by eapply m_triple_weaken. }
  apply (m_triple_bind _ _ (λ _, at_state k s0 t0 "preparing")).
  { apply Herr, begin_execution_triple. }
  intros _. eapply m_triple_bind; [apply Herr, validate_job_options_triple|]. intros [options|].
  2: { eapply m_triple_post; [by apply m_triple_remove_confidential|]. intros u s t. apply Hsome. }
  apply (m_triple_bind _ _ (λ _, at_state k s0 t0
           (if String.eqb job.(content_kind) "pdf" then "rendering" else "preparing"))).
  { destruct (String.eqb _ _); [apply Herr, transition_triple|by apply m_triple_ret]. }
  intros _. apply (m_triple_bind _ _ (λ _, at_state k s0 t0 "spool_intent")).
  { apply Herr, transition_triple. }
  intros _. eapply m_triple_bind; [apply native_profile_triple, Hat|]. intros profile. cbn beta.
  eapply m_triple_bind; [apply m_triple_now|]. intros now. cbn beta.
  eapply m_triple_bind; [apply Herr, call_submit_triple|]. intros r.
  apply m_triple_exists. intros sub [Hout Hok].
  assert (∀ s t, after_submit sub s t → executed s t) as Hafter by (right; eauto).
  destruct r; (eapply m_triple_weaken; [|done|intros u s t; exact (Hafter s t)|exact Hafter]);
    [by apply record_accepted_triple|by apply record_failed_triple].
Qed.
End execution.

(** * Reconciliation *)

Section reconciliation.
Context `{StoreExternal} `{EngineExternal} {X : Type} `{Executor X}.
Variables (item : ReconciliationItem) (s0 : AgentStore) (t0 : list TraceEvent).
Hypothesis Hpast : (item.(item_job).(state)) ∉ pre_states.

#[local] Abbreviation job := item.(item_job).
#[local] Abbreviation k := item.(item_job).(job_id).

(** The job is in some state past the handoff. *)
Definition settled : assertion :=
  λ s t, ∃ st, (st ∉ pre_states) ∧ at_state k s0 t0 st s t.

Lemma at_settled s t : at_state k s0 t0 job.(state) s t → settled s t.
Proof. intros Hat. by eexists. Qed.

(** A transaction that leaves the rows alone. *)
Lemma other_tables_triple st (m : SM unit) :
  sm_evolves None m → (∀ v, quiet v → (m v).1.(db).(jobs) = v.(db).(jobs)) →
  m_triple (X := X) (at_state k s0 t0 st) (store m) (λ _, at_state k s0 t0 st) (at_state k s0 t0 st).
Proof.
  intros Hev Hjobs. apply m_triple_store. intros t v Hq (-> & Ht & Hst).
  destruct (Hev v Hq (touched_wf _ _ _ Ht)) as [Hq1 Hev1]. specialize (Hjobs v Hq).
  assert (at_state k s0 t0 st (m v).1.(db) t0) as Hat.
  { split_and!; [done| |by unfold job_state; rewrite Hjobs].
    eapply touched_same; [exact Ht| |done]. eapply evolves_wf; [by eapply touched_wf|done]. }
  by destruct (m v) as [v1 [a|err]].
Qed.

Lemma transaction_jobs {A} (f : AgentStore → result StorageError (AgentStore * A)) v :
  quiet v → (∀ s s1 a, f s = Ok (s1, a) → s1.(jobs) = s.(jobs)) →
  (transaction f v).1.(db).(jobs) = v.(db).(jobs).
Proof.
  intros Hq Hf. unfold transaction. rewrite (quiet_meanwhile v Hq).
  destruct (head _) as [[]|]; [done|..]; destruct (f (db v)) as [[s1 a]|] eqn:Hr; simpl; eauto.
Qed.

Lemma record_attempt_triple st native ns au de err now :
  m_triple (X := X) (at_state k s0 t0 st) (record_attempt k native ns au de err now)
    (λ _, at_state k s0 t0 st) (at_state k s0 t0 st).
Proof.
  apply other_tables_triple.
  - apply sm_evolves_bind; [apply sm_evolves_event_id|]. intros id. apply sm_evolves_execute.
    intros s s1 _. apply record_reconciliation_attempt_evolves.
  - intros v Hq. unfold mbind, sm_bind, new_event_id.
    apply (transaction_jobs _ {| db := db v; faults := faults v; drawn := S (drawn v); others := others v |} Hq).
    intros s s1 [] (s2 & Hop & [= <-])%bind_Ok. revert Hop. unfold record_reconciliation_attempt.
    destruct (json_value de); [|done]. simpl. destruct (decide _); [done|].
    case_match; [|done]. by intros [= <-].
Qed.

Lemma finish_schedule_triple st :
  m_triple (X := X) (at_state k s0 t0 st) (finish_schedule k)
    (λ _, at_state k s0 t0 st) (at_state k s0 t0 st).
Proof.
  apply other_tables_triple.
  - apply sm_evolves_execute. intros s s1 _ [= <-]. apply finish_reconciliation_evolves.
  - intros v Hq. apply transaction_jobs; [done|]. by intros s s1 [] [= <-].
Qed.

Lemma transition_if_needed_triple to reason me de :
  m_triple (X := X) (at_state k s0 t0 job.(state)) (transition_if_needed job to reason me de)
    (λ _, at_state k s0 t0 (state_name to)) (at_state k s0 t0 job.(state)).
Proof.
  unfold transition_if_needed. destruct (String.eqb_spec job.(state) (state_name to)) as [->|_].
  - by apply m_triple_ret.
  - apply transition_exact.
Qed.

(** A transition to a state past the handoff, with or without the end of the schedule. *)
Lemma transition_settles to reason me de :
  bool_decide (state_name to ∈ pre_states) = false →
  m_triple (X := X) (at_state k s0 t0 job.(state)) (transition_if_needed job to reason me de)
    (λ _, settled) settled.
Proof.
  intros Hto%bool_decide_eq_false.
  eapply m_triple_weaken; [apply transition_if_needed_triple|done| |apply at_settled].
  intros u s t Hat. by exists (state_name to).
Qed.

Lemma transition_finish_settles to reason me de :
  bool_decide (state_name to ∈ pre_states) = false →
  m_triple (X := X) (at_state k s0 t0 job.(state))
    (_ ← transition_if_needed job to reason me de; finish_schedule k) (λ _, settled) settled.
Proof.
  intros Hto. eapply m_triple_bind; [by apply transition_settles|]. intros u.
  apply m_triple_exists. intros st Hst.
  eapply m_triple_weaken; [apply finish_schedule_triple|done|..]; intros; by exists st.
Qed.

Lemma mark_uncertain_triple me de now :
  m_triple (X := X) (at_state k s0 t0 job.(state)) (mark_uncertain job me de now)
    (λ _, settled) settled.
Proof. by apply transition_finish_settles. Qed.

Lemma maybe_uncertain_triple (b : bool) me de now :
  m_triple (X := X) (at_state k s0 t0 job.(state))
    (if b then mark_uncertain job me de now else mret ()) (λ _, settled) settled.
Proof.
  destruct b; [apply mark_uncertain_triple|apply m_triple_ret; apply at_settled].
Qed.

Lemma attempt_then native ns au de err now (m : M X unit) :
  m_triple (at_state k s0 t0 job.(state)) m (λ _, settled) settled →
  m_triple (at_state k s0 t0 job.(state))
    (_ ← record_attempt k native ns au de err now; m) (λ _, settled) settled.
Proof.
  intros Hm. apply (m_triple_bind _ _ (λ _, at_state k s0 t0 job.(state))); [|done].
  eapply m_triple_weaken; [apply record_attempt_triple|done|done|apply at_settled].
Qed.

Lemma apply_native_observation_triple native observation now :
  m_triple (X := X) (at_state k s0 t0 job.(state))
    (apply_native_observation item native observation now) (λ _, settled) settled.
Proof.
  apply attempt_then.
  assert (m_triple (X := X) (at_state k s0 t0 job.(state)) (mret ()) (λ _, settled) settled) as Hret.
  { apply m_triple_ret. apply at_settled. }
  destruct (ob_state observation);
    first [ by apply transition_finish_settles | by apply transition_settles
          | apply maybe_uncertain_triple
          | destruct (bool_decide _); [by apply transition_settles|exact Hret] ].
Qed.

Lemma reconcile_cancellation_triple reference native now :
  m_triple (X := X) (at_state k s0 t0 job.(state))
    (reconcile_cancellation item reference native now) (λ _, settled) settled.
Proof.
  eapply m_triple_bind; [apply m_triple_call_executor; apply at_settled|]. intros [u|error]; cbn beta.
  - apply attempt_then.
    apply (m_triple_bind _ _ (λ _, at_state k s0 t0 (state_name Cancelled))).
    { eapply m_triple_weaken; [apply transition_exact|done|done|apply at_settled]. }
    intros _. assert (state_name Cancelled ∉ pre_states) by (by apply (bool_decide_unpack _); vm_compute).
    eapply m_triple_weaken; [apply finish_schedule_triple|done|..]; intros; by eexists.
  - apply attempt_then, maybe_uncertain_triple.
Qed.

Lemma reconcile_item_triple now :
  m_triple (X := X) (at_state k s0 t0 job.(state)) (reconcile_item item now) (λ _, settled) settled.
Proof.
  unfold reconcile_item. destruct (native_job_id job) as [native|]; [|apply mark_uncertain_triple].
  destruct (_ || _); [apply reconcile_cancellation_triple|].
  eapply m_triple_bind; [apply m_triple_call_executor; apply at_settled|].
  intros [observation|error]; cbn beta; [apply apply_native_observation_triple|].
  apply attempt_then, maybe_uncertain_triple.
Qed.
End reconciliation.
