(* ===== verification/AgentSystem.v ===== *)
(** The agent as a transition system: runs of the engine interleaved with the
    operations of the store, under storage failures, crashes and restarts.  An
    assertion that every elementary change, every execution and every reconciliation
    keeps holds in every state the agent reaches.  The operations come between whole runs
    here; [AgentShared] has them at any point of a run, over a second connection. *)
From S2P Require Import Prelude Domain AgentStore AgentStoreFacts AgentOps AgentEngine AgentEngineFacts.
Import Job.

#[local] Open Scope Z_scope.

(** * Steps *)

Section system.
Context `{StoreExternal} `{EngineExternal} {X : Type} `{Executor X}.
Implicit Types (e : Engine X).

(** An operation of the store between two runs; a release is recorded. *)
Definition after_op (op : StoreOp) e : Engine X :=
  let '(v, r) := run op e.(env) in
  {| env := v; executor := e.(executor); ticks := e.(ticks);
     removed_files := e.(removed_files);
     trace := match releases op, r with
              | Some job, Ok _ => Released job :: e.(trace)
              | _, _ => e.(trace)
              end |}.

(** The environment decides which calls will fail, and may replace the executor. *)
Definition disturbed (fs : list bool) (x : X) e : Engine X :=
  {| env := {| db := e.(env).(db); faults := fs; drawn := e.(env).(drawn); others := [] |}; executor := x;
     ticks := e.(ticks); removed_files := e.(removed_files); trace := e.(trace) |}.

Inductive agent_step e : Engine X → Prop :=
| step_run : agent_step e (run_once e).1
| step_op op : agent_step e (after_op op e)
| step_environment fs x : agent_step e (disturbed fs x e).

Definition initial e : Prop := e.(env).(db) = empty_store ∧ e.(trace) = [] ∧ quiet e.(env).

Definition agent_reachable e : Prop := ∃ e0, initial e0 ∧ rtc agent_step e0 e.

(** A release that fails leaves the tables alone. *)
Lemma failed_release op v job err :
  quiet v → releases op = Some job → (run op v).2 = Err err → (run op v).1.(db) = v.(db).
Proof.
  intros Hq. assert (∀ f, (with_id f v).2 = Err err → (with_id f v).1.(db) = v.(db)) as Hid.
  { intros f. unfold with_id, execute, mbind, sm_bind, new_event_id, transaction. rewrite quiet_meanwhile by done. simpl.
    destruct (head _) as [[]|]; simpl; [done|..];
      destruct (f _ (db v)); simpl; done. }
  destruct op; try done; intros _; apply Hid.
Qed.

(** * Loops over jobs *)

(** A loop over distinct jobs whose bodies each change only their own row. *)
Section loops.
Context {A : Type} (job_of : A → LocalJob) (body : A → M X unit) (I : assertion) (good : A → Prop).
Hypothesis body_ok : ∀ a s0 t0 r, store_wf s0 → I s0 t0 → good a →
  s0.(jobs) !! (job_of a).(job_id) = Some r → r.(row_job) = job_of a →
  let result s t := touched (job_of a).(job_id) s0 s ∧ I s t in
  m_triple (λ s t, s = s0 ∧ t = t0) (body a) (λ _, result) result.

Definition loop_inv (l : list A) : assertion := λ s t,
  store_wf s ∧ I s t ∧ NoDup ((λ a, (job_of a).(job_id)) <$> l) ∧
  ∀ a, a ∈ l → good a ∧ ∃ r, s.(jobs) !! (job_of a).(job_id) = Some r ∧ r.(row_job) = job_of a.

Lemma for_each_jobs l :
  m_triple (loop_inv l) (for_each_m body l) (λ _ s t, store_wf s ∧ I s t)
    (λ s t, store_wf s ∧ I s t).
Proof.
  eapply m_triple_post; [apply (m_triple_for_each loop_inv)|by intros ??? (?&?&_)].
  intros a l' e Hq (Hwf & HI & Hnd & Hall).
  destruct (Hall a) as (Ha & r & Hr & Hjob); [set_solver|].
  specialize (body_ok a _ _ r Hwf HI Ha Hr Hjob e Hq (conj eq_refl eq_refl)). simpl in body_ok.
  destruct (body a e) as [e1 [[]|err]]; destruct body_ok as [Hq1 [Ht HI1]];
    [|by split_and!; [|eapply touched_wf|]].
  split; [done|]. split_and!; [by eapply touched_wf|done|by eapply NoDup_cons_1_2|].
  intros a' Ha'. destruct (Hall a') as (Ha2 & r' & Hr' & Hjob'); [set_solver|].
  split; [done|]. exists r'. split; [|done]. rewrite (touched_frame _ _ _ Ht); [done|].
  intros Heq. apply NoDup_cons in Hnd as [Hnot _]. apply Hnot. rewrite <- Heq.
  by apply (list_elem_of_fmap_2 (λ a, (job_of a).(job_id))).
Qed.
End loops.

(** * Heads and due items *)

(** The conditions [runnable_heads] checks, read off the query. *)
Lemma elem_of_runnable_heads now s j :
  store_wf s → j ∈ runnable_heads now s →
  ∃ r, s.(jobs) !! j.(job_id) = Some r ∧ r.(row_job) = j ∧ is_head now s r = true.
Proof.
  intros Hwf (r & -> & Hr)%list_elem_of_fmap. apply elem_of_sort_by, list_elem_of_filter in Hr
    as [Hhead Hr]. exists r. by apply (elem_of_job_rows _ _ Hwf) in Hr.
Qed.

Lemma runnable_heads_ids now s :
  store_wf s → NoDup (job_id <$> runnable_heads now s).
Proof.
  intros Hwf. unfold runnable_heads. rewrite <- list_fmap_compose.
  rewrite sort_by_perm. by apply filtered_ids.
Qed.

Lemma is_head_state now s r : is_head now s r = true → row_state r ∈ queued_states.
Proof.
  unfold is_head, runnable. rewrite !andb_true_iff, orb_true_iff, andb_true_iff.
  intros [[[[[Hst _] _] _] _] _]. unfold queued_states.
  destruct Hst as [Hst|[Hst _]]; apply String.eqb_eq in Hst; rewrite Hst; set_solver.
Qed.

Lemma elem_of_due now limit s i :
  store_wf s → i ∈ due_reconciliations now limit s →
  i.(item_job).(state) ∈ native_states ∧
  ∃ r, s.(jobs) !! i.(item_job).(job_id) = Some r ∧ r.(row_job) = i.(item_job).
Proof.
  intros Hwf Hi. unfold due_reconciliations in Hi.
  apply elem_of_take in Hi as (n & Hi & _). apply list_elem_of_lookup_2 in Hi.
  apply elem_of_sort_by, list_elem_of_filter in Hi as [[_ Hst] Hi]. split; [done|].
  apply list_elem_of_omap in Hi as ((k & rc) & _ & (r & Hr & [= <-])%bind_Some). simpl.
  exists r. by rewrite (wf_key _ Hwf _ _ Hr).
Qed.

Lemma due_ids now limit s :
  store_wf s → NoDup ((λ i, i.(item_job).(job_id)) <$> due_reconciliations now limit s).
Proof.
  intros Hwf. unfold due_reconciliations. eapply sublist_NoDup;
    [|apply fmap_sublist, sublist_take]. rewrite sort_by_perm.
  eapply sublist_NoDup; [|apply fmap_sublist, sublist_filter].
  unfold reconciliation_items.
  assert (∀ l, NoDup l.*1 → NoDup ((λ i, i.(item_job).(job_id)) <$>
    omap (λ kr : string * ReconciliationRow, r ← s.(jobs) !! kr.1; Some
      {| item_job := r.(row_job); item_next_observe_unix_ms := kr.2.(rc_next_observe_unix_ms);
         item_uncertainty_deadline_unix_ms := kr.2.(rc_uncertainty_deadline_unix_ms);
         item_attempt_count := kr.2.(rc_attempt_count);
         item_cancel_requested := kr.2.(rc_cancel_requested) |}) l)) as Hgen.
  { induction l as [|[k rc] l IH]; intros Hnd; [constructor|]. simpl in Hnd |- *.
    apply NoDup_cons in Hnd as [Hk Hnd]. destruct (s.(jobs) !! k) as [r|] eqn:Hr; simpl; [|auto].
    apply NoDup_cons. split; [|auto]. rewrite (wf_key _ Hwf _ _ Hr).
    intros (i & Hki & Hi)%list_elem_of_fmap. apply list_elem_of_omap in Hi as ((k' & rc') & Hin & Hi).
    simpl in Hi. apply bind_Some in Hi as (r' & Hr' & [= <-]). simpl in Hki.
    rewrite (wf_key _ Hwf _ _ Hr') in Hki. subst k'. apply Hk.
    by apply (list_elem_of_fmap_2 fst) in Hin. }
  apply Hgen. rewrite btree_entries_perm. apply NoDup_fst_map_to_list.
Qed.

Lemma native_past st : st ∈ native_states → st ∉ pre_states.
Proof.
  intros Hst. repeat (apply elem_of_cons in Hst as [->|Hst]);
    [by apply (bool_decide_unpack _); vm_compute..|by apply not_elem_of_nil in Hst].
Qed.

(** * Assertions that a run keeps *)

Section keeps.
Variables (I : assertion) (good : LocalJob → Prop).
Hypothesis I_store : ∀ s s1 t, store_wf s → I s t → evolves None s s1 → I s1 t.
Hypothesis I_head : ∀ now s t job, store_wf s → I s t → job ∈ runnable_heads now s → good job.
Hypothesis I_execute : ∀ job s0 t0 r s t, store_wf s0 → I s0 t0 → good job →
  s0.(jobs) !! job.(job_id) = Some r → r.(row_job) = job → executed job s0 t0 s t → I s t.
Hypothesis I_reconcile : ∀ item s0 t0 r s t, store_wf s0 → I s0 t0 →
  item.(item_job).(state) ∈ native_states →
  s0.(jobs) !! item.(item_job).(job_id) = Some r → r.(row_job) = item.(item_job) →
  settled item s0 t0 s t → I s t.

#[local] Definition kept : assertion := λ s t, store_wf s ∧ I s t.

Lemma kept_evolves {A} (m : SM A) :
  sm_evolves None m → m_triple (X := X) kept (store m) (λ _, kept) kept.
Proof.
  intros Hm. apply m_triple_store. intros t v Hq [Hwf HI]. destruct (Hm v Hq Hwf) as [Hq1 Hev].
  assert (kept (m v).1.(db) t) as Hk.
  { split; [by eapply evolves_wf|by eapply I_store]. }
  by destruct (m v) as [v1 [a|err]].
Qed.

Lemma executed_touched job s0 t0 s t : executed job s0 t0 s t → touched job.(job_id) s0 s.
Proof. by intros [[_ Ht]|(sub & _ & st & (_ & Ht & _) & _)]. Qed.

Lemma execute_heads l :
  m_triple (loop_inv (λ j, j) I good l) (for_each_m execute_job l) (λ _, kept) kept.
Proof.
  apply for_each_jobs. intros job s0 t0 r Hwf HI Hgood Hr Hjob result.
  assert (∀ s t, executed job s0 t0 s t → result s t) as Hresult.
  { intros s t Hex. split; [by eapply executed_touched|by eapply I_execute]. }
  eapply m_triple_weaken; [apply (execute_job_triple job s0 t0)|..];
    [|intros u; apply Hresult|apply Hresult].
  intros s t [-> ->]. split_and!; [done|by eapply touched_refl|].
  unfold job_state. by rewrite Hr, <- Hjob.
Qed.

Lemma reconcile_items now l :
  m_triple (loop_inv item_job I (λ i, i.(item_job).(state) ∈ native_states) l)
    (for_each_m (λ item, reconcile_item item now) l) (λ _, kept) kept.
Proof.
  apply for_each_jobs. intros item s0 t0 r Hwf HI Hst Hr Hjob result.
  assert (∀ s t, settled item s0 t0 s t → result s t) as Hresult.
  { intros s t Hs. split; [by destruct Hs as (st & _ & _ & Ht & _)|by eapply I_reconcile]. }
  eapply m_triple_weaken; [apply (reconcile_item_triple item s0 t0); by apply native_past|..];
    [|intros u; apply Hresult|apply Hresult].
  intros s t [-> ->]. split_and!; [done|by eapply touched_refl|].
  unfold job_state. by rewrite Hr, <- Hjob.
Qed.

Lemma run_once_keeps : m_triple (X := X) kept run_once (λ _, kept) kept.
Proof.
  eapply m_triple_bind; [apply m_triple_now|]. intros now. cbn beta.
  apply (m_triple_bind _ _ (λ _, kept)); [apply kept_evolves, expire_waiting_evolves|]. intros _.
  apply (m_triple_bind _ _ (λ heads, loop_inv (λ j, j) I good heads)).
  { apply m_triple_store. intros t. apply sm_triple_query; [done|]. intros s [Hwf HI].
    split_and!; [done|done|by apply runnable_heads_ids|]. intros job Hjob.
    split; [by eapply I_head|].
    destruct (elem_of_runnable_heads _ _ _ Hwf Hjob) as (r & ? & ? & _). eauto. }
  intros heads. eapply m_triple_bind; [apply execute_heads|]. intros u. cbn beta.
  apply (m_triple_bind _ _ (λ _, kept)); [|intros n; by apply m_triple_ret].
  eapply m_triple_bind; [apply m_triple_now|]. intros now2. cbn beta.
  apply (m_triple_bind _ _ (λ items, loop_inv item_job I
           (λ i, i.(item_job).(state) ∈ native_states) items)).
  { apply m_triple_store. intros t. apply sm_triple_query; [done|]. intros s [Hwf HI].
    split_and!; [done|done|by apply due_ids|]. intros item Hi. by apply (elem_of_due now2 32). }
  intros items. eapply m_triple_bind; [apply reconcile_items|]. intros u2.
  by apply m_triple_ret.
Qed.

Lemma run_step e : quiet e.(env) → kept e.(env).(db) e.(trace) →
  quiet (run_once e).1.(env) ∧ kept (run_once e).1.(env).(db) (run_once e).1.(trace).
Proof.
  intros Hq Hk. pose proof (run_once_keeps e Hq Hk) as Hrun. by destruct (run_once e) as [e1 [a|err]].
Qed.

(** Operations between runs: a release may use the release edges and is recorded. *)
Hypothesis I_op : ∀ released s s1 t, store_wf s → I s t → evolves released s s1 →
  I s1 (match released with Some job => Released job :: t | None => t end).

Lemma op_step op e : quiet e.(env) → kept e.(env).(db) e.(trace) →
  quiet (after_op op e).(env) ∧ kept (after_op op e).(env).(db) (after_op op e).(trace).
Proof.
  intros Hq [Hwf HI]. pose proof (run_evolves op e.(env) Hq Hwf) as [Hq1 Hev].
  pose proof (λ job err, failed_release op e.(env) job err Hq) as Hfail. unfold after_op.
  destruct (run op (env e)) as [v r]. simpl in *. split; [done|]. split; [by eapply evolves_wf|].
  destruct (releases op) as [job|].
  - destruct r as [[]|err]; [by eapply (I_op (Some job))|]. by rewrite (Hfail job err).
  - by eapply (I_op None).
Qed.

Lemma agent_keeps e e1 : rtc agent_step e e1 → quiet e.(env) → kept e.(env).(db) e.(trace) →
  quiet e1.(env) ∧ kept e1.(env).(db) e1.(trace).
Proof.
  induction 1 as [|e e2 e1 Hstep _ IH]; [done|]. intros Hq Hk.
  assert (quiet e2.(env) ∧ kept e2.(env).(db) e2.(trace)) as [Hq2 Hk2];
    [|by apply IH]. destruct Hstep; [by apply run_step|by apply op_step|done].
Qed.
End keeps.

Lemma agent_reachable_quiet e : agent_reachable e → quiet e.(env) ∧ store_wf e.(env).(db).
Proof.
  intros (e0 & (Hdb & Ht & Hq) & Hsteps).
  destruct (agent_keeps (λ _ _, True) (λ _, True) ltac:(done) ltac:(done) ltac:(done) ltac:(done)
           ltac:(done) _ _ Hsteps) as (Hq1 & Hwf & _); [done| |done].
  split; [|done]. rewrite Hdb. apply empty_store_wf.
Qed.
Lemma agent_reachable_wf e : agent_reachable e → store_wf e.(env).(db).
Proof. apply agent_reachable_quiet. Qed.

(** * Rows under elementary changes *)

Lemma prim_rows_kept released s s1 k r :
  prim released s s1 → s.(jobs) !! k = Some r →
  ∃ r1, s1.(jobs) !! k = Some r1 ∧ keeps r.(row_job) r1.(row_job) ∧
        (row_state r1 = row_state r ∨ edge released k (row_state r) (row_state r1)).
Proof.
  intros Hprim Hr.
  destruct Hprim as [id k2 st re me de t s2 Htx|k' r' r1' Hr' Hpin Hedge|f Hf|job facts st conf s2 Hnone _ Hin|t g|s2 Hcore _].
  - exists r. rewrite (append_event_tx_jobs _ _ _ _ _ _ _ _ _ _ Htx). auto.
  - simpl. destruct (decide (k' = k)) as [->|Hne].
    + rewrite lookup_insert_eq. rewrite Hr in Hr'. injection Hr' as <-. eauto.
    + rewrite lookup_insert_ne by done. eauto.
  - simpl. rewrite lookup_fmap, Hr. destruct (Hf r). eauto.
  - apply insert_job_Ok in Hin as (c & ->). simpl. rewrite lookup_insert_ne by congruence. eauto.
  - simpl. eauto.
  - injection Hcore as Hjobs _ _ _ _ _. rewrite Hjobs. eauto.
Qed.

Lemma evolves_rows released s s1 k r :
  evolves released s s1 → s.(jobs) !! k = Some r →
  ∃ r1, s1.(jobs) !! k = Some r1 ∧ keeps r.(row_job) r1.(row_job) ∧
        rtc (edge released k) (row_state r) (row_state r1).
Proof.
  intros Hev. revert r. induction Hev as [s|s s2 s1 Hprim _ IH]; intros r Hr; [eauto using rtc_refl|].
  destruct (prim_rows_kept _ _ _ _ _ Hprim Hr) as (r2 & Hr2 & Hpin2 & Hmove).
  destruct (IH _ Hr2) as (r1 & Hr1 & Hpin1 & Hmoves). exists r1. split_and!; [done|by etrans|].
  destruct Hmove as [Heq|Hmove]; [by rewrite <- Heq|by eapply rtc_l].
Qed.
End system.
