(* ===== verification/AgentShared.v ===== *)
(** The agent with a second connection to its database: the task that syncs with the control
    plane opens one of its own (crates/piqae-agent/src/main.rs), so that an operation of the
    store may commit between any two statements of the engine, between a statement and a
    call of the executor, and between the statements of another operation.

    A commit of the other connection keeps the invariant of the tables and only adds to the
    event log.  Every statement of every operation is of this kind, whatever state the job is
    in by then: an operation that read the state first may write it after the engine has
    moved on. *)
From S2P Require Import Prelude Domain AgentStore AgentStoreFacts AgentOps AgentEngine AgentEngineFacts AgentSystem.
Import Job.

#[local] Open Scope Z_scope.

(** * Commits of another connection *)

Definition grows (s s1 : AgentStore) : Prop := store_wf s1 ∧ s.(job_events) `prefix_of` s1.(job_events).
Definition polite (commit : AgentStore → AgentStore) : Prop := ∀ s, store_wf s → grows s (commit s).
Definition shared (v : StoreEnv) : Prop := Forall polite v.(others).

Lemma growth_refl s : store_wf s → grows s s.
Proof. by split. Qed.
Lemma growth_trans s s1 s2 : grows s s1 → grows s1 s2 → grows s s2.
Proof. intros [_ H1] [H2 H3]. split; [done|by etrans]. Qed.

Lemma meanwhile_grows v : shared v → store_wf v.(db) → grows v.(db) (meanwhile v).
Proof.
  unfold shared, meanwhile. destruct v.(others) as [|f l]; [intros _; apply growth_refl|].
  intros [Hf _]%Forall_cons. apply Hf.
Qed.
Lemma shared_next s v : shared v → shared (next_env s v).
Proof. unfold shared. simpl. destruct v.(others); [done|]. by intros [_ ?]%Forall_cons. Qed.

Section growth.
Context `{StoreExternal}.

Lemma append_event_tx_log id k seq st re me de t s s1 :
  append_event_tx id k seq st re me de t s = Ok s1 →
  ∃ ev, s1.(job_events) = s.(job_events) ++ [ev] ∧ ev.(ev_job_id) = k ∧ ev.(ev_state) = st.
Proof. intros (_ & _ & _ & ->)%append_event_tx_Ok. by eexists. Qed.

Lemma append_event_log id k seq st re me de t s s1 :
  append_event id k seq st re me de t s = Ok s1 →
  ∃ ev, s1.(job_events) = s.(job_events) ++ [ev] ∧ ev.(ev_job_id) = k ∧ ev.(ev_state) = st.
Proof. intros (_ & s0 & r & Htx & _ & ->)%append_event_Ok. by apply append_event_tx_log in Htx. Qed.

Lemma append_event_grows id k seq st re me de t s s1 :
  store_wf s → append_event id k seq st re me de t s = Ok s1 → grows s s1.
Proof.
  intros Hwf Hap. split; [by eapply append_event_wf|].
  apply append_event_log in Hap as (ev & -> & _). by apply prefix_app_r.
Qed.

Lemma prim_log released s s1 : prim released s s1 → s.(job_events) `prefix_of` s1.(job_events).
Proof.
  intros [id k st re me de t s2 Htx|k r r1 _ _ _|f _|job facts st conf s2 _ _ Hin|t g|s2 Hcore _]; simpl; try done.
  - apply append_event_tx_log in Htx as (ev & -> & _). by apply prefix_app_r.
  - by rewrite (insert_job_events _ _ _ _ _ _ Hin).
  - by injection Hcore as _ -> _.
Qed.

Lemma evolves_grows released s s1 : store_wf s → evolves released s s1 → grows s s1.
Proof.
  intros Hwf Hev. split; [by eapply evolves_wf|].
  induction Hev as [|s s2 s1 Hp _ IH]; [done|]. etrans; [by eapply prim_log|]. apply IH. by eapply prim_wf.
Qed.

(** ** Programs on the store among commits of another connection *)

(** What a commit of the other connection cannot take away. *)
Record stable (P : AgentStore → Prop) : Prop := {
  stable_wf s : P s → store_wf s;
  stable_grows s s1 : P s → grows s s1 → P s1;
}.

Definition among {A} (P : AgentStore → Prop) (m : SM A) (Q : A → AgentStore → Prop) (E : AgentStore → Prop) : Prop :=
  ∀ v, shared v → P v.(db) →
       match m v with
       | (v1, Ok a) => shared v1 ∧ Q a v1.(db)
       | (v1, Err _) => shared v1 ∧ E v1.(db)
       end.

Lemma among_ret {A} (P E : AgentStore → Prop) (a : A) : among P (mret a) (λ _, P) E.
Proof. by intros v. Qed.

Lemma among_fail {A} (P : AgentStore → Prop) err (Q : A → AgentStore → Prop) : among P (sm_fail err) Q P.
Proof. by intros v. Qed.

Lemma among_event_id (P E : AgentStore → Prop) : among P new_event_id (λ _, P) E.
Proof. by intros v. Qed.

Lemma among_bind {A B} (P E : AgentStore → Prop) (R : A → AgentStore → Prop) (Q : B → AgentStore → Prop) (m : SM A) (k : A → SM B) :
  among P m R E → (∀ a, among (R a) (k a) Q E) → among P (x ← m; k x) Q E.
Proof.
  intros Hm Hk v Hv HP. specialize (Hm v Hv HP). unfold mbind, sm_bind.
  destruct (m v) as [v1 [a|err]]; [|done]. destruct Hm. by apply (Hk a).
Qed.

Lemma among_transaction {A} P (Q : A → AgentStore → Prop) (f : AgentStore → result StorageError (AgentStore * A)) :
  stable P → (∀ s s1 a, P s → f s = Ok (s1, a) → Q a s1) → among P (transaction f) Q P.
Proof.
  intros HP Hf v Hv Hs. pose proof (shared_next (meanwhile v) v Hv) as Hnext.
  assert (P (meanwhile v)) as Hm.
  { eapply stable_grows; [done..|]. apply meanwhile_grows; [done|]. by eapply stable_wf. }
  unfold transaction. destruct (head (faults v)) as [[]|]; [by split| |];
    (destruct (f (meanwhile v)) as [[s1 a]|err] eqn:Hrun; [|by split]);
    (split; [by apply shared_next|]); eapply Hf; eauto.
Qed.

Lemma among_query {A} P (f : AgentStore → A) : stable P → among P (query f) (λ _, P) P.
Proof. intros HP. apply among_transaction; [done|]. by intros s s1 a Hs [= <- _]. Qed.

Lemma among_execute (P : AgentStore → Prop) (Q : unit → AgentStore → Prop) f :
  stable P → (∀ s s1, P s → f s = Ok s1 → Q () s1) → among P (execute f) Q P.
Proof.
  intros HP Hf. apply among_transaction; [done|]. intros s s1 [] Hs (s2 & Hrun & [= <-])%bind_Ok. eauto.
Qed.

(** A program that takes away no more than a commit of the other connection. *)
Definition tame {A} (m : SM A) : Prop := ∀ P, stable P → among P m (λ _, P) P.

Lemma tame_ret {A} (a : A) : tame (mret a).
Proof. intros P _. apply among_ret. Qed.
Lemma tame_fail {A} err : tame (A := A) (sm_fail err).
Proof. intros P _. apply among_fail. Qed.
Lemma tame_event_id : tame new_event_id.
Proof. intros P _. apply among_event_id. Qed.
Lemma tame_bind {A B} (m : SM A) (k : A → SM B) : tame m → (∀ a, tame (k a)) → tame (x ← m; k x).
Proof. intros Hm Hk P HP. eapply among_bind; [by apply Hm|]. intros a. by apply Hk. Qed.
Lemma tame_query {A} (f : AgentStore → A) : tame (query f).
Proof. intros P. apply among_query. Qed.

Lemma tame_transaction {A} (f : AgentStore → result StorageError (AgentStore * A)) :
  (∀ s s1 a, store_wf s → f s = Ok (s1, a) → grows s s1) → tame (transaction f).
Proof.
  intros Hf P HP. apply among_transaction; [done|]. intros s s1 a Hs Hrun.
  eapply stable_grows; [done..|]. eapply Hf; [|done]. by eapply stable_wf.
Qed.

Lemma tame_execute f : (∀ s s1, store_wf s → f s = Ok s1 → grows s s1) → tame (execute f).
Proof.
  intros Hf. apply tame_transaction. intros s s1 [] Hwf (s2 & Hrun & [= <-])%bind_Ok. eauto.
Qed.

Lemma tame_for_each {A} (f : A → SM unit) l : (∀ x, tame (f x)) → tame (for_each f l).
Proof. intros Hf. induction l as [|x l IH]; simpl; [apply tame_ret|]. apply tame_bind; auto. Qed.

Lemma tame_append_event id k seq st re me de t : tame (execute (append_event id k seq st re me de t)).
Proof. apply tame_execute. intros s s1. apply append_event_grows. Qed.

Lemma tame_append_next k st re me de t : tame (append_next k st re me de t).
Proof.
  apply tame_bind; [apply tame_event_id|]. intros id. apply tame_bind; [apply tame_query|]. intros seq.
  apply tame_bind; [apply tame_append_event|]. intros _. apply tame_ret.
Qed.

Lemma tame_cancel_before_handoff k t : tame (cancel_before_handoff k t).
Proof.
  apply tame_bind; [apply tame_query|]. intros [j|]; [|apply tame_fail].
  destruct (String.eqb _ _); [apply tame_ret|]. destruct (bool_decide _); simpl; [|apply tame_ret].
  do 2 (apply tame_bind; [apply tame_append_next|intros _]). apply tame_ret.
Qed.

Lemma tame_request_cancel k t : tame (request_cancel k t).
Proof.
  apply tame_bind; [apply tame_query|]. intros [j|]; [|apply tame_fail].
  destruct (bool_decide _); [apply tame_cancel_before_handoff|].
  destruct (String.eqb _ _); [apply tame_ret|]. destruct (bool_decide _); simpl; [|apply tame_ret].
  apply tame_bind; [apply tame_append_next|]. intros _. apply tame_bind; [|intros _; apply tame_ret].
  apply tame_execute. intros s s1 Hwf [= <-]. apply (evolves_grows None); [done|]. apply mark_cancel_evolves.
Qed.

Lemma tame_expire_waiting now : tame (expire_waiting now).
Proof.
  apply tame_bind; [apply tame_query|]. intros ids. apply tame_bind; [|intros _; apply tame_ret].
  apply tame_for_each. intros k. apply tame_bind; [apply tame_query|]. intros seq.
  apply tame_bind; [apply tame_event_id|]. intros id. apply tame_append_event.
Qed.

Lemma tame_run op : tame (run op).
Proof.
  destruct op eqn:Hop; cbn [run]; unfold dropping, discard, always, with_id;
    repeat first [ apply tame_ret | apply tame_event_id | apply tame_cancel_before_handoff
                 | apply tame_request_cancel | apply tame_expire_waiting
                 | apply tame_execute; intros s s1 Hwf Hrun
                 | apply tame_transaction; intros s s1 ? Hwf Hrun
                 | apply tame_bind; [|intros ?] ];
    (apply (evolves_grows (releases op)); [done|rewrite Hop; cbn [releases]]);
    try (injection Hrun as <-); eauto with agent; try (by apply evolves_side).
  - apply ok_or_Ok, bind_Some in Hrun as (s2 & Hloop & [= <- _]). by eapply quarantine_loop_evolves.
  - apply acknowledge_where_evolves.
  - apply (claim_reclaimable_evolves _ limit).
Qed.

(** An operation of the store on the other connection, and one statement of it: the writes
    of [cancel_before_handoff] come after its read of the state. *)
Definition commit_of (op : StoreOp) (fs : list bool) (n : nat) (l : list (AgentStore → AgentStore)) (s : AgentStore) : AgentStore :=
  (run op {| db := s; faults := fs; drawn := n; others := l |}).1.(db).
Definition late_event (id k st : string) (t : Z) (s : AgentStore) : AgentStore :=
  match append_event id k (next_sequence k s) st (Some "cancelled_by_server"%string) None "{}" t s with
  | Ok s1 => s1
  | Err _ => s
  end.

Lemma commit_of_polite op fs n l : Forall polite l → polite (commit_of op fs n l).
Proof.
  intros Hl s Hwf. unfold commit_of.
  assert (stable (grows s)) as Hst by (split; [by intros ? []|apply growth_trans]).
  pose proof (tame_run op _ Hst {| db := s; faults := fs; drawn := n; others := l |} Hl (growth_refl _ Hwf)) as Hrun.
  by destruct (run op _) as [v1 [a|err]]; destruct Hrun.
Qed.

Lemma late_event_polite id k st t : polite (late_event id k st t).
Proof.
  intros s Hwf. unfold late_event. destruct (append_event _ _ _ _ _ _ _ _ _) eqn:Hap; [|by apply growth_refl].
  by eapply append_event_grows.
Qed.
End growth.

(** * The engine among commits of another connection *)

(** The calls of [submit] for a job, and each call with an intent of its own in the log. *)
Definition is_submission (job : string) (ev : TraceEvent) : bool :=
  match ev with
  | Submitted sub => bool_decide (sub.(call).(sub_job_id) = job)
  | Released _ => false
  end.
Definition submissions (job : string) (t : list TraceEvent) : nat := length (filter (is_submission job) t).

Fixpoint own_intents (t : list TraceEvent) : Prop :=
  match t with
  | [] => True
  | Submitted sub :: t => (S (submissions sub.(call).(sub_job_id) t) ≤ sub.(durable_intents))%nat ∧ own_intents t
  | Released _ :: t => own_intents t
  end.

Lemma own_intents_at newer sub older :
  own_intents (newer ++ Submitted sub :: older) →
  (S (submissions sub.(call).(sub_job_id) older) ≤ sub.(durable_intents))%nat.
Proof. induction newer as [|[] newer IH]; simpl; [by intros [? _]|intros [_ ?]; auto|done]. Qed.

(** Every call has its intent, and one more intent is in the log for [spare]. *)
Definition covered (spare : option string) : assertion := λ s t,
  store_wf s ∧ own_intents t ∧
  (∀ sub, Submitted sub ∈ t → (sub.(durable_intents) ≤ intents sub.(call).(sub_job_id) s)%nat) ∧
  ∀ k, (submissions k t + (if decide (spare = Some k) then 1 else 0) ≤ intents k s)%nat.

Lemma intents_grow k s s1 : grows s s1 → (intents k s ≤ intents k s1)%nat.
Proof. intros [_ [l Hl]]. unfold intents. rewrite Hl, filter_app, length_app. lia. Qed.

Lemma covered_stable spare t : stable (λ s, covered spare s t).
Proof.
  split; [by intros s []|]. intros s s1 (_ & Hown & Hkept & Hle) Hg. split; [apply Hg|]. split; [done|]. split.
  { intros sub Hsub. etrans; [by apply Hkept|]. by apply intents_grow. }
  intros k. specialize (Hle k). pose proof (intents_grow k _ _ Hg). lia.
Qed.

Lemma covered_released job s t : covered None s t → covered None s (Released job :: t).
Proof. intros (Hwf & Hown & Hkept & Hle). split_and!; [done..| |done]. intros sub [[=]|Hsub]%elem_of_cons. by apply Hkept. Qed.

Lemma covered_none spare s t : covered spare s t → covered None s t.
Proof. intros (Hwf & Hown & Hkept & Hle). split_and!; [done..|]. intros k. specialize (Hle k). simpl. lia. Qed.

Section engine.
Context `{StoreExternal} `{EngineExternal} {X : Type} `{Executor X}.

Definition m_among {A} (P : assertion) (m : M X A) (Q : A → assertion) : Prop :=
  ∀ e, shared e.(env) → P e.(env).(db) e.(trace) →
       match m e with
       | (e1, Ok a) => shared e1.(env) ∧ Q a e1.(env).(db) e1.(trace)
       | (e1, Err _) => shared e1.(env) ∧ covered None e1.(env).(db) e1.(trace)
       end.

(** Programs that make no call of [submit]. *)
Definition m_tame {A} (m : M X A) : Prop := ∀ spare, m_among (covered spare) m (λ _, covered spare).

Lemma m_among_bind {A B} P (R : A → assertion) (Q : B → assertion) (m : M X A) (k : A → M X B) :
  m_among P m R → (∀ a, m_among (R a) (k a) Q) → m_among P (x ← m; k x) Q.
Proof.
  intros Hm Hk e He HP. specialize (Hm e He HP). unfold mbind, m_bind.
  destruct (m e) as [e1 [a|err]]; [|done]. destruct Hm. by apply (Hk a).
Qed.

Lemma m_tame_ret {A} (a : A) : m_tame (mret a).
Proof. by intros spare e. Qed.
Lemma m_tame_throw {A} err : m_tame (A := A) (throw err).
Proof. intros spare e He HP. split; [done|]. by eapply covered_none. Qed.
Lemma m_tame_lift {A} (r : result AgentError A) : m_tame (lift r).
Proof. destruct r; [apply m_tame_ret|apply m_tame_throw]. Qed.
Lemma m_tame_now : m_tame now_ms.
Proof. by intros spare e. Qed.
Lemma m_tame_bind {A B} (m : M X A) (k : A → M X B) : m_tame m → (∀ a, m_tame (k a)) → m_tame (x ← m; k x).
Proof. intros Hm Hk spare. eapply m_among_bind; [apply Hm|]. intros a. apply Hk. Qed.

Lemma m_tame_store {A} (m : SM A) : tame m → m_tame (store m).
Proof.
  intros Hm spare e He HP. specialize (Hm _ (covered_stable spare e.(trace)) _ He HP). unfold store.
  destruct (m (env e)) as [v [a|err]]; destruct Hm as [Hv HQ]; (split; [done|]); [done|by eapply covered_none].
Qed.

Lemma m_tame_interruptible : m_tame interruptible.
Proof.
  intros spare e He HP. unfold interruptible. pose proof (shared_next (meanwhile e.(env)) _ He) as Hnext.
  assert (covered spare (meanwhile e.(env)) e.(trace)) as Hm.
  { eapply (stable_grows _ (covered_stable spare e.(trace))); [exact HP|]. apply meanwhile_grows; [done|]. apply HP. }
  destruct (head _) as [[]|]; simpl; [|done..]. split; [done|]. by eapply covered_none.
Qed.

Lemma m_tame_effect {A} (f : Engine X → Engine X * A) :
  (∀ e, (f e).1.(env) = e.(env) ∧ (f e).1.(trace) = e.(trace)) → m_tame (effect f).
Proof.
  intros Hf spare. eapply m_among_bind; [apply m_tame_interruptible|]. intros _ e He HP.
  destruct (Hf e) as [Henv Htrace]. destruct (f e) as [e1 a]. simpl in *. by rewrite Henv, Htrace.
Qed.

Lemma m_tame_for_each {A} (f : A → M X unit) l :
  (∀ x, m_among (covered None) (f x) (λ _, covered None)) → m_among (covered None) (for_each_m f l) (λ _, covered None).
Proof.
  intros Hf. induction l as [|x l IH]; simpl; [apply m_tame_ret|]. eapply m_among_bind; [apply Hf|]. intros ?. apply IH.
Qed.

(** ** The operations of the engine *)

Lemma m_tame_commit released (f : string → AgentStore → result StorageError AgentStore) :
  (∀ id s s1, f id s = Ok s1 → evolves released s s1) → m_tame (store (id ← new_event_id; execute (f id))).
Proof.
  intros Hf. apply m_tame_store, tame_bind; [apply tame_event_id|]. intros id. apply tame_execute.
  intros s s1 Hwf Hrun. eapply evolves_grows; eauto.
Qed.

Lemma m_tame_remove_confidential path : m_tame (remove_confidential path).
Proof. unfold remove_confidential. destruct (confidential_content_path path); [by apply m_tame_effect|apply m_tame_ret]. Qed.

Lemma m_tame_call_executor {A} (f : X → X * A) : m_tame (call_executor f).
Proof. apply m_tame_effect. intros e. by destruct (f (executor e)). Qed.

Lemma m_tame_transition k from to re me de : m_tame (transition k from to re me de).
Proof.
  do 2 (apply m_tame_bind; [apply m_tame_lift|intros ?]). apply m_tame_bind; [apply m_tame_now|intros now].
  apply m_tame_bind; [apply m_tame_store, tame_append_next|]. intros _. apply m_tame_ret.
Qed.

Lemma m_tame_finish_schedule k : m_tame (finish_schedule k).
Proof.
  apply m_tame_store, tame_execute. intros s s1 Hwf [= <-]. apply (evolves_grows None); [done|].
  apply finish_reconciliation_evolves.
Qed.

Lemma m_tame_record_attempt k native ns au de err now : m_tame (record_attempt k native ns au de err now).
Proof. apply (m_tame_commit None). intros id s s1. apply record_reconciliation_attempt_evolves. Qed.

Ltac tame_by tac := repeat first
  [ apply m_tame_ret | apply m_tame_throw | apply m_tame_lift | apply m_tame_now | apply m_tame_remove_confidential
  | apply m_tame_call_executor | apply m_tame_transition | apply m_tame_finish_schedule | apply m_tame_record_attempt
  | tac | apply m_tame_bind; [|intros ?] | case_match ].

Lemma m_tame_transition_if_needed job to re me de : m_tame (transition_if_needed job to re me de).
Proof. unfold transition_if_needed. tame_by fail. Qed.
Lemma m_tame_mark_uncertain job me de now : m_tame (mark_uncertain job me de now).
Proof. unfold mark_uncertain. tame_by ltac:(apply m_tame_transition_if_needed). Qed.
Lemma m_tame_begin_execution job : m_tame (begin_execution job).
Proof. unfold begin_execution. tame_by fail. Qed.
Lemma m_tame_validate_job_options job : m_tame (validate_job_options job).
Proof. unfold validate_job_options, fail_invalid_job_options. tame_by fail. Qed.

Lemma m_tame_native_profile job : m_tame (native_profile_for_job job).
Proof.
  unfold native_profile_for_job, stored_native_profile, require.
  tame_by ltac:(apply m_tame_store, tame_transaction; intros ? ? ? ? (? & _ & [= <- _])%bind_Ok; by apply growth_refl).
Qed.

Lemma m_tame_record_accepted job acceptance : m_tame (record_accepted job acceptance).
Proof.
  unfold record_accepted.
  tame_by ltac:(apply (m_tame_commit None); intros id s s1; apply record_native_acceptance_evolves).
Qed.

Lemma m_tame_record_failed job error : m_tame (record_failed job error).
Proof.
  unfold record_failed. apply m_tame_bind.
  { apply m_tame_store, tame_execute. intros s s1 Hwf [= <-]. apply (evolves_grows None); [done|].
    apply record_executor_failure_evolves. }
  intros _.
  tame_by ltac:(apply (m_tame_commit (Some job.(job_id))); intros ? ? ?; apply record_local_retryable_failure_evolves).
Qed.

Lemma m_tame_reconcile_item item now : m_tame (reconcile_item item now).
Proof.
  unfold reconcile_item, reconcile_cancellation, apply_native_observation.
  tame_by ltac:(first [apply m_tame_mark_uncertain | apply m_tame_transition_if_needed]).
Qed.

(** *** The intent before the call *)

Lemma intents_recorded id k seq re me de t s s1 :
  append_event id k seq "spool_intent" re me de t s = Ok s1 → intents k s1 = S (intents k s).
Proof.
  intros (ev & Hev & Hk & Hst)%append_event_log. unfold intents. rewrite Hev, filter_app, filter_cons_True, length_app by done.
  simpl. lia.
Qed.

Lemma intent_spare id k seq re me de t tr s s1 :
  covered None s tr → append_event id k seq "spool_intent" re me de t s = Ok s1 → covered (Some k) s1 tr.
Proof.
  intros HP Hap. pose proof (append_event_grows _ _ _ _ _ _ _ _ _ _ (proj1 HP) Hap) as Hg.
  destruct (stable_grows _ (covered_stable None tr) _ _ HP Hg) as (Hwf & Hown & Hkept & _).
  destruct HP as (_ & _ & _ & Hle). split_and!; [done..|]. intros k1. specialize (Hle k1). simpl in Hle.
  destruct (decide (Some k = Some k1)) as [[= <-]|].
  - rewrite (intents_recorded _ _ _ _ _ _ _ _ _ Hap). lia.
  - pose proof (intents_grow k1 _ _ Hg). lia.
Qed.

Lemma intent_covers k from re me de :
  m_among (covered None) (transition k from SpoolIntent re me de) (λ _, covered (Some k)).
Proof.
  do 2 (eapply m_among_bind; [apply m_tame_lift|intros ?]). eapply m_among_bind; [apply m_tame_now|intros now].
  eapply (m_among_bind _ (λ _, covered (Some k))); [|intros ?; apply m_tame_ret].
  intros e He HP.
  assert (among (λ s, covered None s e.(trace)) (append_next k "spool_intent" re (Some me) de now)
    (λ _ s, covered (Some k) s e.(trace)) (λ s, covered None s e.(trace))) as Happ.
  { pose proof (covered_stable None e.(trace)) as Hst.
    eapply among_bind; [apply among_event_id|]. intros id. eapply among_bind; [by apply among_query|]. intros seq.
    eapply (among_bind _ _ (λ _ s, covered (Some k) s e.(trace))); [|intros ?; apply among_ret].
    apply among_execute; [done|]. intros s s1 HP1 Hap. by eapply intent_spare. }
  specialize (Happ _ He HP). unfold store. simpl. by destruct (append_next _ _ _ _ _ _ _) as [v [n|err]].
Qed.

Lemma submit_covered sub :
  m_among (covered (Some sub.(sub_job_id))) (call_submit sub) (λ _, covered None).
Proof.
  eapply m_among_bind; [apply m_tame_interruptible|]. intros _ e He (Hwf & Hown & Hkept & Hle).
  destruct (submit sub e.(executor)) as [x r]. simpl. split; [done|]. split_and!; [done|split; [simpl|done]| |].
  - specialize (Hle sub.(sub_job_id)). rewrite decide_True in Hle by done. lia.
  - intros sub1 [[= ->]|Hsub]%elem_of_cons; [done|by apply Hkept].
  - intros k. specialize (Hle k). unfold submissions in *. rewrite filter_cons. simpl.
    repeat case_decide; simpl in *; naive_solver lia.
Qed.

Lemma execute_covered job : m_among (covered None) (execute_job job) (λ _, covered None).
Proof.
  eapply m_among_bind; [apply m_tame_begin_execution|intros ?].
  eapply m_among_bind; [apply m_tame_validate_job_options|intros [options|]]; [|apply m_tame_remove_confidential].
  eapply (m_among_bind _ (λ _, covered None)).
  { destruct (String.eqb _ _); [apply m_tame_transition|apply m_tame_ret]. }
  intros ?. eapply m_among_bind; [apply intent_covers|]. intros ?.
  eapply m_among_bind; [apply m_tame_native_profile|intros profile].
  eapply m_among_bind; [apply m_tame_now|intros now].
  eapply m_among_bind; [apply (submit_covered (submission_for _ _ _ _))|].
  intros [acceptance|error]; [apply m_tame_record_accepted|apply m_tame_record_failed].
Qed.

Lemma run_once_covered : m_among (covered None) run_once (λ _, covered None).
Proof.
  eapply m_among_bind; [apply m_tame_now|intros now].
  eapply m_among_bind; [apply m_tame_store, tame_expire_waiting|intros ?].
  eapply m_among_bind; [apply m_tame_store, tame_query|intros heads].
  eapply m_among_bind; [apply m_tame_for_each, execute_covered|intros ?].
  eapply m_among_bind; [|intros ?; apply m_tame_ret]. unfold reconcile_due.
  eapply m_among_bind; [apply m_tame_now|intros now1].
  eapply m_among_bind; [apply m_tame_store, tame_query|intros items].
  eapply m_among_bind; [apply m_tame_for_each|intros ?; apply m_tame_ret]. intros item. apply m_tame_reconcile_item.
Qed.

(** ** The agent with its second connection *)

(** The environment decides which calls fail, what the other connection commits before
    which statement, and may replace the executor. *)
Definition interfered (fs : list bool) (l : list (AgentStore → AgentStore)) (x : X) (e : Engine X) : Engine X :=
  {| env := {| db := e.(env).(db); faults := fs; drawn := e.(env).(drawn); others := l |}; executor := x;
     ticks := e.(ticks); removed_files := e.(removed_files); trace := e.(trace) |}.

Inductive shared_step (e : Engine X) : Engine X → Prop :=
| shared_run : shared_step e (run_once e).1
| shared_op op : shared_step e (after_op op e)
| shared_environment fs l x : Forall polite l → shared_step e (interfered fs l x e).

Definition shared_reachable (e : Engine X) : Prop := ∃ e0, initial e0 ∧ rtc shared_step e0 e.

Lemma shared_step_covered e e1 :
  shared e.(env) → covered None e.(env).(db) e.(trace) → shared_step e e1 →
  shared e1.(env) ∧ covered None e1.(env).(db) e1.(trace).
Proof.
  intros He HP [|op|fs l x Hl]; [| |by split].
  - pose proof (run_once_covered e He HP) as Hrun. by destruct (run_once e) as [e2 [a|err]].
  - pose proof (tame_run op _ (covered_stable None e.(trace)) _ He HP) as Hrun. unfold after_op.
    destruct (run op e.(env)) as [v [a|err]]; destruct Hrun as [Hv HP1]; (split; [done|]);
      destruct (releases op); try done; by apply covered_released.
Qed.

Lemma shared_reachable_covered e : shared_reachable e → covered None e.(env).(db) e.(trace).
Proof.
  intros (e0 & (Hdb & Htrace & Hq) & Hsteps).
  cut (shared e.(env) ∧ covered None e.(env).(db) e.(trace)); [tauto|].
  assert (shared e0.(env) ∧ covered None e0.(env).(db) e0.(trace)) as [Hv HP].
  { unfold shared. rewrite Hq, Hdb, Htrace. split; [constructor|]. split_and!; [apply empty_store_wf|done|by intros sub ?%not_elem_of_nil|].
    intros k. vm_compute. lia. }
  clear Hdb Htrace Hq. induction Hsteps as [|e0 e1 e Hstep _ IH]; [done|].
  destruct (shared_step_covered _ _ Hv HP Hstep). auto.
Qed.
End engine.
