(* ===== verification/AgentClaims.v ===== *)
(** The properties of the agent's queue and engine. *)
From S2P Require Import Prelude Domain AgentStore AgentStoreFacts AgentOps AgentEngine AgentEngineFacts AgentSystem AgentShared.
Import Job.

#[local] Open Scope Z_scope.

(** * Traces *)

(** A submission of [k] whose outcome leaves open that the job reached the spooler, and
    that no release has cleared since. *)
Fixpoint unresolved (k : string) (t : list TraceEvent) : bool :=
  match t with
  | [] => false
  | Submitted s :: t =>
    if String.eqb s.(call).(sub_job_id) k then negb (definite s) else unresolved k t
  | Released job :: t => if String.eqb job k then false else unresolved k t
  end.

(** No submission of a job with an unresolved earlier one. *)
Fixpoint no_blind_retry (t : list TraceEvent) : Prop :=
  match t with
  | [] => True
  | Submitted s :: t => unresolved s.(call).(sub_job_id) t = false ∧ no_blind_retry t
  | Released _ :: t => no_blind_retry t
  end.

Definition intent_first (t : list TraceEvent) : Prop :=
  ∀ s, Submitted s ∈ t → s.(durable_state) = Some "spool_intent"%string.

(** The invariant behind both: an unresolved job is past the handoff. *)
Definition submissions_ok : assertion := λ s t,
  no_blind_retry t ∧ intent_first t ∧
  ∀ k, unresolved k t = true → ∃ r, s.(jobs) !! k = Some r ∧ row_state r ∉ pre_states.

Section submissions.
Context `{StoreExternal} `{EngineExternal} {X : Type} `{Executor X}.

(** Only a release leads from past the handoff back to the queue. *)
Lemma edge_past released k a b :
  released ≠ Some k → edge released k a b → a ∉ pre_states → b ∉ pre_states.
Proof.
  intros Hne [Hedge|[-> _]] Ha; [|done]. unfold store_edges in Hedge.
  repeat (apply elem_of_cons in Hedge as [[= -> ->]|Hedge]);
    [first [ by apply (bool_decide_unpack _); vm_compute
           | by destruct Ha; apply (bool_decide_unpack _); vm_compute ]..|].
  by apply not_elem_of_nil in Hedge.
Qed.

Lemma evolves_past released s s1 k r :
  released ≠ Some k → evolves released s s1 → s.(jobs) !! k = Some r →
  row_state r ∉ pre_states → ∃ r1, s1.(jobs) !! k = Some r1 ∧ row_state r1 ∉ pre_states.
Proof.
  intros Hne Hev Hr Hst. destruct (evolves_rows _ _ _ _ _ Hev Hr) as (r1 & Hr1 & _ & Hmoves).
  exists r1. split; [done|]. revert Hst. clear -Hne Hmoves.
  induction Hmoves; [done|]. eauto using edge_past.
Qed.

Lemma submissions_op released s s1 t :
  submissions_ok s t → evolves released s s1 →
  submissions_ok s1 (match released with Some job => Released job :: t | None => t end).
Proof.
  intros (Hblind & Hintent & Hpast) Hev. split_and!.
  - by destruct released.
  - destruct released; [|done]. intros sub Hsub. apply Hintent. set_solver.
  - intros k Hk. destruct released as [job|].
    + simpl in Hk. destruct (String.eqb_spec job k) as [|Hne]; [done|].
      destruct (Hpast k Hk) as (r & Hr & Hst). eapply evolves_past; [|done..]. congruence.
    + destruct (Hpast k Hk) as (r & Hr & Hst). by eapply (evolves_past None).
Qed.

Lemma submissions_execute job s0 t0 r s t :
  submissions_ok s0 t0 → s0.(jobs) !! job.(job_id) = Some r → row_state r ∈ pre_states →
  executed job s0 t0 s t → submissions_ok s t.
Proof.
  intros (Hblind & Hintent & Hpast) Hr Hpre Hex.
  assert (unresolved job.(job_id) t0 = false) as Hfree.
  { destruct (unresolved _ t0) eqn:Hu; [|done].
    destruct (Hpast _ Hu) as (r' & Hr' & Hst). rewrite Hr in Hr'. by injection Hr' as <-. }
  pose proof (touched_frame _ _ _ (executed_touched _ _ _ _ _ Hex)) as Hframe.
  assert (∀ k, k ≠ job.(job_id) → unresolved k t0 = true →
            ∃ r, s.(jobs) !! k = Some r ∧ row_state r ∉ pre_states) as Hothers.
  { intros k Hne Hu. rewrite Hframe by done. by apply Hpast. }
  destruct Hex as [[-> _]|(sub & (Hid & _ & Hdur) & st & (-> & _ & Hjs) & Hst)]; split_and!; try done.
  - intros k Hu. apply Hothers; [|done]. intros ->. congruence.
  - simpl. by rewrite Hid.
  - intros sub' [[= <-]|Hsub]%elem_of_cons; [done|by apply Hintent].
  - intros k. simpl. rewrite Hid. destruct (String.eqb_spec job.(job_id) k) as [<-|Hne].
    + intros Hdef. destruct Hst as [Hst|Hst]; [by rewrite Hst in Hdef|].
      apply fmap_Some in Hjs as (r' & Hr' & ->). eauto.
    + apply Hothers. congruence.
Qed.

Lemma submissions_reconcile item s0 t0 s t :
  submissions_ok s0 t0 → settled item s0 t0 s t → submissions_ok s t.
Proof.
  intros (Hblind & Hintent & Hpast) (st & Hst & -> & Htouched & Hjs). split_and!; try done.
  intros k Hu. destruct (decide (k = item.(item_job).(job_id))) as [->|Hne].
  - apply fmap_Some in Hjs as (r & Hr & ->). eauto.
  - rewrite (touched_frame _ _ _ Htouched) by done. by apply Hpast.
Qed.

Lemma queued_pre st : st ∈ queued_states → st ∈ pre_states.
Proof. unfold queued_states, pre_states. set_solver. Qed.

Lemma submissions_reachable (e : Engine X) :
  agent_reachable e → submissions_ok e.(env).(db) e.(trace).
Proof.
  intros (e0 & (Hdb & Ht & Hq) & Hsteps).
  eapply (agent_keeps submissions_ok (λ j, j.(state) ∈ pre_states) _ _ _ _ _ _ _ Hsteps); [done|].
  split; [rewrite Hdb; apply empty_store_wf|]. rewrite Ht. split_and!; try done.
  intros sub. by intros ?%not_elem_of_nil.
  Unshelve.
  - intros s s1 t _ HI Hev. by apply (submissions_op None s).
  - intros now s t job Hwf _ Hjob.
    destruct (elem_of_runnable_heads _ _ _ Hwf Hjob) as (r & _ & <- & Hhead).
    by apply queued_pre, (is_head_state now s).
  - intros job s1 t1 r s t _ HI Hgood Hr Hjob Hex. eapply submissions_execute; [done|done| |done].
    unfold row_state. by rewrite Hjob.
  - intros item s1 t1 r s t _ HI _ _ _ Hs. by eapply submissions_reconcile.
  - intros released s s1 t _ HI Hev. by apply (submissions_op released s).
Qed.

(** C1: The agent never retries a print blindly.  Through every interleaving of engine
    runs, store operations, storage failures and crashes, a job is handed to the
    executor only if every earlier handoff of it ended in a definite, retryable failure
    before the operating system's boundary, or an operator, the authority or the
    recovery of the handoff journal explicitly released it in between. *)
Theorem no_blind_retries (e : Engine X) :
  agent_reachable e → no_blind_retry e.(trace).
Proof. intros He. by destruct (submissions_reachable e He). Qed.

(** With no commit of another connection in between, the row itself says [spool_intent]
    when the executor is called. *)
Theorem intent_state_alone (e : Engine X) :
  agent_reachable e → intent_first e.(trace).
Proof. intros He. by destruct (submissions_reachable e He) as (_ & ? & _). Qed.

(** C7: Each call of the executor to submit a job has an intent of its own in the durable
    event log before it is made: the log that the call finds holds more [spool_intent]
    events of the job than calls were made before it, and never loses one of them.  This
    holds whatever a second connection to the database commits between any two statements
    of the engine and before the call itself, and through storage failures and crashes; such
    a commit may have changed the job's row by then, but not the log. *)
Theorem intent_precedes_submission (e : Engine X) newer sub older :
  shared_reachable e → e.(trace) = newer ++ Submitted sub :: older →
  (S (submissions sub.(call).(sub_job_id) older) ≤ sub.(durable_intents))%nat ∧
  (sub.(durable_intents) ≤ intents sub.(call).(sub_job_id) e.(env).(db))%nat.
Proof.
  intros (_ & Hown & Hkept & _)%shared_reachable_covered Htrace. rewrite Htrace in *.
  split; [by eapply own_intents_at|]. apply Hkept. set_solver.
Qed.
End submissions.

(** * Interrupted executions *)

Section interrupted.
Context `{StoreExternal} `{EngineExternal} {X : Type} `{Executor X}.
Variables (k st printer : string) (t0 : list TraceEvent).
Hypothesis Hst : st ∈ ["preparing"; "rendering"]%string.

(** The job is still in [st], and no submission was made to its printer since [t0]. *)
Definition stranded : assertion := λ s t,
  (∃ r, s.(jobs) !! k = Some r ∧ row_state r = st ∧ r.(row_job).(printer_id) = printer) ∧
  ∃ new, t = new ++ t0 ∧
         ∀ sub, Submitted sub ∈ new → sub.(call).(sub_printer_id) ≠ printer.

Lemma no_edge_from released b : ¬ edge released k st b.
Proof.
  assert (∀ l : list (string * string), bool_decide (Forall (λ p, p.1 ≠ "preparing"%string ∧
            p.1 ≠ "rendering"%string) l) = true → (st, b) ∉ l) as Hnone.
  { intros l Hl%bool_decide_eq_true Hin. rewrite Forall_forall in Hl.
    destruct (Hl _ Hin) as [Hne1 Hne2]. simpl in Hne1, Hne2. pose proof Hst as Hcases.
    apply elem_of_cons in Hcases as [Hc|Hc%list_elem_of_singleton]; congruence. }
  by intros [Hin|[_ Hin]]; revert Hin; apply Hnone; vm_compute.
Qed.

Lemma interrupted_names : st ∈ active_states ∧ st ∉ native_states.
Proof.
  pose proof Hst as Hcases. apply elem_of_cons in Hcases as [->|Hcases];
    [|apply list_elem_of_singleton in Hcases as ->];
    by split; apply (bool_decide_unpack _); vm_compute.
Qed.

Lemma stranded_op released s s1 t :
  stranded s t → evolves released s s1 →
  stranded s1 (match released with Some job => Released job :: t | None => t end).
Proof.
  intros [(r & Hr & Hrst & Hp) (new & Ht & Hnew)] Hev. split.
  - destruct (evolves_rows _ _ _ _ _ Hev Hr) as (r1 & Hr1 & Hpin & Hmoves).
    exists r1. split; [done|]. apply keeps_fields in Hpin as (_ & Hp1 & _). split; [|congruence].
    rewrite Hrst in Hmoves. inversion Hmoves as [|? b ? Hedge _]; [congruence|].
    by apply no_edge_from in Hedge.
  - destruct released as [job|]; [|by eauto]. exists (Released job :: new). subst t.
    split; [done|]. intros sub [[=]|Hsub]%elem_of_cons. eauto.
Qed.

Lemma stranded_head now s t job :
  store_wf s → stranded s t → job ∈ runnable_heads now s → job.(printer_id) ≠ printer.
Proof.
  intros Hwf [(r & Hr & Hrst & Hp) _] Hjob Heq.
  destruct (elem_of_runnable_heads _ _ _ Hwf Hjob) as (r1 & _ & <- & Hhead).
  unfold is_head in Hhead. rewrite !andb_true_iff, negb_true_iff in Hhead.
  destruct Hhead as [[_ Hactive] _]. apply not_true_iff_false in Hactive. apply Hactive.
  apply existsb_exists. exists r. split.
  - apply list_elem_of_In, list_elem_of_filter. split; [congruence|].
    apply elem_of_job_rows; [done|]. by rewrite (wf_key _ Hwf _ _ Hr).
  - apply bool_decide_eq_true. rewrite Hrst. apply interrupted_names.
Qed.

Lemma stranded_frame k1 s0 s t :
  touched k1 s0 s → k ≠ k1 → stranded s0 t → stranded s t.
Proof.
  intros Ht Hne [(r & Hr & Hrest) Hnew]. split; [|done]. exists r.
  by rewrite (touched_frame _ _ _ Ht).
Qed.

Lemma stranded_execute job s0 t0' r s t :
  stranded s0 t0' → job.(printer_id) ≠ printer → s0.(jobs) !! job.(job_id) = Some r →
  r.(row_job) = job → executed job s0 t0' s t → stranded s t.
Proof.
  intros Hs Hp Hr Hjob Hex.
  assert (k ≠ job.(job_id)) as Hne.
  { intros Heq. destruct Hs as [(r' & Hr' & _ & Hp') _]. rewrite Heq, Hr in Hr'. congruence. }
  pose proof (stranded_frame _ _ _ _ (executed_touched _ _ _ _ _ Hex) Hne Hs) as [Hrow (new & Hnew & Hsubs)].
  destruct Hex as [[-> _]|(sub & (_ & Hpr & _) & _ & (-> & _) & _)]; split; try done; [by eauto|].
  exists (Submitted sub :: new). rewrite Hnew. split; [done|].
  intros sub' [[= ->]|Hsub]%elem_of_cons; [congruence|by apply Hsubs].
Qed.

Lemma stranded_reconcile item s0 t0' r s t :
  stranded s0 t0' → item.(item_job).(state) ∈ native_states →
  s0.(jobs) !! item.(item_job).(job_id) = Some r → r.(row_job) = item.(item_job) →
  settled item s0 t0' s t → stranded s t.
Proof.
  intros Hs Hnat Hr Hjob (_ & _ & -> & Ht & _). eapply stranded_frame; [exact Ht| |done].
  intros Heq. destruct Hs as [(r' & Hr' & Hrst & _) _]. rewrite Heq, Hr in Hr'. injection Hr' as <-.
  rewrite <- Hjob in Hnat. change (row_state r ∈ native_states) in Hnat. rewrite Hrst in Hnat.
  by apply interrupted_names in Hnat.
Qed.

Lemma stranded_steps (e e1 : Engine X) :
  rtc agent_step e e1 → quiet e.(env) → store_wf e.(env).(db) → stranded e.(env).(db) e.(trace) →
  stranded e1.(env).(db) e1.(trace).
Proof.
  intros Hsteps Hq Hwf Hs.
  eapply (agent_keeps stranded (λ j, j.(printer_id) ≠ printer) _ _ _ _ _ _ _ Hsteps); [done|].
  by split.
  Unshelve.
  - intros s s1 t _ HI Hev. by apply (stranded_op None s).
  - intros now s t job Hwf' HI Hjob. by eapply stranded_head.
  - intros job s1 t1 r s t _ HI Hp Hr Hjob Hex. exact (stranded_execute job s1 t1 r s t HI Hp Hr Hjob Hex).
  - intros item s1 t1 r s t _ HI Hnat Hr Hjob Hset. exact (stranded_reconcile item s1 t1 r s t HI Hnat Hr Hjob Hset).
  - intros released s s1 t _ HI Hev. by apply (stranded_op released s).
Qed.
End interrupted.

(** C37: An execution that is interrupted before the spool intent strands its printer.
    When a crash or a storage error leaves a job in [preparing] or [rendering], no later
    run of the engine and no operation of the store (cancellation, expiry, recovery and
    releases included) moves the job again, and nothing is ever submitted to its printer
    again. *)
Theorem interrupted_job_strands_printer `{StoreExternal} `{EngineExternal} {X : Type}
    `{Executor X} (e e1 : Engine X) k r :
  agent_reachable e → e.(env).(db).(jobs) !! k = Some r →
  row_state r ∈ ["preparing"; "rendering"]%string → rtc agent_step e e1 →
  (∃ r1, e1.(env).(db).(jobs) !! k = Some r1 ∧ row_state r1 = row_state r) ∧
  ∃ new, e1.(trace) = new ++ e.(trace) ∧
    ∀ sub, Submitted sub ∈ new → sub.(call).(sub_printer_id) ≠ r.(row_job).(printer_id).
Proof.
  intros He Hr Hst Hsteps.
  destruct (stranded_steps k (row_state r) r.(row_job).(printer_id) e.(trace) Hst e e1 Hsteps)
    as [(r1 & Hr1 & Hst1 & _) Hnew]; [by apply agent_reachable_quiet|by apply agent_reachable_wf| |].
  - split; [by exists r|]. exists []. split; [done|]. by intros sub ?%not_elem_of_nil.
  - split; [by exists r1|done].
Qed.

(** * Durability *)

(** C27: An accepted job is never lost and never altered.  Whatever the agent does
    afterwards, the job's row is still there, with the same identity, printer, position
    in the printer's queue, content digest, options, expiry, profile snapshot and native
    binding, and with the same profile revision once one is recorded; only its state,
    spooler identifier, route owner, content path and routing facts change. *)
Theorem accepted_jobs_are_durable `{StoreExternal} `{EngineExternal} {X : Type}
    `{Executor X} (e e1 : Engine X) k r :
  agent_reachable e → e.(env).(db).(jobs) !! k = Some r → rtc agent_step e e1 →
  ∃ r1, e1.(env).(db).(jobs) !! k = Some r1 ∧ keeps r.(row_job) r1.(row_job).
Proof.
  intros He Hr Hsteps.
  set (I := (λ s (_ : list TraceEvent), ∃ r1, s.(jobs) !! k = Some r1 ∧
               keeps r.(row_job) r1.(row_job)) : assertion).
  assert (∀ released s s1 t t1, I s t → evolves released s s1 → I s1 t1) as Hev.
  { intros released s s1 t t1 (r1 & Hr1 & Hp1) Hev.
    destruct (evolves_rows _ _ _ _ _ Hev Hr1) as (r2 & Hr2 & Hp2 & _). exists r2. split; [done|by etrans]. }
  assert (∀ k1 s s1 t t1, touched k1 s s1 → I s t → I s1 t1) as Htouched.
  { intros k1 s s1 t t1 [_ Hframe (r0 & r1 & Hr0 & Hr1 & Hp & _)] (r2 & Hr2 & Hp2).
    destruct (decide (k = k1)) as [->|Hne].
    { exists r1. rewrite Hr0 in Hr2. injection Hr2 as <-. split; [done|by etrans]. }
    exists r2. by rewrite Hframe. }
  apply (agent_keeps I (λ _, True)) with (e := e) (e1 := e1); try done.
  - intros s s1 t _ HI Hev1. by eapply Hev.
  - intros job s0 t0 r0 s t _ HI _ _ _ Hex. eapply Htouched; [by eapply executed_touched|done].
  - intros item s0 t0 r0 s t _ HI _ _ _ (st & _ & _ & Ht & _). by eapply Htouched.
  - intros released s s1 t _ HI Hev1. by eapply Hev.
  - by apply agent_reachable_quiet.
  - split; [by apply agent_reachable_wf|by exists r].
Qed.

(** The event history of every job is gap-free and published in order.  In every
    state the agent reaches, a job's events are numbered 1, 2, 3, ... in the order they
    were appended, every event belongs to a stored job, and the outbox holds exactly the
    event log, in the same order and under increasing sequence numbers. *)
Theorem event_log_is_gap_free `{StoreExternal} `{EngineExternal} {X : Type} `{Executor X}
    (e : Engine X) :
  agent_reachable e →
  (∀ k, job_sequences k e.(env).(db).(job_events) =
        seqZ 1 (Z.of_nat (length (job_sequences k e.(env).(db).(job_events))))) ∧
  Forall (λ ev, is_Some (e.(env).(db).(jobs) !! ev_job_id ev)) e.(env).(db).(job_events) ∧
  ob_event <$> e.(env).(db).(event_outbox) = e.(env).(db).(job_events) ∧
  ob_sequence <$> e.(env).(db).(event_outbox) =
    seqZ 1 (Z.of_nat (length e.(env).(db).(event_outbox))).
Proof. intros Hwf%agent_reachable_wf. destruct Hwf. by split_and!. Qed.

(** * The queue *)

Section queue.
Implicit Types (s : AgentStore) (r : JobRow).

Lemma min_sequence_le l r m :
  min_sequence l = Some m → r ∈ l → m ≤ r.(row_job).(printer_sequence).
Proof.
  revert m. induction l as [|r' l IH]; intros m; simpl; [by intros [=]|].
  intros [= <-] [->|Hr]%elem_of_cons; destruct (min_sequence l) as [m'|] eqn:Hm; simpl; try lia.
  - specialize (IH _ eq_refl Hr). lia.
  - by destruct l; [apply not_elem_of_nil in Hr|].
Qed.

Lemma is_head_inv now s r :
  is_head now s r = true →
  runnable r = true ∧
  (∀ t, r.(next_attempt_unix_ms) = Some t → t ≤ now) ∧
  (∀ t, r.(row_job).(expires_unix_ms) = Some t → now < t) ∧
  ∀ r1, r1 ∈ job_rows s → r1.(row_job).(printer_id) = r.(row_job).(printer_id) →
    (row_state r1 ∉ active_states) ∧
    (runnable r1 = true → r.(row_job).(printer_sequence) ≤ r1.(row_job).(printer_sequence)).
Proof.
  unfold is_head. rewrite !andb_true_iff, negb_true_iff, bool_decide_eq_true.
  intros [[[[Hrun Hnext] Hexp] Hactive] Hmin]. split_and!; [done|..].
  - intros t Ht. rewrite Ht in Hnext. simpl in Hnext. lia.
  - intros t Ht. rewrite Ht in Hexp. simpl in Hexp. lia.
  - intros r1 Hr1 Hp. split.
    + intros Hst. apply not_true_iff_false in Hactive. apply Hactive, existsb_exists. exists r1.
      split; [|by apply bool_decide_eq_true]. apply list_elem_of_In, list_elem_of_filter. done.
    + intros Hrun1. eapply min_sequence_le; [exact Hmin|]. by rewrite !list_elem_of_filter.
Qed.

(** The engine serves each printer serially and in order.  [runnable_heads] returns
    at most one job per printer; each is stored as returned, is due and unexpired, no job
    of its printer is between preparation and the end of printing, and no runnable job of
    its printer has an earlier position. *)
Theorem heads_are_serial now s :
  store_wf s →
  NoDup (printer_id <$> runnable_heads now s) ∧
  ∀ j, j ∈ runnable_heads now s →
    ∃ r, s.(jobs) !! j.(job_id) = Some r ∧ r.(row_job) = j ∧ runnable r = true ∧
      (∀ t, r.(next_attempt_unix_ms) = Some t → t ≤ now) ∧
      (∀ t, j.(expires_unix_ms) = Some t → now < t) ∧
      ∀ k r1, s.(jobs) !! k = Some r1 → r1.(row_job).(printer_id) = j.(printer_id) →
        (row_state r1 ∉ active_states) ∧
        (runnable r1 = true → j.(printer_sequence) ≤ r1.(row_job).(printer_sequence)).
Proof.
  intros Hwf. split.
  - pose proof (runnable_heads_ids now s Hwf) as Hnd. revert Hnd.
    assert (∀ j, j ∈ runnable_heads now s → ∃ r, s.(jobs) !! j.(job_id) = Some r ∧
              r.(row_job) = j ∧ is_head now s r = true) as Hall
      by (intros j; by apply elem_of_runnable_heads).
    induction (runnable_heads now s) as [|j l IH]; intros Hnd; simpl in *; [constructor|].
    apply NoDup_cons in Hnd as [Hj Hnd].
    apply NoDup_cons. split; [|apply IH; [|done]; intros j' Hj'; apply Hall; set_solver].
    intros (j' & Hp & Hj')%list_elem_of_fmap. apply Hj.
    destruct (Hall j) as (r & Hr & <- & Hhead); [set_solver|].
    destruct (Hall j') as (r' & Hr' & <- & Hhead'); [set_solver|].
    assert (r.(row_job).(job_id) = r'.(row_job).(job_id)) as ->; [|by apply list_elem_of_fmap_2].
    pose proof (is_head_inv _ _ _ Hhead) as (Hrun & _ & _ & Hmin).
    pose proof (is_head_inv _ _ _ Hhead') as (Hrun' & _ & _ & Hmin').
    apply (wf_unique _ Hwf _ _ _ _ Hr Hr' Hp).
    destruct (Hmin r') as [_ Hle]; [by apply elem_of_job_rows|done|].
    destruct (Hmin' r) as [_ Hle']; [by apply elem_of_job_rows|done|].
    specialize (Hle Hrun'). specialize (Hle' Hrun). lia.
  - intros j (r & Hr & <- & Hhead)%elem_of_runnable_heads; [|done].
    pose proof (is_head_inv _ _ _ Hhead) as (Hrun & Hnext & Hexp & Hmin).
    exists r. split_and!; try done. intros k r1 Hr1. apply Hmin.
    apply elem_of_job_rows; [done|]. by rewrite (wf_key _ Hwf _ _ Hr1).
Qed.
End queue.

(** * Acceptance *)

Section acceptance.
Context `{StoreExternal}.
Implicit Types (s : AgentStore).

Lemma eqb_refl_true b : eqb b b = true.
Proof. by destruct b. Qed.

Lemma new_row_matches job facts seq st conf :
  accepted_job_matches (new_row job facts seq st conf).(row_job) job = true ∧
  job_persistence_facts_match (new_row job facts seq st conf).(row_job) facts = true.
Proof.
  unfold accepted_job_matches, job_persistence_facts_match,
    job_persistence_facts_match_without_route_owner. simpl.
  by rewrite !bool_decide_true, eqb_refl_true by done.
Qed.

(** Accepting a job twice is the same as accepting it once.  When an acceptance
    succeeds, the returned job is what the queue now stores, and repeating it with the
    same job and facts (after a lost reply, say) returns that job again and changes
    nothing. *)
Theorem acceptance_is_idempotent id id1 job facts s s1 j :
  accept_job_with_facts id job facts s = Ok (s1, j) →
  query_job job.(aj_job_id) s1 = Some j ∧
  accept_job_with_facts id1 job facts s1 = Ok (s1, j).
Proof.
  unfold accept_job_with_facts. intros (u1 & Hv1 & (u2 & Hv2 & Hop)%bind_Ok)%bind_Ok.
  rewrite Hv1, Hv2. simpl.
  destruct (query_job _ s) as [ex|] eqn:Hq.
  - destruct (_ && _) eqn:Hmatch; [|done]. injection Hop as <- <-. rewrite Hq. by rewrite Hmatch.
  - apply bind_Ok in Hop as (u3 & _ & (s2 & Hin & (s3 & Htx & (j3 & Hj3 & [= <- <-])%bind_Ok)%bind_Ok)%bind_Ok).
    apply ok_or_Ok in Hj3. split; [done|]. rewrite Hj3.
    apply query_job_Some in Hj3 as (r & Hr & <-).
    rewrite (append_event_tx_jobs _ _ _ _ _ _ _ _ _ _ Htx) in Hr.
    apply insert_job_Ok in Hin as (c & ->). simpl in Hr. rewrite lookup_insert_eq in Hr.
    injection Hr as <-. destruct (new_row_matches job facts
      (default 1 (printer_sequences s !! aj_printer_id job)) "queued_local" false) as [-> ->]. done.
Qed.

(** The constraints of [jobs] that the caller controls. *)
Definition storable_job (job : AcceptedJob) (facts : JobPersistenceFacts) : bool :=
  bool_decide (job.(aj_content_kind) ∈ ["pdf"%string; "raw"%string]) &&
  sqlite_json_valid job.(aj_options_json) &&
  from_option sqlite_json_valid true facts.(fx_loaded_media_snapshot_json) &&
  from_option sqlite_json_valid true facts.(fx_profile_snapshot_json) &&
  storable facts.(fx_profile_revision).

(** The next number of the job's printer. *)
Definition next_position (job : AcceptedJob) s : Z :=
  default 1 (s.(printer_sequences) !! job.(aj_printer_id)).

Lemma next_position_last job s k r :
  store_wf s → s.(jobs) !! k = Some r → r.(row_job).(printer_id) = job.(aj_printer_id) →
  r.(row_job).(printer_sequence) < next_position job s.
Proof.
  intros Hwf Hr Hp. destruct (wf_printer_sequence _ Hwf _ _ Hr) as (next & Hnext & Hlt).
  unfold next_position. rewrite <- Hp, Hnext. simpl. lia.
Qed.

Lemma insert_job_succeeds job facts st conf s :
  store_wf s → s.(jobs) !! job.(aj_job_id) = None → storable_job job facts = true →
  (∀ c, s.(content_files) !! job.(aj_content_sha256) = Some c → c.(cf_reclaiming) = false) →
  is_ok (insert_job job facts st conf s) = true.
Proof.
  intros Hwf Hnone Hjob Hcontent. unfold insert_job. destruct (decide _) as [Hrec|_].
  { rewrite (wf_receipts _ Hwf) in Hrec. apply elem_of_dom in Hrec as [? ?]. congruence. }
  assert (is_ok (reference_content job s) = true) as Hc.
  { unfold reference_content. destruct (s.(content_files) !! _) as [c|] eqn:Hc; [by rewrite (Hcontent c)|done]. }
  destruct (reference_content job s) as [c|]; [|done]. simpl.
  change (default 1 _) with (next_position job s).
  set (row := new_row _ _ _ _ _). set (s' := set_intake _ _ _ _).
  assert (row_constraints row s' = true) as ->; [|done].
  unfold storable_job in Hjob. rewrite !andb_true_iff in Hjob.
  destruct Hjob as [[[[Hkind Hopt] Hmedia] Hsnap] Hrev].
  unfold row_constraints. simpl.
  rewrite Hkind, Hopt, Hmedia, Hsnap, Hrev, bool_decide_true by done. simpl.
  apply forallb_forall. intros [k r] Hr%list_elem_of_In%elem_of_map_to_list. simpl.
  destruct (bool_decide (_ = aj_printer_id job)) eqn:Hp; [|done]. apply bool_decide_eq_true in Hp.
  pose proof (next_position_last _ _ _ _ Hwf Hr Hp). apply negb_true_iff. simpl. lia.
Qed.

Lemma append_event_tx_succeeds id k st re me de t s :
  store_wf s → is_Some (s.(jobs) !! k) → id ∉ (ev_event_id <$> s.(job_events)) →
  sqlite_json_valid de = true →
  is_ok (append_event_tx id k (next_sequence k s) st re me de t s) = true.
Proof.
  intros Hwf [r Hr] Hid Hde. unfold append_event_tx.
  destruct (decide _) as [Hbad|_]; [congruence|]. destruct (decide _) as [Hbad|_]; [|by rewrite Hde].
  exfalso. apply Exists_exists in Hbad as (ev & Hev & [Heq|[Heq Hseq]]).
  - apply Hid. rewrite <- Heq. by apply list_elem_of_fmap_2.
  - rewrite (next_sequence_wf _ _ Hwf) in Hseq.
    assert (ev_job_sequence ev ∈ job_sequences k s.(job_events)) as Hin.
    { apply list_elem_of_fmap_2, list_elem_of_filter. done. }
    rewrite (wf_contiguous _ Hwf), elem_of_seqZ in Hin. lia.
Qed.

(** A well-formed new job is always accepted.  In a store that satisfies the
    invariant, a job with a fresh identifier, valid facts and a fresh event identifier
    enters the queue, unless its content is being reclaimed: the printer's next sequence
    number never collides, and the job is last in its printer's queue. *)
Theorem fresh_job_is_accepted id job facts s :
  store_wf s → query_job job.(aj_job_id) s = None →
  validate_job_persistence_facts facts = Ok () → validate_job_native_binding job facts = Ok () →
  validate_profile_fact_tx facts s = Ok () → storable_job job facts = true →
  sqlite_json_valid "{}" = true →
  id ∉ (ev_event_id <$> s.(job_events)) →
  (∀ c, s.(content_files) !! job.(aj_content_sha256) = Some c → c.(cf_reclaiming) = false) →
  ∃ s1 j, accept_job_with_facts id job facts s = Ok (s1, j) ∧
    j.(state) = "queued_local"%string ∧
    ∀ k r, s.(jobs) !! k = Some r → r.(row_job).(printer_id) = j.(printer_id) →
           r.(row_job).(printer_sequence) < j.(printer_sequence).
Proof.
  intros Hwf Hq Hv1 Hv2 Hv3 Hjob Hjson Hid Hcontent. apply query_job_None in Hq as Hnone.
  unfold accept_job_with_facts. rewrite Hv1, Hv2. simpl. rewrite Hq, Hv3. simpl.
  pose proof (insert_job_succeeds _ _ "queued_local" false _ Hwf Hnone Hjob Hcontent) as Hok.
  destruct (insert_job _ _ _ _ s) as [s2|] eqn:Hin; [|done]. simpl.
  pose proof (insert_job_wf _ _ _ _ _ _ Hwf Hnone Hin) as Hwf2.
  pose proof (insert_job_events _ _ _ _ _ _ Hin) as Hevents.
  apply insert_job_Ok in Hin as (c & Hs2).
  assert (is_Some (s2.(jobs) !! job.(aj_job_id))) as Hsome by (by rewrite Hs2; simpl; rewrite lookup_insert_eq).
  assert (next_sequence job.(aj_job_id) s2 = 1) as Hnext.
  { unfold next_sequence. rewrite Hevents. by apply fresh_next_sequence. }
  rewrite <- Hevents in Hid.
  pose proof (append_event_tx_succeeds id job.(aj_job_id) "queued_local" None
    (Some "Job is durable in the local queue"%string) "{}" job.(aj_accepted_unix_ms) s2
    Hwf2 Hsome Hid Hjson) as Htx. rewrite Hnext in Htx.
  destruct (append_event_tx _ _ _ _ _ _ _ _ s2) as [s3|] eqn:Hap; [|done]. simpl.
  unfold query_job. rewrite (append_event_tx_jobs _ _ _ _ _ _ _ _ _ _ Hap), Hs2. simpl.
  rewrite lookup_insert_eq. simpl. eexists _, _. split_and!; [done|done|].
  intros k r Hr Hp. by apply (next_position_last job s k r).
Qed.
End acceptance.

(** * Retries and uncertainty *)

Section retries.
Context `{StoreExternal}.
Implicit Types (s : AgentStore).

(** A retryable failure pauses the job durably.  After the failure is recorded the
    job is in [failed_retryable] with its attempt counted, and it is not offered for
    execution before the recorded deadline, also after a restart. *)
Theorem retry_waits_for_deadline id k reason message details t next s s1 now :
  store_wf s → record_local_retryable_failure id k reason message details t next s = Ok s1 →
  now < next →
  job_state s1 k = Some "failed_retryable"%string ∧
  (attempt_count <$> s1.(jobs) !! k) = (λ r, (r.(attempt_count) + 1)%N) <$> s.(jobs) !! k ∧
  k ∉ (job_id <$> runnable_heads now s1).
Proof.
  intros Hwf Hop Hlt.
  pose proof (evolves_wf _ _ _ Hwf (record_local_retryable_failure_evolves _ _ _ _ _ _ _ _ _ Hop)) as Hwf1.
  revert Hop. unfold record_local_retryable_failure. destruct (json_value details); [|done]. simpl.
  intros (s2 & r & _ & Hr & _ & Hs1)%append_and_update_Ok.
  assert (s1.(jobs) !! k = Some (set_retry "failed_retryable" next t r)) as Hr1.
  { rewrite Hs1. simpl. by rewrite lookup_insert_eq. }
  split_and!; [by unfold job_state; rewrite Hr1|by rewrite Hr1, Hr|].
  intros (j & -> & Hj)%list_elem_of_fmap.
  destruct (elem_of_runnable_heads _ _ _ Hwf1 Hj) as (r' & Hr' & _ & Hhead).
  rewrite Hr1 in Hr'. injection Hr' as <-.
  apply is_head_inv in Hhead as (_ & Hnext & _). specialize (Hnext next eq_refl). lia.
Qed.

(** The uncertainty of a handoff is resolved once.  Releasing an uncertain local
    handoff and confirming it exclude each other: once one of the two is recorded for an
    ambiguity, repeating it changes nothing and the other is refused. *)
Theorem resolutions_are_exclusive id k a t next s s1 :
  (release_uncertain_local_handoff_for_retry id k a t next s = Ok s1 →
   (∀ id1 t1 next1, release_uncertain_local_handoff_for_retry id1 k a t1 next1 s1 = Ok s1) ∧
   (∀ id1 t1, confirm_uncertain_local_handoff_accepted id1 k a t1 s1 = Err InvalidLocalEvent)) ∧
  (confirm_uncertain_local_handoff_accepted id k a t s = Ok s1 →
   (∀ id1 t1, confirm_uncertain_local_handoff_accepted id1 k a t1 s1 = Ok s1) ∧
   (∀ id1 t1 next1,
      release_uncertain_local_handoff_for_retry id1 k a t1 next1 s1 = Err InvalidLocalEvent)).
Proof.
  assert (∀ s s1 resolution, insert_resolution a k resolution s = Ok s1 →
            local_handoff_resolution k a s1 = Some resolution) as Hins.
  { intros s' s1' resolution. unfold insert_resolution. case_decide; [|done]. intros [= <-].
    unfold local_handoff_resolution. simpl. rewrite lookup_insert_eq. simpl. by rewrite decide_True. }
  split; intros Hop.
  - assert (local_handoff_resolution k a s1 = Some LOCAL_HANDOFF_RELEASE_FOR_RETRY) as Hres.
    { revert Hop. unfold release_uncertain_local_handoff_for_retry.
      destruct (local_handoff_resolution k a s) as [ex|] eqn:Hex.
      - destruct (decide _) as [->|]; [|done]. by intros [= <-].
      - intros (s2 & _ & Hi)%bind_Ok. eauto. }
    unfold release_uncertain_local_handoff_for_retry, confirm_uncertain_local_handoff_accepted.
    rewrite Hres. by split.
  - assert (local_handoff_resolution k a s1 = Some LOCAL_HANDOFF_CONFIRM_ACCEPTED) as Hres.
    { revert Hop. unfold confirm_uncertain_local_handoff_accepted.
      destruct (local_handoff_resolution k a s) as [ex|] eqn:Hex.
      - destruct (decide _) as [->|]; [|done]. by intros [= <-].
      - intros (s2 & _ & Hi)%bind_Ok. eauto. }
    unfold release_uncertain_local_handoff_for_retry, confirm_uncertain_local_handoff_accepted.
    rewrite Hres. by split.
Qed.

(** Content that a job refers to cannot be retired.  [jobs.content_sha256] references
    [content_files], rows of [jobs] are never deleted, and [mark_terminal_content_reclaimed]
    deletes the content row: for claimed content that any job ever referred to it either
    gives the claim back because a job still needs the content, or fails with the foreign
    key, after the caller has already removed the file. *)
Theorem referenced_content_is_never_retired sha path s c k r :
  s.(content_files) !! sha = Some c → c.(cf_path) = path → c.(cf_reclaiming) = true →
  s.(jobs) !! k = Some r → r.(row_job).(content_sha256) = sha →
  mark_terminal_content_reclaimed sha path s = Err Sql ∨
  ∃ s1, mark_terminal_content_reclaimed sha path s = Ok (s1, false).
Proof.
  intros Hc Hpath Hrec Hr Hsha. unfold mark_terminal_content_reclaimed.
  destruct (retained sha path s); [by right; eauto|]. left.
  set (s1 := set_jobs _ s). unfold delete_content.
  change (s1.(content_files)) with (s.(content_files)). rewrite Hc.
  rewrite decide_True by done.
  assert (existsb (λ r, bool_decide (r.(row_job).(content_sha256) = sha)) (job_rows s1) = true) as ->; [|done].
  apply existsb_exists. subst s1. unfold job_rows. simpl. eexists. split.
  - apply list_elem_of_In, elem_of_btree_values. exists k. rewrite lookup_fmap, Hr. done.
  - apply bool_decide_eq_true. by destruct (_ && _).
Qed.
End retries.

Section uncertain.
Context `{StoreExternal} `{EngineExternal} {X : Type} `{Executor X}.

(** A blocked job can never be reported as uncertain.  [mark_uncertain] is how
    reconciliation gives up on a job whose outcome it cannot prove, and a blocked job is
    reconciled like the others, but the state machine has no edge from [blocked] to
    [delivery_uncertain]: the call fails with [InvalidTransition], changes nothing, keeps
    the schedule, and ends the engine's run with that error. *)
Theorem blocked_job_cannot_become_uncertain (job : LocalJob) message details now (e : Engine X) :
  job.(state) = "blocked"%string →
  mark_uncertain job message details now e = (e, Err (InvalidTransition Blocked DeliveryUncertain)).
Proof. intros Hst. unfold mark_uncertain, transition_if_needed. by rewrite Hst. Qed.
End uncertain.

(** The engine's state names are a faithful encoding of the domain's states: every
    name parses back, and nothing but the twenty names parses. *)
Theorem state_names_round_trip :
  (∀ s, parse_state (state_name s) = Ok s) ∧
  (∀ name s, parse_state name = Ok s → name = state_name s) ∧
  (∀ name, (∀ s, name ≠ state_name s) → parse_state name = Err (InvalidState name)).
Proof.
  split_and!; [apply parse_state_name|apply parse_state_Ok|].
  intros name Hne. unfold parse_state.
  repeat match goal with
  | |- (if String.eqb name ?n then Ok ?s else _) = _ =>
    destruct (String.eqb_spec name n) as [Heq|_]; [by destruct (Hne s)|]
  end. done.
Qed.

(** * Cloud acceptance *)

Lemma lor_lxor_zero d a b : N.lor d (N.lxor a b) = 0%N ↔ d = 0%N ∧ a = b.
Proof. by rewrite N.lor_eq_0_iff, N.lxor_eq_0_iff. Qed.

Lemma bytes_difference_zero l r d :
  String.length l = String.length r → bytes_difference l r d = 0%N ↔ d = 0%N ∧ l = r.
Proof.
  revert r d. induction l as [|a l IH]; intros [|b r] d; simpl; intros Hlen; try done.
  { naive_solver. }
  rewrite IH by congruence. rewrite lor_lxor_zero. split.
  - intros [[-> Hab] ->]. split; [done|]. f_equal.
    by rewrite <- (Ascii.ascii_N_embedding a), Hab, Ascii.ascii_N_embedding.
  - by intros [-> [= -> ->]].
Qed.

Lemma constant_time_str_eq_spec l r : constant_time_str_eq l r = true ↔ l = r.
Proof.
  unfold constant_time_str_eq. rewrite andb_true_iff, Nat.eqb_eq, N.eqb_eq. split.
  - intros [Hlen Hdiff]. by apply (bytes_difference_zero _ _ _ Hlen) in Hdiff as [_ ?].
  - intros ->. split; [done|]. by apply bytes_difference_zero.
Qed.

(** The constant-time comparison of lease and fencing tokens, which folds the
    differences of all bytes, accepts exactly equal strings. *)
Theorem constant_time_comparison_is_equality l r :
  constant_time_str_eq l r = true ↔ l = r.
Proof. apply constant_time_str_eq_spec. Qed.

Section cloud.
Context `{StoreExternal}.
Implicit Types (s : AgentStore).

(** A cloud job becomes runnable only after the authority's acceptance is durable.
    Activation either finds the job already queued and changes nothing, or finds a
    prepared job whose intent is recorded as remotely confirmed; then the job is queued,
    the lease's credentials are deleted and one event is appended. *)
Theorem activation_requires_confirmation id k t s s1 j :
  activate_cloud_job id k t s = Ok (s1, j) →
  (job_state s k = Some "queued_local"%string ∧ s1 = s) ∨
  (job_state s k = Some "cloud_accept_pending"%string ∧
   (∃ i, s.(cloud_accept_intents) !! k = Some i ∧ i.(in_remote_accept_confirmed) = true) ∧
   job_state s1 k = Some "queued_local"%string ∧ s1.(cloud_accept_intents) !! k = None ∧
   length s1.(job_events) = S (length s.(job_events))).
Proof.
  unfold activate_cloud_job. intros (cur & Hq%ok_or_Ok & Hop)%bind_Ok.
  apply query_job_state in Hq as Hst.
  destruct (String.eqb_spec cur.(state) "queued_local") as [Hqueued|_].
  { injection Hop as <- _. left. split; [by rewrite Hst, Hqueued|done]. }
  destruct (String.eqb_spec cur.(state) "cloud_accept_pending") as [Hpend|]; [|done]. simpl in Hop.
  destruct (s.(cloud_accept_intents) !! k) as [i|] eqn:Hi; simpl in Hop; [|done].
  destruct (in_remote_accept_confirmed i) eqn:Hconf; [|done]. simpl in Hop.
  apply bind_Ok in Hop as (s2 & Hup%ok_or_Ok & (s3 & Htx & (j3 & _ & [= <- _])%bind_Ok)%bind_Ok).
  apply update_job_Some in Hup as (r & _ & _ & ->).
  apply append_event_tx_Ok in Htx as (_ & _ & _ & ->). right. simpl. split_and!.
  - by rewrite Hst, Hpend.
  - by exists i.
  - unfold job_state. simpl. by rewrite lookup_insert_eq.
  - by rewrite lookup_delete_eq.
  - rewrite length_app. simpl. lia.
Qed.

Lemma evidence_matches_iff i j lease token route :
  cloud_accept_evidence_matches i j lease token route = true →
  i.(in_lease_id) = lease ∧ i.(in_lease_token) = token ∧
  i.(in_route_reservation_id) = Some route.(proof_reservation_id) ∧
  i.(in_route_generation) = Some (Z.of_N route.(proof_generation)) ∧
  i.(in_route_fencing_token) = Some route.(proof_fencing_token).
Proof.
  unfold cloud_accept_evidence_matches. rewrite !andb_true_iff.
  intros [[[[[[Hl%constant_time_str_eq_spec Ht%constant_time_str_eq_spec] _] _] Hr] Hg] Hf].
  apply bool_decide_eq_true in Hg.
  destruct (in_route_reservation_id i) as [v|]; [|done].
  destruct (in_route_fencing_token i) as [w|]; [|done]. simpl in *.
  apply constant_time_str_eq_spec in Hr as ->.
  by apply constant_time_str_eq_spec in Hf as ->.
Qed.

(** A confirmed intent survives an upsert only with the same evidence. *)
Lemma upsert_confirmed j lease token le route t s s1 i :
  upsert_cloud_accept_intent j lease token le route t s = Ok s1 →
  s.(cloud_accept_intents) !! j.(job_id) = Some i → i.(in_remote_accept_confirmed) = true →
  cloud_accept_evidence_matches i j lease token route = true ∧
  ∃ i1, s1.(cloud_accept_intents) !! j.(job_id) = Some i1 ∧ i1.(in_remote_accept_confirmed) = true.
Proof.
  unfold upsert_cloud_accept_intent, query_cloud_accept_intent, row_to_cloud_accept_intent.
  intros (ex & Hex & Hop)%bind_Ok Hi Hconf. rewrite Hi in Hex.
  apply bind_Ok in Hex as (i' & Hi' & [= <-]). destruct (_ || _); [done|]. injection Hi' as <-.
  simpl in Hop. rewrite Hconf in Hop. simpl in Hop.
  destruct (cloud_accept_evidence_matches i j lease token route); [|done]. simpl in Hop.
  destruct (negb _); [done|]. destruct (_ <=? 0); [done|].
  injection Hop as <-. split; [done|]. simpl. rewrite lookup_insert_eq. eauto.
Qed.

(** Evidence that the authority has confirmed cannot be replaced.  A repeated offer
    for a prepared job whose acceptance is already confirmed changes something only if it
    carries the same lease and the same route proof, and the confirmation stays. *)
Theorem confirmed_evidence_is_pinned job lease token le route facts s s1 j i r :
  prepare_cloud_job_with_facts job lease token le route facts s = Ok (s1, j) →
  s.(jobs) !! job.(aj_job_id) = Some r → r.(row_job).(job_id) = job.(aj_job_id) →
  row_state r ≠ "failed_retryable"%string →
  s.(cloud_accept_intents) !! job.(aj_job_id) = Some i → i.(in_remote_accept_confirmed) = true →
  s1 = s ∨
  (i.(in_lease_id) = lease ∧ i.(in_lease_token) = token ∧
   i.(in_route_reservation_id) = Some route.(proof_reservation_id) ∧
   i.(in_route_generation) = Some (Z.of_N route.(proof_generation)) ∧
   i.(in_route_fencing_token) = Some route.(proof_fencing_token) ∧
   ∃ i1, s1.(cloud_accept_intents) !! job.(aj_job_id) = Some i1 ∧
         i1.(in_remote_accept_confirmed) = true).
Proof.
  unfold prepare_cloud_job_with_facts. intros (_ & _ & (_ & _ & Hop)%bind_Ok)%bind_Ok.
  intros Hr Hid Hst Hi Hconf. destruct (_ || _); [done|].
  unfold query_job in Hop. rewrite Hr in Hop. simpl in Hop. unfold prepare_existing in Hop.
  destruct (same_cloud_job _ _ _); [|done]. simpl in Hop.
  destruct (bool_decide _); simpl in Hop; [|case_match; [left; by injection Hop as <- _|done]].
  right. apply bind_Ok in Hop as (s2 & Hup%ok_or_Ok & (s3 & Hin & (s4 & Hpr & [= <- _])%bind_Ok)%bind_Ok).
  destruct (String.eqb_spec (state (row_job r)) "failed_retryable") as [|_]; [done|].
  apply update_job_Some in Hup as (r2 & _ & _ & ->).
  destruct (upsert_confirmed _ _ _ _ _ _ _ _ i Hin) as [Hev (i1 & Hi1 & Hconf1)];
    [by simpl; rewrite Hid|done|].
  apply evidence_matches_iff in Hev as (?&?&?&?&?). split_and!; try done. exists i1.
  revert Hpr. unfold upsert_cloud_route_proof. destruct (storable _); [|done]. intros [= <-].
  simpl in Hi1 |- *. rewrite Hid in Hi1. done.
Qed.

(** ** Quarantine *)

Lemma quarantine_intents k i reason t s :
  (quarantine k i reason t s).(cloud_accept_intents) = delete k s.(cloud_accept_intents).
Proof.
  unfold quarantine. destruct (update_job _ _ _ _) as [s1|] eqn:Hup; simpl; [|done].
  by apply update_job_Some in Hup as (r & _ & _ & ->).
Qed.

Lemma quarantine_batch_intents t rows s k i :
  (quarantine_batch t rows s).(cloud_accept_intents) !! k = Some i ↔
  s.(cloud_accept_intents) !! k = Some i ∧ k ∉ rows.*1.
Proof.
  unfold quarantine_batch. revert s. induction rows as [|[k' i'] rows IH]; intros s; simpl.
  { set_solver. }
  rewrite IH, quarantine_intents, lookup_delete_Some, not_elem_of_cons. naive_solver.
Qed.

Lemma elem_of_ordered_intents k i s :
  (k, i) ∈ ordered_intents s ↔ s.(cloud_accept_intents) !! k = Some i.
Proof. unfold ordered_intents. by rewrite elem_of_sort_by, elem_of_map_to_list. Qed.

(** Every round removes an intent. *)
Lemma quarantine_batch_size t k i rows s :
  s.(cloud_accept_intents) !! k = Some i →
  (size (quarantine_batch t ((k, i) :: rows) s).(cloud_accept_intents)
     < size s.(cloud_accept_intents))%nat.
Proof.
  intros Hi. apply Nat.le_lt_trans with (size (delete k s.(cloud_accept_intents))).
  - apply map_subseteq_size, map_subseteq_spec. intros k' i' Hk'.
    apply quarantine_batch_intents in Hk' as [Hk' Hne]. apply lookup_delete_Some. set_solver.
  - rewrite map_size_delete_Some by done. assert (size s.(cloud_accept_intents) ≠ 0%nat); [|lia].
    intros Hz%map_size_empty_inv. rewrite Hz, lookup_empty in Hi. done.
Qed.

Lemma quarantine_loop_ends n t s :
  (size s.(cloud_accept_intents) < n)%nat →
  ∃ s1, quarantine_loop n t s = Some s1 ∧
    ∀ k i, s1.(cloud_accept_intents) !! k = Some i ↔
           s.(cloud_accept_intents) !! k = Some i ∧ proofless i = false.
Proof.
  revert s. induction n as [|n IH]; intros s Hn; [lia|]. cbn [quarantine_loop].
  destruct (take 256 _) as [|[k0 i0] rows] eqn:Hrows.
  - exists s. split; [done|]. intros k i. split; [|naive_solver]. intros Hi. split; [done|].
    destruct (proofless i) eqn:Hp; [|done].
    assert ((k, i) ∈ filter (λ ki, proofless ki.2 = true) (ordered_intents s)) as Hin.
    { by rewrite list_elem_of_filter, elem_of_ordered_intents. }
    destruct (filter _ _); [by apply not_elem_of_nil in Hin|done].
  - assert (∀ ki, ki ∈ (k0, i0) :: rows →
              s.(cloud_accept_intents) !! ki.1 = Some ki.2 ∧ proofless ki.2 = true) as Hall.
    { intros [k i] Hki. rewrite <- Hrows in Hki. apply elem_of_take in Hki as (m & Hm & _).
      apply list_elem_of_lookup_2, list_elem_of_filter in Hm as [Hp Hm].
      by apply elem_of_ordered_intents in Hm. }
    destruct (Hall (k0, i0)) as [Hi0 _]; [set_solver|]. simpl in Hi0.
    destruct (IH (quarantine_batch t ((k0, i0) :: rows) s)) as (s1 & Hs1 & Hspec).
    { pose proof (quarantine_batch_size t k0 i0 rows s Hi0). lia. }
    exists s1. split; [done|]. intros k i. rewrite Hspec, quarantine_batch_intents. split.
    + naive_solver.
    + intros [Hi Hp]. split_and!; try done. intros ([k' i'] & -> & Hk')%list_elem_of_fmap.
      destruct (Hall _ Hk') as [Hi' Hp']. simpl in *. congruence.
Qed.

(** Startup quarantine terminates and is exact.  The loop that moves intents without
    a complete route proof to the cleanup table, 256 at a time, ends; afterwards exactly
    the intents with a complete proof remain, unchanged. *)
Theorem quarantine_is_exact t s :
  ∃ s1 cleanups, quarantine_invalid_cloud_accepts t s = Some (s1, cleanups) ∧
    ∀ k i, s1.(cloud_accept_intents) !! k = Some i ↔
           s.(cloud_accept_intents) !! k = Some i ∧ is_Some (route_proof i).
Proof.
  destruct (quarantine_loop_ends (S (size s.(cloud_accept_intents))) t s) as (s1 & Hloop & Hspec);
    [lia|].
  exists s1. eexists. split; [unfold quarantine_invalid_cloud_accepts; by rewrite Hloop|].
  intros k i. rewrite Hspec. apply and_iff_compat_l. unfold proofless, route_proof.
  destruct (in_route_reservation_id i) as [a|]; simpl; [|split; [done|by intros []]].
  destruct (in_route_generation i) as [g|]; simpl; [|rewrite orb_true_r; split; [done|by intros []]].
  destruct (in_route_fencing_token i) as [b|]; simpl; [|rewrite orb_true_r; split; [done|by intros []]].
  destruct (String.eqb a ""), (String.eqb b ""), (Z.leb_spec g 0), (Z.ltb_spec 0 g); simpl;
    try lia; split; try done; by intros [].
Qed.
End cloud.

(** * The outbox *)

Section outbox.
Implicit Types (s : AgentStore).

(** The cloud events that still have to be delivered. *)
Definition undelivered s : list OutboxRow :=
  filter (λ o, cloud_event s o = true ∧ o.(ob_acknowledged_unix_ms) = None) s.(event_outbox).

(** The rows an acknowledgement up to [q] leaves undelivered, clears, and ignores. *)
Section rows.
Variables (cl : OutboxRow → bool) (t q : Z).
Implicit Types (l : list OutboxRow).
Hypothesis cl_event : ∀ o o', o.(ob_event) = o'.(ob_event) → cl o = cl o'.
Let ack := acknowledge_row t (λ o, (o.(ob_sequence) <=? q) && cl o).

Lemma ack_event o : (ack o).(ob_event) = o.(ob_event) ∧ (ack o).(ob_sequence) = o.(ob_sequence).
Proof. unfold ack, acknowledge_row. by case_match. Qed.

Lemma ack_cases o :
  (cl o = true ∧ o.(ob_acknowledged_unix_ms) = None ∧ o.(ob_sequence) ≤ q ∧
   (ack o).(ob_acknowledged_unix_ms) = Some t) ∨
  (ack o = o ∧ ¬ (cl o = true ∧ o.(ob_acknowledged_unix_ms) = None ∧ o.(ob_sequence) ≤ q)).
Proof.
  unfold ack, acknowledge_row. destruct (_ && _ && _) eqn:Hg.
  - rewrite !andb_true_iff, bool_decide_eq_true in Hg. destruct Hg as [[Hle Hcl] Hack].
    left. split_and!; try done. lia.
  - right. split; [done|]. intros (Hcl & Hack & Hle).
    rewrite Hcl, bool_decide_true, andb_true_r in Hg by done. lia.
Qed.

Lemma ack_remaining l :
  filter (λ o, cl o = true ∧ o.(ob_acknowledged_unix_ms) = None) (ack <$> l) =
  filter (λ o, q < o.(ob_sequence))
    (filter (λ o, cl o = true ∧ o.(ob_acknowledged_unix_ms) = None) l).
Proof.
  induction l as [|o l IH]; [done|]. rewrite fmap_cons.
  destruct (ack_cases o) as [(Hcl & Hack & Hle & Hdone)|[-> Hno]].
  - rewrite filter_cons_False by naive_solver. rewrite (filter_cons_True _ o) by done.
    rewrite filter_cons_False by lia. done.
  - rewrite !filter_cons. case_decide as Hund; [|done].
    rewrite filter_cons_True by (apply Z.lt_nge; naive_solver). by rewrite IH.
Qed.

Lemma ack_ignored l :
  filter (λ o, cl o = false) (ack <$> l) = filter (λ o, cl o = false) l.
Proof.
  induction l as [|o l IH]; [done|]. rewrite fmap_cons, !filter_cons, IH.
  rewrite (cl_event (ack o) o) by apply ack_event. case_decide as Hcl; [|done]. f_equal.
  unfold ack, acknowledge_row. by rewrite Hcl, andb_false_r.
Qed.

Lemma ack_count l :
  length (filter (λ o, (o.(ob_sequence) <=? q) && cl o = true ∧
                       o.(ob_acknowledged_unix_ms) = None) l) =
  length (filter (λ o, ¬ q < o.(ob_sequence))
            (filter (λ o, cl o = true ∧ o.(ob_acknowledged_unix_ms) = None) l)).
Proof.
  induction l as [|o l IH]; [done|]. rewrite !filter_cons.
  destruct (decide (cl o = true ∧ _)) as [[Hcl Hack]|Hno].
  - rewrite filter_cons, Hcl. destruct (Z.leb_spec (ob_sequence o) q); simpl.
    + rewrite !decide_True by (done || lia). simpl. by rewrite IH.
    + rewrite !decide_False by (naive_solver || lia). done.
  - rewrite decide_False; [done|]. rewrite andb_true_iff. naive_solver.
Qed.
End rows.

(** An acknowledgement clears exactly the cloud events up to the acknowledged one.
    What remains undelivered is what was undelivered before and lies after that event, in
    the same order; the reported count is the number of events cleared; and events of
    local jobs are not touched. *)
Theorem acknowledgement_is_exact id t s s1 n :
  acknowledge_cloud_event id t s = Ok (s1, n) →
  ∃ o, o ∈ s.(event_outbox) ∧ o.(ob_event).(ev_event_id) = id ∧
    undelivered s1 = filter (λ o', o.(ob_sequence) < o'.(ob_sequence)) (undelivered s) ∧
    n = length (filter (λ o', ¬ o.(ob_sequence) < o'.(ob_sequence)) (undelivered s)) ∧
    filter (λ o', cloud_event s1 o' = false) s1.(event_outbox) =
    filter (λ o', cloud_event s o' = false) s.(event_outbox).
Proof.
  unfold acknowledge_cloud_event. destruct (find_first _ _) as [o|] eqn:Ho; [|done].
  apply find_first_Some in Ho as [Ho Hid]. intros [= <- <-].
  assert (∀ o o', o.(ob_event) = o'.(ob_event) → cloud_event s o = cloud_event s o') as Hev.
  { intros o1 o2 Heq. unfold cloud_event. by rewrite Heq. }
  exists o. split_and!; [done|done|..].
  - by apply (ack_remaining (cloud_event s)).
  - by apply (ack_count (cloud_event s)).
  - by apply (ack_ignored (cloud_event s)).
Qed.
End outbox.

(** * A concrete agent

    Every JSON text is accepted, event identifiers are counted in unary, and the
    executor is the repository's [FakeExecutor]. *)

Module Demo.

Fixpoint unary (n : nat) : string :=
  match n with O => "e" | S n => String (Ascii.ascii_of_N 101) (unary n) end.

#[export] Instance demo_store : StoreExternal := {|
  json_value _ := true;
  sqlite_json_valid _ := true;
  event_id_text := unary;
|}.

#[export] Instance demo_engine : EngineExternal := {|
  options_from_json _ := Ok default_options;
  options_error_text _ := "invalid"%string;
  invalid_options_json text := text;
  acceptance_json text := text;
  failure_json _ := "{}"%string;
  observation_json _ := "{}"%string;
  snapshot_from_json _ := None;
  overrides_from_json _ := None;
  driver_from_json _ := None;
  unix_ms n := 1000 + Z.of_nat n;
|}.

#[export] Instance demo_decimal : DecimalText := unary.

Definition demo_job (k : string) (cloud : bool) : AcceptedJob :=
  {| aj_job_id := k; aj_submission_id := "submission"; aj_printer_id := "printer";
     aj_printer_native_id := "queue"; aj_title := "label"; aj_content_sha256 := "digest";
     aj_content_path := "/content/digest"; aj_content_kind := "pdf"; aj_options_json := "{}";
     aj_expires_unix_ms := None; aj_accepted_unix_ms := 500; aj_cloud_managed := cloud |}.

Definition fake : FakeExecutor :=
  {| submitted := []; fake_result := None; observations := []; cancellations := 0 |}.
Definition rejecting : FakeExecutor :=
  {| submitted := [];
     fake_result := Some (Err {| code := "printer_offline"; message := "offline";
                                 retryable := true; handoff_may_have_succeeded := false;
                                 native_code := None |});
     observations := []; cancellations := 0 |}.

Definition start (x : FakeExecutor) : Engine FakeExecutor :=
  {| env := {| db := empty_store; faults := []; drawn := 0; others := [] |}; executor := x; ticks := 0;
     removed_files := []; trace := [] |}.

Lemma start_reachable x : agent_reachable (start x).
Proof. by exists (start x). Qed.

Lemma reachable_step e e1 : agent_reachable e → agent_step e e1 → agent_reachable e1.
Proof. intros (e0 & He0 & Hsteps) Hstep. exists e0. split; [done|]. by eapply rtc_r. Qed.

(** A job is accepted, and the engine runs with an executor that accepts or rejects. *)
Definition queued (x : FakeExecutor) : Engine FakeExecutor :=
  after_op (AcceptJob (demo_job "job" false) default_facts) (start x).
Definition printed : Engine FakeExecutor := (run_once (queued fake)).1.
Definition failed : Engine FakeExecutor := (run_once (queued rejecting)).1.

(** The process dies after the fourth call of the run: the job is left in [preparing]. *)
Definition crashed : Engine FakeExecutor :=
  (run_once (disturbed [false; false; false; false; true] fake (queued fake))).1.
Definition restarted : Engine FakeExecutor := (run_once crashed).1.

Lemma queued_reachable x : agent_reachable (queued x).
Proof. eapply reachable_step; [apply (start_reachable x)|apply step_op]. Qed.
Lemma printed_reachable : agent_reachable printed.
Proof. eapply reachable_step; [apply (queued_reachable fake)|apply step_run]. Qed.
Lemma failed_reachable : agent_reachable failed.
Proof. eapply reachable_step; [apply (queued_reachable rejecting)|apply step_run]. Qed.
Lemma crashed_reachable : agent_reachable crashed.
Proof.
  eapply reachable_step; [|apply step_run].
  eapply reachable_step; [apply (queued_reachable fake)|apply step_environment].
Qed.

Lemma no_blind_retries_witness :
  length printed.(trace) = 1%nat ∧ no_blind_retry printed.(trace).
Proof.
  split; [vm_compute; reflexivity|]. apply (no_blind_retries printed), printed_reachable.
Defined.

(** The other connection has read a queued job's state and cancels the job just before the
    executor is called: the row says [cancelled], and the intent is in the log. *)
Definition raced : Engine FakeExecutor :=
  (run_once (interfered [] (replicate 8 (commit_of (FinishReconciliation "other") [] 0 []) ++ [λ s, late_event "c2" "job" "cancelled" 900
                                                       (late_event "c1" "job" "cancel_requested" 900 s)])
     fake (queued fake))).1.
Lemma late_cancel_polite : polite (λ s, late_event "c2" "job" "cancelled" 900 (late_event "c1" "job" "cancel_requested" 900 s)).
Proof.
  intros s Hwf. pose proof (late_event_polite "c1" "job" "cancel_requested" 900 s Hwf) as H1.
  eapply growth_trans; [exact H1|]. apply late_event_polite, H1.
Qed.
Lemma raced_reachable : shared_reachable raced.
Proof.
  exists (start fake). split; [done|]. eapply rtc_l; [apply (shared_op _ (AcceptJob (demo_job "job" false) default_facts))|].
  eapply rtc_l; [|apply rtc_once, shared_run]. apply shared_environment.
  apply Forall_app. split; [by apply Forall_replicate, commit_of_polite|].
  by apply Forall_singleton, late_cancel_polite.
Qed.

Lemma intent_precedes_submission_witness :
  ∃ sub, raced.(trace) = [Submitted sub] ∧ sub.(durable_state) = Some "cancelled"%string ∧
    (1 ≤ sub.(durable_intents))%nat ∧
    (sub.(durable_intents) ≤ intents sub.(call).(sub_job_id) raced.(env).(db))%nat.
Proof.
  eexists. split; [vm_compute; reflexivity|]. split; [vm_compute; reflexivity|].
  apply (intent_precedes_submission raced [] _ []); [apply raced_reachable|vm_compute; reflexivity].
Defined.

Definition row_of (e : Engine FakeExecutor) (k : string) : JobRow :=
  default (new_row (demo_job k false) default_facts 0 "" false) (e.(env).(db).(jobs) !! k).

Lemma crashed_row :
  crashed.(env).(db).(jobs) !! "job"%string = Some (row_of crashed "job").
Proof. apply some_default. vm_compute. reflexivity. Qed.
Lemma crashed_state : row_state (row_of crashed "job") = "preparing"%string.
Proof. vm_compute. reflexivity. Qed.
Lemma crashed_restarted : rtc agent_step crashed restarted.
Proof. exact (rtc_once _ _ (step_run crashed)). Qed.

Lemma interrupted_job_strands_printer_witness :
  job_state crashed.(env).(db) "job" = Some "preparing"%string ∧
  (∃ r1, restarted.(env).(db).(jobs) !! "job"%string = Some r1 ∧
         row_state r1 = row_state (row_of crashed "job")) ∧
  ∃ new, restarted.(trace) = new ++ crashed.(trace) ∧
    ∀ sub, Submitted sub ∈ new →
      sub.(call).(sub_printer_id) ≠ (row_of crashed "job").(row_job).(printer_id).
Proof.
  split; [vm_compute; reflexivity|].
  apply (interrupted_job_strands_printer crashed restarted "job" (row_of crashed "job")
           crashed_reachable crashed_row); [|exact crashed_restarted].
  rewrite crashed_state. by left.
Defined.

Lemma accepted_jobs_are_durable_witness :
  ∃ r1, printed.(env).(db).(jobs) !! "job"%string = Some r1 ∧
        keeps (row_of (queued fake) "job").(row_job) r1.(row_job).
Proof.
  apply (accepted_jobs_are_durable (queued fake) printed "job" (row_of (queued fake) "job"));
    [apply queued_reachable|apply some_default; vm_compute; reflexivity|apply rtc_once, step_run].
Defined.

Lemma event_log_is_gap_free_witness :
  length printed.(env).(db).(job_events) = 5%nat ∧
  ob_event <$> printed.(env).(db).(event_outbox) = printed.(env).(db).(job_events).
Proof.
  split; [vm_compute; reflexivity|].
  apply (event_log_is_gap_free printed), printed_reachable.
Defined.

Lemma heads_are_serial_witness :
  length (runnable_heads 1000 (queued fake).(env).(db)) = 1%nat ∧
  NoDup (printer_id <$> runnable_heads 1000 (queued fake).(env).(db)).
Proof.
  split; [vm_compute; reflexivity|].
  apply (heads_are_serial 1000 (queued fake).(env).(db)), agent_reachable_wf, queued_reachable.
Defined.

(** ** Single transactions *)

Definition accepting : result StorageError (AgentStore * LocalJob) :=
  accept_job_with_facts "id" (demo_job "job" false) default_facts empty_store.
Definition stored : AgentStore := (get_ok accepting (empty_store, (row_of (start fake) "").(row_job))).1.
Definition stored_job : LocalJob :=
  (get_ok accepting (empty_store, (row_of (start fake) "").(row_job))).2.

Lemma get_ok_eq {E A} (m : result E A) (a : A) : is_ok m = true → m = Ok (get_ok m a).
Proof. by destruct m. Qed.

Lemma accepting_ok : accepting = Ok (stored, stored_job).
Proof.
  unfold stored, stored_job. rewrite <- surjective_pairing. apply get_ok_eq.
  vm_compute. reflexivity.
Qed.

Lemma acceptance_is_idempotent_witness :
  query_job "job" stored = Some stored_job ∧
  accept_job_with_facts "other" (demo_job "job" false) default_facts stored = Ok (stored, stored_job).
Proof.
  apply (acceptance_is_idempotent "id" "other" (demo_job "job" false) default_facts empty_store
           stored stored_job accepting_ok).
Defined.

(** The same identifier, now for a cloud job. *)
Lemma stored_wf : store_wf stored.
Proof.
  apply (evolves_wf None empty_store); [apply empty_store_wf|].
  eapply accept_job_with_facts_evolves; [apply empty_store_wf|exact accepting_ok].
Qed.

Lemma fresh_job_is_accepted_witness :
  ∃ s1 j, accept_job_with_facts "other" (demo_job "job2" false) default_facts stored = Ok (s1, j) ∧
    j.(state) = "queued_local"%string ∧
    ∀ k r, stored.(jobs) !! k = Some r → r.(row_job).(printer_id) = j.(printer_id) →
           r.(row_job).(printer_sequence) < j.(printer_sequence).
Proof.
  apply (fresh_job_is_accepted "other" (demo_job "job2" false) default_facts stored stored_wf);
    [vm_compute; reflexivity|reflexivity|reflexivity|reflexivity|vm_compute; reflexivity|reflexivity| |].
  - apply (bool_decide_unpack _). vm_compute. exact I.
  - intros c Hc. vm_compute in Hc. by injection Hc as <-.
Defined.

(** A store whose job is in [spool_intent], and the failure of that handoff. *)
Definition intent : AgentStore :=
  get_ok (append_event "id2" "job" 2 "spool_intent" None None "{}" 600 stored) stored.
Lemma intent_eq : append_event "id2" "job" 2 "spool_intent" None None "{}" 600 stored = Ok intent.
Proof. apply get_ok_eq. vm_compute. reflexivity. Qed.

Definition retrying : AgentStore :=
  get_ok (record_local_retryable_failure "id3" "job" "offline" "offline" "{}" 700 2700 intent) intent.
Lemma retrying_eq :
  record_local_retryable_failure "id3" "job" "offline" "offline" "{}" 700 2700 intent = Ok retrying.
Proof. apply get_ok_eq. vm_compute. reflexivity. Qed.

Lemma retry_waits_for_deadline_witness :
  job_state retrying "job" = Some "failed_retryable"%string ∧
  (attempt_count <$> retrying.(jobs) !! "job"%string) =
    (λ r, (r.(attempt_count) + 1)%N) <$> intent.(jobs) !! "job"%string ∧
  "job"%string ∉ (job_id <$> runnable_heads 2000 retrying).
Proof.
  apply (retry_waits_for_deadline "id3" "job" "offline" "offline" "{}" 700 2700 intent retrying 2000);
    [exact (append_event_wf _ _ _ _ _ _ _ _ _ _ stored_wf intent_eq)|exact retrying_eq|reflexivity].
Defined.

(** The content of a completed job is claimed for reclaiming. *)
Definition completed : AgentStore :=
  get_ok (append_event "id2" "job" 2 "completed_reported" None None "{}" 600 stored) stored.
Definition claimed : AgentStore := (claim_reclaimable_terminal_content 1 completed).1.

Lemma referenced_content_is_never_retired_witness :
  is_ok (mark_terminal_content_reclaimed "digest" "/content/digest" claimed) = false.
Proof.
  destruct (referenced_content_is_never_retired "digest" "/content/digest" claimed
    (default (set_reclaiming true {| cf_path := ""; cf_reference_count := 0;
       cf_verified_unix_ms := 0; cf_reclaiming := true |}) (claimed.(content_files) !! "digest"%string))
    "job" (default (row_of (start fake) "") (claimed.(jobs) !! "job"%string)))
    as [->|[s1 Hs1]].
  - apply some_default. vm_compute. reflexivity.
  - vm_compute. reflexivity.
  - vm_compute. reflexivity.
  - apply some_default. vm_compute. reflexivity.
  - vm_compute. reflexivity.
  - reflexivity.
  - exfalso. apply (f_equal is_ok) in Hs1. vm_compute in Hs1. discriminate.
Defined.

Lemma blocked_job_cannot_become_uncertain_witness :
  mark_uncertain (with_state "blocked" stored_job) "gone" "{}" 0 printed =
  (printed, Err (InvalidTransition Blocked DeliveryUncertain)).
Proof.
  apply (blocked_job_cannot_become_uncertain (with_state "blocked" stored_job) "gone" "{}" 0 printed).
  reflexivity.
Defined.

(** ** A cloud job, prepared and confirmed *)

Definition proof : CloudRouteProof :=
  {| proof_reservation_id := "reservation"; proof_generation := 1; proof_fencing_token := "fence" |}.
Definition prepare (s : AgentStore) : result StorageError (AgentStore * LocalJob) :=
  prepare_cloud_job (demo_job "cloud" true) "lease" "secret" 9000 proof s.
Definition prepared : AgentStore := (get_ok (prepare empty_store) (empty_store, stored_job)).1.
Definition confirmed : AgentStore := get_ok (confirm_cloud_accept "cloud" 600 prepared) prepared.
Definition activating : result StorageError (AgentStore * LocalJob) :=
  activate_cloud_job "id2" "cloud" 700 confirmed.
Definition activated : AgentStore * LocalJob := get_ok activating (empty_store, stored_job).

Lemma activation_requires_confirmation_witness :
  (job_state confirmed "cloud" = Some "queued_local"%string ∧ activated.1 = confirmed) ∨
  (job_state confirmed "cloud" = Some "cloud_accept_pending"%string ∧
   (∃ i, confirmed.(cloud_accept_intents) !! "cloud"%string = Some i ∧
         i.(in_remote_accept_confirmed) = true) ∧
   job_state activated.1 "cloud" = Some "queued_local"%string ∧
   activated.1.(cloud_accept_intents) !! "cloud"%string = None ∧
   length activated.1.(job_events) = S (length confirmed.(job_events))).
Proof.
  apply (activation_requires_confirmation "id2" "cloud" 700 confirmed activated.1 activated.2).
  rewrite <- surjective_pairing. apply (get_ok_eq activating). vm_compute. reflexivity.
Defined.

Definition again : AgentStore * LocalJob := get_ok (prepare confirmed) (empty_store, stored_job).
Definition confirmed_row : JobRow :=
  default (row_of (start fake) "") (confirmed.(jobs) !! "cloud"%string).
Definition confirmed_intent : CloudAcceptIntent :=
  default (confirm_intent 0 {| in_lease_id := ""; in_lease_token := ""; in_lease_expires_unix_ms := 0;
    in_content_sha256 := ""; in_local_sequence := 0; in_route_reservation_id := None;
    in_route_generation := None; in_route_fencing_token := None;
    in_remote_accept_confirmed := true; in_prepared_unix_ms := 0 |})
    (confirmed.(cloud_accept_intents) !! "cloud"%string).

Lemma confirmed_evidence_is_pinned_witness :
  again.1 = confirmed ∨
  (confirmed_intent.(in_lease_id) = "lease"%string ∧ confirmed_intent.(in_lease_token) = "secret"%string ∧
   confirmed_intent.(in_route_reservation_id) = Some "reservation"%string ∧
   confirmed_intent.(in_route_generation) = Some 1 ∧
   confirmed_intent.(in_route_fencing_token) = Some "fence"%string ∧
   ∃ i1, again.1.(cloud_accept_intents) !! "cloud"%string = Some i1 ∧
         i1.(in_remote_accept_confirmed) = true).
Proof.
  apply (confirmed_evidence_is_pinned (demo_job "cloud" true) "lease" "secret" 9000 proof default_facts
           confirmed again.1 again.2 confirmed_intent confirmed_row).
  - rewrite <- surjective_pairing. apply (get_ok_eq (prepare confirmed)). vm_compute. reflexivity.
  - apply (some_default (confirmed.(jobs) !! "cloud"%string)). vm_compute. reflexivity.
  - vm_compute. reflexivity.
  - vm_compute. discriminate.
  - apply (some_default (confirmed.(cloud_accept_intents) !! "cloud"%string)). vm_compute. reflexivity.
  - vm_compute. reflexivity.
Defined.

Definition acknowledging : result StorageError (AgentStore * nat) :=
  acknowledge_cloud_event "id2" 800 activated.1.
Definition acknowledged : AgentStore * nat := get_ok acknowledging (empty_store, O).

Lemma acknowledgement_is_exact_witness :
  length (undelivered activated.1) = 1%nat ∧ length (undelivered acknowledged.1) = 0%nat ∧
  ∃ o, o ∈ activated.1.(event_outbox) ∧ o.(ob_event).(ev_event_id) = "id2"%string ∧
    undelivered acknowledged.1 =
    filter (λ o', o.(ob_sequence) < o'.(ob_sequence)) (undelivered activated.1).
Proof.
  split; [vm_compute; reflexivity|]. split; [vm_compute; reflexivity|].
  destruct (acknowledgement_is_exact "id2" 800 activated.1 acknowledged.1 acknowledged.2)
    as (o & Ho & Hid & Hund & _).
  - rewrite <- surjective_pairing. apply (get_ok_eq acknowledging). vm_compute. reflexivity.
  - exact (ex_intro _ o (conj Ho (conj Hid Hund))).
Defined.
End Demo.
