(* ===== verification/Guardian.v ===== *)
(** The trust and the data of the update guardian: the configuration, admission, candidates,
    plans, phases and state of crates/update-guardian/src/lib.rs, the signed metadata of
    crates/update-metadata/src/lib.rs, and the verification of a local candidate. *)
From S2P Require Import Prelude Domain.

Definition STATE_SCHEMA_VERSION : N := 1.
Definition MAX_JOURNAL_BYTES : N := 8 * 1024 * 1024.
Definition MAX_JOURNAL_RECORD_BYTES : N := 64 * 1024.

(** The order of the semver crate. *)
Class VersionOrder := {
  Version : Type;
  Version_eq_dec :: EqDecision Version;
  version_lt : relation Version;
  version_lt_dec :: RelDecision version_lt;
}.

Class VersionLaws `{VersionOrder} : Prop := {
  version_strict :: StrictOrder version_lt;
}.

(** [a <= b] on a total order. *)
Definition version_le `{VersionOrder} (a b : Version) : bool := negb (bool_decide (version_lt b a)).

Definition bytes := list ascii.
Definition blen (b : bytes) : N := N.of_nat (length b).

(** * Errors *)

Inductive VerificationError `{VersionOrder} :=
| KeyIdMismatch | InvalidSignatureEncoding | InvalidSignature | Serialization
| MetadataExpired (at_time : Z) | InvalidRollout | MetadataRollback (trusted received : N)
| ReleaseRollback (installed received : Version) | InvalidTargetChecksum | InsecureTargetUrl.

(** [Interrupted] is not an error of the source: the process stopped. *)
Inductive GuardianError `{VersionOrder} :=
| InvalidConfig (reason : string) | Metadata (e : VerificationError) | WrongMetadataRole
| MetadataNotNewer (trusted received : N) | ReleaseNotNewer (installed received : Version)
| TargetNotFound | AmbiguousTarget
| ArtifactLengthOutOfBounds (length maximum : N) | ArtifactNotRegularFile
| ArtifactLengthMismatch (expected actual : N) | ArtifactTooLarge | ArtifactDigestMismatch
| PlatformSignature (reason : string) | InvalidCommandId | UpdateAlreadyInProgress
| MissingCommand | RuntimeError (reason : string) | HealthError (reason : string)
| UnsupportedStateSchema (v : N) | StateSequence (prior received : N) | StateSequenceOverflow
| PersistedMetadataRollback | JournalTooLarge | JournalRecordTooLarge | JournalChecksum
| TimeOverflow | Io | Json | Interrupted.

(** * Configuration and admission *)

Record GuardianConfig := {
  cfg_platform : string;
  cfg_architecture : string;
  max_artifact_bytes : N;
  health_timeout_ms : Z;
  max_health_attempts : N;
}.

Definition validate_config `{VersionOrder} (c : GuardianConfig) : result GuardianError unit :=
  if is_blank c.(cfg_platform) || is_blank c.(cfg_architecture)
  then Err (InvalidConfig "platform and architecture are required") else
  if (c.(max_artifact_bytes) =? 0)%N
  then Err (InvalidConfig "artifact limit must be greater than zero") else
  if (c.(health_timeout_ms) <=? 0)%Z || (c.(max_health_attempts) =? 0)%N
  then Err (InvalidConfig "health timeout and attempts must be greater than zero")
  else Ok ().

Record RuntimeActivity := {
  paused : bool;
  queued_jobs : N;
  active_jobs : N;
  handoff_in_progress : bool;
  profile_edit_active : bool;
}.

Inductive AdmissionBlock := NotPaused | QueuedJobs | ActiveJobs | SpoolerHandoff | ProfileEdit.
Inductive Admission := Ready | BlockedBy (reason : AdmissionBlock).
#[export] Instance AdmissionBlock_eq_dec : EqDecision AdmissionBlock.
Proof. solve_decision. Defined.

Definition admission (a : RuntimeActivity) : Admission :=
  if negb a.(paused) then BlockedBy NotPaused else
  if (0 <? a.(active_jobs))%N then BlockedBy ActiveJobs else
  if (0 <? a.(queued_jobs))%N then BlockedBy QueuedJobs else
  if a.(handoff_in_progress) then BlockedBy SpoolerHandoff else
  if a.(profile_edit_active) then BlockedBy ProfileEdit else Ready.

(** * The guardian's state *)

Section data.
Context `{VersionOrder}.

Record VerifiedCandidate := {
  release : Version;
  metadata_version : N;
  artifact_path : string;
  artifact_sha256 : string;
  artifact_length : N;
}.

Record UpdateCommand := {
  command_id : string;
  requested_at_unix_ms : Z;
  candidate : VerifiedCandidate;
}.

Record RuntimeSlot := { slot_version : Version; locator : string }.
Record RuntimePlan := { staged : RuntimeSlot; previous : RuntimeSlot }.

Inductive ActivationObservation := NotActivated | Activated | ActivationUnknown.
Inductive HealthObservation := Pending | Healthy | Unhealthy (reason : string).

Inductive GuardianPhase :=
| Idle
| AwaitingIdle (blocked_by : option AdmissionBlock)
| Staging
| Staged (plan : RuntimePlan)
| Activating (plan : RuntimePlan)
| HealthChecking (plan : RuntimePlan) (started_at deadline : Z) (attempts : N)
| RollingBack (plan : RuntimePlan) (cause : string)
| Completed (installed rollback : RuntimeSlot)
| RolledBack (restored : RuntimeSlot) (failed_release : Version) (cause : string)
| Failed (code detail : string).

Record GuardianState := {
  schema_version : N;
  sequence : N;
  installed_release : Version;
  trusted_metadata_version : N;
  command : option UpdateCommand;
  phase : GuardianPhase;
  updated_at_unix_ms : Z;
}.

#[global] Instance VerifiedCandidate_eq_dec : EqDecision VerifiedCandidate.
Proof. solve_decision. Defined.
#[global] Instance UpdateCommand_eq_dec : EqDecision UpdateCommand.
Proof. solve_decision. Defined.
#[global] Instance RuntimeSlot_eq_dec : EqDecision RuntimeSlot.
Proof. solve_decision. Defined.
#[global] Instance RuntimePlan_eq_dec : EqDecision RuntimePlan.
Proof. solve_decision. Defined.
#[global] Instance GuardianPhase_eq_dec : EqDecision GuardianPhase.
Proof. solve_decision. Defined.
#[global] Instance GuardianState_eq_dec : EqDecision GuardianState.
Proof. solve_decision. Defined.

Definition initial_state (installed : Version) (now : Z) : GuardianState :=
  {| schema_version := STATE_SCHEMA_VERSION; sequence := 0; installed_release := installed;
     trusted_metadata_version := 0; command := None; phase := Idle; updated_at_unix_ms := now |}.

Definition validate_command (c : UpdateCommand) : result GuardianError unit :=
  if is_blank c.(command_id) || (128 <? String.length c.(command_id))%nat
  then Err InvalidCommandId else Ok ().

(** The phases in which no update is under way. *)
Definition settled (p : GuardianPhase) : bool :=
  match p with
  | Idle | Completed _ _ | RolledBack _ _ _ | Failed _ _ => true
  | _ => false
  end.
End data.

(** * Signed metadata *)

Inductive MetadataRole := RoleRoot | RoleTargets | RoleSnapshot.
Inductive UpdateChannel := Canary | Stable | PinnedChannel.
#[export] Instance MetadataRole_eq_dec : EqDecision MetadataRole.
Proof. solve_decision. Defined.

Record UpdateTarget := {
  tg_platform : string;
  tg_architecture : string;
  tg_url : string;
  tg_sha256 : string;
  tg_length : N;
}.

Record ReleaseMetadata `{VersionOrder} := {
  md_role : MetadataRole;
  md_version : N;
  md_expires_at : Z;
  md_channel : UpdateChannel;
  md_release : Version;
  md_rollout_percent : N;
  md_targets : list UpdateTarget;
}.

Record SignedMetadata `{VersionOrder} := {
  md_key_id : string;
  md_signed : ReleaseMetadata;
  md_signature : string;
}.

Record FileKind := { is_symlink : bool; is_file : bool; file_len : N }.

(** The ed25519 and base64 crates, SHA-256 in lowercase hexadecimal, the JSON that is
    signed, and the artifacts on disk: the kind and length of a file, and what successive
    reads of it return ([None] is an I/O error). *)
Class UpdateExternal `{VersionOrder} := {
  VerifyingKey : Type;
  key_bytes : VerifyingKey → bytes;
  metadata_json : ReleaseMetadata → option string;
  decode_signature : string → option string;
  verify_signature : VerifyingKey → string → string → bool;
  symlink_metadata : string → option FileKind;
  file_reads : string → option (list (option bytes));
  sha256_bytes : bytes → string;
  verify_platform_signature : string → UpdateTarget → result string unit;
}.

Section metadata.
Context `{VO : VersionOrder} `{UpdateExternal}.

Definition is_lower_hex (a : ascii) : bool :=
  let n := N_of_ascii a in ((48 <=? n) && (n <=? 57) || (97 <=? n) && (n <=? 102))%N.
Definition is_sha256 (value : string) : bool :=
  (String.length value =? 64)%nat && bytes_all is_lower_hex value.

(** [hex::encode(&digest[..16])]: the first 32 digits of the digest in hexadecimal. *)
Definition key_id (key : VerifyingKey) : string :=
  String.substring 0 32 (sha256_bytes (key_bytes key)).

Fixpoint check_targets (l : list UpdateTarget) : result VerificationError unit :=
  match l with
  | [] => Ok ()
  | t :: l =>
    if negb (is_sha256 t.(tg_sha256)) then Err InvalidTargetChecksum else
    if negb (String.prefix "https://" t.(tg_url)) then Err InsecureTargetUrl else check_targets l
  end.

Definition verify (m : SignedMetadata) (key : VerifyingKey) (trusted_version : N)
    (installed : Version) (now : Z) : result VerificationError unit :=
  let d := m.(md_signed) in
  if negb (String.eqb m.(md_key_id) (key_id key)) then Err KeyIdMismatch else
  if (d.(md_expires_at) <=? now)%Z then Err (MetadataExpired d.(md_expires_at)) else
  if (100 <? d.(md_rollout_percent))%N then Err InvalidRollout else
  if (d.(md_version) <? trusted_version)%N
  then Err (MetadataRollback trusted_version d.(md_version)) else
  if bool_decide (version_lt d.(md_release) installed)
  then Err (ReleaseRollback installed d.(md_release)) else
  _ ← check_targets d.(md_targets);
  payload ← ok_or (metadata_json d) Serialization;
  signature ← ok_or (decode_signature m.(md_signature)) InvalidSignatureEncoding;
  if verify_signature key payload signature then Ok () else Err InvalidSignature.

(** [sha256_file]: the digest is updated with every read, and the total is bounded. *)
Fixpoint hash_reads (maximum total : N) (hashed : bytes) (reads : list (option bytes)) :
    result GuardianError bytes :=
  match reads with
  | [] => Ok hashed
  | None :: _ => Err Io
  | Some chunk :: rest =>
    if (length chunk =? 0)%nat then Ok hashed else
    total ← ok_or (u64_checked_add total (blen chunk)) ArtifactTooLarge;
    if (maximum <? total)%N then Err ArtifactTooLarge else
    hash_reads maximum total (hashed ++ chunk) rest
  end.

Definition sha256_file (path : string) (maximum : N) : result GuardianError string :=
  reads ← ok_or (file_reads path) Io;
  sha256_bytes <$> hash_reads maximum 0 [] reads.

(** The checks on a local file that [verify_candidate] and
    [revalidate_local_artifact] share. *)
Definition check_artifact (path : string) (expected maximum : N) : result GuardianError unit :=
  if (expected =? 0)%N || (maximum <? expected)%N
  then Err (ArtifactLengthOutOfBounds expected maximum) else
  k ← ok_or (symlink_metadata path) Io;
  if k.(is_symlink) || negb k.(is_file) then Err ArtifactNotRegularFile else
  if negb (k.(file_len) =? expected)%N
  then Err (ArtifactLengthMismatch expected k.(file_len)) else Ok ().

Definition revalidate_local_artifact (c : VerifiedCandidate) (maximum : N) :
    result GuardianError unit :=
  _ ← check_artifact c.(artifact_path) c.(artifact_length) maximum;
  digest ← sha256_file c.(artifact_path) maximum;
  if String.eqb digest c.(artifact_sha256) then Ok () else Err ArtifactDigestMismatch.

Record CandidateVerification := {
  cv_metadata : SignedMetadata;
  cv_trusted_key : VerifyingKey;
  cv_trusted_metadata_version : N;
  cv_installed_release : Version;
  cv_now : Z;
  cv_config : GuardianConfig;
  cv_artifact_path : string;
}.

Definition matching_targets (c : GuardianConfig) (l : list UpdateTarget) : list UpdateTarget :=
  filter (λ t, t.(tg_platform) = c.(cfg_platform) ∧ t.(tg_architecture) = c.(cfg_architecture)) l.

Definition verify_candidate (q : CandidateVerification) :
    result GuardianError VerifiedCandidate :=
  let d := q.(cv_metadata).(md_signed) in
  _ ← validate_config q.(cv_config);
  _ ← map_err Metadata (verify q.(cv_metadata) q.(cv_trusted_key)
                          q.(cv_trusted_metadata_version) q.(cv_installed_release) q.(cv_now));
  if negb (bool_decide (d.(md_role) = RoleTargets)) then Err WrongMetadataRole else
  if (d.(md_version) <=? q.(cv_trusted_metadata_version))%N
  then Err (MetadataNotNewer q.(cv_trusted_metadata_version) d.(md_version)) else
  if version_le d.(md_release) q.(cv_installed_release)
  then Err (ReleaseNotNewer q.(cv_installed_release) d.(md_release)) else
  match matching_targets q.(cv_config) d.(md_targets) with
  | [] => Err TargetNotFound
  | _ :: _ :: _ => Err AmbiguousTarget
  | [target] =>
    let maximum := q.(cv_config).(max_artifact_bytes) in
    _ ← check_artifact q.(cv_artifact_path) target.(tg_length) maximum;
    digest ← sha256_file q.(cv_artifact_path) maximum;
    if negb (String.eqb digest target.(tg_sha256)) then Err ArtifactDigestMismatch else
    _ ← map_err PlatformSignature (verify_platform_signature q.(cv_artifact_path) target);
    Ok {| release := d.(md_release); metadata_version := d.(md_version);
          artifact_path := q.(cv_artifact_path); artifact_sha256 := digest;
          artifact_length := target.(tg_length) |}
  end.
End metadata.
