(* ===== verification/GuardianMachine.v ===== *)
(** The update guardian of crates/update-guardian/src/lib.rs: the checksummed append-only
    journal, and the state machine that stages, activates, checks and rolls back a runtime.

    The guardian is a state monad [G] over the journal's file, the state in memory, the
    platform's runtime and its health, with [GuardianError] as its error.  Each append of
    the journal and each call of the platform first takes the next entry of the world's
    faults: the process may stop before a call, and an append may end after any number of
    bytes. *)
From S2P Require Import Prelude Domain Guardian.

(** * The journal *)

(** [serde_json] on states and on records, and the digest of a payload. *)
Class JournalFormat `{VersionOrder} := {
  state_to_json : GuardianState → option string;
  state_from_json : string → option GuardianState;
  record_to_json : string → string → option bytes;
  record_from_json : bytes → option (string * string);
  sha256_text : string → string;
}.

Definition newline : ascii := Ascii.ascii_of_N 10.

(** [read_until(b'\n')] until the end of the file: the complete lines without their
    newline, and the rest. *)
Fixpoint complete_lines (l : bytes) : list bytes * bytes :=
  match l with
  | [] => ([], [])
  | a :: l =>
    let '(lines, torn) := complete_lines l in
    if Ascii.eqb a newline then ([] :: lines, torn) else
    match lines with
    | [] => ([], a :: torn)
    | line :: lines => ((a :: line) :: lines, torn)
    end
  end.

Record JournalRead `{VersionOrder} := {
  latest : option GuardianState;
  complete_bytes : N;
  file_bytes : N;
}.

(** How an append ends: normally, with the process stopped before it, after the torn tail
    is removed, or after [n] bytes of the record are in the file. *)
Inductive Fault := Fine | Stopped | Truncated | Torn (n : nat).

Section journal.
Context `{JournalFormat}.

Definition validate_loaded_state (st : GuardianState) (prior : option GuardianState) :
    result GuardianError unit :=
  if negb (st.(schema_version) =? STATE_SCHEMA_VERSION)%N
  then Err (UnsupportedStateSchema st.(schema_version)) else
  match prior with
  | None => Ok ()
  | Some prior =>
    if (st.(sequence) <=? prior.(sequence))%N
    then Err (StateSequence prior.(sequence) st.(sequence)) else
    if (st.(trusted_metadata_version) <? prior.(trusted_metadata_version))%N
    then Err PersistedMetadataRollback else Ok ()
  end.

Definition read_record (acc : option GuardianState * N) (line : bytes) :
    result GuardianError (option GuardianState * N) :=
  complete ← ok_or (u64_checked_add acc.2 (blen line + 1)) JournalTooLarge;
  if (MAX_JOURNAL_RECORD_BYTES <? blen line)%N then Err JournalRecordTooLarge else
  record ← ok_or (record_from_json line) Json;
  if negb (String.eqb (sha256_text record.1) record.2) then Err JournalChecksum else
  st ← ok_or (state_from_json record.1) Json;
  _ ← validate_loaded_state st acc.1;
  Ok (Some st, complete).

Fixpoint read_records (acc : option GuardianState * N) (lines : list bytes) :
    result GuardianError (option GuardianState * N) :=
  match lines with
  | [] => Ok acc
  | line :: lines => acc ← read_record acc line; read_records acc lines
  end.

Definition read_journal (file : option bytes) : result GuardianError JournalRead :=
  match file with
  | None => Ok {| latest := None; complete_bytes := 0; file_bytes := 0 |}
  | Some content =>
    if (MAX_JOURNAL_BYTES <? blen content)%N then Err JournalTooLarge else
    r ← read_records (None, 0%N) (complete_lines content).1;
    Ok {| latest := r.1; complete_bytes := r.2; file_bytes := blen content |}
  end.

Definition load (file : option bytes) : result GuardianError (option GuardianState) :=
  j ← read_journal file; Ok j.(latest).

Definition encode (st : GuardianState) : result GuardianError bytes :=
  payload ← ok_or (state_to_json st) Json;
  record ← ok_or (record_to_json payload (sha256_text payload)) Json;
  Ok (record ++ [newline]).

(** [set_len(complete_bytes)] when the file ends with a torn record. *)
Definition drop_torn (j : JournalRead) (file : option bytes) : option bytes :=
  if (j.(complete_bytes) <? j.(file_bytes))%N
  then take (N.to_nat j.(complete_bytes)) <$> file else file.

Definition append (fault : Fault) (st : GuardianState) (file : option bytes) :
    option bytes * result GuardianError unit :=
  match (j ← read_journal file;
         _ ← validate_loaded_state st j.(latest);
         encoded ← encode st;
         if (MAX_JOURNAL_RECORD_BYTES <? blen encoded)%N then Err JournalRecordTooLarge
         else Ok (j, encoded)) with
  | Err e => (file, Err e)
  | Ok (j, encoded) =>
    match fault with
    | Stopped => (file, Err Interrupted)
    | Truncated => (drop_torn j file, Err Io)
    | Fine | Torn _ =>
      let kept := default [] (drop_torn j file) in
      if (MAX_JOURNAL_BYTES <? u64_saturating_add (blen kept) (blen encoded))%N
      then (Some kept, Err JournalTooLarge) else
      match fault with
      | Torn n => (Some (kept ++ take n encoded), Err Io)
      | _ => (Some (kept ++ encoded), Ok ())
      end
    end
  end.
End journal.

(** * The platform *)

Class RuntimeManager `{VersionOrder} (R : Type) := {
  stage : VerifiedCandidate → R → R * result string RuntimePlan;
  activate : RuntimePlan → R → R * result string unit;
  observe_activation : RuntimePlan → R → R * result string ActivationObservation;
  restore_previous : RuntimePlan → R → R * result string unit;
}.
Class RuntimeHealth `{VersionOrder} (Hl : Type) := {
  observe : RuntimeSlot → Hl → Hl * result string HealthObservation;
}.

(** A call of the platform, with the outcome where the theorems look at it. *)
Inductive Call `{VersionOrder} :=
| CallStage (c : VerifiedCandidate)
| CallActivate (p : RuntimePlan)
| CallObserve (p : RuntimePlan)
| CallRestore (p : RuntimePlan)
| CallHealth (s : RuntimeSlot) (r : result string HealthObservation).

(** What the theorems observe of a call: what the node was doing, and the journal. *)
Record CallRecord `{VersionOrder} := {
  called : Call;
  call_admission : Admission;
  call_file : option bytes;
}.

Record World `{VersionOrder} (R Hl : Type) := {
  config : GuardianConfig;
  file : option bytes;
  state : GuardianState;
  runtime : R;
  health : Hl;
  faults : list Fault;
  calls : list CallRecord;
}.
Arguments config {_ _ _} _.
Arguments file {_ _ _} _.
Arguments state {_ _ _} _.
Arguments runtime {_ _ _} _.
Arguments health {_ _ _} _.
Arguments faults {_ _ _} _.
Arguments calls {_ _ _} _.

Definition G `{VersionOrder} (R Hl A : Type) : Type :=
  World R Hl → World R Hl * result GuardianError A.

#[export] Instance G_ret `{VersionOrder} {R Hl} : MRet (G R Hl) := λ A a w, (w, Ok a).
#[export] Instance G_bind `{VersionOrder} {R Hl} : MBind (G R Hl) := λ A B k m w,
  match m w with
  | (w, Ok a) => k a w
  | (w, Err e) => (w, Err e)
  end.

(** * The guardian *)

Section guardian.
Context `{VO : VersionOrder} `{!JournalFormat} {R Hl : Type} `{!RuntimeManager R, !RuntimeHealth Hl}.
Implicit Types (w : World R Hl) (plan : RuntimePlan).

Definition throw {A} (e : GuardianError) : G R Hl A := λ w, (w, Err e).
Definition lift {A} (m : result GuardianError A) : G R Hl A := λ w, (w, m).

Definition with_state (st : GuardianState) w : World R Hl :=
  {| config := w.(config); file := w.(file); state := st; runtime := w.(runtime);
     health := w.(health); faults := w.(faults); calls := w.(calls) |}.

(** The world after the next fault is drawn. *)
Definition drawn w : World R Hl :=
  {| config := w.(config); file := w.(file); state := w.(state); runtime := w.(runtime);
     health := w.(health); faults := tail w.(faults); calls := w.(calls) |}.
Definition fault w : Fault := default Fine (head w.(faults)).

Definition with_file (f : option bytes) w : World R Hl :=
  {| config := w.(config); file := f; state := w.(state); runtime := w.(runtime);
     health := w.(health); faults := w.(faults); calls := w.(calls) |}.

Definition with_phase (p : GuardianPhase) (seq : N) (now : Z) (st : GuardianState) :
    GuardianState :=
  {| schema_version := st.(schema_version); sequence := seq;
     installed_release := st.(installed_release);
     trusted_metadata_version := st.(trusted_metadata_version); command := st.(command);
     phase := p; updated_at_unix_ms := now |}.

Definition with_command (c : UpdateCommand) (st : GuardianState) : GuardianState :=
  {| schema_version := st.(schema_version); sequence := st.(sequence);
     installed_release := st.(installed_release);
     trusted_metadata_version := st.(trusted_metadata_version); command := Some c;
     phase := st.(phase); updated_at_unix_ms := st.(updated_at_unix_ms) |}.

Definition with_installed (v : Version) (metadata : N) (st : GuardianState) : GuardianState :=
  {| schema_version := st.(schema_version); sequence := st.(sequence); installed_release := v;
     trusted_metadata_version := metadata; command := st.(command); phase := st.(phase);
     updated_at_unix_ms := st.(updated_at_unix_ms) |}.

Definition transition (p : GuardianPhase) (now : Z) : G R Hl unit := λ w,
  match u64_checked_add w.(state).(sequence) 1 with
  | None => (w, Err StateSequenceOverflow)
  | Some seq =>
    let next := with_phase p seq now w.(state) in
    let '(f, r) := append (fault w) next w.(file) in
    let w1 := with_file f (drawn w) in
    match r with
    | Ok _ => (with_state next w1, Ok ())
    | Err e => (w1, Err e)
    end
  end.

(** [detail.chars().take(512)] on UTF-8 bytes. *)
Fixpoint take_chars (n : nat) (s : string) : string :=
  match s with
  | String.EmptyString => ""
  | String.String a rest =>
    let c := N_of_ascii a in
    if ((128 <=? c) && (c <? 192))%N then String.String a (take_chars n rest) else
    match n with
    | O => ""
    | S n => String.String a (take_chars n rest)
    end
  end.
Definition bounded_detail (detail : string) : string := take_chars 512 detail.

Definition fail (code detail : string) (now : Z) : G R Hl unit :=
  transition (Failed code (bounded_detail detail)) now.

Definition begin_rollback plan (cause : string) (now : Z) : G R Hl unit :=
  transition (RollingBack plan (bounded_detail cause)) now.

(** [now.checked_add(timeout)] on i64. *)
Definition i64_checked_add (a b : Z) : option Z :=
  if decide (i64_min ≤ a + b ≤ i64_max)%Z then Some (a + b)%Z else None.

Definition begin_health plan (now : Z) : G R Hl unit := λ w,
  match i64_checked_add now w.(config).(health_timeout_ms) with
  | None => (w, Err TimeOverflow)
  | Some deadline => transition (HealthChecking plan now deadline 0) now w
  end.

Definition complete plan (metadata : N) (now : Z) : G R Hl unit := λ w,
  let prior := w.(state) in
  let w1 := with_state (with_installed plan.(staged).(slot_version) metadata prior) w in
  match transition (Completed plan.(staged) plan.(previous)) now w1 with
  | (w2, Err e) => (with_state prior w2, Err e)
  | r => r
  end.

(** A call of the platform. *)
Definition call {A} (activity : RuntimeActivity) (c : result string A → Call)
    (f : R → R * result string A) : G R Hl (result string A) := λ w,
  match fault w with
  | Fine =>
    let '(r, a) := f w.(runtime) in
    ({| config := w.(config); file := w.(file); state := w.(state); runtime := r;
        health := w.(health); faults := tail w.(faults);
        calls := {| called := c a; call_admission := admission activity;
                    call_file := w.(file) |} :: w.(calls) |}, Ok a)
  | _ => (drawn w, Err Interrupted)
  end.

Definition call_health (activity : RuntimeActivity) (slot : RuntimeSlot) :
    G R Hl (result string HealthObservation) := λ w,
  match fault w with
  | Fine =>
    let '(h, a) := observe slot w.(health) in
    ({| config := w.(config); file := w.(file); state := w.(state); runtime := w.(runtime);
        health := h; faults := tail w.(faults);
        calls := {| called := CallHealth slot a; call_admission := admission activity;
                    call_file := w.(file) |} :: w.(calls) |}, Ok a)
  | _ => (drawn w, Err Interrupted)
  end.

Definition request (c : UpdateCommand) (activity : RuntimeActivity) (now : Z) : G R Hl unit := λ w,
  match validate_command c with
  | Err e => (w, Err e)
  | Ok _ =>
    let st := w.(state) in
    if version_le c.(candidate).(release) st.(installed_release)
    then (w, Err (ReleaseNotNewer st.(installed_release) c.(candidate).(release))) else
    if (c.(candidate).(metadata_version) <=? st.(trusted_metadata_version))%N
    then (w, Err (MetadataNotNewer st.(trusted_metadata_version) c.(candidate).(metadata_version))) else
    if negb (settled st.(phase)) then (w, Err UpdateAlreadyInProgress) else
    transition (AwaitingIdle (match admission activity with
                              | Ready => None
                              | BlockedBy reason => Some reason
                              end)) now (with_state (with_command c st) w)
  end.

Definition get_command : G R Hl UpdateCommand := λ w,
  (w, ok_or w.(state).(command) MissingCommand).

Definition advance_awaiting (activity : RuntimeActivity) (now : Z) : G R Hl unit :=
  match admission activity with
  | BlockedBy reason => transition (AwaitingIdle (Some reason)) now
  | Ready =>
    _ ← transition Staging now;
    c ← get_command;
    r ← call activity (λ _, CallStage c.(candidate)) (stage c.(candidate));
    match r with
    | Ok plan =>
      if decide (plan.(staged).(slot_version) = c.(candidate).(release))
      then transition (Staged plan) now
      else fail "staged_version_mismatch" "platform staged a runtime with the wrong version" now
    | Err detail => fail "stage_failed" detail now
    end
  end.

Definition advance_staged plan (activity : RuntimeActivity) (now : Z) : G R Hl unit :=
  match admission activity with
  | BlockedBy _ => mret ()
  | Ready =>
    _ ← transition (Activating plan) now;
    r ← call activity (λ _, CallActivate plan) (activate plan);
    match r with
    | Ok _ => begin_health plan now
    | Err detail => begin_rollback plan ("activate_failed:" +:+ detail) now
    end
  end.

Definition advance_activating plan (activity : RuntimeActivity) (now : Z) : G R Hl unit :=
  r ← call activity (λ _, CallObserve plan) (observe_activation plan);
  match r with
  | Err reason => throw (RuntimeError reason)
  | Ok Activated => begin_health plan now
  | Ok NotActivated =>
    match admission activity with
    | BlockedBy _ => mret ()
    | Ready =>
      r ← call activity (λ _, CallActivate plan) (activate plan);
      match r with
      | Ok _ => begin_health plan now
      | Err detail => begin_rollback plan ("activation_recovery_failed:" +:+ detail) now
      end
    end
  | Ok ActivationUnknown => begin_rollback plan "activation_state_unknown" now
  end.

(** [attempts.saturating_add(1)] on u32. *)
Definition u32_max : N := 4294967295.
Definition u32_saturating_add (a b : N) : N := N.min (a + b) u32_max.

Definition advance_health plan (started deadline : Z) (attempts : N)
    (activity : RuntimeActivity) (now : Z) : G R Hl unit :=
  let next_attempts := u32_saturating_add attempts 1 in
  r ← call_health activity plan.(staged);
  match r return G R Hl unit with
  | Err reason => throw (HealthError reason)
  | Ok Healthy => c ← get_command; complete plan c.(candidate).(metadata_version) now
  | Ok (Unhealthy reason) => begin_rollback plan ("unhealthy:" +:+ reason) now
  | Ok Pending => λ w,
    if (deadline <=? now)%Z || (w.(config).(max_health_attempts) <=? next_attempts)%N
    then begin_rollback plan "health_check_timeout" now w
    else transition (HealthChecking plan started deadline next_attempts) now w
  end.

Definition advance_rollback plan (cause : string) (activity : RuntimeActivity) (now : Z) :
    G R Hl unit :=
  r ← call activity (λ _, CallRestore plan) (restore_previous plan);
  match r with
  | Ok _ => transition (RolledBack plan.(previous) plan.(staged).(slot_version) cause) now
  | Err detail => fail "rollback_failed" (cause +:+ "; restore error: " +:+ detail) now
  end.

Definition advance (activity : RuntimeActivity) (now : Z) : G R Hl unit := λ w,
  match w.(state).(phase) with
  | AwaitingIdle _ => advance_awaiting activity now w
  | Staging =>
    fail "stage_interrupted" "process restarted while staging; artifact was not activated" now w
  | Staged plan => advance_staged plan activity now w
  | Activating plan => advance_activating plan activity now w
  | HealthChecking plan started deadline attempts =>
    advance_health plan started deadline attempts activity now w
  | RollingBack plan cause => advance_rollback plan cause activity now w
  | Idle | Completed _ _ | RolledBack _ _ _ | Failed _ _ => (w, Ok ())
  end.

(** A new process on the journal. *)
Definition open_guardian (c : GuardianConfig) (f : option bytes) (installed : Version) (now : Z) :
    result GuardianError GuardianState :=
  _ ← validate_config c;
  st ← load f;
  Ok (default (initial_state installed now) st).

(** * The process and its environment *)

Inductive guardian_step w : World R Hl → Prop :=
| step_request c activity now : guardian_step w (request c activity now w).1
| step_advance activity now : guardian_step w (advance activity now w).1
| step_restart c installed now st :
    open_guardian c w.(file) installed now = Ok st →
    (c.(max_health_attempts) <= u32_max)%N →
    guardian_step w {| config := c; file := w.(file); state := st; runtime := w.(runtime);
                       health := w.(health); faults := w.(faults); calls := w.(calls) |}
| step_platform r h fs :
    guardian_step w {| config := w.(config); file := w.(file); state := w.(state); runtime := r;
                       health := h; faults := fs; calls := w.(calls) |}.

Definition guardian_initial w : Prop :=
  w.(file) = None ∧ w.(calls) = [] ∧
  validate_config w.(config) = Ok () ∧ (w.(config).(max_health_attempts) <= u32_max)%N ∧
  ∃ installed now, w.(state) = initial_state installed now.

Definition guardian_reachable w : Prop := ∃ w0, guardian_initial w0 ∧ rtc guardian_step w0 w.
End guardian.
