(* ===== verification/GuardianFacts.v ===== *)
(** The journal of the update guardian: its lines, the states it holds ([history]), and
    what an append, complete or cut short, does to them. *)
From S2P Require Import Prelude Domain Guardian GuardianMachine.

(** * Lines *)

Definition unlines (lines : list bytes) : bytes := concat ((λ l, l ++ [newline]) <$> lines).

Lemma unlines_cons l lines : unlines (l :: lines) = l ++ newline :: unlines lines.
Proof. unfold unlines. simpl. by rewrite <- (assoc_L (++)). Qed.

Lemma unlines_app a b : unlines (a ++ b) = unlines a ++ unlines b.
Proof. unfold unlines. by rewrite fmap_app, concat_app. Qed.

Lemma blen_app a b : blen (a ++ b) = (blen a + blen b)%N.
Proof. unfold blen. rewrite length_app. lia. Qed.

Lemma complete_lines_torn t : newline ∉ t → complete_lines t = ([], t).
Proof.
  induction t as [|a t IH]; [done|]. rewrite not_elem_of_cons. intros [Ha Ht].
  simpl. rewrite (IH Ht). destruct (Ascii.eqb_spec a newline); [congruence|done].
Qed.

Lemma complete_lines_cons l rest :
  newline ∉ l →
  complete_lines (l ++ newline :: rest) =
    (l :: (complete_lines rest).1, (complete_lines rest).2).
Proof.
  induction l as [|a l IH]; intros Hl.
  - simpl. by destruct (complete_lines rest).
  - apply not_elem_of_cons in Hl as [Ha Hl]. simpl. rewrite (IH Hl).
    destruct (Ascii.eqb_spec a newline); [congruence|done].
Qed.

Lemma complete_lines_unlines lines torn :
  Forall (λ l, newline ∉ l) lines → newline ∉ torn →
  complete_lines (unlines lines ++ torn) = (lines, torn).
Proof.
  intros Hl Ht. induction Hl as [|l lines Hn _ IH]; [by apply complete_lines_torn|].
  rewrite unlines_cons, <- (assoc_L (++)). simpl. by rewrite complete_lines_cons, IH.
Qed.

(** Every file is its complete lines followed by a torn one. *)
Lemma complete_lines_eq content :
  content = unlines (complete_lines content).1 ++ (complete_lines content).2 ∧
  Forall (λ l, newline ∉ l) (complete_lines content).1 ∧ newline ∉ (complete_lines content).2.
Proof.
  induction content as [|a content (IH & Hl & Ht)]; [by split_and!; [|constructor|apply not_elem_of_nil]|].
  simpl. destruct (complete_lines content) as [lines torn]. simpl in *.
  destruct (Ascii.eqb_spec a newline) as [->|Hne]; simpl.
  - split_and!; [by rewrite IH|constructor; [apply not_elem_of_nil|done]|done].
  - destruct lines as [|l lines]; simpl in *.
    + split_and!; [by rewrite IH|done|]. apply not_elem_of_cons. split; [congruence|done].
    + apply Forall_cons in Hl as [Hn Hl]. split_and!; [by rewrite IH| |done].
      constructor; [|done]. apply not_elem_of_cons. split; [congruence|done].
Qed.

Lemma length_lines_le lines : length lines ≤ length (unlines lines).
Proof.
  induction lines as [|l lines IH]; [done|].
  rewrite unlines_cons, length_app. simpl. lia.
Qed.

(** * The states of a journal *)

(** [serde_json] reads back what it wrote, and writes a record on one line. *)
Class JournalFormatLaws `{JournalFormat} : Prop := {
  state_round_trip st p : state_to_json st = Some p → state_from_json p = Some st;
  record_round_trip p h b : record_to_json p h = Some b → record_from_json b = Some (p, h);
  record_on_one_line p h b : record_to_json p h = Some b → newline ∉ b;
}.

Definition decode_line `{JournalFormat} (line : bytes) : option GuardianState :=
  record ← record_from_json line;
  if String.eqb (sha256_text record.1) record.2 then state_from_json record.1 else None.

(** The states of the complete records, oldest first. *)
Definition history `{JournalFormat} (f : option bytes) : list GuardianState :=
  omap decode_line (complete_lines (default [] f)).1.

Definition readable `{JournalFormat} (f : option bytes) : Prop := ∃ j, read_journal f = Ok j.

Section journal.
Context `{VO : VersionOrder} `{!JournalFormat}.
Implicit Types (st : GuardianState) (f : option bytes) (line : bytes).

Lemma read_record_Ok acc line acc' :
  read_record acc line = Ok acc' ↔
  ∃ st, decode_line line = Some st ∧ validate_loaded_state st acc.1 = Ok () ∧
    (blen line ≤ MAX_JOURNAL_RECORD_BYTES)%N ∧
    acc' = (Some st, (acc.2 + blen (unlines [line]))%N) ∧ (acc'.2 ≤ u64_max)%N.
Proof.
  assert (Hlen : blen (unlines [line]) = (blen line + 1)%N).
  { by rewrite unlines_cons, blen_app. }
  unfold read_record, decode_line. rewrite bind_Ok. setoid_rewrite ok_or_Ok.
  setoid_rewrite u64_checked_add_Some. rewrite Hlen. split.
  - intros (n & [-> Hn] & Hrest). branches Hrest.
    rewrite bind_Ok in Hrest. destruct Hrest as ([p h] & Hrec & Hrest).
    apply ok_or_Ok in Hrec. rewrite Hrec. simpl in *.
    destruct (sha256_text p =? h)%string; [|done]. simpl in Hrest.
    rewrite bind_Ok in Hrest. destruct Hrest as (st & Hst & Hrest). apply ok_or_Ok in Hst.
    rewrite bind_Ok in Hrest. destruct Hrest as ([] & Hv & [= <-]).
    exists st. split_and!; [done|done|by apply N.ltb_ge|done..].
  - intros (st & Hdec & Hv & Hle & -> & Hn). exists (acc.2 + (blen line + 1))%N. split; [done|].
    apply bind_Some in Hdec as ([p h] & Hrec & Hdec). simpl in Hdec.
    case_match eqn:Hsha; [|done]. rewrite (proj2 (N.ltb_ge _ _) Hle), Hrec. simpl.
    by rewrite Hsha, Hdec; simpl; rewrite Hv.
Qed.

Lemma read_records_app acc a b :
  read_records acc (a ++ b) = read_records acc a ≫= λ acc, read_records acc b.
Proof.
  revert acc. induction a as [|x a IH]; intros acc; [done|]. simpl.
  destruct (read_record acc x) as [acc1|]; [|done]. apply IH.
Qed.

Lemma read_records_Ok acc lines acc' :
  read_records acc lines = Ok acc' →
  acc'.2 = (acc.2 + blen (unlines lines))%N ∧
  acc'.1 = last (option_list acc.1 ++ omap decode_line lines) ∧
  length (omap decode_line lines) = length lines.
Proof.
  revert acc. induction lines as [|l lines IH]; intros acc Hr; simpl in *.
  { simplify_eq. rewrite app_nil_r. split_and!; [by rewrite N.add_0_r| |done].
    by destruct (acc'.1). }
  apply bind_Ok in Hr as (acc1 & (st & Hdec & _ & _ & -> & _)%read_record_Ok & Hr).
  destruct (IH _ Hr) as (H2 & H1 & Hl). simpl in *. rewrite Hdec.
  change (unlines (l :: lines)) with (unlines ([l] ++ lines)).
  rewrite unlines_app, blen_app. split_and!; [lia| |exact (f_equal S Hl)].
  rewrite H1. destruct acc.1; [|done]. done.
Qed.

(** What a successful read says of the file. *)
Lemma read_journal_Ok f j :
  read_journal f = Ok j →
  j.(complete_bytes) = blen (unlines (complete_lines (default [] f)).1) ∧
  j.(file_bytes) = blen (default [] f) ∧ j.(latest) = last (history f) ∧
  length (history f) = length (complete_lines (default [] f)).1 ∧
  (blen (default [] f) ≤ MAX_JOURNAL_BYTES)%N ∧
  read_records (None, 0%N) (complete_lines (default [] f)).1 =
    Ok (j.(latest), j.(complete_bytes)).
Proof.
  destruct f as [content|]; simpl; [|intros [= <-]; by split_and!].
  destruct (N.ltb_spec MAX_JOURNAL_BYTES (blen content)); [done|].
  rewrite bind_Ok. intros ([l n] & Hr & [= <-]). simpl.
  destruct (read_records_Ok _ _ _ Hr) as (Hn & Hlast & Hl). simpl in *. by split_and!.
Qed.

Lemma history_length f : readable f → (N.of_nat (length (history f)) ≤ MAX_JOURNAL_BYTES)%N.
Proof.
  intros [j (_ & _ & _ & -> & Hle & _)%read_journal_Ok].
  destruct (complete_lines_eq (default [] f)) as (Heq & _).
  assert (Hl := length_lines_le (complete_lines (default [] f)).1).
  rewrite Heq in Hle at 1. unfold blen in Hle. rewrite length_app in Hle. lia.
Qed.

(** A readable file that ends with a complete line, extended by one record or by a part of
    one. *)
Definition kept_bytes f : bytes := unlines (complete_lines (default [] f)).1.

Lemma history_kept f : history (Some (kept_bytes f)) = history f.
Proof.
  unfold history, kept_bytes. simpl. f_equal.
  destruct (complete_lines_eq (default [] f)) as (_ & Hl & _).
  rewrite <- (app_nil_r (unlines _)), complete_lines_unlines; [done..|apply not_elem_of_nil].
Qed.

Lemma complete_kept f more torn :
  Forall (λ l, newline ∉ l) more → newline ∉ torn →
  complete_lines (kept_bytes f ++ unlines more ++ torn) =
    ((complete_lines (default [] f)).1 ++ more, torn).
Proof.
  intros Hm Ht. destruct (complete_lines_eq (default [] f)) as (_ & Hl & _).
  unfold kept_bytes. rewrite (assoc_L (++)), <- unlines_app, complete_lines_unlines; [done| |done].
  by apply Forall_app.
Qed.

Lemma readable_torn f torn :
  readable f → newline ∉ torn → (blen (kept_bytes f ++ torn) ≤ MAX_JOURNAL_BYTES)%N →
  readable (Some (kept_bytes f ++ torn)) ∧ history (Some (kept_bytes f ++ torn)) = history f.
Proof.
  intros [j (_ & _ & _ & _ & _ & Hr)%read_journal_Ok] Ht Hle.
  assert (Hc := complete_kept f [] torn (Forall_nil_2 _) Ht). simpl in Hc. rewrite app_nil_r in Hc.
  split.
  - eexists. unfold read_journal. rewrite (proj2 (N.ltb_ge _ _) Hle), Hc. simpl. by rewrite Hr.
  - unfold history. simpl. by rewrite Hc.
Qed.

Lemma readable_record f line st :
  readable f → newline ∉ line → decode_line line = Some st →
  validate_loaded_state st (last (history f)) = Ok () →
  (blen line ≤ MAX_JOURNAL_RECORD_BYTES)%N →
  (blen (kept_bytes f ++ line ++ [newline]) ≤ MAX_JOURNAL_BYTES)%N →
  readable (Some (kept_bytes f ++ line ++ [newline])) ∧
  history (Some (kept_bytes f ++ line ++ [newline])) = history f ++ [st].
Proof.
  intros [j (Hcb & _ & Hlast & _ & _ & Hr)%read_journal_Ok] Hn Hdec Hv Hrec Hle.
  assert (Hc : complete_lines (kept_bytes f ++ line ++ [newline]) =
               ((complete_lines (default [] f)).1 ++ [line], [])).
  { assert (Hc := complete_kept f [line] []). rewrite unlines_cons, app_nil_r in Hc.
    apply Hc; [by repeat constructor|apply not_elem_of_nil]. }
  split.
  - eexists. unfold read_journal. rewrite (proj2 (N.ltb_ge _ _) Hle), Hc. simpl.
    rewrite read_records_app, Hr. simpl.
    rewrite (proj2 (read_record_Ok _ _ (Some st, (j.(complete_bytes) + blen (unlines [line]))%N))); [done|].
    exists st. simpl. rewrite Hlast. split_and!; [done..|].
    rewrite !blen_app in Hle. unfold kept_bytes in Hle. rewrite Hcb, unlines_cons, blen_app.
    transitivity MAX_JOURNAL_BYTES; [exact (Hle)|done].
  - unfold history. simpl. rewrite Hc. simpl. by rewrite omap_app; simpl; rewrite Hdec.
Qed.
End journal.

(** * Appends *)

Section append.
Context `{VO : VersionOrder} `{!JournalFormat} `{!JournalFormatLaws}.
Implicit Types (st : GuardianState) (f : option bytes).

Lemma encode_Ok st b :
  encode st = Ok b →
  ∃ line, b = (line ++ [newline]) ∧ (newline ∉ line) ∧ decode_line line = Some st.
Proof.
  unfold encode. rewrite bind_Ok. setoid_rewrite bind_Ok. setoid_rewrite ok_or_Ok.
  intros (p & Hp & line & Hl & [= <-]). exists line. split_and!; [done| |].
  - by eapply record_on_one_line.
  - unfold decode_line. rewrite (record_round_trip _ _ _ Hl). simpl.
    rewrite String.eqb_refl. by apply state_round_trip.
Qed.

Lemma drop_torn_kept f j :
  read_journal f = Ok j → default [] (drop_torn j f) = kept_bytes f.
Proof.
  intros (Hc & Hfb & _)%read_journal_Ok. unfold drop_torn, kept_bytes.
  destruct (complete_lines_eq (default [] f)) as (Heq & _ & _).
  destruct (N.ltb_spec j.(complete_bytes) j.(file_bytes)) as [Hlt|Hge].
  - destruct f as [content|]; [|by rewrite Hc, Hfb in Hlt]. simpl in *.
    rewrite Hc. unfold blen. rewrite Nat2N.id. rewrite Heq at 2. by rewrite take_app_length.
  - rewrite Heq at 1. rewrite Hc, Hfb in Hge. rewrite Heq in Hge at 1. rewrite blen_app in Hge.
    destruct (complete_lines (default [] f)).2; [by rewrite app_nil_r|].
    unfold blen in Hge. simpl in Hge. lia.
Qed.

Lemma readable_kept f :
  readable f → readable (Some (kept_bytes f)) ∧ history (Some (kept_bytes f)) = history f.
Proof.
  intros Hf. rewrite <- (app_nil_r (kept_bytes f)). apply readable_torn; [done|apply not_elem_of_nil|].
  rewrite app_nil_r. destruct Hf as [j (_ & _ & _ & _ & Hle & _)%read_journal_Ok].
  destruct (complete_lines_eq (default [] f)) as (Heq & _ & _). unfold kept_bytes.
  rewrite Heq, blen_app in Hle. lia.
Qed.

Lemma readable_drop_torn f j :
  read_journal f = Ok j → readable (drop_torn j f) ∧ history (drop_torn j f) = history f.
Proof.
  intros Hj. assert (Hk := drop_torn_kept f j Hj). unfold drop_torn in *.
  case_match; [|by split; [exists j|]].
  destruct f as [content|]; simpl in *; [|by split; [exists j|]].
  rewrite Hk. apply (readable_kept (Some content)). by exists j.
Qed.

(** The states of [g] are those of [f], possibly followed by the valid state [st]. *)
Definition extends f st (g : option bytes) : Prop :=
  readable g ∧ history g = history f ++ [st] ∧
  validate_loaded_state st (last (history f)) = Ok ().

Lemma saturating_add_bounded a b c :
  (u64_saturating_add a b ≤ c → c < u64_max → a + b ≤ c)%N.
Proof. unfold u64_saturating_add. lia. Qed.

Lemma append_record st f line n :
  readable f → newline ∉ line → decode_line line = Some st →
  validate_loaded_state st (last (history f)) = Ok () →
  (blen (line ++ [newline]) ≤ MAX_JOURNAL_RECORD_BYTES)%N →
  (u64_saturating_add (blen (kept_bytes f)) (blen (line ++ [newline])) ≤ MAX_JOURNAL_BYTES)%N →
  let g := Some (kept_bytes f ++ take n (line ++ [newline])) in
  extends f st g ∨ n ≤ length line ∧ readable g ∧ history g = history f.
Proof.
  intros Hf Hn Hdec Hv Hrec Hsz. simpl.
  apply saturating_add_bounded in Hsz as Hle; [|done].
  destruct (decide (n ≤ length line)) as [Hshort|Hfull].
  - right. split; [done|]. rewrite take_app_le by done. apply readable_torn; [done| |].
    + intros Hin. apply Hn. rewrite <- (take_drop n line). apply elem_of_app. by left.
    + rewrite blen_app in *. unfold blen in *. rewrite length_take. lia.
  - left. rewrite take_ge by (rewrite length_app; simpl; lia).
    destruct (readable_record f line st) as [Hr Hh]; [done..| |by rewrite blen_app|].
    + rewrite blen_app in Hrec. lia.
    + split; [exact Hr|split; [exact Hh|exact Hv]].
Qed.

(** An append ends with the journal as it was, or with one state more; it reports success
    only in the second case. *)
Lemma append_spec fault st f :
  readable f →
  let '(g, r) := append fault st f in
  extends f st g ∨ (∃ e, r = Err e) ∧ readable g ∧ history g = history f.
Proof.
  intros Hf. assert (Hf' := Hf). destruct Hf' as [j Hj].
  assert (Hk := drop_torn_kept f j Hj). unfold append. rewrite Hj. simpl.
  destruct (read_journal_Ok _ _ Hj) as (_ & _ & Hlast & _ & _ & _).
  destruct (validate_loaded_state st _) as [[]|e] eqn:Hv; simpl; [|by eauto 6].
  destruct (encode st) as [encoded|e] eqn:Henc; simpl; [|by eauto 6].
  destruct (N.ltb_spec MAX_JOURNAL_RECORD_BYTES (blen encoded)) as [?|Hrec]; simpl; [by eauto 6|].
  apply encode_Ok in Henc as (line & -> & Hn & Hdec). rewrite Hlast in Hv.
  assert (Hap := append_record st f line). simpl in Hap. rewrite Hk.
  assert (Hkept := readable_kept f Hf). assert (Hdrop := readable_drop_torn f j Hj).
  destruct fault as [| | |n]; [|by eauto 6..|];
    (destruct (N.ltb_spec MAX_JOURNAL_BYTES
       (u64_saturating_add (blen (kept_bytes f)) (blen (line ++ [newline])))) as [?|Hsz];
     [by eauto 6|]).
  - destruct (Hap (length (line ++ [newline]))) as [Hx|[Hlen _]]; [done..| |].
    + left. by rewrite take_ge in Hx by done.
    + rewrite length_app in Hlen. simpl in Hlen. lia.
  - destruct (Hap n) as [Hx|(_ & Hx)]; [done..|by left|by eauto].
Qed.

(** What the journal can report of an append besides an invalid state. *)
Definition storage_error (e : GuardianError) : bool :=
  match e with
  | Io | Json | Interrupted | JournalTooLarge | JournalRecordTooLarge => true
  | StateSequence _ _ | StateSequenceOverflow => true
  | _ => false
  end.

Lemma append_error fault st f e :
  readable f → (append fault st f).2 = Err e →
  validate_loaded_state st (last (history f)) = Err e ∨ storage_error e = true.
Proof.
  intros [j Hj]. destruct (read_journal_Ok _ _ Hj) as (_ & _ & Hlast & _ & _ & _).
  unfold append. rewrite Hj. simpl. rewrite Hlast.
  destruct (validate_loaded_state st _) as [[]|e1] eqn:Hv; simpl; [|intros [= ->]; by left].
  intros He. right. destruct (encode st) as [encoded|e1] eqn:Henc; simpl in He.
  - by repeat (case_match; simplify_eq/=).
  - simplify_eq. unfold encode in Henc.
    destruct (state_to_json st) as [p|]; simpl in Henc; [|by simplify_eq].
    by destruct (record_to_json p (sha256_text p)); simplify_eq/=.
Qed.
End append.
