(* ===== verification/GuardianSystem.v ===== *)
(** The update guardian as a process: the abstract update protocol ([spec_step]), a Hoare
    logic for the guardian's monad, and the invariant of the process through failed and
    torn appends, interrupted calls and restarts. *)
From S2P Require Import Prelude Domain Guardian GuardianMachine GuardianFacts.

(** * The update protocol *)

Section protocol.
Context `{VO : VersionOrder} `{!JournalFormat}.
Implicit Types (s t base : GuardianState) (l : list GuardianState).

Definition next (p : GuardianPhase) (now : Z) (s : GuardianState) : GuardianState :=
  with_phase p (s.(sequence) + 1) now s.

(** What an update promises, whatever the platform, the clock and the storage do: the
    order of its phases, which state may follow which, and that the installed release and
    the trusted metadata change only when an update completes. *)
Inductive spec_step s : GuardianState → Prop :=
| spec_requested c blocked now :
    settled s.(phase) = true → version_lt s.(installed_release) c.(candidate).(release) →
    (s.(trusted_metadata_version) < c.(candidate).(metadata_version))%N →
    spec_step s (next (AwaitingIdle blocked) now (with_command c s))
| spec_waiting blocked reason now :
    s.(phase) = AwaitingIdle blocked → spec_step s (next (AwaitingIdle (Some reason)) now s)
| spec_staging blocked now :
    s.(phase) = AwaitingIdle blocked → spec_step s (next Staging now s)
| spec_staged plan c now :
    s.(phase) = Staging → s.(command) = Some c →
    plan.(staged).(slot_version) = c.(candidate).(release) → spec_step s (next (Staged plan) now s)
| spec_stage_failed code detail now :
    s.(phase) = Staging → spec_step s (next (Failed code detail) now s)
| spec_activating plan now :
    s.(phase) = Staged plan → spec_step s (next (Activating plan) now s)
| spec_activated plan deadline now :
    s.(phase) = Activating plan → (now < deadline)%Z →
    spec_step s (next (HealthChecking plan now deadline 0) now s)
| spec_checking plan started deadline attempts now :
    s.(phase) = HealthChecking plan started deadline attempts → (now < deadline)%Z →
    spec_step s (next (HealthChecking plan started deadline (attempts + 1)) now s)
| spec_completed plan started deadline attempts c now :
    s.(phase) = HealthChecking plan started deadline attempts → s.(command) = Some c →
    spec_step s (next (Completed plan.(staged) plan.(previous)) now
      (with_installed plan.(staged).(slot_version) c.(candidate).(metadata_version) s))
| spec_not_activated plan cause now :
    s.(phase) = Activating plan → spec_step s (next (RollingBack plan cause) now s)
| spec_not_healthy plan started deadline attempts cause now :
    s.(phase) = HealthChecking plan started deadline attempts →
    spec_step s (next (RollingBack plan cause) now s)
| spec_rolled_back plan cause now :
    s.(phase) = RollingBack plan cause →
    spec_step s (next (RolledBack plan.(previous) plan.(staged).(slot_version) cause) now s)
| spec_rollback_failed plan cause code detail now :
    s.(phase) = RollingBack plan cause → spec_step s (next (Failed code detail) now s).

Fixpoint spec_path s l : Prop :=
  match l with [] => True | t :: l => spec_step s t ∧ spec_path t l end.

(** The state a restart finds: the last of the journal, or the initial one. *)
Definition durable base l : GuardianState := default base (last l).

Lemma durable_snoc base l s : durable base (l ++ [s]) = s.
Proof. unfold durable. by rewrite last_snoc. Qed.

Lemma durable_elem base l : durable base l ∈ base :: l.
Proof.
  unfold durable. destruct (last l) as [t|] eqn:E; simpl; [|set_solver].
  apply last_Some_elem_of in E. set_solver.
Qed.

Lemma durable_cons base t l : durable base (t :: l) = durable t l.
Proof. unfold durable. rewrite last_cons. by destruct (last l). Qed.

Lemma spec_path_snoc base l s :
  spec_path base l → spec_step (durable base l) s → spec_path base (l ++ [s]).
Proof.
  revert base. induction l as [|t l IH]; intros base; simpl; [done|].
  rewrite durable_cons. intros [? ?] ?. split; [done|]. by apply IH.
Qed.

(** ** What holds of every state of the protocol *)

Definition plan_of (p : GuardianPhase) : option RuntimePlan :=
  match p with
  | Staged plan | Activating plan | HealthChecking plan _ _ _ | RollingBack plan _ => Some plan
  | _ => None
  end.

(** While an update is under way its command is newer than what is installed, and every
    plan stages its release. *)
Definition consistent s : Prop :=
  s.(schema_version) = STATE_SCHEMA_VERSION ∧
  (settled s.(phase) = false → ∃ c, s.(command) = Some c ∧
     version_lt s.(installed_release) c.(candidate).(release) ∧
     (s.(trusted_metadata_version) < c.(candidate).(metadata_version))%N ∧
     ∀ plan, plan_of s.(phase) = Some plan → plan.(staged).(slot_version) = c.(candidate).(release)).

(** [t] is later than [s], and nothing it installed or trusts is older. *)
Definition advances s t : Prop :=
  (s.(sequence) < t.(sequence))%N ∧
  (s.(installed_release) = t.(installed_release) ∨
   version_lt s.(installed_release) t.(installed_release)) ∧
  (s.(trusted_metadata_version) ≤ t.(trusted_metadata_version))%N.

Lemma spec_step_consistent s t : spec_step s t → consistent s → consistent t.
Proof.
  intros Hst [Hv Hc]. split; [by destruct Hst|]. intros Ht.
  destruct Hst; try done; simpl in *; try (eexists; split_and!; done);
    destruct Hc as (c0 & Hcmd & Hr & Hm & Hp);
    try match goal with H : s.(phase) = _ |- _ => rewrite H in * end; try done;
    exists c0; split_and!; try done; intros plan0 Hplan; simplify_eq; try done; by apply Hp.
Qed.

Lemma spec_step_advances s t : spec_step s t → consistent s → advances s t.
Proof.
  intros Hst [_ Hc]. split; [destruct Hst; simpl; lia|].
  destruct Hst; simpl; try (split; [by left|done]).
  match goal with H : s.(phase) = _ |- _ => rewrite H in * end.
  destruct Hc as (c0 & Hcmd & Hr & Hm & Hp); [done|]. simplify_eq. rewrite Hp by done.
  split; [by right|lia].
Qed.

Lemma spec_path_consistent base l :
  consistent base → spec_path base l → Forall consistent (base :: l).
Proof.
  revert base. induction l as [|t l IH]; intros base Hb Hl; [by apply Forall_singleton|].
  destruct Hl as [Hst Hl]. constructor; [done|]. apply IH; [|done]. by eapply spec_step_consistent.
Qed.

Lemma advances_trans `{!VersionLaws} s t u : advances s t → advances t u → advances s u.
Proof.
  intros (H1 & H2 & H3) (H4 & H5 & H6). split; [lia|]. split; [|lia].
  destruct H2 as [->|H2], H5 as [<-|H5]; eauto. right. by etrans.
Qed.

(** Every later state of a path advances on the earlier ones. *)
Lemma spec_path_sorted `{!VersionLaws} base l :
  consistent base → spec_path base l → StronglySorted advances (base :: l).
Proof.
  revert base. induction l as [|t l IH]; intros base Hb Hl; [constructor; constructor|].
  destruct Hl as [Hst Hl]. specialize (IH t (spec_step_consistent _ _ Hst Hb) Hl).
  assert (Ha := spec_step_advances _ _ Hst Hb).
  constructor; [done|]. apply StronglySorted_inv in IH as [_ IH].
  constructor; [done|]. eapply Forall_impl; [done|]. intros u. by apply advances_trans.
Qed.

Lemma spec_path_sequence base l :
  spec_path base l → (durable base l).(sequence) = (base.(sequence) + N.of_nat (length l))%N.
Proof.
  revert base. induction l as [|t l IH]; intros base Hl; [unfold durable; simpl; lia|].
  destruct Hl as [Hst Hl]. rewrite durable_cons, (IH t Hl).
  assert (t.(sequence) = base.(sequence) + 1)%N as -> by (by destruct Hst). simpl. lia.
Qed.

Lemma initial_consistent installed now : consistent (initial_state installed now).
Proof. by split. Qed.
End protocol.

(** * The process *)

Section process.
Context `{VO : VersionOrder} `{!JournalFormat} `{!JournalFormatLaws}.
Context {R Hl : Type} `{!RuntimeManager R, !RuntimeHealth Hl}.
Implicit Types (w : World R Hl) (s t base : GuardianState) (l : list GuardianState).

Definition is_initial base : Prop := ∃ installed now, base = initial_state installed now.

(** [s] is a state of the journal, and either its last one or a state on which the journal
    refuses every further append. *)
Definition anchored base l s : Prop :=
  s ∈ base :: l ∧ (s = durable base l ∨ (s.(sequence) < (durable base l).(sequence))%N).

(** The state in memory is that state; while no update is under way a refused request may
    have left its command in it. *)
Definition remembers m s : Prop :=
  m = s ∨ settled s.(phase) = true ∧ ∃ c, m = with_command c s.

(** A completed update has a health check that found its runtime healthy. *)
Definition evidence (cs : list CallRecord) s : Prop :=
  ∀ installed rollback, s.(phase) = Completed installed rollback →
    ∃ r, r ∈ cs ∧ r.(called) = CallHealth installed (Ok Healthy).

(** A call of the platform has its intent in the journal of the moment. *)
Definition call_ok (r : CallRecord) : Prop :=
  match r.(called) with
  | CallStage c => r.(call_admission) = Ready ∧
      ∃ st, last (history r.(call_file)) = Some st ∧ st.(phase) = Staging ∧
            candidate <$> st.(command) = Some c
  | CallActivate plan => r.(call_admission) = Ready ∧
      ∃ st, st ∈ history r.(call_file) ∧ st.(phase) = Activating plan
  | CallObserve plan => ∃ st, st ∈ history r.(call_file) ∧ st.(phase) = Activating plan
  | CallRestore plan => ∃ st cause, st ∈ history r.(call_file) ∧ st.(phase) = RollingBack plan cause
  | CallHealth slot _ => ∃ st plan started deadline attempts, st ∈ history r.(call_file) ∧
      st.(phase) = HealthChecking plan started deadline attempts ∧ plan.(staged) = slot
  end.

Definition config_ok (c : GuardianConfig) : Prop :=
  validate_config c = Ok () ∧ (c.(max_health_attempts) <= u32_max)%N.

Record sound base (c : GuardianConfig) w : Prop := {
  sound_config : w.(config) = c ∧ config_ok c;
  sound_readable : readable w.(file);
  sound_path : is_initial base ∧ spec_path base (history w.(file));
  sound_evidence : Forall (evidence w.(calls)) (history w.(file));
  sound_calls : Forall call_ok w.(calls);
}.

(** The process runs in state [s] / rests after an operation. *)
Definition at_state base c s w : Prop :=
  sound base c w ∧ anchored base (history w.(file)) s ∧ w.(state) = s.
Definition at_rest base c w : Prop :=
  sound base c w ∧ ∃ s, anchored base (history w.(file)) s ∧ remembers w.(state) s.

Definition triple {A} (P : World R Hl → Prop) (m : G R Hl A) (Q : A → World R Hl → Prop)
    (E : GuardianError → World R Hl → Prop) : Prop :=
  ∀ w, P w → match m w with (w', Ok a) => Q a w' | (w', Err e) => E e w' end.

Lemma triple_ret {A} (a : A) (P : World R Hl → Prop) Q E :
  (∀ w, P w → Q a w) → triple P (mret a) Q E.
Proof. intros HQ w Hw. by apply HQ. Qed.

Lemma triple_throw {A} e (P : World R Hl → Prop) (Q : A → World R Hl → Prop) E :
  (∀ w, P w → E e w) → triple P (throw e) Q E.
Proof. intros HQ w Hw. by apply HQ. Qed.

Lemma triple_bind {A B} P (m : G R Hl A) (k : A → G R Hl B) M Q E :
  triple P m M E → (∀ a, triple (M a) (k a) Q E) → triple P (m ≫= k) Q E.
Proof.
  intros Hm Hk w Hw. specialize (Hm w Hw). unfold mbind, G_bind.
  destruct (m w) as [w1 [a|e]]; [|done]. apply Hk, Hm.
Qed.

Lemma triple_weaken {A} (P P' : World R Hl → Prop) (m : G R Hl A) Q Q' E E' :
  triple P' m Q' E' → (∀ w, P w → P' w) → (∀ a w, Q' a w → Q a w) → (∀ e w, E' e w → E e w) →
  triple P m Q E.
Proof.
  intros Hm HP HQ HE w Hw. specialize (Hm w (HP w Hw)). destruct (m w) as [w1 [a|e]]; eauto.
Qed.

Lemma triple_pure {A} (phi : Prop) (P : World R Hl → Prop) (m : G R Hl A) Q E :
  (phi → triple P m Q E) → triple (λ w, P w ∧ phi) m Q E.
Proof. intros Hm w [Hw Hphi]. by apply Hm. Qed.

(** ** Anchors *)

Lemma anchored_refl base l : anchored base l (durable base l).
Proof. split; [apply durable_elem|by left]. Qed.

Lemma anchored_initial base s : anchored base [] s → s = base.
Proof. intros [Hs _]. set_solver. Qed.

Lemma anchored_snoc base l s t :
  anchored base l s → (s.(sequence) < t.(sequence))%N → anchored base (l ++ [t]) s.
Proof. intros [Hs _] Hlt. split; [set_solver|right; by rewrite durable_snoc]. Qed.

Lemma anchored_unsettled base l s :
  is_initial base → anchored base l s → settled s.(phase) = false → s ∈ l.
Proof. intros (v & now & ->) [[->|Hs]%elem_of_cons _] Hset; done. Qed.

Lemma anchored_consistent base l s :
  is_initial base → spec_path base l → anchored base l s → consistent s.
Proof.
  intros (v & now & ->) Hp [Hs _]. eapply Forall_forall; [|exact Hs].
  apply spec_path_consistent; [apply initial_consistent|done].
Qed.

(** The journal accepts a step of the protocol exactly from its last state. *)
Lemma validate_step base l s t :
  is_initial base → spec_path base l → anchored base l s → spec_step s t →
  match validate_loaded_state t (last l) with
  | Ok _ => s = durable base l
  | Err e => storage_error e = true
  end.
Proof.
  intros Hb Hp Ha Hst. assert (Hs := anchored_consistent _ _ _ Hb Hp Ha).
  destruct (spec_step_consistent _ _ Hst Hs) as [Hv _]. unfold validate_loaded_state.
  rewrite Hv. simpl. destruct (spec_step_advances _ _ Hst Hs) as (Hlt & _ & Htr).
  assert (t.(sequence) = s.(sequence) + 1)%N as Hseq by (by destruct Hst).
  destruct Ha as [Hin [->|Hlag]]; unfold durable in *; destruct (last l) as [d|] eqn:Hd; simpl in *.
  - rewrite (proj2 (N.leb_gt _ _) Hlt), (proj2 (N.ltb_ge _ _) Htr). done.
  - done.
  - by rewrite (proj2 (N.leb_le t.(sequence) d.(sequence))) by lia.
  - apply last_None in Hd as ->. apply list_elem_of_singleton in Hin as ->. lia.
Qed.

(** ** Transitions *)

Lemma transition_frame p now w :
  let w' := (transition p now w).1 in w'.(config) = w.(config) ∧ w'.(calls) = w.(calls).
Proof. unfold transition. case_match; [|done]. destruct (append _ _ _) as [f [[]|e]]; done. Qed.

(** A transition that the protocol allows is in the journal and in memory, or it is
    refused and the state in memory is as before, the new one possibly in the journal. *)
Lemma guardian_transition_triple base c s t p now :
  t.(sequence) = s.(sequence) → spec_step s (next p now t) →
  triple
    (λ w, sound base c w ∧ anchored base (history w.(file)) s ∧ w.(state) = t ∧
          evidence w.(calls) (next p now t))
    (transition p now)
    (λ _ w, at_state base c (next p now t) w ∧ last (history w.(file)) = Some (next p now t))
    (λ e w, storage_error e = true ∧ sound base c w ∧ anchored base (history w.(file)) s ∧
            w.(state) = t).
Proof.
  intros Hseq Hst w ([Hc Hr [Hb Hp] Hev Hcalls] & Ha & Ht & Hne).
  unfold transition. rewrite Ht, Hseq.
  destruct (u64_checked_add s.(sequence) 1) as [n|] eqn:Hn; [|done].
  apply u64_checked_add_Some in Hn as [-> Hn].
  assert (Hnext : next p now t = with_phase p (s.(sequence) + 1) now t) by (unfold next; by rewrite Hseq).
  rewrite <- Hnext. assert (Hok := append_spec (fault w) (next p now t) w.(file) Hr).
  assert (Herr := append_error (fault w) (next p now t) w.(file)).
  assert (Hval := validate_step _ _ _ _ Hb Hp Ha Hst).
  assert (Hlt : (s.(sequence) < (next p now t).(sequence))%N) by (rewrite Hnext; simpl; lia).
  destruct (append _ _ _) as [f r]. simpl in *.
  assert (He : ∀ e, r = Err e → storage_error e = true).
  { intros e He. destruct (Herr e Hr He) as [Hv|]; [by rewrite Hv in Hval|done]. }
  destruct Hok as [(Hrf & Hhist & Hv)|([e ->] & Hrf & Hhist)].
  - rewrite Hv in Hval. subst s.
    assert (sound base c (with_file f (drawn w))) as Hsound.
    { split; simpl; try done; rewrite Hhist; [|by apply Forall_app; split; [|apply Forall_singleton]].
      split; [done|by apply spec_path_snoc]. }
    destruct r as [[]|e].
    + split; [|simpl; by rewrite Hhist, last_snoc]. split; [by destruct Hsound|]. split; [|done].
      simpl. rewrite Hhist. rewrite <- (durable_snoc base (history w.(file)) (next p now t)) at 2.
      apply anchored_refl.
    + split_and!; [by apply He|done| |done]. simpl. rewrite Hhist. by apply anchored_snoc.
  - split_and!; [by apply He| | |done]; [split; simpl; by rewrite ?Hhist|simpl; by rewrite Hhist].
Qed.

(** What an operation can report: a failure of the journal, of the platform's observations
    or of the clock. *)
Definition env_error (e : GuardianError) : bool :=
  storage_error e ||
  match e with RuntimeError _ | HealthError _ | TimeOverflow => true | _ => false end.

Definition fails base c (e : GuardianError) w : Prop := env_error e = true ∧ at_rest base c w.

Lemma storage_env e : storage_error e = true → env_error e = true.
Proof. unfold env_error. by intros ->. Qed.

Lemma at_state_rest base c s w : at_state base c s w → at_rest base c w.
Proof. intros (Hs & Ha & Hst). split; [done|]. exists s. split; [done|by left]. Qed.

(** A transition of the protocol from the state in memory. *)
Lemma transition_step base c s p now :
  spec_step s (next p now s) →
  triple (λ w, at_state base c s w ∧ evidence w.(calls) (next p now s)) (transition p now)
    (λ _ w, at_state base c (next p now s) w ∧ last (history w.(file)) = Some (next p now s))
    (fails base c).
Proof.
  intros Hst. eapply triple_weaken; [by apply (guardian_transition_triple base c s s)| |done|].
  - by intros w ((? & ? & ->) & ?).
  - intros e w (He & Hs & Ha & Ht). split; [by apply storage_env|]. by eapply at_state_rest.
Qed.

Definition completes (p : GuardianPhase) : bool :=
  match p with Completed _ _ => true | _ => false end.

Lemma transition_simple base c s p now :
  completes p = false → spec_step s (next p now s) →
  triple (at_state base c s) (transition p now)
    (λ _ w, at_state base c (next p now s) w ∧ last (history w.(file)) = Some (next p now s))
    (fails base c).
Proof.
  intros Hp Hst. eapply triple_weaken; [by apply (transition_step base c s)| |done|done].
  intros w Hw. split; [done|]. intros i r Heq. simpl in Heq. by rewrite Heq in Hp.
Qed.

(** ** Calls of the platform *)

Lemma evidence_cons r cs s : evidence cs s → evidence (r :: cs) s.
Proof. intros He i b Hp. destruct (He i b Hp) as (r0 & ? & ?). exists r0. split; [by right|done]. Qed.

Lemma at_state_drawn base c s w : at_state base c s w → at_state base c s (drawn w).
Proof. intros ([] & ? & ?). done. Qed.

Lemma at_state_called base c s w r h fs rec :
  call_ok rec → at_state base c s w →
  at_state base c s {| config := w.(config); file := w.(file); state := w.(state);
    runtime := r; health := h; faults := fs; calls := rec :: w.(calls) |}.
Proof.
  intros Hrec ([] & ? & ?). split; [|done]. split; simpl; try done; [|by constructor].
  eapply Forall_impl; [done|]. intros ?. apply evidence_cons.
Qed.

Lemma interrupted_fails base c s w :
  at_state base c s w → fails base c Interrupted (drawn w).
Proof. intros Hw. split; [done|]. by eapply at_state_rest, at_state_drawn. Qed.

Lemma call_triple {A} base c s activity (k : result string A → Call) f :
  triple
    (λ w, at_state base c s w ∧ ∀ a, call_ok
       {| called := k a; call_admission := admission activity; call_file := w.(file) |})
    (call activity k f) (λ _, at_state base c s) (fails base c).
Proof.
  intros w [Hw Hk]. unfold call. destruct (fault w); try by apply (interrupted_fails _ _ s).
  destruct (f w.(runtime)) as [r a]. by apply at_state_called.
Qed.

Lemma call_health_triple base c s activity slot :
  triple
    (λ w, at_state base c s w ∧ ∀ a, call_ok
       {| called := CallHealth slot a; call_admission := admission activity;
          call_file := w.(file) |})
    (call_health activity slot)
    (λ a w, at_state base c s w ∧ ∃ r, r ∈ w.(calls) ∧ r.(called) = CallHealth slot a)
    (fails base c).
Proof.
  intros w [Hw Hk]. unfold call_health. destruct (fault w); try by apply (interrupted_fails _ _ s).
  destruct (observe slot w.(health)) as [h a]. split; [by apply at_state_called|].
  eexists. split; [by left|done].
Qed.

(** The phase in memory is in the journal while an update is under way. *)
Lemma at_state_journalled base c s w :
  at_state base c s w → settled s.(phase) = false → s ∈ history w.(file).
Proof. intros ([_ _ [Hb _] _ _] & Ha & _). by eapply anchored_unsettled. Qed.

Lemma at_state_consistent base c s w : at_state base c s w → consistent s.
Proof. intros ([_ _ [Hb Hp] _ _] & Ha & _). by eapply anchored_consistent. Qed.

Lemma get_command_triple base c s (F : World R Hl → Prop) :
  settled s.(phase) = false →
  triple (λ w, at_state base c s w ∧ F w) get_command
    (λ cmd w, (at_state base c s w ∧ F w) ∧ s.(command) = Some cmd) (fails base c).
Proof.
  intros Hs w [Hw HF]. destruct (at_state_consistent _ _ _ _ Hw) as [_ Hc].
  destruct (Hc Hs) as (cmd & Hcmd & _). unfold get_command.
  assert (w.(state) = s) as -> by apply Hw. by rewrite Hcmd.
Qed.

(** ** Advancing *)

(** A bound on the ready advances an update still takes. *)
Definition rank (c : GuardianConfig) (p : GuardianPhase) : nat :=
  let attempts_left n := N.to_nat (c.(max_health_attempts) - n) in
  match p with
  | AwaitingIdle _ => 5 + attempts_left 0%N
  | Staging => 2
  | Staged _ => 4 + attempts_left 0%N
  | Activating _ => 3 + attempts_left 0%N
  | HealthChecking _ _ _ n => 2 + attempts_left n
  | RollingBack _ _ => 1
  | Idle | Completed _ _ | RolledBack _ _ _ | Failed _ _ => 0
  end.

(** After an advance the process is in a state of the protocol, nearer to the end if the
    node was ready. *)
Definition progressed base c (activity : RuntimeActivity) (p : GuardianPhase)
    (_ : unit) w : Prop :=
  ∃ s, at_state base c s w ∧ (admission activity = Ready → rank c s.(phase) < rank c p).

Lemma transition_progress base c s p now activity from :
  completes p = false → spec_step s (next p now s) →
  (admission activity = Ready → rank c p < rank c from) →
  triple (at_state base c s) (transition p now) (progressed base c activity from) (fails base c).
Proof.
  intros Hp Hst Hrank. eapply triple_weaken; [by apply (transition_simple base c s)|done| |done].
  intros [] w [Hw _]. exists (next p now s). by split.
Qed.

Lemma begin_health_progress base c s plan now activity from :
  s.(phase) = Activating plan →
  (admission activity = Ready → rank c (Activating plan) ≤ rank c from) →
  triple (at_state base c s) (begin_health plan now) (progressed base c activity from)
    (fails base c).
Proof.
  intros Hp Hrank w Hw. unfold begin_health.
  assert (w.(config) = c ∧ config_ok c) as [-> [Hv _]] by apply Hw.
  destruct (i64_checked_add now c.(health_timeout_ms)) as [deadline|] eqn:Hd.
  - apply transition_progress with (s := s); [done| |intros Ha; specialize (Hrank Ha); simpl in *; lia|done].
    apply spec_activated; [done|]. unfold i64_checked_add in Hd. unfold validate_config in Hv.
    branches Hd. branches Hv. lia.
  - split; [done|by eapply at_state_rest].
Qed.

Lemma begin_rollback_progress base c s plan cause now activity from :
  (∀ cause, spec_step s (next (RollingBack plan cause) now s)) →
  (admission activity = Ready → 1 < rank c from) →
  triple (at_state base c s) (begin_rollback plan cause now) (progressed base c activity from)
    (fails base c).
Proof. intros Hst Hrank. by apply transition_progress. Qed.

Lemma advance_awaiting_progress base c s blocked activity now :
  s.(phase) = AwaitingIdle blocked →
  triple (at_state base c s) (advance_awaiting activity now)
    (progressed base c activity (AwaitingIdle blocked)) (fails base c).
Proof.
  intros Hp. unfold advance_awaiting. destruct (admission activity) as [|reason] eqn:Hadm.
  2: { apply transition_progress; [done|by eapply spec_waiting|by rewrite Hadm]. }
  eapply triple_bind; [by apply (transition_simple base c s); [|eapply spec_staging]|].
  intros []. set (s1 := next Staging now s).
  eapply triple_bind; [by apply (get_command_triple base c s1)|]. intros cmd.
  apply triple_pure. intros Hcmd. eapply triple_bind.
  { eapply triple_weaken; [apply (call_triple base c s1)| |done|done].
    intros w [Hw Hlast]. split; [done|]. intros _. split; [done|].
    exists s1. split_and!; [done..|]. by rewrite Hcmd. }
  intros [plan|detail].
  - case_decide.
    + apply transition_progress; [done|by eapply spec_staged|simpl; lia].
    + apply transition_progress; [done|by apply spec_stage_failed|simpl; lia].
  - apply transition_progress; [done|by apply spec_stage_failed|simpl; lia].
Qed.

(** The call of a phase that memory and journal agree on. *)
Lemma intent_triple {A} base c s activity (k : result string A → Call) f :
  settled s.(phase) = false →
  (∀ w a, s ∈ history w.(file) → call_ok
     {| called := k a; call_admission := admission activity; call_file := w.(file) |}) →
  triple (at_state base c s) (call activity k f) (λ _, at_state base c s) (fails base c).
Proof.
  intros Hs Hk. eapply triple_weaken; [apply (call_triple base c s)| |done|done].
  intros w Hw. split; [done|]. intros a. apply Hk. by eapply at_state_journalled.
Qed.

Lemma activate_progress base c s plan prefix activity now from :
  s.(phase) = Activating plan → admission activity = Ready →
  rank c (Activating plan) ≤ rank c from →
  triple (at_state base c s)
    (r ← call activity (λ _, CallActivate plan) (activate plan);
     match r with
     | Ok _ => begin_health plan now
     | Err detail => begin_rollback plan (prefix +:+ detail) now
     end) (progressed base c activity from) (fails base c).
Proof.
  intros Hp Hadm Hle. eapply triple_bind.
  { apply intent_triple; [by rewrite Hp|]. intros w _ Hin. split; [done|by exists s]. }
  intros [[]|detail]; [by eapply begin_health_progress|].
  apply begin_rollback_progress; [intros; by apply spec_not_activated|simpl in *; lia].
Qed.

Lemma advance_staged_progress base c s plan activity now :
  s.(phase) = Staged plan →
  triple (at_state base c s) (advance_staged plan activity now)
    (progressed base c activity (Staged plan)) (fails base c).
Proof.
  intros Hp. unfold advance_staged. destruct (admission activity) as [|reason] eqn:Hadm.
  2: { apply triple_ret. intros w Hw. exists s. by rewrite Hadm. }
  eapply triple_bind; [by apply (transition_simple base c s); [|apply spec_activating]|].
  intros []. eapply triple_weaken; [|intros w [Hw _]; exact Hw|done|done].
  eapply activate_progress; [done|done|]. simpl. lia.
Qed.

Lemma advance_activating_progress base c s plan activity now :
  s.(phase) = Activating plan →
  triple (at_state base c s) (advance_activating plan activity now)
    (progressed base c activity (Activating plan)) (fails base c).
Proof.
  intros Hp. unfold advance_activating. eapply triple_bind.
  { apply intent_triple; [by rewrite Hp|]. intros w _ Hin. by exists s. }
  intros [[| |]|reason].
  - destruct (admission activity) as [|reason] eqn:Hadm; [by eapply activate_progress|].
    apply triple_ret. intros w Hw. exists s. by rewrite Hadm.
  - by eapply begin_health_progress.
  - apply begin_rollback_progress; [intros; by apply spec_not_activated|simpl; lia].
  - apply triple_throw. intros w Hw. split; [done|by eapply at_state_rest].
Qed.

Lemma advance_rollback_progress base c s plan cause activity now :
  s.(phase) = RollingBack plan cause →
  triple (at_state base c s) (advance_rollback plan cause activity now)
    (progressed base c activity (RollingBack plan cause)) (fails base c).
Proof.
  intros Hp. unfold advance_rollback. eapply triple_bind.
  { apply intent_triple; [by rewrite Hp|]. intros w _ Hin. by exists s, cause. }
  intros [[]|detail].
  - apply transition_progress; [done|by apply spec_rolled_back|simpl; lia].
  - apply transition_progress; [done|by eapply spec_rollback_failed|simpl; lia].
Qed.

Lemma complete_progress base c s plan started deadline attempts cmd activity now :
  s.(phase) = HealthChecking plan started deadline attempts → s.(command) = Some cmd →
  triple
    (λ w, at_state base c s w ∧
          ∃ r, r ∈ w.(calls) ∧ r.(called) = CallHealth plan.(staged) (Ok Healthy))
    (complete plan cmd.(candidate).(metadata_version) now)
    (progressed base c activity (HealthChecking plan started deadline attempts)) (fails base c).
Proof.
  intros Hp Hcmd w [Hw Hr]. unfold complete.
  set (t := with_installed plan.(staged).(slot_version) cmd.(candidate).(metadata_version) s).
  assert (w.(state) = s) as Hws by apply Hw. rewrite Hws.
  assert (Ht := guardian_transition_triple base c s t (Completed plan.(staged) plan.(previous)) now eq_refl
    (spec_completed s plan started deadline attempts cmd now Hp Hcmd) (with_state t w)).
  destruct Hw as ([] & Ha & _).
  lapply Ht; [clear Ht; intros Ht|by split_and!; [..|intros i b [= <- <-]]].
  destruct (transition _ _ _) as [w' [[]|e]].
  - destruct Ht as [Hw' _]. eexists. split; [exact Hw'|]. simpl. lia.
  - destruct Ht as (He & [] & Ha' & _). split; [by apply storage_env|].
    split; [done|]. exists s. split; [done|by left].
Qed.

Lemma advance_health_progress base c s plan started deadline attempts activity now :
  s.(phase) = HealthChecking plan started deadline attempts →
  triple (at_state base c s) (advance_health plan started deadline attempts activity now)
    (progressed base c activity (HealthChecking plan started deadline attempts)) (fails base c).
Proof.
  intros Hp. unfold advance_health. eapply triple_bind.
  { eapply triple_weaken; [apply (call_health_triple base c s)| |done|done].
    intros w Hw. split; [done|]. intros a. exists s, plan, started, deadline, attempts.
    split_and!; [|done|done]. eapply at_state_journalled; [done|by rewrite Hp]. }
  intros [[| |reason]|reason].
  - intros w [Hw _]. assert (w.(config) = c ∧ config_ok c) as [-> [_ Hmax]] by apply Hw.
    destruct (Z.leb_spec deadline now); simpl;
      [|destruct (N.leb_spec c.(max_health_attempts) (u32_saturating_add attempts 1)) as [?|Hlt]].
    1,2: by apply begin_rollback_progress with (s := s);
      [intros; eapply spec_not_healthy|simpl; lia|].
    assert (u32_saturating_add attempts 1 = attempts + 1)%N as Heq
      by (unfold u32_saturating_add in *; lia).
    rewrite Heq in *. apply transition_progress with (s := s); [done| |simpl; lia|done].
    by apply spec_checking.
  - eapply triple_bind; [by apply (get_command_triple base c s); rewrite Hp|].
    intros cmd. apply triple_pure. intros Hcmd. by apply complete_progress.
  - eapply triple_weaken; [|intros w [Hw _]; exact Hw|done|done].
    apply begin_rollback_progress; [intros; by eapply spec_not_healthy|simpl; lia].
  - apply triple_throw. intros w [Hw _]. split; [done|by eapply at_state_rest].
Qed.

(** An advance of an update under way follows the protocol, and ends or nears its end when
    the node is ready. *)
Lemma advance_progress base c s activity now :
  settled s.(phase) = false →
  triple (at_state base c s) (advance activity now) (progressed base c activity s.(phase))
    (fails base c).
Proof.
  intros Hs w Hw. unfold advance. assert (w.(state) = s) as -> by apply Hw.
  destruct s.(phase) eqn:Hp; try done.
  - by apply advance_awaiting_progress with (s := s).
  - apply transition_progress with (s := s); [done|by apply spec_stage_failed|simpl; lia|done].
  - by apply advance_staged_progress with (s := s).
  - by apply advance_activating_progress with (s := s).
  - by apply advance_health_progress with (s := s).
  - by apply advance_rollback_progress with (s := s).
Qed.

Lemma advance_settled activity now w :
  settled w.(state).(phase) = true → advance activity now w = (w, Ok ()).
Proof. unfold advance. by destruct w.(state).(phase). Qed.

Lemma remembers_phase m s : remembers m s → m.(phase) = s.(phase).
Proof. by intros [->|(_ & c & ->)]. Qed.

Lemma remembers_unsettled m s : remembers m s → settled m.(phase) = false → m = s.
Proof. intros [->|(Hs & c & ->)] Hm; [done|]. simpl in Hm. by rewrite Hs in Hm. Qed.

Lemma at_rest_unsettled base c w :
  at_rest base c w → settled w.(state).(phase) = false → at_state base c w.(state) w.
Proof.
  intros (Hs & s & Ha & Hm) Hset. rewrite (remembers_unsettled _ _ Hm Hset). split; [done|].
  split; [done|]. by apply remembers_unsettled.
Qed.

Lemma advance_rests base c activity now w :
  at_rest base c w → at_rest base c (advance activity now w).1.
Proof.
  intros Hw. destruct (settled w.(state).(phase)) eqn:Hs; [by rewrite advance_settled|].
  assert (Ha := advance_progress base c _ activity now Hs w (at_rest_unsettled _ _ _ Hw Hs)).
  destruct (advance activity now w) as [w' [[]|e]]; [|by apply Ha].
  destruct Ha as (s' & Hs' & _). by eapply at_state_rest.
Qed.

Lemma version_le_false (a b : Version) : version_le a b = false → version_lt b a.
Proof. unfold version_le. rewrite negb_false_iff. apply bool_decide_eq_true_1. Qed.

Lemma request_rests base c cmd activity now w :
  at_rest base c w → at_rest base c (request cmd activity now w).1.
Proof.
  intros Hw. unfold request. destruct (validate_command cmd) as [[]|]; [|done].
  destruct (version_le _ _) eqn:Hrel; [done|].
  destruct (N.leb_spec (metadata_version (candidate cmd)) (trusted_metadata_version w.(state))) as [|Hmd];
    [done|].
  destruct (settled w.(state).(phase)) eqn:Hset; [|done]. simpl.
  destruct Hw as (Hs & s & Ha & Hm). apply version_le_false in Hrel.
  assert (with_command cmd w.(state) = with_command cmd s) as ->.
  { by destruct Hm as [->|(_ & c0 & ->)]. }
  assert (Hset' : settled s.(phase) = true) by (by rewrite <- (remembers_phase _ _ Hm)).
  set (b := match admission activity with Ready => None | BlockedBy reason => Some reason end).
  assert (Ht := guardian_transition_triple base c s (with_command cmd s) (AwaitingIdle b) now eq_refl).
  assert (installed_release w.(state) = s.(installed_release) ∧
          trusted_metadata_version w.(state) = s.(trusted_metadata_version)) as [Hi Hv]
    by (by destruct Hm as [->|(_ & c0 & ->)]).
  rewrite Hi in Hrel. rewrite Hv in Hmd.
  specialize (Ht (spec_requested s cmd b now Hset' Hrel Hmd) (with_state (with_command cmd s) w)).
  lapply Ht; [clear Ht; intros Ht|by split_and!; destruct Hs].
  destruct (transition _ _ _) as [w' [[]|e]]; simpl.
  - destruct Ht as [Hw' _]. by eapply at_state_rest.
  - destruct Ht as (_ & Hs' & Ha' & Hst). split; [done|]. exists s. split; [done|].
    right. split; [done|]. by exists cmd.
Qed.

(** ** Steps *)

Lemma restart_rests base c w c' installed now st :
  at_rest base c w → open_guardian c' w.(file) installed now = Ok st →
  (c'.(max_health_attempts) <= u32_max)%N →
  ∃ base', at_rest base' c' {| config := c'; file := w.(file); state := st;
    runtime := w.(runtime); health := w.(health); faults := w.(faults); calls := w.(calls) |}.
Proof.
  intros ([Hc [j Hj] [Hb Hp] Hev Hcalls] & _) Hopen Hmax. unfold open_guardian, load in Hopen.
  apply bind_Ok in Hopen as ([] & Hv & Hopen). rewrite Hj in Hopen. simpl in Hopen.
  destruct (read_journal_Ok _ _ Hj) as (_ & _ & Hlast & _). rewrite Hlast in Hopen.
  injection Hopen as <-. destruct (history w.(file)) as [|t l] eqn:Hh.
  - exists (initial_state installed now). split; [split; simpl; rewrite ?Hh; try done|].
    + by exists j.
    + split; [by exists installed, now|done].
    + exists (initial_state installed now). simpl. rewrite Hh. split; [apply (anchored_refl _ [])|by left].
  - exists base. split; [split; simpl; rewrite ?Hh; try done; by exists j|].
    exists (durable base (t :: l)). simpl. rewrite Hh. split; [apply anchored_refl|left].
    unfold durable. rewrite last_cons. by destruct (last l).
Qed.

Definition process_inv w : Prop := ∃ base c, at_rest base c w.

Lemma step_inv w w' : guardian_step w w' → process_inv w → process_inv w'.
Proof.
  intros Hst (base & c & Hw). destruct Hst as [cmd a now|a now|c' v now st Ho Hm|r h fs].
  - exists base, c. by apply request_rests.
  - exists base, c. by apply advance_rests.
  - destruct (restart_rests _ _ _ _ _ _ _ Hw Ho Hm) as [base' Hb]. by exists base', c'.
  - exists base, c. by destruct Hw as ([] & ?).
Qed.

Lemma reachable_inv w : guardian_reachable w → process_inv w.
Proof.
  intros (w0 & (Hf & Hc & Hv & Hm & v & now & Hst) & Hrtc).
  assert (process_inv w0) as Hinv.
  { exists (initial_state v now), w0.(config). split.
    - split; rewrite ?Hf, ?Hc; try done; [by eexists|]. split; [by exists v, now|done].
    - exists (initial_state v now). rewrite Hf, Hst. split; [apply (anchored_refl _ [])|by left]. }
  clear Hf Hc Hv Hm Hst v now.
  induction Hrtc as [|? ? ? Hs _ IH]; [done|]. by eapply IH, step_inv.
Qed.

(** ** The journal only grows *)

Definition grows w w' : Prop :=
  readable w.(file) → readable w'.(file) ∧ history w.(file) `prefix_of` history w'.(file).

Lemma grows_refl w w' : w'.(file) = w.(file) → grows w w'.
Proof. by intros Hf Hr; rewrite Hf. Qed.

Lemma grows_trans w1 w2 w3 : grows w1 w2 → grows w2 w3 → grows w1 w3.
Proof. intros H12 H23 Hr. destruct (H12 Hr) as [Hr2 ?], (H23 Hr2) as [? ?]. split; [done|by etrans]. Qed.

Definition growing {A} (m : G R Hl A) : Prop := ∀ w, grows w (m w).1.

Lemma growing_bind {A B} (m : G R Hl A) (k : A → G R Hl B) :
  growing m → (∀ a, growing (k a)) → growing (m ≫= k).
Proof.
  intros Hm Hk w. specialize (Hm w). unfold mbind, G_bind.
  destruct (m w) as [w1 [a|e]]; [|done]. eapply grows_trans; [done|apply Hk].
Qed.

Lemma growing_same {A} (m : G R Hl A) : (∀ w, (m w).1.(file) = w.(file)) → growing m.
Proof. intros Hm w. apply grows_refl, Hm. Qed.

Lemma growing_transition p now : growing (transition p now).
Proof.
  intros w Hr. unfold transition. case_match; [|done].
  assert (Ha := append_spec (fault w) (with_phase p n now w.(state)) w.(file) Hr).
  destruct (append _ _ _) as [f r].
  assert (readable f ∧ history w.(file) `prefix_of` history f).
  { destruct Ha as [(? & -> & _)|(_ & ? & ->)]; [|done]. split; [done|by apply prefix_app_r]. }
  by destruct r.
Qed.

Lemma growing_call {A} activity (k : result string A → Call) f : growing (call activity k f).
Proof. apply growing_same. intros w. unfold call. repeat case_match; done. Qed.
Lemma growing_call_health activity slot : growing (call_health activity slot).
Proof. apply growing_same. intros w. unfold call_health. repeat case_match; done. Qed.
Lemma growing_begin_health plan now : growing (begin_health plan now).
Proof. intros w. unfold begin_health. case_match; [apply growing_transition|by apply grows_refl]. Qed.
Lemma growing_complete plan v now : growing (complete plan v now).
Proof.
  intros w. unfold complete.
  assert (Ht := growing_transition (Completed plan.(staged) plan.(previous)) now
    (with_state (with_installed plan.(staged).(slot_version) v w.(state)) w)).
  by destruct (transition _ _ _) as [w' [[]|e]].
Qed.

#[local] Hint Resolve growing_transition growing_call growing_call_health growing_begin_health
  growing_complete : piqae.
#[local] Hint Extern 1 (growing (mret _)) => by apply growing_same : piqae.
#[local] Hint Extern 1 (growing (throw _)) => by apply growing_same : piqae.
#[local] Hint Extern 1 (growing get_command) => by apply growing_same : piqae.
#[local] Hint Extern 2 (growing (fail _ _ _)) => apply growing_transition : piqae.
#[local] Hint Extern 2 (growing (begin_rollback _ _ _)) => apply growing_transition : piqae.

Ltac growing_steps :=
  repeat first [apply growing_bind; [by auto with piqae|intros]|by auto with piqae|case_match|case_decide].

Lemma growing_advance activity now : growing (advance activity now).
Proof.
  intros w. unfold advance. destruct w.(state).(phase) as [| | |plan|plan|plan a b n|plan cause| | |];
    try (by apply grows_refl); revert w.
  - change (growing (advance_awaiting activity now)). unfold advance_awaiting. growing_steps.
  - apply growing_transition.
  - change (growing (advance_staged plan activity now)). unfold advance_staged. growing_steps.
  - change (growing (advance_activating plan activity now)). unfold advance_activating. growing_steps.
  - change (growing (advance_health plan a b n activity now)). unfold advance_health.
    apply growing_bind; [by auto with piqae|]. intros [[| |]|]; [|growing_steps..].
    intros w. case_match; apply growing_transition.
  - change (growing (advance_rollback plan cause activity now)). unfold advance_rollback. growing_steps.
Qed.

Lemma growing_request cmd activity now : growing (request cmd activity now).
Proof.
  intros w. unfold request. repeat case_match; try (by apply grows_refl).
  all: apply (growing_transition _ now (with_state (with_command cmd w.(state)) w)).
Qed.

Lemma step_grows w w' : guardian_step w w' → grows w w'.
Proof.
  intros [cmd a now|a now|c' v now st Ho Hm|r h fs];
    [apply growing_request|apply growing_advance|by apply grows_refl..].
Qed.
End process.
