(* ===== verification/GuardianClaims.v ===== *)
(** The theorems on the update guardian, and a demo that runs it: a node that updates
    through a torn append and a restart, on a concrete journal format, runtime and
    health check. *)
From S2P Require Import Prelude Domain Guardian GuardianMachine GuardianFacts GuardianSystem.
From stdpp Require Import pretty.

(** * Candidates *)

Section candidates.
Context `{VO : VersionOrder} `{!UpdateExternal}.

(** The bytes that successive reads deliver up to the first empty one. *)
Fixpoint delivered (reads : list (option bytes)) : bytes :=
  match reads with
  | Some (a :: chunk) :: rest => (a :: chunk) ++ delivered rest
  | _ => []
  end.

Lemma hash_reads_Ok maximum total hashed reads b :
  (total ≤ maximum)%N → hash_reads maximum total hashed reads = Ok b →
  b = hashed ++ delivered reads ∧ (total + blen (delivered reads) ≤ maximum)%N.
Proof.
  revert total hashed. induction reads as [|[[|x chunk]|] reads IH]; intros total hashed Ht; cbn.
  - intros [= <-]. rewrite app_nil_r. split; [done|]. unfold blen. simpl. lia.
  - intros [= <-]. rewrite app_nil_r. split; [done|]. unfold blen. simpl. lia.
  - destruct (u64_checked_add total _) as [n|] eqn:Hn; cbn; [|done].
    apply u64_checked_add_Some in Hn as [-> _]. destruct (N.ltb_spec maximum (total + blen (x :: chunk))); [done|].
    intros Hr. apply IH in Hr as [-> Hle]; [|done]. rewrite <- (assoc_L (++)). split; [done|].
    change (x :: chunk ++ delivered reads) with ((x :: chunk) ++ delivered reads).
    rewrite blen_app. lia.
  - done.
Qed.

Lemma sha256_file_Ok path maximum digest :
  sha256_file path maximum = Ok digest →
  ∃ reads, file_reads path = Some reads ∧ sha256_bytes (delivered reads) = digest ∧
    (blen (delivered reads) ≤ maximum)%N.
Proof.
  unfold sha256_file. rewrite bind_Ok. setoid_rewrite ok_or_Ok. intros (reads & Hr & Hd).
  destruct (hash_reads maximum 0 [] reads) as [b|] eqn:Hb; simplify_eq/=.
  destruct (hash_reads_Ok _ _ _ _ _ (N.le_0_l _) Hb) as [-> Hle]. by exists reads.
Qed.

Lemma verify_Ok m key trusted installed now :
  verify m key trusted installed now = Ok () →
  m.(md_key_id) = key_id key ∧ (now < m.(md_signed).(md_expires_at))%Z ∧
  Forall (λ t, is_sha256 t.(tg_sha256) = true ∧ String.prefix "https://" t.(tg_url) = true)
    m.(md_signed).(md_targets) ∧
  ∃ payload signature, metadata_json m.(md_signed) = Some payload ∧
    decode_signature m.(md_signature) = Some signature ∧
    verify_signature key payload signature = true.
Proof.
  unfold verify. destruct (String.eqb_spec m.(md_key_id) (key_id key)) as [Hk|]; [|done]. simpl.
  destruct (Z.leb_spec m.(md_signed).(md_expires_at) now); [done|].
  case_match; [done|]. case_match; [done|]. case_match; [done|].
  rewrite bind_Ok. intros ([] & Ht & Hrest).
  apply bind_Ok in Hrest as (payload & Hp%ok_or_Ok & Hrest).
  apply bind_Ok in Hrest as (signature & Hs%ok_or_Ok & Hrest). case_match; [|done].
  split_and!; [done..| |by exists payload, signature].
  clear -Ht. induction m.(md_signed).(md_targets) as [|t l IH]; simpl in Ht; [done|].
  destruct (is_sha256 _) eqn:Hsha; [|done]. destruct (String.prefix _ _) eqn:Hurl; [|done].
  constructor; [done|by apply IH].
Qed.

(** A candidate that [verify_candidate] accepts is trusted end to end: the metadata
    carry a signature of the trusted key on their JSON, have not expired and are targets
    metadata; their version and release are newer than the trusted and the installed ones;
    exactly one of their targets is for this platform, the bytes of the local file have
    its digest and are within the bound, the platform accepts the file, and the candidate
    passes the revalidation that precedes staging as long as the file stays as it is. *)
Theorem verified_candidate_is_trusted (q : CandidateVerification) (c : VerifiedCandidate) :
  verify_candidate q = Ok c →
  let d := q.(cv_metadata).(md_signed) in
  let maximum := q.(cv_config).(max_artifact_bytes) in
  (∃ payload signature, metadata_json d = Some payload ∧
     decode_signature q.(cv_metadata).(md_signature) = Some signature ∧
     verify_signature q.(cv_trusted_key) payload signature = true) ∧
  q.(cv_metadata).(md_key_id) = key_id q.(cv_trusted_key) ∧
  (q.(cv_now) < d.(md_expires_at))%Z ∧ d.(md_role) = RoleTargets ∧
  c.(release) = d.(md_release) ∧ version_lt q.(cv_installed_release) c.(release) ∧
  c.(metadata_version) = d.(md_version) ∧
  (q.(cv_trusted_metadata_version) < c.(metadata_version))%N ∧
  (∃ target reads, matching_targets q.(cv_config) d.(md_targets) = [target] ∧
     String.prefix "https://" target.(tg_url) = true ∧
     file_reads q.(cv_artifact_path) = Some reads ∧
     sha256_bytes (delivered reads) = target.(tg_sha256) ∧
     (blen (delivered reads) ≤ maximum)%N ∧
     verify_platform_signature q.(cv_artifact_path) target = Ok ()) ∧
  revalidate_local_artifact c maximum = Ok ().
Proof.
  unfold verify_candidate. rewrite bind_Ok. intros ([] & Hcfg & Hrest).
  apply bind_Ok in Hrest as ([] & Hv & Hrest).
  destruct (verify _ _ _ _ _) as [[]|] eqn:Hver in Hv; [|done]. clear Hv.
  apply verify_Ok in Hver as (Hk & Hexp & Ht & Hsig).
  destruct (bool_decide _) eqn:Hrole in Hrest; [|done]. apply bool_decide_eq_true_1 in Hrole.
  simpl in Hrest.
  destruct (N.leb_spec (md_version (md_signed (cv_metadata q))) (cv_trusted_metadata_version q)) as [|Hmv]
    in Hrest; [done|].
  destruct (version_le _ _) eqn:Hrel in Hrest; [done|]. apply version_le_false in Hrel.
  destruct (matching_targets _ _) as [|target [|]] eqn:Hm in Hrest; [done| |done].
  apply bind_Ok in Hrest as ([] & Hart & Hrest). apply bind_Ok in Hrest as (digest & Hd & Hrest).
  destruct (String.eqb_spec digest target.(tg_sha256)) as [->|] in Hrest; [|done]. simpl in Hrest.
  apply bind_Ok in Hrest as ([] & Hps & [= <-]).
  destruct (verify_platform_signature _ _) as [[]|] eqn:Hplat in Hps; [|done]. clear Hps.
  assert (Hin : target ∈ md_targets (md_signed (cv_metadata q))).
  { assert (target ∈ matching_targets (cv_config q) (md_targets (md_signed (cv_metadata q)))) as Hin.
    { rewrite Hm. by left. }
    by apply list_elem_of_filter in Hin as [_ ?]. }
  rewrite Forall_forall in Ht. destruct (Ht _ Hin) as [_ Hurl].
  destruct (sha256_file_Ok _ _ _ Hd) as (reads & Hreads & Hsha & Hle). simpl.
  split_and!; [done..| |].
  - by exists target, reads.
  - unfold revalidate_local_artifact. simpl. rewrite Hart. simpl. rewrite Hd. simpl.
    by rewrite String.eqb_refl.
Qed.
End candidates.

(** * The journal *)

Section journal_claims.
Context `{VO : VersionOrder} `{!JournalFormat} `{!JournalFormatLaws}.

Lemma load_Ok f prior : load f = Ok prior ↔ readable f ∧ prior = last (history f).
Proof.
  unfold load, readable. rewrite bind_Ok. split.
  - intros (j & Hj & [= <-]). split; [by exists j|]. by apply read_journal_Ok in Hj as (_ & _ & -> & _).
  - intros ([j Hj] & ->). exists j. split; [done|].
    by apply read_journal_Ok in Hj as (_ & _ & -> & _).
Qed.

(** An append to a readable journal is atomic and durable whatever happens in the
    middle of it: afterwards the journal reads as the state it had or as the appended
    one, never as an error or as anything else; it reads as the appended state whenever
    the append reported success; and a valid, small enough state is always appended when
    nothing fails and the journal has room. *)
Theorem append_is_atomic (fault : Fault) (st : GuardianState) (f : option bytes)
    (prior : option GuardianState) :
  load f = Ok prior →
  let '(g, r) := append fault st f in
  (load g = Ok prior ∨ load g = Ok (Some st)) ∧
  (r = Ok () → load g = Ok (Some st)) ∧
  (∀ b, fault = Fine → validate_loaded_state st prior = Ok () → encode st = Ok b →
     (blen b ≤ MAX_JOURNAL_RECORD_BYTES)%N →
     (blen (default [] f) + blen b ≤ MAX_JOURNAL_BYTES)%N → r = Ok ()).
Proof.
  intros [Hf ->]%load_Ok. assert (Ha := append_spec fault st f Hf).
  destruct (append fault st f) as [g r] eqn:Happ. split_and!.
  - destruct Ha as [(Hg & Hh & _)|(_ & Hg & Hh)]; [right|left]; apply load_Ok; rewrite Hh;
      [by rewrite last_snoc|done].
  - intros ->. destruct Ha as [(Hg & Hh & _)|([e ?] & _)]; [|done].
    apply load_Ok. by rewrite Hh, last_snoc.
  - intros b -> Hv Hb Hrec Hroom. destruct Hf as [j Hj].
    assert (Hk := drop_torn_kept f j Hj). destruct (read_journal_Ok _ _ Hj) as (_ & _ & Hl & _).
    revert Happ. unfold append. rewrite Hj. simpl. rewrite Hl, Hv. simpl. rewrite Hb. simpl.
    rewrite (proj2 (N.ltb_ge _ _) Hrec), Hk. simpl.
    destruct (N.ltb_spec MAX_JOURNAL_BYTES (u64_saturating_add (blen (kept_bytes f)) (blen b)));
      [|by intros [= <- <-]].
    destruct (complete_lines_eq (default [] f)) as (Heq & _). rewrite Heq, blen_app in Hroom.
    unfold u64_saturating_add, kept_bytes in *. lia.
Qed.
End journal_claims.

(** * The process *)

Section process_claims.
Context `{VO : VersionOrder} `{!VersionLaws} `{!JournalFormat} `{!JournalFormatLaws}.
Context {R Hl : Type} `{!RuntimeManager R, !RuntimeHealth Hl}.
Implicit Types (w : World R Hl).

(** C8: The guardian implements the update protocol: through failed and torn appends,
    interrupted calls of the platform, restarts and whatever the platform answers, the
    states in its journal form a run of the abstract protocol [spec_step] from an initial
    state; the state in memory is the last of that run, or an earlier one that the journal
    no longer extends, up to the command of a refused request while no update is under
    way. *)
Theorem journal_refines_protocol w :
  guardian_reachable w →
  ∃ base, is_initial base ∧ spec_path base (history w.(file)) ∧
    ∃ s, anchored base (history w.(file)) s ∧ remembers w.(state) s.
Proof.
  intros (base & c & [_ _ [Hb Hp] _ _] & s & Ha & Hm)%reachable_inv. exists base.
  split_and!; [done..|by exists s].
Qed.

(** C9: The platform acts only on intents that are already in the journal: a candidate is
    staged only when the last record is the staging of that candidate, a plan is activated
    only when a record activates it, and rolled back only when a record rolls it back; a
    stage and an activation happen only while the node admits an update (paused, no job
    queued or active, no handoff and no profile edit in progress). *)
Theorem platform_acts_on_intents w :
  guardian_reachable w → Forall call_ok w.(calls).
Proof. by intros (base & c & [] & _)%reachable_inv. Qed.

(** Updates never go back: in the order of the journal the sequence of the states
    increases, the trusted metadata version never decreases and the installed release
    stays or becomes newer, across any number of updates, rollbacks and restarts; and while
    an update is under way its command, and every plan, is for a newer release and newer
    metadata than those installed. *)
Theorem releases_never_go_back w :
  guardian_reachable w →
  StronglySorted advances (history w.(file)) ∧ Forall consistent (history w.(file)).
Proof.
  intros (base & c & [_ _ [(v & now & ->) Hp] _ _] & _)%reachable_inv.
  assert (Hb := initial_consistent v now). split.
  - by apply (spec_path_sorted _ _ Hb), StronglySorted_inv in Hp as [? _].
  - by apply (spec_path_consistent _ _ Hb), Forall_cons in Hp as [_ ?].
Qed.

(** An update is recorded as completed only after a health check found the very
    runtime that it installed healthy. *)
Theorem completed_update_was_healthy w st installed rollback :
  guardian_reachable w → st ∈ history w.(file) → st.(phase) = Completed installed rollback →
  ∃ r, r ∈ w.(calls) ∧ r.(called) = CallHealth installed (Ok Healthy).
Proof.
  intros (base & c & [_ _ _ Hev _] & _)%reachable_inv Hst Hp.
  rewrite Forall_forall in Hev. by eapply Hev.
Qed.

(** The guardian can always be reopened: the journal it leaves behind, whatever
    append was cut short, is never refused as corrupt, and reopening resumes its last
    durable state. *)
Theorem guardian_always_reopens w c installed now :
  guardian_reachable w → validate_config c = Ok () →
  open_guardian c w.(file) installed now =
    Ok (default (initial_state installed now) (last (history w.(file)))).
Proof.
  intros (base & c0 & [_ Hr _ _ _] & _)%reachable_inv Hc. unfold open_guardian. rewrite Hc. simpl.
  by rewrite (proj2 (load_Ok w.(file) _) (conj Hr eq_refl)).
Qed.

(** ** Termination *)

(** Successive advances, as the caller's loop makes them. *)
Fixpoint advance_all (l : list (RuntimeActivity * Z)) w : World R Hl * list (result GuardianError unit) :=
  match l with
  | [] => (w, [])
  | (activity, now) :: l =>
    let '(w1, r) := advance activity now w in
    let '(w2, rs) := advance_all l w1 in (w2, r :: rs)
  end.

Lemma advance_all_settled l w :
  settled w.(state).(phase) = true → (advance_all l w).1 = w.
Proof.
  intros Hs. induction l as [|[a now] l IH]; [done|]. simpl. rewrite advance_settled by done.
  by destruct (advance_all l w).
Qed.

Lemma advance_all_terminates base c l w :
  at_rest base c w → Forall (λ x, admission x.1 = Ready) l →
  rank c w.(state).(phase) ≤ length l →
  settled (advance_all l w).1.(state).(phase) = true ∨
  ∃ e, Err e ∈ (advance_all l w).2 ∧ env_error e = true.
Proof.
  revert w. induction l as [|[a now] l IH]; intros w Hw Hall Hle.
  { left. simpl in *. by destruct w.(state).(phase); simpl in *; try lia. }
  destruct (settled w.(state).(phase)) eqn:Hs; [left; by rewrite advance_all_settled|].
  assert (Ha := advance_progress base c _ a now Hs w (at_rest_unsettled _ _ _ Hw Hs)).
  apply Forall_cons in Hall as [Hadm Hall]. simpl.
  destruct (advance a now w) as [w1 [[]|e]].
  - destruct Ha as (s & Hs1 & Hrank). specialize (Hrank Hadm).
    assert (w1.(state) = s) as Heq by apply Hs1. simpl in Hle.
    destruct (IH w1) as [Hdone|(e & He & Henv)]; [by eapply at_state_rest|done|rewrite Heq; lia|..].
    + left. by destruct (advance_all l w1).
    + right. exists e. destruct (advance_all l w1). split; [by right|done].
  - right. exists e. destruct (advance_all l w1). split; [by left|apply Ha].
Qed.

(** C34: An update ends: from any reachable state, [max_health_attempts + 5] advances of a
    ready node bring the guardian to a phase in which no update is under way, unless one
    of them reported an error of the journal, of the platform's observations or of the
    clock; the guardian never loops and never waits for anything else. *)
Theorem update_terminates w l :
  guardian_reachable w → Forall (λ x, admission x.1 = Ready) l →
  N.to_nat w.(config).(max_health_attempts) + 5 ≤ length l →
  settled (advance_all l w).1.(state).(phase) = true ∨
  ∃ e, Err e ∈ (advance_all l w).2 ∧ env_error e = true.
Proof.
  intros (base & c & Hw)%reachable_inv Hall Hle. eapply advance_all_terminates; [done|done|].
  assert (w.(config) = c) as Hc by apply Hw. rewrite Hc in Hle.
  destruct w.(state).(phase); simpl; lia.
Qed.

(** A journal has a bounded life: no operation removes or replaces a record, so the
    durable sequence is the number of records; there are never more than
    [MAX_JOURNAL_BYTES] of them, a limit that every blocked advance of a waiting update
    comes nearer to, since it appends a record. *)
Theorem journal_life_is_bounded w w' :
  guardian_reachable w → guardian_step w w' →
  history w.(file) `prefix_of` history w'.(file) ∧
  (default 0 (sequence <$> last (history w'.(file))) = N.of_nat (length (history w'.(file))))%N ∧
  (N.of_nat (length (history w'.(file))) ≤ MAX_JOURNAL_BYTES)%N ∧
  (∀ activity now blocked reason,
     w.(state).(phase) = AwaitingIdle blocked → admission activity = BlockedBy reason →
     (advance activity now w).2 = Ok () →
     length (history (advance activity now w).1.(file)) = S (length (history w.(file)))).
Proof.
  intros Hw Hst. apply reachable_inv in Hw as Hinv.
  destruct (step_inv _ _ Hst Hinv) as (base' & c' & [_ Hr' [(v & t & ->) Hp'] _ _] & _).
  destruct Hinv as (base & c & Hrest). destruct (step_grows _ _ Hst) as [_ Hpre]; [by apply Hrest|].
  split_and!; [done| |by apply history_length|].
  - apply spec_path_sequence in Hp'. unfold durable in Hp'.
    destruct (last (history w'.(file))) as [s|] eqn:Hlast; simpl in *; [lia|].
    by apply last_None in Hlast as ->.
  - intros activity now blocked reason Hph Hadm. unfold advance. rewrite Hph.
    unfold advance_awaiting. rewrite Hadm. unfold transition.
    destruct (u64_checked_add _ _) as [n|]; [|done].
    assert (Ha := append_spec (fault w) (with_phase (AwaitingIdle (Some reason)) n now w.(state)) w.(file)).
    destruct (append _ _ _) as [f [[]|e]]; [|done]. intros _. simpl.
    destruct Ha as [(_ & -> & _)|([e ?] & _)]; [by apply Hrest| |done]. rewrite length_app. simpl. lia.
Qed.
End process_claims.

(** * A demo *)

Module GuardianDemo.

#[export] Instance version : VersionOrder := {| Version := nat; version_lt := lt |}.
#[export] Instance version_laws : VersionLaws := {| version_strict := _ |}.

Definition v1 : @Version version := 1%nat.
Definition v2 : @Version version := 2%nat.

(** A text format: numbers in unary, fields separated by commas.  A state that would not
    read back is not written. *)
Fixpoint tally (n : nat) : string := match n with O => "" | S n => "i" +:+ tally n end.
Definition untally (s : string) : nat := String.length s.
Fixpoint join (l : list string) : string :=
  match l with [] => "" | [s] => s | s :: l => s +:+ "," +:+ join l end.
Fixpoint split_at (c : ascii) (s : string) : list string :=
  match s with
  | String.EmptyString => [""]
  | String.String a s =>
    if Ascii.eqb a c then "" :: split_at c s else
    match split_at c s with
    | [] => [String.String a ""]
    | w :: ws => String.String a w :: ws
    end
  end.

Definition block_name (b : option AdmissionBlock) : string :=
  match b with
  | None => "-" | Some NotPaused => "p" | Some QueuedJobs => "q" | Some ActiveJobs => "a"
  | Some SpoolerHandoff => "h" | Some ProfileEdit => "e"
  end.
Definition block_of (s : string) : option AdmissionBlock :=
  find_first (λ b, block_name (Some b) = s) [NotPaused; QueuedJobs; ActiveJobs; SpoolerHandoff; ProfileEdit].

Definition slot_fields (s : RuntimeSlot) : list string := [tally s.(slot_version); s.(locator)].
Definition plan_fields (p : RuntimePlan) : list string := slot_fields p.(staged) ++ slot_fields p.(previous).
Definition phase_fields (p : GuardianPhase) : list string :=
  match p with
  | Idle => ["I"]
  | AwaitingIdle b => ["A"; block_name b]
  | Staging => ["S"]
  | Staged plan => "T" :: plan_fields plan
  | Activating plan => "V" :: plan_fields plan
  | HealthChecking plan a b n =>
    "H" :: plan_fields plan ++ [tally (Z.to_nat a); tally (Z.to_nat b); tally (N.to_nat n)]
  | RollingBack plan cause => "R" :: plan_fields plan ++ [cause]
  | Completed i r => "C" :: slot_fields i ++ slot_fields r
  | RolledBack r v cause => "B" :: slot_fields r ++ [tally v; cause]
  | Failed code detail => ["F"; code; detail]
  end.

Definition slot (v l : string) : RuntimeSlot := {| slot_version := untally v; locator := l |}.
Definition plan (a b c d : string) : RuntimePlan := {| staged := slot a b; previous := slot c d |}.
Definition phase_of (l : list string) : option GuardianPhase :=
  match l with
  | ["I"] => Some Idle
  | ["A"; b] => Some (AwaitingIdle (block_of b))
  | ["S"] => Some Staging
  | ["T"; a; b; c; d] => Some (Staged (plan a b c d))
  | ["V"; a; b; c; d] => Some (Activating (plan a b c d))
  | ["H"; a; b; c; d; e; f; n] => Some (HealthChecking (plan a b c d) (Z.of_nat (untally e))
      (Z.of_nat (untally f)) (N.of_nat (untally n)))
  | ["R"; a; b; c; d; cause] => Some (RollingBack (plan a b c d) cause)
  | ["C"; a; b; c; d] => Some (Completed (slot a b) (slot c d))
  | ["B"; a; b; v; cause] => Some (RolledBack (slot a b) (untally v) cause)
  | ["F"; code; detail] => Some (Failed code detail)
  | _ => None
  end.

Definition command_fields (c : option UpdateCommand) : list string :=
  match c with
  | None => ["-"; ""; ""; ""; ""; ""; ""]
  | Some c => let d := c.(candidate) in
    [c.(command_id); tally (Z.to_nat c.(requested_at_unix_ms)); tally d.(release);
     tally (N.to_nat d.(metadata_version)); d.(artifact_path); d.(artifact_sha256);
     tally (N.to_nat d.(artifact_length))]
  end.
Definition command_of (i t r m p s n : string) : option UpdateCommand :=
  if String.eqb i "-" then None else
  Some {| command_id := i; requested_at_unix_ms := Z.of_nat (untally t);
          candidate := {| release := untally r; metadata_version := N.of_nat (untally m);
                          artifact_path := p; artifact_sha256 := s;
                          artifact_length := N.of_nat (untally n) |} |}.

Definition write (st : GuardianState) : string :=
  join ([tally (N.to_nat st.(schema_version)); tally (N.to_nat st.(sequence));
         tally st.(installed_release); tally (N.to_nat st.(trusted_metadata_version));
         tally (Z.to_nat st.(updated_at_unix_ms))] ++
        command_fields st.(command) ++ phase_fields st.(phase)).
Definition read (s : string) : option GuardianState :=
  match split_at (Ascii.ascii_of_N 44) s with
  | v :: q :: r :: m :: u :: c1 :: c2 :: c3 :: c4 :: c5 :: c6 :: c7 :: rest =>
    p ← phase_of rest;
    Some {| schema_version := N.of_nat (untally v); sequence := N.of_nat (untally q);
            installed_release := untally r; trusted_metadata_version := N.of_nat (untally m);
            command := command_of c1 c2 c3 c4 c5 c6 c7; phase := p;
            updated_at_unix_ms := Z.of_nat (untally u) |}
  | _ => None
  end.

#[export] Instance format : JournalFormat := {|
  state_to_json st := if decide (read (write st) = Some st) then Some (write st) else None;
  state_from_json := read;
  record_to_json p h :=
    let b := String.list_ascii_of_string (p +:+ "#" +:+ h) in
    if decide ((newline ∉ b) ∧ split_at (Ascii.ascii_of_N 35) (p +:+ "#" +:+ h) = [p; h])
    then Some b else None;
  record_from_json b :=
    match split_at (Ascii.ascii_of_N 35) (String.string_of_list_ascii b) with
    | [p; h] => Some (p, h)
    | _ => None
    end;
  sha256_text _ := "digest";
|}.

#[export] Instance format_laws : JournalFormatLaws.
Proof.
  split.
  - intros st p Hp. simpl in *. case_decide as Hr; simplify_eq. exact Hr.
  - intros p h b Hb. simpl in *. case_decide as Hr; simplify_eq.
    rewrite String.string_of_list_ascii_of_string. by destruct Hr as [_ ->].
  - intros p h b Hb. simpl in *. case_decide as Hr; simplify_eq. apply Hr.
Qed.

(** The runtime is the slot that is active; the health check answers from a list. *)
#[export] Instance slot_runtime : RuntimeManager RuntimeSlot := {|
  stage c r := (r, Ok {| staged := {| slot_version := c.(release); locator := "new" |}; previous := r |});
  activate p r := (p.(staged), Ok ());
  observe_activation p r := (r, Ok (if decide (r = p.(staged)) then Activated else NotActivated));
  restore_previous p r := (p.(previous), Ok ());
|}.
#[export] Instance list_health : RuntimeHealth (list HealthObservation) := {|
  observe s l := match l with [] => (l, Ok Pending) | o :: l => (l, Ok o) end;
|}.

Definition cfg : GuardianConfig :=
  {| cfg_platform := "linux"; cfg_architecture := "x86_64"; max_artifact_bytes := 100;
     health_timeout_ms := 9; max_health_attempts := 3 |}.
Definition ready : RuntimeActivity :=
  {| paused := true; queued_jobs := 0; active_jobs := 0; handoff_in_progress := false;
     profile_edit_active := false |}.
Definition busy : RuntimeActivity :=
  {| paused := true; queued_jobs := 1; active_jobs := 0; handoff_in_progress := false;
     profile_edit_active := false |}.
Definition cmd : UpdateCommand :=
  {| command_id := "u"; requested_at_unix_ms := 1;
     candidate := {| release := v2; metadata_version := 1; artifact_path := "f";
                     artifact_sha256 := "s"; artifact_length := 4 |} |}.

Definition DemoWorld := World RuntimeSlot (list HealthObservation).
Definition start : DemoWorld :=
  {| config := cfg; file := None; state := initial_state v1 0;
     runtime := {| slot_version := v1; locator := "old" |}; health := []; faults := [];
     calls := [] |}.

(** The update is requested; the record of the staged plan is torn after twenty bytes; the
    process restarts, and the update fails as interrupted. *)
Definition requested : DemoWorld := (request cmd busy 1 start).1.
Definition unlucky : DemoWorld :=
  {| config := requested.(config); file := requested.(file); state := requested.(state);
     runtime := requested.(runtime); health := [Pending; Healthy];
     faults := [Fine; Fine; Torn 20]; calls := requested.(calls) |}.
Definition torn : DemoWorld := (advance ready 2 unlucky).1.
Definition reopened (w : DemoWorld) : DemoWorld :=
  {| config := cfg; file := w.(file);
     state := get_ok (open_guardian cfg w.(file) v1 3) w.(state);
     runtime := w.(runtime); health := w.(health); faults := w.(faults); calls := w.(calls) |}.
Definition interrupted : DemoWorld := (advance ready 3 (reopened torn)).1.

(** A second request is staged, activated, pending once and then healthy. *)
Definition again : DemoWorld := (request cmd ready 4 interrupted).1.
Definition ready_at (l : list Z) : list (RuntimeActivity * Z) := (λ t, (ready, t)) <$> l.
Definition staged_world : DemoWorld := (advance ready 5 again).1.
Definition checking : DemoWorld := (advance ready 6 staged_world).1.
Definition pending : DemoWorld := (advance ready 7 (reopened checking)).1.
Definition done_world : DemoWorld := (advance ready 8 pending).1.

Lemma start_initial : guardian_initial start.
Proof. split_and!; [done..|]. by exists v1, 0%Z. Qed.

Lemma reopened_step w :
  is_ok (open_guardian cfg w.(file) v1 3) = true → guardian_step w (reopened w).
Proof.
  intros Hok. apply (step_restart w cfg v1 3); [|done].
  by destruct (open_guardian _ _ _ _).
Qed.

Lemma torn_reopens : is_ok (open_guardian cfg torn.(file) v1 3) = true.
Proof. vm_compute. reflexivity. Qed.
Lemma checking_reopens : is_ok (open_guardian cfg checking.(file) v1 3) = true.
Proof. vm_compute. reflexivity. Qed.
Lemma done_phase :
  option_map phase (last (history done_world.(file))) =
    Some (Completed {| slot_version := v2; locator := "new" |}
                    {| slot_version := v1; locator := "old" |}).
Proof. vm_compute. reflexivity. Qed.

Lemma done_reachable : guardian_reachable done_world.
Proof.
  exists start. split; [apply start_initial|].
  apply (rtc_l _ _ requested); [apply (step_request start)|].
  apply (rtc_l _ _ unlucky); [apply (step_platform requested)|].
  apply (rtc_l _ _ torn); [apply (step_advance unlucky)|].
  apply (rtc_l _ _ (reopened torn)); [apply reopened_step, torn_reopens|].
  apply (rtc_l _ _ interrupted); [apply (step_advance (reopened torn))|].
  apply (rtc_l _ _ again); [apply (step_request interrupted)|].
  apply (rtc_l _ _ staged_world); [apply (step_advance again)|].
  apply (rtc_l _ _ checking); [apply (step_advance staged_world)|].
  apply (rtc_l _ _ (reopened checking)); [apply reopened_step, checking_reopens|].
  apply (rtc_l _ _ pending); [apply (step_advance (reopened checking))|].
  apply (rtc_l _ _ done_world); [apply (step_advance pending)|done].
Qed.

Lemma requested_reachable : guardian_reachable requested.
Proof. exists start. split; [apply start_initial|]. apply rtc_once, (step_request start). Qed.

(** A target, signed metadata and an artifact of four bytes. *)
Definition target : UpdateTarget :=
  {| tg_platform := "linux"; tg_architecture := "x86_64"; tg_url := "https://updates";
     tg_sha256 := "0123456789abcdef0123456789abcdef0123456789abcdef0123456789abcdef";
     tg_length := 4 |}.
#[export] Instance external : UpdateExternal := {|
  VerifyingKey := unit; key_bytes _ := []; metadata_json _ := Some "payload";
  decode_signature s := Some s; verify_signature _ p s := String.eqb (p +:+ "!") s;
  symlink_metadata _ := Some {| is_symlink := false; is_file := true; file_len := 4 |};
  file_reads _ := Some [Some (String.list_ascii_of_string "abcd"); Some []];
  sha256_bytes _ := target.(tg_sha256); verify_platform_signature _ _ := Ok ();
|}.
Definition verification : CandidateVerification :=
  {| cv_metadata :=
       {| md_key_id := "0123456789abcdef0123456789abcdef";
          md_signed := {| md_role := RoleTargets; md_version := 1; md_expires_at := 9;
                          md_channel := Stable; md_release := v2; md_rollout_percent := 100;
                          md_targets := [target] |};
          md_signature := "payload!" |};
     cv_trusted_key := (); cv_trusted_metadata_version := 0; cv_installed_release := v1;
     cv_now := 1; cv_config := cfg; cv_artifact_path := "f" |}.
Definition verified : VerifiedCandidate :=
  {| release := v2; metadata_version := 1; artifact_path := "f";
     artifact_sha256 := target.(tg_sha256); artifact_length := 4 |}.

Lemma verified_candidate_is_trusted_witness :
  verify_candidate verification = Ok verified ∧
  revalidate_local_artifact verified 100 = Ok ().
Proof.
  assert (Hv : verify_candidate verification = Ok verified) by (vm_compute; reflexivity).
  split; [exact Hv|]. apply (verified_candidate_is_trusted verification verified Hv).
Defined.

(** Eight bytes of the next record reach the file. *)
Lemma append_is_atomic_witness :
  load requested.(file) = Ok (Some requested.(state)) ∧
  let '(g, r) := append (Torn 8) (next Staging 2 requested.(state)) requested.(file) in
  load g = Ok (Some requested.(state)) ∨ load g = Ok (Some (next Staging 2 requested.(state))).
Proof.
  assert (Hl : load requested.(file) = Ok (Some requested.(state))) by (vm_compute; reflexivity).
  split; [exact Hl|].
  assert (Ha := append_is_atomic (Torn 8) (next Staging 2 requested.(state)) requested.(file) _ Hl).
  destruct (append _ _ _). exact (proj1 Ha).
Defined.

Lemma journal_refines_protocol_witness :
  guardian_reachable done_world ∧ length (history done_world.(file)) = 10 ∧
  ∃ base, is_initial base ∧ spec_path base (history done_world.(file)) ∧
    ∃ s, anchored base (history done_world.(file)) s ∧ remembers done_world.(state) s.
Proof.
  split; [exact done_reachable|]. split; [vm_compute; reflexivity|].
  exact (journal_refines_protocol done_world done_reachable).
Defined.

Lemma platform_acts_on_intents_witness :
  guardian_reachable done_world ∧ length done_world.(calls) = 5 ∧
  Forall call_ok done_world.(calls).
Proof.
  split; [exact done_reachable|]. split; [vm_compute; reflexivity|].
  exact (platform_acts_on_intents done_world done_reachable).
Defined.

Lemma releases_never_go_back_witness :
  guardian_reachable done_world ∧ installed_release <$> last (history done_world.(file)) = Some v2 ∧
  StronglySorted advances (history done_world.(file)).
Proof.
  split; [exact done_reachable|]. split; [vm_compute; reflexivity|].
  exact (proj1 (releases_never_go_back done_world done_reachable)).
Defined.

Lemma completed_update_was_healthy_witness :
  ∃ r, r ∈ done_world.(calls) ∧
    r.(called) = CallHealth {| slot_version := v2; locator := "new" |} (Ok Healthy).
Proof.
  destruct (last (history done_world.(file))) as [st|] eqn:Hlast;
    [|by assert (Hp := done_phase); rewrite Hlast in Hp].
  assert (Hp := done_phase). rewrite Hlast in Hp. injection Hp as Hp.
  exact (completed_update_was_healthy done_world st _ _ done_reachable
    (last_Some_elem_of _ _ Hlast) Hp).
Defined.

Lemma guardian_always_reopens_witness :
  guardian_reachable done_world ∧ validate_config cfg = Ok () ∧
  open_guardian cfg done_world.(file) v1 9 =
    Ok (default (initial_state v1 9) (last (history done_world.(file)))).
Proof.
  split; [exact done_reachable|]. split; [reflexivity|].
  exact (guardian_always_reopens done_world cfg v1 9 done_reachable eq_refl).
Defined.

(** Eight advances of a ready node complete the update without an error. *)
Definition eight : list (RuntimeActivity * Z) := ready_at [2; 3; 4; 5; 6; 7; 8; 9]%Z.
Lemma update_terminates_witness :
  guardian_reachable requested ∧ settled requested.(state).(phase) = false ∧
  forallb is_ok (advance_all eight requested).2 = true ∧
  (settled (advance_all eight requested).1.(state).(phase) = true ∨
   ∃ e, Err e ∈ (advance_all eight requested).2 ∧ env_error e = true).
Proof.
  split; [exact requested_reachable|]. split; [vm_compute; reflexivity|].
  split; [vm_compute; reflexivity|].
  apply (update_terminates requested eight requested_reachable).
  - repeat constructor.
  - vm_compute. lia.
Defined.

Lemma journal_life_is_bounded_witness :
  guardian_reachable requested ∧
  guardian_step requested (advance busy 2 requested).1 ∧
  length (history (advance busy 2 requested).1.(file)) = S (length (history requested.(file))).
Proof.
  assert (Hst : guardian_step requested (advance busy 2 requested).1) by apply step_advance.
  split; [exact requested_reachable|]. split; [exact Hst|].
  refine (proj2 (proj2 (proj2 (journal_life_is_bounded _ _ requested_reachable Hst)))
            busy 2%Z (Some QueuedJobs) QueuedJobs _ _ _); vm_compute; reflexivity.
Defined.

Definition stopping : DemoWorld :=
  {| config := cfg; file := None; state := start.(state); runtime := start.(runtime);
     health := []; faults := [Stopped]; calls := [] |}.

(** [request] stores the command before [transition] takes its copy of the state: a request
    whose record could not be written leaves its command in the state of an idle
    guardian. *)
Lemma refused_request_keeps_command :
  let w := request cmd ready 1 stopping in
  w.2 = Err Interrupted ∧ w.1.(file) = None ∧ w.1.(state).(phase) = Idle ∧
  w.1.(state).(command) = Some cmd ∧ start.(state).(command) = None.
Proof. vm_compute. split_and!; reflexivity. Qed.
End GuardianDemo.
