(* ===== verification/Transactions.v ===== *)
(** What the stores of the control plane share (crates/storage-postgres/src/lib.rs): the
    errors, a database transaction as a state and error monad over its tables, the usual
    statements on a table, and the tactics that take a committed transaction apart.

    A table is a finite map on its primary key.  A transaction either commits or leaves the
    tables alone, and transactions run one after the other. *)

From stdpp Require Export pretty.
From S2P Require Import Prelude.

(** A workspace and one of its environments. *)
Definition Tenant : Type := string * string.

(** Timestamps are microseconds. *)
Definition seconds (n : Z) : Z := n * 1000000.

Inductive StorageError :=
| NotFound | IdempotencyConflict | ConcurrentStateChange | InvalidTransition
| QuotaExceeded | BillingBlocked | NodeQuotaExceeded | PlatformAlreadyEnabled
| NodeIdentityRevisionConflict (current : N) | InvalidData (what : string)
| Database (what : string) | Migration | UnsupportedDatabaseBaseline | Serialization.
#[export] Instance StorageError_eq_dec : EqDecision StorageError.
Proof. solve_decision. Defined.

(** * Queries

    [UPDATE ... WHERE], and [EXISTS (SELECT ... WHERE)]. *)

Definition update_where {K V} `{Countable K} (p : V → bool) (f : V → V) (m : gmap K V) : gmap K V :=
  (λ r, if p r then f r else r) <$> m.

Definition exists_row {K V} `{Countable K} (p : K → V → bool) (m : gmap K V) : bool :=
  existsb (λ e, p e.1 e.2) (map_to_list m).

Definition select_rows {K V} `{Countable K} (p : K → V → bool) (m : gmap K V) : list (K * V) :=
  filter (λ e, p e.1 e.2 = true) (map_to_list m).

(** The first row of a table that satisfies a condition. *)
Definition find_row {K V} `{Countable K} (p : K → V → bool) (m : gmap K V) : option (K * V) :=
  head (select_rows p m).

Definition time_after (o : option Z) (now : Z) : bool :=
  match o with Some t => (now <? t)%Z | None => false end.

(** [limit.clamp(1, 100)]. *)
Definition clamp (n low high : Z) : nat := Z.to_nat (Z.max low (Z.min n high)).

(** [format!("{:x}", digest)]. *)
Definition hex_digit (n : N) : string :=
  String.String (Ascii.ascii_of_N (if n <? 10 then 48 + n else 87 + n)%N) String.EmptyString.
Fixpoint hex (s : string) : string :=
  match s with
  | String.EmptyString => ""
  | String.String c s =>
    hex_digit (N_of_ascii c / 16) +:+ hex_digit (N_of_ascii c mod 16) +:+ hex s
  end.

(** * Transactions *)

Definition Txn (S A : Type) : Type := S → result StorageError (S * A).

#[export] Instance tx_ret {S} : MRet (Txn S) := λ A a s, Ok (s, a).
#[export] Instance tx_bind {S} : MBind (Txn S) := λ A B f m s,
  match m s with Ok (s', a) => f a s' | Err e => Err e end.

Definition abort {S A} (e : StorageError) : Txn S A := λ _, Err e.
Definition query {S A} (f : S → A) : Txn S A := λ s, Ok (s, f s).
Definition fetch {S A} (f : S → option A) (e : StorageError) : Txn S A := λ s,
  match f s with Some a => Ok (s, a) | None => Err e end.
Definition ensure {S} (b : bool) (e : StorageError) : Txn S unit := λ s,
  if b then Ok (s, ()) else Err e.
Definition execute {S} (f : S → S) : Txn S unit := λ s, Ok (f s, ()).
Definition pure_result {S A} (m : result StorageError A) : Txn S A := λ s,
  match m with Ok a => Ok (s, a) | Err e => Err e end.

(** An operation of several transactions keeps those that committed. *)
Definition Opn (S A : Type) : Type := S → S * result StorageError A.
Definition transaction {S A} (m : Txn S A) : Opn S A := λ s,
  match m s with Ok (s', a) => (s', Ok a) | Err e => (s, Err e) end.
#[export] Instance op_ret {S} : MRet (Opn S) := λ A a s, (s, Ok a).
#[export] Instance op_bind {S} : MBind (Opn S) := λ A B f m s,
  match m s with (s', Ok a) => f a s' | (s', Err e) => (s', Err e) end.

Fixpoint for_each {S A B} (f : A → Txn S B) (l : list A) : Txn S (list B) :=
  match l with
  | [] => mret []
  | a :: l => b ← f a; bs ← for_each f l; mret (b :: bs)
  end.

(** * Committed transactions *)

Lemma tx_bind_Ok {S A B} (m : Txn S A) (f : A → Txn S B) s s' b :
  (m ≫= f) s = Ok (s', b) ↔ ∃ s1 a, m s = Ok (s1, a) ∧ f a s1 = Ok (s', b).
Proof.
  unfold mbind, tx_bind. destruct (m s) as [[s1 a]|e]; [naive_solver|].
  split; [done|]. by intros (? & ? & ? & ?).
Qed.

Lemma query_Ok {S A} (f : S → A) s s' a : query f s = Ok (s', a) ↔ s' = s ∧ a = f s.
Proof. unfold query. naive_solver. Qed.
Lemma fetch_Ok {S A} (f : S → option A) e s s' a : fetch f e s = Ok (s', a) ↔ s' = s ∧ f s = Some a.
Proof. unfold fetch. case_match; naive_solver. Qed.
Lemma ensure_Ok {S} b e (s s' : S) u : ensure b e s = Ok (s', u) ↔ s' = s ∧ b = true.
Proof. unfold ensure. destruct u, b; naive_solver. Qed.
Lemma execute_Ok {S} (f : S → S) s s' u : execute f s = Ok (s', u) ↔ s' = f s.
Proof. unfold execute. destruct u. naive_solver. Qed.
Lemma pure_result_Ok {S A} (m : result StorageError A) (s s' : S) a :
  pure_result m s = Ok (s', a) ↔ s' = s ∧ m = Ok a.
Proof. unfold pure_result. case_match; naive_solver. Qed.
Lemma abort_Ok {S A} e (s s' : S) (a : A) : abort e s = Ok (s', a) ↔ False.
Proof. done. Qed.
Lemma tx_ret_Ok {S A} (a : A) (s s' : S) b : (mret a : Txn S A) s = Ok (s', b) ↔ s' = s ∧ b = a.
Proof. unfold mret, tx_ret. naive_solver. Qed.

(** The answer of a row that is not there. *)
Lemma tx_bind_fetch_None {S A B} (f : S → option A) e (g : A → Txn S B) s : f s = None → (fetch f e ≫= g) s = Err e.
Proof. intros Hf. unfold mbind, tx_bind, fetch. by rewrite Hf. Qed.

(** Takes a committed transaction apart, statement by statement; [tx_leaf] is redefined by
    the stores that have statements of their own. *)
Ltac tx_leaf H := idtac.
Ltac tx_step H :=
  cbv beta in H;
  lazymatch type of H with
  | (mbind _ _) _ = Ok _ =>
    let s := fresh "s" in let a := fresh "x" in let H1 := fresh "Hx" in
    apply tx_bind_Ok in H as (s & a & H1 & H); tx_step H1
  | query _ _ = Ok _ => apply query_Ok in H as [-> ->]
  | fetch _ _ _ = Ok _ => apply fetch_Ok in H as [-> H]
  | ensure _ _ _ = Ok _ => apply ensure_Ok in H as [-> H]
  | execute _ _ = Ok _ => apply execute_Ok in H as ->
  | pure_result _ _ = Ok _ => apply pure_result_Ok in H as [-> H]
  | abort _ _ = Ok _ => apply abort_Ok in H as []
  | mret _ _ = Ok _ => apply tx_ret_Ok in H as [-> ->]
  | _ => tx_leaf H
  end.
Ltac tx H :=
  cbv beta in H;
  lazymatch type of H with
  | (mbind _ _) _ = Ok _ => tx_step H; tx H
  | _ => tx_step H
  end.

(** The same along every branch. *)
Ltac txs H :=
  tx H;
  try lazymatch type of H with
  | (match ?x with _ => _ end) _ = Ok _ => destruct x eqn:?; txs H
  end.

(** * Queries *)

Section rows.
Context {K V : Type} `{Countable K}.
Implicit Types (m : gmap K V).

Lemma exists_row_true p m : exists_row p m = true ↔ ∃ k v, m !! k = Some v ∧ p k v = true.
Proof.
  unfold exists_row. rewrite existsb_exists. split.
  - intros ([k v] & Hin & Hp). apply list_elem_of_In, elem_of_map_to_list in Hin. by exists k, v.
  - intros (k & v & Hk & Hp). exists (k, v). split; [|done]. by apply list_elem_of_In, elem_of_map_to_list.
Qed.

Lemma exists_row_false p m : exists_row p m = false ↔ ∀ k v, m !! k = Some v → p k v = false.
Proof.
  rewrite <- not_true_iff_false, exists_row_true. split.
  - intros Hn k v Hk. apply not_true_iff_false. naive_solver.
  - intros Hf (k & v & Hk & Hp). by rewrite (Hf k v) in Hp.
Qed.

Lemma elem_of_select_rows p m k v : (k, v) ∈ select_rows p m ↔ m !! k = Some v ∧ p k v = true.
Proof. unfold select_rows. rewrite list_elem_of_filter, elem_of_map_to_list. simpl. tauto. Qed.

Lemma select_rows_keys p m : NoDup (fst <$> select_rows p m).
Proof. apply NoDup_fmap_fst; [|by apply NoDup_filter, NoDup_map_to_list].
  intros k v1 v2. rewrite !elem_of_select_rows. naive_solver.
Qed.

Lemma lookup_update_where (p : V → bool) f m k :
  update_where p f m !! k = (λ r, if p r then f r else r) <$> m !! k.
Proof. apply lookup_fmap. Qed.

Lemma lookup_alter_row (f : V → V) m i j :
  alter f i m !! j = (λ v, if decide (j = i) then f v else v) <$> m !! j.
Proof.
  destruct (decide (j = i)) as [->|Hne].
  - rewrite lookup_alter_eq. by destruct (m !! i).
  - rewrite lookup_alter_ne by done. by destruct (m !! j).
Qed.

Lemma alter_Some (f : V → V) m i x : m !! i = Some x → alter f i m = <[i := f x]> m.
Proof.
  intros Hi. apply map_eq. intros j. destruct (decide (j = i)) as [->|Hne].
  - by rewrite lookup_alter_eq, Hi, lookup_insert_eq.
  - by rewrite lookup_alter_ne, lookup_insert_ne.
Qed.
End rows.

Lemma find_row_Some {K V} `{Countable K} (p : K → V → bool) (m : gmap K V) k v :
  find_row p m = Some (k, v) → m !! k = Some v ∧ p k v = true.
Proof.
  unfold find_row. intros Hf. apply elem_of_select_rows. destruct (select_rows p m) as [|x l]; simplify_eq/=. left.
Qed.

Lemma find_row_None {K V} `{Countable K} (q : K → V → bool) (m : gmap K V) :
  find_row q m = None ↔ ∀ i x, m !! i = Some x → q i x = false.
Proof.
  unfold find_row. split.
  - intros Hf i x Hi. apply not_true_iff_false. intros Hq.
    assert (Hin : (i, x) ∈ select_rows q m) by by apply elem_of_select_rows.
    destruct (select_rows q m); [by apply elem_of_nil in Hin|done].
  - intros Hq. destruct (select_rows q m) as [|[i x] l] eqn:Hs; [done|].
    assert (Hin : (i, x) ∈ select_rows q m) by (rewrite Hs; left).
    apply elem_of_select_rows in Hin as [Hi Hx]. by rewrite (Hq _ _ Hi) in Hx.
Qed.

(** What a statement checked. *)
Ltac checks :=
  repeat match goal with
  | H : _ && _ = true |- _ => apply andb_true_iff in H as [? ?]
  | H : bool_decide _ = true |- _ => apply bool_decide_eq_true in H
  | H : negb _ = true |- _ => apply negb_true_iff in H
  end.

(** * Transactions that preserve a relation

    What holds of every statement that writes holds of the transaction. *)
Definition preserves {S A} (R : relation S) (m : Txn S A) : Prop := ∀ s s' a, m s = Ok (s', a) → R s s'.

Section preserves.
Context {S : Type} (R : relation S) `{!PreOrder R}.

Lemma preserves_bind {A B} (m : Txn S A) (f : A → Txn S B) :
  preserves R m → (∀ a, preserves R (f a)) → preserves R (m ≫= f).
Proof. intros Hm Hf s s' b H. tx_step H. etrans; [by eapply Hm|by eapply Hf]. Qed.
Lemma preserves_ret {A} (a : A) : preserves R (mret a : Txn S A).
Proof. intros s s' b H. by tx H. Qed.
Lemma preserves_query {A} (f : S → A) : preserves R (query f).
Proof. intros s s' b H. by tx H. Qed.
Lemma preserves_fetch {A} (f : S → option A) e : preserves R (fetch f e).
Proof. intros s s' b H. by tx H. Qed.
Lemma preserves_ensure b e : preserves R (ensure b e).
Proof. intros s s' x H. by tx H. Qed.
Lemma preserves_pure {A} (m : result StorageError A) : preserves R (pure_result m).
Proof. intros s s' b H. by tx H. Qed.
Lemma preserves_abort {A} e : preserves R (abort e : Txn S A).
Proof. done. Qed.
Lemma preserves_for_each {A B} (f : A → Txn S B) l : (∀ a, preserves R (f a)) → preserves R (for_each f l).
Proof.
  intros Hf. induction l as [|a l IH]; simpl; [apply preserves_ret|].
  apply preserves_bind; [apply Hf|]. intros b. apply preserves_bind; [done|]. intros bs. apply preserves_ret.
Qed.
End preserves.

Lemma preserves_execute {S} (R : relation S) f : (∀ s, R s (f s)) → preserves R (execute f).
Proof. intros Hf s s' x H. tx H. apply Hf. Qed.

(** The structure of a transaction, down to the statements that write; [known] closes the
    transactions that were treated before. *)
Ltac preserve known :=
  repeat first
    [ known
    | apply preserves_bind; [apply _| |intro]
    | apply preserves_ret; apply _ | apply preserves_query; apply _ | apply preserves_fetch; apply _
    | apply preserves_ensure; apply _ | apply preserves_pure; apply _ | apply preserves_abort
    | apply preserves_for_each; [apply _|]; intro
    | case_match ].
