(* ===== verification/CloudStore.v ===== *)
(** The control plane's PostgreSQL store (crates/storage-postgres/src/lib.rs and
    migrations/postgres): the tables that decide who prints a job, and what every
    transaction on them shares - events, the webhook outbox, usage.

    A table is a finite map on its primary key, with the constraints that a transaction
    can run into.  A jsonb column holds the value its writer serialised.  A transaction
    either commits or leaves the tables alone, and transactions run one after the other:
    each one locks the agent or the job it decides about, or an advisory key, before it
    reads.  The exception is the fence of a destination, which is read from attempts that are
    not locked ([begin_read_committed] in CloudRouting). *)

From S2P Require Import Prelude Domain Transactions.
Export Job Transactions.

(** * Values *)

(** What a transaction reads outside the tables: [now()], which is the start of the
    transaction, [Utc::now()], the calendar month around [now()], and the identifiers it
    makes: [EventId::new] for the event of a job with a sequence and for the outbox row of
    a hint, and [Ulid::new] for the wake hint of a job, a sequence and a node. *)
Record Clock := {
  sql_now : Z;
  utc_now : Z;
  month_start : Z;
  month_end : Z;
  new_event_id : string → N → string;
  new_hint_id : string → N → string → string;
  new_outbox_id : string → string
}.

Record UriAuthentication := { digest_scheme : bool; username : string; password : string }.

Record EncryptedContentBinding := {
  envelope_id : string;
  bound_workspace_id : string;
  bound_environment_id : string;
  bound_content_type : ContentKind;
  bound_printer_id : string;
  bound_target_id : string;
  bound_profile_revision : string;
  bound_options : JobOptions;
  bound_deliveries : N;
  bound_expires_at : string;
  raw_authorized : bool
}.

Record EncryptedContentRecipient := {
  recipient_key_id : string;
  recipient_algorithm : string;
  ephemeral_public_key : string;
  hkdf_salt : string;
  key_wrap_iv : string;
  encrypted_content_key : string
}.

Record EncryptedContentManifest := {
  manifest_version : string;
  manifest_suite : string;
  manifest_binding : EncryptedContentBinding;
  ciphertext_sha256 : string;
  manifest_iv : string;
  recipients : list EncryptedContentRecipient
}.

Inductive ContentSource :=
| Upload (upload_id : string)
| Base64 (data : string)
| Uri (uri : string) (authentication : option UriAuthentication)
| EncryptedUpload (upload_id : string) (manifest : EncryptedContentManifest).

Definition ENCRYPTED_JOB_V3_RECIPIENT_ALGORITHM : string := "ECDH-ES-P256+HKDF-SHA256+A256GCMKW".

(** [Job]; the fields that no transaction of the store looks at are in [j_details]. *)
Record JobDetails := {
  title : string;
  source : option string;
  content_kind : ContentKind;
  options : JobOptions;
  deliveries : N
}.

Record Job := {
  j_id : string;
  j_tenant : Tenant;
  j_printer_id : string;
  j_details : JobDetails;
  j_content : ContentSource;
  j_metadata : gmap string string;
  j_state : JobState;
  j_created_at : Z;
  j_expires_at : Z;
  j_delivery_uncertain_since : option Z
}.

Record JobEvent := {
  je_id : string;
  je_job_id : string;
  je_sequence : N;
  je_state : JobState;
  je_reason : option JobFailureReason;
  je_message : option string;
  je_agent_id : option string;
  je_native_job_id : option string;
  je_occurred_at : Z
}.

Definition set_job_state (st : JobState) (j : Job) : Job :=
  {| j_id := j.(j_id); j_tenant := j.(j_tenant); j_printer_id := j.(j_printer_id);
     j_details := j.(j_details); j_content := j.(j_content); j_metadata := j.(j_metadata);
     j_state := st; j_created_at := j.(j_created_at); j_expires_at := j.(j_expires_at);
     j_delivery_uncertain_since := j.(j_delivery_uncertain_since) |}.

Definition set_job_uncertain (at_ : Z) (j : Job) : Job :=
  {| j_id := j.(j_id); j_tenant := j.(j_tenant); j_printer_id := j.(j_printer_id);
     j_details := j.(j_details); j_content := j.(j_content); j_metadata := j.(j_metadata);
     j_state := j.(j_state); j_created_at := j.(j_created_at);
     j_expires_at := j.(j_expires_at); j_delivery_uncertain_since := Some at_ |}.

Definition set_job_metadata (m : gmap string string) (j : Job) : Job :=
  {| j_id := j.(j_id); j_tenant := j.(j_tenant); j_printer_id := j.(j_printer_id);
     j_details := j.(j_details); j_content := j.(j_content); j_metadata := m;
     j_state := j.(j_state); j_created_at := j.(j_created_at);
     j_expires_at := j.(j_expires_at);
     j_delivery_uncertain_since := j.(j_delivery_uncertain_since) |}.

Definition set_job_printer (printer : string) (j : Job) : Job :=
  {| j_id := j.(j_id); j_tenant := j.(j_tenant); j_printer_id := printer;
     j_details := j.(j_details); j_content := j.(j_content); j_metadata := j.(j_metadata);
     j_state := j.(j_state); j_created_at := j.(j_created_at);
     j_expires_at := j.(j_expires_at);
     j_delivery_uncertain_since := j.(j_delivery_uncertain_since) |}.

(** * Delivery attempts (crates/storage-postgres/src/destination_topology.rs) *)

Module Attempt.

Inductive DeliveryAttemptState :=
| RouteLeased | AcceptedByNode | QueuedLocal | HandingToSpooler | AcceptedBySpooler
| PrintingReported | CompletedReported | Cancelled | Failed | DeliveryUncertain | Superseded.

Definition as_str (s : DeliveryAttemptState) : string :=
  match s with
  | RouteLeased => "route_leased"
  | AcceptedByNode => "accepted_by_node"
  | QueuedLocal => "queued_local"
  | HandingToSpooler => "handing_to_spooler"
  | AcceptedBySpooler => "accepted_by_spooler"
  | PrintingReported => "printing_reported"
  | CompletedReported => "completed_reported"
  | Cancelled => "cancelled"
  | Failed => "failed"
  | DeliveryUncertain => "delivery_uncertain"
  | Superseded => "superseded"
  end.

Definition is_final (s : DeliveryAttemptState) : bool :=
  match s with
  | CompletedReported | Cancelled | Failed | DeliveryUncertain | Superseded => true
  | _ => false
  end.

Definition valid_attempt_transition (f t : DeliveryAttemptState) : bool :=
  match f, t with
  | RouteLeased, (AcceptedByNode | Cancelled | Failed | Superseded) => true
  | AcceptedByNode, (QueuedLocal | Cancelled | Failed) => true
  | QueuedLocal, (HandingToSpooler | Cancelled | Failed) => true
  | HandingToSpooler, (AcceptedBySpooler | Failed | DeliveryUncertain) => true
  | AcceptedBySpooler, (PrintingReported | CompletedReported | Failed | DeliveryUncertain) => true
  | PrintingReported, (CompletedReported | Failed | DeliveryUncertain) => true
  | _, _ => false
  end.

(** The states in which the node has not handed the job to the spooler for good: those a
    lease can be renewed in. *)
Definition renewable (s : DeliveryAttemptState) : bool :=
  match s with
  | RouteLeased | AcceptedByNode | QueuedLocal | HandingToSpooler => true
  | _ => false
  end.

End Attempt.
Abbreviation DeliveryAttemptState := Attempt.DeliveryAttemptState.
#[export] Instance DeliveryAttemptState_eq_dec : EqDecision DeliveryAttemptState.
Proof. solve_decision. Defined.

Inductive ReservationState := Active | Released | ReservationExpired | ReservationCancelled
| ReservationSuperseded.
#[export] Instance ReservationState_eq_dec : EqDecision ReservationState.
Proof. solve_decision. Defined.

Inductive DestinationState := DestinationUnknown | Available | Unavailable | DestinationPaused
| Attention | Retired.
#[export] Instance DestinationState_eq_dec : EqDecision DestinationState.
Proof. solve_decision. Defined.

Inductive RouteState := RouteUnknown | RouteAvailable | RouteUnavailable | RoutePaused
| RouteRejecting | RouteStale | RouteRetired.
#[export] Instance RouteState_eq_dec : EqDecision RouteState.
Proof. solve_decision. Defined.

Inductive RouteRole := Primary | Standby | Disabled.
#[export] Instance RouteRole_eq_dec : EqDecision RouteRole.
Proof. solve_decision. Defined.

(** * Tables

    The columns of a row are grouped as the transactions write them. *)

Record LeaseColumns := {
  lease_owner : option string;
  lease_id : option string;
  lease_token_hash : option string;
  lease_until : option Z
}.
Definition no_lease : LeaseColumns :=
  {| lease_owner := None; lease_id := None; lease_token_hash := None; lease_until := None |}.

Record LifeColumns := { state : JobState; state_sequence : Z; final_at : option Z }.

Record PlaceColumns := {
  agent_id : string;
  printer_id : string;
  per_printer_sequence : Z;
  destination_id : option string;
  route_id : option string
}.

(** A row of [jobs]. *)
Record JobRow := {
  jr_tenant : Tenant;
  jr_payload : Job;
  jr_life : LifeColumns;
  jr_lease : LeaseColumns;
  jr_place : PlaceColumns;
  jr_expires_at : Z;
  jr_created_at : Z;
  jr_uncertain_since : option Z;
  jr_alerted_at : option Z
}.

(** A row of [job_events]; the table is keyed by job and sequence, which are unique. *)
Record EventRow := { er_tenant : Tenant; er_event : JobEvent }.

(** A row of [job_acceptances], keyed by the job. *)
Record RouteProof := {
  proof_reservation_id : string;
  proof_generation : Z;
  proof_fencing_token_hash : string
}.
#[export] Instance RouteProof_eq_dec : EqDecision RouteProof.
Proof. solve_decision. Defined.

Record AcceptanceRow := {
  ac_tenant : Tenant;
  ac_agent_id : string;
  ac_lease_id : string;
  ac_lease_token_hash : option string;
  ac_content_sha256 : option string;
  ac_local_sequence : Z;
  ac_route : option RouteProof;
  ac_connector_generation : option Z
}.

(** Rows of [delivery_attempts] and [route_reservations]. *)
Record AttemptRow := {
  at_tenant : Tenant;
  at_id : string;
  at_job_id : string;
  at_destination_id : string;
  at_route_id : string;
  at_generation : Z;
  at_fencing_token_hash : string;
  at_state : DeliveryAttemptState;
  at_lease_until : Z;
  at_accepted_at : option Z;
  at_handoff_started_at : option Z;
  at_spooler_accepted_at : option Z;
  at_final_at : option Z;
  at_created_at : Z
}.

Record ReservationRow := {
  rs_tenant : Tenant;
  rs_id : string;
  rs_route_id : string;
  rs_destination_id : string;
  rs_job_id : string;
  rs_attempt_id : string;
  rs_generation : Z;
  rs_fencing_token_hash : string;
  rs_state : ReservationState;
  rs_lease_until : Z;
  rs_released_at : option Z;
  rs_created_at : Z
}.

(** A row of [agent_commands], keyed by the cursor. *)
Inductive AgentCommand :=
| CancelJob (job : string)
| ResolveAmbiguousHandoff (job : string) (local_route_key : string) (reservation : string)
    (generation : N) (confirm_accepted : bool)
| OtherCommand (command : string).

Record CommandRow := {
  cm_tenant : Tenant;
  cm_agent_id : string;
  cm_command : AgentCommand;
  cm_delivered_at : option Z;
  cm_acknowledged_at : option Z
}.

(** Rows of [delivery_uncertainty_resolution_commands], keyed by tenant and request, and
    of [delivery_uncertainty_resolutions], keyed by tenant and identifier. *)
Record PendingRow := {
  pn_job_id : string;
  pn_attempt_id : string;
  pn_destination_id : string;
  pn_route_id : string;
  pn_agent_id : string;
  pn_reservation_id : string;
  pn_generation : Z;
  pn_resolution : string;
  pn_note : option string;
  pn_actor_id : string;
  pn_command_cursor : Z;
  pn_created_at : Z;
  pn_finalized_at : option Z
}.

Record ResolutionRow := {
  rn_job_id : string;
  rn_attempt_id : string;
  rn_destination_id : string;
  rn_resolution : string;
  rn_note : option string;
  rn_actor_id : string;
  rn_request_id : string;
  rn_created_at : Z
}.

(** The tables that describe nodes, printers and routes.  Other operations of the store
    write them; the transactions here read them, and revocation and identity decisions
    change a few of their columns.  The memberships of site coordinators only record
    whether they are revoked. *)
Record AgentRow := { ag_tenant : Tenant; ag_revoked_at : option Z; ag_connected : bool }.

Record ConnectorRow := {
  cn_id : string;
  cn_revoked_at : option Z;
  cn_admission_generation : Z
}.

Record RouteRow := {
  rt_destination_id : string;
  rt_printer_id : string;
  rt_agent_id : string;
  rt_local_route_key : option string;
  rt_state : RouteState;
  rt_role : RouteRole;
  rt_priority : Z;
  rt_enabled : bool;
  rt_retired_at : option Z
}.

Record DestinationRow := {
  pd_state : DestinationState;
  pd_identity_confidence : string;
  pd_identity_revision : Z;
  pd_retired_at : option Z
}.

Record ProfileSnapshot := {
  ps_profile_id : string;
  ps_revision : N;
  ps_published : bool;
  ps_status : option string;
  ps_stock_id : option string
}.

Record PrinterRow := {
  pr_agent_id : string;
  pr_capabilities_revision : Z;
  pr_profiles : list ProfileSnapshot;
  pr_removed_at : option Z
}.

Record TargetRow := {
  tg_stock_id : option string;
  tg_enabled : bool;
  tg_routing_policy : string
}.

Record BindingRow := {
  bd_target_id : string;
  bd_printer_id : string;
  bd_agent_id : string;
  bd_profile_id : string;
  bd_profile_revision : Z;
  bd_destination_id : option string;
  bd_route_id : option string;
  bd_role : string;
  bd_enabled : bool;
  bd_created_at : Z
}.

(** What a target prints on: rows of [stocks], keyed by tenant and stock, of
    [printer_loaded_media], keyed by tenant, printer and source, and of
    [resolved_print_tickets], keyed by tenant and digest.  Other operations write them. *)
Record StockRow := { sk_revision : Z; sk_attributes : string; sk_archived : bool }.
Record LoadedMediaRow := {
  lm_stock_id : option string;
  lm_stock_revision : option Z;
  lm_confidence : string;
  lm_calibration_state : string;
  lm_observed_at : Z
}.
Record TicketRow := { tk_printer_id : string; tk_capability_revision : Z; tk_expires_at : Z }.
Record Catalogue := {
  stocks : gmap (Tenant * string) StockRow;
  printer_loaded_media : gmap (Tenant * string * string) LoadedMediaRow;
  resolved_print_tickets : gmap (Tenant * string) TicketRow
}.

Record UploadRow := {
  up_tenant : Tenant;
  up_expected_sha256 : string;
  up_expected_bytes : Z;
  up_complete : bool
}.

Record ContentKeyRow := {
  ck_algorithm : string;
  ck_lifecycle_state : string;
  ck_state_changed_at : Z
}.

(** Billing: who pays for a workspace, what the plan allows, and its subscription. *)
Record EntitlementRow := {
  en_plan : string;
  en_included_jobs : Z;
  en_accept_new_cloud_jobs : bool
}.
Record SubscriptionRow := { sb_status : string; sb_grace_ends_at : option Z }.

(** A decision of an operator about the identity of destinations, with the destinations
    and routes as they were before it. *)
Inductive IdentityDecisionKind := Merge | Split | Confirm | RejectMatch | Reverse.
#[export] Instance IdentityDecisionKind_eq_dec : EqDecision IdentityDecisionKind.
Proof. solve_decision. Defined.

Record DecisionRow := {
  dc_kind : IdentityDecisionKind;
  dc_destinations : list (string * DestinationRow);
  dc_routes : list (string * (string * RouteRole));
  dc_reverses : option string
}.

Record Topology := {
  agents : gmap string AgentRow;
  node_connectors : gmap (Tenant * string) ConnectorRow;
  printer_routes : gmap (Tenant * string) RouteRow;
  physical_destinations : gmap (Tenant * string) DestinationRow;
  printers : gmap (Tenant * string) PrinterRow;
  targets : gmap (Tenant * string) TargetRow;
  target_bindings : gmap (Tenant * string) BindingRow;
  uploads : gmap string UploadRow;
  content_keys : gmap (Tenant * string * string) ContentKeyRow;
  environments : gmap Tenant string;
  platform_accounts : gmap string (string * bool);
  workspaces : gmap string (option string);
  subscriptions : gmap string SubscriptionRow;
  site_memberships : gmap (Tenant * string * string) bool;
  identity_evidence : gmap (Tenant * string) (string * string);
  identity_decisions : gmap (Tenant * string) DecisionRow;
  catalogue : Catalogue
}.

(** Wake hints for sleeping nodes: a row of [node_wake_hints], keyed by tenant, node and
    idempotency key, and its row of [routing_outbox], keyed by tenant and hint. *)
Inductive HintStatus := HintPending | HintObserved | HintExpired | HintCancelled.
#[export] Instance HintStatus_eq_dec : EqDecision HintStatus.
Proof. solve_decision. Defined.

Record HintRow := {
  wh_id : string;
  wh_status : HintStatus;
  wh_requested_at : Z;
  wh_expires_at : Z
}.

Record OutboxRow := {
  ob_id : string;
  ob_attempts : Z;
  ob_available_at : Z;
  ob_created_at : Z;
  ob_claimed_until : option Z;
  ob_processed_at : option Z
}.

Record Store := {
  topology : Topology;
  jobs : gmap string JobRow;
  job_events : gmap (string * N) EventRow;
  job_acceptances : gmap string AcceptanceRow;
  delivery_attempts : gmap (Tenant * string) AttemptRow;
  route_reservations : gmap (Tenant * string) ReservationRow;
  agent_commands : gmap Z CommandRow;
  next_cursor : Z;
  pending_resolutions : gmap (Tenant * string) PendingRow;
  resolutions : gmap (Tenant * string) ResolutionRow;
  agent_event_receipts : gset (string * string);
  recovery_checks : gmap (Tenant * string * string) Z;
  webhook_events : gmap (Tenant * string) (string * Job);
  usage_ledger : gmap string (Tenant * Z);
  entitlements : gmap string EntitlementRow;
  idempotency_requests : gmap (Tenant * string) (string * string * Z);
  consumed_envelopes : gmap (Tenant * string) (string * string);
  key_references : gset (Tenant * string * string * string);
  wake_hints : gmap (Tenant * string * string) HintRow;
  wake_outbox : gmap (Tenant * string) OutboxRow;
  wake_reconciliations : gmap (Tenant * string * Z) nat
}.

(** Each table is updated by a function of its rows. *)
Definition on_topology (f : Topology → Topology) (s : Store) : Store :=
  {| topology := f s.(topology); jobs := s.(jobs); job_events := s.(job_events);
     job_acceptances := s.(job_acceptances); delivery_attempts := s.(delivery_attempts); route_reservations := s.(route_reservations);
     agent_commands := s.(agent_commands); next_cursor := s.(next_cursor); pending_resolutions := s.(pending_resolutions);
     resolutions := s.(resolutions); agent_event_receipts := s.(agent_event_receipts); recovery_checks := s.(recovery_checks);
     webhook_events := s.(webhook_events); usage_ledger := s.(usage_ledger); entitlements := s.(entitlements);
     idempotency_requests := s.(idempotency_requests); consumed_envelopes := s.(consumed_envelopes); key_references := s.(key_references);
     wake_hints := s.(wake_hints); wake_outbox := s.(wake_outbox); wake_reconciliations := s.(wake_reconciliations) |}.
Definition on_jobs (f : gmap string JobRow → gmap string JobRow) (s : Store) : Store :=
  {| topology := s.(topology); jobs := f s.(jobs); job_events := s.(job_events);
     job_acceptances := s.(job_acceptances); delivery_attempts := s.(delivery_attempts); route_reservations := s.(route_reservations);
     agent_commands := s.(agent_commands); next_cursor := s.(next_cursor); pending_resolutions := s.(pending_resolutions);
     resolutions := s.(resolutions); agent_event_receipts := s.(agent_event_receipts); recovery_checks := s.(recovery_checks);
     webhook_events := s.(webhook_events); usage_ledger := s.(usage_ledger); entitlements := s.(entitlements);
     idempotency_requests := s.(idempotency_requests); consumed_envelopes := s.(consumed_envelopes); key_references := s.(key_references);
     wake_hints := s.(wake_hints); wake_outbox := s.(wake_outbox); wake_reconciliations := s.(wake_reconciliations) |}.
Definition on_job_events (f : gmap (string * N) EventRow → gmap (string * N) EventRow) (s : Store) : Store :=
  {| topology := s.(topology); jobs := s.(jobs); job_events := f s.(job_events);
     job_acceptances := s.(job_acceptances); delivery_attempts := s.(delivery_attempts); route_reservations := s.(route_reservations);
     agent_commands := s.(agent_commands); next_cursor := s.(next_cursor); pending_resolutions := s.(pending_resolutions);
     resolutions := s.(resolutions); agent_event_receipts := s.(agent_event_receipts); recovery_checks := s.(recovery_checks);
     webhook_events := s.(webhook_events); usage_ledger := s.(usage_ledger); entitlements := s.(entitlements);
     idempotency_requests := s.(idempotency_requests); consumed_envelopes := s.(consumed_envelopes); key_references := s.(key_references);
     wake_hints := s.(wake_hints); wake_outbox := s.(wake_outbox); wake_reconciliations := s.(wake_reconciliations) |}.
Definition on_job_acceptances (f : gmap string AcceptanceRow → gmap string AcceptanceRow) (s : Store) : Store :=
  {| topology := s.(topology); jobs := s.(jobs); job_events := s.(job_events);
     job_acceptances := f s.(job_acceptances); delivery_attempts := s.(delivery_attempts); route_reservations := s.(route_reservations);
     agent_commands := s.(agent_commands); next_cursor := s.(next_cursor); pending_resolutions := s.(pending_resolutions);
     resolutions := s.(resolutions); agent_event_receipts := s.(agent_event_receipts); recovery_checks := s.(recovery_checks);
     webhook_events := s.(webhook_events); usage_ledger := s.(usage_ledger); entitlements := s.(entitlements);
     idempotency_requests := s.(idempotency_requests); consumed_envelopes := s.(consumed_envelopes); key_references := s.(key_references);
     wake_hints := s.(wake_hints); wake_outbox := s.(wake_outbox); wake_reconciliations := s.(wake_reconciliations) |}.
Definition on_delivery_attempts (f : gmap (Tenant * string) AttemptRow → gmap (Tenant * string) AttemptRow) (s : Store) : Store :=
  {| topology := s.(topology); jobs := s.(jobs); job_events := s.(job_events);
     job_acceptances := s.(job_acceptances); delivery_attempts := f s.(delivery_attempts); route_reservations := s.(route_reservations);
     agent_commands := s.(agent_commands); next_cursor := s.(next_cursor); pending_resolutions := s.(pending_resolutions);
     resolutions := s.(resolutions); agent_event_receipts := s.(agent_event_receipts); recovery_checks := s.(recovery_checks);
     webhook_events := s.(webhook_events); usage_ledger := s.(usage_ledger); entitlements := s.(entitlements);
     idempotency_requests := s.(idempotency_requests); consumed_envelopes := s.(consumed_envelopes); key_references := s.(key_references);
     wake_hints := s.(wake_hints); wake_outbox := s.(wake_outbox); wake_reconciliations := s.(wake_reconciliations) |}.
Definition on_route_reservations (f : gmap (Tenant * string) ReservationRow → gmap (Tenant * string) ReservationRow) (s : Store) : Store :=
  {| topology := s.(topology); jobs := s.(jobs); job_events := s.(job_events);
     job_acceptances := s.(job_acceptances); delivery_attempts := s.(delivery_attempts); route_reservations := f s.(route_reservations);
     agent_commands := s.(agent_commands); next_cursor := s.(next_cursor); pending_resolutions := s.(pending_resolutions);
     resolutions := s.(resolutions); agent_event_receipts := s.(agent_event_receipts); recovery_checks := s.(recovery_checks);
     webhook_events := s.(webhook_events); usage_ledger := s.(usage_ledger); entitlements := s.(entitlements);
     idempotency_requests := s.(idempotency_requests); consumed_envelopes := s.(consumed_envelopes); key_references := s.(key_references);
     wake_hints := s.(wake_hints); wake_outbox := s.(wake_outbox); wake_reconciliations := s.(wake_reconciliations) |}.
Definition on_agent_commands (f : gmap Z CommandRow → gmap Z CommandRow) (s : Store) : Store :=
  {| topology := s.(topology); jobs := s.(jobs); job_events := s.(job_events);
     job_acceptances := s.(job_acceptances); delivery_attempts := s.(delivery_attempts); route_reservations := s.(route_reservations);
     agent_commands := f s.(agent_commands); next_cursor := s.(next_cursor); pending_resolutions := s.(pending_resolutions);
     resolutions := s.(resolutions); agent_event_receipts := s.(agent_event_receipts); recovery_checks := s.(recovery_checks);
     webhook_events := s.(webhook_events); usage_ledger := s.(usage_ledger); entitlements := s.(entitlements);
     idempotency_requests := s.(idempotency_requests); consumed_envelopes := s.(consumed_envelopes); key_references := s.(key_references);
     wake_hints := s.(wake_hints); wake_outbox := s.(wake_outbox); wake_reconciliations := s.(wake_reconciliations) |}.
Definition on_next_cursor (f : Z → Z) (s : Store) : Store :=
  {| topology := s.(topology); jobs := s.(jobs); job_events := s.(job_events);
     job_acceptances := s.(job_acceptances); delivery_attempts := s.(delivery_attempts); route_reservations := s.(route_reservations);
     agent_commands := s.(agent_commands); next_cursor := f s.(next_cursor); pending_resolutions := s.(pending_resolutions);
     resolutions := s.(resolutions); agent_event_receipts := s.(agent_event_receipts); recovery_checks := s.(recovery_checks);
     webhook_events := s.(webhook_events); usage_ledger := s.(usage_ledger); entitlements := s.(entitlements);
     idempotency_requests := s.(idempotency_requests); consumed_envelopes := s.(consumed_envelopes); key_references := s.(key_references);
     wake_hints := s.(wake_hints); wake_outbox := s.(wake_outbox); wake_reconciliations := s.(wake_reconciliations) |}.
Definition on_pending_resolutions (f : gmap (Tenant * string) PendingRow → gmap (Tenant * string) PendingRow) (s : Store) : Store :=
  {| topology := s.(topology); jobs := s.(jobs); job_events := s.(job_events);
     job_acceptances := s.(job_acceptances); delivery_attempts := s.(delivery_attempts); route_reservations := s.(route_reservations);
     agent_commands := s.(agent_commands); next_cursor := s.(next_cursor); pending_resolutions := f s.(pending_resolutions);
     resolutions := s.(resolutions); agent_event_receipts := s.(agent_event_receipts); recovery_checks := s.(recovery_checks);
     webhook_events := s.(webhook_events); usage_ledger := s.(usage_ledger); entitlements := s.(entitlements);
     idempotency_requests := s.(idempotency_requests); consumed_envelopes := s.(consumed_envelopes); key_references := s.(key_references);
     wake_hints := s.(wake_hints); wake_outbox := s.(wake_outbox); wake_reconciliations := s.(wake_reconciliations) |}.
Definition on_resolutions (f : gmap (Tenant * string) ResolutionRow → gmap (Tenant * string) ResolutionRow) (s : Store) : Store :=
  {| topology := s.(topology); jobs := s.(jobs); job_events := s.(job_events);
     job_acceptances := s.(job_acceptances); delivery_attempts := s.(delivery_attempts); route_reservations := s.(route_reservations);
     agent_commands := s.(agent_commands); next_cursor := s.(next_cursor); pending_resolutions := s.(pending_resolutions);
     resolutions := f s.(resolutions); agent_event_receipts := s.(agent_event_receipts); recovery_checks := s.(recovery_checks);
     webhook_events := s.(webhook_events); usage_ledger := s.(usage_ledger); entitlements := s.(entitlements);
     idempotency_requests := s.(idempotency_requests); consumed_envelopes := s.(consumed_envelopes); key_references := s.(key_references);
     wake_hints := s.(wake_hints); wake_outbox := s.(wake_outbox); wake_reconciliations := s.(wake_reconciliations) |}.
Definition on_agent_event_receipts (f : gset (string * string) → gset (string * string)) (s : Store) : Store :=
  {| topology := s.(topology); jobs := s.(jobs); job_events := s.(job_events);
     job_acceptances := s.(job_acceptances); delivery_attempts := s.(delivery_attempts); route_reservations := s.(route_reservations);
     agent_commands := s.(agent_commands); next_cursor := s.(next_cursor); pending_resolutions := s.(pending_resolutions);
     resolutions := s.(resolutions); agent_event_receipts := f s.(agent_event_receipts); recovery_checks := s.(recovery_checks);
     webhook_events := s.(webhook_events); usage_ledger := s.(usage_ledger); entitlements := s.(entitlements);
     idempotency_requests := s.(idempotency_requests); consumed_envelopes := s.(consumed_envelopes); key_references := s.(key_references);
     wake_hints := s.(wake_hints); wake_outbox := s.(wake_outbox); wake_reconciliations := s.(wake_reconciliations) |}.
Definition on_recovery_checks (f : gmap (Tenant * string * string) Z → gmap (Tenant * string * string) Z) (s : Store) : Store :=
  {| topology := s.(topology); jobs := s.(jobs); job_events := s.(job_events);
     job_acceptances := s.(job_acceptances); delivery_attempts := s.(delivery_attempts); route_reservations := s.(route_reservations);
     agent_commands := s.(agent_commands); next_cursor := s.(next_cursor); pending_resolutions := s.(pending_resolutions);
     resolutions := s.(resolutions); agent_event_receipts := s.(agent_event_receipts); recovery_checks := f s.(recovery_checks);
     webhook_events := s.(webhook_events); usage_ledger := s.(usage_ledger); entitlements := s.(entitlements);
     idempotency_requests := s.(idempotency_requests); consumed_envelopes := s.(consumed_envelopes); key_references := s.(key_references);
     wake_hints := s.(wake_hints); wake_outbox := s.(wake_outbox); wake_reconciliations := s.(wake_reconciliations) |}.
Definition on_webhook_events (f : gmap (Tenant * string) (string * Job) → gmap (Tenant * string) (string * Job)) (s : Store) : Store :=
  {| topology := s.(topology); jobs := s.(jobs); job_events := s.(job_events);
     job_acceptances := s.(job_acceptances); delivery_attempts := s.(delivery_attempts); route_reservations := s.(route_reservations);
     agent_commands := s.(agent_commands); next_cursor := s.(next_cursor); pending_resolutions := s.(pending_resolutions);
     resolutions := s.(resolutions); agent_event_receipts := s.(agent_event_receipts); recovery_checks := s.(recovery_checks);
     webhook_events := f s.(webhook_events); usage_ledger := s.(usage_ledger); entitlements := s.(entitlements);
     idempotency_requests := s.(idempotency_requests); consumed_envelopes := s.(consumed_envelopes); key_references := s.(key_references);
     wake_hints := s.(wake_hints); wake_outbox := s.(wake_outbox); wake_reconciliations := s.(wake_reconciliations) |}.
Definition on_usage_ledger (f : gmap string (Tenant * Z) → gmap string (Tenant * Z)) (s : Store) : Store :=
  {| topology := s.(topology); jobs := s.(jobs); job_events := s.(job_events);
     job_acceptances := s.(job_acceptances); delivery_attempts := s.(delivery_attempts); route_reservations := s.(route_reservations);
     agent_commands := s.(agent_commands); next_cursor := s.(next_cursor); pending_resolutions := s.(pending_resolutions);
     resolutions := s.(resolutions); agent_event_receipts := s.(agent_event_receipts); recovery_checks := s.(recovery_checks);
     webhook_events := s.(webhook_events); usage_ledger := f s.(usage_ledger); entitlements := s.(entitlements);
     idempotency_requests := s.(idempotency_requests); consumed_envelopes := s.(consumed_envelopes); key_references := s.(key_references);
     wake_hints := s.(wake_hints); wake_outbox := s.(wake_outbox); wake_reconciliations := s.(wake_reconciliations) |}.
Definition on_entitlements (f : gmap string EntitlementRow → gmap string EntitlementRow) (s : Store) : Store :=
  {| topology := s.(topology); jobs := s.(jobs); job_events := s.(job_events);
     job_acceptances := s.(job_acceptances); delivery_attempts := s.(delivery_attempts); route_reservations := s.(route_reservations);
     agent_commands := s.(agent_commands); next_cursor := s.(next_cursor); pending_resolutions := s.(pending_resolutions);
     resolutions := s.(resolutions); agent_event_receipts := s.(agent_event_receipts); recovery_checks := s.(recovery_checks);
     webhook_events := s.(webhook_events); usage_ledger := s.(usage_ledger); entitlements := f s.(entitlements);
     idempotency_requests := s.(idempotency_requests); consumed_envelopes := s.(consumed_envelopes); key_references := s.(key_references);
     wake_hints := s.(wake_hints); wake_outbox := s.(wake_outbox); wake_reconciliations := s.(wake_reconciliations) |}.
Definition on_idempotency_requests (f : gmap (Tenant * string) (string * string * Z) → gmap (Tenant * string) (string * string * Z)) (s : Store) : Store :=
  {| topology := s.(topology); jobs := s.(jobs); job_events := s.(job_events);
     job_acceptances := s.(job_acceptances); delivery_attempts := s.(delivery_attempts); route_reservations := s.(route_reservations);
     agent_commands := s.(agent_commands); next_cursor := s.(next_cursor); pending_resolutions := s.(pending_resolutions);
     resolutions := s.(resolutions); agent_event_receipts := s.(agent_event_receipts); recovery_checks := s.(recovery_checks);
     webhook_events := s.(webhook_events); usage_ledger := s.(usage_ledger); entitlements := s.(entitlements);
     idempotency_requests := f s.(idempotency_requests); consumed_envelopes := s.(consumed_envelopes); key_references := s.(key_references);
     wake_hints := s.(wake_hints); wake_outbox := s.(wake_outbox); wake_reconciliations := s.(wake_reconciliations) |}.
Definition on_consumed_envelopes (f : gmap (Tenant * string) (string * string) → gmap (Tenant * string) (string * string)) (s : Store) : Store :=
  {| topology := s.(topology); jobs := s.(jobs); job_events := s.(job_events);
     job_acceptances := s.(job_acceptances); delivery_attempts := s.(delivery_attempts); route_reservations := s.(route_reservations);
     agent_commands := s.(agent_commands); next_cursor := s.(next_cursor); pending_resolutions := s.(pending_resolutions);
     resolutions := s.(resolutions); agent_event_receipts := s.(agent_event_receipts); recovery_checks := s.(recovery_checks);
     webhook_events := s.(webhook_events); usage_ledger := s.(usage_ledger); entitlements := s.(entitlements);
     idempotency_requests := s.(idempotency_requests); consumed_envelopes := f s.(consumed_envelopes); key_references := s.(key_references);
     wake_hints := s.(wake_hints); wake_outbox := s.(wake_outbox); wake_reconciliations := s.(wake_reconciliations) |}.
Definition on_key_references (f : gset (Tenant * string * string * string) → gset (Tenant * string * string * string)) (s : Store) : Store :=
  {| topology := s.(topology); jobs := s.(jobs); job_events := s.(job_events);
     job_acceptances := s.(job_acceptances); delivery_attempts := s.(delivery_attempts); route_reservations := s.(route_reservations);
     agent_commands := s.(agent_commands); next_cursor := s.(next_cursor); pending_resolutions := s.(pending_resolutions);
     resolutions := s.(resolutions); agent_event_receipts := s.(agent_event_receipts); recovery_checks := s.(recovery_checks);
     webhook_events := s.(webhook_events); usage_ledger := s.(usage_ledger); entitlements := s.(entitlements);
     idempotency_requests := s.(idempotency_requests); consumed_envelopes := s.(consumed_envelopes); key_references := f s.(key_references);
     wake_hints := s.(wake_hints); wake_outbox := s.(wake_outbox); wake_reconciliations := s.(wake_reconciliations) |}.
Definition on_wake_hints (f : gmap (Tenant * string * string) HintRow → gmap (Tenant * string * string) HintRow) (s : Store) : Store :=
  {| topology := s.(topology); jobs := s.(jobs); job_events := s.(job_events);
     job_acceptances := s.(job_acceptances); delivery_attempts := s.(delivery_attempts); route_reservations := s.(route_reservations);
     agent_commands := s.(agent_commands); next_cursor := s.(next_cursor); pending_resolutions := s.(pending_resolutions);
     resolutions := s.(resolutions); agent_event_receipts := s.(agent_event_receipts); recovery_checks := s.(recovery_checks);
     webhook_events := s.(webhook_events); usage_ledger := s.(usage_ledger); entitlements := s.(entitlements);
     idempotency_requests := s.(idempotency_requests); consumed_envelopes := s.(consumed_envelopes); key_references := s.(key_references);
     wake_hints := f s.(wake_hints); wake_outbox := s.(wake_outbox); wake_reconciliations := s.(wake_reconciliations) |}.
Definition on_wake_outbox (f : gmap (Tenant * string) OutboxRow → gmap (Tenant * string) OutboxRow) (s : Store) : Store :=
  {| topology := s.(topology); jobs := s.(jobs); job_events := s.(job_events);
     job_acceptances := s.(job_acceptances); delivery_attempts := s.(delivery_attempts); route_reservations := s.(route_reservations);
     agent_commands := s.(agent_commands); next_cursor := s.(next_cursor); pending_resolutions := s.(pending_resolutions);
     resolutions := s.(resolutions); agent_event_receipts := s.(agent_event_receipts); recovery_checks := s.(recovery_checks);
     webhook_events := s.(webhook_events); usage_ledger := s.(usage_ledger); entitlements := s.(entitlements);
     idempotency_requests := s.(idempotency_requests); consumed_envelopes := s.(consumed_envelopes); key_references := s.(key_references);
     wake_hints := s.(wake_hints); wake_outbox := f s.(wake_outbox); wake_reconciliations := s.(wake_reconciliations) |}.
Definition on_wake_reconciliations (f : gmap (Tenant * string * Z) nat → gmap (Tenant * string * Z) nat) (s : Store) : Store :=
  {| topology := s.(topology); jobs := s.(jobs); job_events := s.(job_events);
     job_acceptances := s.(job_acceptances); delivery_attempts := s.(delivery_attempts); route_reservations := s.(route_reservations);
     agent_commands := s.(agent_commands); next_cursor := s.(next_cursor); pending_resolutions := s.(pending_resolutions);
     resolutions := s.(resolutions); agent_event_receipts := s.(agent_event_receipts); recovery_checks := s.(recovery_checks);
     webhook_events := s.(webhook_events); usage_ledger := s.(usage_ledger); entitlements := s.(entitlements);
     idempotency_requests := s.(idempotency_requests); consumed_envelopes := s.(consumed_envelopes); key_references := s.(key_references);
     wake_hints := s.(wake_hints); wake_outbox := s.(wake_outbox); wake_reconciliations := f s.(wake_reconciliations) |}.

Definition on_agents (f : gmap string AgentRow → gmap string AgentRow) : Store → Store :=
  on_topology (λ t,
  {| agents := f t.(agents); node_connectors := t.(node_connectors); printer_routes := t.(printer_routes);
     physical_destinations := t.(physical_destinations); printers := t.(printers); targets := t.(targets);
     target_bindings := t.(target_bindings); uploads := t.(uploads); content_keys := t.(content_keys);
     environments := t.(environments); platform_accounts := t.(platform_accounts); workspaces := t.(workspaces);
     subscriptions := t.(subscriptions); site_memberships := t.(site_memberships); identity_evidence := t.(identity_evidence);
     identity_decisions := t.(identity_decisions); catalogue := t.(catalogue) |}).
Definition on_node_connectors (f : gmap (Tenant * string) ConnectorRow → gmap (Tenant * string) ConnectorRow) : Store → Store :=
  on_topology (λ t,
  {| agents := t.(agents); node_connectors := f t.(node_connectors); printer_routes := t.(printer_routes);
     physical_destinations := t.(physical_destinations); printers := t.(printers); targets := t.(targets);
     target_bindings := t.(target_bindings); uploads := t.(uploads); content_keys := t.(content_keys);
     environments := t.(environments); platform_accounts := t.(platform_accounts); workspaces := t.(workspaces);
     subscriptions := t.(subscriptions); site_memberships := t.(site_memberships); identity_evidence := t.(identity_evidence);
     identity_decisions := t.(identity_decisions); catalogue := t.(catalogue) |}).
Definition on_printer_routes (f : gmap (Tenant * string) RouteRow → gmap (Tenant * string) RouteRow) : Store → Store :=
  on_topology (λ t,
  {| agents := t.(agents); node_connectors := t.(node_connectors); printer_routes := f t.(printer_routes);
     physical_destinations := t.(physical_destinations); printers := t.(printers); targets := t.(targets);
     target_bindings := t.(target_bindings); uploads := t.(uploads); content_keys := t.(content_keys);
     environments := t.(environments); platform_accounts := t.(platform_accounts); workspaces := t.(workspaces);
     subscriptions := t.(subscriptions); site_memberships := t.(site_memberships); identity_evidence := t.(identity_evidence);
     identity_decisions := t.(identity_decisions); catalogue := t.(catalogue) |}).
Definition on_physical_destinations (f : gmap (Tenant * string) DestinationRow → gmap (Tenant * string) DestinationRow) : Store → Store :=
  on_topology (λ t,
  {| agents := t.(agents); node_connectors := t.(node_connectors); printer_routes := t.(printer_routes);
     physical_destinations := f t.(physical_destinations); printers := t.(printers); targets := t.(targets);
     target_bindings := t.(target_bindings); uploads := t.(uploads); content_keys := t.(content_keys);
     environments := t.(environments); platform_accounts := t.(platform_accounts); workspaces := t.(workspaces);
     subscriptions := t.(subscriptions); site_memberships := t.(site_memberships); identity_evidence := t.(identity_evidence);
     identity_decisions := t.(identity_decisions); catalogue := t.(catalogue) |}).
Definition on_target_bindings (f : gmap (Tenant * string) BindingRow → gmap (Tenant * string) BindingRow) : Store → Store :=
  on_topology (λ t,
  {| agents := t.(agents); node_connectors := t.(node_connectors); printer_routes := t.(printer_routes);
     physical_destinations := t.(physical_destinations); printers := t.(printers); targets := t.(targets);
     target_bindings := f t.(target_bindings); uploads := t.(uploads); content_keys := t.(content_keys);
     environments := t.(environments); platform_accounts := t.(platform_accounts); workspaces := t.(workspaces);
     subscriptions := t.(subscriptions); site_memberships := t.(site_memberships); identity_evidence := t.(identity_evidence);
     identity_decisions := t.(identity_decisions); catalogue := t.(catalogue) |}).
Definition on_site_memberships (f : gmap (Tenant * string * string) bool → gmap (Tenant * string * string) bool) : Store → Store :=
  on_topology (λ t,
  {| agents := t.(agents); node_connectors := t.(node_connectors); printer_routes := t.(printer_routes);
     physical_destinations := t.(physical_destinations); printers := t.(printers); targets := t.(targets);
     target_bindings := t.(target_bindings); uploads := t.(uploads); content_keys := t.(content_keys);
     environments := t.(environments); platform_accounts := t.(platform_accounts); workspaces := t.(workspaces);
     subscriptions := t.(subscriptions); site_memberships := f t.(site_memberships); identity_evidence := t.(identity_evidence);
     identity_decisions := t.(identity_decisions); catalogue := t.(catalogue) |}).
Definition on_identity_evidence (f : gmap (Tenant * string) (string * string) → gmap (Tenant * string) (string * string)) : Store → Store :=
  on_topology (λ t,
  {| agents := t.(agents); node_connectors := t.(node_connectors); printer_routes := t.(printer_routes);
     physical_destinations := t.(physical_destinations); printers := t.(printers); targets := t.(targets);
     target_bindings := t.(target_bindings); uploads := t.(uploads); content_keys := t.(content_keys);
     environments := t.(environments); platform_accounts := t.(platform_accounts); workspaces := t.(workspaces);
     subscriptions := t.(subscriptions); site_memberships := t.(site_memberships); identity_evidence := f t.(identity_evidence);
     identity_decisions := t.(identity_decisions); catalogue := t.(catalogue) |}).
Definition on_identity_decisions (f : gmap (Tenant * string) DecisionRow → gmap (Tenant * string) DecisionRow) : Store → Store :=
  on_topology (λ t,
  {| agents := t.(agents); node_connectors := t.(node_connectors); printer_routes := t.(printer_routes);
     physical_destinations := t.(physical_destinations); printers := t.(printers); targets := t.(targets);
     target_bindings := t.(target_bindings); uploads := t.(uploads); content_keys := t.(content_keys);
     environments := t.(environments); platform_accounts := t.(platform_accounts); workspaces := t.(workspaces);
     subscriptions := t.(subscriptions); site_memberships := t.(site_memberships); identity_evidence := t.(identity_evidence);
     identity_decisions := f t.(identity_decisions); catalogue := t.(catalogue) |}).

(** Row updates. *)
Definition with_payload (j : Job) (r : JobRow) : JobRow :=
  {| jr_tenant := r.(jr_tenant); jr_payload := j; jr_life := r.(jr_life);
     jr_lease := r.(jr_lease); jr_place := r.(jr_place); jr_expires_at := r.(jr_expires_at);
     jr_created_at := r.(jr_created_at); jr_uncertain_since := r.(jr_uncertain_since);
     jr_alerted_at := r.(jr_alerted_at) |}.
Definition with_life (l : LifeColumns) (r : JobRow) : JobRow :=
  {| jr_tenant := r.(jr_tenant); jr_payload := r.(jr_payload); jr_life := l;
     jr_lease := r.(jr_lease); jr_place := r.(jr_place); jr_expires_at := r.(jr_expires_at);
     jr_created_at := r.(jr_created_at); jr_uncertain_since := r.(jr_uncertain_since);
     jr_alerted_at := r.(jr_alerted_at) |}.
Definition with_lease (l : LeaseColumns) (r : JobRow) : JobRow :=
  {| jr_tenant := r.(jr_tenant); jr_payload := r.(jr_payload); jr_life := r.(jr_life);
     jr_lease := l; jr_place := r.(jr_place); jr_expires_at := r.(jr_expires_at);
     jr_created_at := r.(jr_created_at); jr_uncertain_since := r.(jr_uncertain_since);
     jr_alerted_at := r.(jr_alerted_at) |}.
Definition with_place (p : PlaceColumns) (r : JobRow) : JobRow :=
  {| jr_tenant := r.(jr_tenant); jr_payload := r.(jr_payload); jr_life := r.(jr_life);
     jr_lease := r.(jr_lease); jr_place := p; jr_expires_at := r.(jr_expires_at);
     jr_created_at := r.(jr_created_at); jr_uncertain_since := r.(jr_uncertain_since);
     jr_alerted_at := r.(jr_alerted_at) |}.
Definition with_uncertain_since (t : option Z) (r : JobRow) : JobRow :=
  {| jr_tenant := r.(jr_tenant); jr_payload := r.(jr_payload); jr_life := r.(jr_life);
     jr_lease := r.(jr_lease); jr_place := r.(jr_place); jr_expires_at := r.(jr_expires_at);
     jr_created_at := r.(jr_created_at); jr_uncertain_since := t;
     jr_alerted_at := r.(jr_alerted_at) |}.
Definition with_alerted_at (t : option Z) (r : JobRow) : JobRow :=
  {| jr_tenant := r.(jr_tenant); jr_payload := r.(jr_payload); jr_life := r.(jr_life);
     jr_lease := r.(jr_lease); jr_place := r.(jr_place); jr_expires_at := r.(jr_expires_at);
     jr_created_at := r.(jr_created_at); jr_uncertain_since := r.(jr_uncertain_since);
     jr_alerted_at := t |}.

(** Only [lease_until] of the lease columns. *)
Definition with_lease_until (u : option Z) (r : JobRow) : JobRow :=
  let l := r.(jr_lease) in
  with_lease {| lease_owner := l.(lease_owner); lease_id := l.(lease_id);
                lease_token_hash := l.(lease_token_hash); lease_until := u |} r.

Definition job_of (t : Tenant) (id : string) (s : Store) : option JobRow :=
  match s.(jobs) !! id with
  | Some r => if decide (r.(jr_tenant) = t) then Some r else None
  | None => None
  end.

Definition accepted (t : Tenant) (id : string) (s : Store) : bool :=
  match s.(job_acceptances) !! id with
  | Some a => bool_decide (a.(ac_tenant) = t)
  | None => false
  end.

Definition active_agent (t : Tenant) (agent : string) (s : Store) : bool :=
  match s.(topology).(agents) !! agent with
  | Some a => bool_decide (a.(ag_tenant) = t) && bool_decide (a.(ag_revoked_at) = None)
  | None => false
  end.

(** [ORDER BY created_at, id]. *)
Definition older (a b : string * JobRow) : bool :=
  if (a.2.(jr_created_at) =? b.2.(jr_created_at))%Z then String.leb a.1 b.1
  else (a.2.(jr_created_at) <? b.2.(jr_created_at))%Z.

Abbreviation Tx := (Txn Store).
Abbreviation Op := (Opn Store).

(** * External code

    SHA-256, base64, the JSON text of an encrypted upload's manifest and the text of a
    timestamp. *)
Class CloudExternal := {
  sha256 : string → string;
  base64_decode : string → option string;
  manifest_json : EncryptedContentManifest → string;
  rfc3339 : Z → string
}.

(** [str::eq_ignore_ascii_case]. *)
Definition ascii_lower (c : ascii) : ascii :=
  let n := N_of_ascii c in
  if ((65 <=? n) && (n <=? 90))%N then Ascii.ascii_of_N (n + 32) else c.
Fixpoint eq_ignore_ascii_case (a b : string) : bool :=
  match a, b with
  | String.EmptyString, String.EmptyString => true
  | String.String x a, String.String y b =>
    Ascii.eqb (ascii_lower x) (ascii_lower y) && eq_ignore_ascii_case a b
  | _, _ => false
  end.

(** * Integer columns *)

Definition u64_of_i64 (n : Z) : option N := if (n <? 0)%Z then None else Some (Z.to_N n).
Definition i64_of_u64 (n : N) : option Z := if (i64_max <? Z.of_N n)%Z then None else Some (Z.of_N n).

(** [state_sequence + 1] on i64, as a release build computes it. *)
Definition i64_succ (n : Z) : Z := if (n =? i64_max)%Z then i64_min else (n + 1)%Z.

Definition event_sequence (n : Z) : result StorageError N :=
  ok_or (u64_of_i64 (i64_succ n)) (InvalidData "event sequence").

(** * Events, the webhook outbox and usage *)

Definition job_from_row (r : JobRow) : Job := set_job_state r.(jr_life).(state) r.(jr_payload).

(** The latest event of a job: [ORDER BY sequence DESC LIMIT 1]. *)
Definition later_event (a : option JobEvent) (b : JobEvent) : option JobEvent :=
  match a with
  | Some e => if (e.(je_sequence) <? b.(je_sequence))%N then Some b else Some e
  | None => Some b
  end.
Definition latest_event (t : Tenant) (id : string) (s : Store) : option JobEvent :=
  foldl later_event None
    ((λ e : string * N * EventRow, e.2.(er_event)) <$>
      select_rows (λ k e, bool_decide (k.1 = id) && bool_decide (e.(er_tenant) = t)) s.(job_events)).

(** [event.payload->>'reason'='node_update_required' AND event.payload->>'agent_id' IS NULL]
    of the latest event: the server blocked the job for a missing capability. *)
Definition blocked_by_server (t : Tenant) (id : string) (s : Store) : bool :=
  match latest_event t id s with
  | Some e => bool_decide (e.(je_reason) = Some NodeUpdateRequired)
              && bool_decide (e.(je_agent_id) = None)
  | None => false
  end.

(** A new row of [agent_commands]; the column [cursor] is an identity. *)
Definition insert_command (t : Tenant) (agent : string) (command : AgentCommand) : Tx Z :=
  known ← query (λ s, bool_decide (is_Some (s.(topology).(agents) !! agent)));
  _ ← ensure known (Database "agent_commands_agent_id_fkey");
  cursor ← query next_cursor;
  _ ← execute (on_agent_commands
    <[cursor := {| cm_tenant := t; cm_agent_id := agent; cm_command := command;
                   cm_delivered_at := None; cm_acknowledged_at := None |}]>);
  _ ← execute (on_next_cursor (Z.add 1));
  mret cursor.

Definition insert_event (j : Job) (e : JobEvent) : Tx unit :=
  _ ← pure_result (ok_or (i64_of_u64 e.(je_sequence)) (InvalidData "event sequence overflow"));
  taken ← query (λ s, exists_row (λ _ r, bool_decide (r.(er_event).(je_id) = e.(je_id))) s.(job_events));
  _ ← ensure (negb taken) (Database "job_events_pkey");
  used ← query (λ s, s.(job_events) !! (e.(je_job_id), e.(je_sequence)));
  _ ← ensure (bool_decide (used = None)) (Database "job_events_job_id_sequence_key");
  execute (on_job_events
    <[(e.(je_job_id), e.(je_sequence)) := {| er_tenant := j.(j_tenant); er_event := e |}]>).

Definition update_job (id : string) (f : JobRow → JobRow) : Tx unit := execute (on_jobs (alter f id)).

Definition enqueue_webhook_event_in_transaction (key : string) (t : Tenant) (event_type : string)
    (payload : Job) : Tx unit :=
  execute (λ s, match s.(webhook_events) !! (t, key) with
                | Some _ => s
                | None => on_webhook_events <[(t, key) := (event_type, payload)]> s
                end).

(** The workspace that pays. *)
Definition billing_owner (workspace : string) (s : Store) : option string :=
  account ← s.(topology).(workspaces) !! workspace;
  Some (match account ≫= λ a, s.(topology).(platform_accounts) !! a with
        | Some (owner, false) => owner
        | _ => workspace
        end).

Definition lock_billing_period (workspace : string) : Tx string :=
  fetch (billing_owner workspace) NotFound.

Definition record_reported_complete_usage (t : Tenant) (id : string) (occurred_at : Z) : Tx unit :=
  _ ← lock_billing_period t.1;
  execute (λ s,
    match s.(topology).(environments) !! t, s.(usage_ledger) !! id with
    | Some kind, None =>
      if decide (kind = "live"%string) then on_usage_ledger <[id := (t, occurred_at)]> s else s
    | _, _ => s
    end).

Section keys.
Context `{CloudExternal}.

Definition newline : string := String.String (Ascii.ascii_of_N 10) String.EmptyString.

Definition tenant_job_text (t : Tenant) (id : string) : string :=
  t.1 +:+ newline +:+ t.2 +:+ newline +:+ id.

Definition acceptance_revocation_webhook_idempotency_key (t : Tenant) (id event_type : string) : string :=
  "acceptance-revocation:" +:+ hex (sha256 (tenant_job_text t id +:+ newline +:+ event_type)).
Definition agent_acceptance_webhook_idempotency_key (t : Tenant) (id : string) : string :=
  "agent-acceptance:" +:+ hex (sha256 (tenant_job_text t id)).
Definition preaccept_cancellation_webhook_idempotency_key (t : Tenant) (id : string) : string :=
  "preaccept-cancellation:" +:+ hex (sha256 (tenant_job_text t id)).
Definition sequence_key (name : string) (t : Tenant) (id : string) (sequence : N) : string :=
  name +:+ hex (sha256 (tenant_job_text t id +:+ newline +:+ pretty sequence)).
Definition node_update_required_webhook_idempotency_key := sequence_key "node-update-required:".
Definition node_capability_recovered_webhook_idempotency_key :=
  sequence_key "node-capability-recovered:".
Definition prehandoff_failure_webhook_idempotency_key := sequence_key "prehandoff-failure:".
Definition prehandoff_expiry_webhook_idempotency_key := sequence_key "prehandoff-expiry:".

(** [token_digest] and the hashes of lease tokens. *)
Definition token_digest (token : string) : string := hex (sha256 token).

End keys.

(** * Attempts and reservations *)

Definition set_attempt (st : DeliveryAttemptState) (final : option Z) (a : AttemptRow) : AttemptRow :=
  {| at_tenant := a.(at_tenant); at_id := a.(at_id); at_job_id := a.(at_job_id);
     at_destination_id := a.(at_destination_id); at_route_id := a.(at_route_id);
     at_generation := a.(at_generation); at_fencing_token_hash := a.(at_fencing_token_hash);
     at_state := st; at_lease_until := a.(at_lease_until);
     at_accepted_at := a.(at_accepted_at);
     at_handoff_started_at := a.(at_handoff_started_at);
     at_spooler_accepted_at := a.(at_spooler_accepted_at);
     at_final_at := final; at_created_at := a.(at_created_at) |}.

Definition set_attempt_times (accepted handoff spooler : option Z) (a : AttemptRow) : AttemptRow :=
  {| at_tenant := a.(at_tenant); at_id := a.(at_id); at_job_id := a.(at_job_id);
     at_destination_id := a.(at_destination_id); at_route_id := a.(at_route_id);
     at_generation := a.(at_generation); at_fencing_token_hash := a.(at_fencing_token_hash);
     at_state := a.(at_state); at_lease_until := a.(at_lease_until);
     at_accepted_at := accepted; at_handoff_started_at := handoff;
     at_spooler_accepted_at := spooler;
     at_final_at := a.(at_final_at); at_created_at := a.(at_created_at) |}.

Definition set_attempt_lease (until : Z) (a : AttemptRow) : AttemptRow :=
  {| at_tenant := a.(at_tenant); at_id := a.(at_id); at_job_id := a.(at_job_id);
     at_destination_id := a.(at_destination_id); at_route_id := a.(at_route_id);
     at_generation := a.(at_generation); at_fencing_token_hash := a.(at_fencing_token_hash);
     at_state := a.(at_state); at_lease_until := until;
     at_accepted_at := a.(at_accepted_at);
     at_handoff_started_at := a.(at_handoff_started_at);
     at_spooler_accepted_at := a.(at_spooler_accepted_at);
     at_final_at := a.(at_final_at); at_created_at := a.(at_created_at) |}.

Definition set_reservation (st : ReservationState) (released : option Z) (r : ReservationRow) :
    ReservationRow :=
  {| rs_tenant := r.(rs_tenant); rs_id := r.(rs_id); rs_route_id := r.(rs_route_id);
     rs_destination_id := r.(rs_destination_id); rs_job_id := r.(rs_job_id);
     rs_attempt_id := r.(rs_attempt_id); rs_generation := r.(rs_generation);
     rs_fencing_token_hash := r.(rs_fencing_token_hash); rs_state := st;
     rs_lease_until := r.(rs_lease_until); rs_released_at := released;
     rs_created_at := r.(rs_created_at) |}.

Definition set_reservation_lease (until : Z) (r : ReservationRow) : ReservationRow :=
  {| rs_tenant := r.(rs_tenant); rs_id := r.(rs_id); rs_route_id := r.(rs_route_id);
     rs_destination_id := r.(rs_destination_id); rs_job_id := r.(rs_job_id);
     rs_attempt_id := r.(rs_attempt_id); rs_generation := r.(rs_generation);
     rs_fencing_token_hash := r.(rs_fencing_token_hash); rs_state := r.(rs_state);
     rs_lease_until := until; rs_released_at := r.(rs_released_at);
     rs_created_at := r.(rs_created_at) |}.

(** [UPDATE delivery_attempts SET state, final_at WHERE tenant AND p AND final_at IS NULL]. *)
Definition finish_attempts (t : Tenant) (p : AttemptRow → bool) (st : DeliveryAttemptState)
    (now : Z) : Store → Store :=
  on_delivery_attempts (update_where
    (λ a, bool_decide (a.(at_tenant) = t) && p a && bool_decide (a.(at_final_at) = None))
    (set_attempt st (Some now))).

(** [UPDATE route_reservations SET state, released_at WHERE tenant AND p AND state='active']. *)
Definition release_reservations (t : Tenant) (p : ReservationRow → bool) (st : ReservationState)
    (now : Z) : Store → Store :=
  on_route_reservations (update_where
    (λ r, bool_decide (r.(rs_tenant) = t) && p r && bool_decide (r.(rs_state) = Active))
    (set_reservation st (Some now))).

Definition of_job (id : string) (a : AttemptRow) : bool := bool_decide (a.(at_job_id) = id).
Definition reserved_for (id : string) (r : ReservationRow) : bool := bool_decide (r.(rs_job_id) = id).
Definition reserved_by (ids : list string) (r : ReservationRow) : bool :=
  bool_decide (r.(rs_attempt_id) ∈ ids).

(** [supersede_pre_handoff_delivery_attempts]. *)
Definition supersede_pre_handoff_delivery_attempts (c : Clock) (t : Tenant) (id : string) : Tx bool :=
  attempts ← query (λ s, select_rows
    (λ _ a, bool_decide (a.(at_tenant) = t) && of_job id a && bool_decide (a.(at_final_at) = None))
    s.(delivery_attempts));
  if existsb (λ e, negb (bool_decide (e.2.(at_state) = Attempt.RouteLeased))) attempts
  then mret false else
  let ids := (λ e : Tenant * string * AttemptRow, e.2.(at_id)) <$> attempts in
  if bool_decide (ids = []) then mret true else
  _ ← execute (finish_attempts t
        (λ a, bool_decide (a.(at_id) ∈ ids) && bool_decide (a.(at_state) = Attempt.RouteLeased))
        Attempt.Superseded c.(utc_now));
  _ ← execute (release_reservations t (reserved_by ids) ReservationSuperseded c.(utc_now));
  mret true.
