(* ===== verification/CloudWake.v ===== *)
(** Wake hints of the control plane's store (crates/storage-postgres/src/lib.rs): the
    hints and outbox rows that a job's arrival in the queue leaves for sleeping nodes, and
    the outbox that delivers them. *)

From S2P Require Import Prelude Domain CloudStore.

Definition MAX_AUTOMATIC_WAKE_CANDIDATES : nat := 16.

Section wake.
Context `{CloudExternal}.
Variable c : Clock.

(** A route over which a sleeping node could print. *)
Definition wakeable_route (t : Tenant) (destination : string) (s : Store)
    (k : Tenant * string) (r : RouteRow) : bool :=
  bool_decide (k.1 = t) && bool_decide (r.(rt_destination_id) = destination) && r.(rt_enabled)
  && negb (bool_decide (r.(rt_role) = Disabled)) && bool_decide (r.(rt_retired_at) = None)
  && bool_decide (r.(rt_state) ∈ [RouteUnknown; RouteAvailable; RouteUnavailable; RouteStale])
  && active_agent t r.(rt_agent_id) s.

(** [ORDER BY]: the assigned node first, then the best role, the lowest priority number and
    the identifier; grouped by node. *)
Definition role_rank (r : RouteRole) : Z := match r with Primary => 0 | _ => 1 end.
Definition route_rank (assigned : string) (routes : list RouteRow) (agent : string) : Z * Z * Z :=
  let mine := filter (λ r, r.(rt_agent_id) = agent) routes in
  let least (f : RouteRow → Z) :=
    match mine with r :: rs => foldl (λ m r, Z.min m (f r)) (f r) rs | [] => 0%Z end in
  (if decide (agent = assigned) then 0 else 1, least (λ r, role_rank r.(rt_role)), least rt_priority)%Z.
Definition rank_le (x y : (Z * Z * Z) * string) : bool :=
  let '(a1, b1, c1, i1) := x in
  let '(a2, b2, c2, i2) := y in
  if negb (a1 =? a2)%Z then (a1 <? a2)%Z else
  if negb (b1 =? b2)%Z then (b1 <? b2)%Z else
  if negb (c1 =? c2)%Z then (c1 <? c2)%Z else String.leb i1 i2.

Definition candidate_agents (t : Tenant) (r : JobRow) (s : Store) : list string :=
  let assigned := r.(jr_place).(agent_id) in
  match r.(jr_place).(destination_id) with
  | Some destination =>
    let routes := snd <$> select_rows (wakeable_route t destination s) s.(topology).(printer_routes) in
    take MAX_AUTOMATIC_WAKE_CANDIDATES
      (snd <$> sort_by rank_le
        ((λ a, (route_rank assigned routes a, a)) <$> remove_dups (rt_agent_id <$> routes)))
  | None => if active_agent t assigned s then [assigned] else []
  end.

Definition wake_key (t : Tenant) (id : string) (sequence : N) (agent : string) : string :=
  "automatic-wake:" +:+ hex (sha256
    (t.1 +:+ ":" +:+ t.2 +:+ ":" +:+ id +:+ ":" +:+ pretty sequence +:+ ":" +:+ agent)).

(** The hint of one node, and its outbox row unless it has one. *)
Definition wake_agent (t : Tenant) (id : string) (sequence : N) (requested_at : Z) (agent : string) :
    Tx unit :=
  let k := (t, agent, wake_key t id sequence agent) in
  let fresh := {| wh_id := c.(new_hint_id) id sequence agent; wh_status := HintPending;
                  wh_requested_at := requested_at;
                  wh_expires_at := requested_at + seconds 300 |} in
  _ ← execute (λ s, match s.(wake_hints) !! k with
                    | Some _ => s
                    | None => on_wake_hints <[k := fresh]> s
                    end);
  hint ← fetch (λ s, s.(wake_hints) !! k) NotFound;
  execute (λ s, match s.(wake_outbox) !! (t, hint.(wh_id)) with
                | Some _ => s
                | None => on_wake_outbox
                    <[(t, hint.(wh_id)) :=
                       {| ob_id := c.(new_outbox_id) hint.(wh_id); ob_attempts := 0;
                          ob_available_at := c.(sql_now); ob_created_at := c.(sql_now);
                          ob_claimed_until := None; ob_processed_at := None |}]> s
                end).

Definition ensure_waiting_job_wake_hints_in_transaction (t : Tenant) (id : string) (sequence : N)
    (requested_at : Z) : Tx nat :=
  n ← pure_result (ok_or (i64_of_u64 sequence) (InvalidData "state sequence"));
  done ← query (λ s, s.(wake_reconciliations) !! (t, id, n));
  match done with
  | Some count => mret count
  | None =>
    r ← fetch (λ s, match job_of t id s with
                    | Some r => if decide (r.(jr_life).(state) = WaitingForAgent
                                           ∧ r.(jr_life).(state_sequence) = n) then Some r else None
                    | None => None
                    end) ConcurrentStateChange;
    agents ← query (candidate_agents t r);
    _ ← for_each (wake_agent t id sequence requested_at) agents;
    _ ← execute (on_wake_reconciliations <[(t, id, n) := length agents]>);
    mret (length agents)
  end.

Definition ensure_waiting_job_wake_hints (t : Tenant) (id : string) : Tx nat :=
  r ← fetch (job_of t id) NotFound;
  if decide (r.(jr_life).(state) ≠ WaitingForAgent) then mret 0 else
  sequence ← pure_result (ok_or (u64_of_i64 r.(jr_life).(state_sequence)) (InvalidData "state sequence"));
  ensure_waiting_job_wake_hints_in_transaction t id sequence c.(utc_now).

(** * Delivery of the hints *)

Definition hint_of (t : Tenant) (hint : string) (s : Store) : option HintRow :=
  snd <$> head (select_rows (λ k h, bool_decide (k.1.1 = t) && bool_decide (h.(wh_id) = hint)) s.(wake_hints)).

Definition set_processed (at_ : Z) (o : OutboxRow) : OutboxRow :=
  {| ob_id := o.(ob_id); ob_attempts := o.(ob_attempts); ob_available_at := o.(ob_available_at);
     ob_created_at := o.(ob_created_at); ob_claimed_until := None;
     ob_processed_at := Some (default at_ o.(ob_processed_at)) |}.

(** Hints that are no longer pending, or have expired, are never dispatched. *)
Definition stale_hint (s : Store) (k : Tenant * string) : bool :=
  match hint_of k.1 k.2 s with
  | Some h => negb (bool_decide (h.(wh_status) = HintPending)) || (h.(wh_expires_at) <=? c.(sql_now))%Z
  | None => false
  end.
Definition retire_stale (s : Store) : Store :=
  on_wake_outbox (map_imap (λ k o,
    Some (if bool_decide (o.(ob_processed_at) = None) && stale_hint s k
          then set_processed c.(sql_now) o else o))) s.

Definition set_status (st : HintStatus) (h : HintRow) : HintRow :=
  {| wh_id := h.(wh_id); wh_status := st; wh_requested_at := h.(wh_requested_at);
     wh_expires_at := h.(wh_expires_at) |}.
Definition expire_hints : Store → Store :=
  on_wake_hints (update_where
    (λ h, bool_decide (h.(wh_status) = HintPending) && (h.(wh_expires_at) <=? c.(sql_now))%Z)
    (set_status HintExpired)).

(** Rows processed, and hints settled, more than seven days ago, and rows without a hint. *)
Definition week_ago : Z := c.(sql_now) - seconds 604800.
Definition forget_old (s : Store) : Store :=
  let s1 := on_wake_outbox (filter (λ e,
              from_option (λ p, week_ago <=? p)%Z true e.2.(ob_processed_at) = true)) s in
  let s2 := on_wake_outbox (filter (λ e, is_Some (hint_of e.1.1 e.1.2 s1))) s1 in
  on_wake_hints (filter (λ e, e.2.(wh_status) = HintPending ∨ (week_ago ≤ e.2.(wh_expires_at))%Z)) s2.

Definition dispatchable (s : Store) (k : Tenant * string) (o : OutboxRow) : bool :=
  bool_decide (o.(ob_processed_at) = None) && (o.(ob_available_at) <=? c.(sql_now))%Z
  && negb (time_after o.(ob_claimed_until) c.(sql_now))
  && match hint_of k.1 k.2 s with
     | Some h => bool_decide (h.(wh_status) = HintPending) && (c.(sql_now) <? h.(wh_expires_at))%Z
     | None => false
     end.

Definition outbox_le (a b : Tenant * string * OutboxRow) : bool :=
  if negb (a.2.(ob_available_at) =? b.2.(ob_available_at))%Z
  then (a.2.(ob_available_at) <? b.2.(ob_available_at))%Z else
  if negb (a.2.(ob_created_at) =? b.2.(ob_created_at))%Z
  then (a.2.(ob_created_at) <? b.2.(ob_created_at))%Z else String.leb a.2.(ob_id) b.2.(ob_id).

Definition claim_row (o : OutboxRow) : OutboxRow :=
  {| ob_id := o.(ob_id); ob_attempts := o.(ob_attempts) + 1; ob_available_at := o.(ob_available_at);
     ob_created_at := o.(ob_created_at); ob_claimed_until := Some (c.(sql_now) + seconds 30)%Z;
     ob_processed_at := o.(ob_processed_at) |}.

(** [locked] are the rows that another worker holds: [SKIP LOCKED]. *)
Definition claim_wake_hint_dispatches (locked : Tenant * string → bool) (limit : Z) :
    Tx (list (OutboxRow * HintRow)) :=
  _ ← execute retire_stale;
  _ ← execute expire_hints;
  _ ← execute retire_stale;
  _ ← execute forget_old;
  rows ← query (λ s, take (clamp limit 1 100) (sort_by outbox_le
    (select_rows (λ k o, dispatchable s k o && negb (locked k)) s.(wake_outbox))));
  _ ← for_each (λ e : Tenant * string * OutboxRow, execute (on_wake_outbox (alter claim_row e.1))) rows;
  query (λ s, omap (λ e : Tenant * string * OutboxRow,
                (λ h, (claim_row e.2, h)) <$> hint_of e.1.1 e.1.2 s) rows).

Definition unprocessed (outbox_id : string) (o : OutboxRow) : bool :=
  bool_decide (o.(ob_id) = outbox_id) && bool_decide (o.(ob_processed_at) = None).

Definition complete_wake_hint_dispatch (outbox_id : string) : Tx unit :=
  found ← query (λ s, exists_row (λ _ o, unprocessed outbox_id o) s.(wake_outbox));
  _ ← ensure found ConcurrentStateChange;
  execute (on_wake_outbox (update_where (unprocessed outbox_id) (set_processed c.(sql_now)))).

Definition set_available (at_ : Z) (o : OutboxRow) : OutboxRow :=
  {| ob_id := o.(ob_id); ob_attempts := o.(ob_attempts); ob_available_at := at_;
     ob_created_at := o.(ob_created_at); ob_claimed_until := None;
     ob_processed_at := o.(ob_processed_at) |}.

Definition retry_wake_hint_dispatch (outbox_id : string) (delay_ms : Z) : Tx unit :=
  execute (on_wake_outbox (update_where (unprocessed outbox_id)
    (set_available (c.(sql_now) + delay_ms * 1000)))).

(** A node fetched its hints with a sync: those that ran out are closed, old ones are
    forgotten, and the oldest pending ones are handed over. *)
Definition hint_le (a b : Tenant * string * string * HintRow) : bool :=
  if negb (a.2.(wh_requested_at) =? b.2.(wh_requested_at))%Z
  then (a.2.(wh_requested_at) <? b.2.(wh_requested_at))%Z else String.leb a.2.(wh_id) b.2.(wh_id).
Definition hint_for (t : Tenant) (agent : string) (k : Tenant * string * string) : bool :=
  bool_decide (k.1 = (t, agent)).
Definition settle_outbox (t : Tenant) (agent : string) (observed_at : Z) (s : Store) : Store :=
  on_wake_outbox (map_imap (λ k o,
    Some (if bool_decide (k.1 = t)
             && exists_row (λ q h, hint_for t agent q && bool_decide (h.(wh_id) = k.2)
                                   && negb (bool_decide (h.(wh_status) = HintPending))) s.(wake_hints)
          then set_processed observed_at o else o))) s.
Definition observe_pending_node_wake_hints (locked : Tenant * string * string → bool) (t : Tenant) (agent : string)
    (observed_at limit : Z) : Tx (list HintRow) :=
  _ ← execute (on_wake_hints (map_imap (λ k h,
        Some (if hint_for t agent k && bool_decide (h.(wh_status) = HintPending) && (h.(wh_expires_at) <=? observed_at)%Z
              then set_status HintExpired h else h))));
  _ ← execute (on_wake_hints (filter (λ e,
        (hint_for t agent e.1 && negb (bool_decide (e.2.(wh_status) = HintPending))
         && (e.2.(wh_expires_at) <? observed_at - seconds 604800)%Z) = false)));
  rows ← query (λ s, take (clamp limit 1 100) (sort_by hint_le
    (select_rows (λ k h, hint_for t agent k && bool_decide (h.(wh_status) = HintPending)
                         && (observed_at <? h.(wh_expires_at))%Z && negb (locked k)) s.(wake_hints))));
  _ ← for_each (λ e : Tenant * string * string * HintRow,
        execute (on_wake_hints (alter (set_status HintObserved) e.1))) rows;
  _ ← execute (settle_outbox t agent observed_at);
  mret (snd <$> rows).

End wake.
