(* ===== verification/CloudJobs.v ===== *)
(** The life of a job in the control plane's store
    (crates/storage-postgres/src/lib.rs): creation under an idempotency key, events of
    the server and of nodes, cancellation, leases, the transitions the server makes before
    a handoff, expiry, and the sweep for stuck uncertain jobs. *)

From S2P Require Import Prelude Domain CloudStore CloudWake.

(** * Creation *)

Inductive CreateJobResult := Created (j : Job) | Existing (j : Job).

Section jobs.
Context `{CloudExternal}.
Variable c : Clock.

Definition find_idempotent_job (t : Tenant) (key request_hash : string) : Tx (option Job) :=
  row ← query (λ s, s.(idempotency_requests) !! (t, key));
  match row with
  | Some (hash, resource, expires_at) =>
    if (expires_at <=? c.(sql_now))%Z then mret None else
    if decide (hash = request_hash) then
      r ← fetch (job_of t resource) NotFound;
      mret (Some (job_from_row r))
    else abort IdempotencyConflict
  | None => mret None
  end.

(** The free plan and its entitlement row. *)
Definition free_entitlement : EntitlementRow :=
  {| en_plan := "free"; en_included_jobs := 100; en_accept_new_cloud_jobs := true |}.

(** The workspaces that [owner] pays for. *)
Definition billed_to (owner : string) (s : Store) (workspace : string) : bool :=
  bool_decide (workspace = owner) ||
  match s.(topology).(workspaces) !! workspace with
  | Some (Some account) =>
    match s.(topology).(platform_accounts) !! account with
    | Some (o, false) => bool_decide (o = owner)
    | _ => false
    end
  | _ => false
  end.

(** Units of the calendar month: a row is one unit. *)
Definition accepted_jobs (owner : string) (s : Store) : Z :=
  Z.of_nat (length (select_rows
    (λ _ (u : Tenant * Z), billed_to owner s u.1.1
       && ((c.(month_start) <=? u.2) && (u.2 <? c.(month_end)))%Z) s.(usage_ledger))).

Definition subscription_allows (o : option SubscriptionRow) : bool :=
  match o with
  | None => true
  | Some b => bool_decide (b.(sb_status) ∈ ["active"; "trialing"]%string)
              || bool_decide (b.(sb_status) = "past_due"%string)
                 && time_after b.(sb_grace_ends_at) c.(utc_now)
  end.

Definition enforce_cloud_job_admission (t : Tenant) : Tx unit :=
  kind ← fetch (λ s, s.(topology).(environments) !! t) NotFound;
  if decide (kind = "test"%string) then mret () else
  if decide (kind ≠ "live"%string) then abort (InvalidData "invalid environment kind") else
  owner ← lock_billing_period t.1;
  _ ← execute (λ s, match s.(entitlements) !! owner with
                    | Some _ => s
                    | None => on_entitlements <[owner := free_entitlement]> s
                    end);
  row ← fetch (λ s, s.(entitlements) !! owner) NotFound;
  subscription ← query (λ s, s.(topology).(subscriptions) !! owner);
  if negb row.(en_accept_new_cloud_jobs) || negb (subscription_allows subscription)
  then abort BillingBlocked else
  if decide (row.(en_plan) = "pro"%string) then mret () else
  if decide (row.(en_plan) ≠ "free"%string) then abort (InvalidData "unsupported billing plan") else
  used ← query (accepted_jobs owner);
  if (row.(en_included_jobs) <=? used)%Z then abort QuotaExceeded else mret ().

(** [COALESCE(MAX(per_printer_sequence), 0) + 1]. *)
Definition next_printer_sequence (t : Tenant) (printer : string) (s : Store) : Z :=
  (foldl Z.max 0 ((λ e : string * JobRow, e.2.(jr_place).(per_printer_sequence)) <$>
    select_rows (λ _ r, bool_decide (r.(jr_tenant) = t)
                        && bool_decide (r.(jr_place).(printer_id) = printer)) s.(jobs)) + 1)%Z.

Definition enabled_route (t : Tenant) (route destination printer agent : string) (s : Store) : bool :=
  match s.(topology).(printer_routes) !! (t, route) with
  | Some r => bool_decide (r.(rt_destination_id) = destination)
              && bool_decide (r.(rt_printer_id) = printer)
              && bool_decide (r.(rt_agent_id) = agent)
              && r.(rt_enabled) && bool_decide (r.(rt_retired_at) = None)
  | None => false
  end.

(** The CHECK constraint on envelope identifiers. *)
Definition envelope_char (a : ascii) : bool :=
  let n := N_of_ascii a in
  ((48 <=? n) && (n <=? 57) || (65 <=? n) && (n <=? 90) || (97 <=? n) && (n <=? 122)
   || (n =? 95) || (n =? 45))%N.
Definition valid_envelope_id (envelope : string) : bool :=
  match Domain.strip_prefix "env_" envelope with
  | Some rest => (20 <=? String.length rest) && (String.length rest <=? 255)
                 && bytes_all envelope_char rest
  | None => false
  end.

(** The encrypted upload's envelope is used up by its first job. *)
Definition consume_envelope (j : Job) (m : EncryptedContentManifest) : Tx (option Job) :=
  let digest := hex (sha256 (manifest_json m)) in
  let k := (j.(j_tenant), m.(manifest_binding).(envelope_id)) in
  row ← query (λ s, s.(consumed_envelopes) !! k);
  match row with
  | None =>
    _ ← ensure (valid_envelope_id m.(manifest_binding).(envelope_id)) (Database "envelope_id");
    _ ← execute (on_consumed_envelopes <[k := (digest, j.(j_id))]>); mret None
  | Some (existing, id) =>
    r ← fetch (λ s, s.(jobs) !! id) IdempotencyConflict;
    if decide (existing = digest) then mret (Some (job_from_row r)) else abort IdempotencyConflict
  end.

(** A key of the node that may still open the upload. *)
Definition admissible_key (t : Tenant) (agent key : string) (s : Store) : bool :=
  match s.(topology).(content_keys) !! (t, agent, key) with
  | Some k => bool_decide (k.(ck_algorithm) = "ECDH-P256-HKDF-SHA256"%string)
              && (bool_decide (k.(ck_lifecycle_state) = "active"%string)
                  || bool_decide (k.(ck_lifecycle_state) = "decrypt_only"%string)
                     && (c.(sql_now) - seconds 900 <? k.(ck_state_changed_at))%Z)
  | None => false
  end.

Definition reference_key (j : Job) (agent : string) (r : EncryptedContentRecipient) : Tx bool :=
  let k := (j.(j_tenant), agent, r.(recipient_key_id), j.(j_id)) in
  fresh ← query (λ s, admissible_key j.(j_tenant) agent r.(recipient_key_id) s
                      && negb (bool_decide (k ∈ s.(key_references))));
  if fresh : bool then _ ← execute (on_key_references (λ ks, {[k]} ∪ ks)); mret true
  else mret false.

Definition reference_keys (j : Job) (agent : string) (m : EncryptedContentManifest) : Tx unit :=
  referenced ← for_each (reference_key j agent)
    (filter (λ r, r.(recipient_algorithm) = ENCRYPTED_JOB_V3_RECIPIENT_ALGORITHM) m.(recipients));
  ensure (existsb id referenced)
    (InvalidData "encrypted job has no admissible recipient key for its node").

Definition new_job_row (j : Job) (agent : string) (sequence : Z) (destination route : option string) :
    JobRow :=
  {| jr_tenant := j.(j_tenant); jr_payload := j;
     jr_life := {| state := j.(j_state); state_sequence := 1; final_at := None |};
     jr_lease := no_lease;
     jr_place := {| agent_id := agent; printer_id := j.(j_printer_id);
                    per_printer_sequence := sequence; destination_id := destination;
                    route_id := route |};
     jr_expires_at := j.(j_expires_at); jr_created_at := j.(j_created_at);
     jr_uncertain_since := None; jr_alerted_at := None |}.

(** The insertion of the row with its keys: the primary key, the references to agent,
    printer and environment. *)
Definition insert_job (j : Job) (agent : string) (sequence : Z) (destination route : option string) :
    Tx unit :=
  valid ← query (λ s, bool_decide (s.(jobs) !! j.(j_id) = None)
    && bool_decide (is_Some (s.(topology).(agents) !! agent))
    && bool_decide (is_Some (s.(topology).(printers) !! (j.(j_tenant), j.(j_printer_id))))
    && bool_decide (is_Some (s.(topology).(environments) !! j.(j_tenant))));
  _ ← ensure valid (Database "jobs");
  execute (on_jobs <[j.(j_id) := new_job_row j agent sequence destination route]>).

Definition registered_event (j : Job) : JobEvent :=
  {| je_id := c.(new_event_id) j.(j_id) 1; je_job_id := j.(j_id); je_sequence := 1;
     je_state := j.(j_state); je_reason := None; je_message := Some "Job durably registered"%string;
     je_agent_id := None; je_native_job_id := None; je_occurred_at := j.(j_created_at) |}.

(** What follows the answers that find an existing job. *)
Definition create_new_job (j : Job) (agent : string) (key : option string) (request_hash : string)
    (enforce_cloud_billing : bool) : Tx CreateJobResult :=
  let t := j.(j_tenant) in
  _ ← (if enforce_cloud_billing then enforce_cloud_job_admission t else mret ());
  sequence ← query (next_printer_sequence t j.(j_printer_id));
  let destination := j.(j_metadata) !! "piqae.destination_id" in
  let route := j.(j_metadata) !! "piqae.route_id" in
  _ ← (match destination, route with
       | Some d, Some r =>
         valid ← query (enabled_route t r d j.(j_printer_id) agent); ensure valid NotFound
       | None, None => mret ()
       | _, _ => abort (InvalidData "destination and route metadata must be provided together")
       end);
  _ ← insert_job j agent sequence destination route;
  _ ← (match j.(j_content) with
       | EncryptedUpload _ m => reference_keys j agent m
       | _ => mret ()
       end);
  _ ← insert_event j (registered_event j);
  _ ← (match key with
       | Some key =>
         taken ← query (λ s, s.(idempotency_requests) !! (t, key));
         _ ← ensure (bool_decide (taken = None)) (Database "idempotency_requests_pkey");
         execute (on_idempotency_requests
           <[(t, key) := (request_hash, j.(j_id), (c.(sql_now) + seconds 86400)%Z)]>)
       | None => mret ()
       end);
  mret (Created j).

Definition create_cloud_job (j : Job) (agent : string) (key : option string) (request_bytes : string)
    (enforce_cloud_billing : bool) : Tx CreateJobResult :=
  let request_hash := hex (sha256 request_bytes) in
  existing ← (match key with
              | Some key => find_idempotent_job j.(j_tenant) key request_hash
              | None => mret None
              end);
  match existing with
  | Some e => mret (Existing e)
  | None =>
    consumed ← (match j.(j_content) with
                | EncryptedUpload _ m => consume_envelope j m
                | _ => mret None
                end);
    match consumed with
    | Some e => mret (Existing e)
    | None => create_new_job j agent key request_hash enforce_cloud_billing
    end
  end.

(** * Transitions

    The event that the server writes for a job, and the columns of the transition. *)
Definition server_event (id : string) (sequence : N) (st : JobState) (reason : option JobFailureReason)
    (message : string) (agent : option string) : JobEvent :=
  {| je_id := c.(new_event_id) id sequence; je_job_id := id; je_sequence := sequence; je_state := st;
     je_reason := reason; je_message := Some message; je_agent_id := agent;
     je_native_job_id := None; je_occurred_at := c.(utc_now) |}.

Definition enter (st : JobState) (sequence : Z) (final : option Z) (j : Job) (r : JobRow) : JobRow :=
  with_life {| state := st; state_sequence := sequence; final_at := final |} (with_payload j r).

(** [COALESCE(a, b)]. *)
Definition coalesce {A} (a b : option A) : option A := match a with Some _ => a | None => b end.

Definition allowed (f t : JobState) : Tx unit := ensure (is_ok (validate_transition f t)) InvalidTransition.

Definition append_event (t : Tenant) (e : JobEvent) : Tx Job :=
  r ← fetch (job_of t e.(je_job_id)) NotFound;
  _ ← ensure (e.(je_sequence) =? default u64_max (u64_of_i64 (i64_succ r.(jr_life).(state_sequence))))%N
        ConcurrentStateChange;
  _ ← allowed r.(jr_life).(state) e.(je_state);
  let j := set_job_state e.(je_state) (job_from_row r) in
  _ ← insert_event j e;
  n ← pure_result (ok_or (i64_of_u64 e.(je_sequence)) (InvalidData "event sequence overflow"));
  _ ← update_job e.(je_job_id) (enter e.(je_state) n
        (coalesce (if is_terminal e.(je_state) then Some e.(je_occurred_at) else None)
                  r.(jr_life).(final_at)) j);
  _ ← (if decide (e.(je_state) = WaitingForAgent)
       then n ← ensure_waiting_job_wake_hints_in_transaction c t e.(je_job_id) e.(je_sequence)
                  e.(je_occurred_at); mret ()
       else mret ());
  _ ← (if decide (e.(je_state) = CompletedReported)
       then record_reported_complete_usage t e.(je_job_id) e.(je_occurred_at)
       else mret ());
  mret j.

(** An event that a node reports: at most one effect per event identifier. *)
Definition apply_agent_event (t : Tenant) (agent : string) (reported : JobEvent) : Tx (option Job) :=
  seen ← query (λ s, bool_decide ((agent, reported.(je_id)) ∈ s.(agent_event_receipts)));
  if seen : bool then mret None else
  known ← query (λ s, bool_decide (is_Some (s.(topology).(agents) !! agent)));
  _ ← ensure known (Database "agent_event_receipts_agent_id_fkey");
  _ ← execute (on_agent_event_receipts (λ rs, {[(agent, reported.(je_id))]} ∪ rs));
  r ← fetch (job_of t reported.(je_job_id)) NotFound;
  _ ← ensure (bool_decide (r.(jr_place).(agent_id) = agent)) NotFound;
  _ ← allowed r.(jr_life).(state) reported.(je_state);
  sequence ← pure_result (event_sequence r.(jr_life).(state_sequence));
  let e := {| je_id := reported.(je_id); je_job_id := reported.(je_job_id); je_sequence := sequence;
              je_state := reported.(je_state); je_reason := reported.(je_reason);
              je_message := reported.(je_message); je_agent_id := Some agent;
              je_native_job_id := reported.(je_native_job_id);
              je_occurred_at := reported.(je_occurred_at) |} in
  let uncertain := bool_decide (e.(je_state) = DeliveryUncertain) in
  let j0 := set_job_state e.(je_state) (job_from_row r) in
  let j := if uncertain && bool_decide (j0.(j_delivery_uncertain_since) = None)
           then set_job_uncertain c.(utc_now) j0 else j0 in
  _ ← insert_event j e;
  _ ← update_job reported.(je_job_id) (λ r,
        with_uncertain_since
          (if uncertain then coalesce r.(jr_uncertain_since) (Some c.(utc_now))
           else r.(jr_uncertain_since))
          (enter e.(je_state) (Z.of_N sequence)
             (if is_terminal e.(je_state) then Some e.(je_occurred_at) else r.(jr_life).(final_at)) j r));
  _ ← (if decide (e.(je_state) = CompletedReported)
       then record_reported_complete_usage t e.(je_job_id) e.(je_occurred_at)
       else mret ());
  mret (Some j).

(** Both attempts and reservations of a job that ends before a node accepted it. *)
Definition cancel_deliveries (t : Tenant) (id : string) : Tx unit :=
  _ ← execute (finish_attempts t (of_job id) Attempt.Cancelled c.(utc_now));
  execute (release_reservations t (reserved_for id) ReservationCancelled c.(utc_now)).

Definition notify (key : string) (t : Tenant) (j : Job) : Tx unit :=
  enqueue_webhook_event_in_transaction key t "job.updated" j.

(** The end of a cancellation that no node accepted. *)
Definition cancel_unaccepted (t : Tenant) (id : string) (sequence : N) (agent : option string) (j : Job) :
    Tx Job :=
  let j := set_job_state Cancelled j in
  _ ← insert_event j (server_event id sequence Cancelled (Some CancelledByUser)
        "Cancellation completed before node acceptance" agent);
  n ← pure_result (ok_or (i64_of_u64 sequence) (InvalidData "event sequence overflow"));
  _ ← update_job id (λ r, with_lease no_lease
        (enter Cancelled n (coalesce r.(jr_life).(final_at) (Some c.(utc_now))) j r));
  _ ← cancel_deliveries t id;
  _ ← notify (preaccept_cancellation_webhook_idempotency_key t id) t j;
  mret j.

Definition request_job_cancellation (t : Tenant) (id : string) (command : AgentCommand) : Tx Job :=
  r ← fetch (job_of t id) NotFound;
  _ ← allowed r.(jr_life).(state) CancelRequested;
  sequence ← pure_result (event_sequence r.(jr_life).(state_sequence));
  let j := set_job_state CancelRequested (job_from_row r) in
  _ ← insert_event j (server_event id sequence CancelRequested None
        "Cancellation requested by API caller" None);
  n ← pure_result (ok_or (i64_of_u64 sequence) (InvalidData "event sequence overflow"));
  _ ← update_job id (λ r, enter CancelRequested n r.(jr_life).(final_at) j r);
  node ← query (accepted t id);
  if node : bool
  then _ ← insert_command t r.(jr_place).(agent_id) command; mret j
  else cancel_unaccepted t id (u64_saturating_add sequence 1) None j.

Definition acknowledge_cancellations (t : Tenant) (agent id : string) : Store → Store :=
  on_agent_commands (update_where
    (λ k, bool_decide (k.(cm_tenant) = t) && bool_decide (k.(cm_agent_id) = agent)
          && match k.(cm_command) with CancelJob job => bool_decide (job = id) | _ => false end)
    (λ k, {| cm_tenant := k.(cm_tenant); cm_agent_id := k.(cm_agent_id); cm_command := k.(cm_command);
             cm_delivered_at := k.(cm_delivered_at);
             cm_acknowledged_at := coalesce k.(cm_acknowledged_at) (Some c.(sql_now)) |})).

Definition retire_terminal_absent_local_cancellation (t : Tenant) (agent id : string) : Tx bool :=
  row ← query (job_of t id);
  match row with
  | None => mret false
  | Some r =>
    if decide (r.(jr_place).(agent_id) ≠ agent) then mret false else
    let st := r.(jr_life).(state) in
    node ← query (accepted t id);
    if node || negb (is_terminal st) && negb (bool_decide (st = CancelRequested)) then mret false else
    _ ← (if is_terminal st then mret () else
         sequence ← pure_result (event_sequence r.(jr_life).(state_sequence));
         _ ← cancel_unaccepted t id sequence (Some agent) (job_from_row r); mret ());
    _ ← execute (acknowledge_cancellations t agent id);
    mret true
  end.

(** * Leases *)

Record JobLease := {
  jl_job : Job;
  jl_lease_id : string;
  jl_lease_token : string;
  jl_lease_until : Z
}.

Definition claimable (t : Tenant) (agent : string) (r : JobRow) : bool :=
  bool_decide (r.(jr_tenant) = t) && bool_decide (r.(jr_place).(agent_id) = agent)
  && bool_decide (r.(jr_life).(state) ∈ [WaitingForAgent; FailedRetryable])
  && (c.(sql_now) <? r.(jr_expires_at))%Z
  && match r.(jr_lease).(lease_until) with Some u => (u <? c.(sql_now))%Z | None => true end.

(** [new_lease] gives each job its [Uuid::new_v4] and its random token; [locked] are the
    jobs whose row another transaction holds ([SKIP LOCKED]). *)
Definition claim_job (owner : string) (new_lease : string → string * string) (e : string * JobRow) :
    Tx JobLease :=
  let '(lease, token) := new_lease e.1 in
  let until := (c.(utc_now) + seconds 30)%Z in
  _ ← update_job e.1 (with_lease {| lease_owner := Some owner; lease_id := Some lease;
                                    lease_token_hash := Some (sha256 token);
                                    lease_until := Some until |});
  mret {| jl_job := job_from_row e.2; jl_lease_id := lease; jl_lease_token := token;
          jl_lease_until := until |}.

Definition claim_jobs (locked : string → bool) (new_lease : string → string * string) (t : Tenant)
    (agent owner : string) (limit : Z) : Tx (list JobLease) :=
  rows ← query (λ s, take (clamp limit 1 100) (sort_by older
    (select_rows (λ id r, claimable t agent r && negb (locked id)) s.(jobs))));
  for_each (claim_job owner new_lease) rows.

Definition renew_lease (id owner : string) : Tx Z :=
  _ ← fetch (λ s, match s.(jobs) !! id with
                  | Some r => if bool_decide (r.(jr_lease).(lease_owner) = Some owner)
                                 && time_after r.(jr_lease).(lease_until) c.(sql_now)
                              then Some r else None
                  | None => None
                  end) ConcurrentStateChange;
  let until := (c.(sql_now) + seconds 30)%Z in
  _ ← update_job id (with_lease_until (Some until));
  mret until.

(** The row of a job that this node has leased under this token. *)
Definition holds_lease (t : Tenant) (agent id lease token : string) (s : Store) : option JobRow :=
  match job_of t id s with
  | Some r =>
    if bool_decide (r.(jr_place).(agent_id) = agent)
       && bool_decide (r.(jr_lease).(lease_id) = Some lease)
       && bool_decide (r.(jr_lease).(lease_token_hash) = Some (sha256 token))
       && time_after r.(jr_lease).(lease_until) c.(sql_now)
    then Some r else None
  | None => None
  end.

Definition agent_seen (t : Tenant) (agent : string) : Store → Store :=
  on_agents (alter (λ a,
    if bool_decide (a.(ag_tenant) = t) && bool_decide (a.(ag_revoked_at) = None)
    then {| ag_tenant := a.(ag_tenant); ag_revoked_at := a.(ag_revoked_at); ag_connected := true |}
    else a) agent).

Definition renew_agent_lease (t : Tenant) (agent id lease token : string) : Tx Z :=
  _ ← fetch (holds_lease t agent id lease token) ConcurrentStateChange;
  let until := (c.(sql_now) + seconds 30)%Z in
  _ ← update_job id (with_lease_until (Some until));
  _ ← execute (agent_seen t agent);
  mret until.

Record DeliveryAttemptProof := {
  dp_reservation_id : string;
  dp_generation : N;
  dp_fencing_token : string
}.

(** The attempt whose active reservation the proof names, on a route of the node. *)
Definition proven_attempt (t : Tenant) (agent id : string) (generation : Z) (p : DeliveryAttemptProof)
    (s : Store) : option AttemptRow :=
  rs ← s.(route_reservations) !! (t, p.(dp_reservation_id));
  a ← s.(delivery_attempts) !! (t, rs.(rs_attempt_id));
  route ← s.(topology).(printer_routes) !! (t, a.(at_route_id));
  if bool_decide (rs.(rs_generation) = generation)
     && bool_decide (rs.(rs_fencing_token_hash) = token_digest p.(dp_fencing_token))
     && bool_decide (rs.(rs_state) = Active)
     && bool_decide (a.(at_generation) = generation)
     && bool_decide (a.(at_fencing_token_hash) = token_digest p.(dp_fencing_token))
     && bool_decide (a.(at_job_id) = id)
     && bool_decide (route.(rt_agent_id) = agent)
  then Some a else None.

Definition renew_agent_lease_with_delivery_attempt (t : Tenant) (agent id lease token : string)
    (p : DeliveryAttemptProof) : Tx Z :=
  generation ← pure_result (ok_or (i64_of_u64 p.(dp_generation)) ConcurrentStateChange);
  r ← fetch (holds_lease t agent id lease token) ConcurrentStateChange;
  _ ← ensure (bool_decide (is_Some r.(jr_place).(destination_id))) ConcurrentStateChange;
  let until := (c.(sql_now) + seconds 30)%Z in
  _ ← update_job id (with_lease_until (Some until));
  a ← fetch (proven_attempt t agent id generation p) ConcurrentStateChange;
  _ ← ensure (Attempt.renewable a.(at_state)) ConcurrentStateChange;
  _ ← execute (on_delivery_attempts (alter (set_attempt_lease until) (t, a.(at_id))));
  _ ← execute (on_route_reservations (alter (set_reservation_lease until) (t, p.(dp_reservation_id))));
  _ ← execute (agent_seen t agent);
  mret until.

Definition release_agent_lease (t : Tenant) (agent id lease token : string) : Tx unit :=
  _ ← fetch (holds_lease t agent id lease token) ConcurrentStateChange;
  update_job id (with_lease no_lease).

Definition validate_agent_lease (t : Tenant) (agent id lease token : string) : Tx unit :=
  _ ← fetch (holds_lease t agent id lease token) ConcurrentStateChange;
  mret ().

(** * Transitions of the server before a handoff *)

Inductive PreHandoffTransitionOutcome :=
| Transitioned (j : Job) (webhook_key : string)
| UnsafeLocalResponsibility.

Definition leased_before_handoff (t : Tenant) (agent id lease token : string) (s : Store) : option JobRow :=
  match holds_lease t agent id lease token s with
  | Some r => if decide (r.(jr_life).(state) ∈ [WaitingForAgent; FailedRetryable]) then Some r else None
  | None => None
  end.

Definition block_agent_lease_for_node_update (t : Tenant) (agent id lease token : string) :
    Tx PreHandoffTransitionOutcome :=
  r ← fetch (leased_before_handoff t agent id lease token) ConcurrentStateChange;
  safe ← supersede_pre_handoff_delivery_attempts c t id;
  if negb safe then mret UnsafeLocalResponsibility else
  sequence ← pure_result (event_sequence r.(jr_life).(state_sequence));
  let j := set_job_state Blocked (job_from_row r) in
  _ ← insert_event j (server_event id sequence Blocked (Some NodeUpdateRequired)
        "Assigned node requires an update for this job's exact print capabilities" None);
  _ ← update_job id (λ r, with_lease no_lease
        (enter Blocked (Z.of_N sequence) r.(jr_life).(final_at) j r));
  _ ← execute (on_recovery_checks <[(t, agent, id) := c.(sql_now)]>);
  let key := node_update_required_webhook_idempotency_key t id sequence in
  _ ← notify key t j;
  mret (Transitioned j key).

Definition fail_agent_lease_before_handoff (t : Tenant) (agent id lease token : string)
    (reason : JobFailureReason) (message : string) : Tx PreHandoffTransitionOutcome :=
  r ← fetch (leased_before_handoff t agent id lease token) ConcurrentStateChange;
  safe ← supersede_pre_handoff_delivery_attempts c t id;
  if negb safe then mret UnsafeLocalResponsibility else
  sequence ← pure_result (event_sequence r.(jr_life).(state_sequence));
  let j := set_job_state FailedTerminal (job_from_row r) in
  _ ← insert_event j (server_event id sequence FailedTerminal (Some reason) message None);
  _ ← update_job id (λ r, with_lease no_lease
        (enter FailedTerminal (Z.of_N sequence) (Some c.(utc_now)) j r));
  _ ← execute (on_recovery_checks (delete (t, agent, id)));
  let key := prehandoff_failure_webhook_idempotency_key t id sequence in
  _ ← notify key t j;
  mret (Transitioned j key).

(** Jobs the server blocked whose recovery is due, and their next check in 30 seconds. *)
Definition recovery_le (a b : Z * (string * JobRow)) : bool :=
  if negb (a.1 =? b.1)%Z then (a.1 <? b.1)%Z else older a.2 b.2.
Definition update_required (t : Tenant) (agent : string) (locked : string → bool) (s : Store)
    (e : string * JobRow) : option (Z * (string * JobRow)) :=
  due ← s.(recovery_checks) !! (t, agent, e.1);
  if bool_decide (e.2.(jr_tenant) = t) && bool_decide (e.2.(jr_place).(agent_id) = agent)
     && bool_decide (e.2.(jr_life).(state) = Blocked) && (c.(sql_now) <? e.2.(jr_expires_at))%Z
     && (due <=? c.(sql_now))%Z && blocked_by_server t e.1 s && negb (locked e.1)
  then Some (due, e) else None.

Definition list_node_update_required_jobs (locked : string → bool) (t : Tenant) (agent : string)
    (limit : Z) : Tx (list Job) :=
  rows ← query (λ s, take (clamp limit 1 100) (sort_by recovery_le
    (omap (update_required t agent locked s) (map_to_list s.(jobs)))));
  _ ← for_each (λ e : Z * (string * JobRow),
        execute (on_recovery_checks (alter (λ _, c.(sql_now) + seconds 30)%Z (t, agent, e.2.1)))) rows;
  mret ((λ e : Z * (string * JobRow), job_from_row e.2.2) <$> rows).

Definition recover_node_update_required_job (t : Tenant) (agent id : string) : Tx (option (Job * string)) :=
  row ← query (λ s, match job_of t id s with
                    | Some r => if bool_decide (r.(jr_place).(agent_id) = agent)
                                   && bool_decide (r.(jr_life).(state) = Blocked)
                                   && (c.(sql_now) <? r.(jr_expires_at))%Z && blocked_by_server t id s
                                then Some r else None
                    | None => None
                    end);
  match row with
  | None => mret None
  | Some r =>
    sequence ← pure_result (event_sequence r.(jr_life).(state_sequence));
    let j := set_job_state WaitingForAgent (job_from_row r) in
    _ ← insert_event j (server_event id sequence WaitingForAgent None
          "Node print capabilities restored; job returned to queue" None);
    _ ← update_job id (λ r, enter WaitingForAgent (Z.of_N sequence) r.(jr_life).(final_at) j r);
    _ ← execute (on_recovery_checks (delete (t, agent, id)));
    let key := node_capability_recovered_webhook_idempotency_key t id sequence in
    _ ← notify key t j;
    mret (Some (j, key))
  end.

(** * Sweeps *)

Definition expirable (s : Store) (id : string) (r : JobRow) : bool :=
  let t := r.(jr_tenant) in
  bool_decide (r.(jr_life).(final_at) = None) && (r.(jr_expires_at) <=? c.(sql_now))%Z
  && bool_decide (r.(jr_life).(state) ∈
       [Registered; ContentPending; WaitingForAgent; FailedRetryable; Blocked])
  && negb (accepted t id s)
  && negb (exists_row (λ _ a, bool_decide (a.(at_tenant) = t) && of_job id a
             && bool_decide (a.(at_final_at) = None)
             && negb (bool_decide (a.(at_state) = Attempt.RouteLeased))) s.(delivery_attempts))
  && (negb (bool_decide (r.(jr_life).(state) = Blocked))
      || bool_decide (is_Some (s.(recovery_checks) !! (t, r.(jr_place).(agent_id), id)))
         && blocked_by_server t id s).

(** [ORDER BY expires_at, created_at, id]. *)
Definition expiry_le (a b : string * JobRow) : bool :=
  if negb (a.2.(jr_expires_at) =? b.2.(jr_expires_at))%Z
  then (a.2.(jr_expires_at) <? b.2.(jr_expires_at))%Z else older a b.

Definition expire_job (e : string * JobRow) : Tx (option (Tenant * Job * string)) :=
  let '(id, r) := e in
  let t := r.(jr_tenant) in
  safe ← supersede_pre_handoff_delivery_attempts c t id;
  if negb safe then mret None else
  sequence ← pure_result (event_sequence r.(jr_life).(state_sequence));
  let j := set_job_state Expired (job_from_row r) in
  _ ← insert_event j (server_event id sequence Expired (Some ReasonExpired)
        "Job expired before node or native handoff" None);
  _ ← update_job id (λ r, with_lease no_lease
        (enter Expired (Z.of_N sequence) (Some c.(utc_now)) j r));
  _ ← execute (on_recovery_checks (filter (λ e, ¬ (e.1.1.1 = t ∧ e.1.2 = id))));
  let key := prehandoff_expiry_webhook_idempotency_key t id sequence in
  _ ← notify key t j;
  mret (Some (t, j, key)).

Definition expire_jobs_before_handoff (locked : string → bool) (limit : Z) :
    Tx (list (Tenant * Job * string)) :=
  rows ← query (λ s, take (clamp limit 1 100) (sort_by expiry_le
    (select_rows (λ id r, expirable s id r && negb (locked id)) s.(jobs))));
  expired ← for_each expire_job rows;
  mret (omap id expired).

Definition stuck (seconds_ : Z) (r : JobRow) : bool :=
  bool_decide (r.(jr_life).(state) = DeliveryUncertain) && bool_decide (r.(jr_alerted_at) = None)
  && match r.(jr_uncertain_since) with
     | Some since => (since <=? c.(sql_now) - seconds seconds_)%Z
     | None => false
     end.

Definition stuck_le (a b : string * JobRow) : bool :=
  (default 0 a.2.(jr_uncertain_since) <=? default 0 b.2.(jr_uncertain_since))%Z.

Definition claim_stuck_uncertain_jobs (locked : string → bool) (threshold_seconds : N) (limit : Z) :
    Tx (list (Tenant * string * Z)) :=
  _ ← ensure (threshold_seconds <=? 2147483647)%N (InvalidData "threshold overflow");
  rows ← query (λ s, take (clamp limit 1 500) (sort_by stuck_le
    (select_rows (λ id r, stuck (Z.of_N threshold_seconds) r && negb (locked id)) s.(jobs))));
  _ ← for_each (λ e : string * JobRow, update_job e.1 (with_alerted_at (Some c.(sql_now)))) rows;
  mret ((λ e : string * JobRow, (e.2.(jr_tenant), e.1, default 0%Z e.2.(jr_uncertain_since))) <$> rows).

End jobs.
