(* ===== verification/CloudAccept.v ===== *)
(** Responsibility for a job (crates/storage-postgres/src/lib.rs): a node accepts a job it
    has leased, the answer is reconciled after a lost response, an acceptance that was
    never activated is abandoned, and revocation of a node ends what it had accepted. *)

From S2P Require Import Prelude Domain CloudStore CloudJobs.

Section accept.
Context `{CloudExternal}.
Variable c : Clock.

(** * Acceptance *)

(** [COALESCE((SELECT CASE WHEN revoked_at IS NULL THEN admission_generation ELSE 0 END ...), 1)]. *)
Definition connector_generation (t : Tenant) (agent : string) (s : Store) : Z :=
  match s.(topology).(node_connectors) !! (t, agent) with
  | Some k => if decide (k.(cn_revoked_at) = None) then k.(cn_admission_generation) else 0
  | None => 1
  end.

(** The attempt that the proof of a destination-routed job names. *)
Definition accepting_attempt (t : Tenant) (agent id destination : string) (p : DeliveryAttemptProof) :
    Tx AttemptRow :=
  generation ← pure_result (ok_or (i64_of_u64 p.(dp_generation)) ConcurrentStateChange);
  a ← fetch (λ s,
        rs ← s.(route_reservations) !! (t, p.(dp_reservation_id));
        a ← proven_attempt t agent id generation p s;
        if bool_decide (rs.(rs_job_id) = id) && bool_decide (a.(at_destination_id) = destination)
        then Some a else None) ConcurrentStateChange;
  _ ← ensure (bool_decide (a.(at_state) ∈
        [Attempt.RouteLeased; Attempt.AcceptedByNode; Attempt.QueuedLocal])) ConcurrentStateChange;
  mret a.

(** The columns that record the proof. *)
Definition route_proof (p : DeliveryAttemptProof) : result StorageError RouteProof :=
  generation ← ok_or (i64_of_u64 p.(dp_generation)) ConcurrentStateChange;
  Ok {| proof_reservation_id := p.(dp_reservation_id); proof_generation := generation;
        proof_fencing_token_hash := sha256 p.(dp_fencing_token) |}.
Definition expected_route (proof : option DeliveryAttemptProof) : result StorageError (option RouteProof) :=
  match proof with Some p => Some <$> route_proof p | None => Ok None end.

Definition set_acceptance_token (hash : string) (a : AcceptanceRow) : AcceptanceRow :=
  {| ac_tenant := a.(ac_tenant); ac_agent_id := a.(ac_agent_id); ac_lease_id := a.(ac_lease_id);
     ac_lease_token_hash := Some hash; ac_content_sha256 := a.(ac_content_sha256);
     ac_local_sequence := a.(ac_local_sequence); ac_route := a.(ac_route);
     ac_connector_generation := a.(ac_connector_generation) |}.

(** A repeated acceptance must repeat all of the first one. *)
Definition accept_again (t : Tenant) (agent id lease token : string) (sha : option string)
    (local_sequence : N) (proof : option DeliveryAttemptProof) (generation : Z)
    (attempt : option AttemptRow) (row : AcceptanceRow) : Tx Job :=
  _ ← ensure (bool_decide (row.(ac_lease_id) = lease) && bool_decide (row.(ac_content_sha256) = sha)
              && bool_decide (row.(ac_local_sequence) = default i64_max (i64_of_u64 local_sequence)))
        IdempotencyConflict;
  route ← pure_result (expected_route proof);
  _ ← ensure (bool_decide (row.(ac_route) = route)
              && bool_decide (row.(ac_connector_generation) = Some generation)) IdempotencyConflict;
  r ← fetch (job_of t id) NotFound;
  _ ← (match row.(ac_lease_token_hash) with
       | Some stored => ensure (bool_decide (stored = sha256 token)) IdempotencyConflict
       | None =>
         _ ← ensure (bool_decide (r.(jr_life).(state) = AgentAccepted)) IdempotencyConflict;
         execute (on_job_acceptances (alter (set_acceptance_token (sha256 token)) id))
       end);
  _ ← ensure (match r.(jr_place).(destination_id), attempt with
              | None, _ => true
              | Some _, Some a => bool_decide (a.(at_state) = Attempt.QueuedLocal)
              | Some _, None => false
              end) IdempotencyConflict;
  _ ← notify (agent_acceptance_webhook_idempotency_key t id) t r.(jr_payload);
  mret (job_from_row r).

Definition expected_sha256 (t : Tenant) (content : ContentSource) : Tx (option string) :=
  match content with
  | Upload u | EncryptedUpload u _ =>
    row ← fetch (λ s, match s.(topology).(uploads) !! u with
                      | Some row => if bool_decide (row.(up_tenant) = t) && row.(up_complete)
                                    then Some row else None
                      | None => None
                      end) NotFound;
    mret (Some row.(up_expected_sha256))
  | Base64 data =>
    decoded ← pure_result (ok_or (base64_decode data) (InvalidData "base64"));
    mret (Some (hex (sha256 decoded)))
  | Uri _ _ => mret None
  end.

(** The constraints and the trigger on [job_acceptances]: one row per job, a complete proof,
    a node and a connector that are not revoked, and the connector's generation. *)
Definition is_space (a : ascii) : bool := (N_of_ascii a =? 32)%N.
Definition proof_complete (p : RouteProof) : bool :=
  bytes_any (λ a, negb (is_space a)) p.(proof_reservation_id)
  && (0 <? p.(proof_generation))%Z
  && (String.length p.(proof_fencing_token_hash) =? 32).
Definition fence_job_acceptance_connector (t : Tenant) (agent : string) (generation : Z) (s : Store) : bool :=
  active_agent t agent s
  && match s.(topology).(node_connectors) !! (t, agent) with
     | Some k => bool_decide (k.(cn_revoked_at) = None)
                 && bool_decide (generation = k.(cn_admission_generation))
     | None => true
     end.

Definition insert_acceptance (id : string) (row : AcceptanceRow) (generation : Z) : Tx unit :=
  fenced ← query (fence_job_acceptance_connector row.(ac_tenant) row.(ac_agent_id) generation);
  _ ← ensure fenced (Database "job_acceptances_fence_connector");
  _ ← ensure (from_option proof_complete true row.(ac_route)) (Database "job_acceptances_route_proof_complete");
  taken ← query (λ s, s.(job_acceptances) !! id);
  _ ← ensure (bool_decide (taken = None)) (Database "job_acceptances_pkey");
  execute (on_job_acceptances <[id := row]>).

Definition accept_first (t : Tenant) (agent id lease token : string) (sha : option string)
    (local_sequence : N) (proof : option DeliveryAttemptProof) (generation : Z)
    (attempt : option AttemptRow) : Tx Job :=
  r ← fetch (holds_lease c t agent id lease token) ConcurrentStateChange;
  expected ← expected_sha256 t r.(jr_payload).(j_content);
  _ ← ensure (match expected with
              | Some e => from_option (λ actual, eq_ignore_ascii_case actual e) false sha
              | None => true
              end) (InvalidData "accepted content digest does not match the job");
  _ ← ensure (bool_decide (r.(jr_life).(state) ∈ [WaitingForAgent; AgentDownloading])) InvalidTransition;
  sequence ← pure_result (event_sequence r.(jr_life).(state_sequence));
  let j := set_job_state AgentAccepted (job_from_row r) in
  _ ← insert_event j (server_event c id sequence AgentAccepted None "Agent durably accepted the job"
        (Some agent));
  _ ← update_job id (λ r, with_lease no_lease
        (enter AgentAccepted (Z.of_N sequence) r.(jr_life).(final_at) j r));
  route ← pure_result (expected_route proof);
  local ← pure_result (ok_or (i64_of_u64 local_sequence) (InvalidData "local sequence overflow"));
  _ ← insert_acceptance id
        {| ac_tenant := t; ac_agent_id := agent; ac_lease_id := lease;
           ac_lease_token_hash := Some (sha256 token); ac_content_sha256 := sha;
           ac_local_sequence := local; ac_route := route;
           ac_connector_generation := Some generation |} generation;
  _ ← (match attempt with
       | None => mret ()
       | Some a =>
         _ ← ensure (bool_decide (a.(at_state) ∈ [Attempt.RouteLeased; Attempt.AcceptedByNode]))
               ConcurrentStateChange;
         execute (on_delivery_attempts (alter (λ a,
           set_attempt_times (coalesce a.(at_accepted_at) (Some c.(sql_now)))
             a.(at_handoff_started_at) a.(at_spooler_accepted_at)
             (set_attempt Attempt.QueuedLocal a.(at_final_at) a)) (t, a.(at_id))))
       end);
  _ ← notify (agent_acceptance_webhook_idempotency_key t id) t j;
  mret j.

Definition accept_agent_job_transactional (t : Tenant) (agent id lease token : string)
    (sha : option string) (local_sequence : N) (proof : option DeliveryAttemptProof) : Tx Job :=
  active ← query (active_agent t agent);
  _ ← ensure active NotFound;
  generation ← query (connector_generation t agent);
  _ ← ensure (0 <? generation)%Z NotFound;
  r ← fetch (job_of t id) NotFound;
  _ ← ensure (bool_decide (r.(jr_place).(agent_id) = agent)) NotFound;
  attempt ← (match r.(jr_place).(destination_id), proof with
             | Some d, Some p => a ← accepting_attempt t agent id d p; mret (Some a)
             | Some _, None =>
               abort (InvalidData "destination-routed jobs require an atomic delivery-attempt proof")
             | None, Some _ => abort ConcurrentStateChange
             | None, None => mret None
             end);
  row ← query (λ s, match s.(job_acceptances) !! id with
                    | Some a => if decide (a.(ac_tenant) = t ∧ a.(ac_agent_id) = agent)
                                then Some a else None
                    | None => None
                    end);
  match row with
  | Some row => accept_again t agent id lease token sha local_sequence proof generation attempt row
  | None => accept_first t agent id lease token sha local_sequence proof generation attempt
  end.

(** * Reconciliation after a lost answer *)

Record AcceptanceEvidence := {
  ae_lease_id : string;
  ae_lease_token : string;
  ae_content_sha256 : string;
  ae_local_sequence : Z
}.

Definition same_evidence (t : Tenant) (agent : string) (e : AcceptanceEvidence) (a : AcceptanceRow) : bool :=
  bool_decide (a.(ac_tenant) = t) && bool_decide (a.(ac_agent_id) = agent)
  && bool_decide (a.(ac_lease_id) = e.(ae_lease_id))
  && bool_decide (a.(ac_lease_token_hash) = Some (sha256 e.(ae_lease_token)))
  && bool_decide (a.(ac_content_sha256) = Some e.(ae_content_sha256))
  && bool_decide (a.(ac_local_sequence) = e.(ae_local_sequence)).

(** An acceptance of an older server, without route columns. *)
Definition legacy_acceptance (t : Tenant) (agent id : string) (e : AcceptanceEvidence) (current : Z)
    (s : Store) : bool :=
  match s.(job_acceptances) !! id with
  | Some a => same_evidence t agent e a && bool_decide (a.(ac_route) = None)
              && (bool_decide (a.(ac_connector_generation) = None)
                  || bool_decide (a.(ac_connector_generation) = Some current))
  | None => false
  end.

Definition topology_proves_route (t : Tenant) (agent id : string) (generation : Z)
    (p : DeliveryAttemptProof) (s : Store) : bool :=
  match job_of t id s, proven_attempt t agent id generation p s with
  | Some r, Some a =>
    bool_decide (r.(jr_place).(agent_id) = agent) && bool_decide (r.(jr_life).(state) = AgentAccepted)
    && bool_decide (a.(at_state) ∈ [Attempt.AcceptedByNode; Attempt.QueuedLocal])
  | _, _ => false
  end.

Definition set_acceptance_route (route : RouteProof) (generation : Z) (a : AcceptanceRow) : AcceptanceRow :=
  {| ac_tenant := a.(ac_tenant); ac_agent_id := a.(ac_agent_id); ac_lease_id := a.(ac_lease_id);
     ac_lease_token_hash := a.(ac_lease_token_hash); ac_content_sha256 := a.(ac_content_sha256);
     ac_local_sequence := a.(ac_local_sequence); ac_route := Some route;
     ac_connector_generation := Some generation |}.

(** The answer: accepted, connector revoked, fenced. *)
Definition reconcile_agent_acceptance (t : Tenant) (agent id lease token sha : string)
    (local_sequence : N) (p : DeliveryAttemptProof) : Tx (bool * bool * bool) :=
  row ← query (λ s, match s.(topology).(agents) !! agent with
                    | Some a => if decide (a.(ag_tenant) = t) then Some a else None
                    | None => None
                    end);
  match row with
  | None => mret (false, false, false)
  | Some row =>
    let agent_revoked := negb (bool_decide (row.(ag_revoked_at) = None)) in
    connector ← query (λ s, s.(topology).(node_connectors) !! (t, agent));
    let connector_revoked := agent_revoked
      || from_option (λ k, negb (bool_decide (k.(cn_revoked_at) = None))) false connector in
    let current := from_option cn_admission_generation 1%Z connector in
    route ← pure_result (route_proof p);
    local ← pure_result (ok_or (i64_of_u64 local_sequence) ConcurrentStateChange);
    let e := {| ae_lease_id := lease; ae_lease_token := token; ae_content_sha256 := sha;
                ae_local_sequence := local |} in
    legacy ← query (λ s, legacy_acceptance t agent id e current s
                         && topology_proves_route t agent id route.(proof_generation) p s);
    _ ← (if legacy : bool then
           fenced ← query (fence_job_acceptance_connector t agent current);
           _ ← ensure fenced (Database "job_acceptances_fence_connector");
           _ ← ensure (proof_complete route) (Database "job_acceptances_route_proof_complete");
           execute (on_job_acceptances (alter (set_acceptance_route route current) id))
         else mret ());
    evidence ← query (λ s,
      match s.(job_acceptances) !! id, job_of t id s with
      | Some a, Some r =>
        if same_evidence t agent e a && bool_decide (a.(ac_route) = Some route)
        then Some (a.(ac_connector_generation), r.(jr_life).(state)) else None
      | _, _ => None
      end);
    let accepted := negb agent_revoked
      && from_option (λ v, bool_decide (v = (Some current, AgentAccepted))) false evidence in
    mret (accepted, connector_revoked, bool_decide (is_Some evidence) && negb accepted)
  end.

(** * Abandoning an acceptance that was never activated *)

Definition abandon_agent_acceptance (t : Tenant) (agent id lease token sha : string)
    (local_sequence : N) (p : DeliveryAttemptProof) : Tx bool :=
  connector ← query (λ s, s.(topology).(node_connectors) !! (t, agent));
  _ ← ensure (from_option (λ k, bool_decide (k.(cn_revoked_at) = None)) true connector)
        ConcurrentStateChange;
  local ← pure_result (ok_or (i64_of_u64 local_sequence) ConcurrentStateChange);
  route ← pure_result (route_proof p);
  let e := {| ae_lease_id := lease; ae_lease_token := token; ae_content_sha256 := sha;
              ae_local_sequence := local |} in
  exact ← query (λ s, match s.(job_acceptances) !! id with
                      | Some a => same_evidence t agent e a && bool_decide (a.(ac_route) = Some route)
                      | None => false
                      end);
  if negb exact then mret false else
  r ← fetch (job_of t id) NotFound;
  _ ← ensure (bool_decide (r.(jr_place).(agent_id) = agent)) NotFound;
  let st := r.(jr_life).(state) in
  if decide (st = Cancelled) then mret true else
  _ ← ensure (bool_decide (st ∈ [AgentAccepted; CancelRequested])) ConcurrentStateChange;
  current ← (if decide (st = AgentAccepted) then
               requested ← pure_result (event_sequence r.(jr_life).(state_sequence));
               _ ← insert_event (set_job_state CancelRequested (job_from_row r))
                     (server_event c id requested CancelRequested None
                        "Connector requested pre-activation compensation" (Some agent));
               mret (i64_succ r.(jr_life).(state_sequence))
             else mret r.(jr_life).(state_sequence));
  sequence ← pure_result (event_sequence current);
  let j := set_job_state Cancelled (job_from_row r) in
  _ ← insert_event j (server_event c id sequence Cancelled (Some CancelledByUser)
        "Connector disconnected before local queue activation" (Some agent));
  _ ← update_job id (λ r, enter Cancelled (Z.of_N sequence)
        (coalesce r.(jr_life).(final_at) (Some c.(utc_now))) j r);
  _ ← cancel_deliveries c t id;
  mret true.

End accept.
