(* ===== verification/CloudRevoke.v ===== *)
(** Commands for nodes and the revocation of nodes and connectors
    (crates/storage-postgres/src/lib.rs). *)

From S2P Require Import Prelude Domain CloudStore CloudWake CloudJobs CloudAccept.

Section revoke.
Context `{CloudExternal}.
Variable c : Clock.

(** * Commands *)

Definition enqueue_agent_command (t : Tenant) (agent : string) (command : AgentCommand) : Tx Z :=
  active ← query (active_agent t agent);
  _ ← ensure active NotFound;
  insert_command t agent command.

Definition commands_of (t : Tenant) (agent : string) (k : CommandRow) : bool :=
  bool_decide (k.(cm_tenant) = t) && bool_decide (k.(cm_agent_id) = agent)
  && bool_decide (k.(cm_acknowledged_at) = None).

Definition set_acknowledged (k : CommandRow) : CommandRow :=
  {| cm_tenant := k.(cm_tenant); cm_agent_id := k.(cm_agent_id); cm_command := k.(cm_command);
     cm_delivered_at := k.(cm_delivered_at); cm_acknowledged_at := Some c.(sql_now) |}.
Definition set_delivered (k : CommandRow) : CommandRow :=
  {| cm_tenant := k.(cm_tenant); cm_agent_id := k.(cm_agent_id); cm_command := k.(cm_command);
     cm_delivered_at := coalesce k.(cm_delivered_at) (Some c.(sql_now));
     cm_acknowledged_at := k.(cm_acknowledged_at) |}.

(** The node acknowledges what was delivered up to a cursor. *)
Definition acknowledge_commands (t : Tenant) (agent : string) (cursor : Z) : Store → Store :=
  on_agent_commands (map_imap (λ n k,
    Some (if commands_of t agent k && (n <=? cursor)%Z
             && negb (bool_decide (k.(cm_delivered_at) = None))
          then set_acknowledged k else k))).

Definition cursor_le (a b : Z * CommandRow) : bool := (a.1 <=? b.1)%Z.

Definition sync_agent_commands (t : Tenant) (agent : string) (acknowledged : option Z) (limit : Z) :
    Tx (option Z * list AgentCommand) :=
  _ ← (match acknowledged with
       | Some cursor => execute (acknowledge_commands t agent cursor)
       | None => mret ()
       end);
  rows ← query (λ s, take (clamp limit 1 100) (sort_by cursor_le
    (select_rows (λ _ k, commands_of t agent k) s.(agent_commands))));
  _ ← for_each (λ e : Z * CommandRow, execute (on_agent_commands (alter set_delivered e.1))) rows;
  mret (fst <$> last rows, (λ e : Z * CommandRow, e.2.(cm_command)) <$> rows).

(** * Revocation *)

Definition open_acceptance (t : Tenant) (agent : string) (s : Store) (id : string) (r : JobRow) : bool :=
  bool_decide (r.(jr_tenant) = t) && bool_decide (r.(jr_place).(agent_id) = agent)
  && bool_decide (r.(jr_life).(final_at) = None)
  && match s.(job_acceptances) !! id with
     | Some a => bool_decide (a.(ac_tenant) = t) && bool_decide (a.(ac_agent_id) = agent)
     | None => false
     end.

Definition set_destination (st : DestinationState) (d : DestinationRow) : DestinationRow :=
  {| pd_state := st; pd_identity_confidence := d.(pd_identity_confidence);
     pd_identity_revision := d.(pd_identity_revision); pd_retired_at := d.(pd_retired_at) |}.

(** The destinations of the job's attempts that are not final need attention. *)
Definition attend_to_destinations (t : Tenant) (id : string) (s : Store) : Store :=
  on_physical_destinations (map_imap (λ k d,
    Some (if bool_decide (k.1 = t) && exists_row (λ _ a, bool_decide (a.(at_tenant) = t) && of_job id a
               && bool_decide (a.(at_final_at) = None)
               && bool_decide (a.(at_destination_id) = k.2)) s.(delivery_attempts)
          then set_destination Attention d else d))) s.

Definition terminalize_job (t : Tenant) (agent : string) (e : string * JobRow) : Tx Job :=
  let '(id, r) := e in
  sequence ← pure_result (event_sequence r.(jr_life).(state_sequence));
  let now := c.(utc_now) in
  let j := set_job_uncertain now (set_job_state DeliveryUncertain (job_from_row r)) in
  _ ← insert_event j (server_event c id sequence DeliveryUncertain (Some AmbiguousHandoff)
        "Node access revoked with accepted work and unreported delivery" (Some agent));
  _ ← update_job id (λ r, with_uncertain_since (coalesce r.(jr_uncertain_since) (Some now))
        (enter DeliveryUncertain (Z.of_N sequence) (Some now) j r));
  _ ← execute (attend_to_destinations t id);
  _ ← execute (finish_attempts t (of_job id) Attempt.DeliveryUncertain now);
  _ ← execute (release_reservations t (reserved_for id) Released now);
  _ ← for_each (λ event_type, enqueue_webhook_event_in_transaction
        (acceptance_revocation_webhook_idempotency_key t id event_type) t event_type j)
        ["job.updated"; "job.delivery_uncertain"]%string;
  mret j.

(** Batches of 256 until none is left; a job that was ended does not come back. *)
Fixpoint terminalize_loop (fuel : nat) (t : Tenant) (agent : string) (affected : list Job) : Tx (list Job) :=
  match fuel with
  | 0 => mret affected
  | S fuel =>
    rows ← query (λ s, take 256 (sort_by older (select_rows (open_acceptance t agent s) s.(jobs))));
    if bool_decide (length rows = 0) then mret affected else
    ended ← for_each (terminalize_job t agent) rows;
    terminalize_loop fuel t agent (take 256 (affected ++ ended))
  end.

Definition terminalize_agent_acceptances (t : Tenant) (agent : string) : Tx (list Job) :=
  fuel ← query (λ s, S (size s.(jobs)));
  terminalize_loop fuel t agent [].

Definition set_connector_revoked (k : ConnectorRow) : ConnectorRow :=
  {| cn_id := k.(cn_id); cn_revoked_at := Some c.(sql_now);
     cn_admission_generation := k.(cn_admission_generation) |}.

Definition revoke_node_connector (t : Tenant) (agent connector : string) : Tx (list Job) :=
  k ← fetch (λ s, match s.(topology).(node_connectors) !! (t, agent) with
                  | Some k => if decide (k.(cn_id) = connector) then Some k else None
                  | None => None
                  end) NotFound;
  _ ← (if decide (k.(cn_revoked_at) = None)
       then execute (on_node_connectors (alter set_connector_revoked (t, agent)))
       else mret ());
  terminalize_agent_acceptances t agent.

(** The routes of the node that are not retired, and their attempts that no node accepted. *)
Definition live_routes (t : Tenant) (agent : string) (s : Store) : list string :=
  (λ e : Tenant * string * RouteRow, e.1.2) <$>
    select_rows (λ k r, bool_decide (k.1 = t) && bool_decide (r.(rt_agent_id) = agent)
                        && bool_decide (r.(rt_retired_at) = None)) s.(topology).(printer_routes).
Definition leased_attempts (t : Tenant) (routes : list string) (s : Store) : list string :=
  (λ e : Tenant * string * AttemptRow, e.2.(at_id)) <$>
    select_rows (λ _ a, bool_decide (a.(at_tenant) = t) && bool_decide (a.(at_route_id) ∈ routes)
                        && bool_decide (a.(at_state) = Attempt.RouteLeased)
                        && bool_decide (a.(at_final_at) = None)) s.(delivery_attempts).

Definition retire_route (r : RouteRow) : RouteRow :=
  {| rt_destination_id := r.(rt_destination_id); rt_printer_id := r.(rt_printer_id);
     rt_agent_id := r.(rt_agent_id); rt_local_route_key := r.(rt_local_route_key);
     rt_state := RouteRetired; rt_role := Disabled; rt_priority := r.(rt_priority);
     rt_enabled := false; rt_retired_at := Some c.(sql_now) |}.
Definition retire_routes (t : Tenant) (routes : list string) : Store → Store :=
  on_printer_routes (map_imap (λ k r,
    Some (if bool_decide (k.1 = t) && bool_decide (k.2 ∈ routes)
             && bool_decide (r.(rt_retired_at) = None) then retire_route r else r))).

Definition route_in (t : Tenant) (destination : string) (k : Tenant * string) (r : RouteRow) : bool :=
  bool_decide (k.1 = t) && bool_decide (r.(rt_destination_id) = destination).

Definition retire_destinations (t : Tenant) (routes : list string) (s : Store) : Store :=
  on_physical_destinations (map_imap (λ k d,
    Some (if bool_decide (k.1 = t) && bool_decide (d.(pd_retired_at) = None)
             && exists_row (λ q r, route_in t k.2 q r && bool_decide (q.2 ∈ routes))
                  s.(topology).(printer_routes)
             && negb (exists_row (λ q r, route_in t k.2 q r && r.(rt_enabled)
                        && bool_decide (r.(rt_retired_at) = None)) s.(topology).(printer_routes))
             && negb (bool_decide (d.(pd_state) = Attention))
          then set_destination Unavailable d else d))) s.

Definition retire_node_routes (t : Tenant) (agent : string) : Tx unit :=
  routes ← query (live_routes t agent);
  if bool_decide (routes = []) then mret () else
  attempts ← query (leased_attempts t routes);
  _ ← (if bool_decide (attempts = []) then mret () else
       _ ← execute (release_reservations t (reserved_by attempts) ReservationSuperseded c.(sql_now));
       execute (finish_attempts t (λ a, bool_decide (a.(at_id) ∈ attempts)
                  && bool_decide (a.(at_state) = Attempt.RouteLeased)) Attempt.Superseded c.(sql_now)));
  _ ← execute (retire_routes t routes);
  execute (retire_destinations t routes).

(** Pending wake hints of the node are cancelled, and their outbox rows closed. *)
Definition cancel_hints (t : Tenant) (agent : string) (s : Store) : Store :=
  let s := on_wake_hints (map_imap (λ k h,
    Some (if bool_decide (k.1.1 = t) && bool_decide (k.1.2 = agent)
             && bool_decide (h.(wh_status) = HintPending) then set_status HintCancelled h else h))) s in
  on_wake_outbox (map_imap (λ k o,
    Some (if bool_decide (k.1 = t) && exists_row (λ q h, bool_decide (q.1 = (t, agent))
               && bool_decide (h.(wh_id) = k.2) && bool_decide (h.(wh_status) = HintCancelled))
               s.(wake_hints)
          then set_processed c.(sql_now) o else o))) s.

(** The trigger refuses to revoke a connector while accepted work is open. *)
Definition revoke_connectors (t : Tenant) (agent : string) : Tx unit :=
  k ← query (λ s, s.(topology).(node_connectors) !! (t, agent));
  match k with
  | Some k =>
    if decide (k.(cn_revoked_at) = None) then
      busy ← query (λ s, exists_row (λ id a, bool_decide (a.(ac_tenant) = t)
        && bool_decide (a.(ac_agent_id) = agent)
        && match job_of t id s with
           | Some r => bool_decide (r.(jr_life).(final_at) = None)
           | None => false
           end) s.(job_acceptances));
      _ ← ensure (negb busy) (Database "acceptance-aware connector revocation required");
      execute (on_node_connectors (alter set_connector_revoked (t, agent)))
    else mret ()
  | None => mret ()
  end.

(** Jobs of the node that no node accepted wait for another one. *)
Definition returned_to_queue (t : Tenant) (agent : string) (r : JobRow) : bool :=
  bool_decide (r.(jr_tenant) = t) && bool_decide (r.(jr_place).(agent_id) = agent)
  && bool_decide (r.(jr_life).(final_at) = None)
  && bool_decide (r.(jr_life).(state) ∈ [Registered; ContentPending; WaitingForAgent; AgentDownloading]).
Definition return_to_queue (r : JobRow) : JobRow :=
  with_lease {| lease_owner := None; lease_id := r.(jr_lease).(lease_id);
                lease_token_hash := r.(jr_lease).(lease_token_hash); lease_until := None |}
    (with_life {| state := WaitingForAgent; state_sequence := r.(jr_life).(state_sequence);
                  final_at := r.(jr_life).(final_at) |} r).

Definition revoke_agent_transaction (t : Tenant) (agent : string) : Tx (list Job) :=
  active ← query (active_agent t agent);
  _ ← ensure active NotFound;
  ended ← terminalize_agent_acceptances t agent;
  _ ← retire_node_routes t agent;
  _ ← execute (on_site_memberships (map_imap (λ k revoked,
        Some (revoked || bool_decide (k.1.1 = t) && bool_decide (k.2 = agent)))));
  _ ← execute (cancel_hints t agent);
  _ ← revoke_connectors t agent;
  _ ← execute (on_agents (alter (λ a, {| ag_tenant := a.(ag_tenant);
        ag_revoked_at := Some c.(sql_now); ag_connected := false |}) agent));
  _ ← execute (on_jobs (update_where (returned_to_queue t agent) return_to_queue));
  mret ended.

Definition active_connectors (t : Tenant) (agent : string) (s : Store) : list string :=
  match s.(topology).(node_connectors) !! (t, agent) with
  | Some k => if decide (k.(cn_revoked_at) = None) then [k.(cn_id)] else []
  | None => []
  end.

(** Each connector is revoked in a transaction of its own. *)
Fixpoint revoke_each (t : Tenant) (agent : string) (connectors : list string) : Op (list Job) :=
  match connectors with
  | [] => mret []
  | k :: ks =>
    ended ← transaction (revoke_node_connector t agent k);
    rest ← revoke_each t agent ks;
    mret (ended ++ rest)
  end.

Definition revoke_agent (t : Tenant) (agent : string) : Op (list Job) :=
  connectors ← transaction (query (active_connectors t agent));
  before ← revoke_each t agent connectors;
  ended ← transaction (revoke_agent_transaction t agent);
  mret (before ++ ended).

End revoke.
