(* ===== verification/CloudRouting.v ===== *)
(** Deliveries to physical destinations
    (crates/storage-postgres/src/destination_topology.rs): an attempt reserves its route and
    its destination, its states follow the node's reports, and an uncertain delivery fences
    the destination until an operator's decision reached the node. *)

From S2P Require Import Prelude Domain CloudStore CloudJobs CloudRevoke.

Section routing.
Context `{CloudExternal}.
Variable c : Clock.

(** * Starting an attempt *)

Record NewDeliveryAttempt := {
  nd_attempt_id : string;
  nd_reservation_id : string;
  nd_job_id : string;
  nd_destination_id : string;
  nd_route_id : string;
  nd_lease_until : Z
}.

Definition resolved (t : Tenant) (attempt : string) (s : Store) : bool :=
  exists_row (λ k r, bool_decide (k.1 = t) && bool_decide (r.(rn_attempt_id) = attempt)) s.(resolutions).

(** [has_unresolved_destination_uncertainty]. *)
Definition unresolved (t : Tenant) (destination : string) (s : Store) : bool :=
  exists_row (λ _ a, bool_decide (a.(at_tenant) = t) && bool_decide (a.(at_destination_id) = destination)
                     && bool_decide (a.(at_state) = Attempt.DeliveryUncertain)
                     && negb (resolved t a.(at_id) s)) s.(delivery_attempts).

Definition latest_attempt (t : Tenant) (p : AttemptRow → bool) (s : Store) : option AttemptRow :=
  foldl (λ m a, match m with
                | Some b => if (b.(at_generation) <? a.(at_generation))%Z then Some a else m
                | None => Some a
                end) None
    (snd <$> select_rows (λ _ a, bool_decide (a.(at_tenant) = t) && p a) s.(delivery_attempts)).

(** A route lease that ran out before any node accepted the job is superseded. *)
Definition stale_attempts (t : Tenant) (destination : string) (s : Store) : list string :=
  (λ e : Tenant * string * AttemptRow, e.2.(at_id)) <$>
    select_rows (λ _ a, bool_decide (a.(at_tenant) = t) && bool_decide (a.(at_destination_id) = destination)
      && bool_decide (a.(at_state) = Attempt.RouteLeased) && bool_decide (a.(at_final_at) = None)
      && (a.(at_lease_until) <=? c.(sql_now))%Z) s.(delivery_attempts).
Definition supersede (t : Tenant) (ids : list string) (now : Z) (s : Store) : Store :=
  release_reservations t (reserved_by ids) ReservationSuperseded now
    (finish_attempts t (λ a, bool_decide (a.(at_id) ∈ ids)
       && bool_decide (a.(at_state) = Attempt.RouteLeased)) Attempt.Superseded now s).

(** An older job of the destination that still waits for its own attempt. *)
Definition older_eligible_job (t : Tenant) (destination id : string) (created_at : Z) (s : Store) : bool :=
  exists_row (λ k r, bool_decide (r.(jr_tenant) = t)
    && bool_decide (r.(jr_place).(destination_id) = Some destination) && negb (bool_decide (k = id))
    && ((r.(jr_created_at) <? created_at)%Z
        || (r.(jr_created_at) =? created_at)%Z && String.ltb k id)
    && bool_decide (r.(jr_life).(state) ∈ [WaitingForAgent; FailedRetryable])
    && (c.(sql_now) <? r.(jr_expires_at))%Z
    && from_option (λ a, Attempt.renewable a.(at_state)) true (latest_attempt t (of_job k) s)) s.(jobs).

(** The checks up to the fence of the destination, whose reading is a parameter; a job
    without a destination gets the requested one. *)
Definition check_against (fence : Store → bool) (t : Tenant) (q : NewDeliveryAttempt) : Tx unit :=
  route ← fetch (λ s, s.(topology).(printer_routes) !! (t, q.(nd_route_id))) NotFound;
  _ ← ensure (bool_decide (route.(rt_destination_id) = q.(nd_destination_id))) NotFound;
  active ← query (active_agent t route.(rt_agent_id));
  _ ← ensure active NotFound;
  _ ← ensure (route.(rt_enabled) && bool_decide (route.(rt_retired_at) = None)) NotFound;
  r ← fetch (job_of t q.(nd_job_id)) NotFound;
  _ ← ensure (bool_decide (r.(jr_life).(final_at) = None) && (c.(sql_now) <? r.(jr_expires_at))%Z
              && bool_decide (r.(jr_life).(state) ∈
                   [Registered; ContentPending; WaitingForAgent; FailedRetryable])) ConcurrentStateChange;
  _ ← (match r.(jr_place).(destination_id) with
       | Some d => ensure (bool_decide (d = q.(nd_destination_id))) ConcurrentStateChange
       | None => update_job q.(nd_job_id) (λ r, let p := r.(jr_place) in
           with_place {| agent_id := p.(agent_id); printer_id := p.(printer_id);
                         per_printer_sequence := p.(per_printer_sequence);
                         destination_id := Some q.(nd_destination_id);
                         route_id := Some q.(nd_route_id) |} r)
       end);
  open ← query fence;
  ensure (negb open) ConcurrentStateChange.
Definition check_delivery (t : Tenant) (q : NewDeliveryAttempt) : Tx unit :=
  check_against (unresolved t q.(nd_destination_id)) t q.

(** The job's own attempt, if it has one that is not final, must be a lease that ran out. *)
Definition retire_own_attempt (t : Tenant) (id : string) : Tx unit :=
  active ← query (λ s, head (select_rows (λ _ a, bool_decide (a.(at_tenant) = t) && of_job id a
                          && bool_decide (a.(at_final_at) = None)) s.(delivery_attempts)));
  match active with
  | Some (_, a) =>
    _ ← ensure (bool_decide (a.(at_state) = Attempt.RouteLeased)
                && (a.(at_lease_until) <=? c.(utc_now))%Z) ConcurrentStateChange;
    execute (supersede t [a.(at_id)] c.(utc_now))
  | None =>
    last ← query (latest_attempt t (of_job id));
    ensure (negb (bool_decide (at_state <$> last = Some Attempt.DeliveryUncertain))) ConcurrentStateChange
  end.

(** The keys of [delivery_attempts] and [route_reservations]: at most one attempt of a job
    that is not final, and at most one active reservation of a route, a destination, a job. *)
Definition attempt_conflict (a : AttemptRow) (s : Store) : bool :=
  exists_row (λ k b, bool_decide (k = (a.(at_tenant), a.(at_id)))
    || bool_decide (b.(at_tenant) = a.(at_tenant)) && bool_decide (b.(at_job_id) = a.(at_job_id))
       && (bool_decide (b.(at_generation) = a.(at_generation)) || bool_decide (b.(at_final_at) = None)))
    s.(delivery_attempts).
Definition reservation_conflict (r : ReservationRow) (s : Store) : bool :=
  exists_row (λ k q, bool_decide (k = (r.(rs_tenant), r.(rs_id)))
    || bool_decide (q.(rs_tenant) = r.(rs_tenant))
       && (bool_decide (q.(rs_attempt_id) = r.(rs_attempt_id))
           || bool_decide (q.(rs_state) = Active)
              && (bool_decide (q.(rs_route_id) = r.(rs_route_id))
                  || bool_decide (q.(rs_destination_id) = r.(rs_destination_id))
                  || bool_decide (q.(rs_job_id) = r.(rs_job_id)))))
    s.(route_reservations).

Definition insert_attempt (a : AttemptRow) : Tx unit :=
  taken ← query (attempt_conflict a);
  _ ← ensure (negb taken) ConcurrentStateChange;
  known ← query (λ s, bool_decide (is_Some
    (s.(topology).(physical_destinations) !! (a.(at_tenant), a.(at_destination_id)))));
  _ ← ensure (known && (32 <=? String.length a.(at_fencing_token_hash))
              && (String.length a.(at_fencing_token_hash) <=? 128)) (Database "delivery_attempts");
  execute (on_delivery_attempts <[(a.(at_tenant), a.(at_id)) := a]>).
Definition insert_reservation (r : ReservationRow) : Tx unit :=
  taken ← query (reservation_conflict r);
  _ ← ensure (negb taken) ConcurrentStateChange;
  execute (on_route_reservations <[(r.(rs_tenant), r.(rs_id)) := r]>).

Definition new_attempt (t : Tenant) (q : NewDeliveryAttempt) (generation : Z) (digest : string) : AttemptRow :=
  {| at_tenant := t; at_id := q.(nd_attempt_id); at_job_id := q.(nd_job_id);
     at_destination_id := q.(nd_destination_id); at_route_id := q.(nd_route_id);
     at_generation := generation; at_fencing_token_hash := digest; at_state := Attempt.RouteLeased;
     at_lease_until := q.(nd_lease_until); at_accepted_at := None; at_handoff_started_at := None;
     at_spooler_accepted_at := None; at_final_at := None; at_created_at := c.(sql_now) |}.
Definition new_reservation (t : Tenant) (q : NewDeliveryAttempt) (generation : Z) (digest : string) :
    ReservationRow :=
  {| rs_tenant := t; rs_id := q.(nd_reservation_id); rs_route_id := q.(nd_route_id);
     rs_destination_id := q.(nd_destination_id); rs_job_id := q.(nd_job_id);
     rs_attempt_id := q.(nd_attempt_id); rs_generation := generation;
     rs_fencing_token_hash := digest; rs_state := Active; rs_lease_until := q.(nd_lease_until);
     rs_released_at := None; rs_created_at := c.(sql_now) |}.

(** What follows the fence: stale leases, the order of jobs, the job's own attempt, and the
    attempt with its reservation under a fresh fencing token. *)
Definition reserve_delivery (t : Tenant) (q : NewDeliveryAttempt) (token : string) :
    Tx (AttemptRow * ReservationRow) :=
  stale ← query (stale_attempts t q.(nd_destination_id));
  _ ← (if bool_decide (stale = []) then mret () else execute (supersede t stale c.(sql_now)));
  r ← fetch (job_of t q.(nd_job_id)) NotFound;
  overtaking ← query (older_eligible_job t q.(nd_destination_id) q.(nd_job_id) r.(jr_created_at));
  _ ← ensure (negb overtaking) ConcurrentStateChange;
  _ ← retire_own_attempt t q.(nd_job_id);
  last ← query (latest_attempt t (of_job q.(nd_job_id)));
  let generation := (from_option at_generation 0 last + 1)%Z in
  let a := new_attempt t q generation (token_digest token) in
  let rs := new_reservation t q generation (token_digest token) in
  _ ← insert_attempt a;
  _ ← insert_reservation rs;
  mret (a, rs).

Definition begin_delivery_attempt (t : Tenant) (q : NewDeliveryAttempt) (token : string) :
    Tx (AttemptRow * ReservationRow) :=
  _ ← check_delivery t q;
  reserve_delivery t q token.

(** The same under READ COMMITTED.  The job, the route and the node are locked until the
    commit; the attempts of the destination are not, so the fence was read in a state
    [seen] that others may have left behind when the attempt is inserted. *)
Definition begin_read_committed (seen : Store) (t : Tenant) (q : NewDeliveryAttempt) (token : string) :
    Tx (AttemptRow * ReservationRow) :=
  _ ← check_against (λ _, unresolved t q.(nd_destination_id) seen) t q;
  reserve_delivery t q token.

(** * The states of an attempt *)

Definition need_attention (t : Tenant) (destination : string) : Store → Store :=
  on_physical_destinations (alter (set_destination Attention) (t, destination)).

Definition mark_times (next : DeliveryAttemptState) (now : Z) (a : AttemptRow) : AttemptRow :=
  set_attempt_times
    (if decide (next = Attempt.AcceptedByNode) then Some now else a.(at_accepted_at))
    (if decide (next = Attempt.HandingToSpooler) then Some now else a.(at_handoff_started_at))
    (if decide (next = Attempt.AcceptedBySpooler) then Some now else a.(at_spooler_accepted_at)) a.

Definition final_time (next : DeliveryAttemptState) (now : Z) : option Z :=
  if Attempt.is_final next then Some now else None.

Definition released_state (next : DeliveryAttemptState) : ReservationState :=
  match next with
  | Attempt.Superseded => ReservationSuperseded
  | Attempt.Cancelled => ReservationCancelled
  | _ => Released
  end.

Definition transition_delivery_attempt (t : Tenant) (attempt : string) (generation : N) (token : string)
    (next : DeliveryAttemptState) : Tx AttemptRow :=
  g ← pure_result (ok_or (i64_of_u64 generation) ConcurrentStateChange);
  a ← fetch (λ s, s.(delivery_attempts) !! (t, attempt)) NotFound;
  _ ← ensure (bool_decide (a.(at_generation) = g)
              && bool_decide (a.(at_fencing_token_hash) = token_digest token)
              && Attempt.valid_attempt_transition a.(at_state) next) ConcurrentStateChange;
  let now := c.(utc_now) in
  _ ← execute (on_delivery_attempts (alter (λ a, mark_times next now
        (set_attempt next (final_time next now) a)) (t, attempt)));
  _ ← (if Attempt.is_final next || bool_decide (next = Attempt.AcceptedBySpooler)
       then execute (release_reservations t (reserved_by [attempt]) (released_state next) now)
       else mret ());
  _ ← (if decide (next = Attempt.DeliveryUncertain)
       then execute (need_attention t a.(at_destination_id)) else mret ());
  fetch (λ s, s.(delivery_attempts) !! (t, attempt)) NotFound.

(** After the spooler accepted the job no lease is held any more: the attempt follows the
    node's reports. *)
Definition report_attempt (t : Tenant) (a : AttemptRow) (next : DeliveryAttemptState) : Tx AttemptRow :=
  let now := c.(utc_now) in
  _ ← execute (on_delivery_attempts (alter (set_attempt next (final_time next now)) (t, a.(at_id))));
  _ ← execute (release_reservations t (reserved_by [a.(at_id)]) Released now);
  _ ← (if decide (next = Attempt.DeliveryUncertain)
       then execute (need_attention t a.(at_destination_id)) else mret ());
  fetch (λ s, s.(delivery_attempts) !! (t, a.(at_id))) NotFound.

Definition post_spooler (st : DeliveryAttemptState) : bool :=
  bool_decide (st ∈ [Attempt.AcceptedBySpooler; Attempt.PrintingReported]).

Definition route_agent (t : Tenant) (a : AttemptRow) (s : Store) : option string :=
  rt_agent_id <$> s.(topology).(printer_routes) !! (t, a.(at_route_id)).

Definition transition_post_spooler_attempt (t : Tenant) (id agent route : string)
    (next : DeliveryAttemptState) : Tx AttemptRow :=
  _ ← ensure (bool_decide (next ∈ [Attempt.PrintingReported; Attempt.CompletedReported; Attempt.Failed;
                                   Attempt.DeliveryUncertain])) InvalidTransition;
  a ← fetch (λ s, latest_attempt t (λ a, of_job id a && bool_decide (a.(at_route_id) = route)
                    && bool_decide (route_agent t a s = Some agent)) s) NotFound;
  _ ← ensure (Attempt.valid_attempt_transition a.(at_state) next && post_spooler a.(at_state))
        ConcurrentStateChange;
  report_attempt t a next.

Definition mark_post_spooler_attempt_uncertain (t : Tenant) (id : string) : Tx AttemptRow :=
  a ← fetch (latest_attempt t (of_job id)) NotFound;
  _ ← ensure (post_spooler a.(at_state)) ConcurrentStateChange;
  report_attempt t a Attempt.DeliveryUncertain.

Definition renew_delivery_attempt (t : Tenant) (reservation : string) (generation : N) (token : string)
    (until : Z) : Tx (AttemptRow * ReservationRow) :=
  _ ← ensure (c.(utc_now) <? until)%Z (InvalidData "renewed lease must be in the future");
  g ← pure_result (ok_or (i64_of_u64 generation) ConcurrentStateChange);
  rs ← fetch (λ s, s.(route_reservations) !! (t, reservation)) NotFound;
  a ← fetch (λ s, s.(delivery_attempts) !! (t, rs.(rs_attempt_id))) NotFound;
  _ ← ensure (bool_decide (a.(at_generation) = g)
              && bool_decide (a.(at_fencing_token_hash) = token_digest token)
              && bool_decide (rs.(rs_state) = Active) && Attempt.renewable a.(at_state))
        ConcurrentStateChange;
  _ ← execute (on_delivery_attempts (alter (set_attempt_lease until) (t, a.(at_id))));
  _ ← execute (on_route_reservations (alter (set_reservation_lease until) (t, reservation)));
  mret (set_attempt_lease until a, set_reservation_lease until rs).

(** * Resolving an uncertain delivery *)

(** [char_length]: the bytes of UTF-8 that start a character. *)
Fixpoint char_length (s : string) : nat :=
  match s with
  | String.EmptyString => 0
  | String.String a s =>
    (if ((128 <=? N_of_ascii a) && (N_of_ascii a <? 192))%N then 0 else 1) + char_length s
  end.
Definition char_between (s : string) (low high : nat) : bool :=
  (low <=? char_length s) && (char_length s <=? high).

Definition valid_pending (p : PendingRow) (request : string) : bool :=
  bool_decide (p.(pn_resolution) ∈
    ["confirmed_delivered"; "reprint_authorized"; "accept_missing"; "cancelled"]%string)
  && from_option (λ n, char_between n 1 2048) true p.(pn_note)
  && char_between p.(pn_actor_id) 1 256 && char_between request 1 256.

(** The uncertain attempt of a job, with its route and its reservation. *)
Definition reservation_of (t : Tenant) (attempt : string) (s : Store) : option ReservationRow :=
  snd <$> head (select_rows (λ _ r, bool_decide (r.(rs_tenant) = t)
                  && bool_decide (r.(rs_attempt_id) = attempt)) s.(route_reservations)).
Definition uncertain_attempt (t : Tenant) (id : string) (s : Store) :
    option (AttemptRow * RouteRow * ReservationRow) :=
  a ← latest_attempt t (λ a, of_job id a && bool_decide (a.(at_state) = Attempt.DeliveryUncertain)
        && bool_decide (is_Some (s.(topology).(printer_routes) !! (t, a.(at_route_id))))
        && bool_decide (is_Some (reservation_of t a.(at_id) s))) s;
  route ← s.(topology).(printer_routes) !! (t, a.(at_route_id));
  rs ← reservation_of t a.(at_id) s;
  Some (a, route, rs).

(** The operator's decision becomes a command for the node that owns the route. *)
Definition new_pending (id : string) (x : AttemptRow * RouteRow * ReservationRow) (resolution : string)
    (note : option string) (actor : string) (cursor : Z) : PendingRow :=
  let '(a, route, rs) := x in
  {| pn_job_id := id; pn_attempt_id := a.(at_id); pn_destination_id := a.(at_destination_id);
     pn_route_id := a.(at_route_id); pn_agent_id := route.(rt_agent_id); pn_reservation_id := rs.(rs_id);
     pn_generation := a.(at_generation); pn_resolution := resolution; pn_note := note;
     pn_actor_id := actor; pn_command_cursor := cursor; pn_created_at := c.(sql_now);
     pn_finalized_at := None |}.

Definition enqueue_delivery_uncertainty_resolution (t : Tenant) (id resolution : string)
    (note : option string) (actor request : string) : Tx PendingRow :=
  existing ← query (λ s, s.(pending_resolutions) !! (t, request));
  match existing with
  | Some p =>
    _ ← ensure (bool_decide (p.(pn_job_id) = id) && bool_decide (p.(pn_resolution) = resolution)
                && bool_decide (p.(pn_note) = note) && bool_decide (p.(pn_actor_id) = actor))
          IdempotencyConflict;
    mret p
  | None =>
    x ← fetch (uncertain_attempt t id) NotFound;
    let '(a, route, rs) := x in
    key ← pure_result (ok_or route.(rt_local_route_key)
            (InvalidData "uncertain route has no node-local route key"));
    generation ← pure_result (ok_or (u64_of_i64 a.(at_generation))
            (InvalidData "uncertain resolution has a negative generation"));
    cursor ← insert_command t route.(rt_agent_id)
               (ResolveAmbiguousHandoff id key rs.(rs_id) generation true);
    let p := new_pending id x resolution note actor cursor in
    taken ← query (λ s, exists_row (λ k q, bool_decide (k.1 = t)
              && bool_decide (q.(pn_attempt_id) = a.(at_id))) s.(pending_resolutions));
    _ ← ensure (negb taken) ConcurrentStateChange;
    _ ← ensure (valid_pending p request) (Database "delivery_uncertainty_resolution_commands");
    _ ← execute (on_pending_resolutions <[(t, request) := p]>);
    mret p
  end.

Definition finalize_pending (p : PendingRow) : PendingRow :=
  {| pn_job_id := p.(pn_job_id); pn_attempt_id := p.(pn_attempt_id);
     pn_destination_id := p.(pn_destination_id); pn_route_id := p.(pn_route_id);
     pn_agent_id := p.(pn_agent_id); pn_reservation_id := p.(pn_reservation_id);
     pn_generation := p.(pn_generation); pn_resolution := p.(pn_resolution); pn_note := p.(pn_note);
     pn_actor_id := p.(pn_actor_id); pn_command_cursor := p.(pn_command_cursor);
     pn_created_at := p.(pn_created_at); pn_finalized_at := Some c.(sql_now) |}.

(** The command of a pending resolution: the same tenant, node and cursor. *)
Definition pending_command (t : Tenant) (p : PendingRow) (s : Store) : option CommandRow :=
  k ← s.(agent_commands) !! p.(pn_command_cursor);
  if decide (k.(cm_tenant) = t ∧ k.(cm_agent_id) = p.(pn_agent_id)) then Some k else None.

(** With its identifier. *)
Definition resolution_of (t : Tenant) (request : string) (s : Store) : option (string * ResolutionRow) :=
  (λ e : Tenant * string * ResolutionRow, (e.1.2, e.2)) <$>
    head (select_rows (λ k r, bool_decide (k.1 = t) && bool_decide (r.(rn_request_id) = request))
            s.(resolutions)).

Definition available_again (t : Tenant) (destination : string) (s : Store) : Store :=
  if unresolved t destination s then s
  else on_physical_destinations (alter (λ d,
         if decide (d.(pd_state) = Attention) then set_destination Available d else d)
         (t, destination)) s.

Definition record_resolution (resolution request : string) (j : Job) : Job :=
  set_job_metadata (<["piqae.delivery_resolved_at" := rfc3339 c.(utc_now)]>
    (<["piqae.delivery_resolution_request_id" := request]>
      (<["piqae.delivery_resolution" := resolution]> j.(j_metadata)))) j.

(** [new_id] is the resolution's identifier.  Nothing happens before the node acknowledged
    the command. *)
Definition finalize_delivery_uncertainty_resolution (new_id : string) (t : Tenant) (request : string) :
    Tx (option (string * ResolutionRow)) :=
  p ← fetch (λ s, s.(pending_resolutions) !! (t, request)) NotFound;
  k ← fetch (pending_command t p) NotFound;
  if decide (k.(cm_acknowledged_at) = None) then mret None else
  match p.(pn_finalized_at) with
  | Some _ => r ← fetch (resolution_of t request) (Database "no rows"); mret (Some r)
  | None =>
    let r := {| rn_job_id := p.(pn_job_id); rn_attempt_id := p.(pn_attempt_id);
                rn_destination_id := p.(pn_destination_id); rn_resolution := p.(pn_resolution);
                rn_note := p.(pn_note); rn_actor_id := p.(pn_actor_id); rn_request_id := request;
                rn_created_at := c.(sql_now) |} in
    taken ← query (λ s, exists_row (λ q x, bool_decide (q.1 = t) && (bool_decide (q.2 = new_id)
              || bool_decide (x.(rn_attempt_id) = p.(pn_attempt_id))
              || bool_decide (x.(rn_request_id) = request))) s.(resolutions));
    _ ← ensure (negb taken) ConcurrentStateChange;
    _ ← execute (on_resolutions <[(t, new_id) := r]>);
    _ ← execute (on_pending_resolutions (alter finalize_pending (t, request)));
    _ ← execute (available_again t p.(pn_destination_id));
    _ ← execute (on_jobs (alter (λ x, if decide (x.(jr_tenant) = t)
          then with_payload (record_resolution p.(pn_resolution) request x.(jr_payload)) x else x)
          p.(pn_job_id)));
    mret (Some (new_id, r))
  end.

Definition has_unresolved_destination_uncertainty (t : Tenant) (destination : string) : Tx bool :=
  query (unresolved t destination).

Definition recompute_destination_attention (t : Tenant) (destination : string) : Tx DestinationRow :=
  open ← query (unresolved t destination);
  d ← fetch (λ s, s.(topology).(physical_destinations) !! (t, destination)) NotFound;
  let st := if open : bool then Attention
            else if decide (d.(pd_state) = Attention) then Available else d.(pd_state) in
  _ ← execute (on_physical_destinations (alter (set_destination st) (t, destination)));
  mret (set_destination st d).

(** * Finalising what a node acknowledged *)

Definition acknowledged_requests (t : Tenant) (agent : string) (s : Store) : list (string * PendingRow) :=
  omap (λ e : Tenant * string * PendingRow, let '(k, p) := e in
    match pending_command t p s with
    | Some m => if bool_decide (k.1 = t) && bool_decide (p.(pn_agent_id) = agent)
                   && bool_decide (p.(pn_finalized_at) = None)
                   && negb (bool_decide (m.(cm_acknowledged_at) = None))
                then Some (k.2, p) else None
    | None => None
    end) (map_to_list s.(pending_resolutions)).

Definition pending_le (a b : string * PendingRow) : bool :=
  if negb (a.2.(pn_created_at) =? b.2.(pn_created_at))%Z
  then (a.2.(pn_created_at) <? b.2.(pn_created_at))%Z else String.leb a.1 b.1.

(** Reprints that were authorised and have no replacement job yet. *)
Definition replaced (t : Tenant) (resolution : string) (s : Store) : bool :=
  exists_row (λ _ r, bool_decide (r.(jr_tenant) = t)
    && bool_decide (r.(jr_payload).(j_metadata) !! "piqae.uncertainty_resolution_id" = Some resolution)
    && negb (bool_decide (r.(jr_life).(state) = Registered))) s.(jobs).
Definition open_reprints (t : Tenant) (agent : string) (s : Store) : list (string * ResolutionRow) :=
  omap (λ e : Tenant * string * ResolutionRow, let '(k, r) := e in
    match s.(pending_resolutions) !! (t, r.(rn_request_id)) with
    | Some p => if bool_decide (k.1 = t) && bool_decide (p.(pn_agent_id) = agent)
                   && bool_decide (r.(rn_resolution) = "reprint_authorized"%string)
                   && negb (replaced t k.2 s)
                then Some (k.2, r) else None
    | None => None
    end) (map_to_list s.(resolutions)).
Definition resolution_le (a b : string * ResolutionRow) : bool :=
  if negb (a.2.(rn_created_at) =? b.2.(rn_created_at))%Z
  then (a.2.(rn_created_at) <? b.2.(rn_created_at))%Z
  else String.leb a.2.(rn_request_id) b.2.(rn_request_id).

(** One transaction per request. *)
Fixpoint finalize_each (new_id : string → string) (t : Tenant) (requests : list string) :
    Op (list (string * ResolutionRow)) :=
  match requests with
  | [] => mret []
  | q :: qs =>
    r ← transaction (finalize_delivery_uncertainty_resolution (new_id q) t q);
    rs ← finalize_each new_id t qs;
    mret (match r with Some r => r :: rs | None => rs end)
  end.

Definition finalize_acknowledged_uncertainty_resolutions (new_id : string → string) (t : Tenant)
    (agent : string) (limit : Z) : Op (list (string * ResolutionRow)) :=
  requests ← transaction (query (λ s, take (clamp limit 1 100)
    (sort_by pending_le (acknowledged_requests t agent s))));
  done ← finalize_each new_id t (fst <$> requests);
  let remaining := clamp limit 1 100 - length done in
  more ← transaction (query (λ s, take remaining (sort_by resolution_le (open_reprints t agent s))));
  mret (done ++ filter (λ e : string * ResolutionRow,
    e.2.(rn_request_id) ∉ (rn_request_id ∘ snd <$> done)) more).

End routing.
