(* ===== verification/CloudTopology.v ===== *)
(** Changes of where a job prints: rerouting to another binding of its target before a node
    accepted it (crates/storage-postgres/src/lib.rs), and an operator's decisions about the
    identity of destinations (crates/storage-postgres/src/destination_topology.rs). *)

From S2P Require Import Prelude Domain CloudStore CloudJobs CloudRouting.

Section topology.
Context `{CloudExternal}.
Variable c : Clock.

(** * Rerouting *)

(** The binding the scheduler chose. *)
Record TargetBinding := {
  tb_id : string;
  tb_printer_id : string;
  tb_agent_id : string;
  tb_profile_id : string;
  tb_profile_revision : N
}.

(** A key under its current name or the one of older jobs. *)
Definition metadata_of (suffix : string) (j : Job) : option string :=
  coalesce (j.(j_metadata) !! ("piqae." +:+ suffix)) (j.(j_metadata) !! ("spool." +:+ suffix)).

(** The target, binding, printer and node that the decision relied on, still as they were. *)
Definition binding_target (t : Tenant) (target : string) (b : TargetBinding) (revision : Z) (s : Store) :
    option (TargetRow * BindingRow * PrinterRow) :=
  g ← s.(topology).(targets) !! (t, target);
  r ← s.(topology).(target_bindings) !! (t, b.(tb_id));
  p ← s.(topology).(printers) !! (t, b.(tb_printer_id));
  if g.(tg_enabled) && bool_decide (r.(bd_target_id) = target) && r.(bd_enabled)
     && bool_decide (r.(bd_printer_id) = b.(tb_printer_id))
     && bool_decide (r.(bd_agent_id) = b.(tb_agent_id))
     && bool_decide (r.(bd_profile_id) = b.(tb_profile_id))
     && bool_decide (r.(bd_profile_revision) = revision)
     && bool_decide (p.(pr_agent_id) = b.(tb_agent_id)) && bool_decide (p.(pr_removed_at) = None)
     && active_agent t b.(tb_agent_id) s
  then Some (g, r, p) else None.

Definition profile_matches (b : TargetBinding) (stock : option string) (p : ProfileSnapshot) : bool :=
  bool_decide (p.(ps_profile_id) = b.(tb_profile_id)) && (p.(ps_revision) =? b.(tb_profile_revision))%N
  && p.(ps_published) && bool_decide (p.(ps_status) ∈ [None; Some "ready"%string])
  && bool_decide (p.(ps_stock_id) = stock).

(** The old names are renamed; a value under the new name stays. *)
Definition rename_key (m : gmap string string) (suffix : string) : gmap string string :=
  match m !! ("spool." +:+ suffix) with
  | Some v => let m := delete ("spool." +:+ suffix) m in
              match m !! ("piqae." +:+ suffix) with
              | Some _ => m
              | None => <["piqae." +:+ suffix := v]> m
              end
  | None => m
  end.
Definition rename_keys (m : gmap string string) : gmap string string :=
  foldl rename_key m ["target_id"; "binding_id"; "profile_id"; "profile_revision"; "stock_id"]%string.

Definition rerouted_job (b : TargetBinding) (j : Job) : Job :=
  set_job_metadata
    (<["piqae.profile_revision" := pretty b.(tb_profile_revision)]>
      (<["piqae.profile_id" := b.(tb_profile_id)]>
        (<["piqae.binding_id" := b.(tb_id)]> (rename_keys j.(j_metadata)))))
    (set_job_printer b.(tb_printer_id) j).

(** The conditions of the update repeat those of the checks with the database's clock. *)
Definition reroutable (t : Tenant) (id : string) (s : Store) : bool :=
  match job_of t id s with
  | Some r => bool_decide (r.(jr_life).(state) ∈ [WaitingForAgent; FailedRetryable])
              && negb (time_after r.(jr_lease).(lease_until) c.(sql_now)) && negb (accepted t id s)
  | None => false
  end.

(** [jobs_destination_route_fkey], checked at commit. *)
Definition route_pair_known (t : Tenant) (p : PlaceColumns) (s : Store) : bool :=
  match p.(destination_id), p.(route_id) with
  | Some d, Some r => from_option (λ x, bool_decide (x.(rt_destination_id) = d)) false
                        (s.(topology).(printer_routes) !! (t, r))
  | _, _ => true
  end.

Definition move_job (t : Tenant) (id : string) (b : TargetBinding) (binding : BindingRow) (r : JobRow)
    (j : Job) : Tx (option Job) :=
  sequence ← query (next_printer_sequence t b.(tb_printer_id));
  let place := {| agent_id := b.(tb_agent_id); printer_id := b.(tb_printer_id);
                  per_printer_sequence := sequence;
                  destination_id := coalesce binding.(bd_destination_id) r.(jr_place).(destination_id);
                  route_id := coalesce binding.(bd_route_id) r.(jr_place).(route_id) |} in
  still ← query (reroutable t id);
  if negb still then mret None else
  _ ← update_job id (λ r, with_lease no_lease (with_place place (with_payload j r)));
  known ← query (route_pair_known t place);
  _ ← ensure known (Database "jobs_destination_route_fkey");
  mret (Some j).

Definition reroute_job_before_acceptance (t : Tenant) (id target : string) (b : TargetBinding)
    (reason : string) : Tx (option Job) :=
  _ ← ensure (bool_decide (reason ∈ ["node_recovered"; "standby_recovery"]%string))
        (InvalidData "unsupported routing attempt reason");
  r ← fetch (job_of t id) NotFound;
  taken ← query (accepted t id);
  let j := job_from_row r in
  if negb (bool_decide (r.(jr_life).(state) ∈ [WaitingForAgent; FailedRetryable]))
     || time_after r.(jr_lease).(lease_until) c.(utc_now) || taken
     || negb (bool_decide (metadata_of "target_id" j = Some target))
     || bool_decide (r.(jr_place).(agent_id) = b.(tb_agent_id))
        && bool_decide (r.(jr_place).(printer_id) = b.(tb_printer_id))
  then mret None else
  revision ← pure_result (ok_or (i64_of_u64 b.(tb_profile_revision))
               (InvalidData "profile revision is too large"));
  x ← fetch (binding_target t target b revision) ConcurrentStateChange;
  let '(g, binding, printer) := x in
  _ ← ensure (bool_decide (is_Some binding.(bd_destination_id) ↔ is_Some binding.(bd_route_id)))
        (InvalidData "target binding has an incomplete destination/route assignment");
  _ ← ensure (bool_decide (is_Some r.(jr_place).(destination_id) ↔ is_Some r.(jr_place).(route_id)))
        (InvalidData "job has an incomplete destination/route assignment");
  _ ← ensure (bool_decide (r.(jr_place).(destination_id) = None)
              || bool_decide (binding.(bd_destination_id) = r.(jr_place).(destination_id)))
        ConcurrentStateChange;
  let stock := metadata_of "stock_id" j in
  if negb (bool_decide (g.(tg_stock_id) = None)) && negb (bool_decide (stock = g.(tg_stock_id)))
     || negb (existsb (profile_matches b stock) printer.(pr_profiles))
  then mret None else
  move_job t id b binding r (rerouted_job b j).

(** * Decisions about identity *)

Record IdentityDecision := {
  id_id : string;
  id_kind : IdentityDecisionKind;
  id_destination_id : string;
  id_related_destination_ids : list string;
  id_route_ids : list string;
  id_evidence_ids : list string;
  id_reverses : option string
}.

Definition snapshot_destination (t : Tenant) (d : string) : Tx (string * DestinationRow) :=
  row ← fetch (λ s, s.(topology).(physical_destinations) !! (t, d)) NotFound;
  mret (d, row).
Definition snapshot_route (t : Tenant) (route : string) : Tx (string * (string * RouteRole)) :=
  r ← fetch (λ s, match s.(topology).(printer_routes) !! (t, route) with
                  | Some r => if decide (r.(rt_retired_at) = None) then Some r else None
                  | None => None
                  end) NotFound;
  mret (route, (r.(rt_destination_id), r.(rt_role))).

(** A route is busy while it is reserved or an attempt over it is not final. *)
Definition routes_busy (t : Tenant) (routes : list string) (s : Store) : bool :=
  exists_row (λ _ r, bool_decide (r.(rs_tenant) = t) && bool_decide (r.(rs_route_id) ∈ routes)
                     && bool_decide (r.(rs_state) = Active)) s.(route_reservations)
  || exists_row (λ _ a, bool_decide (a.(at_tenant) = t) && bool_decide (a.(at_route_id) ∈ routes)
                        && bool_decide (a.(at_final_at) = None)) s.(delivery_attempts).

Definition set_route (destination : string) (role : RouteRole) (r : RouteRow) : RouteRow :=
  {| rt_destination_id := destination; rt_printer_id := r.(rt_printer_id);
     rt_agent_id := r.(rt_agent_id); rt_local_route_key := r.(rt_local_route_key);
     rt_state := r.(rt_state); rt_role := role; rt_priority := r.(rt_priority);
     rt_enabled := r.(rt_enabled); rt_retired_at := r.(rt_retired_at) |}.

Definition update_routes (t : Tenant) (routes : list string) (f : RouteRow → RouteRow) : Store → Store :=
  on_printer_routes (map_imap (λ k r,
    Some (if bool_decide (k.1 = t) && bool_decide (k.2 ∈ routes) then f r else r))).

Definition has_primary (t : Tenant) (destination : string) (except : option string) (s : Store) : bool :=
  exists_row (λ k r, bool_decide (k.1 = t) && bool_decide (r.(rt_destination_id) = destination)
    && bool_decide (r.(rt_role) = Primary) && r.(rt_enabled) && bool_decide (r.(rt_retired_at) = None)
    && negb (bool_decide (Some k.2 = except))) s.(topology).(printer_routes).

(** Evidence, bindings and jobs follow their route to its destination. *)
Definition follow_routes (t : Tenant) (routes : list string) (s : Store) : Store :=
  let destination_of route := rt_destination_id <$> s.(topology).(printer_routes) !! (t, route) in
  let moved route := bool_decide (route ∈ routes) in
  on_jobs (update_where
    (λ r, bool_decide (r.(jr_tenant) = t) && from_option moved false r.(jr_place).(route_id))
    (λ r, let p := r.(jr_place) in
      with_place {| agent_id := p.(agent_id); printer_id := p.(printer_id);
                    per_printer_sequence := p.(per_printer_sequence);
                    destination_id := coalesce (p.(route_id) ≫= destination_of) p.(destination_id);
                    route_id := p.(route_id) |} r))
  (on_target_bindings (map_imap (λ k b,
    Some (if bool_decide (k.1 = t) && from_option moved false b.(bd_route_id)
          then {| bd_target_id := b.(bd_target_id); bd_printer_id := b.(bd_printer_id);
                  bd_agent_id := b.(bd_agent_id); bd_profile_id := b.(bd_profile_id);
                  bd_profile_revision := b.(bd_profile_revision);
                  bd_destination_id := coalesce (b.(bd_route_id) ≫= destination_of) b.(bd_destination_id);
                  bd_route_id := b.(bd_route_id); bd_role := b.(bd_role); bd_enabled := b.(bd_enabled);
                  bd_created_at := b.(bd_created_at) |}
          else b)))
  (on_identity_evidence (map_imap (λ k e,
    Some (if bool_decide (k.1 = t) && moved e.1 then (e.1, default e.2 (destination_of e.1)) else e))) s)).

Definition retire_empty (t : Tenant) (destinations : list string) (s : Store) : Store :=
  on_physical_destinations (map_imap (λ k d,
    Some (if bool_decide (k.1 = t) && bool_decide (k.2 ∈ destinations)
             && negb (exists_row (λ q r, bool_decide (q.1 = t) && bool_decide (r.(rt_destination_id) = k.2)
                        && bool_decide (r.(rt_retired_at) = None)) s.(topology).(printer_routes))
          then {| pd_state := Retired; pd_identity_confidence := d.(pd_identity_confidence);
                  pd_identity_revision := d.(pd_identity_revision);
                  pd_retired_at := Some c.(sql_now) |}
          else d))) s.

Definition move_routes (t : Tenant) (d : IdentityDecision) (routes : list (string * (string * RouteRole))) :
    Tx unit :=
  _ ← ensure (negb (bool_decide (d.(id_route_ids) = []))
              && negb (bool_decide (d.(id_related_destination_ids) = [])))
        (InvalidData "merge and split decisions require source destinations and routes");
  _ ← ensure (forallb (λ r, bool_decide (r.2.1 ∈ d.(id_related_destination_ids))) routes)
        (InvalidData "identity route does not belong to a declared source destination");
  busy ← query (routes_busy t d.(id_route_ids));
  _ ← ensure (negb busy) ConcurrentStateChange;
  _ ← execute (update_routes t d.(id_route_ids) (set_route d.(id_destination_id) Standby));
  primary ← query (has_primary t d.(id_destination_id) None);
  _ ← (if primary : bool then mret ()
       else execute (update_routes t (take 1 d.(id_route_ids)) (set_route d.(id_destination_id) Primary)));
  _ ← execute (follow_routes t d.(id_route_ids));
  if decide (d.(id_kind) = Merge) then execute (retire_empty t d.(id_related_destination_ids))
  else mret ().

Definition set_confidence (confidence : string) (d : DestinationRow) : DestinationRow :=
  {| pd_state := d.(pd_state); pd_identity_confidence := confidence;
     pd_identity_revision := d.(pd_identity_revision) + 1; pd_retired_at := d.(pd_retired_at) |}.
Definition update_destinations (t : Tenant) (ds : list string) (f : DestinationRow → DestinationRow) :
    Store → Store :=
  on_physical_destinations (map_imap (λ k d,
    Some (if bool_decide (k.1 = t) && bool_decide (k.2 ∈ ds) then f d else d))).

Definition insert_decision_row (t : Tenant) (d : IdentityDecision) (row : DecisionRow)
    (routes : list string) : Tx unit :=
  taken ← query (λ s, exists_row (λ k r, bool_decide (k.1 = t) && (bool_decide (k.2 = d.(id_id))
            || negb (bool_decide (row.(dc_reverses) = None))
               && bool_decide (r.(dc_reverses) = row.(dc_reverses)))) s.(topology).(identity_decisions));
  _ ← ensure (negb taken) ConcurrentStateChange;
  _ ← ensure (bool_decide (d.(id_kind) = Reverse ↔ is_Some row.(dc_reverses)))
        (Database "destination_identity_decisions");
  _ ← ensure (bool_decide (NoDup routes)) (Database "destination_identity_decision_routes_pkey");
  execute (on_identity_decisions <[(t, d.(id_id)) := row]>).

Definition record_identity_decision (t : Tenant) (d : IdentityDecision) : Tx unit :=
  _ ← ensure (negb (bool_decide (d.(id_kind) = Reverse)))
        (InvalidData "reverse decisions must use reverse_identity_decision");
  let related := remove_dups (d.(id_destination_id) :: d.(id_related_destination_ids)) in
  destinations ← for_each (snapshot_destination t) related;
  routes ← for_each (snapshot_route t) d.(id_route_ids);
  known ← query (λ s, length (filter (λ e, is_Some (s.(topology).(identity_evidence) !! (t, e)))
                               (remove_dups d.(id_evidence_ids))));
  _ ← ensure (known =? length d.(id_evidence_ids)) NotFound;
  _ ← (match d.(id_kind) with
       | Merge | Split => move_routes t d routes
       | Confirm => execute (update_destinations t [d.(id_destination_id)] (set_confidence "verified"))
       | RejectMatch => execute (update_destinations t related (set_confidence "conflict"))
       | Reverse => abort (InvalidData "reverse decisions require reverse_identity_decision")
       end);
  insert_decision_row t d {| dc_kind := d.(id_kind); dc_destinations := destinations;
                             dc_routes := routes; dc_reverses := d.(id_reverses) |}
    d.(id_route_ids).

(** A route goes back; two enabled primary routes of one destination are refused. *)
Definition restore_route (t : Tenant) (x : string * (string * RouteRole)) : Tx unit :=
  let '(route, (destination, role)) := x in
  clash ← query (λ s, bool_decide (role = Primary) && has_primary t destination (Some route) s
    && from_option (λ r, r.(rt_enabled) && bool_decide (r.(rt_retired_at) = None)) false
         (s.(topology).(printer_routes) !! (t, route)));
  _ ← ensure (negb clash) ConcurrentStateChange;
  execute (update_routes t [route] (set_route destination role)).

Definition restore_destination (x : DestinationRow) (d : DestinationRow) : DestinationRow :=
  {| pd_state := x.(pd_state); pd_identity_confidence := x.(pd_identity_confidence);
     pd_identity_revision := d.(pd_identity_revision) + 1; pd_retired_at := x.(pd_retired_at) |}.

Definition reverse_identity_decision (t : Tenant) (reversal : IdentityDecision) : Tx unit :=
  original ← pure_result (ok_or (if decide (reversal.(id_kind) = Reverse) then reversal.(id_reverses) else None)
    (InvalidData "reversal must identify the decision it reverses"));
  row ← fetch (λ s, match s.(topology).(identity_decisions) !! (t, original) with
                    | Some row => if decide (row.(dc_kind) = Reverse) then None else Some row
                    | None => None
                    end) NotFound;
  let routes := fst <$> row.(dc_routes) in
  busy ← query (routes_busy t routes);
  _ ← ensure (negb busy) ConcurrentStateChange;
  _ ← execute (update_routes t routes (λ r, set_route r.(rt_destination_id) Standby r));
  _ ← for_each (λ x : string * DestinationRow,
        execute (update_destinations t [x.1] (restore_destination x.2))) row.(dc_destinations);
  _ ← for_each (restore_route t) row.(dc_routes);
  _ ← execute (follow_routes t routes);
  insert_decision_row t reversal {| dc_kind := Reverse; dc_destinations := []; dc_routes := [];
                                    dc_reverses := Some original |} routes.

End topology.
