(* ===== verification/CloudReroute.v ===== *)
(** A waiting job goes over to another route before a node accepted it
    (crates/storage-postgres/src/lib.rs, [reroute_job_to_destination_route_before_acceptance]
    and the listings the scheduler reads): a direct job within its destination, under a print
    ticket resolved for the new printer, or a job of a target to an enabled binding of that
    target, with the profile, the stock and the loaded media that the decision relied on
    still as they were.

    Identifiers are named by their text.  The audit rows of [job_routing_attempts] and
    [routing_outbox] are left out. *)

From S2P Require Import Prelude Domain CloudStore CloudJobs CloudRouting CloudTopology.

(** [DestinationRouteReassignment]. *)
Record DestinationRouteReassignment := {
  dr_job_id : string;
  dr_target_id : option string;
  dr_binding_id : option string;
  dr_destination_id : string;
  dr_route_id : string;
  dr_printer_id : string;
  dr_agent_id : string;
  dr_profile_id : option string;
  dr_profile_revision : option N;
  dr_stock_revision : option N;
  dr_expected_design_specification_revision : option string;
  dr_loaded_media_snapshot : option string;
  dr_expected_capability_revision : option N;
  dr_resolved_ticket_digest : option string;
  dr_reason : string
}.

(** What is read of a snapshot of loaded media, and what a design specification is computed
    from: the target, its stock and its bindings in the order of their identifiers. *)
Record MediaSnapshot := {
  ms_stock : option (option string * option N);
  ms_source : option string;
  ms_confidence : option string;
  ms_observed_at : option string;
  ms_fresh_until : option string
}.
Record DesignProjection := {
  dp_target : string * TargetRow;
  dp_stock : option (string * N * StockRow);
  dp_bindings : list (string * N * BindingRow)
}.

(** serde_json and chrono: a snapshot from its text, a timestamp from its text, and the JSON
    text of a projection. *)
Class MediaJson := {
  snapshot_from_json : string → option MediaSnapshot;
  parse_rfc3339 : string → option Z;
  projection_json : DesignProjection → string
}.

Section reroute.
Context `{CloudExternal} `{MediaJson}.
Variable c : Clock.

(** The route, with its printer and node, that can take the job. *)
Definition reroute_candidate (t : Tenant) (q : DestinationRouteReassignment) (s : Store) : option (RouteRow * PrinterRow) :=
  route ← s.(topology).(printer_routes) !! (t, q.(dr_route_id));
  printer ← s.(topology).(printers) !! (t, route.(rt_printer_id));
  if bool_decide (route.(rt_destination_id) = q.(dr_destination_id)) && route.(rt_enabled)
     && bool_decide (route.(rt_retired_at) = None) && bool_decide (printer.(pr_agent_id) = route.(rt_agent_id))
     && bool_decide (printer.(pr_removed_at) = None) && active_agent t route.(rt_agent_id) s
     && match q.(dr_target_id) with
        | Some target => from_option tg_enabled false (s.(topology).(targets) !! (t, target))
        | None => true
        end
  then Some (route, printer) else None.

Definition bindings_of (t : Tenant) (target : string) (s : Store) : list (string * BindingRow) :=
  sort_by (λ a b, String.leb a.1 b.1)
    ((λ e : Tenant * string * BindingRow, (e.1.2, e.2)) <$>
      select_rows (λ k b, bool_decide (k.1 = t) && bool_decide (b.(bd_target_id) = target)) s.(topology).(target_bindings)).

Definition binding_stands (q : DestinationRouteReassignment) (route : RouteRow) (binding profile : string) (revision : Z)
    (e : string * BindingRow) : bool :=
  let b := e.2 in
  bool_decide (e.1 = binding) && bool_decide (b.(bd_printer_id) = route.(rt_printer_id))
  && bool_decide (b.(bd_agent_id) = route.(rt_agent_id)) && bool_decide (b.(bd_profile_id) = profile)
  && bool_decide (b.(bd_profile_revision) = revision)
  && bool_decide (b.(bd_destination_id) = Some q.(dr_destination_id)) && b.(bd_enabled).

(** The stock of the target is active, at the revision the decision knows. *)
Definition current_stock (t : Tenant) (q : DestinationRouteReassignment) (stock : string) : Tx (string * N * StockRow) :=
  k ← fetch (λ s, s.(topology).(catalogue).(stocks) !! (t, stock)) ConcurrentStateChange;
  revision ← pure_result (ok_or (u64_of_i64 k.(sk_revision)) (InvalidData "stock revision"));
  _ ← ensure (negb k.(sk_archived) && from_option (λ n, (n =? revision)%N) true q.(dr_stock_revision)) ConcurrentStateChange;
  mret (stock, revision, k).

Definition numbered_binding (e : string * BindingRow) : Tx (string * N * BindingRow) :=
  revision ← pure_result (ok_or (u64_of_i64 e.2.(bd_profile_revision)) (InvalidData "profile revision"));
  mret (e.1, revision, e.2).
Definition check_design (target : string * TargetRow) (stock : option (string * N * StockRow))
    (bindings : list (string * BindingRow)) (expected : string) : Tx unit :=
  rows ← for_each numbered_binding bindings;
  ensure (bool_decide ("spec_" +:+ hex (sha256 (projection_json
    {| dp_target := target; dp_stock := stock; dp_bindings := rows |})) = expected)) ConcurrentStateChange.

(** Fifteen minutes. *)
Definition MEDIA_FRESH : Z := seconds 900.
Definition media_stands (q : DestinationRouteReassignment) (stock : option string) (revision : N) (confidence : string)
    (observed_at fresh_until : Z) (m : LoadedMediaRow) (loaded : option N) : bool :=
  bool_decide (m.(lm_stock_id) = stock) && bool_decide (loaded = Some revision)
  && bool_decide (m.(lm_confidence) = confidence) && bool_decide (confidence ∈ ["reported"; "operator_confirmed"]%string)
  && bool_decide (m.(lm_calibration_state) = "current"%string) && (m.(lm_observed_at) =? observed_at)%Z
  && (m.(lm_observed_at) + MEDIA_FRESH =? fresh_until)%Z && (c.(utc_now) <=? m.(lm_observed_at) + MEDIA_FRESH)%Z.

(** The loaded media the decision saw are the ones recorded now, and still fresh. *)
Definition check_media (t : Tenant) (q : DestinationRouteReassignment) (printer : string) (stock : option string)
    (metadata : gmap string string) : Tx (gmap string string) :=
  match q.(dr_stock_revision), q.(dr_loaded_media_snapshot) with
  | Some revision, Some text =>
    snapshot ← pure_result (ok_or (snapshot_from_json text) (InvalidData "loaded media snapshot"));
    _ ← ensure (match snapshot.(ms_stock) with
                | Some (id, n) => bool_decide (id = stock) && bool_decide (n = Some revision)
                | None => false
                end) ConcurrentStateChange;
    source ← pure_result (ok_or snapshot.(ms_source) ConcurrentStateChange);
    confidence ← pure_result (ok_or snapshot.(ms_confidence) ConcurrentStateChange);
    observed_at ← pure_result (ok_or (snapshot.(ms_observed_at) ≫= parse_rfc3339) ConcurrentStateChange);
    fresh_until ← pure_result (ok_or (snapshot.(ms_fresh_until) ≫= parse_rfc3339) ConcurrentStateChange);
    m ← fetch (λ s, s.(topology).(catalogue).(printer_loaded_media) !! (t, printer, source)) ConcurrentStateChange;
    loaded ← (match m.(lm_stock_revision) with
              | Some n => n ← pure_result (ok_or (u64_of_i64 n) (InvalidData "stock revision")); mret (Some n)
              | None => mret None
              end);
    _ ← ensure (media_stands q stock revision confidence observed_at fresh_until m loaded) ConcurrentStateChange;
    mret (<["piqae.loaded_media_snapshot" := text]> (<["piqae.stock_revision" := pretty revision]> metadata))
  | _, _ => abort (InvalidData "PrintPacket target reroute requires a loaded-media fence")
  end.

Definition has_media (m : gmap string string) : bool := bool_decide (is_Some (m !! "piqae.document.media")).

(** The metadata of a target's job on the new binding. *)
Definition retarget (t : Tenant) (q : DestinationRouteReassignment) (target : string) (route : RouteRow) (printer : PrinterRow)
    (j : Job) : Tx (gmap string string) :=
  match q.(dr_binding_id), q.(dr_profile_id), q.(dr_profile_revision) with
  | Some binding, Some profile, Some revision =>
    g ← fetch (λ s, s.(topology).(targets) !! (t, target)) ConcurrentStateChange;
    _ ← ensure g.(tg_enabled) ConcurrentStateChange;
    bindings ← query (bindings_of t target);
    expected ← pure_result (ok_or (i64_of_u64 revision) (InvalidData "profile revision is too large"));
    _ ← ensure (existsb (binding_stands q route binding profile expected) bindings) ConcurrentStateChange;
    let stock := metadata_of "stock_id" j in
    _ ← ensure (negb (has_media j.(j_metadata) && bool_decide (q.(dr_expected_design_specification_revision) = None)))
          (InvalidData "PrintPacket target reroute requires the expected design specification revision");
    _ ← ensure (bool_decide (g.(tg_stock_id) = None) || bool_decide (g.(tg_stock_id) = stock)) ConcurrentStateChange;
    projected ← (match g.(tg_stock_id) with
                 | Some id => k ← current_stock t q id; mret (Some k)
                 | None => mret None
                 end);
    _ ← (match q.(dr_expected_design_specification_revision) with
         | Some design => check_design (target, g) projected bindings design
         | None => mret ()
         end);
    _ ← ensure (existsb (profile_matches {| tb_id := binding; tb_printer_id := route.(rt_printer_id);
            tb_agent_id := route.(rt_agent_id); tb_profile_id := profile; tb_profile_revision := revision |} stock)
          printer.(pr_profiles)) ConcurrentStateChange;
    let m := <["piqae.profile_revision" := pretty revision]>
               (<["piqae.binding_id" := binding]> (<["piqae.profile_id" := profile]> j.(j_metadata))) in
    m ← (if has_media m then check_media t q route.(rt_printer_id) stock m else mret m);
    mret (if bool_decide (m !! "piqae.document.render_mode" = Some "node_render"%string)
          then <["piqae.document.readiness_binding_id" := binding]> m else m)
  | _, _, _ => abort (InvalidData "target reroute requires a binding and immutable profile revision")
  end.

(** The metadata of a direct job under a ticket for the new printer. *)
Definition reticket (t : Tenant) (q : DestinationRouteReassignment) (route : RouteRow) (printer : PrinterRow) (j : Job) :
    Tx (gmap string string) :=
  match q.(dr_expected_capability_revision), q.(dr_resolved_ticket_digest) with
  | Some expected, Some digest =>
    revision ← pure_result (ok_or (u64_of_i64 printer.(pr_capabilities_revision)) (InvalidData "capability revision"));
    n ← pure_result (ok_or (i64_of_u64 expected) (InvalidData "capability revision is too large"));
    valid ← query (λ s, match s.(topology).(catalogue).(resolved_print_tickets) !! (t, digest) with
              | Some k => bool_decide (k.(tk_printer_id) = route.(rt_printer_id)) && (k.(tk_capability_revision) =? n)%Z
                          && (c.(sql_now) <? k.(tk_expires_at))%Z
              | None => false
              end);
    _ ← ensure ((revision =? expected)%N && valid) ConcurrentStateChange;
    mret (<["piqae.resolved_ticket_digest" := digest]> (<["piqae.capability_revision" := pretty expected]> j.(j_metadata)))
  | _, _ => abort (InvalidData "direct reroute requires an immutable resolved ticket")
  end.

(** Encrypted content moves only to the printer it is bound to and to a node with an
    envelope. *)
Definition check_envelope (t : Tenant) (id : string) (route : RouteRow) (j : Job) : Tx unit :=
  match j.(j_content) with
  | EncryptedUpload _ m =>
    _ ← ensure (bool_decide (m.(manifest_binding).(bound_printer_id) = route.(rt_printer_id))) ConcurrentStateChange;
    held ← query (λ s, existsb (λ k, bool_decide (k.1.1 = (t, route.(rt_agent_id))) && bool_decide (k.2 = id))
                        (elements s.(key_references)));
    ensure held ConcurrentStateChange
  | _ => mret ()
  end.

Definition routed_job (q : DestinationRouteReassignment) (printer : string) (m : gmap string string) (j : Job) : Job :=
  set_job_metadata
    (<["piqae.route_agent_id" := q.(dr_agent_id)]>
      (<["piqae.route_id" := q.(dr_route_id)]>
        (<["piqae.destination_id" := q.(dr_destination_id)]> (rename_keys m))))
    (set_job_printer printer j).

(** The update repeats the conditions with the database's clock. *)
Definition place_job (t : Tenant) (q : DestinationRouteReassignment) (route : RouteRow) (j : Job) : Tx (option Job) :=
  sequence ← query (next_printer_sequence t route.(rt_printer_id));
  let place := {| agent_id := route.(rt_agent_id); printer_id := route.(rt_printer_id); per_printer_sequence := sequence;
                  destination_id := Some q.(dr_destination_id); route_id := Some q.(dr_route_id) |} in
  still ← query (reroutable c t q.(dr_job_id));
  if negb still then mret None else
  _ ← update_job q.(dr_job_id) (λ r, with_lease no_lease (with_place place (with_payload j r)));
  mret (Some j).

Definition reroute_job_to_destination_route_before_acceptance (t : Tenant) (q : DestinationRouteReassignment) :
    Tx (option Job) :=
  _ ← ensure (bool_decide (q.(dr_reason) ∈ ["node_recovered"; "standby_recovery"]%string))
        (InvalidData "unsupported routing attempt reason");
  r ← fetch (job_of t q.(dr_job_id)) NotFound;
  if negb (bool_decide (r.(jr_life).(state) ∈ [WaitingForAgent; FailedRetryable]))
     || time_after r.(jr_lease).(lease_until) c.(utc_now) then mret None else
  taken ← query (accepted t q.(dr_job_id));
  if taken : bool then mret None else
  from ← pure_result (ok_or r.(jr_place).(destination_id) (InvalidData "job has no physical destination"));
  _ ← ensure (bool_decide (is_Some q.(dr_target_id)) || bool_decide (from = q.(dr_destination_id))) ConcurrentStateChange;
  if bool_decide (from = q.(dr_destination_id)) && bool_decide (r.(jr_place).(route_id) = Some q.(dr_route_id))
  then mret None else
  x ← fetch (reroute_candidate t q) ConcurrentStateChange;
  let '(route, printer) := x in
  _ ← ensure (bool_decide (route.(rt_printer_id) = q.(dr_printer_id)) && bool_decide (route.(rt_agent_id) = q.(dr_agent_id)))
        ConcurrentStateChange;
  let j := job_from_row r in
  _ ← ensure (bool_decide (metadata_of "target_id" j = q.(dr_target_id))) ConcurrentStateChange;
  m ← (match q.(dr_target_id) with
       | Some target => retarget t q target route printer j
       | None => reticket t q route printer j
       end);
  _ ← check_envelope t q.(dr_job_id) route j;
  place_job t q route (routed_job q route.(rt_printer_id) m j).

(** ** What the scheduler reads *)

(** Jobs of a destination that no node has taken, oldest first. *)
Definition list_reroutable_destination_jobs (t : Tenant) (limit : Z) (s : Store) : list Job :=
  (λ e : string * JobRow, job_from_row e.2) <$>
    take (Z.to_nat (Z.max 1 (Z.min limit 1000)))
      (sort_by (λ a b, (a.2.(jr_created_at) <? b.2.(jr_created_at))%Z
                  || (a.2.(jr_created_at) =? b.2.(jr_created_at))%Z && String.leb a.1 b.1)
        (select_rows (λ k r, bool_decide (r.(jr_tenant) = t) && bool_decide (is_Some r.(jr_place).(destination_id))
           && (c.(sql_now) <? r.(jr_expires_at))%Z && reroutable c t k s) s.(jobs))).

(** The bindings of a target: the primary ones first, then by age. *)
Definition list_target_bindings (t : Tenant) (target : string) : Tx (list (string * N * BindingRow)) :=
  _ ← fetch (λ s, s.(topology).(targets) !! (t, target)) NotFound;
  let rank (e : string * BindingRow) : nat := if bool_decide (e.2.(bd_role) = "primary"%string) then 0 else 1 in
  rows ← query (λ s, sort_by (λ a b, (rank a <? rank b)
      || (rank a =? rank b) && ((a.2.(bd_created_at) <? b.2.(bd_created_at))%Z
         || (a.2.(bd_created_at) =? b.2.(bd_created_at))%Z && String.leb a.1 b.1)) (bindings_of t target s));
  for_each numbered_binding rows.
End reroute.
