(* ===== verification/CloudFacts.v ===== *)
(** Facts about the transactions of the control plane's store: how a committed transaction
    is taken apart, what the queries return, and the three groups of tables that change
    independently - jobs with their events, acceptances and usage; attempts with their
    reservations; commands with the resolutions they carry. *)

From S2P Require Import Prelude Domain CloudStore CloudWake CloudJobs CloudAccept CloudRevoke CloudRouting CloudTopology.

(** * The statements of this store *)

Lemma update_job_Ok id f s s' u : update_job id f s = Ok (s', u) ↔ s' = on_jobs (alter f id) s.
Proof. apply execute_Ok. Qed.

Ltac tx_leaf H ::=
  lazymatch type of H with
  | update_job _ _ _ = Ok _ => apply update_job_Ok in H
  | allowed _ _ _ = Ok _ => apply ensure_Ok in H as [-> H]
  | _ => idtac
  end.

(** * Jobs, events, acceptances, usage *)

Record JView := {
  v_jobs : gmap string JobRow;
  v_events : gmap (string * N) EventRow;
  v_acceptances : gmap string AcceptanceRow;
  v_usage : gmap string (Tenant * Z)
}.
Definition jview (s : Store) : JView :=
  {| v_jobs := s.(jobs); v_events := s.(job_events); v_acceptances := s.(job_acceptances);
     v_usage := s.(usage_ledger) |}.

(** The edges of the store's state machine: those of the domain, and those only the server
    takes: it blocks or fails a job before the handoff and returns a blocked job to the
    queue, a lease becomes an acceptance, a blocked job expires while nobody accepted it,
    and revocation makes an accepted job uncertain. *)
Definition edge (taken : bool) (f t : JobState) : bool :=
  can_transition_to f t ||
  match f, t with
  | (WaitingForAgent | FailedRetryable), (Blocked | FailedTerminal) => true
  | WaitingForAgent, AgentAccepted => true
  | Blocked, WaitingForAgent => true
  | Blocked, Expired => negb taken
  | _, DeliveryUncertain => taken && negb (is_terminal f)
  | _, _ => false
  end.

(** Revocation puts a job back into the queue without an event. *)
Definition requeued (st : JobState) : bool :=
  bool_decide (st ∈ [Registered; ContentPending; WaitingForAgent; AgentDownloading]).
Definition follows (st now : JobState) : Prop := now = st ∨ now = WaitingForAgent ∧ requeued st = true.

(** The columns no transaction changes. *)
Record same_job (r r' : JobRow) : Prop := {
  sj_tenant : r'.(jr_tenant) = r.(jr_tenant);
  sj_id : r'.(jr_payload).(j_id) = r.(jr_payload).(j_id);
  sj_payload_tenant : r'.(jr_payload).(j_tenant) = r.(jr_payload).(j_tenant);
  sj_created : r'.(jr_created_at) = r.(jr_created_at);
  sj_expires : r'.(jr_expires_at) = r.(jr_expires_at)
}.

(** A change of a row that is not a transition. *)
Inductive row_change (taken : bool) (r r' : JobRow) : Prop :=
| row_kept : same_job r r' → r'.(jr_life) = r.(jr_life) →
    (taken = true → r'.(jr_place).(agent_id) = r.(jr_place).(agent_id)) → row_change taken r r'
| row_requeued : same_job r r' → r'.(jr_place) = r.(jr_place) →
    requeued r.(jr_life).(state) = true → r.(jr_life).(final_at) = None →
    r'.(jr_life) = {| state := WaitingForAgent; state_sequence := r.(jr_life).(state_sequence);
                      final_at := None |} → row_change taken r r'.

(** A transition with its event. *)
Record logged (taken : bool) (id : string) (r r' : JobRow) (e : JobEvent) : Prop := {
  lg_same : same_job r r';
  lg_agent : r'.(jr_place) = r.(jr_place);
  lg_job : e.(je_job_id) = id;
  lg_sequence : Z.of_N e.(je_sequence) = (r.(jr_life).(state_sequence) + 1)%Z;
  lg_bound : (Z.of_N e.(je_sequence) ≤ i64_max)%Z;
  lg_row : r'.(jr_life).(state_sequence) = Z.of_N e.(je_sequence);
  lg_state : r'.(jr_life).(state) = e.(je_state);
  lg_final : is_Some r'.(jr_life).(final_at) ↔ is_terminal e.(je_state) = true;
  lg_open : is_terminal r.(jr_life).(state) = false;
  lg_edge : edge taken r.(jr_life).(state) e.(je_state) = true
}.

Record registered (id : string) (r : JobRow) (e : JobEvent) : Prop := {
  rg_id : r.(jr_payload).(j_id) = id;
  rg_tenant : r.(jr_payload).(j_tenant) = r.(jr_tenant);
  rg_life : r.(jr_life) = {| state := e.(je_state); state_sequence := 1; final_at := None |};
  rg_open : is_terminal e.(je_state) = false;
  rg_job : e.(je_job_id) = id;
  rg_sequence : e.(je_sequence) = 1%N
}.

(** What an acceptance keeps: columns of older servers are filled in, never changed. *)
Definition filled {A} (o o' : option A) : Prop := o = None ∨ o' = o.
Record same_acceptance (a a' : AcceptanceRow) : Prop := {
  sa_tenant : a'.(ac_tenant) = a.(ac_tenant);
  sa_agent : a'.(ac_agent_id) = a.(ac_agent_id);
  sa_lease : a'.(ac_lease_id) = a.(ac_lease_id);
  sa_sha : a'.(ac_content_sha256) = a.(ac_content_sha256);
  sa_sequence : a'.(ac_local_sequence) = a.(ac_local_sequence);
  sa_token : filled a.(ac_lease_token_hash) a'.(ac_lease_token_hash);
  sa_route : filled a.(ac_route) a'.(ac_route);
  sa_generation : filled a.(ac_connector_generation) a'.(ac_connector_generation)
}.

Definition is_taken (id : string) (ac : gmap string AcceptanceRow) : bool := bool_decide (is_Some (ac !! id)).

Inductive jstep : JView → JView → Prop :=
| j_create js es ac us id r e : js !! id = None → registered id r e →
    jstep (Build_JView js es ac us)
      (Build_JView (<[id := r]> js)
         (<[(id, 1%N) := {| er_tenant := r.(jr_tenant); er_event := e |}]> es) ac us)
| j_log js es ac us id r r' e : js !! id = Some r → logged (is_taken id ac) id r r' e →
    jstep (Build_JView js es ac us)
      (Build_JView (<[id := r']> js)
         (<[(id, e.(je_sequence)) := {| er_tenant := r.(jr_payload).(j_tenant); er_event := e |}]> es) ac us)
| j_rows js js' es ac us :
    (∀ id, option_relation (row_change (is_taken id ac)) (λ _, False) (λ _, False) (js !! id) (js' !! id)) →
    jstep (Build_JView js es ac us) (Build_JView js' es ac us)
| j_accept js es ac us id r a : js !! id = Some r → ac !! id = None →
    a.(ac_tenant) = r.(jr_tenant) → a.(ac_agent_id) = r.(jr_place).(agent_id) →
    r.(jr_life).(state) = AgentAccepted →
    jstep (Build_JView js es ac us) (Build_JView js es (<[id := a]> ac) us)
| j_fill js es ac us id a a' : ac !! id = Some a → same_acceptance a a' →
    jstep (Build_JView js es ac us) (Build_JView js es (<[id := a']> ac) us)
| j_usage js es ac us id r at_ : js !! id = Some r → us !! id = None →
    r.(jr_life).(state) = CompletedReported →
    jstep (Build_JView js es ac us) (Build_JView js es ac (<[id := (r.(jr_tenant), at_)]> us)).

(** ** The invariant *)

Record row_wf (id : string) (r : JobRow) : Prop := {
  rw_id : r.(jr_payload).(j_id) = id;
  rw_tenant : r.(jr_payload).(j_tenant) = r.(jr_tenant);
  rw_sequence : (1 ≤ r.(jr_life).(state_sequence) ≤ i64_max)%Z;
  rw_final : is_Some r.(jr_life).(final_at) ↔ is_terminal r.(jr_life).(state) = true
}.

Record event_wf (id : string) (n : N) (e : EventRow) (r : JobRow) : Prop := {
  ew_tenant : e.(er_tenant) = r.(jr_tenant);
  ew_job : e.(er_event).(je_job_id) = id;
  ew_sequence : e.(er_event).(je_sequence) = n;
  ew_range : (1 ≤ Z.of_N n ≤ r.(jr_life).(state_sequence))%Z
}.

Record jobs_wf (v : JView) : Prop := {
  jw_row id r : v.(v_jobs) !! id = Some r → row_wf id r;
  jw_event id n e : v.(v_events) !! (id, n) = Some e →
    ∃ r, v.(v_jobs) !! id = Some r ∧ event_wf id n e r;
  jw_gap id r n : v.(v_jobs) !! id = Some r → (1 ≤ Z.of_N n ≤ r.(jr_life).(state_sequence))%Z →
    is_Some (v.(v_events) !! (id, n));
  jw_last id r e : v.(v_jobs) !! id = Some r →
    v.(v_events) !! (id, Z.to_N r.(jr_life).(state_sequence)) = Some e →
    follows e.(er_event).(je_state) r.(jr_life).(state);
  jw_edge id n e e' : v.(v_events) !! (id, n) = Some e → v.(v_events) !! (id, n + 1)%N = Some e' →
    ∃ now taken, follows e.(er_event).(je_state) now ∧ edge taken now e'.(er_event).(je_state) = true;
  jw_accepted id a : v.(v_acceptances) !! id = Some a →
    ∃ r, v.(v_jobs) !! id = Some r ∧ r.(jr_tenant) = a.(ac_tenant)
         ∧ r.(jr_place).(agent_id) = a.(ac_agent_id);
  jw_usage id u : v.(v_usage) !! id = Some u →
    ∃ r, v.(v_jobs) !! id = Some r ∧ r.(jr_tenant) = u.1 ∧ r.(jr_life).(state) = CompletedReported
}.

Lemma edge_terminal taken f t : is_terminal f = true → edge taken f t = false.
Proof. by destruct f, t, taken. Qed.

Lemma requeued_open st : requeued st = true → is_terminal st = false.
Proof. by destruct st. Qed.

Lemma follows_terminal st now : follows st now → is_terminal now = true → now = st.
Proof. by intros [->|[-> _]]. Qed.

Lemma row_change_wf taken id r r' : row_change taken r r' → row_wf id r → row_wf id r'.
Proof.
  intros [[] Hlife _|[] Hplace Hq Hfin Hlife] [].
  - split; rewrite ?Hlife; congruence.
  - split; rewrite ?Hlife; simpl; [congruence..|done|]. split; [by intros []|done].
Qed.

Lemma row_change_sequence taken r r' : row_change taken r r' →
  r'.(jr_life).(state_sequence) = r.(jr_life).(state_sequence).
Proof. by intros [? ->|? _ _ _ ->]. Qed.

Lemma row_change_tenant taken r r' : row_change taken r r' → r'.(jr_tenant) = r.(jr_tenant).
Proof. by intros [[]|[]]. Qed.

Lemma row_change_agent r r' : row_change true r r' → r'.(jr_place).(agent_id) = r.(jr_place).(agent_id).
Proof. intros [? _ Ha|? -> _]; [by apply Ha|done]. Qed.

(** A terminal state does not change, nor does a state change to a terminal one. *)
Lemma row_change_terminal taken r r' : row_change taken r r' →
  is_terminal r.(jr_life).(state) = true ∨ is_terminal r'.(jr_life).(state) = true →
  r'.(jr_life) = r.(jr_life).
Proof.
  intros [? -> _|? _ Hq _ ->]; [done|]. simpl. intros [Ht|?]; [|done].
  by rewrite (requeued_open _ Hq) in Ht.
Qed.

Lemma row_change_follows taken st r r' :
  row_change taken r r' → follows st r.(jr_life).(state) → follows st r'.(jr_life).(state).
Proof.
  intros [? -> _|? _ Hq _ ->]; [done|]. simpl. intros [Heq|[Heq Hr]]; right; split; congruence.
Qed.

Section jstep_wf.
Variables (js : gmap string JobRow) (es : gmap (string * N) EventRow) (ac : gmap string AcceptanceRow)
  (us : gmap string (Tenant * Z)).
Hypothesis (Hwf : jobs_wf (Build_JView js es ac us)).

Lemma no_events id n : js !! id = None → es !! (id, n) = None.
Proof.
  intros Hid. destruct (es !! (id, n)) as [e|] eqn:He; [|done].
  destruct (jw_event _ Hwf _ _ _ He) as (r & Hr & _). simpl in Hr. congruence.
Qed.

Lemma no_later_event id r n :
  js !! id = Some r → (r.(jr_life).(state_sequence) < Z.of_N n)%Z → es !! (id, n) = None.
Proof.
  intros Hid Hn. destruct (es !! (id, n)) as [e|] eqn:He; [|done].
  destruct (jw_event _ Hwf _ _ _ He) as (r' & Hr & []). simpl in Hr. simplify_eq. lia.
Qed.

(** Acceptances and usage only refer to a row's tenant, node and completion. *)
Lemma links_kept js' es' :
  (∀ id r, js !! id = Some r → ∃ r', js' !! id = Some r' ∧ r'.(jr_tenant) = r.(jr_tenant) ∧
     (is_Some (ac !! id) → r'.(jr_place).(agent_id) = r.(jr_place).(agent_id)) ∧
     (r.(jr_life).(state) = CompletedReported → r'.(jr_life).(state) = CompletedReported)) →
  let v' := Build_JView js' es' ac us in
  (∀ id a, v'.(v_acceptances) !! id = Some a → ∃ r, v'.(v_jobs) !! id = Some r ∧
     r.(jr_tenant) = a.(ac_tenant) ∧ r.(jr_place).(agent_id) = a.(ac_agent_id)) ∧
  (∀ id u, v'.(v_usage) !! id = Some u → ∃ r, v'.(v_jobs) !! id = Some r ∧
     r.(jr_tenant) = u.1 ∧ r.(jr_life).(state) = CompletedReported).
Proof.
  intros Hk v'. split; intros id x Hx; simpl in *.
  - destruct (jw_accepted _ Hwf _ _ Hx) as (r & Hr & Ht & Ha).
    destruct (Hk _ _ Hr) as (r' & Hr' & Ht' & Ha' & _). exists r'.
    rewrite Ht', Ha' by eauto. done.
  - destruct (jw_usage _ Hwf _ _ Hx) as (r & Hr & Ht & Hs).
    destruct (Hk _ _ Hr) as (r' & Hr' & Ht' & _ & Hs'). exists r'.
    rewrite Ht'. auto.
Qed.

Lemma create_wf id r e :
  js !! id = None → registered id r e →
  jobs_wf (Build_JView (<[id := r]> js)
             (<[(id, 1%N) := {| er_tenant := r.(jr_tenant); er_event := e |}]> es) ac us).
Proof.
  intros Hid [Hpid Hpt Hlife Hopen Hjob Hseq].
  assert (Hold : ∀ i x, js !! i = Some x → i ≠ id) by naive_solver.
  assert (Hnone := no_events id). edestruct links_kept as [Hac Hus]; [|split; [| | | | |exact Hac|exact Hus]].
  { intros i x Hi. exists x. rewrite lookup_insert_ne by (by apply not_eq_sym, (Hold i x)). done. }
  - simpl. intros i x [[<- <-]|[Hne Hi]]%lookup_insert_Some; [|by apply (jw_row _ Hwf)].
    split; rewrite ?Hlife; simpl; [done..|unfold i64_max; lia|]. rewrite Hopen. split; [by intros []|done].
  - simpl. intros i n x [[[= <- <-] <-]|[Hne Hi]]%lookup_insert_Some.
    + exists r. rewrite lookup_insert_eq. split; [done|]. split; simpl; try done. rewrite Hlife. simpl. lia.
    + destruct (jw_event _ Hwf _ _ _ Hi) as (r0 & Hr0 & ?). exists r0. simpl in Hr0.
      rewrite lookup_insert_ne by (by apply not_eq_sym, (Hold i r0)). done.
  - simpl. intros i x n [[<- <-]|[Hne Hi]]%lookup_insert_Some Hn.
    + rewrite Hlife in Hn. simpl in Hn. assert (n = 1%N) as -> by lia. by rewrite lookup_insert_eq.
    + rewrite lookup_insert_ne by congruence. by apply (jw_gap _ Hwf _ x).
  - simpl. intros i x ev [[<- <-]|[Hne Hi]]%lookup_insert_Some Hev.
    + rewrite Hlife in *. simpl in *. rewrite lookup_insert_eq in Hev. simplify_eq/=. by left.
    + rewrite lookup_insert_ne in Hev by congruence. by eapply (jw_last _ Hwf).
  - simpl. intros i n x y [[[= <- <-] <-]|[Hne Hi]]%lookup_insert_Some Hy.
    + rewrite lookup_insert_ne, Hnone in Hy by done. done.
    + apply lookup_insert_Some in Hy as [[[= -> _] _]|[_ Hy]]; [|by eapply (jw_edge _ Hwf)].
      by rewrite Hnone in Hi.
Qed.

Lemma log_wf id r r' e :
  js !! id = Some r → logged (is_taken id ac) id r r' e →
  jobs_wf (Build_JView (<[id := r']> js)
    (<[(id, e.(je_sequence)) := {| er_tenant := r.(jr_payload).(j_tenant); er_event := e |}]> es) ac us).
Proof.
  intros Hid [Hsame Hplace Hjob Hseq Hbound Hrow Hst Hfin Hopen Hedge].
  destruct (jw_row _ Hwf _ _ Hid) as [Hpid Hpt Hrange Hrfin].
  assert (Hnone : ∀ n, (r.(jr_life).(state_sequence) < Z.of_N n)%Z → es !! (id, n) = None)
    by (intros n; by apply no_later_event).
  edestruct links_kept as [Hac Hus]; [|split; [| | | | |exact Hac|exact Hus]].
  { intros i x Hi. destruct (decide (i = id)) as [->|Hne].
    - simplify_eq/=. exists r'. rewrite lookup_insert_eq, (sj_tenant _ _ Hsame), Hplace. split_and!; try done.
      intros Hc. by rewrite Hc in Hopen.
    - exists x. by rewrite lookup_insert_ne. }
  - simpl. intros i x [[<- <-]|[Hne Hi]]%lookup_insert_Some; [|by apply (jw_row _ Hwf)].
    destruct Hsame. split; [congruence..|lia|]. by rewrite Hst, Hfin.
  - simpl. intros i n x [[[= <- <-] <-]|[Hne Hi]]%lookup_insert_Some.
    + exists r'. rewrite lookup_insert_eq. split; [done|]. destruct Hsame. split; simpl; try congruence. lia.
    + destruct (jw_event _ Hwf _ _ _ Hi) as (r0 & Hr0 & [? ? ? ?]). simpl in Hr0.
      destruct (decide (i = id)) as [->|Hne']; [|exists r0; by rewrite lookup_insert_ne].
      simplify_eq. exists r'. rewrite lookup_insert_eq. split; [done|]. destruct Hsame. split; try congruence. lia.
  - simpl. intros i x n [[<- <-]|[Hne Hi]]%lookup_insert_Some Hn.
    + destruct (decide (n = e.(je_sequence))) as [->|Hne]; [by rewrite lookup_insert_eq|].
      rewrite lookup_insert_ne by congruence. apply (jw_gap _ Hwf _ r); [done|]. lia.
    + rewrite lookup_insert_ne by congruence. by apply (jw_gap _ Hwf _ x).
  - simpl. intros i x ev [[<- <-]|[Hne Hi]]%lookup_insert_Some Hev.
    + rewrite Hrow, N2Z.id, lookup_insert_eq in Hev. simplify_eq/=. by left.
    + rewrite lookup_insert_ne in Hev by congruence. by eapply (jw_last _ Hwf).
  - simpl. intros i n x y Hx [[[= <- Hn] <-]|[Hne' Hi']]%lookup_insert_Some.
    + rewrite lookup_insert_ne in Hx by (intros [= ?]; lia).
      exists r.(jr_life).(state), (is_taken id ac). split; [|done].
      apply (jw_last _ Hwf id r); simpl; [done|]. replace (Z.to_N _) with n by lia. done.
    + apply lookup_insert_Some in Hx as [[[= <- <-] <-]|[Hne Hi]]; [|by eapply (jw_edge _ Hwf)].
      rewrite Hnone in Hi' by lia. done.
Qed.

Lemma rows_wf js' :
  (∀ id, option_relation (row_change (is_taken id ac)) (λ _, False) (λ _, False) (js !! id) (js' !! id)) →
  jobs_wf (Build_JView js' es ac us).
Proof.
  intros Hch.
  assert (Hto : ∀ id r, js !! id = Some r → ∃ r', js' !! id = Some r' ∧ row_change (is_taken id ac) r r').
  { intros id r Hr. specialize (Hch id). rewrite Hr in Hch. destruct (js' !! id); naive_solver. }
  assert (Hback : ∀ id r', js' !! id = Some r' → ∃ r, js !! id = Some r ∧ row_change (is_taken id ac) r r').
  { intros id r Hr. specialize (Hch id). rewrite Hr in Hch. destruct (js !! id); naive_solver. }
  edestruct links_kept as [Hac Hus]; [|split; [| | | | |exact Hac|exact Hus]].
  { intros i x Hi. destruct (Hto _ _ Hi) as (x' & Hx' & Hc). exists x'. split_and!; [done| | |].
    - by eapply row_change_tenant.
    - intros Ht. eapply row_change_agent. unfold is_taken in Hc. by rewrite bool_decide_true in Hc.
    - intros Hs. rewrite (row_change_terminal _ _ _ Hc); [done|]. left. by rewrite Hs. }
  - simpl. intros i x (x0 & Hx0 & Hc)%Hback. eapply row_change_wf; [done|]. by apply (jw_row _ Hwf).
  - simpl. intros i n x Hx. destruct (jw_event _ Hwf _ _ _ Hx) as (r & Hr & []).
    destruct (Hto _ _ Hr) as (r' & Hr' & Hc). exists r'. split; [done|].
    rewrite <- (row_change_tenant _ _ _ Hc), <- (row_change_sequence _ _ _ Hc) in *. done.
  - simpl. intros i x n (x0 & Hx0 & Hc)%Hback. rewrite (row_change_sequence _ _ _ Hc). by apply (jw_gap _ Hwf).
  - simpl. intros i x ev (x0 & Hx0 & Hc)%Hback. rewrite (row_change_sequence _ _ _ Hc). intros Hev.
    eapply row_change_follows; [done|]. by eapply (jw_last _ Hwf).
  - apply (jw_edge _ Hwf).
Qed.

End jstep_wf.

Lemma jstep_wf v v' : jobs_wf v → jstep v v' → jobs_wf v'.
Proof.
  intros Hwf Hs. destruct Hs as [js es ac us id r e|js es ac us id r r' e|js js' es ac us|
    js es ac us id r a Hr Hn Ht Ha _|js es ac us id a a' Ha []|js es ac us id r at_ Hr Hn Hs].
  - by apply create_wf.
  - by apply log_wf.
  - by eapply rows_wf.
  - destruct Hwf. split; try done. simpl in *.
    intros i x [[<- <-]|[_ Hi]]%lookup_insert_Some; [by exists r|eauto].
  - destruct Hwf as [? ? ? ? ? Hac ?]. split; try done. simpl in *.
    intros i x [[<- <-]|[_ Hi]]%lookup_insert_Some; [|eauto].
    destruct (Hac _ _ Ha) as (r & ? & ? & ?). exists r. split_and!; congruence.
  - destruct Hwf. split; try done. simpl in *.
    intros i x [[<- <-]|[_ Hi]]%lookup_insert_Some; [by exists r|eauto].
Qed.
