(* ===== verification/CloudDeliveries.v ===== *)
(** Attempts and reservations of the control plane's store: their elementary changes, the
    invariant that ties every active reservation to an attempt before the spooler's
    acceptance, and how the updates of the transactions are made of them. *)

From S2P Require Import Prelude Domain CloudStore CloudJobs CloudRouting CloudFacts.

(** * Attempts and reservations *)

Record DView := {
  v_attempts : gmap (Tenant * string) AttemptRow;
  v_reservations : gmap (Tenant * string) ReservationRow
}.
Definition dview (s : Store) : DView :=
  {| v_attempts := s.(delivery_attempts); v_reservations := s.(route_reservations) |}.

(** How far an attempt has come. *)
Definition progress (st : DeliveryAttemptState) : nat :=
  match st with
  | Attempt.RouteLeased => 0
  | Attempt.AcceptedByNode => 1
  | Attempt.QueuedLocal => 2
  | Attempt.HandingToSpooler => 3
  | Attempt.AcceptedBySpooler => 4
  | Attempt.PrintingReported => 5
  | _ => 6
  end.

Record same_attempt (a a' : AttemptRow) : Prop := {
  st_tenant : a'.(at_tenant) = a.(at_tenant);
  st_id : a'.(at_id) = a.(at_id);
  st_job : a'.(at_job_id) = a.(at_job_id);
  st_destination : a'.(at_destination_id) = a.(at_destination_id);
  st_route : a'.(at_route_id) = a.(at_route_id);
  st_generation : a'.(at_generation) = a.(at_generation);
  st_token : a'.(at_fencing_token_hash) = a.(at_fencing_token_hash)
}.
Inductive attempt_moves (a a' : AttemptRow) : Prop :=
| attempt_stays : same_attempt a a' → a'.(at_state) = a.(at_state) → a'.(at_final_at) = a.(at_final_at) →
    attempt_moves a a'
| attempt_advances : same_attempt a a' → progress a.(at_state) < progress a'.(at_state) →
    (is_Some a'.(at_final_at) ↔ Attempt.is_final a'.(at_state) = true) → attempt_moves a a'.

Record same_reservation (r r' : ReservationRow) : Prop := {
  sr_tenant : r'.(rs_tenant) = r.(rs_tenant);
  sr_id : r'.(rs_id) = r.(rs_id);
  sr_route : r'.(rs_route_id) = r.(rs_route_id);
  sr_destination : r'.(rs_destination_id) = r.(rs_destination_id);
  sr_job : r'.(rs_job_id) = r.(rs_job_id);
  sr_attempt : r'.(rs_attempt_id) = r.(rs_attempt_id);
  sr_generation : r'.(rs_generation) = r.(rs_generation);
  sr_token : r'.(rs_fencing_token_hash) = r.(rs_fencing_token_hash)
}.
Inductive reservation_moves (r r' : ReservationRow) : Prop :=
| reservation_stays : same_reservation r r' → r'.(rs_state) = r.(rs_state) →
    r'.(rs_released_at) = r.(rs_released_at) → reservation_moves r r'
| reservation_released : same_reservation r r' → r.(rs_state) = Active → r'.(rs_state) ≠ Active →
    is_Some r'.(rs_released_at) → reservation_moves r r'.

(** The reservation of an attempt. *)
Record reserves (a : AttemptRow) (r : ReservationRow) : Prop := {
  rv_tenant : r.(rs_tenant) = a.(at_tenant);
  rv_attempt : r.(rs_attempt_id) = a.(at_id);
  rv_job : r.(rs_job_id) = a.(at_job_id);
  rv_destination : r.(rs_destination_id) = a.(at_destination_id);
  rv_route : r.(rs_route_id) = a.(at_route_id);
  rv_generation : r.(rs_generation) = a.(at_generation);
  rv_token : r.(rs_fencing_token_hash) = a.(at_fencing_token_hash)
}.

Definition holds (r : ReservationRow) (a : AttemptRow) : Prop :=
  r.(rs_state) = Active ↔ Attempt.renewable a.(at_state) = true.

(** Two active reservations of one tenant that claim the same thing. *)
Definition competes (r q : ReservationRow) : Prop :=
  r.(rs_tenant) = q.(rs_tenant) ∧
  (r.(rs_route_id) = q.(rs_route_id) ∨ r.(rs_destination_id) = q.(rs_destination_id)
   ∨ r.(rs_job_id) = q.(rs_job_id)).

Definition all_rows {K V} `{Countable K} (R : V → V → Prop) (m m' : gmap K V) : Prop :=
  ∀ k, option_relation R (λ _, False) (λ _, False) (m !! k) (m' !! k).

Record attempt_started (ats : gmap (Tenant * string) AttemptRow)
    (rss : gmap (Tenant * string) ReservationRow) (a : AttemptRow) (r : ReservationRow) : Prop := {
  bg_fresh : ats !! (a.(at_tenant), a.(at_id)) = None;
  bg_others k b : ats !! k = Some b → b.(at_tenant) = a.(at_tenant) → b.(at_job_id) = a.(at_job_id) →
    b.(at_generation) ≠ a.(at_generation) ∧ b.(at_final_at) ≠ None;
  bg_state : a.(at_state) = Attempt.RouteLeased;
  bg_final : a.(at_final_at) = None;
  bg_generation : (0 < a.(at_generation))%Z;
  bg_reserves : reserves a r;
  bg_reservation : rss !! (r.(rs_tenant), r.(rs_id)) = None;
  bg_free k q : rss !! k = Some q → q.(rs_state) = Active → ¬ competes q r;
  bg_own k q : rss !! k = Some q → q.(rs_tenant) = r.(rs_tenant) → q.(rs_attempt_id) ≠ r.(rs_attempt_id);
  bg_active : r.(rs_state) = Active;
  bg_unreleased : r.(rs_released_at) = None
}.

Inductive dstep (js : gmap string JobRow) : DView → DView → Prop :=
| d_begin ats rss a r row : js !! a.(at_job_id) = Some row → row.(jr_tenant) = a.(at_tenant) →
    row.(jr_life).(final_at) = None → attempt_started ats rss a r →
    dstep js (Build_DView ats rss)
      (Build_DView (<[(a.(at_tenant), a.(at_id)) := a]> ats) (<[(r.(rs_tenant), r.(rs_id)) := r]> rss))
| d_change ats ats' rss rss' : all_rows attempt_moves ats ats' → all_rows reservation_moves rss rss' →
    (∀ k r a, rss' !! k = Some r → ats' !! (r.(rs_tenant), r.(rs_attempt_id)) = Some a → holds r a) →
    dstep js (Build_DView ats rss) (Build_DView ats' rss').

(** ** The invariant *)

Record attempt_wf (js : gmap string JobRow) (k : Tenant * string) (a : AttemptRow) : Prop := {
  aw_key : k = (a.(at_tenant), a.(at_id));
  aw_generation : (0 < a.(at_generation))%Z;
  aw_final : is_Some a.(at_final_at) ↔ Attempt.is_final a.(at_state) = true;
  aw_job : ∃ row, js !! a.(at_job_id) = Some row ∧ row.(jr_tenant) = a.(at_tenant)
}.

Record deliveries_wf (js : gmap string JobRow) (v : DView) : Prop := {
  dw_attempt k a : v.(v_attempts) !! k = Some a → attempt_wf js k a;
  dw_open k a k' a' : v.(v_attempts) !! k = Some a → v.(v_attempts) !! k' = Some a' →
    a.(at_tenant) = a'.(at_tenant) → a.(at_job_id) = a'.(at_job_id) →
    a.(at_final_at) = None → a'.(at_final_at) = None → k = k';
  dw_generation k a k' a' : v.(v_attempts) !! k = Some a → v.(v_attempts) !! k' = Some a' →
    a.(at_tenant) = a'.(at_tenant) → a.(at_job_id) = a'.(at_job_id) →
    a.(at_generation) = a'.(at_generation) → k = k';
  dw_key k r : v.(v_reservations) !! k = Some r → k = (r.(rs_tenant), r.(rs_id));
  dw_released k r : v.(v_reservations) !! k = Some r →
    (r.(rs_state) = Active ↔ r.(rs_released_at) = None);
  dw_reserves k r : v.(v_reservations) !! k = Some r →
    ∃ a, v.(v_attempts) !! (r.(rs_tenant), r.(rs_attempt_id)) = Some a ∧ reserves a r ∧ holds r a;
  dw_reserved k a : v.(v_attempts) !! k = Some a →
    ∃ k' r, v.(v_reservations) !! k' = Some r ∧ r.(rs_tenant) = a.(at_tenant) ∧ r.(rs_attempt_id) = a.(at_id);
  dw_one k r k' r' : v.(v_reservations) !! k = Some r → v.(v_reservations) !! k' = Some r' →
    r.(rs_tenant) = r'.(rs_tenant) → r.(rs_attempt_id) = r'.(rs_attempt_id) → k = k';
  dw_exclusive k r k' r' : v.(v_reservations) !! k = Some r → v.(v_reservations) !! k' = Some r' →
    r.(rs_state) = Active → r'.(rs_state) = Active → competes r r' → k = k'
}.

Section all_rows.
Context {K V : Type} `{Countable K} (R : V → V → Prop) (m m' : gmap K V).
Hypothesis (HR : all_rows R m m').

Lemma all_rows_to k x : m !! k = Some x → ∃ x', m' !! k = Some x' ∧ R x x'.
Proof. intros Hx. specialize (HR k). rewrite Hx in HR. destruct (m' !! k); naive_solver. Qed.
Lemma all_rows_from k x' : m' !! k = Some x' → ∃ x, m !! k = Some x ∧ R x x'.
Proof. intros Hx. specialize (HR k). rewrite Hx in HR. destruct (m !! k); naive_solver. Qed.
End all_rows.

Lemma all_rows_fmap {K V} `{Countable K} (R : V → V → Prop) (f : V → V) (m : gmap K V) :
  (∀ k x, m !! k = Some x → R x (f x)) → all_rows R m (f <$> m).
Proof. intros Hf k. rewrite lookup_fmap. destruct (m !! k) eqn:Hk; simpl; eauto. Qed.

Lemma all_rows_alter {K V} `{Countable K} (R : V → V → Prop) (f : V → V) i (m : gmap K V) :
  (∀ x, R x x) → (∀ x, m !! i = Some x → R x (f x)) → all_rows R m (alter f i m).
Proof.
  intros Hr Hf k. rewrite lookup_alter_row. destruct (m !! k) eqn:Hk; simpl; [|done].
  destruct (decide (k = i)) as [->|]; auto.
Qed.

Lemma all_rows_refl {K V} `{Countable K} (R : V → V → Prop) (m : gmap K V) :
  (∀ x, R x x) → all_rows R m m.
Proof. intros Hr k. destruct (m !! k); simpl; auto. Qed.

Lemma final_progress st : Attempt.is_final st = true ↔ progress st = 6.
Proof. by destruct st. Qed.
Lemma progress_bound st : progress st ≤ 6.
Proof. destruct st; simpl; lia. Qed.

Lemma attempt_moves_same a a' : attempt_moves a a' → same_attempt a a'.
Proof. by intros []. Qed.

Lemma attempt_moves_open a a' :
  (is_Some a.(at_final_at) ↔ Attempt.is_final a.(at_state) = true) → attempt_moves a a' →
  a'.(at_final_at) = None → a.(at_final_at) = None.
Proof.
  intros Hw [_ _ Heq|_ Hlt _] Hn; [congruence|].
  destruct (a.(at_final_at)) eqn:Hf; [|done].
  apply proj1, (λ f, f (mk_is_Some _ _ eq_refl)), final_progress in Hw.
  pose proof (progress_bound a'.(at_state)). lia.
Qed.

Lemma attempt_moves_wf js k a a' : attempt_wf js k a → attempt_moves a a' → attempt_wf js k a'.
Proof.
  intros [Hk Hg Hf (row & Hrow & Ht)] [[? ? ? ? ? Eg ?] Hst Hfin|[? ? ? ? ? Eg ?] Hlt Hfin];
    (split; [congruence|by rewrite Eg| |exists row; split; congruence]); [by rewrite Hst, Hfin|done].
Qed.

Lemma reservation_moves_same r r' : reservation_moves r r' → same_reservation r r'.
Proof. by intros []. Qed.
Lemma reservation_moves_active r r' : reservation_moves r r' → r'.(rs_state) = Active → r.(rs_state) = Active.
Proof. intros [? Hs _|? ? Hn _]; congruence. Qed.

Lemma competes_sym r q : competes r q → competes q r.
Proof. unfold competes. naive_solver. Qed.

Lemma change_wf js ats ats' rss rss' :
  deliveries_wf js (Build_DView ats rss) → all_rows attempt_moves ats ats' →
  all_rows reservation_moves rss rss' →
  (∀ k r a, rss' !! k = Some r → ats' !! (r.(rs_tenant), r.(rs_attempt_id)) = Some a → holds r a) →
  deliveries_wf js (Build_DView ats' rss').
Proof.
  intros Hwf Hat Hrs Hholds.
  pose proof (all_rows_from _ _ _ Hat) as Fa. pose proof (all_rows_from _ _ _ Hrs) as Fr.
  split; simpl.
  - intros k a' (a & Ha & Hm)%Fa. eapply attempt_moves_wf; [by apply (dw_attempt _ _ Hwf)|done].
  - intros k a' k2 b' (a & Ha & Hm)%Fa (b & Hb & Hn)%Fa Ht Hj Hf1 Hf2.
    apply (dw_open _ _ Hwf k a k2 b); [done..| | |by eapply attempt_moves_open;
      [apply (dw_attempt _ _ Hwf k)| |]|by eapply attempt_moves_open; [apply (dw_attempt _ _ Hwf k2)| |]];
      destruct (attempt_moves_same _ _ Hm), (attempt_moves_same _ _ Hn); congruence.
  - intros k a' k2 b' (a & Ha & Hm)%Fa (b & Hb & Hn)%Fa Ht Hj Hg.
    apply (dw_generation _ _ Hwf k a k2 b); [done..| | |];
      destruct (attempt_moves_same _ _ Hm), (attempt_moves_same _ _ Hn); congruence.
  - intros k r' (r & Hr & Hm)%Fr. rewrite (dw_key _ _ Hwf k r Hr).
    destruct (reservation_moves_same _ _ Hm). congruence.
  - intros k r' (r & Hr & Hm)%Fr. pose proof (dw_released _ _ Hwf k r Hr) as Hrel.
    destruct Hm as [_ Hs Ht|_ _ Hs [x Hx]]; [by rewrite Hs, Ht|]. rewrite Hx. split; [done|discriminate].
  - intros k r' Hr'. destruct (Fr _ _ Hr') as (r & Hr & Hm).
    destruct (dw_reserves _ _ Hwf k r Hr) as (a & Ha & Hres & _). simpl in Ha.
    destruct (all_rows_to _ _ _ Hat _ _ Ha) as (a' & Ha' & Hma).
    destruct (reservation_moves_same _ _ Hm) as [Et ? ? ? ? Ea ? ?].
    destruct (attempt_moves_same _ _ Hma), Hres. exists a'. rewrite Et, Ea.
    split_and!; [done|split; congruence|]. eapply Hholds; [done|]. by rewrite Et, Ea.
  - intros k a' (a & Ha & Hm)%Fa. destruct (dw_reserved _ _ Hwf k a Ha) as (k2 & r & Hr & Ht & Hat2).
    destruct (all_rows_to _ _ _ Hrs _ _ Hr) as (r' & Hr' & Hmr). exists k2, r'.
    destruct (reservation_moves_same _ _ Hmr), (attempt_moves_same _ _ Hm). split_and!; congruence.
  - intros k r' k2 q' (r & Hr & Hm)%Fr (q & Hq & Hn)%Fr Ht Ha.
    destruct (reservation_moves_same _ _ Hm), (reservation_moves_same _ _ Hn).
    apply (dw_one _ _ Hwf k r k2 q); [done|done|congruence..].
  - intros k r' k2 q' (r & Hr & Hm)%Fr (q & Hq & Hn)%Fr Hs1 Hs2 Hc.
    apply (dw_exclusive _ _ Hwf k r k2 q); [done..|by eapply reservation_moves_active|
      by eapply reservation_moves_active|].
    destruct (reservation_moves_same _ _ Hm), (reservation_moves_same _ _ Hn).
    unfold competes in *. naive_solver congruence.
Qed.

Lemma begin_wf js ats rss a r row :
  deliveries_wf js (Build_DView ats rss) → js !! a.(at_job_id) = Some row →
  row.(jr_tenant) = a.(at_tenant) → attempt_started ats rss a r →
  deliveries_wf js (Build_DView (<[(a.(at_tenant), a.(at_id)) := a]> ats)
                                (<[(r.(rs_tenant), r.(rs_id)) := r]> rss)).
Proof.
  intros Hwf Hjob Hten [Hfresh Hothers Hst Hfin Hgen Hres Hrfresh Hfree Hown Hact Hunr].
  assert (Hres' := Hres). destruct Hres' as [Et Ea Ej _ _ _ _].
  split; simpl.
  - intros k b [[<- <-]|[_ Hb]]%lookup_insert_Some; [|by apply (dw_attempt _ _ Hwf)].
    split; [done..| |by exists row]. rewrite Hfin, Hst. split; [by intros []|done].
  - intros k b k2 b2 [[<- <-]|[_ Hb]]%lookup_insert_Some [[<- <-]|[_ Hb2]]%lookup_insert_Some Ht Hj Hf1 Hf2;
      [done|by destruct (Hothers _ _ Hb2)|by destruct (Hothers _ _ Hb)|by eapply (dw_open _ _ Hwf)].
  - intros k b k2 b2 [[<- <-]|[_ Hb]]%lookup_insert_Some [[<- <-]|[_ Hb2]]%lookup_insert_Some Ht Hj Hg;
      [done|by destruct (Hothers _ _ Hb2)|by destruct (Hothers _ _ Hb)|by eapply (dw_generation _ _ Hwf)].
  - intros k q [[<- <-]|[_ Hq]]%lookup_insert_Some; [done|by apply (dw_key _ _ Hwf)].
  - intros k q [[<- <-]|[_ Hq]]%lookup_insert_Some; [done|by eapply (dw_released _ _ Hwf)].
  - intros k q [[<- <-]|[_ Hq]]%lookup_insert_Some.
    + exists a. rewrite Et, Ea, lookup_insert_eq. split_and!; [done..|]. unfold holds. by rewrite Hact, Hst.
    + destruct (dw_reserves _ _ Hwf _ _ Hq) as (b & Hb & ?). exists b. simpl in Hb.
      rewrite lookup_insert_ne; [done|]. congruence.
  - intros k b [[<- <-]|[_ Hb]]%lookup_insert_Some.
    + exists (r.(rs_tenant), r.(rs_id)), r. by rewrite lookup_insert_eq.
    + destruct (dw_reserved _ _ Hwf _ _ Hb) as (k2 & q & Hq & ?). exists k2, q. simpl in Hq.
      rewrite lookup_insert_ne; [done|]. congruence.
  - intros k q k2 q2 [[<- <-]|[_ Hq]]%lookup_insert_Some [[<- <-]|[_ Hq2]]%lookup_insert_Some Ht Hat;
      [done|by destruct (Hown _ _ Hq2)|by destruct (Hown _ _ Hq)|by eapply (dw_one _ _ Hwf)].
  - intros k q k2 q2 [[<- <-]|[_ Hq]]%lookup_insert_Some [[<- <-]|[_ Hq2]]%lookup_insert_Some Hs1 Hs2 Hc;
      [done| | |by eapply (dw_exclusive _ _ Hwf)].
    + by destruct (Hfree _ _ Hq2 Hs2 (competes_sym _ _ Hc)).
    + by destruct (Hfree _ _ Hq Hs1 Hc).
Qed.

Lemma dstep_wf js v v' : deliveries_wf js v → dstep js v v' → deliveries_wf js v'.
Proof.
  intros Hwf Hs. destruct Hs as [ats rss a r row Hr Ht _ Ha|ats ats' rss rss' Ha Hr Hh].
  - by apply (begin_wf _ _ _ _ _ row).
  - by apply (change_wf _ ats ats' rss).
Qed.

(** New jobs, and jobs that change, keep what the attempts refer to. *)
Lemma deliveries_wf_jobs js js' v :
  (∀ id r, js !! id = Some r → ∃ r', js' !! id = Some r' ∧ r'.(jr_tenant) = r.(jr_tenant)) →
  deliveries_wf js v → deliveries_wf js' v.
Proof.
  intros Hj []. split; try done. intros k a Ha.
  destruct (dw_attempt0 _ _ Ha) as [? ? ? (row & Hrow & Ht)]. split; try done.
  destruct (Hj _ _ Hrow) as (r' & ? & ?). exists r'. split; [done|]. congruence.
Qed.

(** ** The updates of the transactions *)

Lemma final_not_renewable st : Attempt.is_final st = true → Attempt.renewable st = false.
Proof. by destruct st. Qed.
Lemma valid_progress f t : Attempt.valid_attempt_transition f t = true → progress f < progress t.
Proof. destruct f, t; simpl; intros; try done; lia. Qed.

Lemma attempt_refl a : attempt_moves a a.
Proof. by apply attempt_stays. Qed.
Lemma reservation_refl r : reservation_moves r r.
Proof. by apply reservation_stays. Qed.
#[export] Hint Resolve attempt_refl reservation_refl : piqae.

Lemma set_attempt_moves a st final :
  progress a.(at_state) < progress st → (is_Some final ↔ Attempt.is_final st = true) →
  attempt_moves a (set_attempt st final a).
Proof. intros Hp Hf. by apply attempt_advances. Qed.

Lemma change_step js v v' :
  all_rows attempt_moves v.(v_attempts) v'.(v_attempts) →
  all_rows reservation_moves v.(v_reservations) v'.(v_reservations) →
  (∀ k r a, v'.(v_reservations) !! k = Some r →
     v'.(v_attempts) !! (r.(rs_tenant), r.(rs_attempt_id)) = Some a → holds r a) → dstep js v v'.
Proof. destruct v, v'. apply d_change. Qed.

Section updates.
Variables (js : gmap string JobRow) (v : DView).
Hypothesis (Hwf : deliveries_wf js v).

Lemma open_progress k a : v.(v_attempts) !! k = Some a → a.(at_final_at) = None → progress a.(at_state) < 6.
Proof.
  intros Ha Hn. destruct (dw_attempt _ _ Hwf _ _ Ha) as [_ _ Hf _].
  assert (progress a.(at_state) ≠ 6).
  { intros H6%final_progress%Hf. rewrite Hn in H6. by destruct H6. }
  pose proof (progress_bound a.(at_state)). lia.
Qed.

Lemma renewable_open k a :
  v.(v_attempts) !! k = Some a → Attempt.renewable a.(at_state) = true → a.(at_final_at) = None.
Proof.
  intros Ha Hr. destruct (dw_attempt _ _ Hwf _ _ Ha) as [_ _ Hf _].
  destruct (a.(at_final_at)); [|done]. assert (Ht : Attempt.is_final a.(at_state) = true) by (apply Hf; eauto).
  by rewrite (final_not_renewable _ Ht) in Hr.
Qed.

(** Attempts that end together with their active reservations. *)
Lemma finish_step (p : AttemptRow → bool) (q : ReservationRow → bool) st rst now :
  Attempt.is_final st = true → rst ≠ Active →
  (∀ k a, v.(v_attempts) !! k = Some a → p a = true → a.(at_final_at) = None) →
  (∀ k r a, v.(v_reservations) !! k = Some r → r.(rs_state) = Active →
     v.(v_attempts) !! (r.(rs_tenant), r.(rs_attempt_id)) = Some a → reserves a r → q r = p a) →
  (∀ k r, v.(v_reservations) !! k = Some r → q r = true → r.(rs_state) = Active) →
  dstep js v (Build_DView (update_where p (set_attempt st (Some now)) v.(v_attempts))
                          (update_where q (set_reservation rst (Some now)) v.(v_reservations))).
Proof.
  intros Hst Hrst Hopen Hpq Hact. apply change_step; simpl.
  - apply all_rows_fmap. intros k a Ha. case_match eqn:Hp; [|auto with piqae].
    apply set_attempt_moves; [|by split].
    rewrite (proj1 (final_progress st) Hst). by eapply open_progress, Hopen.
  - apply all_rows_fmap. intros k r Hr. case_match eqn:Hq; [|auto with piqae].
    apply reservation_released; [done|by eapply Hact|done|done].
  - intros k r' a'. rewrite !lookup_update_where. intros (r & Hr & ->)%fmap_Some.
    destruct (dw_reserves _ _ Hwf k r Hr) as (a & Ha & Hres & Hh).
    replace (rs_tenant _) with (rs_tenant r) by by destruct (q r).
    replace (rs_attempt_id _) with (rs_attempt_id r) by by destruct (q r).
    rewrite Ha. intros [= <-]. unfold holds in *. destruct (q r) eqn:Hq.
    + rewrite <- (Hpq _ _ _ Hr (Hact _ _ Hr Hq) Ha Hres), Hq. simpl. by rewrite (final_not_renewable _ Hst).
    + destruct (p a) eqn:Hp; [|done]. simpl. rewrite (final_not_renewable _ Hst). split; [|done].
      intros Ha'. rewrite (Hpq _ _ _ Hr Ha' Ha Hres) in Hq. congruence.
Qed.

(** All open attempts of a job, as a cancellation or a revocation ends them. *)
Lemma end_job_step t id st rst now :
  Attempt.is_final st = true → rst ≠ Active →
  dstep js v (Build_DView
    (update_where (λ a, bool_decide (a.(at_tenant) = t) && of_job id a && bool_decide (a.(at_final_at) = None))
       (set_attempt st (Some now)) v.(v_attempts))
    (update_where (λ r, bool_decide (r.(rs_tenant) = t) && reserved_for id r && bool_decide (r.(rs_state) = Active))
       (set_reservation rst (Some now)) v.(v_reservations))).
Proof.
  intros Hst Hrst. apply finish_step; [done..| | |].
  - intros k a _ [_ Hn]%andb_true_iff. by apply bool_decide_eq_true in Hn.
  - intros k r a Hr Hact Ha Hres. unfold reserved_for, of_job.
    destruct (dw_reserves _ _ Hwf k r Hr) as (a' & Ha' & _ & Hh). simplify_eq.
    rewrite (renewable_open _ _ Ha (proj1 Hh Hact)), Hact, (rv_tenant _ _ Hres), (rv_job _ _ Hres). done.
  - intros k r _ [_ Hn]%andb_true_iff. by apply bool_decide_eq_true in Hn.
Qed.

(** Route leases that nobody accepted are superseded. *)
Lemma supersede_step t ids now :
  (∀ x a, x ∈ ids → v.(v_attempts) !! (t, x) = Some a → a.(at_state) = Attempt.RouteLeased) →
  dstep js v (Build_DView
    (update_where (λ a, bool_decide (a.(at_tenant) = t)
         && (bool_decide (a.(at_id) ∈ ids) && bool_decide (a.(at_state) = Attempt.RouteLeased))
         && bool_decide (a.(at_final_at) = None))
       (set_attempt Attempt.Superseded (Some now)) v.(v_attempts))
    (update_where (λ r, bool_decide (r.(rs_tenant) = t) && reserved_by ids r && bool_decide (r.(rs_state) = Active))
       (set_reservation ReservationSuperseded (Some now)) v.(v_reservations))).
Proof.
  intros Hids. apply finish_step; [done..| | |].
  - intros k a _ [_ Hn]%andb_true_iff. by apply bool_decide_eq_true in Hn.
  - intros k r a Hr Hact Ha Hres. unfold reserved_by.
    destruct (dw_reserves _ _ Hwf k r Hr) as (a' & Ha' & _ & Hh). simplify_eq.
    rewrite (renewable_open _ _ Ha (proj1 Hh Hact)), Hact, (rv_tenant _ _ Hres), (rv_attempt _ _ Hres).
    rewrite !(bool_decide_true (_ = None)), !(bool_decide_true (_ = Active)), !andb_true_r by done.
    destruct (decide (a.(at_tenant) = t)) as [<-|]; [|by rewrite bool_decide_false].
    destruct (decide (a.(at_id) ∈ ids)) as [Hin|]; [|by rewrite (bool_decide_false (_ ∈ _))].
    rewrite (rv_tenant _ _ Hres), (rv_attempt _ _ Hres) in Ha. rewrite (Hids _ _ Hin Ha).
    by rewrite !bool_decide_true.
  - intros k r _ [_ Hn]%andb_true_iff. by apply bool_decide_eq_true in Hn.
Qed.

(** One attempt that moves and keeps its reservation. *)
Lemma advance_step t id a f :
  v.(v_attempts) !! (t, id) = Some a → attempt_moves a (f a) →
  Attempt.renewable (f a).(at_state) = Attempt.renewable a.(at_state) →
  dstep js v (Build_DView (alter f (t, id) v.(v_attempts)) v.(v_reservations)).
Proof.
  intros Ha Hm Hren. apply change_step; simpl.
  - apply all_rows_alter; [auto with piqae|naive_solver].
  - apply all_rows_refl. auto with piqae.
  - intros k r a' Hr. destruct (dw_reserves _ _ Hwf k r Hr) as (b & Hb & _ & Hh).
    rewrite lookup_alter_row, Hb. simpl. intros [= <-].
    case_decide as Hk; [|done]. rewrite Hk in Hb. simplify_eq. unfold holds in *. by rewrite Hren.
Qed.

(** One attempt that gives its reservation up. *)
Lemma release_step t id a f rst now :
  v.(v_attempts) !! (t, id) = Some a → attempt_moves a (f a) →
  Attempt.renewable (f a).(at_state) = false → rst ≠ Active →
  dstep js v (Build_DView (alter f (t, id) v.(v_attempts))
    (update_where (λ r, bool_decide (r.(rs_tenant) = t) && reserved_by [id] r && bool_decide (r.(rs_state) = Active))
       (set_reservation rst (Some now)) v.(v_reservations))).
Proof.
  intros Ha Hm Hren Hrst. apply change_step; simpl.
  - apply all_rows_alter; [auto with piqae|naive_solver].
  - apply all_rows_fmap. intros k r Hr. case_match eqn:Hq; [|auto with piqae].
    apply andb_true_iff in Hq as [_ Hq]. apply bool_decide_eq_true in Hq. by apply reservation_released.
  - intros k r' a'. rewrite lookup_update_where, lookup_alter_row. intros (r & Hr & ->)%fmap_Some.
    destruct (dw_reserves _ _ Hwf k r Hr) as (b & Hb & _ & Hh).
    set (g := (_ && _)%bool).
    replace (rs_tenant _) with (rs_tenant r) by by destruct g.
    replace (rs_attempt_id _) with (rs_attempt_id r) by by destruct g.
    rewrite Hb. simpl. intros [= <-]. unfold holds in *. case_decide as Hk.
    + rewrite Hk in Hb. simplify_eq. rewrite Hren. subst g. unfold reserved_by.
      rewrite (bool_decide_true (_ = rs_tenant r)), (bool_decide_true (_ ∈ _)) by set_solver. simpl.
      case_bool_decide; simpl; split; congruence.
    + assert (g = false) as ->; [|done]. subst g. unfold reserved_by.
      case_bool_decide as H1; [|done]. case_bool_decide as H2; [|done].
      apply list_elem_of_singleton in H2. congruence.
Qed.

(** A lease that is renewed, of an attempt and of its reservation. *)
Lemma lease_step k k' until :
  dstep js v (Build_DView (alter (set_attempt_lease until) k v.(v_attempts))
                          (alter (set_reservation_lease until) k' v.(v_reservations))).
Proof.
  apply change_step; simpl.
  - apply all_rows_alter; [auto with piqae|]. intros a _. by apply attempt_stays.
  - apply all_rows_alter; [auto with piqae|]. intros r _. by apply reservation_stays.
  - intros i r' a'. rewrite !lookup_alter_row. intros (r & Hr & ->)%fmap_Some.
    destruct (dw_reserves _ _ Hwf i r Hr) as (b & Hb & _ & Hh).
    replace (rs_tenant _) with (rs_tenant r) by by case_decide.
    replace (rs_attempt_id _) with (rs_attempt_id r) by by case_decide.
    rewrite Hb. simpl. intros [= <-]. unfold holds in *. by do 2 case_decide.
Qed.
End updates.
