(* ===== verification/CloudQueue.v ===== *)
(** Commands for nodes and the resolutions they carry: their elementary changes, and the
    invariant that a resolution records what a node acknowledged about an uncertain
    attempt. *)

From S2P Require Import Prelude Domain CloudStore CloudJobs CloudRouting CloudFacts CloudDeliveries.

Record QView := {
  v_commands : gmap Z CommandRow;
  v_next : Z;
  v_pending : gmap (Tenant * string) PendingRow;
  v_resolutions : gmap (Tenant * string) ResolutionRow
}.
Definition qview (s : Store) : QView :=
  {| v_commands := s.(agent_commands); v_next := s.(next_cursor);
     v_pending := s.(pending_resolutions); v_resolutions := s.(resolutions) |}.

Definition is_cancel (k : AgentCommand) : bool := match k with CancelJob _ => true | _ => false end.

(** Delivery and acknowledgement are recorded once; only a cancellation the node does not
    need is acknowledged without having been delivered. *)
Record command_moves (k k' : CommandRow) : Prop := {
  cv_tenant : k'.(cm_tenant) = k.(cm_tenant);
  cv_agent : k'.(cm_agent_id) = k.(cm_agent_id);
  cv_command : k'.(cm_command) = k.(cm_command);
  cv_delivered : filled k.(cm_delivered_at) k'.(cm_delivered_at);
  cv_acknowledged : filled k.(cm_acknowledged_at) k'.(cm_acknowledged_at);
  cv_news : k'.(cm_acknowledged_at) = k.(cm_acknowledged_at) ∨ is_Some k.(cm_delivered_at)
            ∨ is_cancel k.(cm_command) = true
}.

Definition carries (k : CommandRow) (t : Tenant) (p : PendingRow) : Prop :=
  k.(cm_tenant) = t ∧ k.(cm_agent_id) = p.(pn_agent_id) ∧
  ∃ key, k.(cm_command) = ResolveAmbiguousHandoff p.(pn_job_id) key p.(pn_reservation_id)
                            (Z.to_N p.(pn_generation)) true.

Record concerns (ats : gmap (Tenant * string) AttemptRow) (t : Tenant) (p : PendingRow) : Prop := {
  cc_attempt : ∃ a, ats !! (t, p.(pn_attempt_id)) = Some a
    ∧ a.(at_state) = Attempt.DeliveryUncertain ∧ a.(at_job_id) = p.(pn_job_id)
    ∧ a.(at_destination_id) = p.(pn_destination_id) ∧ a.(at_generation) = p.(pn_generation)
}.

Inductive qstep (ats : gmap (Tenant * string) AttemptRow) : QView → QView → Prop :=
| q_command ks n ps rs k : k.(cm_acknowledged_at) = None →
    qstep ats (Build_QView ks n ps rs) (Build_QView (<[n := k]> ks) (1 + n) ps rs)
| q_commands ks ks' n ps rs : all_rows command_moves ks ks' →
    qstep ats (Build_QView ks n ps rs) (Build_QView ks' n ps rs)
| q_request ks n ps rs t q p k : ps !! (t, q) = None → p.(pn_finalized_at) = None →
    (∀ q' p', ps !! (t, q') = Some p' → p'.(pn_attempt_id) ≠ p.(pn_attempt_id)) →
    ks !! p.(pn_command_cursor) = Some k → carries k t p → concerns ats t p →
    qstep ats (Build_QView ks n ps rs) (Build_QView ks n (<[(t, q) := p]> ps) rs)
| q_resolve ks n ps rs t q p p' i r k : ps !! (t, q) = Some p →
    p.(pn_finalized_at) = None → is_Some p'.(pn_finalized_at) →
    (p'.(pn_job_id), p'.(pn_attempt_id), p'.(pn_destination_id), p'.(pn_agent_id), p'.(pn_reservation_id),
     p'.(pn_generation), p'.(pn_command_cursor)) =
    (p.(pn_job_id), p.(pn_attempt_id), p.(pn_destination_id), p.(pn_agent_id), p.(pn_reservation_id),
     p.(pn_generation), p.(pn_command_cursor)) →
    rs !! (t, i) = None → r.(rn_request_id) = q → r.(rn_attempt_id) = p.(pn_attempt_id) →
    ks !! p.(pn_command_cursor) = Some k → is_Some k.(cm_acknowledged_at) →
    qstep ats (Build_QView ks n ps rs) (Build_QView ks n (<[(t, q) := p']> ps) (<[(t, i) := r]> rs)).

(** A resolution is the end of a request whose command the node acknowledged. *)
Record queue_wf (ats : gmap (Tenant * string) AttemptRow) (v : QView) : Prop := {
  qw_cursor n k : v.(v_commands) !! n = Some k → (n < v.(v_next))%Z;
  qw_acknowledged n k : v.(v_commands) !! n = Some k → is_Some k.(cm_acknowledged_at) →
    is_Some k.(cm_delivered_at) ∨ is_cancel k.(cm_command) = true;
  qw_request t q p : v.(v_pending) !! (t, q) = Some p →
    concerns ats t p ∧ ∃ k, v.(v_commands) !! p.(pn_command_cursor) = Some k ∧ carries k t p;
  qw_one t q p q' p' : v.(v_pending) !! (t, q) = Some p → v.(v_pending) !! (t, q') = Some p' →
    p.(pn_attempt_id) = p'.(pn_attempt_id) → q = q';
  qw_resolution t i r : v.(v_resolutions) !! (t, i) = Some r →
    ∃ p k, v.(v_pending) !! (t, r.(rn_request_id)) = Some p ∧ is_Some p.(pn_finalized_at)
      ∧ p.(pn_attempt_id) = r.(rn_attempt_id)
      ∧ v.(v_commands) !! p.(pn_command_cursor) = Some k ∧ is_Some k.(cm_acknowledged_at)
}.

Lemma filled_Some {A} (o o' : option A) : filled o o' → is_Some o → is_Some o'.
Proof. intros [->| ->]; [by intros []|done]. Qed.

Lemma command_moves_refl k : command_moves k k.
Proof. split; unfold filled; auto. Qed.
#[export] Hint Resolve command_moves_refl : piqae.

Section qstep_wf.
Variables (ats : gmap (Tenant * string) AttemptRow) (ks : gmap Z CommandRow) (n : Z)
  (ps : gmap (Tenant * string) PendingRow) (rs : gmap (Tenant * string) ResolutionRow).
Hypothesis (Hwf : queue_wf ats (Build_QView ks n ps rs)).

(** Rows refer to commands by their cursor. *)
Lemma commands_kept ks' n' :
  (∀ i k, ks !! i = Some k → ∃ k', ks' !! i = Some k' ∧ command_moves k k') →
  (∀ i k, ks' !! i = Some k → (i < n')%Z) →
  (∀ i k, ks' !! i = Some k → is_Some k.(cm_acknowledged_at) →
     is_Some k.(cm_delivered_at) ∨ is_cancel k.(cm_command) = true) →
  queue_wf ats (Build_QView ks' n' ps rs).
Proof.
  intros Hk Hn Ha. destruct Hwf as [_ _ Hrq Hone Hrs]. split; simpl in *; [done..| |done|].
  - intros t q p Hp. destruct (Hrq _ _ _ Hp) as (Hc & k & Hkk & Ht & Hag & key & Hcm). split; [done|].
    destruct (Hk _ _ Hkk) as (k' & Hk' & []). exists k'. split; [done|]. split_and!; [congruence..|].
    exists key. congruence.
  - intros t i r Hr. destruct (Hrs _ _ _ Hr) as (p & k & Hp & Hf & Hat & Hkk & Hack).
    destruct (Hk _ _ Hkk) as (k' & Hk' & []). exists p, k'. split_and!; [done..|]. by eapply filled_Some.
Qed.

Lemma command_wf k : k.(cm_acknowledged_at) = None → queue_wf ats (Build_QView (<[n := k]> ks) (1 + n) ps rs).
Proof.
  intros Hack. assert (Hnew : ∀ i x, ks !! i = Some x → i ≠ n).
  { intros i x Hi ->. apply (qw_cursor _ _ Hwf) in Hi. simpl in Hi. lia. }
  apply commands_kept.
  - intros i x Hi. exists x. rewrite lookup_insert_ne by (by apply not_eq_sym, (Hnew i x)). auto with piqae.
  - intros i x [[<- _]|[_ Hi]]%lookup_insert_Some; [lia|]. apply (qw_cursor _ _ Hwf) in Hi. simpl in Hi. lia.
  - intros i x [[_ <-]|[_ Hi]]%lookup_insert_Some; [rewrite Hack; by intros []|].
    by eapply (qw_acknowledged _ _ Hwf).
Qed.

Lemma commands_wf ks' : all_rows command_moves ks ks' → queue_wf ats (Build_QView ks' n ps rs).
Proof.
  intros Hall. apply commands_kept.
  - by apply all_rows_to.
  - intros i x (y & Hy & _)%(all_rows_from _ _ _ Hall). by apply (qw_cursor _ _ Hwf) in Hy.
  - intros i x (y & Hy & [? ? Hc Hd ? Hnew])%(all_rows_from _ _ _ Hall) Hx. rewrite Hc.
    destruct Hnew as [Heq|[Hs|Hs]]; [|by left; eapply filled_Some|by right].
    destruct (qw_acknowledged _ _ Hwf _ _ Hy) as [?|?]; [congruence| |by right].
    left. by eapply filled_Some.
Qed.

Lemma request_wf t q p k :
  ps !! (t, q) = None → (∀ q' p', ps !! (t, q') = Some p' → p'.(pn_attempt_id) ≠ p.(pn_attempt_id)) →
  ks !! p.(pn_command_cursor) = Some k → carries k t p → concerns ats t p →
  queue_wf ats (Build_QView ks n (<[(t, q) := p]> ps) rs).
Proof.
  intros Hq Hone Hk Hc Hcc. destruct Hwf as [? ? Hrq Hold Hrs]. split; simpl in *; [done..| | |].
  - intros t' q' p' [[[= <- <-] <-]|[_ Hp]]%lookup_insert_Some; [by eauto|by eapply Hrq].
  - intros t' q1 p1 q2 p2 [[[= <- <-] <-]|[_ Hp1]]%lookup_insert_Some
      [[[= ?] <-]|[_ Hp2]]%lookup_insert_Some Hat; [done|by destruct (Hone _ _ Hp2)| |by eapply Hold].
    subst. by destruct (Hone _ _ Hp1).
  - intros t' i r Hr. destruct (Hrs _ _ _ Hr) as (p0 & k0 & Hp0 & ?). exists p0, k0.
    rewrite lookup_insert_ne by congruence. done.
Qed.

Lemma queue_resolve_wf t q p p' i r k :
  ps !! (t, q) = Some p → is_Some p'.(pn_finalized_at) →
  (p'.(pn_job_id), p'.(pn_attempt_id), p'.(pn_destination_id), p'.(pn_agent_id), p'.(pn_reservation_id),
   p'.(pn_generation), p'.(pn_command_cursor)) =
  (p.(pn_job_id), p.(pn_attempt_id), p.(pn_destination_id), p.(pn_agent_id), p.(pn_reservation_id),
   p.(pn_generation), p.(pn_command_cursor)) →
  r.(rn_request_id) = q → r.(rn_attempt_id) = p.(pn_attempt_id) →
  ks !! p.(pn_command_cursor) = Some k → is_Some k.(cm_acknowledged_at) →
  queue_wf ats (Build_QView ks n (<[(t, q) := p']> ps) (<[(t, i) := r]> rs)).
Proof.
  intros Hq Hfin [= Ej Ea Ed Eg Er En Ec] Hr Hat Hk Hack.
  assert (Hin : ∀ t' q' x, (<[(t, q) := p']> ps) !! (t', q') = Some x →
    ∃ y, ps !! (t', q') = Some y ∧ y.(pn_attempt_id) = x.(pn_attempt_id)).
  { intros t' q' x [[[= <- <-] <-]|[_ Hx]]%lookup_insert_Some; eauto. }
  destruct Hwf as [? ? Hrq Hold Hrs]. split; simpl in *; [done..| | |].
  - intros t' q' x [[[= <- <-] <-]|[_ Hp]]%lookup_insert_Some; [|by eapply Hrq].
    destruct (Hrq _ _ _ Hq) as [[(a & ?)] (k' & ? & ? & ? & ?)].
    rewrite <- Ej, <- Ea, <- Ed, <- En, <- Ec, <- Er, <- Eg in *. split; [by split; exists a|by exists k'].
  - intros t' q1 p1 q2 p2 (y1 & Hy1 & <-)%Hin (y2 & Hy2 & <-)%Hin Heq. by eapply Hold.
  - intros t' j x [[[= <- <-] <-]|[_ Hx]]%lookup_insert_Some.
    + exists p', k. rewrite Hr, lookup_insert_eq. split_and!; try done; congruence.
    + destruct (Hrs _ _ _ Hx) as (p0 & k0 & Hp0 & Hf & Hat0 & Hk0 & Hak).
      destruct (decide ((t, q) = (t', x.(rn_request_id)))) as [Heq|Hne].
      * rewrite <- Heq in Hp0. exists p', k. rewrite <- Heq, lookup_insert_eq. split_and!; try done; congruence.
      * exists p0, k0. by rewrite lookup_insert_ne.
Qed.
End qstep_wf.

Lemma qstep_wf ats v v' : queue_wf ats v → qstep ats v v' → queue_wf ats v'.
Proof.
  intros Hwf Hs. destruct Hs; [by apply command_wf|by eapply commands_wf|by eapply request_wf|
    by eapply queue_resolve_wf].
Qed.

(** An uncertain attempt never changes. *)
Lemma uncertain_stays a a' : attempt_moves a a' → a.(at_state) = Attempt.DeliveryUncertain →
  a'.(at_state) = Attempt.DeliveryUncertain.
Proof.
  intros [_ ? _|_ Hp _] Hs; [congruence|]. rewrite Hs in Hp.
  pose proof (progress_bound a'.(at_state)). simpl in Hp. lia.
Qed.

Lemma queue_wf_dstep js d d' v :
  dstep js d d' → queue_wf d.(v_attempts) v → queue_wf d'.(v_attempts) v.
Proof.
  intros Hs [? ? Hrq ? ?]. split; try done. intros t q p Hp.
  destruct (Hrq _ _ _ Hp) as [[(a & Ha & Hst & Hj & Hd & Hg)] Hk]. split; [|done]. split.
  destruct Hs as [ats rss b r row _ _ _ []|ats ats' rss rss' Hall]; simpl in *.
  - exists a. rewrite lookup_insert_ne by congruence. done.
  - destruct (all_rows_to _ _ _ Hall _ _ Ha) as (a' & Ha' & Hm). exists a'.
    pose proof (uncertain_stays _ _ Hm Hst). destruct (attempt_moves_same _ _ Hm). split_and!; congruence.
Qed.
