(* ===== verification/CloudSystem.v ===== *)
(** The control plane's store as a transition system: elementary changes of its tables, the
    invariant they preserve, and that every transaction that commits is made of them. *)

From S2P Require Import Prelude Domain CloudStore CloudWake CloudJobs CloudAccept CloudRevoke CloudRouting CloudTopology CloudFacts CloudDeliveries CloudQueue.

(** * Elementary changes *)

(** What is written once and never changed: receipts of events, idempotency keys and the
    webhook outbox. *)
Record kept (s s' : Store) : Prop := {
  kp_receipts : s.(agent_event_receipts) ⊆ s'.(agent_event_receipts);
  kp_idempotency : s.(idempotency_requests) ⊆ s'.(idempotency_requests);
  kp_webhooks : s.(webhook_events) ⊆ s'.(webhook_events)
}.

Inductive sstep (s s' : Store) : Prop :=
| s_jobs : jstep (jview s) (jview s') → dview s' = dview s → qview s' = qview s → kept s s' → sstep s s'
| s_deliveries : dstep s.(jobs) (dview s) (dview s') → jview s' = jview s → qview s' = qview s →
    kept s s' → sstep s s'
| s_queue : qstep s.(delivery_attempts) (qview s) (qview s') → jview s' = jview s → dview s' = dview s →
    kept s s' → sstep s s'
| s_other : jview s' = jview s → dview s' = dview s → qview s' = qview s → kept s s' → sstep s s'.

Record cloud_wf (s : Store) : Prop := {
  cw_jobs : jobs_wf (jview s);
  cw_deliveries : deliveries_wf s.(jobs) (dview s);
  cw_queue : queue_wf s.(delivery_attempts) (qview s)
}.

#[export] Instance kept_preorder : PreOrder kept.
Proof.
  split; [done|]. intros s1 s2 s3 [] []. split; [set_solver|by etrans|by etrans].
Qed.

Lemma jstep_jobs v v' : jstep v v' → ∀ id r, v.(v_jobs) !! id = Some r →
  ∃ r', v'.(v_jobs) !! id = Some r' ∧ r'.(jr_tenant) = r.(jr_tenant).
Proof.
  intros Hs i x Hi. destruct Hs as [js es ac us id r e Hn|js es ac us id r r' e Hr [Hsame]|js js' es ac us Hch|
    | | ]; simpl in *; eauto.
  - exists x. rewrite lookup_insert_ne by congruence. done.
  - destruct (decide (id = i)) as [->|]; [|exists x; by rewrite lookup_insert_ne].
    exists r'. rewrite lookup_insert_eq. simplify_eq. split; [done|]. by destruct Hsame.
  - specialize (Hch i). rewrite Hi in Hch. destruct (js' !! i) as [x'|]; simpl in Hch; [|done].
    exists x'. split; [done|]. by eapply row_change_tenant.
Qed.

Lemma sstep_wf s s' : cloud_wf s → sstep s s' → cloud_wf s'.
Proof.
  intros [Hj Hd Hq] [Hs Ed Eq Hk|Hs Ej Eq Hk|Hs Ej Ed Hk|Ej Ed Eq Hk].
  - assert (Ea : s'.(delivery_attempts) = s.(delivery_attempts)) by exact (f_equal v_attempts Ed).
    split; [by eapply jstep_wf| |by rewrite Ea, Eq]. rewrite Ed.
    eapply deliveries_wf_jobs; [by apply (jstep_jobs _ _ Hs)|done].
  - assert (Eb : s'.(jobs) = s.(jobs)) by exact (f_equal v_jobs Ej).
    split; [by rewrite Ej|rewrite Eb; by eapply dstep_wf|]. rewrite Eq. by eapply (queue_wf_dstep _ _ _ _ Hs).
  - assert (Ea : s'.(delivery_attempts) = s.(delivery_attempts)) by exact (f_equal v_attempts Ed).
    assert (Eb : s'.(jobs) = s.(jobs)) by exact (f_equal v_jobs Ej).
    split; [by rewrite Ej|by rewrite Eb, Ed|]. rewrite Ea. by eapply qstep_wf.
  - assert (Ea : s'.(delivery_attempts) = s.(delivery_attempts)) by exact (f_equal v_attempts Ed).
    assert (Eb : s'.(jobs) = s.(jobs)) by exact (f_equal v_jobs Ej).
    split; [by rewrite Ej|by rewrite Eb, Ed|by rewrite Ea, Eq].
Qed.

Definition evolves : Store → Store → Prop := rtc sstep.

Lemma store_evolves_wf s s' : cloud_wf s → evolves s s' → cloud_wf s'.
Proof. intros Hwf. induction 1; [done|]. eauto using sstep_wf. Qed.

(** ** Changes of the other tables *)

Record quiet (s s' : Store) : Prop := {
  qt_jobs : jview s' = jview s;
  qt_deliveries : dview s' = dview s;
  qt_queue : qview s' = qview s;
  qt_kept : kept s s'
}.
#[export] Instance quiet_preorder : PreOrder quiet.
Proof.
  split; [done|]. intros s1 s2 s3 [] []. split; [congruence..|by etrans].
Qed.

Lemma quiet_evolves s s' : quiet s s' → evolves s s'.
Proof. intros []. apply rtc_once. by apply s_other. Qed.

Lemma for_each_quiet {A B} (f : A → Tx B) l :
  (∀ a s s' b, f a s = Ok (s', b) → quiet s s') → ∀ s s' bs, for_each f l s = Ok (s', bs) → quiet s s'.
Proof.
  intros Hf. induction l as [|a l IH]; intros s s' bs H; simpl in H; tx H; [done|].
  etrans; [by eapply Hf|by eapply IH].
Qed.

(** A list of rows is worked off while what is still to do stays valid. *)
Lemma for_each_evolves {A B} (P : list A → Store → Prop) (f : A → Tx B) l :
  (∀ a l s s' b, P (a :: l) s → cloud_wf s → f a s = Ok (s', b) → evolves s s' ∧ P l s') →
  ∀ s s' bs, P l s → cloud_wf s → for_each f l s = Ok (s', bs) → evolves s s' ∧ P [] s'.
Proof.
  intros Hf. induction l as [|a l IH]; intros s s' bs HP Hwf H; simpl in H; tx H; [by split; [apply rtc_refl|]|].
  destruct (Hf _ _ _ _ _ HP Hwf Hx) as [He HP'].
  destruct (IH _ _ _ HP' (store_evolves_wf _ _ Hwf He) Hx0) as [He' ?]. split; [by etrans|done].
Qed.

(** Each answer comes from one element, and what its turn left evolves to the end. *)
Lemma for_each_each {A B} (P : list A → Store → Prop) (f : A → Tx B) l :
  (∀ a l s s' b, P (a :: l) s → cloud_wf s → f a s = Ok (s', b) → evolves s s' ∧ P l s') →
  ∀ s s' bs, P l s → cloud_wf s → for_each f l s = Ok (s', bs) →
  length bs = length l ∧
  ∀ b, b ∈ bs → ∃ a l' s1 s2, a ∈ l ∧ P (a :: l') s1 ∧ cloud_wf s1 ∧ evolves s s1 ∧ f a s1 = Ok (s2, b) ∧ evolves s2 s'.
Proof.
  intros Hf. induction l as [|a l IH]; intros s s' bs HP Hwf Hm; simpl in Hm; tx Hm.
  { split; [done|]. by intros b ?%not_elem_of_nil. }
  destruct (Hf _ _ _ _ _ HP Hwf Hx) as [He HP'].
  destruct (IH _ _ _ HP' (store_evolves_wf _ _ Hwf He) Hx0) as [Hlen Hall]. split; [simpl; by rewrite Hlen|].
  intros b [->|Hb]%elem_of_cons.
  - exists a, l, s, s0. split_and!; [by left|done|done|apply rtc_refl|done|].
    by destruct (for_each_evolves P f l Hf s0 s1 x0 HP' (store_evolves_wf _ _ Hwf He) Hx0).
  - destruct (Hall _ Hb) as (a' & l' & s2 & s3 & ? & ? & ? & ? & ? & ?). exists a', l', s2, s3.
    split_and!; [by right|done|done|by etrans|done|done].
Qed.

(** * What transactions share *)

Lemma job_of_Some t id s r : job_of t id s = Some r → s.(jobs) !! id = Some r ∧ r.(jr_tenant) = t.
Proof. unfold job_of. case_match; [|done]. case_decide; naive_solver. Qed.

Lemma event_sequence_Ok n m :
  (1 ≤ n ≤ i64_max)%Z → event_sequence n = Ok m → Z.of_N m = (n + 1)%Z ∧ (Z.of_N m ≤ i64_max)%Z.
Proof.
  unfold event_sequence, u64_of_i64, i64_succ. intros Hn.
  destruct (Z.eqb_spec n i64_max) as [->|]; [done|].
  destruct (Z.ltb_spec (n + 1) 0); [lia|]. intros [= <-]. lia.
Qed.

Lemma event_sequence_intro n m :
  (1 ≤ n)%Z → Z.of_N m = (n + 1)%Z → (Z.of_N m ≤ i64_max)%Z → event_sequence n = Ok m.
Proof.
  unfold event_sequence, u64_of_i64, i64_succ. intros ? Hm ?.
  destruct (Z.eqb_spec n i64_max); [lia|]. destruct (Z.ltb_spec (n + 1) 0); [lia|].
  rewrite <- Hm. simpl. f_equal. lia.
Qed.

Lemma i64_of_u64_Ok n z (e : StorageError) :
  ok_or (i64_of_u64 n) e = Ok z → z = Z.of_N n ∧ (Z.of_N n ≤ i64_max)%Z.
Proof.
  unfold i64_of_u64. destruct (Z.ltb_spec i64_max (Z.of_N n)); [done|]. simpl. intros [= <-]. done.
Qed.

Lemma allowed_edge taken f t : is_ok (validate_transition f t) = true → edge taken f t = true.
Proof. unfold validate_transition, edge. by destruct (can_transition_to f t). Qed.

Lemma open_final id r : row_wf id r → is_terminal r.(jr_life).(state) = false → r.(jr_life).(final_at) = None.
Proof.
  intros [_ _ _ Hf] Ht. rewrite Ht in Hf. destruct (final_at _); [|done].
  by apply proj1, (λ f, f (mk_is_Some _ _ eq_refl)) in Hf.
Qed.

Lemma edge_open taken f t : edge taken f t = true → is_terminal f = false.
Proof. destruct (is_terminal f) eqn:Hf; [|done]. by rewrite edge_terminal. Qed.

Lemma row_of s id r : cloud_wf s → s.(jobs) !! id = Some r → row_wf id r.
Proof. intros [[] _ _] Hr. eauto. Qed.

Lemma insert_event_Ok j e s s' u :
  insert_event j e s = Ok (s', u) →
  s' = on_job_events <[(e.(je_job_id), e.(je_sequence)) := {| er_tenant := j.(j_tenant); er_event := e |}]> s
  ∧ (∀ k r, s.(job_events) !! k = Some r → r.(er_event).(je_id) ≠ e.(je_id)).
Proof.
  unfold insert_event. intros H. tx H. split; [done|]. intros k r Hk Heq.
  apply negb_true_iff in Hx0. rewrite exists_row_false in Hx0. specialize (Hx0 _ _ Hk).
  by apply bool_decide_eq_false in Hx0.
Qed.

(** The update that follows an event. *)
Lemma enter_logged taken id r r' e final :
  row_wf id r → event_sequence r.(jr_life).(state_sequence) = Ok e.(je_sequence) → e.(je_job_id) = id →
  edge taken r.(jr_life).(state) e.(je_state) = true → same_job r r' → r'.(jr_place) = r.(jr_place) →
  r'.(jr_life) = {| state := e.(je_state); state_sequence := Z.of_N e.(je_sequence); final_at := final |} →
  (is_Some final ↔ is_terminal e.(je_state) = true) → logged taken id r r' e.
Proof.
  intros [_ _ Hrange _] Hseq Hid Hedge Hsame Hplace Hlife Hfin.
  destruct (event_sequence_Ok _ _ Hrange Hseq). split; rewrite ?Hlife; try done. by eapply edge_open.
Qed.

Lemma entered_evolves s id r t e f final :
  cloud_wf s → s.(jobs) !! id = Some r → t = r.(jr_payload).(j_tenant) →
  event_sequence r.(jr_life).(state_sequence) = Ok e.(je_sequence) → e.(je_job_id) = id →
  edge (is_taken id s.(job_acceptances)) r.(jr_life).(state) e.(je_state) = true →
  same_job r (f r) → (f r).(jr_place) = r.(jr_place) →
  (f r).(jr_life) = {| state := e.(je_state); state_sequence := Z.of_N e.(je_sequence); final_at := final |} →
  (is_Some final ↔ is_terminal e.(je_state) = true) →
  evolves s (on_jobs (alter f id)
    (on_job_events <[(id, e.(je_sequence)) := {| er_tenant := t; er_event := e |}]> s)).
Proof.
  intros Hwf Hr -> Hseq Hid Hedge Hsame Hplace Hlife Hfin.
  apply rtc_once, s_jobs; [|done..]. unfold jview. simpl. rewrite (alter_Some _ _ _ _ Hr).
  apply j_log; [done|]. eapply enter_logged; try done. by eapply row_of.
Qed.

Lemma log_evolves s s1 s2 u id r j e f final :
  cloud_wf s → s.(jobs) !! id = Some r → insert_event j e s = Ok (s1, u) → s2 = on_jobs (alter f id) s1 →
  event_sequence r.(jr_life).(state_sequence) = Ok e.(je_sequence) → e.(je_job_id) = id →
  edge (is_taken id s.(job_acceptances)) r.(jr_life).(state) e.(je_state) = true →
  j.(j_tenant) = r.(jr_payload).(j_tenant) → same_job r (f r) → (f r).(jr_place) = r.(jr_place) →
  (f r).(jr_life) = {| state := e.(je_state); state_sequence := Z.of_N e.(je_sequence); final_at := final |} →
  (is_Some final ↔ is_terminal e.(je_state) = true) → evolves s s2 ∧ s2.(jobs) !! id = Some (f r).
Proof.
  intros Hwf Hr (-> & _)%insert_event_Ok -> Hseq Hid Hedge Ht Hsame Hplace Hlife Hfin. split.
  - rewrite Hid. by eapply entered_evolves.
  - simpl. by rewrite lookup_alter_eq, Hr.
Qed.

(** A change of the other columns of a row. *)
Lemma row_evolves s id f :
  (∀ r, s.(jobs) !! id = Some r → row_change (is_taken id s.(job_acceptances)) r (f r)) →
  evolves s (on_jobs (alter f id) s).
Proof.
  intros Hf. apply rtc_once, s_jobs; [|done..]. unfold jview. simpl. apply j_rows. intros i.
  rewrite lookup_alter_row. destruct (s.(jobs) !! i) as [r|] eqn:Hi; simpl; [|done].
  case_decide; [subst; auto|]. by apply row_kept.
Qed.

Lemma lease_change taken r l : row_change taken r (with_lease l r).
Proof. by apply row_kept. Qed.
Lemma until_change taken r u : row_change taken r (with_lease_until u r).
Proof. by apply row_kept. Qed.
#[export] Hint Resolve lease_change until_change : piqae.

Lemma notify_quiet key t j s s' u : notify key t j s = Ok (s', u) → quiet s s'.
Proof.
  unfold notify, enqueue_webhook_event_in_transaction. intros ->%execute_Ok.
  case_match eqn:Hn; [done|]. split; [done..|]. split; [done..|]. simpl. by apply insert_subseteq.
Qed.

Lemma usage_evolves s s' t id at_ r u :
  s.(jobs) !! id = Some r → r.(jr_tenant) = t → r.(jr_life).(state) = CompletedReported →
  record_reported_complete_usage t id at_ s = Ok (s', u) → evolves s s'.
Proof.
  intros Hr Ht Hs H. unfold record_reported_complete_usage, lock_billing_period in H. tx H.
  case_match; [|apply rtc_refl]. case_match eqn:Hu; [apply rtc_refl|]. case_decide; [|apply rtc_refl].
  apply rtc_once, s_jobs; [|done..]. unfold jview. simpl. rewrite <- Ht. by apply j_usage.
Qed.
