(* ===== verification/CloudSteps.v ===== *)
(** Every transaction of the store that commits is made of elementary changes: creation,
    events, cancellation, leases, sweeps and acceptance. *)

From S2P Require Import Prelude Domain CloudStore CloudWake CloudJobs CloudAccept CloudFacts CloudDeliveries CloudQueue CloudSystem.

Section steps.
Context `{CloudExternal}.
Variable c : Clock.

Definition sound {A} (m : Tx A) : Prop :=
  ∀ s s' a, cloud_wf s → m s = Ok (s', a) → evolves s s'.

Lemma quiet_sound {A} (m : Tx A) : (∀ s s' a, m s = Ok (s', a) → quiet s s') → sound m.
Proof. intros Hq s s' a _ Hm. by eapply quiet_evolves, Hq. Qed.

(** * Wake hints *)

Lemma wake_agent_quiet t id n at_ agent s s' u : wake_agent c t id n at_ agent s = Ok (s', u) → quiet s s'.
Proof. unfold wake_agent. intros Hm. tx Hm. by repeat case_match. Qed.

Lemma wake_hints_quiet t id n at_ s s' k :
  ensure_waiting_job_wake_hints_in_transaction c t id n at_ s = Ok (s', k) → quiet s s'.
Proof.
  unfold ensure_waiting_job_wake_hints_in_transaction. intros Hm. tx Hm. case_match; tx Hm; [done|].
  etrans; [by eapply (for_each_quiet _ _ (wake_agent_quiet _ _ _ _))|done].
Qed.

Lemma ensure_wake_hints_sound t id : sound (ensure_waiting_job_wake_hints c t id).
Proof.
  apply quiet_sound. intros s s' a Hm. unfold ensure_waiting_job_wake_hints in Hm. tx Hm.
  case_decide; tx Hm; [done|]. by eapply wake_hints_quiet.
Qed.

Lemma claim_wake_sound locked limit : sound (claim_wake_hint_dispatches c locked limit).
Proof.
  apply quiet_sound. intros s s' a Hm. unfold claim_wake_hint_dispatches in Hm. tx Hm.
  etrans; [|eapply for_each_quiet; [|eassumption]]; [done|]. intros b s1 s2 u Hu. by tx Hu.
Qed.

Lemma complete_wake_sound id : sound (complete_wake_hint_dispatch c id).
Proof. apply quiet_sound. intros s s' a Hm. unfold complete_wake_hint_dispatch in Hm. by tx Hm. Qed.
Lemma retry_wake_sound id d : sound (retry_wake_hint_dispatch c id d).
Proof. apply quiet_sound. intros s s' a Hm. unfold retry_wake_hint_dispatch in Hm. by tx Hm. Qed.

Lemma observe_hints_sound locked t agent at_ limit : sound (observe_pending_node_wake_hints locked t agent at_ limit).
Proof.
  apply quiet_sound. intros s s' a Hm. unfold observe_pending_node_wake_hints in Hm. tx Hm.
  etrans; [|etrans; [eapply for_each_quiet; [|eassumption]|done]]; [done|]. intros b s1 s2 u Hu. by tx Hu.
Qed.
Lemma publish_sound key t event j : sound (enqueue_webhook_event_in_transaction key t event j).
Proof.
  apply quiet_sound. intros s s' a Hm. unfold enqueue_webhook_event_in_transaction in Hm. tx Hm.
  case_match eqn:E; [done|]. split; [done..|]. split; [done..|]. simpl. by apply insert_subseteq.
Qed.

(** * Creation *)

Lemma admission_quiet t s s' u : enforce_cloud_job_admission c t s = Ok (s', u) → quiet s s'.
Proof.
  unfold enforce_cloud_job_admission, lock_billing_period. intros Hm. txs Hm; by repeat case_match.
Qed.

Lemma find_idempotent_quiet t key hash s s' o : find_idempotent_job c t key hash s = Ok (s', o) → s' = s.
Proof. unfold find_idempotent_job. intros Hm. by txs Hm. Qed.

Lemma consume_quiet j m s s' o : consume_envelope j m s = Ok (s', o) → quiet s s'.
Proof. unfold consume_envelope. intros Hm. by txs Hm. Qed.

Lemma reference_keys_quiet j agent m s s' u : reference_keys c j agent m s = Ok (s', u) → quiet s s'.
Proof.
  unfold reference_keys. intros Hm. tx Hm. eapply for_each_quiet; [|eassumption].
  intros r s1 s2 b Hr. unfold reference_key in Hr. by txs Hr.
Qed.

(** The row and its first event. *)
Lemma create_evolves s s1 s2 s3 j agent n d r u v :
  is_terminal j.(j_state) = false → insert_job j agent n d r s = Ok (s1, u) → quiet s1 s2 →
  insert_event j (registered_event c j) s2 = Ok (s3, v) → evolves s s3.
Proof.
  unfold insert_job. intros Hst Hi Hq Hm. tx Hi. apply insert_event_Ok in Hm as [-> _].
  apply andb_true_iff in Hx as [[[Hid _]%andb_true_iff _]%andb_true_iff _].
  apply bool_decide_eq_true in Hid. destruct Hq as [Ej Ed Eq Ek]. injection Ej as E1 E2 E3 E4.
  apply rtc_once, s_jobs; [|exact Ed|exact Eq|by destruct Ek].
  unfold jview. simpl in *. rewrite E1, E2, E3, E4.
  by apply (j_create _ _ _ _ j.(j_id) (new_job_row j agent n d r) (registered_event c j)).
Qed.

Lemma create_new_evolves s s' j agent key hash enforce a :
  is_terminal j.(j_state) = false → create_new_job c j agent key hash enforce s = Ok (s', a) → evolves s s'.
Proof.
  unfold create_new_job. intros Hst Hm. tx Hm.
  assert (quiet s s0) as Hq. { destruct enforce; [by eapply admission_quiet|by txs Hx]. }
  etrans; [by apply quiet_evolves|].
  assert (s1 = s0) as ->. { by txs Hx0. }
  assert (quiet s2 s3). { destruct j.(j_content); txs Hx2; [done..|by eapply reference_keys_quiet]. }
  etrans; [by eapply create_evolves|]. apply quiet_evolves.
  destruct key; tx Hx4; [|done]. apply bool_decide_eq_true in Hx5. split; [done..|]. split; [done| |done].
  simpl. by apply insert_subseteq.
Qed.

Lemma create_sound j agent key bytes enforce :
  is_terminal j.(j_state) = false → sound (create_cloud_job c j agent key bytes enforce).
Proof.
  intros Hst s s' a _ Hm. unfold create_cloud_job in Hm. tx Hm.
  assert (s0 = s) as ->. { destruct key; txs Hx; [by eapply find_idempotent_quiet|done]. }
  destruct x; tx Hm; [apply rtc_refl|].
  assert (quiet s s0). { destruct j.(j_content); txs Hx0; [done..|by eapply consume_quiet]. }
  etrans; [by apply quiet_evolves|]. destruct x; tx Hm; [apply rtc_refl|].
  by eapply create_new_evolves.
Qed.

(** * Events *)

Lemma terminal_time r id (st : JobState) (o : option Z) (at_ : Z) :
  row_wf id r → is_terminal r.(jr_life).(state) = false →
  o = (if is_terminal st then Some at_ else None) ∨ o = (if is_terminal st then Some at_ else r.(jr_life).(final_at))
  ∨ o = coalesce (if is_terminal st then Some at_ else None) r.(jr_life).(final_at) →
  (is_Some o ↔ is_terminal st = true).
Proof.
  intros Hr Ht. rewrite (open_final _ _ Hr Ht). intros [->|[->| ->]]; destruct (is_terminal st); simpl;
    (split; [by intros []|done]).
Qed.

Lemma append_event_sound t e : sound (append_event c t e).
Proof.
  intros s s' a Hwf Hm. unfold append_event in Hm. tx Hm.
  apply job_of_Some in Hx as [Hr Ht]. pose proof (row_of _ _ _ Hwf Hr) as Hrow.
  apply i64_of_u64_Ok in Hx3 as [-> Hmax].
  assert (Hseq : event_sequence x.(jr_life).(state_sequence) = Ok e.(je_sequence)).
  { apply N.eqb_eq in Hx0. unfold event_sequence. destruct (u64_of_i64 _); simpl in *; [congruence|].
    rewrite Hx0 in Hmax. done. }
  assert (Hedge := allowed_edge (is_taken e.(je_job_id) s.(job_acceptances)) _ _ Hx1).
  eapply log_evolves in Hx2 as [He Hr2]; [|try done..].
  2: { eapply (terminal_time _ _ _ _ e.(je_occurred_at)); [done|by eapply edge_open|]. auto. }
  etrans; [done|].
  assert (Hq : quiet s1 s2). { txs Hx5; [by eapply wake_hints_quiet|done]. }
  etrans; [by apply quiet_evolves|]. destruct Hq as [[= E1 _ _ _] _ _ _].
  txs Hx6; [|apply rtc_refl]. eapply usage_evolves; [by rewrite E1|done..].
Qed.

Lemma apply_agent_event_sound t agent e : sound (apply_agent_event c t agent e).
Proof.
  intros s s' a Hwf Hm. unfold apply_agent_event in Hm. txs Hm; [apply rtc_refl|].
  apply job_of_Some in Hx0 as [Hr Ht].
  match type of Hx4 with insert_event _ _ ?s1 = _ =>
    assert (Hq : quiet s s1) by (split; [done..|split; [set_solver|done..]])
  end.
  etrans; [by apply quiet_evolves|].
  pose proof (store_evolves_wf _ _ Hwf (quiet_evolves _ _ Hq)) as Hwf1. clear Hq.
  pose proof (row_of _ _ _ Hwf1 Hr) as Hrow.
  eapply log_evolves in Hx4 as [He Hr2]; [|try done..].
  - etrans; [done|]. txs Hx6; [|apply rtc_refl]. by eapply usage_evolves.
  - by apply allowed_edge.
  - by destruct (_ && _).
  - split; try done; simpl; by destruct (_ && _).
  - apply (terminal_time x1 e.(je_job_id) _ _ e.(je_occurred_at)); [done| |auto].
    by eapply (edge_open false), allowed_edge.
Qed.

(** Its receipt is kept, and the event that has one has no effect. *)
Lemma apply_agent_event_receipt t agent e s s' o :
  apply_agent_event c t agent e s = Ok (s', o) → (agent, e.(je_id)) ∈ s'.(agent_event_receipts).
Proof.
  intros Hm. unfold apply_agent_event in Hm. txs Hm; [by apply bool_decide_eq_true in Heqb|].
  apply insert_event_Ok in Hx4 as [-> _]. subst s1.
  assert (Hu : s2.(agent_event_receipts) = {[(agent, e.(je_id))]} ∪ s.(agent_event_receipts)); [|rewrite Hu; set_solver].
  txs Hx6; [|done]. unfold record_reported_complete_usage, lock_billing_period in Hx6. txs Hx6. by repeat case_match.
Qed.
Lemma apply_agent_event_again t agent e s :
  (agent, e.(je_id)) ∈ s.(agent_event_receipts) → apply_agent_event c t agent e s = Ok (s, None).
Proof. intros Hr. unfold apply_agent_event, mbind, tx_bind, query. by rewrite bool_decide_true. Qed.

(** * Cancellation *)

Lemma cancel_deliveries_evolves t id s s' u :
  cloud_wf s → cancel_deliveries c t id s = Ok (s', u) → evolves s s' ∧ jview s' = jview s.
Proof.
  unfold cancel_deliveries. intros Hwf Hm. tx Hm. split; [|done]. apply rtc_once, s_deliveries; [|done..].
  by apply (end_job_step _ _ (cw_deliveries _ Hwf) t id Attempt.Cancelled ReservationCancelled).
Qed.

Lemma cancel_unaccepted_evolves t id n agent j s s' a r :
  cloud_wf s → s.(jobs) !! id = Some r → r.(jr_life).(state) = CancelRequested →
  Z.of_N n = (r.(jr_life).(state_sequence) + 1)%Z → j.(j_id) = r.(jr_payload).(j_id) →
  j.(j_tenant) = r.(jr_payload).(j_tenant) →
  cancel_unaccepted c t id n agent j s = Ok (s', a) → evolves s s'.
Proof.
  intros Hwf Hr Hst Hn Hid Hten Hm. unfold cancel_unaccepted in Hm. tx Hm.
  pose proof (row_of _ _ _ Hwf Hr) as [_ _ Hrange Hfin]. apply i64_of_u64_Ok in Hx0 as [-> Hmax].
  pose proof (open_final _ _ (row_of _ _ _ Hwf Hr)) as Hopen. rewrite Hst in Hopen.
  eapply log_evolves in Hx as [He Hr2]; [|try done..].
  - destruct (cancel_deliveries_evolves _ _ _ _ _ (store_evolves_wf _ _ Hwf He) Hx2) as [He' _].
    etrans; [done|]. etrans; [done|]. by eapply quiet_evolves, notify_quiet.
  - apply event_sequence_intro; [lia|done..].
  - by rewrite Hst.
  - simpl. by rewrite Hopen.
Qed.

Lemma insert_command_evolves t agent k s s' n :
  insert_command t agent k s = Ok (s', n) → evolves s s' ∧ n = s.(next_cursor)
  ∧ s'.(agent_commands) = <[n := {| cm_tenant := t; cm_agent_id := agent; cm_command := k;
                                    cm_delivered_at := None; cm_acknowledged_at := None |}]> s.(agent_commands)
  ∧ jview s' = jview s ∧ dview s' = dview s ∧ s'.(pending_resolutions) = s.(pending_resolutions).
Proof.
  unfold insert_command. intros Hm. tx Hm. split_and!; [|done..].
  apply rtc_once, s_queue; [|done..]. by apply q_command.
Qed.

Lemma request_cancellation_sound t id k : sound (request_job_cancellation c t id k).
Proof.
  intros s s' a Hwf Hm. unfold request_job_cancellation in Hm. tx Hm.
  apply job_of_Some in Hx as [Hr Ht]. pose proof (row_of _ _ _ Hwf Hr) as Hrow.
  pose proof Hrow as [_ _ Hrange _]. destruct (event_sequence_Ok _ _ Hrange Hx1) as [Hn Hmax].
  apply i64_of_u64_Ok in Hx3 as [-> _].
  assert (Hopen := open_final _ _ Hrow (edge_open false _ _ (allowed_edge _ _ _ Hx0))).
  eapply log_evolves in Hx2 as [He Hr2]; [|try done..].
  - etrans; [done|]. txs Hm; [by eapply insert_command_evolves|].
    eapply cancel_unaccepted_evolves; try done; [by eapply store_evolves_wf|]. simpl.
    unfold u64_saturating_add, u64_max, i64_max in *. lia.
  - by apply allowed_edge.
  - simpl. by rewrite Hopen.
Qed.

(** An update of the commands that only records delivery or acknowledgement. *)
Lemma commands_evolves f s : all_rows command_moves s.(agent_commands) (f s.(agent_commands)) →
  evolves s (on_agent_commands f s).
Proof. intros Hf. apply rtc_once, s_queue; [|done..]. unfold qview. simpl. by apply q_commands. Qed.

Lemma acknowledge_cancellations_evolves t agent id s : evolves s (acknowledge_cancellations c t agent id s).
Proof.
  apply commands_evolves, all_rows_fmap. intros n k _. case_match eqn:Hp; [|auto with piqae].
  apply andb_true_iff in Hp as [_ Hp]. split; try done; simpl; unfold filled; [auto|by destruct (cm_acknowledged_at k); auto|].
  right; right. by destruct (cm_command k).
Qed.

Lemma retire_cancellation_sound t agent id : sound (retire_terminal_absent_local_cancellation c t agent id).
Proof.
  intros s s' a Hwf Hm. unfold retire_terminal_absent_local_cancellation in Hm.
  txs Hm; try apply rtc_refl. etrans; [|apply acknowledge_cancellations_evolves].
  apply job_of_Some in Heqo as [Hr Ht]. apply orb_false_iff in Heqb as [_ Hst].
  txs Hx; [apply rtc_refl|]. pose proof (row_of _ _ _ Hwf Hr) as [_ _ Hrange _].
  destruct (event_sequence_Ok _ _ Hrange Hx0). simpl in Hst.
  apply negb_false_iff, bool_decide_eq_true in Hst. by eapply cancel_unaccepted_evolves.
Qed.

(** * Leases *)

Lemma update_evolves s s' id f u :
  (∀ taken r, row_change taken r (f r)) → update_job id f s = Ok (s', u) → evolves s s'.
Proof. intros Hf ->%update_job_Ok. by apply row_evolves. Qed.

Lemma claim_jobs_sound locked lease t agent owner limit : sound (claim_jobs c locked lease t agent owner limit).
Proof.
  intros s s' a Hwf Hm. unfold claim_jobs in Hm. tx Hm.
  eapply (for_each_evolves (λ _ _, True)) in Hm as [He _]; [done| |done|done].
  intros [id r] l s1 s2 b _ _ Hj. split; [|done]. unfold claim_job in Hj. txs Hj. rewrite Hx.
  apply row_evolves. auto with piqae.
Qed.

Lemma renew_lease_sound id owner : sound (renew_lease c id owner).
Proof.
  intros s s' a Hwf Hm. unfold renew_lease in Hm. tx Hm. subst. apply row_evolves. auto with piqae.
Qed.

Lemma renew_agent_lease_sound t agent id lease token : sound (renew_agent_lease c t agent id lease token).
Proof.
  intros s s' a Hwf Hm. unfold renew_agent_lease in Hm. tx Hm. subst.
  etrans; [apply row_evolves|by apply quiet_evolves]. auto with piqae.
Qed.

Lemma renew_with_attempt_sound t agent id lease token p :
  sound (renew_agent_lease_with_delivery_attempt c t agent id lease token p).
Proof.
  intros s s' a Hwf Hm. unfold renew_agent_lease_with_delivery_attempt in Hm. tx Hm. subst.
  assert (He : evolves s (on_jobs (alter (with_lease_until (Some (sql_now c + seconds 30)%Z)) id) s)).
  { apply row_evolves. auto with piqae. }
  etrans; [done|]. apply rtc_once, s_deliveries; [|done..]. apply lease_step.
  exact (cw_deliveries _ (store_evolves_wf _ _ Hwf He)).
Qed.

Lemma release_lease_sound t agent id lease token : sound (release_agent_lease c t agent id lease token).
Proof.
  intros s s' a Hwf Hm. unfold release_agent_lease in Hm. tx Hm. subst. apply row_evolves. auto with piqae.
Qed.

Lemma validate_lease_sound t agent id lease token : sound (validate_agent_lease c t agent id lease token).
Proof. intros s s' a Hwf Hm. unfold validate_agent_lease in Hm. tx Hm. apply rtc_refl. Qed.

(** * Transitions of the server before a handoff *)

(** Only attempts and reservations changed. *)
Definition deliveries_only (s s' : Store) : Prop :=
  ∃ ats rss, s' = on_route_reservations (λ _, rss) (on_delivery_attempts (λ _, ats) s).

Lemma deliveries_only_refl s : deliveries_only s s.
Proof. exists s.(delivery_attempts), s.(route_reservations). by destruct s. Qed.

Lemma leased_ids t p s :
  cloud_wf s →
  (∀ k a, (k, a) ∈ select_rows (λ _ a, p a) s.(delivery_attempts) →
     a.(at_tenant) = t ∧ a.(at_state) = Attempt.RouteLeased) →
  ∀ x a, x ∈ (λ e : Tenant * string * AttemptRow, e.2.(at_id)) <$> select_rows (λ _ a, p a) s.(delivery_attempts) →
  s.(delivery_attempts) !! (t, x) = Some a → a.(at_state) = Attempt.RouteLeased.
Proof.
  intros Hwf Hp x a ([k b] & -> & Hb)%list_elem_of_fmap Ha. destruct (Hp _ _ Hb) as [Ht Hst].
  apply elem_of_select_rows in Hb as [Hb _].
  destruct (dw_attempt _ _ (cw_deliveries _ Hwf) k b Hb) as [Hk _ _ _]. simpl in *. rewrite Ht in Hk. subst k. simplify_eq. done.
Qed.

Lemma supersede_pre_evolves t id s s' b :
  cloud_wf s → supersede_pre_handoff_delivery_attempts c t id s = Ok (s', b) →
  evolves s s' ∧ deliveries_only s s'.
Proof.
  unfold supersede_pre_handoff_delivery_attempts. intros Hwf Hm.
  txs Hm; try (split; [apply rtc_refl|apply deliveries_only_refl]).
  split; [|by eexists _, _]. apply rtc_once, s_deliveries; [|done..].
  apply (supersede_step _ _ (cw_deliveries _ Hwf)). apply leased_ids; [done|]. intros k a Hin.
  apply elem_of_select_rows in Hin as Hp. destruct Hp as [_ [[Ht _]%andb_true_iff _]%andb_true_iff].
  apply bool_decide_eq_true in Ht. split; [done|]. apply dec_stable. intros Hst.
  apply not_true_iff_false in Heqb0. destruct Heqb0. apply existsb_exists. exists (k, a).
  split; [by apply list_elem_of_In|]. by apply negb_true_iff, bool_decide_eq_false.
Qed.

Lemma holds_lease_Some t agent id lease token s r :
  holds_lease c t agent id lease token s = Some r →
  s.(jobs) !! id = Some r ∧ r.(jr_tenant) = t ∧ r.(jr_place).(agent_id) = agent
  ∧ r.(jr_lease).(lease_id) = Some lease ∧ r.(jr_lease).(lease_token_hash) = Some (sha256 token)
  ∧ time_after r.(jr_lease).(lease_until) c.(sql_now) = true.
Proof.
  unfold holds_lease. destruct (job_of t id s) as [x|] eqn:Hj; [|done]. case_match eqn:Hb; [|done].
  intros [= <-]. apply job_of_Some in Hj as [Hj Ht].
  apply andb_true_iff in Hb as [[[H1 H2]%andb_true_iff H3]%andb_true_iff H4].
  rewrite !bool_decide_eq_true in *. done.
Qed.

Lemma leased_before_Some t agent id lease token s r :
  leased_before_handoff c t agent id lease token s = Some r →
  s.(jobs) !! id = Some r ∧ r.(jr_life).(state) ∈ [WaitingForAgent; FailedRetryable].
Proof.
  unfold leased_before_handoff. destruct (holds_lease c t agent id lease token s) as [x|] eqn:Hh; [|done].
  apply holds_lease_Some in Hh as [Hh _]. case_decide; [|done]. by intros [= <-].
Qed.

Lemma waiting_open r : r.(jr_life).(state) ∈ [WaitingForAgent; FailedRetryable] →
  is_terminal r.(jr_life).(state) = false ∧
  ∀ taken t, t ∈ [Blocked; FailedTerminal] → edge taken r.(jr_life).(state) t = true.
Proof.
  rewrite elem_of_cons, list_elem_of_singleton. intros [-> | ->];
    (split; [done|]); intros taken t; rewrite elem_of_cons, list_elem_of_singleton; by intros [-> | ->].
Qed.

(** The event after the job's own route leases were superseded. *)
Lemma superseded_log s s1 s2 s3 b t id r j e f final u :
  cloud_wf s → s.(jobs) !! id = Some r → supersede_pre_handoff_delivery_attempts c t id s = Ok (s1, b) →
  insert_event j e s1 = Ok (s2, u) → s3 = on_jobs (alter f id) s2 →
  event_sequence r.(jr_life).(state_sequence) = Ok e.(je_sequence) → e.(je_job_id) = id →
  edge (is_taken id s.(job_acceptances)) r.(jr_life).(state) e.(je_state) = true →
  j.(j_tenant) = r.(jr_payload).(j_tenant) → same_job r (f r) → (f r).(jr_place) = r.(jr_place) →
  (f r).(jr_life) = {| state := e.(je_state); state_sequence := Z.of_N e.(je_sequence); final_at := final |} →
  (is_Some final ↔ is_terminal e.(je_state) = true) → evolves s s3.
Proof.
  intros Hwf Hr Hs Hi -> ? ? ? ? ? ? ? ?. destruct (supersede_pre_evolves _ _ _ _ _ Hwf Hs) as [He (ats & rss & ->)].
  etrans; [done|]. eapply log_evolves in Hi as [He' _]; try done. by eapply store_evolves_wf.
Qed.

Lemma block_sound t agent id lease token : sound (block_agent_lease_for_node_update c t agent id lease token).
Proof.
  intros s s' a Hwf Hm. unfold block_agent_lease_for_node_update in Hm. tx Hm.
  apply leased_before_Some in Hx as [Hr Hst]. destruct (waiting_open _ Hst) as [Hopen Hedge].
  destruct x0; simpl in Hm; txs Hm; [|by eapply supersede_pre_evolves].
  eapply superseded_log in Hx0; [etrans; [exact Hx0|]|try done..].
  - apply quiet_evolves. by etrans; [|by eapply notify_quiet].
  - apply Hedge. set_solver.
  - simpl. by rewrite (open_final _ _ (row_of _ _ _ Hwf Hr) Hopen).
Qed.

Lemma fail_sound t agent id lease token reason message :
  sound (fail_agent_lease_before_handoff c t agent id lease token reason message).
Proof.
  intros s s' a Hwf Hm. unfold fail_agent_lease_before_handoff in Hm. tx Hm.
  apply leased_before_Some in Hx as [Hr Hst]. destruct (waiting_open _ Hst) as [Hopen Hedge].
  destruct x0; simpl in Hm; txs Hm; [|by eapply supersede_pre_evolves].
  eapply superseded_log in Hx0; [etrans; [exact Hx0|]|try done..].
  - apply quiet_evolves. by etrans; [|by eapply notify_quiet].
  - apply Hedge. set_solver.
Qed.

Lemma list_update_required_sound locked t agent limit :
  sound (list_node_update_required_jobs c locked t agent limit).
Proof.
  apply quiet_sound. intros s s' a Hm. unfold list_node_update_required_jobs in Hm. tx Hm.
  eapply for_each_quiet; [|eassumption]. intros e s1 s2 u Hu. by tx Hu.
Qed.

Lemma recover_sound t agent id : sound (recover_node_update_required_job c t agent id).
Proof.
  intros s s' a Hwf Hm. unfold recover_node_update_required_job in Hm.
  txs Hm; [|apply rtc_refl]. destruct (job_of t id s) as [r'|] eqn:Hj; [|done].
  case_match eqn:Hb; [|done]. injection Heqo as ->. apply job_of_Some in Hj as [Hr _].
  apply andb_true_iff in Hb as [[[_ Hst]%andb_true_iff _]%andb_true_iff _]. apply bool_decide_eq_true in Hst.
  eapply log_evolves in Hx0 as [He _]; [etrans; [exact He|]|try done..].
  - apply quiet_evolves. by etrans; [|by eapply notify_quiet].
  - by rewrite Hst.
  - simpl. rewrite (open_final _ _ (row_of _ _ _ Hwf Hr)); [done|by rewrite Hst].
Qed.

(** * Sweeps *)

(** The rows of a list are still in the table. *)
Definition still (l : list (string * JobRow)) (s : Store) : Prop :=
  NoDup (fst <$> l) ∧ ∀ id r, (id, r) ∈ l → s.(jobs) !! id = Some r.

Lemma still_next e l s s' :
  still (e :: l) s → (∀ id, id ≠ e.1 → s'.(jobs) !! id = s.(jobs) !! id) → still l s'.
Proof.
  intros [Hnd Hin] Hj. simpl in Hnd. apply NoDup_cons in Hnd as [Hn Hnd]. split; [done|].
  intros id r Hr. rewrite Hj; [apply Hin; by right|]. intros ->. destruct Hn.
  apply list_elem_of_fmap. by exists (e.1, r).
Qed.

Lemma still_sorted p le n s : still (take n (sort_by le (select_rows p s.(jobs)))) s.
Proof.
  split.
  - rewrite fmap_take. eapply sublist_NoDup; [|apply sublist_take].
    rewrite sort_by_perm. apply select_rows_keys.
  - intros id r Hr. apply elem_of_take in Hr as (i & Hi & _).
    apply list_elem_of_lookup_2, elem_of_sort_by, elem_of_select_rows in Hi. by destruct Hi.
Qed.

Lemma expirable_open s id r : expirable c s id r = true →
  r.(jr_life).(final_at) = None
  ∧ r.(jr_life).(state) ∈ [Registered; ContentPending; WaitingForAgent; FailedRetryable; Blocked]
  ∧ accepted r.(jr_tenant) id s = false.
Proof.
  unfold expirable. intros Hb.
  apply andb_true_iff in Hb as [[[[[Hf _]%andb_true_iff Hs]%andb_true_iff Ha]%andb_true_iff _]%andb_true_iff _].
  rewrite negb_true_iff in Ha. by rewrite bool_decide_eq_true in Hf, Hs.
Qed.

Lemma not_accepted_free s id r : cloud_wf s → s.(jobs) !! id = Some r →
  accepted r.(jr_tenant) id s = false → is_taken id s.(job_acceptances) = false.
Proof.
  unfold accepted, is_taken. intros Hwf Hr Ha. apply bool_decide_eq_false. intros [x Hx].
  rewrite Hx in Ha. apply bool_decide_eq_false in Ha.
  destruct (jw_accepted _ (cw_jobs _ Hwf) id x Hx) as (r' & Hr' & Ht & _). simpl in Hr'. congruence.
Qed.

Lemma expire_edge st : st ∈ [Registered; ContentPending; WaitingForAgent; FailedRetryable; Blocked] →
  edge false st Expired = true.
Proof. intros Hst. repeat (apply elem_of_cons in Hst as [->|Hst]; [done|]). by apply not_elem_of_nil in Hst. Qed.

Lemma expire_job_evolves id r s s' o :
  cloud_wf s → s.(jobs) !! id = Some r → is_taken id s.(job_acceptances) = false →
  r.(jr_life).(state) ∈ [Registered; ContentPending; WaitingForAgent; FailedRetryable; Blocked] →
  expire_job c (id, r) s = Ok (s', o) →
  evolves s s' ∧ s'.(job_acceptances) = s.(job_acceptances)
  ∧ ∀ i, i ≠ id → s'.(jobs) !! i = s.(jobs) !! i.
Proof.
  intros Hwf Hr Hfree Hst Hm. unfold expire_job in Hm. tx Hm.
  assert (Hsup := Hx). apply supersede_pre_evolves in Hsup as [Hs (ats & rss & ->)]; [|done].
  destruct x; simpl in Hm; txs Hm; [|done].
  assert (Hi := Hx1). apply insert_event_Ok in Hi as [Hi _].
  assert (Hn := Hx3). apply notify_quiet in Hn as [[= E1 _ E2 _] _ _ _]. simpl in E1, E2.
  split_and!.
  - eapply superseded_log in Hx; [etrans; [exact Hx|]|try done..].
    + apply quiet_evolves. by etrans; [|by eapply notify_quiet].
    + rewrite Hfree. by apply expire_edge.
  - by rewrite E2, Hx2, Hi.
  - intros i Hne. rewrite E1, Hx2, Hi. simpl. by rewrite lookup_alter_ne.
Qed.

(** What an expiry sweep works off. *)
Definition expiring (l : list (string * JobRow)) (s : Store) : Prop :=
  still l s ∧ ∀ id r, (id, r) ∈ l → is_taken id s.(job_acceptances) = false ∧
    r.(jr_life).(state) ∈ [Registered; ContentPending; WaitingForAgent; FailedRetryable; Blocked].

Lemma expiring_next e l s s' o :
  expiring (e :: l) s → cloud_wf s → expire_job c e s = Ok (s', o) → evolves s s' ∧ expiring l s'.
Proof.
  destruct e as [id r]. intros [Hst Hl] Hwf He. destruct (Hl id r) as [Hf Hin]; [by left|].
  destruct (expire_job_evolves id r s s' o) as (? & Hac & Hj); [done| |done..|]; [apply Hst; by left|].
  split; [done|]. split; [by eapply still_next|]. intros i r' Hi. rewrite Hac. apply Hl. by right.
Qed.

Lemma expiring_rows locked n s : cloud_wf s →
  expiring (take n (sort_by expiry_le (select_rows (λ id r, expirable c s id r && negb (locked id)) s.(jobs)))) s.
Proof.
  intros Hwf. split; [apply still_sorted|]. intros id r Hin. apply elem_of_take in Hin as (i & Hi & _).
  apply list_elem_of_lookup_2, elem_of_sort_by, elem_of_select_rows in Hi as [Hr [Hb _]%andb_true_iff].
  apply expirable_open in Hb as (_ & Hst & Hac). split; [by eapply not_accepted_free|done].
Qed.

Lemma expire_sound locked limit : sound (expire_jobs_before_handoff c locked limit).
Proof.
  intros s s' a Hwf Hm. unfold expire_jobs_before_handoff in Hm. tx Hm.
  by eapply (for_each_evolves _ _ _ expiring_next) in Hx as [He _]; [|by apply expiring_rows|].
Qed.

Lemma stuck_sound locked threshold limit : sound (claim_stuck_uncertain_jobs c locked threshold limit).
Proof.
  intros s s' a Hwf Hm. unfold claim_stuck_uncertain_jobs in Hm. tx Hm.
  eapply (for_each_evolves (λ _ _, True)) in Hx0 as [He _]; [done| |done|done].
  intros e l s1 s2 b _ _ Hj. split; [|done]. eapply update_evolves; [|exact Hj].
  intros taken r. by apply row_kept.
Qed.
End steps.
