(* ===== verification/CloudNodeSteps.v ===== *)
(** Every transaction of the store that commits is made of elementary changes: acceptance,
    commands and revocation. *)

From S2P Require Import Prelude Domain CloudStore CloudWake CloudJobs CloudAccept CloudRevoke CloudFacts CloudDeliveries CloudQueue CloudSystem CloudSteps.

Section steps.
Context `{CloudExternal}.
Variable c : Clock.

(** * Acceptance *)

Lemma fill_evolves s id a f :
  s.(job_acceptances) !! id = Some a → same_acceptance a (f a) → evolves s (on_job_acceptances (alter f id) s).
Proof.
  intros Ha Hf. apply rtc_once, s_jobs; [|done..]. unfold jview. simpl. rewrite (alter_Some _ _ _ _ Ha).
  by eapply j_fill.
Qed.

Lemma accept_again_evolves t agent id lease token sha n proof g attempt row s s' a :
  s.(job_acceptances) !! id = Some row →
  accept_again t agent id lease token sha n proof g attempt row s = Ok (s', a) → evolves s s'.
Proof.
  intros Hrow Hm. unfold accept_again in Hm. tx Hm.
  assert (evolves s s0).
  { txs Hx3; [apply rtc_refl|]. eapply fill_evolves; [done|]. split; simpl; unfold filled; auto. }
  etrans; [done|]. by eapply quiet_evolves, notify_quiet.
Qed.

Lemma proven_attempt_Some t agent id g p s a :
  cloud_wf s → proven_attempt t agent id g p s = Some a →
  ∃ rs, s.(route_reservations) !! (t, p.(dp_reservation_id)) = Some rs ∧ rs.(rs_state) = Active
    ∧ rs.(rs_attempt_id) = a.(at_id) ∧ s.(delivery_attempts) !! (t, a.(at_id)) = Some a ∧ a.(at_tenant) = t.
Proof.
  intros Hwf. unfold proven_attempt.
  intros (rs & Hrs & (b & Hb & (route & Hroute & Hc)%bind_Some)%bind_Some)%bind_Some.
  case_match eqn:Hp; [|done]. injection Hc as ->. exists rs.
  apply andb_true_iff in Hp as [[[[[_ Hact]%andb_true_iff _]%andb_true_iff _]%andb_true_iff _]%andb_true_iff _].
  apply bool_decide_eq_true in Hact.
  destruct (dw_attempt _ _ (cw_deliveries _ Hwf) _ _ Hb) as [[= <- <-] _ _ _]. done.
Qed.

Lemma accepting_attempt_Ok t agent id d p s s' a :
  cloud_wf s → accepting_attempt t agent id d p s = Ok (s', a) →
  s' = s ∧ s.(delivery_attempts) !! (t, a.(at_id)) = Some a.
Proof.
  intros Hwf Hm. unfold accepting_attempt in Hm. tx Hm. split; [done|].
  apply bind_Some in Hx0 as (rs & _ & (b & Hb & Hc)%bind_Some). case_match; [|done]. injection Hc as <-.
  by apply proven_attempt_Some in Hb as (? & ? & ? & ? & ? & ?).
Qed.

Lemma insert_acceptance_evolves id row g r s s' u :
  s.(jobs) !! id = Some r → row.(ac_tenant) = r.(jr_tenant) → row.(ac_agent_id) = r.(jr_place).(agent_id) →
  r.(jr_life).(state) = AgentAccepted → insert_acceptance id row g s = Ok (s', u) →
  evolves s s' ∧ dview s' = dview s.
Proof.
  intros Hr Ht Ha Hst Hm. unfold insert_acceptance in Hm. tx Hm. apply bool_decide_eq_true in Hx1.
  split; [|done]. apply rtc_once, s_jobs; [|done..]. unfold jview. simpl. by eapply j_accept.
Qed.

(** The attempt whose job the node accepted. *)
Lemma queued_evolves t s s' u attempt :
  cloud_wf s → (∀ a, attempt = Some a → s.(delivery_attempts) !! (t, a.(at_id)) = Some a) →
  match attempt with
  | None => mret ()
  | Some a =>
    _ ← ensure (bool_decide (a.(at_state) ∈ [Attempt.RouteLeased; Attempt.AcceptedByNode])) ConcurrentStateChange;
    execute (on_delivery_attempts (alter (λ b,
      set_attempt_times (coalesce b.(at_accepted_at) (Some c.(sql_now)))
        b.(at_handoff_started_at) b.(at_spooler_accepted_at)
        (set_attempt Attempt.QueuedLocal b.(at_final_at) b)) (t, a.(at_id))))
  end s = Ok (s', u) → evolves s s'.
Proof.
  intros Hwf Hat Hm. txs Hm; [|apply rtc_refl]. specialize (Hat _ eq_refl).
  apply bool_decide_eq_true in Hx. apply rtc_once, s_deliveries; [|done..].
  assert (Hlow : progress a.(at_state) < 2 ∧ Attempt.renewable a.(at_state) = true).
  { apply elem_of_cons in Hx as [->|[->|[]%not_elem_of_nil]%elem_of_cons]; simpl; auto with lia. }
  destruct Hlow as [Hlow Hren].
  apply (advance_step _ _ (cw_deliveries _ Hwf) _ _ a); [done| |done].
  apply attempt_advances; [done..|]. simpl.
  rewrite (renewable_open _ _ (cw_deliveries _ Hwf) _ _ Hat Hren). split; [by intros []|done].
Qed.

Lemma expected_sha256_Ok t content s s' o : expected_sha256 t content s = Ok (s', o) → s' = s.
Proof. unfold expected_sha256. intros Hm. by txs Hm. Qed.

Lemma accept_first_evolves t agent id lease token sha n proof g attempt s s' j :
  cloud_wf s → (∀ a, attempt = Some a → s.(delivery_attempts) !! (t, a.(at_id)) = Some a) →
  accept_first c t agent id lease token sha n proof g attempt s = Ok (s', j) → evolves s s'.
Proof.
  intros Hwf Hat Hm. unfold accept_first in Hm. tx Hm.
  apply expected_sha256_Ok in Hx0 as ->. apply holds_lease_Some in Hx as (Hr & Ht & Ha & _).
  apply bool_decide_eq_true in Hx2. pose proof (row_of _ _ _ Hwf Hr) as Hrow.
  assert (Hedge : ∀ taken, edge taken x.(jr_life).(state) AgentAccepted = true).
  { intros taken. by apply elem_of_cons in Hx2 as [->|[->|[]%not_elem_of_nil]%elem_of_cons]. }
  assert (Hd : dview s2 = dview s) by (apply insert_event_Ok in Hx4 as [-> _]; by subst).
  eapply log_evolves in Hx4 as [He Hr2]; [|try done..].
  - etrans; [done|]. pose proof (store_evolves_wf _ _ Hwf He) as Hwf2.
    eapply insert_acceptance_evolves in Hx8 as [He3 Hd3]; [|done..].
    etrans; [done|]. eapply queued_evolves in Hx9; [|by eapply store_evolves_wf|].
    + etrans; [done|]. by eapply quiet_evolves, notify_quiet.
    + assert (s3.(delivery_attempts) = s.(delivery_attempts)) as -> by exact (f_equal v_attempts (eq_trans Hd3 Hd)).
      done.
  - simpl. rewrite (open_final _ _ Hrow); [done|]. by eapply (edge_open true).
Qed.

Lemma accept_sound t agent id lease token sha n proof :
  sound (accept_agent_job_transactional c t agent id lease token sha n proof).
Proof.
  intros s s' a Hwf Hm. unfold accept_agent_job_transactional in Hm. tx Hm.
  assert (s0 = s ∧ ∀ a, x3 = Some a → s.(delivery_attempts) !! (t, a.(at_id)) = Some a) as [-> Hat].
  { txs Hx3; [|done]. apply accepting_attempt_Ok in Hx4 as [-> Ha]; [|done]. split; [done|]. by intros b [= <-]. }
  destruct (job_acceptances s !! id) as [row|] eqn:Hac; [|by eapply accept_first_evolves].
  case_decide; [by eapply accept_again_evolves|by eapply accept_first_evolves].
Qed.

Lemma legacy_fill t agent id e current a route s :
  legacy_acceptance t agent id e current s = true → s.(job_acceptances) !! id = Some a →
  same_acceptance a (set_acceptance_route route current a).
Proof.
  unfold legacy_acceptance. intros Hl Ha. rewrite Ha in Hl. apply andb_true_iff in Hl as [[_ Hr]%andb_true_iff Hg].
  apply bool_decide_eq_true in Hr. apply orb_true_iff in Hg. rewrite !bool_decide_eq_true in Hg.
  split; simpl; unfold filled; auto. destruct Hg; auto.
Qed.

Lemma reconcile_sound t agent id lease token sha n p :
  sound (reconcile_agent_acceptance t agent id lease token sha n p).
Proof.
  intros s s' a Hwf Hm. unfold reconcile_agent_acceptance in Hm. txs Hm; [|apply rtc_refl].
  txs Hx1; [|apply rtc_refl].
  apply andb_true_iff in Heqb as [Hl _]. destruct (job_acceptances s !! id) eqn:Ha.
  - eapply fill_evolves; [done|]. by eapply legacy_fill.
  - unfold legacy_acceptance in Hl. by rewrite Ha in Hl.
Qed.

(** Two events and one update of the row are the two transitions. *)
Lemma two_events s id r t e1 e2 f2 final :
  cloud_wf s → s.(jobs) !! id = Some r → t = r.(jr_payload).(j_tenant) →
  event_sequence r.(jr_life).(state_sequence) = Ok e1.(je_sequence) →
  event_sequence (Z.of_N e1.(je_sequence)) = Ok e2.(je_sequence) →
  e1.(je_job_id) = id → e2.(je_job_id) = id →
  (∀ taken, edge taken r.(jr_life).(state) e1.(je_state) = true) →
  (∀ taken, edge taken e1.(je_state) e2.(je_state) = true) →
  f2 (enter e1.(je_state) (Z.of_N e1.(je_sequence)) r.(jr_life).(final_at) r.(jr_payload) r) = f2 r →
  same_job r (f2 r) → (f2 r).(jr_place) = r.(jr_place) →
  (f2 r).(jr_life) = {| state := e2.(je_state); state_sequence := Z.of_N e2.(je_sequence); final_at := final |} →
  (is_Some final ↔ is_terminal e2.(je_state) = true) →
  evolves s (on_jobs (alter f2 id)
    (on_job_events <[(id, e2.(je_sequence)) := {| er_tenant := t; er_event := e2 |}]>
      (on_job_events <[(id, e1.(je_sequence)) := {| er_tenant := t; er_event := e1 |}]> s))).
Proof.
  intros Hwf Hr -> Hs1 Hs2 Hi1 Hi2 He1 He2 Hf Hsame Hplace Hlife Hfin.
  assert (Hnone := open_final _ _ (row_of _ _ _ Hwf Hr) (edge_open true _ _ (He1 _))).
  set (f1 := enter _ _ _ _) in *.
  assert (Hfirst : evolves s (on_jobs (alter f1 id) (on_job_events <[(id, e1.(je_sequence)) :=
    {| er_tenant := r.(jr_payload).(j_tenant); er_event := e1 |}]> s))).
  { eapply (entered_evolves _ _ r _ _ _ None); try done; simpl; [by rewrite Hnone|].
    rewrite (edge_open true _ _ (He2 _)). split; [by intros []|done]. }
  etrans; [done|]. set (s1 := on_jobs _ _) in *.
  assert (Hr1 : s1.(jobs) !! id = Some (f1 r)) by (simpl; by rewrite lookup_alter_eq, Hr).
  replace (on_jobs (alter f2 id) _) with (on_jobs (alter f2 id)
    (on_job_events <[(id, e2.(je_sequence)) := {| er_tenant := r.(jr_payload).(j_tenant); er_event := e2 |}]> s1)).
  - destruct Hsame. eapply (entered_evolves s1 id (f1 r)); rewrite ?Hf; try done; by eapply store_evolves_wf.
  - unfold on_jobs, s1. simpl. f_equal. rewrite (alter_Some _ _ _ _ Hr), (alter_Some f2 _ _ (f1 r)), Hf.
    + rewrite insert_insert_eq. symmetry. by apply alter_Some.
    + by rewrite lookup_insert_eq.
Qed.

Lemma abandon_sound t agent id lease token sha n p :
  sound (abandon_agent_acceptance c t agent id lease token sha n p).
Proof.
  intros s s' a Hwf Hm. unfold abandon_agent_acceptance in Hm. txs Hm; try apply rtc_refl.
  apply job_of_Some in Hx2 as [Hr Ht]. apply bool_decide_eq_true in Hx4. pose proof (row_of _ _ _ Hwf Hr) as Hrow.
  assert (Hopen : x2.(jr_life).(final_at) = None).
  { apply (open_final _ _ Hrow). by apply elem_of_cons in Hx4 as [->|[->|[]%not_elem_of_nil]%elem_of_cons]. }
  assert (He : evolves s s2); [|etrans; [done|]; by eapply cancel_deliveries_evolves, Hx9; eapply store_evolves_wf].
  txs Hx5.
  - apply insert_event_Ok in Hx10 as [-> _], Hx7 as [-> _]. subst s2.
    pose proof Hrow as [_ _ Hrange _]. destruct (event_sequence_Ok _ _ Hrange Hx2) as [Hn Hmax].
    eapply (two_events s id x2 _ (server_event c id x10 CancelRequested _ _ _)
      (server_event c id x6 Cancelled _ _ _)); try done; simpl; [|intros; by rewrite e|by rewrite Hopen].
    rewrite <- Hx6, Hn. unfold i64_succ. destruct (Z.eqb_spec x2.(jr_life).(state_sequence) i64_max); [lia|done].
  - apply elem_of_cons in Hx4 as [Hst|[Hst|[]%not_elem_of_nil]%elem_of_cons]; [done|].
    eapply log_evolves in Hx7 as [? _]; try done; simpl; [by rewrite Hst|by rewrite Hopen].
Qed.

(** * Commands *)

Lemma enqueue_command_sound t agent k : sound (enqueue_agent_command t agent k).
Proof.
  intros s s' a Hwf Hm. unfold enqueue_agent_command in Hm. tx Hm. by eapply insert_command_evolves.
Qed.

Lemma acknowledge_evolves t agent cursor s : evolves s (acknowledge_commands c t agent cursor s).
Proof.
  apply commands_evolves. intros n. rewrite map_lookup_imap. destruct (agent_commands s !! n) as [k|]; simpl; [|done].
  case_match eqn:Hp; [|auto with piqae].
  apply andb_true_iff in Hp as [[[_ Hk]%andb_true_iff _]%andb_true_iff Hd].
  apply bool_decide_eq_true in Hk. apply negb_true_iff, bool_decide_eq_false, not_eq_None_Some in Hd.
  split; simpl; unfold filled; auto.
Qed.

Lemma sync_sound t agent ack limit : sound (sync_agent_commands c t agent ack limit).
Proof.
  intros s s' a Hwf Hm. unfold sync_agent_commands in Hm. tx Hm.
  assert (He : evolves s s0) by (destruct ack; tx Hx; [apply acknowledge_evolves|apply rtc_refl]).
  etrans; [done|]. eapply (for_each_evolves (λ _ _, True)) in Hx0 as [? _]; [done| |done|by eapply store_evolves_wf].
  intros [n k] l s2 s3 u _ _ Hu. split; [|done]. tx Hu. apply commands_evolves, all_rows_alter; [auto with piqae|].
  intros k' _. split; simpl; unfold filled; auto. destruct (cm_delivered_at k'); auto.
Qed.

(** * Revocation *)

Lemma uncertain_edge st : is_terminal st = false → edge true st DeliveryUncertain = true.
Proof. by destruct st. Qed.

Lemma webhooks_quiet key t j l s s' us :
  for_each (λ ty, enqueue_webhook_event_in_transaction (key ty) t ty j) l s = Ok (s', us) → quiet s s'.
Proof.
  apply for_each_quiet. intros ty s1 s2 u. unfold enqueue_webhook_event_in_transaction. intros ->%execute_Ok.
  case_match eqn:Hn; [done|]. split; [done..|]. split; [done..|]. simpl. by apply insert_subseteq.
Qed.

Lemma terminalize_job_evolves t agent id r s s' j :
  cloud_wf s → s.(jobs) !! id = Some r → is_terminal r.(jr_life).(state) = false →
  is_taken id s.(job_acceptances) = true → terminalize_job c t agent (id, r) s = Ok (s', j) →
  evolves s s' ∧ s'.(job_acceptances) = s.(job_acceptances) ∧ ∀ i, i ≠ id → s'.(jobs) !! i = s.(jobs) !! i.
Proof.
  intros Hwf Hr Hopen Htaken Hm. unfold terminalize_job in Hm. tx Hm.
  assert (Hi := Hx0). apply insert_event_Ok in Hi as [Hi _].
  assert (Hn := Hx2). apply webhooks_quiet in Hn. pose proof Hn as [[= E1 _ E2 _] _ _ _]. simpl in E1, E2.
  split_and!.
  - eapply log_evolves in Hx0 as [He _]; [|try done..].
    + etrans; [done|]. etrans; [|by apply quiet_evolves]. apply rtc_once, s_deliveries; [|done..].
      apply (end_job_step _ _ (cw_deliveries _ (store_evolves_wf _ _ Hwf He)) t id Attempt.DeliveryUncertain Released); done.
    + rewrite Htaken. by apply uncertain_edge.
  - by rewrite E2, Hx1, Hi.
  - intros i Hne. rewrite E1, Hx1, Hi. simpl. by rewrite lookup_alter_ne.
Qed.

Lemma open_acceptance_facts t agent s id r : cloud_wf s → s.(jobs) !! id = Some r →
  open_acceptance t agent s id r = true →
  is_terminal r.(jr_life).(state) = false ∧ is_taken id s.(job_acceptances) = true.
Proof.
  unfold open_acceptance, is_taken. intros Hwf Hr Hb.
  apply andb_true_iff in Hb as [[_ Hf]%andb_true_iff Ha]. apply bool_decide_eq_true in Hf.
  destruct (row_of _ _ _ Hwf Hr) as [_ _ _ Hfin]. split.
  - apply not_true_is_false. intros Ht%Hfin. rewrite Hf in Ht. by destruct Ht.
  - apply bool_decide_eq_true. by destruct (job_acceptances s !! id).
Qed.

Lemma terminalize_loop_evolves fuel t agent : ∀ affected, sound (terminalize_loop c fuel t agent affected).
Proof.
  induction fuel as [|fuel IH]; intros affected s s' a Hwf Hm; simpl in Hm; txs Hm; try apply rtc_refl.
  eapply (for_each_evolves (λ l s, still l s ∧ ∀ id r, (id, r) ∈ l →
    is_terminal r.(jr_life).(state) = false ∧ is_taken id s.(job_acceptances) = true)) in Hx as [He _]; [| | |done].
  - etrans; [done|]. eapply IH; [by eapply store_evolves_wf|done].
  - intros [id r] l s1 s2 o [Hst Hl] Hwf1 He. destruct (Hl id r) as [Ho Ht]; [by left|].
    destruct (terminalize_job_evolves t agent id r s1 s2 o) as (? & Hac & Hj); [done| |done..|].
    { apply Hst. by left. }
    split; [done|]. split; [by eapply still_next|]. intros i r' Hi. rewrite Hac. apply Hl. by right.
  - split; [apply still_sorted|]. intros id r Hin. apply elem_of_take in Hin as (i & Hi & _).
    apply list_elem_of_lookup_2, elem_of_sort_by, elem_of_select_rows in Hi as [Hr Hb].
    by eapply open_acceptance_facts.
Qed.

Lemma terminalize_sound t agent : sound (terminalize_agent_acceptances c t agent).
Proof.
  intros s s' a Hwf Hm. unfold terminalize_agent_acceptances in Hm. tx Hm. by eapply terminalize_loop_evolves.
Qed.

Lemma revoke_connector_sound t agent k : sound (revoke_node_connector c t agent k).
Proof.
  intros s s' a Hwf Hm. unfold revoke_node_connector in Hm. tx Hm.
  assert (He : evolves s s0) by (txs Hx0; [by apply quiet_evolves|apply rtc_refl]).
  etrans; [done|]. eapply terminalize_sound; [by eapply store_evolves_wf|done].
Qed.

(** Only the rows of nodes, printers and routes, and wake hints, changed. *)
Lemma retire_routes_evolves t agent s s' u :
  cloud_wf s → retire_node_routes c t agent s = Ok (s', u) → evolves s s'.
Proof.
  intros Hwf Hm. unfold retire_node_routes in Hm. txs Hm; [apply rtc_refl|].
  assert (He : evolves s s0); [|etrans; [done|by apply quiet_evolves]].
  txs Hx; [apply rtc_refl|]. apply rtc_once, s_deliveries; [|done..].
  apply (supersede_step _ _ (cw_deliveries _ Hwf)). apply leased_ids; [done|].
  intros k a [_ [[[Ht _]%andb_true_iff Hs]%andb_true_iff _]%andb_true_iff]%elem_of_select_rows.
  by rewrite bool_decide_eq_true in Ht, Hs.
Qed.

Lemma return_to_queue_evolves t agent s :
  evolves s (on_jobs (update_where (returned_to_queue t agent) return_to_queue) s).
Proof.
  apply rtc_once, s_jobs; [|done..]. unfold jview. simpl. apply j_rows. intros id. rewrite lookup_update_where.
  destruct (jobs s !! id) as [r|]; simpl; [|done]. case_match eqn:Hp; [|by apply row_kept].
  apply andb_true_iff in Hp as [[_ Hf]%andb_true_iff Hs]. rewrite bool_decide_eq_true in Hf.
  apply row_requeued; try done. unfold return_to_queue. simpl. by rewrite Hf.
Qed.

Lemma revoke_agent_sound t agent : sound (revoke_agent_transaction c t agent).
Proof.
  intros s s' a Hwf Hm. unfold revoke_agent_transaction in Hm. tx Hm.
  assert (He0 := terminalize_sound _ _ _ _ _ Hwf Hx0). etrans; [done|].
  assert (He1 := retire_routes_evolves _ _ _ _ _ (store_evolves_wf _ _ Hwf He0) Hx1). etrans; [done|].
  etrans; [|apply return_to_queue_evolves]. apply quiet_evolves.
  assert (Hq : quiet s1 s2) by (etrans; [|unfold revoke_connectors in Hx2; by txs Hx2]; done).
  etrans; [done|done].
Qed.
End steps.
