(* ===== verification/CloudRouteSteps.v ===== *)
(** Every transaction of the store that commits is made of elementary changes: attempts,
    resolutions of uncertain deliveries, rerouting and identity. *)

From S2P Require Import Prelude Domain CloudStore CloudWake CloudJobs CloudAccept CloudRevoke CloudRouting CloudTopology CloudReroute CloudFacts CloudDeliveries CloudQueue CloudSystem CloudSteps CloudNodeSteps.

Section steps.
Context `{CloudExternal}.
Variable c : Clock.

(** * Attempts *)

Lemma latest_attempt_Some t p s a :
  latest_attempt t p s = Some a →
  ∃ k, s.(delivery_attempts) !! k = Some a ∧ a.(at_tenant) = t ∧ p a = true.
Proof.
  unfold latest_attempt. set (l := snd <$> _). intros Hl.
  assert (Hin : a ∈ l).
  { assert (Hgen : ∀ l m, foldl (λ m a, match m with
        | Some b => if (b.(at_generation) <? a.(at_generation))%Z then Some a else m
        | None => Some a end) m l = Some a → m = Some a ∨ a ∈ l).
    { clear. induction l as [|b l IH]; intros m Hm; simpl in Hm; [by left|].
      apply IH in Hm as [Hm|Hm]; [|right; by right]. destruct m as [x|]; [case_match|]; simplify_eq; auto using list_elem_of_here. }
    by destruct (Hgen _ _ Hl). }
  apply list_elem_of_fmap in Hin as ([k b] & -> & [Hb [Ht Hp]%andb_true_iff]%elem_of_select_rows).
  apply bool_decide_eq_true in Ht. by exists k.
Qed.

Lemma attempt_at t s k a : cloud_wf s → s.(delivery_attempts) !! k = Some a → a.(at_tenant) = t →
  s.(delivery_attempts) !! (t, a.(at_id)) = Some a.
Proof. intros Hwf Ha <-. destruct (dw_attempt _ _ (cw_deliveries _ Hwf) _ _ Ha) as [Hk _ _ _]. by rewrite <- Hk. Qed.

Lemma supersede_evolves t ids now s :
  cloud_wf s → (∀ x a, x ∈ ids → s.(delivery_attempts) !! (t, x) = Some a → a.(at_state) = Attempt.RouteLeased) →
  evolves s (supersede t ids now s) ∧ jview (supersede t ids now s) = jview s.
Proof.
  intros Hwf Hids. split; [|done]. apply rtc_once, s_deliveries; [|done..].
  by apply (supersede_step _ _ (cw_deliveries _ Hwf)).
Qed.

Lemma check_against_evolves fence t q s s' u :
  check_against c fence t q s = Ok (s', u) → evolves s s' ∧ dview s' = dview s ∧ s'.(resolutions) = s.(resolutions)
  ∧ fence s' = false
  ∧ ∃ r, s'.(jobs) !! q.(nd_job_id) = Some r ∧ r.(jr_life).(final_at) = None.
Proof.
  intros Hm. unfold check_against in Hm. tx Hm. apply negb_true_iff in Hm. split_and!; [..|done|].
  - txs Hx5; [apply rtc_refl|]. subst. apply row_evolves. intros r _. by apply row_kept.
  - txs Hx5; by subst.
  - txs Hx5; by subst.
  - apply job_of_Some in Hx3 as [Hr _]. apply andb_true_iff in Hx4 as [[Hf _]%andb_true_iff _].
    apply bool_decide_eq_true in Hf. txs Hx5; [by exists x3|]. subst. simpl. rewrite lookup_alter_eq, Hr. by eexists.
Qed.

Lemma check_delivery_evolves t q s s' u :
  check_delivery c t q s = Ok (s', u) → evolves s s' ∧ dview s' = dview s ∧ s'.(resolutions) = s.(resolutions)
  ∧ unresolved t q.(nd_destination_id) s' = false
  ∧ ∃ r, s'.(jobs) !! q.(nd_job_id) = Some r ∧ r.(jr_life).(final_at) = None.
Proof. apply check_against_evolves. Qed.

Lemma retire_own_evolves t id s s' u :
  cloud_wf s → retire_own_attempt c t id s = Ok (s', u) → evolves s s' ∧ jview s' = jview s.
Proof.
  intros Hwf Hm. unfold retire_own_attempt in Hm. txs Hm; [|by split; [apply rtc_refl|]].
  apply andb_true_iff in Hx as [Hst _]. apply bool_decide_eq_true in Hst.
  apply head_Some_elem_of, elem_of_select_rows in Heqo as [Ha [[Ht _]%andb_true_iff _]%andb_true_iff].
  apply bool_decide_eq_true in Ht. apply supersede_evolves; [done|].
  intros i b ->%list_elem_of_singleton Hb. rewrite (attempt_at _ _ _ _ Hwf Ha Ht) in Hb. by simplify_eq.
Qed.

(** The attempt with its reservation. *)
Lemma insert_both_evolves t q g digest r s s1 s' u v :
  cloud_wf s → job_of t q.(nd_job_id) s = Some r → r.(jr_life).(final_at) = None → (0 < g)%Z →
  insert_attempt (new_attempt c t q g digest) s = Ok (s1, u) →
  insert_reservation (new_reservation c t q g digest) s1 = Ok (s', v) → evolves s s'.
Proof.
  intros Hwf [Hr Ht]%job_of_Some Hf Hg Ha Hs. unfold insert_attempt, insert_reservation in *. tx Ha. tx Hs.
  apply negb_true_iff in Hx, Hx1. unfold attempt_conflict, reservation_conflict in *.
  rewrite exists_row_false in Hx. rewrite exists_row_false in Hx1. apply rtc_once, s_deliveries; [|done..].
  apply (d_begin _ _ _ _ _ r); [done..|]. split; try done; simpl in *.
  - apply eq_None_not_Some. intros [a Ha]. specialize (Hx _ _ Ha). by rewrite bool_decide_true in Hx.
  - intros k b Hb Hbt Hbj. specialize (Hx _ _ Hb). apply orb_false_iff in Hx as [_ Hx].
    rewrite !bool_decide_true in Hx by done. simpl in Hx. apply orb_false_iff in Hx as [H1 H2].
    by rewrite bool_decide_eq_false in H1, H2.
  - apply eq_None_not_Some. intros [a Ha]. specialize (Hx1 _ _ Ha). by rewrite bool_decide_true in Hx1.
  - intros k y Hxs Hact [Hxt Hc]. specialize (Hx1 _ _ Hxs). apply orb_false_iff in Hx1 as [_ Hx1]. simpl in *.
    rewrite (bool_decide_true (_ = t)), (bool_decide_true (_ = Active)) in Hx1 by done. simpl in Hx1.
    rewrite !orb_false_iff, !bool_decide_eq_false in Hx1. naive_solver.
  - intros k y Hxs Hxt Heq. specialize (Hx1 _ _ Hxs). apply orb_false_iff in Hx1 as [_ Hx1].
    by rewrite !bool_decide_true in Hx1 by done.
Qed.

Lemma reserve_delivery_evolves t q token r s s' a :
  cloud_wf s → s.(jobs) !! q.(nd_job_id) = Some r → r.(jr_life).(final_at) = None →
  reserve_delivery c t q token s = Ok (s', a) → evolves s s'.
Proof.
  intros Hwf Hr Hf Hm. unfold reserve_delivery in Hm. tx Hm.
  assert (evolves s s0 ∧ jview s0 = jview s) as [He0 [= Ej0 _ _ _]].
  { txs Hx; [by split; [apply rtc_refl|]|]. apply supersede_evolves; [done|]. apply leased_ids; [done|].
    intros k b [_ [[[[Ht _]%andb_true_iff Hs]%andb_true_iff _]%andb_true_iff _]%andb_true_iff]%elem_of_select_rows.
    by rewrite bool_decide_eq_true in Ht, Hs. }
  pose proof (store_evolves_wf _ _ Hwf He0) as Hwf0.
  destruct (retire_own_evolves _ _ _ _ _ Hwf0 Hx2) as [He1 Hj1]. injection Hj1 as Ej _ _ _.
  pose proof (store_evolves_wf _ _ Hwf0 He1) as Hwf1.
  etrans; [done|]. etrans; [done|]. eapply (insert_both_evolves _ _ _ _ x0); [done| | | |done|done].
  - unfold job_of in *. by rewrite Ej.
  - apply job_of_Some in Hx0 as [Hx0 _]. rewrite Ej0 in Hx0. by simplify_eq.
  - destruct (latest_attempt _ _ s1) as [b|] eqn:Hl; simpl; [|lia].
    apply latest_attempt_Some in Hl as (k & Hb & _). destruct (dw_attempt _ _ (cw_deliveries _ Hwf1) _ _ Hb). lia.
Qed.

Lemma begin_sound t q token : sound (begin_delivery_attempt c t q token).
Proof.
  intros s s' a Hwf Hm. unfold begin_delivery_attempt in Hm. tx Hm.
  apply check_delivery_evolves in Hx as (He & _ & _ & _ & r & Hr & Hf). etrans; [done|].
  eapply reserve_delivery_evolves; [by eapply store_evolves_wf|done..].
Qed.
Lemma begin_read_committed_sound seen t q token : sound (begin_read_committed c seen t q token).
Proof.
  intros s s' a Hwf Hm. unfold begin_read_committed in Hm. tx Hm.
  apply check_against_evolves in Hx as (He & _ & _ & _ & r & Hr & Hf). etrans; [done|].
  eapply reserve_delivery_evolves; [by eapply store_evolves_wf|done..].
Qed.

Lemma bind_agree {A B} (m : Tx A) (f g : A → Tx B) s :
  (∀ s' a, m s = Ok (s', a) → f a s' = g a s') → (m ≫= f) s = (m ≫= g) s.
Proof. intros Hfg. unfold mbind, tx_bind. destruct (m s) as [[s' a]|e] eqn:Hm; [by apply Hfg|done]. Qed.

(** Read in the state in which the attempt is recorded, the fence is that of the one
    transaction. *)
Lemma begin_at_once t q token s : begin_delivery_attempt c t q token s = begin_read_committed c s t q token s.
Proof.
  unfold begin_delivery_attempt, begin_read_committed, check_delivery.
  enough (E : check_against c (unresolved t q.(nd_destination_id)) t q s
    = check_against c (λ _, unresolved t q.(nd_destination_id) s) t q s) by (unfold mbind, tx_bind; by rewrite E).
  unfold check_against. do 7 (apply bind_agree; intros ? ? Hx; tx Hx; try clear Hx).
  apply bind_agree. intros s' u Hx.
  assert (E : unresolved t q.(nd_destination_id) s' = unresolved t q.(nd_destination_id) s) by (txs Hx; subst; reflexivity).
  unfold mbind, tx_bind, query. by rewrite E.
Qed.

Lemma final_time_iff next now : is_Some (final_time next now) ↔ Attempt.is_final next = true.
Proof. unfold final_time. destruct (Attempt.is_final next); [done|]. split; [by intros []|done]. Qed.

(** The states whose attempt still holds its reservation. *)
Lemma valid_renewable f t : Attempt.valid_attempt_transition f t = true →
  Attempt.is_final t || bool_decide (t = Attempt.AcceptedBySpooler) = false →
  Attempt.renewable t = Attempt.renewable f.
Proof. by destruct f, t. Qed.
Lemma released_renewable t :
  Attempt.is_final t || bool_decide (t = Attempt.AcceptedBySpooler) = true → Attempt.renewable t = false.
Proof. by destruct t. Qed.

Lemma transition_sound t attempt g token next : sound (transition_delivery_attempt c t attempt g token next).
Proof.
  intros s s' a Hwf Hm. unfold transition_delivery_attempt in Hm. tx Hm.
  apply andb_true_iff in Hx1 as [_ Hv].
  set (f := λ a, mark_times next c.(utc_now) (set_attempt next (final_time next c.(utc_now)) a)) in *.
  assert (Hmove : attempt_moves x0 (f x0)).
  { apply attempt_advances; [done|by apply valid_progress|apply final_time_iff]. }
  assert (He : evolves s s0).
  { txs Hx2; apply rtc_once, s_deliveries; try done.
    - eapply (release_step _ _ (cw_deliveries _ Hwf) _ _ x0 f (released_state next)); [done..| |by destruct next].
      by apply released_renewable.
    - apply (advance_step _ _ (cw_deliveries _ Hwf) _ _ x0 f); [done..|]. by apply valid_renewable. }
  etrans; [done|]. txs Hx3; [by apply quiet_evolves|apply rtc_refl].
Qed.

Lemma report_sound t a0 next s s' a :
  cloud_wf s → s.(delivery_attempts) !! (t, a0.(at_id)) = Some a0 →
  Attempt.valid_attempt_transition a0.(at_state) next = true → post_spooler a0.(at_state) = true →
  report_attempt c t a0 next s = Ok (s', a) → evolves s s'.
Proof.
  intros Hwf Ha Hv Hp Hm. unfold report_attempt in Hm. tx Hm.
  assert (Hn : Attempt.renewable next = false) by (destruct (at_state a0); try done; by destruct next).
  match type of Hx with _ ?s1 = _ => assert (He : evolves s s1) end.
  { apply rtc_once, s_deliveries; [|done..].
    eapply (release_step _ _ (cw_deliveries _ Hwf) _ _ a0); [done| |done|done].
    apply attempt_advances; [done|by apply valid_progress|apply final_time_iff]. }
  etrans; [exact He|]. txs Hx; [by apply quiet_evolves|apply rtc_refl].
Qed.

Lemma post_spooler_sound t id agent route next : sound (transition_post_spooler_attempt c t id agent route next).
Proof.
  intros s s' a Hwf Hm. unfold transition_post_spooler_attempt in Hm. tx Hm.
  apply latest_attempt_Some in Hx0 as (k & Ha & Ht & _). apply andb_true_iff in Hx1 as [Hv Hp].
  eapply report_sound, Hm; [done|by eapply attempt_at|done..].
Qed.

Lemma mark_uncertain_sound t id : sound (mark_post_spooler_attempt_uncertain c t id).
Proof.
  intros s s' a Hwf Hm. unfold mark_post_spooler_attempt_uncertain in Hm. tx Hm.
  apply latest_attempt_Some in Hx as (k & Ha & Ht & _).
  eapply report_sound, Hm; [done|by eapply attempt_at| |done]. by destruct (at_state x).
Qed.

Lemma renew_attempt_sound t reservation g token until :
  sound (renew_delivery_attempt c t reservation g token until).
Proof.
  intros s s' a Hwf Hm. unfold renew_delivery_attempt in Hm. tx Hm.
  apply rtc_once, s_deliveries; [|done..]. apply lease_step. apply (cw_deliveries _ Hwf).
Qed.

(** * Resolutions *)

Lemma uncertain_attempt_Some t id s a route rs :
  cloud_wf s → uncertain_attempt t id s = Some (a, route, rs) →
  s.(delivery_attempts) !! (t, a.(at_id)) = Some a ∧ a.(at_job_id) = id ∧ a.(at_state) = Attempt.DeliveryUncertain.
Proof.
  intros Hwf (b & Hb & (r & Hr & (q & Hq & [= -> -> ->])%bind_Some)%bind_Some)%bind_Some.
  apply latest_attempt_Some in Hb as (k & Ha & Ht & Hp).
  apply andb_true_iff in Hp as [[[Hj Hs]%andb_true_iff _]%andb_true_iff _].
  unfold of_job in Hj. rewrite bool_decide_eq_true in Hj, Hs. split; [by eapply attempt_at|done].
Qed.

Lemma enqueue_resolution_sound t id resolution note actor request :
  sound (enqueue_delivery_uncertainty_resolution c t id resolution note actor request).
Proof.
  intros s s' p Hwf Hm. unfold enqueue_delivery_uncertainty_resolution in Hm. txs Hm; [apply rtc_refl|].
  apply insert_command_evolves in Hx2 as (He & Hn & Hk & _ & Hd & Hp).
  assert (Ha := f_equal v_attempts Hd). simpl in Ha.
  destruct (uncertain_attempt_Some _ _ _ _ _ _ Hwf Hx) as (Hat & Hj & Hst).
  etrans; [done|]. apply rtc_once, s_queue; [|done..]. simpl.
  apply negb_true_iff in Hx3. rewrite exists_row_false in Hx3.
  eapply (q_request _ _ _ _ _ _ _ _ _ ); [by rewrite Hp|done| |by rewrite Hk, lookup_insert_eq| |].
  - intros q' p' Hq' Heq. specialize (Hx3 _ _ Hq'). simpl in *. by rewrite !bool_decide_true in Hx3.
  - unfold carries. simpl. split_and!; [done..|]. eexists. f_equal.
    unfold u64_of_i64 in Hx1. case_match; [done|]. by simplify_eq/=.
  - split. exists a. rewrite Ha. by simpl.
Qed.

Lemma available_quiet t d s : quiet s (available_again t d s).
Proof. unfold available_again. by case_match. Qed.

Lemma finalize_sound i t request : sound (finalize_delivery_uncertainty_resolution c i t request).
Proof.
  intros s s' a Hwf Hm. unfold finalize_delivery_uncertainty_resolution in Hm. txs Hm; try apply rtc_refl.
  etrans; [|apply row_evolves; intros r _; simpl; destruct (decide (r.(jr_tenant) = t)); by apply row_kept].
  etrans; [|apply quiet_evolves, available_quiet].
  apply bind_Some in Hx0 as (k & Hk & Hc). destruct (decide (_ ∧ _)); [|done]. injection Hc as <-.
  apply negb_true_iff in Hx1. rewrite exists_row_false in Hx1.
  apply rtc_once, s_queue; [|done..]. unfold qview. simpl. rewrite (alter_Some _ _ _ _ Hx).
  eapply q_resolve; try done; [|by apply not_eq_None_Some].
  apply eq_None_not_Some. intros [r Hr]. specialize (Hx1 _ _ Hr). simpl in Hx1.
  by rewrite !bool_decide_true in Hx1.
Qed.

Lemma recompute_sound t d : sound (recompute_destination_attention t d).
Proof.
  apply quiet_sound. intros s s' a Hm. unfold recompute_destination_attention in Hm. by tx Hm.
Qed.

(** * Rerouting and identity *)

Lemma reroute_sound t id target b reason : sound (reroute_job_before_acceptance c t id target b reason).
Proof.
  intros s s' a Hwf Hm. unfold reroute_job_before_acceptance in Hm. txs Hm; try apply rtc_refl.
  unfold move_job in Hm. txs Hm; [apply rtc_refl|]. subst.
  apply job_of_Some in Hx0 as [Hr Ht]. apply row_evolves. intros r' Hr'. simplify_eq.
  apply negb_false_iff in Heqb2. unfold reroutable in Heqb2.
  destruct (job_of _ id s) as [y|] eqn:Hj; [|done]. apply andb_true_iff in Heqb2 as [_ Hacc%negb_true_iff].
  rewrite (not_accepted_free _ _ _ Hwf Hr Hacc). by apply row_kept.
Qed.

(** The checks of a rerouting read the store and leave it alone. *)
Section destination.
Context `{MediaJson}.
Lemma retarget_same t q target route printer j : preserves eq (retarget c t q target route printer j).
Proof. unfold retarget, check_media, check_design, numbered_binding, current_stock. preserve fail. Qed.
Lemma reticket_same t q route printer j : preserves eq (reticket c t q route printer j).
Proof. unfold reticket. preserve fail. Qed.
Lemma check_envelope_same t id route j : preserves eq (check_envelope t id route j).
Proof. unfold check_envelope. preserve fail. Qed.

Lemma place_job_evolves t q route m r s s' a :
  cloud_wf s → job_of t q.(dr_job_id) s = Some r →
  place_job c t q route (routed_job q route.(rt_printer_id) m (job_from_row r)) s = Ok (s', a) → evolves s s'.
Proof.
  intros Hwf [Hr Ht]%job_of_Some Hm. unfold place_job in Hm. txs Hm; [apply rtc_refl|]. subst.
  apply row_evolves. intros r' Hr'. simplify_eq. apply negb_false_iff in Heqb. unfold reroutable in Heqb.
  destruct (job_of _ _ s) as [y|] eqn:Hj; [|done]. apply andb_true_iff in Heqb as [_ Hacc%negb_true_iff].
  rewrite (not_accepted_free _ _ _ Hwf Hr Hacc). by apply row_kept.
Qed.
Lemma reroute_destination_sound t q : sound (reroute_job_to_destination_route_before_acceptance c t q).
Proof.
  intros s s' a Hwf Hm. unfold reroute_job_to_destination_route_before_acceptance in Hm. txs Hm; try apply rtc_refl.
  assert (s = s0) as <- by (destruct q.(dr_target_id); [by eapply retarget_same|by eapply reticket_same]).
  apply check_envelope_same in Hx7 as <-. by eapply place_job_evolves.
Qed.
End destination.

Lemma follow_routes_evolves t routes s : evolves s (follow_routes t routes s).
Proof.
  unfold follow_routes. set (s1 := on_target_bindings _ _).
  etrans; [by apply (quiet_evolves s s1)|].
  apply rtc_once, s_jobs; [|done..]. unfold jview. simpl. apply j_rows. intros id. rewrite lookup_update_where.
  destruct (jobs s !! id); simpl; [|done]. by case_match; apply row_kept.
Qed.

Lemma snapshot_Ok {A B} (f : A → Tx B) l s s' bs :
  (∀ a s s' b, f a s = Ok (s', b) → s' = s) → for_each f l s = Ok (s', bs) → s' = s.
Proof.
  intros Hf. revert s s' bs. induction l as [|a l IH]; intros s s' bs Hm; simpl in Hm; tx Hm; [done|].
  apply Hf in Hx as ->. by eapply IH.
Qed.

Lemma insert_decision_quiet t d row routes s s' u : insert_decision_row t d row routes s = Ok (s', u) → quiet s s'.
Proof. unfold insert_decision_row. intros Hm. by tx Hm. Qed.

Lemma retire_empty_quiet t ds s : quiet s (retire_empty c t ds s).
Proof. done. Qed.

Lemma move_routes_evolves t d routes s s' u : move_routes c t d routes s = Ok (s', u) → evolves s s'.
Proof.
  intros Hm. unfold move_routes in Hm. tx Hm.
  assert (Hq : quiet s s0) by by txs Hx2.
  etrans; [by apply quiet_evolves|]. etrans; [apply follow_routes_evolves|].
  txs Hm; [apply quiet_evolves, retire_empty_quiet|apply rtc_refl].
Qed.

Lemma record_decision_sound t d : sound (record_identity_decision c t d).
Proof.
  intros s s' a Hwf Hm. unfold record_identity_decision in Hm. tx Hm.
  apply snapshot_Ok in Hx0 as ->; [|intros ? ? ? ? Hs; unfold snapshot_destination in Hs; by tx Hs].
  apply snapshot_Ok in Hx1 as ->; [|intros ? ? ? ? Hs; unfold snapshot_route in Hs; by tx Hs].
  etrans; [|by eapply quiet_evolves, insert_decision_quiet].
  txs Hx3; first [by eapply move_routes_evolves|by apply quiet_evolves].
Qed.

Lemma reverse_decision_sound t d : sound (reverse_identity_decision t d).
Proof.
  intros s s' a Hwf Hm. unfold reverse_identity_decision in Hm. tx Hm.
  etrans; [|by eapply quiet_evolves, insert_decision_quiet]. etrans; [|apply follow_routes_evolves].
  apply quiet_evolves. etrans; [|eapply for_each_quiet; [|exact Hx3]].
  - etrans; [|eapply for_each_quiet; [|exact Hx2]]; [done|]. intros x6 s2 s3 u Hu. by tx Hu.
  - intros [route [dest role]] s2 s3 u Hu. unfold restore_route in Hu. by tx Hu.
Qed.
End steps.
