(* ===== verification/CloudMachine.v ===== *)
(** The control plane's store as it runs: one transaction after the other commits, and
    other operations change nodes, printers and routes in between. *)

From S2P Require Import Prelude Domain CloudStore CloudWake CloudJobs CloudAccept CloudRevoke CloudRouting CloudTopology CloudReroute CloudFacts CloudDeliveries CloudQueue CloudSystem CloudSteps CloudNodeSteps CloudRouteSteps.

(** * Transactions *)

Section machine.
Context `{CloudExternal}.

(** A transaction with its clock; a job is created in a state it can leave. *)
Inductive committed : ∀ A, Tx A → Prop :=
| t_create c j agent key bytes enforce : is_terminal j.(j_state) = false →
    committed _ (create_cloud_job c j agent key bytes enforce)
| t_append c t e : committed _ (append_event c t e)
| t_agent_event c t agent e : committed _ (apply_agent_event c t agent e)
| t_cancel c t id k : committed _ (request_job_cancellation c t id k)
| t_retire_cancel c t agent id : committed _ (retire_terminal_absent_local_cancellation c t agent id)
| t_claim c locked lease t agent owner limit : committed _ (claim_jobs c locked lease t agent owner limit)
| t_renew c id owner : committed _ (renew_lease c id owner)
| t_renew_agent c t agent id lease token : committed _ (renew_agent_lease c t agent id lease token)
| t_renew_with c t agent id lease token p :
    committed _ (renew_agent_lease_with_delivery_attempt c t agent id lease token p)
| t_release c t agent id lease token : committed _ (release_agent_lease c t agent id lease token)
| t_validate c t agent id lease token : committed _ (validate_agent_lease c t agent id lease token)
| t_block c t agent id lease token : committed _ (block_agent_lease_for_node_update c t agent id lease token)
| t_fail c t agent id lease token reason message :
    committed _ (fail_agent_lease_before_handoff c t agent id lease token reason message)
| t_list c locked t agent limit : committed _ (list_node_update_required_jobs c locked t agent limit)
| t_recover c t agent id : committed _ (recover_node_update_required_job c t agent id)
| t_expire c locked limit : committed _ (expire_jobs_before_handoff c locked limit)
| t_stuck c locked threshold limit : committed _ (claim_stuck_uncertain_jobs c locked threshold limit)
| t_wake c t id : committed _ (ensure_waiting_job_wake_hints c t id)
| t_claim_wake c locked limit : committed _ (claim_wake_hint_dispatches c locked limit)
| t_complete_wake c id : committed _ (complete_wake_hint_dispatch c id)
| t_retry_wake c id delay : committed _ (retry_wake_hint_dispatch c id delay)
| t_observe locked t agent at_ limit : committed _ (observe_pending_node_wake_hints locked t agent at_ limit)
| t_publish key t event j : committed _ (enqueue_webhook_event_in_transaction key t event j)
| t_accept c t agent id lease token sha n proof :
    committed _ (accept_agent_job_transactional c t agent id lease token sha n proof)
| t_reconcile t agent id lease token sha n p : committed _ (reconcile_agent_acceptance t agent id lease token sha n p)
| t_abandon c t agent id lease token sha n p : committed _ (abandon_agent_acceptance c t agent id lease token sha n p)
| t_command t agent k : committed _ (enqueue_agent_command t agent k)
| t_sync c t agent ack limit : committed _ (sync_agent_commands c t agent ack limit)
| t_revoke_connector c t agent k : committed _ (revoke_node_connector c t agent k)
| t_revoke c t agent : committed _ (revoke_agent_transaction c t agent)
| t_begin c t q token : committed _ (begin_delivery_attempt c t q token)
| t_begin_read_committed c seen t q token : committed _ (begin_read_committed c seen t q token)
| t_transition c t attempt g token next : committed _ (transition_delivery_attempt c t attempt g token next)
| t_report c t id agent route next : committed _ (transition_post_spooler_attempt c t id agent route next)
| t_mark c t id : committed _ (mark_post_spooler_attempt_uncertain c t id)
| t_renew_attempt c t reservation g token until : committed _ (renew_delivery_attempt c t reservation g token until)
| t_resolve c t id resolution note actor request :
    committed _ (enqueue_delivery_uncertainty_resolution c t id resolution note actor request)
| t_finalize c i t request : committed _ (finalize_delivery_uncertainty_resolution c i t request)
| t_recompute t d : committed _ (recompute_destination_attention t d)
| t_reroute c t id target b reason : committed _ (reroute_job_before_acceptance c t id target b reason)
| t_reroute_destination `{MediaJson} c t q : committed _ (reroute_job_to_destination_route_before_acceptance c t q)
| t_decide c t d : committed _ (record_identity_decision c t d)
| t_reverse t d : committed _ (reverse_identity_decision t d).

Inductive cloud_step (s : Store) : Store → Prop :=
| step_commit A (m : Tx A) s' a : committed A m → m s = Ok (s', a) → cloud_step s s'
| step_topology T : cloud_step s (on_topology (λ _, T) s).

(** Empty tables. *)
Definition empty_store (T : Topology) : Store :=
  {| topology := T; jobs := ∅; job_events := ∅; job_acceptances := ∅; delivery_attempts := ∅;
     route_reservations := ∅; agent_commands := ∅; next_cursor := 1; pending_resolutions := ∅;
     resolutions := ∅; agent_event_receipts := ∅; recovery_checks := ∅; webhook_events := ∅;
     usage_ledger := ∅; entitlements := ∅; idempotency_requests := ∅; consumed_envelopes := ∅;
     key_references := ∅; wake_hints := ∅; wake_outbox := ∅; wake_reconciliations := ∅ |}.

Definition runs : Store → Store → Prop := rtc cloud_step.
Definition reachable (s : Store) : Prop := ∃ T, runs (empty_store T) s.

Lemma committed_sound A (m : Tx A) : committed A m → sound m.
Proof.
  intros []; eauto using create_sound, append_event_sound, apply_agent_event_sound, request_cancellation_sound,
    retire_cancellation_sound, claim_jobs_sound, renew_lease_sound, renew_agent_lease_sound, renew_with_attempt_sound,
    release_lease_sound, validate_lease_sound, block_sound, fail_sound, list_update_required_sound, recover_sound,
    expire_sound, stuck_sound, ensure_wake_hints_sound, claim_wake_sound, complete_wake_sound, retry_wake_sound,
    observe_hints_sound, publish_sound.
  all: eauto using accept_sound, reconcile_sound, abandon_sound, enqueue_command_sound, sync_sound,
    revoke_connector_sound, revoke_agent_sound, begin_sound, begin_read_committed_sound, transition_sound, post_spooler_sound,
    mark_uncertain_sound, renew_attempt_sound, enqueue_resolution_sound, finalize_sound, recompute_sound,
    reroute_sound, reroute_destination_sound, record_decision_sound, reverse_decision_sound.
Qed.

Lemma step_evolves s s' : cloud_wf s → cloud_step s s' → evolves s s'.
Proof.
  intros Hwf [A m s1 a Hc Hm|T].
  - by apply (committed_sound _ _ Hc _ _ a).
  - by apply quiet_evolves.
Qed.

Lemma runs_evolves s s' : cloud_wf s → runs s s' → evolves s s' ∧ cloud_wf s'.
Proof.
  intros Hwf Hr. induction Hr as [s|s s1 s' Hs _ IH]; [by split; [apply rtc_refl|]|].
  pose proof (step_evolves _ _ Hwf Hs) as He. destruct (IH (store_evolves_wf _ _ Hwf He)) as [He' ?].
  split; [by etrans|done].
Qed.

Lemma empty_wf T : cloud_wf (empty_store T).
Proof.
  split; split; simpl; intros; repeat match goal with Hl : ∅ !! _ = Some _ |- _ => by rewrite lookup_empty in Hl end.
Qed.

Lemma reachable_wf s : reachable s → cloud_wf s.
Proof. intros [T Hr]. by apply (runs_evolves _ _ (empty_wf T)) in Hr as [_ ?]. Qed.

(** Operations of several transactions. *)
Lemma op_bind_runs {A B} (m : Op A) (f : A → Op B) s :
  (∀ s, runs s (m s).1) → (∀ a s, runs s (f a s).1) → runs s ((m ≫= f) s).1.
Proof.
  intros Hm Hf. specialize (Hm s). unfold mbind, op_bind. destruct (m s) as [s1 [a|e]]; simpl in *; [|done].
  etrans; [exact Hm|apply Hf].
Qed.

Lemma transaction_runs {A} (m : Tx A) s : (∀ s' a, m s = Ok (s', a) → runs s s') → runs s (transaction m s).1.
Proof. intros Hm. unfold transaction. destruct (m s) as [[s1 a]|e] eqn:E; [by eapply Hm|apply rtc_refl]. Qed.

Lemma committed_runs {A} (m : Tx A) s : committed A m → runs s (transaction m s).1.
Proof. intros Hc. apply transaction_runs. intros s' a Hm. apply rtc_once. by eapply step_commit. Qed.

Lemma query_runs {A} (f : Store → A) s : runs s (transaction (query f) s).1.
Proof. apply rtc_refl. Qed.

Lemma revoke_agent_runs c t agent s : runs s (revoke_agent c t agent s).1.
Proof.
  unfold revoke_agent. apply op_bind_runs; [intros; apply query_runs|]. intros ks s1. apply op_bind_runs.
  - intros s2. revert s2. induction ks as [|k ks IH]; intros s2; [apply rtc_refl|]. simpl.
    apply op_bind_runs; [intros; apply committed_runs, t_revoke_connector|]. intros ended s3.
    apply op_bind_runs; [done|]. intros. apply rtc_refl.
  - intros before s2. apply op_bind_runs; [intros; apply committed_runs, t_revoke|]. intros. apply rtc_refl.
Qed.

Lemma finalize_acknowledged_runs c new_id t agent limit s :
  runs s (finalize_acknowledged_uncertainty_resolutions c new_id t agent limit s).1.
Proof.
  unfold finalize_acknowledged_uncertainty_resolutions. apply op_bind_runs; [intros; apply query_runs|].
  intros qs s1. apply op_bind_runs.
  - intros s2. generalize (fst <$> qs). intros l. revert s2. induction l as [|k l IH]; intros s2; [apply rtc_refl|]. simpl.
    apply op_bind_runs; [intros; apply committed_runs, t_finalize|]. intros r s3.
    apply op_bind_runs; [done|]. intros. apply rtc_refl.
  - intros rs s2. apply op_bind_runs; [intros; apply query_runs|]. intros. apply rtc_refl.
Qed.
End machine.
