(* ===== verification/CloudKept.v ===== *)
(** What the elementary changes of the control plane's store never undo: acceptances,
    usage, the end of a job, the course of an attempt, and what is written once. *)

From S2P Require Import Prelude Domain CloudStore CloudFacts CloudDeliveries CloudQueue CloudSystem.

(** * What evolves keeps *)

Lemma filled_trans {A} (x y z : option A) : filled x y → filled y z → filled x z.
Proof. unfold filled. naive_solver. Qed.

Lemma same_acceptance_trans a b d : same_acceptance a b → same_acceptance b d → same_acceptance a d.
Proof. intros [] []. split; [congruence..| | |]; by eapply filled_trans. Qed.
Lemma same_acceptance_refl a : same_acceptance a a.
Proof. split; unfold filled; auto. Qed.

(** A preorder on a group of tables that its elementary changes follow. *)
Lemma evolves_jview (R : JView → JView → Prop) `{!PreOrder R} s s' :
  (∀ v v', jstep v v' → R v v') → evolves s s' → R (jview s) (jview s').
Proof.
  intros HR He. induction He as [s|s s1 s' Hs _ IH]; [done|]. etrans; [|exact IH].
  destruct Hs as [Hj _ _ _|_ Ej _ _|_ Ej _ _|Ej _ _ _]; [auto|by rewrite Ej..].
Qed.

Lemma evolves_dview (R : DView → DView → Prop) `{!PreOrder R} s s' :
  (∀ js v v', dstep js v v' → R v v') → evolves s s' → R (dview s) (dview s').
Proof.
  intros HR He. induction He as [s|s s1 s' Hs _ IH]; [done|]. etrans; [|exact IH].
  destruct Hs as [_ Ed _ _|Hd _ _ _|_ _ Ed _|_ Ed _ _]; [by rewrite Ed|by eapply HR|by rewrite Ed..].
Qed.

(** ** Acceptances and usage *)

Definition acceptances_kept (v v' : JView) : Prop :=
  ∀ id a, v.(v_acceptances) !! id = Some a → ∃ a', v'.(v_acceptances) !! id = Some a' ∧ same_acceptance a a'.
#[export] Instance acceptances_kept_preorder : PreOrder acceptances_kept.
Proof.
  split; [intros v id a Ha; eauto using same_acceptance_refl|].
  intros v1 v2 v3 H1 H2 id a (b & Hb & ?)%H1. apply H2 in Hb as (d & Hd & ?). eauto using same_acceptance_trans.
Qed.

Lemma jstep_acceptances v v' : jstep v v' → acceptances_kept v v'.
Proof.
  intros Hs id a Ha. destruct Hs as [| | |js es ac us i r b _ Hn|js es ac us i b b' Hb Hsame|]; simpl in *;
    eauto using same_acceptance_refl.
  - exists a. rewrite lookup_insert_ne by congruence. eauto using same_acceptance_refl.
  - destruct (decide (i = id)) as [->|]; [|rewrite lookup_insert_ne by done; eauto using same_acceptance_refl].
    rewrite lookup_insert_eq. simplify_eq. eauto.
Qed.

Definition usage_kept (v v' : JView) : Prop := v.(v_usage) ⊆ v'.(v_usage).
#[export] Instance usage_kept_preorder : PreOrder usage_kept.
Proof. split; [by intros v; unfold usage_kept|]. intros v1 v2 v3. unfold usage_kept. by etrans. Qed.

Lemma jstep_usage v v' : jstep v v' → usage_kept v v'.
Proof. unfold usage_kept. intros Hs. destruct Hs; simpl in *; try done. by apply insert_subseteq. Qed.

Definition jobs_kept (v v' : JView) : Prop := ∀ id r, v.(v_jobs) !! id = Some r →
  ∃ r', v'.(v_jobs) !! id = Some r' ∧ r'.(jr_tenant) = r.(jr_tenant).
#[export] Instance jobs_kept_preorder : PreOrder jobs_kept.
Proof.
  split; [intros v id r Hr; by exists r|].
  intros v1 v2 v3 H1 H2 id r (r1 & Hr1 & <-)%H1. by apply H2.
Qed.

(** ** Jobs that ended *)

Record ended (v : JView) (id : string) (r : JobRow) : Prop := {
  en_row : v.(v_jobs) !! id = Some r;
  en_state : is_terminal r.(jr_life).(state) = true
}.
Record stays_ended (v v' : JView) (id : string) (r r' : JobRow) : Prop := {
  se_ended : ended v' id r';
  se_life : r'.(jr_life) = r.(jr_life);
  se_events n : v'.(v_events) !! (id, n) = v.(v_events) !! (id, n);
  se_free : v.(v_acceptances) !! id = None → v'.(v_acceptances) !! id = None
}.
Definition ended_kept (v v' : JView) : Prop :=
  ∀ id r, ended v id r → ∃ r', stays_ended v v' id r r'.
#[export] Instance ended_kept_preorder : PreOrder ended_kept.
Proof.
  split; [intros v id r Hr; by exists r|].
  intros v1 v2 v3 H1 H2 id r (r1 & [He1 El1 Ev1 Ea1])%H1. apply H2 in He1 as (r2 & [He2 El2 Ev2 Ea2]).
  exists r2. split; [done|congruence| |auto]. intros n. by rewrite Ev2.
Qed.

Lemma jstep_ended v v' : jstep v v' → ended_kept v v'.
Proof.
  intros Hs id r [Hr Ht].
  destruct Hs as [js es ac us i x e Hn Hreg|js es ac us i x x' e Hx Hl|js js' es ac us Hch|js es ac us i x b Hx Hn _ _ Hst|
    js es ac us i b b' Hb Hsa|js es ac us i x at_ Hx Hn Hst]; simpl in *.
  - assert (i ≠ id) by congruence. exists r. split; [|done| |done].
    + split; [|done]. simpl. by rewrite lookup_insert_ne.
    + intros n. simpl. rewrite lookup_insert_ne; congruence.
  - assert (i ≠ id). { intros ->. simplify_eq. by rewrite (lg_open _ _ _ _ _ Hl) in Ht. }
    exists r. split; [|done| |done].
    + split; [|done]. simpl. by rewrite lookup_insert_ne.
    + intros n. simpl. rewrite lookup_insert_ne; congruence.
  - specialize (Hch id). rewrite Hr in Hch. destruct (js' !! id) as [r'|] eqn:Hr'; simpl in Hch; [|done].
    assert (El := row_change_terminal _ _ _ Hch (or_introl Ht)).
    exists r'. split; [|done..]. split; [done|by rewrite El].
  - exists r. split; [by split|done..|]. simpl. intros Hnone.
    rewrite lookup_insert_ne; [done|]. intros ->. simplify_eq. by rewrite Hst in Ht.
  - exists r. split; [by split|done..|]. simpl. intros Hnone. rewrite lookup_insert_ne; [done|]. congruence.
  - exists r. by split.
Qed.

(** ** Attempts *)

Lemma same_attempt_refl a : same_attempt a a.
Proof. done. Qed.

Definition attempts_kept (v v' : DView) : Prop := ∀ k a, v.(v_attempts) !! k = Some a →
  ∃ a', v'.(v_attempts) !! k = Some a' ∧ same_attempt a a' ∧
    (a'.(at_state) = a.(at_state) ∨ progress a.(at_state) < progress a'.(at_state)).
#[export] Instance attempts_kept_preorder : PreOrder attempts_kept.
Proof.
  split; [intros v k a Ha; exists a; auto using same_attempt_refl|].
  intros v1 v2 v3 H1 H2 k a (b & Hb & Hs & Hp)%H1. apply H2 in Hb as (d & Hd & Hs' & Hp').
  exists d. split_and!; [done|destruct Hs, Hs'; split; congruence|].
  destruct Hp as [Hp|Hp], Hp' as [Hp'|Hp']; [left; congruence|right; congruence|right; congruence|right; lia].
Qed.

Lemma dstep_attempts js v v' : dstep js v v' → attempts_kept v v'.
Proof.
  intros Hs k a Ha. destruct Hs as [ats rss b r row _ _ _ []|ats ats' rss rss' Hall _ _]; simpl in *.
  - exists a. rewrite lookup_insert_ne by congruence. auto using same_attempt_refl.
  - apply (all_rows_to _ _ _ Hall) in Ha as (a' & Ha' & Hm). exists a'. split; [done|].
    destruct Hm; auto.
Qed.

(** A job that ended starts no attempt. *)
Definition undelivered (s : Store) (id : string) : Prop :=
  ∀ k a, s.(delivery_attempts) !! k = Some a → a.(at_job_id) = id → Attempt.is_final a.(at_state) = true.

Lemma dstep_undelivered js d d' id r :
  (∀ k a, d.(v_attempts) !! k = Some a → a.(at_job_id) = id → Attempt.is_final a.(at_state) = true) →
  js !! id = Some r → r.(jr_life).(final_at) ≠ None → dstep js d d' →
  ∀ k a, d'.(v_attempts) !! k = Some a → a.(at_job_id) = id → Attempt.is_final a.(at_state) = true.
Proof.
  intros Hfin Hr Hf Hs k a. destruct Hs as [ats rss b q row Hrow _ Hopen _|ats ats' rss rss' Hall _ _]; simpl in *.
  - intros [[_ <-]|[_ Ha]]%lookup_insert_Some Hj; [|eauto]. by simplify_eq.
  - intros (b & Hb & Hm)%(all_rows_from _ _ _ Hall) Hj. destruct Hm as [Hsame Hst _|Hsame Hp _].
    + rewrite Hst. eapply Hfin; [done|]. destruct Hsame. congruence.
    + assert (Hbf : Attempt.is_final b.(at_state) = true) by (eapply Hfin; [done|]; destruct Hsame; congruence).
      apply final_progress in Hbf. pose proof (progress_bound a.(at_state)). lia.
Qed.

Lemma evolves_undelivered s s' id r :
  cloud_wf s → evolves s s' → ended (jview s) id r → undelivered s id → undelivered s' id.
Proof.
  intros Hwf He. revert r Hwf. induction He as [s|s s1 s' Hs _ IH]; intros r Hwf Hr Hu; [done|].
  assert (Hk : ended_kept (jview s) (jview s1)).
  { apply (evolves_jview _ _ _ jstep_ended). by apply rtc_once. }
  destruct (Hk _ _ Hr) as (r1 & Hr1). eapply IH; [by eapply sstep_wf|apply Hr1|].
  destruct Hr as [Hr Ht]. pose proof (row_of _ _ _ Hwf Hr) as [_ _ _ Hfin].
  destruct Hs as [_ Ed _ _|Hd _ _ _|_ _ Ed _|_ Ed _ _]; unfold undelivered.
  - by rewrite (f_equal v_attempts Ed : s1.(delivery_attempts) = _).
  - apply (dstep_undelivered s.(jobs) (dview s) (dview s1) id r Hu Hr); [|exact Hd]. by apply not_eq_None_Some, Hfin.
  - by rewrite (f_equal v_attempts Ed : s1.(delivery_attempts) = _).
  - by rewrite (f_equal v_attempts Ed : s1.(delivery_attempts) = _).
Qed.

(** ** What is written once *)
Lemma evolves_kept s s' : evolves s s' → kept s s'.
Proof.
  induction 1 as [s|s s1 s' Hs _ IH]; [done|]. etrans; [|exact IH]. by destruct Hs.
Qed.
