(* ===== verification/CloudRequests.v ===== *)
(** Where the requests to resolve an uncertain delivery come from: only the transaction that
    an operator's decision runs adds one, and it names the node that owned the route of the
    attempt at that moment.  The other transactions are gone through statement by
    statement. *)

From S2P Require Import Prelude Domain CloudStore CloudWake CloudJobs CloudAccept CloudRevoke CloudRouting CloudTopology CloudReroute CloudFacts CloudDeliveries CloudQueue CloudSystem CloudSteps CloudNodeSteps CloudRouteSteps CloudMachine CloudKept.

(** * Requests and resolutions stay *)

Definition same_request (p p' : PendingRow) : Prop :=
  (p'.(pn_job_id), p'.(pn_attempt_id), p'.(pn_route_id), p'.(pn_agent_id), p'.(pn_command_cursor))
  = (p.(pn_job_id), p.(pn_attempt_id), p.(pn_route_id), p.(pn_agent_id), p.(pn_command_cursor)).

Record keeps_requests (s s' : Store) : Prop := {
  kr_pending k p' : s'.(pending_resolutions) !! k = Some p' →
    ∃ p, s.(pending_resolutions) !! k = Some p ∧ same_request p p';
  kr_resolutions : s.(resolutions) ⊆ s'.(resolutions)
}.
#[export] Instance keeps_requests_preorder : PreOrder keeps_requests.
Proof.
  split; [intros s; split; [intros k p Hp; by exists p|done]|]. unfold same_request. intros s1 s2 s3 [H1 R1] [H2 R2]. split; [|by etrans].
  intros k p Hp. destruct (H2 _ _ Hp) as (p2 & Hp2 & E2). destruct (H1 _ _ Hp2) as (p1 & Hp1 & E1).
  exists p1. split; [done|congruence].
Qed.
Lemma keeps_same s s' :
  s'.(pending_resolutions) = s.(pending_resolutions) → s'.(resolutions) = s.(resolutions) → keeps_requests s s'.
Proof. intros E1 E2. split; [|by rewrite E2]. rewrite E1. intros k p Hp. by exists p. Qed.

(** A transaction whose statements write neither table: its definitions are unfolded until
    a statement is left. *)
Ltac head_of t := lazymatch t with ?f _ => head_of f | _ => t end.
Ltac unfold_head := lazymatch goal with |- preserves _ ?m => let h := head_of m in unfold h end.
Ltac untouched :=
  apply preserves_execute; intros ?; apply keeps_same; cbv beta; repeat case_match; reflexivity.
Ltac requests known :=
  repeat first
    [ known
    | apply preserves_bind; [apply _| |intro]
    | apply preserves_ret; apply _ | apply preserves_query; apply _ | apply preserves_fetch; apply _
    | apply preserves_ensure; apply _ | apply preserves_pure; apply _ | apply preserves_abort
    | apply preserves_for_each; [apply _|]; intro
    | untouched | case_match | progress cbv beta zeta | unfold_head ].

Section requests.
Context `{CloudExternal}.

Lemma terminalize_keeps c fuel t agent affected : preserves keeps_requests (terminalize_loop c fuel t agent affected).
Proof. revert affected. induction fuel as [|fuel IH]; intros affected; cbn [terminalize_loop]; requests ltac:(exact (IH _)). Qed.

Lemma finalize_keeps c i t request : preserves keeps_requests (finalize_delivery_uncertainty_resolution c i t request).
Proof.
  intros s s' a Hm. unfold finalize_delivery_uncertainty_resolution in Hm. txs Hm; try reflexivity.
  apply negb_true_iff in Hx1. rewrite exists_row_false in Hx1. unfold available_again. split.
  - intros k p' Hp. assert ((alter (finalize_pending c) (t, request) s.(pending_resolutions)) !! k = Some p') as Hp'
      by (by destruct (unresolved _ _ _)).
    apply lookup_alter_Some in Hp' as [(<- & p & Hp1 & ->)|[_ Hp1]]; by eexists.
  - set (r := Build_ResolutionRow _ _ _ _ _ _ _ _).
    trans (<[(t, i) := r]> s.(resolutions)); [|by destruct (unresolved _ _ _)]. apply insert_subseteq.
    destruct (s.(resolutions) !! (t, i)) as [x'|] eqn:Hi; [|done]. specialize (Hx1 _ _ Hi). simpl in Hx1.
    by rewrite !bool_decide_true in Hx1.
Qed.

(** A request that is new: who it is for. *)
Definition requested (t : Tenant) (q : string) (p : PendingRow) (s s' : Store) : Prop :=
  s.(pending_resolutions) !! (t, q) = None ∧ s'.(pending_resolutions) !! (t, q) = Some p ∧ ∃ a route key m,
    s.(delivery_attempts) !! (t, p.(pn_attempt_id)) = Some a ∧ a.(at_state) = Attempt.DeliveryUncertain
    ∧ a.(at_job_id) = p.(pn_job_id) ∧ a.(at_route_id) = p.(pn_route_id)
    ∧ s.(topology).(printer_routes) !! (t, a.(at_route_id)) = Some route
    ∧ route.(rt_agent_id) = p.(pn_agent_id) ∧ route.(rt_local_route_key) = Some key
    ∧ s'.(agent_commands) !! p.(pn_command_cursor) = Some m ∧ m.(cm_agent_id) = route.(rt_agent_id)
    ∧ ∃ reservation generation, m.(cm_command) = ResolveAmbiguousHandoff p.(pn_job_id) key reservation generation true.

Lemma enqueue_requests c t id resolution note actor request s s' a :
  cloud_wf s → enqueue_delivery_uncertainty_resolution c t id resolution note actor request s = Ok (s', a) →
  s.(resolutions) ⊆ s'.(resolutions) ∧
  ∀ k p', s'.(pending_resolutions) !! k = Some p' →
    (∃ p, s.(pending_resolutions) !! k = Some p ∧ same_request p p')
    ∨ k = (t, request) ∧ requested t request p' s s'.
Proof.
  intros Hwf Hm. unfold enqueue_delivery_uncertainty_resolution in Hm. txs Hm.
  { split; [done|]. intros k p' Hp. left. by eexists. }
  unfold insert_command in Hx2. tx Hx2. subst. simpl in *. split; [done|]. intros k p' Hp.
  apply lookup_insert_Some in Hp as [[<- <-]|[_ Hp]]; [|left; by eexists]. right. split; [done|]. split; [done|].
  split; [simpl; apply lookup_insert_eq|].
  unfold uncertain_attempt in Hx. apply bind_Some in Hx as (b & Ha & Hx). apply bind_Some in Hx as (route & Hr & Hx).
  apply bind_Some in Hx as (rs & Hrs & Hx). injection Hx as -> -> ->.
  apply latest_attempt_Some in Ha as (k & Hk & Ht & Hp). checks.
  apply ok_or_Ok in Hx0. exists a0, r0, x0. eexists. simpl.
  rewrite (attempt_at _ _ _ _ Hwf Hk Ht). split_and!; try done.
  - unfold of_job in *. by checks.
  - by rewrite lookup_insert_eq.
  - done.
  - by eexists _, _.
Qed.

(** Every other transaction keeps them. *)
Lemma committed_keeps A (m : Tx A) : committed A m → preserves keeps_requests m ∨
  ∃ c t id resolution note actor request, ∀ s s' a, m s = Ok (s', a) →
    ∃ p, enqueue_delivery_uncertainty_resolution c t id resolution note actor request s = Ok (s', p).
Proof.
  intros [];
    lazymatch goal with
    | |- preserves _ (enqueue_delivery_uncertainty_resolution _ _ _ _ _ _ _) ∨ _ => right; eexists _, _, _, _, _, _, _; eauto
    | _ => left; requests ltac:(idtac; lazymatch goal with
        | |- preserves _ (terminalize_loop _ _ _ _ _) => apply terminalize_keeps
        | |- preserves _ (finalize_delivery_uncertainty_resolution _ _ _ _) => apply finalize_keeps
        end)
    end.
Qed.

Lemma committed_requests A (m : Tx A) s s' a :
  cloud_wf s → committed A m → m s = Ok (s', a) →
  s.(resolutions) ⊆ s'.(resolutions) ∧
  ∀ t q p', s'.(pending_resolutions) !! (t, q) = Some p' →
    (∃ p, s.(pending_resolutions) !! (t, q) = Some p ∧ same_request p p') ∨ requested t q p' s s'.
Proof.
  intros Hwf Hc Hm. destruct (committed_keeps _ _ Hc) as [Hk|(c & t & id & resolution & note & actor & request & He)].
  - destruct (Hk _ _ _ Hm) as [Hp Hr]. split; [done|]. intros t q p' Hp'. left. by apply Hp.
  - destruct (He _ _ _ Hm) as [b Hb]. apply enqueue_requests in Hb as [Hr Hp]; [|done]. split; [done|].
    intros t' q p' Hp'. destruct (Hp _ _ Hp') as [?|[[= -> ->] ?]]; [by left|by right].
Qed.
Lemma step_requests s s' :
  cloud_wf s → cloud_step s s' →
  s.(resolutions) ⊆ s'.(resolutions) ∧
  ∀ t q p', s'.(pending_resolutions) !! (t, q) = Some p' →
    (∃ p, s.(pending_resolutions) !! (t, q) = Some p ∧ same_request p p') ∨ requested t q p' s s'.
Proof.
  intros Hwf [A m s1 a Hc Hm|T]; [by eapply committed_requests|]. split; [done|]. intros t q p' Hp. left. by exists p'.
Qed.
Lemma runs_resolutions s s' : cloud_wf s → runs s s' → s.(resolutions) ⊆ s'.(resolutions).
Proof.
  intros Hwf Hr. induction Hr as [s|s s1 s' Hs _ IH]; [done|].
  destruct (step_requests _ _ Hwf Hs) as [Hres _]. etrans; [exact Hres|]. apply IH.
  by eapply store_evolves_wf, step_evolves.
Qed.
Lemma resolved_kept t i s s' : cloud_wf s → runs s s' → resolved t i s = true → resolved t i s' = true.
Proof.
  intros Hwf Hr. unfold resolved. rewrite !exists_row_true. intros (k & r & Hk & Hp). exists k, r. split; [|done].
  eapply lookup_weaken; [exact Hk|]. by apply runs_resolutions.
Qed.

(** * Histories *)

(** The states the store went through, the latest first. *)
Inductive history : list Store → Prop :=
| history_start T : history [empty_store T]
| history_step s s' l : history (s :: l) → cloud_step s s' → history (s' :: s :: l).

Lemma history_reachable s l : history (s :: l) → reachable s.
Proof.
  intros Hh. remember (s :: l) as l0 eqn:El. revert s l El.
  induction Hh as [T|s1 s2 l1 Hh IH Hs]; intros s l [= <- <-]; [by exists T; apply rtc_refl|].
  destruct (IH _ _ eq_refl) as [T Hr]. exists T. by eapply rtc_r.
Qed.
Lemma reachable_history s : reachable s → ∃ l, history (s :: l).
Proof.
  intros [T Hr]. revert s Hr. apply (rtc_ind_r (λ s, ∃ l, history (s :: l))); [exists []; constructor|].
  intros s1 s2 _ Hs [l Hl]. exists (s1 :: l). by constructor.
Qed.

Lemma history_suffix l1 s l2 : history (l1 ++ s :: l2) → history (s :: l2).
Proof.
  induction l1 as [|b l1 IH]; [done|]. simpl. intros Hh. apply IH. inversion Hh as [T E|b' s' l Hl _ E]; subst; [|done].
  by destruct l1.
Qed.

(** A request that is stored was made at a step of the history. *)
Lemma history_requested s l t q p :
  history (s :: l) → s.(pending_resolutions) !! (t, q) = Some p →
  ∃ l1 s2 s1 l2 p0, s :: l = l1 ++ s2 :: s1 :: l2 ∧ requested t q p0 s1 s2 ∧ same_request p0 p
    ∧ cloud_step s1 s2 ∧ runs s2 s.
Proof.
  intros Hh. remember (s :: l) as l0 eqn:El. revert s l p El.
  induction Hh as [T|s1 s2 l1 Hh IH Hs]; intros s l p [= <- <-] Hp; [simpl in Hp; by rewrite lookup_empty in Hp|].
  destruct (step_requests _ _ (reachable_wf _ (history_reachable _ _ Hh)) Hs) as [_ Hreq].
  destruct (Hreq _ _ _ Hp) as [(p1 & Hp1 & E1)|Hnew].
  - destruct (IH _ _ _ eq_refl Hp1) as (l2 & b & a & l3 & p0 & El & Hr & E & Hst & Hrun).
    exists (s2 :: l2), b, a, l3, p0. rewrite El. split_and!; [done|done|unfold same_request in *; congruence|done|by eapply rtc_r].
  - exists [], s2, s1, l1, p. split_and!; [done..|apply rtc_refl].
Qed.

(** A command stays what it is. *)
Lemma evolves_commands s s' n m : cloud_wf s → evolves s s' → s.(agent_commands) !! n = Some m →
  ∃ m', s'.(agent_commands) !! n = Some m' ∧ m'.(cm_agent_id) = m.(cm_agent_id) ∧ m'.(cm_command) = m.(cm_command).
Proof.
  intros Hwf He. revert m. induction He as [s|s s1 s' Hs _ IH]; intros m Hm; [eauto|].
  assert (∃ m1, s1.(agent_commands) !! n = Some m1 ∧ m1.(cm_agent_id) = m.(cm_agent_id) ∧ m1.(cm_command) = m.(cm_command))
    as (m1 & Hm1 & E1 & E2).
  { destruct Hs as [_ _ Eq _|_ _ Eq _|Hq _ _ _|_ _ Eq _].
    1,2,4: exists m; rewrite (f_equal v_commands Eq : s1.(agent_commands) = s.(agent_commands)); done.
    pose proof (qw_cursor _ _ (cw_queue _ Hwf) n m Hm) as Hn. remember (qview s) as v eqn:Ev. remember (qview s1) as v' eqn:Ev'.
    destruct Hq; injection Ev as -> -> -> ->; pose proof (f_equal v_commands Ev') as Ec; simpl in *; rewrite <- Ec.
    - rewrite lookup_insert_ne by lia. eauto.
    - apply (all_rows_to _ _ _ H0) in Hm as (m' & Hm' & []). eauto.
    - eauto.
    - eauto. }
  destruct (IH (sstep_wf _ _ Hwf Hs) _ Hm1) as (m' & Hm' & E1' & E2'). exists m'. split_and!; [done|congruence..].
Qed.

(** A resolution that the owner of the attempt's route acknowledged: the step of the history
    that recorded the request found the route, and sent the command to its node under the
    key that the node has for it. *)
Definition settled_by_owner (h : list Store) (t : Tenant) (a : AttemptRow) (s : Store) : Prop :=
  ∃ i r p m, s.(resolutions) !! (t, i) = Some r ∧ r.(rn_attempt_id) = a.(at_id)
    ∧ s.(pending_resolutions) !! (t, r.(rn_request_id)) = Some p
    ∧ s.(agent_commands) !! p.(pn_command_cursor) = Some m
    ∧ is_Some m.(cm_delivered_at) ∧ is_Some m.(cm_acknowledged_at)
    ∧ ∃ l1 s2 s1 l2 route key, h = l1 ++ s2 :: s1 :: l2
        ∧ s1.(pending_resolutions) !! (t, r.(rn_request_id)) = None
        ∧ is_Some (s2.(pending_resolutions) !! (t, r.(rn_request_id)))
        ∧ s1.(topology).(printer_routes) !! (t, a.(at_route_id)) = Some route
        ∧ m.(cm_agent_id) = route.(rt_agent_id) ∧ route.(rt_local_route_key) = Some key
        ∧ m.(cm_command) = ResolveAmbiguousHandoff a.(at_job_id) key p.(pn_reservation_id)
                             (Z.to_N a.(at_generation)) true.

Lemma resolved_settled s l t k a :
  history (s :: l) → s.(delivery_attempts) !! k = Some a → a.(at_tenant) = t → resolved t a.(at_id) s = true →
  settled_by_owner (s :: l) t a s.
Proof.
  intros Hh Ha Ht Hres. pose proof (reachable_wf _ (history_reachable _ _ Hh)) as Hwf.
  unfold resolved in Hres. rewrite exists_row_true in Hres. destruct Hres as ([t' i] & r & Hr & [E1 E2]%andb_true_iff).
  apply bool_decide_eq_true in E1, E2. simpl in E1. subst t'. destruct (cw_queue _ Hwf) as [_ Hack Hreq _ Hresn].
  destruct (Hresn _ _ _ Hr) as (p & m & Hp & _ & Epa & Hk & Hma). simpl in *.
  destruct (Hreq _ _ _ Hp) as [[(b & Hb & _ & Ej & _ & Eg)] (m' & Hm' & _ & Eag & key & Ecm)]. simplify_eq.
  rewrite Epa, E2, (attempt_at _ _ _ _ Hwf Ha eq_refl) in Hb. injection Hb as <-.
  destruct (history_requested _ _ _ _ _ Hh Hp) as (l1 & s2 & s1 & l2 & p0 & El & Hq & Esame & Hstep & Hrun).
  destruct Hq as (Hnone & Hsome & a1 & route & key1 & m1 & Ha1 & _ & _ & _ & Hroute & _ & Ekey & Hm1 & Em1 & rs & g & Ec1).
  unfold same_request in Esame. injection Esame as Ej0 Ea0 Er0 Eg0 Ecur.
  assert (Hwf1 : cloud_wf s1).
  { apply reachable_wf, (history_reachable s1 l2), (history_suffix (l1 ++ [s2])). rewrite <- (app_assoc l1 [s2]). simpl. by rewrite <- El. }
  destruct (runs_evolves _ _ Hwf1 (rtc_l _ _ _ _ Hstep Hrun)) as [He _].
  destruct (runs_evolves _ _ Hwf1 (rtc_once _ _ Hstep)) as [_ Hwf2].
  destruct (runs_evolves _ _ Hwf2 Hrun) as [He2 _].
  destruct (evolves_dview _ _ _ dstep_attempts He _ _ Ha1) as (a2 & Ha2 & Hsame & _). simpl in Ha2.
  rewrite <- Ea0, Epa, E2, (attempt_at _ _ _ _ Hwf Ha eq_refl) in Ha2. injection Ha2 as <-.
  destruct (evolves_commands _ _ _ _ Hwf2 He2 Hm1) as (m2 & Hm2 & Eag2 & Ecm2). rewrite <- Ecur in Hm2. simplify_eq.
  exists i, r, p, m. split_and!; try done.
  { destruct (Hack _ _ Hk Hma) as [?|Hc]; [done|]. by rewrite Ecm in Hc. }
  exists l1, s2, s1, l2, route, key. rewrite El, (st_route _ _ Hsame). split_and!; try done; congruence.
Qed.
End requests.
