(* ===== verification/CloudClaims.v ===== *)
(** What the control plane's store guarantees in every state that its transactions reach:
    who is responsible for a job, that what was recorded stays recorded, and that a
    destination serves one delivery at a time. *)

From S2P Require Import Prelude Domain CloudStore CloudWake CloudJobs CloudAccept CloudRevoke CloudRouting CloudTopology CloudReroute CloudFacts CloudDeliveries CloudQueue CloudSystem CloudSteps CloudNodeSteps CloudRouteSteps CloudMachine CloudKept CloudRequests.

Section claims.
Context `{CloudExternal}.
Implicit Types (s : Store) (t : Tenant) (id : string) (c : Clock).


(** The active reservation of an attempt before the spooler's acceptance. *)
Lemma reservation_held s k a :
  cloud_wf s → s.(delivery_attempts) !! k = Some a → Attempt.renewable a.(at_state) = true →
  ∃ k' q, s.(route_reservations) !! k' = Some q ∧ q.(rs_state) = Active ∧ reserves a q.
Proof.
  intros [_ Hd _] Ha Hr. destruct (dw_reserved _ _ Hd _ _ Ha) as (k' & q & Hq & Ht & Hat).
  destruct (dw_reserves _ _ Hd _ _ Hq) as (b & Hb & Hres & Hh).
  destruct (dw_attempt _ _ Hd _ _ Ha) as [-> _ _ _]. rewrite Ht, Hat in Hb.
  assert (a = b) as <- by (simpl in *; congruence). exists k', q. split_and!; [done|by apply Hh|done].
Qed.

(** C4: of the attempts of a tenant that have not reached the spooler for good, no two
    share a job, a route or a destination. *)
Theorem deliveries_are_exclusive s k a k' a' :
  reachable s → s.(delivery_attempts) !! k = Some a → s.(delivery_attempts) !! k' = Some a' →
  Attempt.renewable a.(at_state) = true → Attempt.renewable a'.(at_state) = true →
  a.(at_tenant) = a'.(at_tenant) →
  a.(at_route_id) = a'.(at_route_id) ∨ a.(at_destination_id) = a'.(at_destination_id)
    ∨ a.(at_job_id) = a'.(at_job_id) →
  k = k'.
Proof.
  intros Hwf%reachable_wf Ha Ha' Hr Hr' Ht Hc.
  destruct (reservation_held _ _ _ Hwf Ha Hr) as (i & q & Hq & Hact & []).
  destruct (reservation_held _ _ _ Hwf Ha' Hr') as (i' & q' & Hq' & Hact' & []).
  assert (i = i') as <-.
  { apply (dw_exclusive _ _ (cw_deliveries _ Hwf) i q i' q'); [done..|]. unfold competes. naive_solver congruence. }
  destruct (dw_attempt _ _ (cw_deliveries _ Hwf) _ _ Ha) as [-> _ _ _].
  destruct (dw_attempt _ _ (cw_deliveries _ Hwf) _ _ Ha') as [-> _ _ _].
  simplify_eq. congruence.
Qed.

(** The events of a job are numbered from 1 to its sequence without a gap, each one is
    reached from the one before by an edge of the state machine, and the last one explains
    the job's state, unless a revocation put the job back into the queue. *)
Theorem events_explain_state s id r :
  reachable s → s.(jobs) !! id = Some r →
  (∀ n, is_Some (s.(job_events) !! (id, n)) ↔ (1 ≤ Z.of_N n ≤ r.(jr_life).(state_sequence))%Z) ∧
  (∀ n e e', s.(job_events) !! (id, n) = Some e → s.(job_events) !! (id, n + 1)%N = Some e' →
     ∃ now taken, follows e.(er_event).(je_state) now ∧ edge taken now e'.(er_event).(je_state) = true) ∧
  (∃ e, s.(job_events) !! (id, Z.to_N r.(jr_life).(state_sequence)) = Some e
        ∧ follows e.(er_event).(je_state) r.(jr_life).(state)).
Proof.
  intros [Hj _ _]%reachable_wf Hr. destruct (jw_row _ Hj _ _ Hr) as [_ _ Hrange _]. split_and!.
  - intros n. split; [|by apply (jw_gap _ Hj)]. intros [e He].
    destruct (jw_event _ Hj _ _ _ He) as (r' & Hr' & []). simpl in *. by simplify_eq.
  - apply (jw_edge _ Hj).
  - destruct (jw_gap _ Hj id r (Z.to_N r.(jr_life).(state_sequence)) Hr) as [e He]; [lia|].
    exists e. split; [done|]. by eapply (jw_last _ Hj).
Qed.

(** C6: a node's acceptance of a job is never withdrawn or passed on: in every later state
    the job has an acceptance by the same node under the same lease, and is assigned to
    that node. *)
Theorem acceptance_is_final s s' id a :
  reachable s → runs s s' → s.(job_acceptances) !! id = Some a →
  ∃ a' r, s'.(job_acceptances) !! id = Some a' ∧ same_acceptance a a' ∧ s'.(jobs) !! id = Some r
    ∧ r.(jr_tenant) = a.(ac_tenant) ∧ r.(jr_place).(agent_id) = a.(ac_agent_id).
Proof.
  intros Hwf%reachable_wf Hr Ha. destruct (runs_evolves _ _ Hwf Hr) as [He [Hj _ _]].
  destruct (evolves_jview _ _ _ jstep_acceptances He _ _ Ha) as (a' & Ha' & Hs).
  destruct (jw_accepted _ Hj _ _ Ha') as (r & ? & ? & ?). exists a', r. destruct Hs.
  split_and!; [done|done|done|congruence..].
Qed.

(** C23: a job in a terminal state stays in it, with its final time and its events. *)
Theorem terminal_jobs_are_final s s' id r :
  reachable s → runs s s' → s.(jobs) !! id = Some r → is_terminal r.(jr_life).(state) = true →
  ∃ r', s'.(jobs) !! id = Some r' ∧ r'.(jr_life) = r.(jr_life)
        ∧ ∀ n, s'.(job_events) !! (id, n) = s.(job_events) !! (id, n).
Proof.
  intros Hwf%reachable_wf Hr Hj Ht. destruct (runs_evolves _ _ Hwf Hr) as [He _].
  destruct (evolves_jview _ _ _ jstep_ended He id r) as (r' & [[] ? ? _]); [by split|]. by exists r'.
Qed.

(** An attempt keeps its job, route, destination and generation, and its state only
    advances: once final it does not change. *)
Theorem attempts_only_advance s s' k a :
  reachable s → runs s s' → s.(delivery_attempts) !! k = Some a →
  ∃ a', s'.(delivery_attempts) !! k = Some a' ∧ same_attempt a a' ∧
    (a'.(at_state) = a.(at_state) ∨
     Attempt.is_final a.(at_state) = false ∧ progress a.(at_state) < progress a'.(at_state)).
Proof.
  intros Hwf%reachable_wf Hr Ha. destruct (runs_evolves _ _ Hwf Hr) as [He _].
  destruct (evolves_dview _ _ _ dstep_attempts He _ _ Ha) as (a' & Ha' & Hs & [Hp|Hp]).
  - exists a'. auto.
  - exists a'. split_and!; [done..|]. right. split; [|done]. apply not_true_is_false. intros Hf%final_progress.
    pose proof (progress_bound a'.(at_state)). lia.
Qed.

(** Usage is recorded at most once per job and never taken back, and only for jobs whose
    completion was reported. *)
Theorem usage_is_recorded_once s s' id u :
  reachable s → runs s s' → s.(usage_ledger) !! id = Some u →
  s'.(usage_ledger) !! id = Some u ∧
  ∃ r, s'.(jobs) !! id = Some r ∧ r.(jr_tenant) = u.1 ∧ r.(jr_life).(state) = CompletedReported.
Proof.
  intros Hwf%reachable_wf Hr Hu. destruct (runs_evolves _ _ Hwf Hr) as [He [Hj _ _]].
  assert (Hu' : s'.(usage_ledger) !! id = Some u).
  { eapply lookup_weaken; [exact Hu|]. exact (evolves_jview _ _ _ jstep_usage He). }
  split; [done|]. exact (jw_usage _ Hj _ _ Hu').
Qed.

(** C5: an attempt to a destination starts only when every uncertain delivery there was
    resolved, and a resolution was delivered as a command about that very attempt to the
    node that owned the route when the resolution was requested, under that node's own key
    for the route, and acknowledged.  The fence holds in the state [seen] in which its query
    ran; an uncertain delivery without a resolution that the attempt finds at its
    destination when it is recorded became uncertain after that. *)
Theorem uncertain_destination_is_fenced c t q token seen l s s' x :
  history (seen :: l) → runs seen s → begin_read_committed c seen t q token s = Ok (s', x) →
  (∀ k a, seen.(delivery_attempts) !! k = Some a → a.(at_tenant) = t →
     a.(at_destination_id) = q.(nd_destination_id) → a.(at_state) = Attempt.DeliveryUncertain →
     settled_by_owner (seen :: l) t a seen) ∧
  (∀ k a, s.(delivery_attempts) !! k = Some a → a.(at_tenant) = t →
     a.(at_destination_id) = q.(nd_destination_id) → a.(at_state) = Attempt.DeliveryUncertain →
     resolved t a.(at_id) s = false →
     ∀ a0, seen.(delivery_attempts) !! k = Some a0 → a0.(at_state) ≠ Attempt.DeliveryUncertain).
Proof.
  intros Hh Hr Hm. pose proof (reachable_wf _ (history_reachable _ _ Hh)) as Hwf. unfold begin_read_committed in Hm.
  tx Hm. apply check_against_evolves in Hx as (_ & _ & _ & Hfree & _).
  unfold unresolved in Hfree. rewrite exists_row_false in Hfree.
  assert (Hall : ∀ k a, seen.(delivery_attempts) !! k = Some a → a.(at_tenant) = t →
    a.(at_destination_id) = q.(nd_destination_id) → a.(at_state) = Attempt.DeliveryUncertain → resolved t a.(at_id) seen = true).
  { intros k a Ha Ht Hd Hst. specialize (Hfree _ _ Ha). rewrite !bool_decide_true in Hfree by done.
    by apply negb_false_iff in Hfree. }
  split; [eauto using resolved_settled|]. intros k a Ha Ht Hd Hst Hno a0 Ha0 Hst0.
  destruct (runs_evolves _ _ Hwf Hr) as [He _].
  destruct (evolves_dview _ _ _ dstep_attempts He _ _ Ha0) as (a' & Ha' & Hs & _). simpl in Ha'. simplify_eq.
  assert (Hres : resolved a.(at_tenant) a0.(at_id) seen = true).
  { apply (Hall _ _ Ha0); [symmetry; apply (st_tenant _ _ Hs)| |done]. by rewrite <- Hd, (st_destination _ _ Hs). }
  rewrite (st_id _ _ Hs) in Hno. pose proof (resolved_kept _ _ _ _ Hwf Hr Hres). congruence.
Qed.

(** C22: an event that a node reports has at most one effect: after it was applied, the same
    event of that node is answered without an effect in every later state. *)
Theorem agent_events_apply_once c c' t t' agent e e' s s1 s2 o :
  reachable s → apply_agent_event c t agent e s = Ok (s1, o) → runs s1 s2 → e'.(je_id) = e.(je_id) →
  apply_agent_event c' t' agent e' s2 = Ok (s2, None).
Proof.
  intros Hwf%reachable_wf Hm Hr Hid.
  pose proof (apply_agent_event_receipt c t agent e s s1 o Hm) as Hin.
  assert (Hwf1 := store_evolves_wf _ _ Hwf (apply_agent_event_sound c t agent e s s1 o Hwf Hm)).
  destruct (runs_evolves _ _ Hwf1 Hr) as [He _]. apply evolves_kept in He as [Hsub _ _].
  apply apply_agent_event_again. rewrite Hid. set_solver.
Qed.

(** ** Jobs that end before a node accepted them *)

Lemma attempt_of_job s k a id r : cloud_wf s → s.(delivery_attempts) !! k = Some a → a.(at_job_id) = id →
  s.(jobs) !! id = Some r →
  k = (a.(at_tenant), a.(at_id)) ∧ a.(at_tenant) = r.(jr_tenant)
  ∧ (a.(at_final_at) = None ∨ Attempt.is_final a.(at_state) = true).
Proof.
  intros Hwf Ha Hj Hr. destruct (dw_attempt _ _ (cw_deliveries _ Hwf) _ _ Ha) as [Hk _ Hf (row & Hrow & Ht)].
  split_and!; [done|congruence|]. destruct (a.(at_final_at)); [right; apply Hf; eauto|by left].
Qed.

Lemma supersede_pre_undelivered c t id s s' b r :
  cloud_wf s → s.(jobs) !! id = Some r → r.(jr_tenant) = t →
  supersede_pre_handoff_delivery_attempts c t id s = Ok (s', b) → b = true → undelivered s' id.
Proof.
  intros Hwf Hr Ht Hm Hsafe. unfold supersede_pre_handoff_delivery_attempts in Hm.
  tx Hm. set (l := select_rows _ _) in Hm.
  assert (Hl : ∀ k a, s.(delivery_attempts) !! k = Some a → a.(at_job_id) = id → a.(at_final_at) = None → (k, a) ∈ l).
  { intros k a Ha Hj Hn. apply elem_of_select_rows. split; [done|].
    destruct (attempt_of_job _ _ _ _ _ Hwf Ha Hj Hr) as (_ & Hta & _). unfold of_job.
    by rewrite !bool_decide_true by congruence. }
  txs Hm; [done|..]; intros k a Ha Hj.
  - destruct (attempt_of_job _ _ _ _ _ Hwf Ha Hj Hr) as (_ & _ & [Hn|]); [|done].
    apply bool_decide_eq_true, fmap_nil_inv in Heqb1. specialize (Hl _ _ Ha Hj Hn). rewrite Heqb1 in Hl.
    by apply not_elem_of_nil in Hl.
  - simpl in Ha. rewrite lookup_update_where in Ha. apply fmap_Some in Ha as (b & Hb & ->).
    assert (Hbj : b.(at_job_id) = id) by (by destruct (_ && _)).
    destruct (attempt_of_job _ _ _ _ _ Hwf Hb Hbj Hr) as (_ & Htb & [Hn|]); [|by destruct (_ && _)].
    specialize (Hl _ _ Hb Hbj Hn).
    assert (Hst : b.(at_state) = Attempt.RouteLeased).
    { apply dec_stable. intros Hne. apply not_true_iff_false in Heqb0. destruct Heqb0. apply existsb_exists.
      exists (k, b). split; [by apply list_elem_of_In|]. by apply negb_true_iff, bool_decide_eq_false. }
    rewrite (bool_decide_true (_ = t)), (bool_decide_true (_ ∈ _)), Hst, Hn by
      (first [congruence|apply list_elem_of_fmap; by exists (k, b)]). done.
Qed.

Lemma cancel_undelivered c t id s s1 s' u r :
  cloud_wf s → s.(jobs) !! id = Some r → r.(jr_tenant) = t → s1.(delivery_attempts) = s.(delivery_attempts) →
  cancel_deliveries c t id s1 = Ok (s', u) → undelivered s' id.
Proof.
  intros Hwf Hr Ht Ea Hm. unfold cancel_deliveries in Hm. tx Hm. intros k a Ha Hj.
  simpl in Ha. rewrite Ea, lookup_update_where in Ha. apply fmap_Some in Ha as (b & Hb & ->).
  assert (Hbj : b.(at_job_id) = id) by (by destruct (_ && _)).
  destruct (attempt_of_job _ _ _ _ _ Hwf Hb Hbj Hr) as (_ & Htb & [Hn|]); [|by destruct (_ && _)].
  unfold of_job. rewrite !bool_decide_true; try done; congruence.
Qed.

(** A job that is over for good: terminal, accepted by nobody, no delivery under way. *)
Record closed (s : Store) (id : string) (st : JobState) : Prop := {
  cl_row : ∃ r, s.(jobs) !! id = Some r ∧ r.(jr_life).(state) = st;
  cl_free : s.(job_acceptances) !! id = None;
  cl_attempts : undelivered s id;
  cl_reservations : ∀ k q, s.(route_reservations) !! k = Some q → q.(rs_job_id) = id → q.(rs_state) ≠ Active
}.

Lemma undelivered_unreserved s id : cloud_wf s → undelivered s id →
  ∀ k q, s.(route_reservations) !! k = Some q → q.(rs_job_id) = id → q.(rs_state) ≠ Active.
Proof.
  intros Hwf Hu k q Hq Hj Hact. destruct (dw_reserves _ _ (cw_deliveries _ Hwf) _ _ Hq) as (a & Ha & [] & Hh).
  apply Hh in Hact. rewrite final_not_renewable in Hact; [done|]. eapply Hu; [exact Ha|congruence].
Qed.

Lemma evolves_closed s s' id st : cloud_wf s → is_terminal st = true → evolves s s' →
  closed s id st → closed s' id st.
Proof.
  intros Hwf Ht He [(r & Hr & Hs) Hf Hu _]. assert (Hen : ended (jview s) id r) by (split; [done|by rewrite Hs]).
  destruct (evolves_jview _ _ _ jstep_ended He id r Hen) as (r' & [[Hr' _] El _ Ea]).
  assert (Hu' := evolves_undelivered _ _ _ _ Hwf He Hen Hu).
  split; [exists r'; split; [done|by rewrite El]|by apply Ea|done|].
  apply undelivered_unreserved; [by eapply store_evolves_wf|done].
Qed.

Lemma not_accepted_None s id r : cloud_wf s → s.(jobs) !! id = Some r →
  accepted r.(jr_tenant) id s = false → s.(job_acceptances) !! id = None.
Proof.
  intros Hwf Hr Ha. apply (not_accepted_free _ _ _ Hwf Hr) in Ha. unfold is_taken in Ha.
  by apply bool_decide_eq_false, eq_None_not_Some in Ha.
Qed.

Lemma expire_job_closes c id r l s s' o t j key :
  cloud_wf s → expiring ((id, r) :: l) s → expire_job c (id, r) s = Ok (s', o) → o = Some (t, j, key) →
  t = r.(jr_tenant) ∧ j.(j_id) = id ∧ closed s' id Expired.
Proof.
  intros Hwf [Hst Hl] Hm Ho. destruct (Hl id r) as [Hf Hin]; [by left|].
  assert (Hr : s.(jobs) !! id = Some r) by (apply Hst; by left).
  destruct (expire_job_evolves c id r s s' _ Hwf Hr Hf Hin Hm) as (He & Hac & _).
  unfold expire_job in Hm. tx Hm.
  assert (Hu := supersede_pre_undelivered _ _ _ _ _ _ _ Hwf Hr eq_refl Hx).
  apply supersede_pre_evolves in Hx as [_ (ats & rss & ->)]; [|done].
  destruct x; simpl in Hm; txs Hm; [|done]. injection Ho as <- <- <-.
  apply insert_event_Ok in Hx0 as [-> _].
  assert (Hn := Hx2). apply notify_quiet in Hn as [[= E1 _ _ _] Ed _ _].
  split_and!; [done|by destruct (row_of _ _ _ Hwf Hr)|].
  assert (Hu' : undelivered s2 id).
  { intros k a. assert (s2.(delivery_attempts) = ats) as ->; [|by apply (Hu eq_refl)].
    rewrite (f_equal v_attempts Ed : s2.(delivery_attempts) = _). by subst. }
  split; [| |done|by apply undelivered_unreserved; [eapply store_evolves_wf|]].
  - rewrite E1. simpl. rewrite Hx1. simpl. rewrite lookup_alter_eq, Hr. by eexists.
  - rewrite Hac. unfold is_taken in Hf. by apply bool_decide_eq_false, eq_None_not_Some in Hf.
Qed.

(** A job that the expiry sweep ends had expired and no node had accepted it; in every
    later state it is expired, accepted by nobody, and none of its attempts or
    reservations is open. *)
Theorem expired_jobs_are_never_delivered c locked limit s s1 s2 out t j key :
  reachable s → expire_jobs_before_handoff c locked limit s = Ok (s1, out) → (t, j, key) ∈ out → runs s1 s2 →
  (∃ r, s.(jobs) !! j.(j_id) = Some r ∧ r.(jr_tenant) = t ∧ (r.(jr_expires_at) ≤ c.(sql_now))%Z
        ∧ s.(job_acceptances) !! j.(j_id) = None) ∧
  closed s2 j.(j_id) Expired.
Proof.
  intros Hwf%reachable_wf Hm Hin Hr. assert (Hsound := expire_sound c locked limit s s1 out Hwf Hm).
  assert (Hlast := proj1 (runs_evolves _ _ (store_evolves_wf _ _ Hwf Hsound) Hr)).
  unfold expire_jobs_before_handoff in Hm. tx Hm.
  apply list_elem_of_omap in Hin as (o & Ho & Heq). simpl in Heq.
  destruct (for_each_each _ _ _ (expiring_next c) _ _ _ (expiring_rows c locked _ _ Hwf) Hwf Hx) as [_ Hall].
  destruct (Hall _ Ho) as ([id r] & l & sa & sb & Hrow & HP & Hwfa & Hea & Hf & Heb).
  destruct (expire_job_closes _ _ _ _ _ _ _ _ _ _ Hwfa HP Hf Heq) as (-> & Hid & Hcl). rewrite Hid.
  apply elem_of_take in Hrow as (i & Hi & _).
  apply list_elem_of_lookup_2, elem_of_sort_by, elem_of_select_rows in Hi as [Hrs [Hb _]%andb_true_iff].
  split.
  - exists r. split_and!; [done|done| |].
    + unfold expirable in Hb. rewrite !andb_true_iff, Z.leb_le in Hb. tauto.
    + apply expirable_open in Hb as (_ & _ & Hacc). by eapply not_accepted_None.
  - eapply evolves_closed; [|done| |exact Hcl].
    + eapply store_evolves_wf; [exact Hwfa|]. by destruct (expiring_next _ _ _ _ _ _ HP Hwfa Hf).
    + by etrans; [exact Heb|].
Qed.

Lemma cancel_unaccepted_closes c t id n agent j s s' a r :
  cloud_wf s → cloud_wf s' → s.(jobs) !! id = Some r → r.(jr_tenant) = t → r.(jr_life).(state) = CancelRequested →
  s.(job_acceptances) !! id = None →
  cancel_unaccepted c t id n agent j s = Ok (s', a) → closed s' id Cancelled.
Proof.
  intros Hwf Hwf' Hr Ht Hst Hfree Hm. unfold cancel_unaccepted in Hm. tx Hm.
  apply insert_event_Ok in Hx as [-> _].
  assert (Hn := Hx3). apply notify_quiet in Hn as [[= E1 _ E2 _] Ed _ _].
  assert (Ea : s1.(delivery_attempts) = s.(delivery_attempts)) by by rewrite Hx1.
  assert (Hu := cancel_undelivered _ _ _ _ _ _ _ _ Hwf Hr Ht Ea Hx2).
  unfold cancel_deliveries in Hx2. tx Hx2.
  assert (Hu' : undelivered s3 id).
  { intros k b. rewrite (f_equal v_attempts Ed : s3.(delivery_attempts) = _). apply Hu. }
  split; [| |done|by apply undelivered_unreserved].
  - rewrite E1. simpl. rewrite Hx1. simpl. rewrite lookup_alter_eq, Hr. by eexists.
  - rewrite E2. simpl. by rewrite Hx1.
Qed.

(** A cancellation either finds an acceptance, and leaves the node a command and the job
    in cancel_requested, or ends the job: in every later state it is cancelled, accepted by
    nobody, and none of its attempts or reservations is open. *)
Theorem cancellation_reaches_the_node_or_ends c t id command s s1 s2 j :
  reachable s → request_job_cancellation c t id command s = Ok (s1, j) → runs s1 s2 →
  (∃ a r n, s.(job_acceptances) !! id = Some a ∧ s1.(jobs) !! id = Some r
     ∧ r.(jr_life).(state) = CancelRequested
     ∧ s1.(agent_commands) !! n = Some {| cm_tenant := t; cm_agent_id := a.(ac_agent_id);
         cm_command := command; cm_delivered_at := None; cm_acknowledged_at := None |}) ∨
  closed s2 id Cancelled.
Proof.
  intros Hwf%reachable_wf Hm Hruns.
  assert (Hwf1 := store_evolves_wf _ _ Hwf (request_cancellation_sound c t id command s s1 j Hwf Hm)).
  assert (Hlast := proj1 (runs_evolves _ _ Hwf1 Hruns)).
  unfold request_job_cancellation in Hm. tx Hm. apply job_of_Some in Hx as [Hr Ht].
  pose proof (row_of _ _ _ Hwf Hr) as Hrow. apply i64_of_u64_Ok in Hx3 as [-> _].
  assert (Hedge := allowed_edge (is_taken id s.(job_acceptances)) _ _ Hx0).
  assert (Hi := Hx2). apply insert_event_Ok in Hi as [Hi _].
  eapply log_evolves in Hx2 as [He Hr2]; [|try done..].
  2: { simpl. by rewrite (open_final _ _ Hrow (edge_open _ _ _ Hedge)). }
  assert (Ea : s3.(job_acceptances) = s.(job_acceptances)) by by rewrite Hx4, Hi.
  txs Hm.
  - left. apply insert_command_evolves in Hx as (_ & Hn & Hk & [= Ej _ _ _] & _).
    unfold accepted in Heqb. rewrite Ea in Heqb. destruct (job_acceptances s !! id) as [a|] eqn:Hac; [|done].
    destruct (jw_accepted _ (cw_jobs _ Hwf) _ _ Hac) as (r & Hr' & _ & Hag). simpl in Hr'. simplify_eq.
    eexists a, _, _. split_and!; [done|rewrite Ej; exact Hr2|done|]. rewrite Hk, lookup_insert_eq. by rewrite <- Hag.
  - right. eapply evolves_closed; [exact Hwf1|done|exact Hlast|].
    eapply cancel_unaccepted_closes; [exact (store_evolves_wf _ _ Hwf He)|done|exact Hr2|done|done| |exact Hm].
    rewrite Ea. eapply not_accepted_None; [done..|]. rewrite <- Heqb. unfold accepted. by rewrite Ht, Ea.
Qed.

(** ** Idempotency keys *)

Lemma new_job_recorded c j agent key hash enforce s s' a :
  create_new_job c j agent (Some key) hash enforce s = Ok (s', a) →
  s.(idempotency_requests) !! (j.(j_tenant), key) = None ∧
  s'.(idempotency_requests) !! (j.(j_tenant), key) = Some (hash, j.(j_id), (c.(sql_now) + seconds 86400)%Z) ∧
  ∃ r, s'.(jobs) !! j.(j_id) = Some r ∧ r.(jr_tenant) = j.(j_tenant).
Proof.
  unfold create_new_job. intros Hm. tx Hm. tx Hx4. apply bool_decide_eq_true in Hx5.
  apply insert_event_Ok in Hx3 as [-> _]. simpl in *.
  assert (quiet s s0) as [_ _ _ [_ Hsub _]]. { destruct enforce; [by eapply admission_quiet|by txs Hx]. }
  assert (s1 = s0) as ->. { by txs Hx0. }
  assert (Hq : quiet s2 s3). { destruct j.(j_content); txs Hx2; [done..|by eapply reference_keys_quiet]. }
  unfold insert_job in Hx1. tx Hx1. destruct Hq as [[= E1 _ _ _] _ _ [_ Hsub' _]]. simpl in *. split_and!.
  - apply eq_None_not_Some. intros [y Hl]. eapply lookup_weaken in Hl; [|exact Hsub].
    eapply lookup_weaken in Hl; [|exact Hsub']. congruence.
  - by rewrite lookup_insert_eq.
  - eexists. rewrite E1, lookup_insert_eq. by split.
Qed.

Lemma created_recorded c j agent key bytes enforce s s' j' :
  create_cloud_job c j agent (Some key) bytes enforce s = Ok (s', Created j') →
  s'.(idempotency_requests) !! (j.(j_tenant), key) =
    Some (hex (sha256 bytes), j.(j_id), (c.(sql_now) + seconds 86400)%Z) ∧
  ∃ r, s'.(jobs) !! j.(j_id) = Some r ∧ r.(jr_tenant) = j.(j_tenant).
Proof.
  unfold create_cloud_job. intros Hm. remember (Created j') as o eqn:Ho. tx Hm. destruct x; tx Hm; [done|].
  destruct x; tx Hm; [done|]. by apply new_job_recorded in Hm as (_ & ? & ?).
Qed.

(** The answer to a key that is already recorded. *)
Lemma recorded_answer c j agent key bytes enforce s hash id until r :
  s.(idempotency_requests) !! (j.(j_tenant), key) = Some (hash, id, until) → (c.(sql_now) < until)%Z →
  s.(jobs) !! id = Some r → r.(jr_tenant) = j.(j_tenant) →
  create_cloud_job c j agent (Some key) bytes enforce s =
  (if decide (hash = hex (sha256 bytes)) then Ok (s, Existing (job_from_row r)) else Err IdempotencyConflict).
Proof.
  intros Hk Hu Hr Ht. unfold create_cloud_job, find_idempotent_job, mbind, tx_bind, query. rewrite Hk.
  destruct (Z.leb_spec until c.(sql_now)); [lia|]. destruct (decide _); [|done].
  unfold fetch, job_of. rewrite Hr. by destruct (decide _).
Qed.

(** C32: for 24 hours after a job was created under an idempotency key, whatever happens in
    between, repeating the request returns that job and changes nothing, and another
    request under the key is refused. *)
Theorem creation_is_idempotent c c' j j' agent agent' key bytes bytes' enforce enforce' s s1 s2 o :
  reachable s → is_terminal j.(j_state) = false →
  create_cloud_job c j agent (Some key) bytes enforce s = Ok (s1, Created o) → runs s1 s2 →
  j'.(j_tenant) = j.(j_tenant) → (c'.(sql_now) < c.(sql_now) + seconds 86400)%Z →
  ∃ r, s2.(jobs) !! j.(j_id) = Some r ∧
    create_cloud_job c' j' agent' (Some key) bytes' enforce' s2 =
    (if decide (hex (sha256 bytes) = hex (sha256 bytes'))
     then Ok (s2, Existing (job_from_row r)) else Err IdempotencyConflict).
Proof.
  intros Hwf%reachable_wf Hst Hm Hr Ht Hc.
  assert (Hwf1 := store_evolves_wf _ _ Hwf (create_sound c j agent (Some key) bytes enforce Hst s s1 _ Hwf Hm)).
  destruct (runs_evolves _ _ Hwf1 Hr) as [He _]. apply created_recorded in Hm as (Hk & r & Hrow & Hten).
  destruct (evolves_jview _ _ _ jstep_jobs He _ _ Hrow) as (r2 & Hr2 & Ht2). exists r2. split; [done|].
  eapply lookup_weaken in Hk; [|exact (kp_idempotency _ _ (evolves_kept _ _ He))].
  rewrite <- Ht in Hk. eapply recorded_answer; [exact Hk|done..|congruence].
Qed.

(** After those 24 hours no request of the tenant under the key creates a job: the
    expired row is ignored when the key is looked up, and still occupies it. *)
Theorem expired_keys_create_nothing c c' j j' agent agent' key bytes bytes' enforce enforce' s s1 s2 o :
  reachable s → is_terminal j.(j_state) = false →
  create_cloud_job c j agent (Some key) bytes enforce s = Ok (s1, Created o) → runs s1 s2 →
  j'.(j_tenant) = j.(j_tenant) → (c.(sql_now) + seconds 86400 ≤ c'.(sql_now))%Z →
  ¬ ∃ s3 o', create_cloud_job c' j' agent' (Some key) bytes' enforce' s2 = Ok (s3, Created o').
Proof.
  intros Hwf%reachable_wf Hst Hm Hr Ht Hc (s3 & o' & Hm').
  assert (Hwf1 := store_evolves_wf _ _ Hwf (create_sound c j agent (Some key) bytes enforce Hst s s1 _ Hwf Hm)).
  destruct (runs_evolves _ _ Hwf1 Hr) as [He _]. apply created_recorded in Hm as (Hk & _).
  eapply lookup_weaken in Hk; [|exact (kp_idempotency _ _ (evolves_kept _ _ He))]. rewrite <- Ht in Hk.
  remember (Created o') as a eqn:Ea. unfold create_cloud_job in Hm'. tx Hm'. destruct x; tx Hm'; [done|].
  apply find_idempotent_quiet in Hx as ->.
  assert (Hq : quiet s2 s4). { destruct j'.(j_content); txs Hx0; [done..|by eapply consume_quiet]. }
  destruct x; tx Hm'; [done|]. apply new_job_recorded in Hm' as [Hnone _].
  eapply lookup_weaken in Hk; [|exact (kp_idempotency _ _ (qt_kept _ _ Hq))]. congruence.
Qed.

(** ** What the fence does not cover *)

Lemma update_routes_lookup t routes f s route :
  (update_routes t routes f s).(topology).(printer_routes) !! (t, route)
  = (λ r, if bool_decide (route ∈ routes) then f r else r) <$> s.(topology).(printer_routes) !! (t, route).
Proof.
  unfold update_routes, on_printer_routes. simpl. rewrite map_lookup_imap. simpl. rewrite bool_decide_true by done.
  by destruct (_ !! _).
Qed.

Lemma move_routes_places c t d routes s s' u :
  move_routes c t d routes s = Ok (s', u) →
  (s'.(delivery_attempts) = s.(delivery_attempts) ∧ s'.(resolutions) = s.(resolutions)) ∧
  ∀ route, is_Some (s.(topology).(printer_routes) !! (t, route)) → route ∈ d.(id_route_ids) →
    ∃ r, s'.(topology).(printer_routes) !! (t, route) = Some r ∧ r.(rt_destination_id) = d.(id_destination_id).
Proof.
  intros Hm. unfold move_routes in Hm. tx Hm. split; [by txs Hm; txs Hx2|]. intros route [r Hr] Hin.
  assert (Hd : ∃ r', s0.(topology).(printer_routes) !! (t, route) = Some r' ∧ r'.(rt_destination_id) = d.(id_destination_id)).
  { txs Hx2; rewrite !update_routes_lookup, Hr; simpl; rewrite (bool_decide_true (route ∈ d.(id_route_ids))) by done; [by eexists|].
    eexists; split; [reflexivity|]. by destruct (bool_decide (route ∈ take 1 _)). }
  by txs Hm.
Qed.

Lemma for_each_read {A B} (f : A → Tx B) xs s s' bs x :
  (∀ a s s' b, f a s = Ok (s', b) → s' = s) → for_each f xs s = Ok (s', bs) → x ∈ xs → ∃ b, f x s = Ok (s, b).
Proof.
  intros Hf. revert s s' bs. induction xs as [|y xs IH]; intros s s' bs Hm; [by intros ?%elem_of_nil|]. simpl in Hm. tx Hm.
  pose proof (Hf _ _ _ _ Hx) as ->. intros [->|Hin]%elem_of_cons; eauto.
Qed.

Lemma snapshot_route_reads t route s s' b : snapshot_route t route s = Ok (s', b) → s' = s.
Proof. unfold snapshot_route. intros Hm. by tx Hm. Qed.
Lemma snapshot_route_finds t route s s' b :
  snapshot_route t route s = Ok (s', b) → is_Some (s.(topology).(printer_routes) !! (t, route)).
Proof. unfold snapshot_route. intros Hm. tx Hm. by destruct (_.(printer_routes) !! _). Qed.

(** C38: an identity decision that merges or splits destinations moves the routes it names to
    the destination it names, and leaves the attempts and the resolutions as they were: an
    uncertain delivery over such a route, without a resolution, keeps fencing the
    destination it was made to, and the fence of the destination that the route serves from
    then on is what it was. *)
Theorem merge_lifts_the_fence c t d s s' k a :
  record_identity_decision c t d s = Ok (s', ()) → d.(id_kind) = Merge ∨ d.(id_kind) = Split →
  s.(delivery_attempts) !! k = Some a → a.(at_tenant) = t → a.(at_route_id) ∈ d.(id_route_ids) →
  a.(at_state) = Attempt.DeliveryUncertain → resolved t a.(at_id) s = false →
  (∃ r, s'.(topology).(printer_routes) !! (t, a.(at_route_id)) = Some r ∧ r.(rt_destination_id) = d.(id_destination_id)) ∧
  s'.(delivery_attempts) = s.(delivery_attempts) ∧ resolved t a.(at_id) s' = false ∧
  unresolved t a.(at_destination_id) s' = true ∧
  unresolved t d.(id_destination_id) s' = unresolved t d.(id_destination_id) s.
Proof.
  intros Hm Hk Ha Ht Hin Hst Hno. unfold record_identity_decision in Hm. tx Hm.
  apply snapshot_Ok in Hx0 as ->; [|intros ? ? ? ? Hs; unfold snapshot_destination in Hs; by tx Hs].
  pose proof (λ z, for_each_read _ _ _ _ _ z (snapshot_route_reads t) Hx1) as Hex.
  apply snapshot_Ok in Hx1 as ->; [|apply snapshot_route_reads].
  assert (Hmv : ∃ u, move_routes c t d x1 s = Ok (s2, u)) by (destruct Hk as [Hk|Hk]; rewrite Hk in Hx3; eauto).
  destruct Hmv as [u Hmv]. apply move_routes_places in Hmv as [[Ea Er] Hpl].
  assert (Hs' : s'.(delivery_attempts) = s.(delivery_attempts) ∧ s'.(resolutions) = s.(resolutions)
    ∧ s'.(topology).(printer_routes) = s2.(topology).(printer_routes)) by (unfold insert_decision_row in Hm; tx Hm; by subst).
  destruct Hs' as (Ea' & Er' & ->). destruct (Hex _ Hin) as [b Hb]. split.
  { apply Hpl; [|done]. by eapply snapshot_route_finds. }
  unfold unresolved, resolved in *. rewrite Ea', Er'. split_and!; try done.
  apply exists_row_true. exists k, a. split; [done|]. by rewrite !bool_decide_true, Hno.
Qed.
End claims.
