(* ===== verification/CloudNodeClaims.v ===== *)
(** What the control plane's store guarantees to and about its nodes: leases, acceptance
    and revocation. *)

From S2P Require Import Prelude Domain CloudStore CloudWake CloudJobs CloudAccept CloudRevoke CloudFacts CloudDeliveries CloudQueue CloudSystem CloudSteps CloudNodeSteps CloudMachine CloudKept.

Section node_claims.
Context `{CloudExternal}.
Implicit Types (s : Store) (t : Tenant) (id agent : string) (c : Clock).

(** * Leases *)

Lemma claim_each_Ok c owner new_lease l s s' out :
  for_each (claim_job c owner new_lease) l s = Ok (s', out) →
  out = (λ e, {| jl_job := job_from_row e.2; jl_lease_id := (new_lease e.1).1; jl_lease_token := (new_lease e.1).2;
                 jl_lease_until := (c.(utc_now) + seconds 30)%Z |}) <$> l ∧
  ∀ id, s'.(jobs) !! id = (if decide (id ∈ l.*1) then
    with_lease {| lease_owner := Some owner; lease_id := Some (new_lease id).1;
                  lease_token_hash := Some (sha256 (new_lease id).2);
                  lease_until := Some (c.(utc_now) + seconds 30)%Z |} else (λ r, r)) <$> s.(jobs) !! id.
Proof.
  revert s s' out. induction l as [|[i r] l IH]; intros s s' out Hm; simpl in Hm; tx Hm.
  { split; [done|]. intros id. rewrite decide_False by apply not_elem_of_nil. by destruct (jobs s !! id). }
  unfold claim_job in Hx. simpl in Hx. destruct (new_lease i) as [lease token] eqn:Hl. tx Hx.
  destruct (IH _ _ _ Hx0) as [-> Hj]. split; [simpl; by rewrite Hl|].
  intros id. rewrite Hj, Hx1. simpl. rewrite lookup_alter_row. destruct (jobs s !! id) as [x|]; simpl; [|done].
  f_equal. destruct (decide (id = i)) as [->|Hne].
  - rewrite Hl. by repeat case_decide; try set_solver.
  - by repeat case_decide; try set_solver.
Qed.

(** Claiming gives a lease of 30 seconds on at most 100 jobs that were waiting for this
    node without a lease; until a lease has run out nobody can claim its job again, and
    its holder passes the check of the lease. *)
Theorem claimed_jobs_are_leased_once c locked new_lease t agent owner limit s s' leases :
  reachable s → claim_jobs c locked new_lease t agent owner limit s = Ok (s', leases) →
  length leases ≤ 100 ∧ NoDup ((λ l, l.(jl_job).(j_id)) <$> leases) ∧
  ∀ l, l ∈ leases →
    (∃ r, s.(jobs) !! l.(jl_job).(j_id) = Some r ∧ claimable c t agent r = true) ∧
    (∀ c' t' agent' r, (c'.(sql_now) ≤ l.(jl_lease_until))%Z → s'.(jobs) !! l.(jl_job).(j_id) = Some r →
       claimable c' t' agent' r = false) ∧
    (∀ c', (c'.(sql_now) < l.(jl_lease_until))%Z →
       validate_agent_lease c' t agent l.(jl_job).(j_id) l.(jl_lease_id) l.(jl_lease_token) s' = Ok (s', ())).
Proof.
  intros Hwf%reachable_wf Hm. unfold claim_jobs in Hm. tx Hm. apply claim_each_Ok in Hm as [-> Hj].
  set (rows := take _ _) in *.
  assert (Hrows : ∀ e, e ∈ rows → s.(jobs) !! e.1 = Some e.2 ∧ claimable c t agent e.2 = true
    ∧ (job_from_row e.2).(j_id) = e.1).
  { intros [id r] (i & Hi & _)%elem_of_take.
    apply list_elem_of_lookup_2, elem_of_sort_by, elem_of_select_rows in Hi as [Hr [Hb _]%andb_true_iff].
    split_and!; [done..|]. by destruct (row_of _ _ _ Hwf Hr). }
  split_and!.
  - rewrite length_fmap. unfold rows. rewrite length_take. unfold clamp. lia.
  - rewrite <- list_fmap_compose. replace (_ <$> rows) with (rows.*1).
    + by destruct (still_sorted (λ id r, claimable c t agent r && negb (locked id)) older (clamp limit 1 100) s).
    + apply list_fmap_ext. intros i e He%list_elem_of_lookup_2. by destruct (Hrows _ He) as (_ & _ & <-).
  - intros l (e & -> & He)%list_elem_of_fmap. destruct (Hrows _ He) as (Hr & Hcl & Hid). simpl. simpl in Hid. rewrite Hid.
    assert (Hr' := Hj e.1). rewrite decide_True, Hr in Hr' by by apply list_elem_of_fmap_2. simpl in Hr'.
    split_and!; [by exists e.2| |].
    + intros c' t' agent' r Hc Hrow. rewrite Hr' in Hrow. injection Hrow as <-. unfold claimable. simpl.
      destruct (Z.ltb_spec (c.(utc_now) + seconds 30) c'.(sql_now)); [lia|]. apply andb_false_r.
    + intros c' Hc. unfold validate_agent_lease, holds_lease, job_of, mbind, tx_bind, fetch. rewrite Hr'. simpl.
      unfold claimable in Hcl. rewrite !andb_true_iff, !bool_decide_eq_true in Hcl.
      destruct Hcl as [[[[Ht Ha] _] _] _]. rewrite decide_True by done. simpl. rewrite Ha.
      rewrite !bool_decide_true by done. simpl. by destruct (Z.ltb_spec c'.(sql_now) (c.(utc_now) + seconds 30)); [|lia].
Qed.

(** * Acceptance *)

Lemma accepting_attempt_proof t agent id d p s s' a :
  cloud_wf s → accepting_attempt t agent id d p s = Ok (s', a) →
  s' = s ∧ ∃ rs, s.(route_reservations) !! (t, p.(dp_reservation_id)) = Some rs ∧ rs.(rs_state) = Active
    ∧ rs.(rs_attempt_id) = a.(at_id) ∧ s.(delivery_attempts) !! (t, a.(at_id)) = Some a
    ∧ a.(at_job_id) = id ∧ a.(at_destination_id) = d
    ∧ a.(at_fencing_token_hash) = token_digest p.(dp_fencing_token).
Proof.
  intros Hwf Hm. unfold accepting_attempt in Hm. tx Hm. split; [done|].
  apply bind_Some in Hx0 as (rs & Hrs & (b & Hb & Hc)%bind_Some). case_match eqn:Hd; [|done]. injection Hc as <-.
  apply andb_true_iff in Hd as [_ Hd]. apply bool_decide_eq_true in Hd.
  assert (Hp := Hb). apply proven_attempt_Some in Hp as (rs' & Hrs' & Hact & Hid & Ha & Ht); [|done]. simplify_eq.
  apply bind_Some in Hb as (q & Hq & (b' & Hb' & (route & _ & Hc)%bind_Some)%bind_Some). simplify_eq.
  case_match eqn:Hall; [|done]. injection Hc as ->. rewrite !andb_true_iff, !bool_decide_eq_true in Hall.
  destruct Hall as [[[[[[? ?] ?] ?] Htok] Hj] _]. eexists. split_and!; done.
Qed.

(** C10: a node accepts a job for the first time only under its own unexpired lease, with the
    lease's token, while it is not revoked and the job waits for it; a job routed to a
    destination also needs the fencing token of an active reservation of its attempt,
    which is queued with the acceptance. *)
Theorem acceptance_needs_lease_and_proof c t agent id lease token sha n proof s s' j :
  reachable s → accept_agent_job_transactional c t agent id lease token sha n proof s = Ok (s', j) →
  s.(job_acceptances) !! id = None →
  ∃ r, holds_lease c t agent id lease token s = Some r ∧ active_agent t agent s = true
    ∧ r.(jr_life).(state) ∈ [WaitingForAgent; AgentDownloading]
    ∧ (∃ ac, s'.(job_acceptances) !! id = Some ac ∧ ac.(ac_agent_id) = agent ∧ ac.(ac_lease_id) = lease
             ∧ ac.(ac_lease_token_hash) = Some (sha256 token))
    ∧ ∀ d, r.(jr_place).(destination_id) = Some d →
        ∃ p rs a a', proof = Some p ∧ s.(route_reservations) !! (t, p.(dp_reservation_id)) = Some rs
          ∧ rs.(rs_state) = Active ∧ rs.(rs_attempt_id) = a.(at_id)
          ∧ s.(delivery_attempts) !! (t, a.(at_id)) = Some a ∧ a.(at_job_id) = id ∧ a.(at_destination_id) = d
          ∧ a.(at_fencing_token_hash) = token_digest p.(dp_fencing_token)
          ∧ s'.(delivery_attempts) !! (t, a.(at_id)) = Some a' ∧ a'.(at_state) = Attempt.QueuedLocal.
Proof.
  intros Hwf%reachable_wf Hm Hfree. unfold accept_agent_job_transactional in Hm. tx Hm.
  assert (s0 = s) as -> by (txs Hx3; [by apply accepting_attempt_Ok in Hx4 as [-> _]|done]).
  rewrite Hfree in Hm. unfold accept_first in Hm. tx Hm.
  apply expected_sha256_Ok in Hx5 as ->. apply insert_event_Ok in Hx9 as [-> _].
  apply bool_decide_eq_true in Hx7. exists x4. unfold insert_acceptance in Hx13. tx Hx13.
  apply notify_quiet in Hx15 as [[= _ _ Eac _] Ed _ _]. split_and!; [done|done|done|..].
  - eexists. rewrite Eac. split; [txs Hx14; simpl; by rewrite lookup_insert_eq|done].
  - intros d Hd. apply holds_lease_Some in Hx4 as (Hr & _). apply job_of_Some in Hx1 as [Hr' _]. simplify_eq.
    rewrite Hd in Hx3. destruct proof as [p|]; [|by tx Hx3].
    remember s as s0 eqn:Hs0 in Hx3 at 2. tx Hx3.
    apply accepting_attempt_proof in Hx1 as (_ & rs & Hrs & Hact & Hid & Ha & Hj & Hde & Htok); [|done].
    eexists p, rs, _, _. split_and!; [done..| |].
    + rewrite Ed. tx Hx14. simpl. by rewrite lookup_alter_eq, Ha.
    + done.
Qed.

(** * Revocation *)

(** The state of a batch that started in [s0] with the rows [l0]. *)
Record batch (l0 : list (string * JobRow)) (s0 : Store) (l : list (string * JobRow)) (s : Store) : Prop := {
  ba_still : still l s;
  ba_open id r : (id, r) ∈ l → is_terminal r.(jr_life).(state) = false ∧ is_taken id s.(job_acceptances) = true;
  ba_sub id : id ∈ l.*1 → id ∈ l0.*1;
  ba_acceptances : s.(job_acceptances) = s0.(job_acceptances);
  ba_others id : id ∉ l0.*1 → s.(jobs) !! id = s0.(jobs) !! id;
  ba_done id : id ∈ l0.*1 → id ∉ l.*1 → ∃ r, ended (jview s) id r ∧ r.(jr_life).(state) = DeliveryUncertain
}.

Lemma terminalize_job_row c t agent id r s s' j :
  s.(jobs) !! id = Some r → terminalize_job c t agent (id, r) s = Ok (s', j) →
  ∃ r', ended (jview s') id r' ∧ r'.(jr_life).(state) = DeliveryUncertain.
Proof.
  intros Hr Hm. unfold terminalize_job in Hm. tx Hm. apply insert_event_Ok in Hx0 as [-> _].
  apply webhooks_quiet in Hx2 as [[= E1 _ _ _] _ _ _]. simpl in E1.
  eexists. split; [split; simpl; [rewrite E1, Hx1; simpl; by rewrite lookup_alter_eq, Hr|done]|done].
Qed.

Lemma batch_next c t agent l0 s0 e l s s' j :
  batch l0 s0 (e :: l) s → cloud_wf s → terminalize_job c t agent e s = Ok (s', j) →
  evolves s s' ∧ batch l0 s0 l s'.
Proof.
  destruct e as [id r]. intros [Hst Hop Hsub Hac Hoth Hdone] Hwf Hm.
  destruct (Hop id r) as [Ho Ht]; [by left|]. assert (Hr : s.(jobs) !! id = Some r) by (apply Hst; by left).
  destruct (terminalize_job_evolves c t agent id r s s' j) as (He & Ha & Hj); [done..|].
  split; [done|]. split.
  - by eapply still_next.
  - intros i x Hi. rewrite Ha. apply Hop. by right.
  - intros i Hi. apply Hsub. by right.
  - congruence.
  - intros i Hi. rewrite Hj; [by apply Hoth|]. intros ->. apply Hi, Hsub. by left.
  - intros i Hi Hn. destruct (decide (i = id)) as [->|Hne]; [by eapply terminalize_job_row|].
    destruct (Hdone i Hi) as (x & [Hx Hxt] & Hxs); [by apply not_elem_of_cons|].
    exists x. split; [split; [|done]|done]. simpl in *. by rewrite Hj.
Qed.

Lemma batch_start t agent s rows :
  cloud_wf s → rows = take 256 (sort_by older (select_rows (open_acceptance t agent s) s.(jobs))) →
  batch rows s rows s.
Proof.
  intros Hwf ->. split; try done; [apply still_sorted|].
  intros id r (i & Hi & _)%elem_of_take.
  apply list_elem_of_lookup_2, elem_of_sort_by, elem_of_select_rows in Hi as [Hr Hb].
  by eapply open_acceptance_facts.
Qed.

(** The jobs still to be ended. *)
Definition open_jobs t agent s : gmap string JobRow :=
  filter (λ e, open_acceptance t agent s e.1 e.2 = true) s.(jobs).

Lemma open_final_None t agent s id r : open_acceptance t agent s id r = true → r.(jr_life).(final_at) = None.
Proof.
  unfold open_acceptance. rewrite !andb_true_iff, !bool_decide_eq_true. tauto.
Qed.

(** A job that is open after a batch was open before it and not in it. *)
Lemma batch_open t agent l0 s0 s id r : cloud_wf s → batch l0 s0 [] s →
  s.(jobs) !! id = Some r → open_acceptance t agent s id r = true →
  ¬ (id ∈ l0.*1) ∧ s0.(jobs) !! id = Some r ∧ open_acceptance t agent s0 id r = true.
Proof.
  intros Hwf Hb Hr Ho. assert (Hn : id ∉ l0.*1).
  { intros Hin. destruct (ba_done _ _ _ _ Hb id Hin (not_elem_of_nil _)) as (x & [Hx Ht] & _). simpl in Hx.
    simplify_eq. apply open_final_None in Ho. destruct (row_of _ _ _ Hwf Hr) as [_ _ _ Hf].
    apply Hf in Ht. rewrite Ho in Ht. by destruct Ht. }
  split; [done|]. rewrite (ba_others _ _ _ _ Hb _ Hn) in Hr. split; [done|].
  unfold open_acceptance in *. by rewrite (ba_acceptances _ _ _ _ Hb) in Ho.
Qed.

Lemma batch_decreases t agent s s' rows :
  cloud_wf s → cloud_wf s' → rows = take 256 (sort_by older (select_rows (open_acceptance t agent s) s.(jobs))) →
  length rows ≠ 0 → batch rows s [] s' → size (open_jobs t agent s') < size (open_jobs t agent s).
Proof.
  intros Hwf Hwf' Hrows Hlen Hb. apply map_subset_size, strict_spec_alt. split.
  - apply map_subseteq_spec. intros id r. unfold open_jobs. rewrite !map_lookup_filter_Some. simpl. intros [Hr Ho].
    by destruct (batch_open _ _ _ _ _ _ _ Hwf' Hb Hr Ho) as (_ & ? & ?).
  - intros Heq. destruct rows as [|[id r] rest]; [done|].
    assert (Hin : (id, r) ∈ (id, r) :: rest) by by left. rewrite Hrows in Hin.
    apply elem_of_take in Hin as (i & Hi & _).
    apply list_elem_of_lookup_2, elem_of_sort_by, elem_of_select_rows in Hi as [Hr Ho].
    assert (Hl : open_jobs t agent s' !! id = Some r).
    { rewrite Heq. unfold open_jobs. by apply map_lookup_filter_Some. }
    unfold open_jobs in Hl. apply map_lookup_filter_Some in Hl as [Hr' Ho']. simpl in Ho'.
    destruct (batch_open _ _ _ _ _ _ _ Hwf' Hb Hr' Ho') as (Hn & _). apply Hn. by left.
Qed.

Lemma terminalize_loop_complete c t agent fuel : ∀ affected s s' a,
  cloud_wf s → size (open_jobs t agent s) < fuel → terminalize_loop c fuel t agent affected s = Ok (s', a) →
  open_jobs t agent s' = ∅ ∧
  ∀ id r, open_jobs t agent s !! id = Some r → ∃ r', ended (jview s') id r' ∧ r'.(jr_life).(state) = DeliveryUncertain.
Proof.
  induction fuel as [|fuel IH]; intros affected s s' a Hwf Hsize Hm; [lia|]. simpl in Hm. tx Hm.
  set (rows := take 256 _) in *. destruct (bool_decide _) eqn:Hz; tx Hm.
  - apply bool_decide_eq_true, length_zero_iff_nil in Hz.
    assert (Hnone : open_jobs t agent s = ∅); [|split; [done|]; intros id r Hr; by rewrite Hnone in Hr].
    apply map_eq. intros id. rewrite lookup_empty. apply eq_None_not_Some.
    intros [r [Hr Ho]%map_lookup_filter_Some].
    assert (Hin : (id, r) ∈ sort_by older (select_rows (open_acceptance t agent s) s.(jobs))).
    { by apply elem_of_sort_by, elem_of_select_rows. }
    unfold rows in Hz. destruct (sort_by _ _); [by apply not_elem_of_nil in Hin|done].
  - apply bool_decide_eq_false in Hz.
    destruct (for_each_evolves _ _ _ (batch_next c t agent rows s) _ _ _ (batch_start _ _ _ rows Hwf eq_refl) Hwf Hx)
      as [He Hb]. assert (Hwf0 := store_evolves_wf _ _ Hwf He).
    assert (Hlt := batch_decreases _ _ _ _ rows Hwf Hwf0 eq_refl Hz Hb).
    destruct (IH _ _ _ _ Hwf0 ltac:(lia) Hm) as [Hempty Hall]. split; [done|].
    intros id r [Hr Ho]%map_lookup_filter_Some. destruct (decide (id ∈ rows.*1)) as [Hin|Hn].
    + destruct (ba_done _ _ _ _ Hb id Hin (not_elem_of_nil _)) as (r1 & Hr1 & Hs1).
      assert (He' := terminalize_loop_evolves c _ _ _ _ _ _ _ Hwf0 Hm).
      destruct (evolves_jview _ _ _ jstep_ended He' _ _ Hr1) as (r2 & [Hr2 El _ _]). exists r2. by rewrite El.
    + apply (Hall id r), map_lookup_filter_Some. rewrite (ba_others _ _ _ _ Hb _ Hn). split; [done|].
      simpl in *. unfold open_acceptance in *. by rewrite (ba_acceptances _ _ _ _ Hb).
Qed.

Lemma retire_routes_jview c t agent s s' u : retire_node_routes c t agent s = Ok (s', u) → jview s' = jview s.
Proof. intros Hm. unfold retire_node_routes in Hm. txs Hm; [done|]. by txs Hx. Qed.

(** What follows the batches: jobs are put back into the queue, nothing else. *)
Lemma requeue_keeps_open t agent s :
  open_jobs t agent s = ∅ →
  open_jobs t agent (on_jobs (update_where (returned_to_queue t agent) return_to_queue) s) = ∅.
Proof.
  intros Hnone. apply map_eq. intros id. rewrite lookup_empty. apply eq_None_not_Some.
  intros [r' [Hr' Ho]%map_lookup_filter_Some]. simpl in *. rewrite lookup_update_where in Hr'.
  apply fmap_Some in Hr' as (r & Hr & ->).
  assert (Hl : open_jobs t agent s !! id = Some r); [|by rewrite Hnone in Hl].
  apply map_lookup_filter_Some. split; [done|]. simpl. by destruct (returned_to_queue t agent r).
Qed.

(** C24: when a node's revocation commits, the loop over its accepted jobs has ended all of
    them, however many batches it took: every job it had accepted and not finished is
    delivery_uncertain, no accepted job of it is open, and the node is not active. *)
Theorem revocation_ends_accepted_work c t agent s s' out :
  reachable s → revoke_agent_transaction c t agent s = Ok (s', out) →
  open_jobs t agent s' = ∅ ∧ active_agent t agent s' = false ∧
  ∀ id r, open_jobs t agent s !! id = Some r →
    ∃ r', s'.(jobs) !! id = Some r' ∧ r'.(jr_life).(state) = DeliveryUncertain.
Proof.
  intros Hwf%reachable_wf Hm. unfold revoke_agent_transaction in Hm. tx Hm.
  assert (He0 := terminalize_sound c _ _ _ _ _ Hwf Hx0). assert (Hwf0 := store_evolves_wf _ _ Hwf He0).
  assert (He1 := retire_routes_evolves c _ _ _ _ _ Hwf0 Hx1). assert (Ej1 := retire_routes_jview _ _ _ _ _ _ Hx1).
  assert (Hq : quiet s1 s2) by (etrans; [|unfold revoke_connectors in Hx2; by txs Hx2]; done).
  unfold terminalize_agent_acceptances in Hx0. tx Hx0. apply terminalize_loop_complete in Hx0 as [Hopen Hall]; [|done|].
  2: { apply Nat.lt_succ_r. unfold open_jobs. apply map_subseteq_size, map_filter_subseteq. }
  assert (Ej2 : jview s2 = jview s0) by (by rewrite (qt_jobs _ _ Hq)). injection Ej2 as E1 _ E2 _.
  split_and!.
  - apply requeue_keeps_open. rewrite <- Hopen. unfold open_jobs, open_acceptance. simpl. by rewrite E1, E2.
  - unfold active_agent. simpl. rewrite lookup_alter_eq. destruct (agents _ !! agent); [|done]. simpl. apply andb_false_r.
  - intros id r Hr. destruct (Hall _ _ Hr) as (r1 & Hr1 & Hs1).
    assert (He : evolves s0 (on_jobs (update_where (returned_to_queue t agent) return_to_queue) s2)).
    { etrans; [exact He1|]. etrans; [by apply quiet_evolves|apply return_to_queue_evolves]. }
    destruct (evolves_jview _ _ _ jstep_ended He _ _ Hr1) as (r2 & [[Hr2 _] El _ _]). exists r2. by rewrite El.
Qed.
End node_claims.
