(* ===== verification/CloudDemo.v ===== *)
(** A run of the control plane's store on concrete data: two nodes with a printer each, a
    delivery that becomes uncertain and is resolved, and jobs that end in other ways.  The
    theorems about the store are applied along it. *)

From S2P Require Import Prelude Domain CloudStore CloudWake CloudJobs CloudAccept CloudRevoke CloudRouting CloudTopology CloudReroute CloudFacts CloudDeliveries CloudQueue CloudSystem CloudRouteSteps CloudMachine CloudKept CloudRequests CloudClaims CloudNodeClaims.

Module CloudDemo.

(** A digest of 32 bytes. *)
Definition pad (x : string) : string := String.substring 0 32 (x +:+ "................................").
Definition external : CloudExternal :=
  {| sha256 := pad; base64_decode := Some; manifest_json := λ _, "{}"%string; rfc3339 := λ _, "now"%string |}.
#[local] Existing Instance external.

Definition clock (now : Z) : Clock :=
  {| sql_now := seconds now; utc_now := seconds now; month_start := 0; month_end := seconds 1000000;
     new_event_id := λ id n, id +:+ "-event-" +:+ pretty n;
     new_hint_id := λ id n agent, id +:+ "-hint-" +:+ agent; new_outbox_id := λ id, "outbox-" +:+ id |}.

Definition t : Tenant := ("workspace", "environment").

Definition agent_row : AgentRow := {| ag_tenant := t; ag_revoked_at := None; ag_connected := true |}.
Definition printer_row (agent : string) : PrinterRow :=
  {| pr_agent_id := agent; pr_capabilities_revision := 1; pr_profiles := []; pr_removed_at := None |}.
Definition route_row (destination printer agent : string) : RouteRow :=
  {| rt_destination_id := destination; rt_printer_id := printer; rt_agent_id := agent;
     rt_local_route_key := Some ("key-" +:+ printer); rt_state := RouteAvailable; rt_role := Primary;
     rt_priority := 0; rt_enabled := true; rt_retired_at := None |}.
Definition destination_row : DestinationRow :=
  {| pd_state := Available; pd_identity_confidence := "possible"; pd_identity_revision := 1; pd_retired_at := None |}.

Definition T : Topology :=
  {| agents := {["a1" := agent_row; "a2" := agent_row]};
     node_connectors := ∅;
     printer_routes := {[(t, "r1") := route_row "d1" "p1" "a1"; (t, "r2") := route_row "d2" "p2" "a2"]};
     physical_destinations := {[(t, "d1") := destination_row; (t, "d2") := destination_row]};
     printers := {[(t, "p1") := printer_row "a1"; (t, "p2") := printer_row "a2"]};
     targets := ∅; target_bindings := ∅; uploads := ∅; content_keys := ∅;
     environments := {[t := "live"%string]}; platform_accounts := ∅; workspaces := {["workspace" := None]};
     subscriptions := ∅; site_memberships := ∅; identity_evidence := ∅; identity_decisions := ∅;
     catalogue := {| stocks := ∅; printer_loaded_media := ∅; resolved_print_tickets := ∅ |} |}%string.

Definition job (id : string) (now : Z) : Job :=
  {| j_id := id; j_tenant := t; j_printer_id := "p1";
     j_details := {| title := "label"; source := None; content_kind := Pdf; options := default_options; deliveries := 1 |};
     j_content := Uri "https://example.org/label.pdf" None;
     j_metadata := {["piqae.destination_id" := "d1"; "piqae.route_id" := "r1"]};
     j_state := Registered; j_created_at := seconds now; j_expires_at := seconds (now + 3600);
     j_delivery_uncertain_since := None |}%string.

Definition waiting (id : string) (n : N) : JobEvent :=
  {| je_id := id +:+ "-waits"; je_job_id := id; je_sequence := n; je_state := WaitingForAgent; je_reason := None;
     je_message := None; je_agent_id := None; je_native_job_id := None; je_occurred_at := seconds 1 |}.

Definition report (id event : string) (st : JobState) : JobEvent :=
  {| je_id := event; je_job_id := id; je_sequence := 0; je_state := st; je_reason := None;
     je_message := None; je_agent_id := None; je_native_job_id := None; je_occurred_at := seconds 9 |}.

(** A transaction that commits. *)
Definition next {A} (m : Tx A) (s : Store) : Store := (transaction m s).1.

Lemma next_ok {A} (m : Tx A) s : is_ok (m s) = true → ∃ a, m s = Ok (next m s, a).
Proof. unfold next, transaction. destruct (m s) as [[? a]|]; [by exists a|done]. Qed.

Lemma runs_next {A} (m : Tx A) s : committed A m → runs s (next m s).
Proof. apply committed_runs. Qed.

Lemma reachable_next {A} (m : Tx A) s : committed A m → reachable s → reachable (next m s).
Proof. intros Hc [T0 Hr]. exists T0. etrans; [exact Hr|by apply runs_next]. Qed.

(** The node's lease and its proof of the attempt. *)
Definition new_lease (id : string) : string * string := ("lease-" +:+ id, "secret-" +:+ id).
Definition proof (id : string) : DeliveryAttemptProof :=
  {| dp_reservation_id := "reservation-" +:+ id; dp_generation := 1; dp_fencing_token := "token-" +:+ id |}.
Definition attempt (id destination route : string) : NewDeliveryAttempt :=
  {| nd_attempt_id := "attempt-" +:+ id; nd_reservation_id := "reservation-" +:+ id; nd_job_id := id;
     nd_destination_id := destination; nd_route_id := route; nd_lease_until := seconds 100 |}.

Definition create (id : string) (now : Z) : Tx CreateJobResult :=
  create_cloud_job (clock now) (job id now) "a1" (Some ("key-" +:+ id)) "body" true.
Definition queue (id : string) : Tx Job := append_event (clock 1) t (waiting id 2).
Definition claim : Tx (list JobLease) := claim_jobs (clock 2) (λ _, false) new_lease t "a1" "a1" 10.
Definition start (id destination route : string) : Tx (AttemptRow * ReservationRow) :=
  begin_delivery_attempt (clock 3) t (attempt id destination route) ("token-" +:+ id).
Definition accept (id : string) : Tx Job :=
  accept_agent_job_transactional (clock 4) t "a1" id (new_lease id).1 (new_lease id).2 None 1 (Some (proof id)).
Definition hand (id : string) (st : DeliveryAttemptState) : Tx AttemptRow :=
  transition_delivery_attempt (clock 5) t ("attempt-" +:+ id) 1 ("token-" +:+ id) st.

(** ** The run *)
Definition s0 : Store := empty_store T.
Definition s1 : Store := next (create "j1" 0) s0.
Definition s2 : Store := next (queue "j1") s1.
Definition s3 : Store := next claim s2.
Definition s4 : Store := next (start "j1" "d1" "r1") s3.
Definition s5 : Store := next (accept "j1") s4.
Definition s6 : Store := next (hand "j1" Attempt.HandingToSpooler) s5.
Definition s7 : Store := next (queue "j2") (next (create "j2" 1) s6).
Definition s8 : Store := next (hand "j1" Attempt.DeliveryUncertain) s7.

Lemma run_ok :
  is_ok (create "j1" 0 s0) && is_ok (queue "j1" s1) && is_ok (claim s2) && is_ok (start "j1" "d1" "r1" s3)
  && is_ok (accept "j1" s4) && is_ok (hand "j1" Attempt.HandingToSpooler s5)
  && is_ok (create "j2" 1 s6) && is_ok (hand "j1" Attempt.DeliveryUncertain s7) = true.
Proof. vm_compute. reflexivity. Qed.

(** The operator's decision, its way to the node and back, and the next delivery. *)
Definition s9 : Store := next (enqueue_delivery_uncertainty_resolution (clock 6) t "j1" "confirmed_delivered"
  None "operator" "request") s8.
Definition s10 : Store := next (sync_agent_commands (clock 7) t "a1" None 10) s9.
Definition s11 : Store := next (sync_agent_commands (clock 8) t "a1" (Some 1%Z) 10) s10.
Definition s12 : Store := next (finalize_delivery_uncertainty_resolution (clock 9) "resolution" t "request") s11.
Definition s13 : Store := next (start "j2" "d1" "r1") s12.

(** The node's report of a completed job, and a cancellation and an expiry of the other. *)
Definition reports : list JobState :=
  [QueuedLocal; Preparing; SpoolIntent; AcceptedBySpooler; CompletedReported].
Definition reported (e : string) (st : JobState) : Tx (option Job) := apply_agent_event (clock 9) t "a1" (report "j1" e st).
Definition c1 : Store := next (reported "e1" QueuedLocal) s5.
Definition c2 : Store := next (reported "e4" AcceptedBySpooler) (next (reported "e3" SpoolIntent)
  (next (reported "e2" Preparing) c1)).
Definition c3 : Store := next (reported "e5" CompletedReported) c2.
Definition cancel (id : string) : Tx Job := request_job_cancellation (clock 9) t id (CancelJob id).
Definition c4 : Store := next (cancel "j2") s7.
Definition expire : Tx (list (Tenant * Job * string)) := expire_jobs_before_handoff (clock 4000) (λ _, false) 10.
Definition c5 : Store := next expire s7.
Definition revoke : Tx (list Job) := revoke_agent_transaction (clock 9) t "a1".
Definition c6 : Store := next revoke s6.
Definition create_again (now : Z) : Tx CreateJobResult :=
  create_cloud_job (clock now) (job "j9" now) "a1" (Some "key-j1"%string) "body" true.

Lemma create_committed id now : committed _ (create id now).
Proof. by apply t_create. Qed.

Lemma accept_committed id : committed _ (accept id).
Proof. unfold accept. apply t_accept. Qed.
Lemma hand_committed id st : committed _ (hand id st).
Proof. unfold hand. apply t_transition. Qed.

#[local] Opaque next.

Lemma s0_reachable : reachable s0.
Proof. exists T. apply rtc_refl. Qed.
Lemma s1_reachable : reachable s1.
Proof. unfold s1. apply reachable_next; [apply create_committed|apply s0_reachable]. Qed.
Lemma s2_reachable : reachable s2.
Proof. unfold s2. apply reachable_next; [apply t_append|apply s1_reachable]. Qed.
Lemma s3_reachable : reachable s3.
Proof. unfold s3. apply reachable_next; [apply t_claim|apply s2_reachable]. Qed.
Lemma s4_reachable : reachable s4.
Proof. unfold s4. apply reachable_next; [apply t_begin|apply s3_reachable]. Qed.
Lemma s5_reachable : reachable s5.
Proof. unfold s5. apply reachable_next; [apply accept_committed|apply s4_reachable]. Qed.
Lemma s6_reachable : reachable s6.
Proof. unfold s6. apply reachable_next; [apply hand_committed|apply s5_reachable]. Qed.
Lemma s7_runs : runs s6 s7.
Proof.
  unfold s7. etrans; [exact (runs_next _ s6 (create_committed "j2" 1))|]. apply runs_next, t_append.
Qed.
Lemma s7_reachable : reachable s7.
Proof. destruct s6_reachable as [T0 Hr]. exists T0. etrans; [exact Hr|apply s7_runs]. Qed.
Lemma s8_reachable : reachable s8.
Proof. unfold s8. apply reachable_next; [apply hand_committed|apply s7_reachable]. Qed.

(** An operator merges the uncertain destination into another one. *)
Definition merge : Tx unit := record_identity_decision (clock 6) t
  {| id_id := "decision"; id_kind := Merge; id_destination_id := "d2"; id_related_destination_ids := ["d1"%string];
     id_route_ids := ["r1"%string]; id_evidence_ids := []; id_reverses := None |}.
Definition s_merged : Store := next merge s8.

Lemma s9_reachable : reachable s9.
Proof. unfold s9. apply reachable_next; [apply t_resolve|apply s8_reachable]. Qed.
Lemma s10_reachable : reachable s10.
Proof. unfold s10. apply reachable_next; [apply t_sync|apply s9_reachable]. Qed.
Lemma s11_reachable : reachable s11.
Proof. unfold s11. apply reachable_next; [apply t_sync|apply s10_reachable]. Qed.
Lemma s12_reachable : reachable s12.
Proof. unfold s12. apply reachable_next; [apply t_finalize|apply s11_reachable]. Qed.

(** A lookup that succeeds, with a property of what it finds. *)
Lemma found {A} (P : A → bool) (o : option A) :
  from_option P false o = true → ∃ a, o = Some a ∧ P a = true.
Proof. destruct o as [a|]; [by exists a|done]. Qed.

Tactic Notation "find_row" ident(a) ident(Ha) ident(Hp) uconstr(P) :=
  match goal with |- ∃ x, ?o = Some x ∧ _ =>
    destruct (found P o) as (a & Ha & Hp); [vm_compute; reflexivity|]; exists a; split; [exact Ha|]
  end.

(** ** The theorems at the run *)


Lemma deliveries_are_exclusive_witness :
  ∃ a, s4.(delivery_attempts) !! (t, "attempt-j1"%string) = Some a ∧ Attempt.renewable a.(at_state) = true
    ∧ ∀ k a', s4.(delivery_attempts) !! k = Some a' → Attempt.renewable a'.(at_state) = true →
        a'.(at_tenant) = t → a'.(at_destination_id) = "d1"%string → k = (t, "attempt-j1"%string).
Proof.
  find_row a Ha Hp (λ a, Attempt.renewable a.(at_state) && bool_decide (a.(at_tenant) = t)
                 && bool_decide (a.(at_destination_id) = "d1"%string)).
  rewrite !andb_true_iff, !bool_decide_eq_true in Hp. destruct Hp as [[Hr Ht] Hd]. split; [exact Hr|].
  intros k a' Ha' Hr' Ht' Hd'.
  apply (deliveries_are_exclusive s4 k a' _ a s4_reachable Ha' Ha Hr' Hr); [congruence|right; left; congruence].
Defined.

Lemma events_explain_state_witness :
  ∃ r, s8.(jobs) !! "j1"%string = Some r ∧
    ∃ e, s8.(job_events) !! ("j1"%string, Z.to_N r.(jr_life).(state_sequence)) = Some e
         ∧ follows e.(er_event).(je_state) r.(jr_life).(state).
Proof.
  find_row a Ha Hp (λ _ : JobRow, true).
  destruct (events_explain_state s8 "j1" a s8_reachable Ha) as (_ & _ & H1). exact H1.
Defined.

Lemma acceptance_is_final_witness :
  ∃ a, s6.(job_acceptances) !! "j1"%string = Some a ∧
    ∃ a', s7.(job_acceptances) !! "j1"%string = Some a' ∧ same_acceptance a a'.
Proof.
  find_row a Ha Hp (λ _ : AcceptanceRow, true).
  destruct (acceptance_is_final s6 s7 "j1" a s6_reachable s7_runs Ha) as (a' & r & H1 & H2 & _).
  exact (ex_intro _ a' (conj H1 H2)).
Defined.

Lemma c1_reachable : reachable c1.
Proof. unfold c1. apply reachable_next; [apply t_agent_event|apply s5_reachable]. Qed.
Lemma reported_committed e st : committed _ (reported e st).
Proof. apply t_agent_event. Qed.
Lemma c2_runs : runs c1 c2.
Proof.
  unfold c2. etrans; [|apply runs_next, reported_committed]. etrans; [|apply runs_next, reported_committed].
  apply runs_next, reported_committed.
Qed.
Lemma c2_reachable : reachable c2.
Proof. destruct c1_reachable as [T0 Hr]. exists T0. etrans; [exact Hr|apply c2_runs]. Qed.
Lemma c3_reachable : reachable c3.
Proof. unfold c3. apply reachable_next; [apply reported_committed|apply c2_reachable]. Qed.
Definition c3_expired : Store := next expire c3.
Lemma c3_runs : runs c3 c3_expired.
Proof. unfold c3_expired. apply runs_next, t_expire. Qed.

Lemma terminal_jobs_are_final_witness :
  ∃ r, c3.(jobs) !! "j1"%string = Some r ∧ r.(jr_life).(state) = CompletedReported ∧
    ∃ r', c3_expired.(jobs) !! "j1"%string = Some r' ∧ r'.(jr_life) = r.(jr_life).
Proof.
  find_row r Hr Hp (λ r, bool_decide (r.(jr_life).(state) = CompletedReported)).
  apply bool_decide_eq_true in Hp. split; [exact Hp|].
  destruct (terminal_jobs_are_final c3 c3_expired "j1" r c3_reachable c3_runs Hr) as (r' & H1 & H2 & _).
  - rewrite Hp. reflexivity.
  - exact (ex_intro _ r' (conj H1 H2)).
Defined.

Lemma usage_is_recorded_once_witness :
  ∃ u, c3.(usage_ledger) !! "j1"%string = Some u ∧ c3_expired.(usage_ledger) !! "j1"%string = Some u.
Proof.
  find_row u Hu Hp (λ _ : Tenant * Z, true).
  exact (proj1 (usage_is_recorded_once c3 c3_expired "j1" u c3_reachable c3_runs Hu)).
Defined.

Lemma attempts_only_advance_witness :
  ∃ a, s6.(delivery_attempts) !! (t, "attempt-j1"%string) = Some a ∧
    ∃ a', s7.(delivery_attempts) !! (t, "attempt-j1"%string) = Some a' ∧ same_attempt a a'.
Proof.
  find_row a Ha Hp (λ _ : AttemptRow, true).
  destruct (attempts_only_advance s6 s7 _ a s6_reachable s7_runs Ha) as (a' & H1 & H2 & _).
  exact (ex_intro _ a' (conj H1 H2)).
Defined.

(** The answers of the transactions of the run. *)
Lemma start_again_ok : is_ok (start "j2" "d1" "r1" s12) = true.
Proof. vm_compute. reflexivity. Qed.
Lemma accept_ok : is_ok (accept "j1" s4) = true.
Proof. vm_compute. reflexivity. Qed.

Lemma uncertain_destination_is_fenced_witness :
  ∃ l a, history (s12 :: l) ∧ s12.(delivery_attempts) !! (t, "attempt-j1"%string) = Some a
    ∧ a.(at_state) = Attempt.DeliveryUncertain ∧ settled_by_owner (s12 :: l) t a s12.
Proof.
  destruct (reachable_history s12 s12_reachable) as [l Hl]. exists l.
  destruct (found (λ a, bool_decide (a.(at_state) = Attempt.DeliveryUncertain) && bool_decide (a.(at_tenant) = t)
                         && bool_decide (a.(at_destination_id) = "d1"%string))
    (s12.(delivery_attempts) !! (t, "attempt-j1"%string))) as (a & Ha & Hp); [vm_compute; reflexivity|].
  rewrite !andb_true_iff, !bool_decide_eq_true in Hp. destruct Hp as [[Hs Ht] Hd].
  exists a. split; [exact Hl|]. split; [exact Ha|]. split; [exact Hs|].
  destruct (next_ok _ _ start_again_ok) as [x Hm]. unfold start in Hm at 1. rewrite begin_at_once in Hm.
  destruct (uncertain_destination_is_fenced (clock 3) t (attempt "j2" "d1" "r1") "token-j2" s12 l s12 _ _
    Hl (rtc_refl _ s12) Hm) as [H1 _].
  exact (H1 _ _ Ha Ht Hd Hs).
Defined.

Lemma report_ok : is_ok (reported "e1" QueuedLocal s5) = true.
Proof. vm_compute. reflexivity. Qed.

Lemma agent_events_apply_once_witness :
  is_ok (reported "e1" QueuedLocal s5) = true ∧ reported "e1" QueuedLocal c2 = Ok (c2, None).
Proof.
  split; [exact report_ok|]. destruct (next_ok _ _ report_ok) as [o Hm].
  exact (agent_events_apply_once (clock 9) (clock 9) t t "a1" (report "j1" "e1" QueuedLocal)
    (report "j1" "e1" QueuedLocal) s5 c1 c2 o s5_reachable Hm c2_runs eq_refl).
Defined.

Lemma expire_ok : is_ok (expire s7) = true.
Proof. vm_compute. reflexivity. Qed.

Definition c5_claimed : Store := next (claim_jobs (clock 4001) (λ _, false) new_lease t "a1" "a1" 10) c5.
Lemma c5_runs : runs c5 c5_claimed.
Proof. unfold c5_claimed. apply runs_next, t_claim. Qed.

Lemma expired_jobs_are_never_delivered_witness :
  ∃ out j key, expire s7 = Ok (c5, out) ∧ (t, j, key) ∈ out ∧ j.(j_id) = "j2"%string
    ∧ closed c5_claimed j.(j_id) Expired.
Proof.
  destruct (next_ok _ _ expire_ok) as [out Hm].
  destruct (found (λ x, bool_decide (x.1.1 = t) && bool_decide (x.1.2.(j_id) = "j2"%string))
    (match expire s7 with Ok (_, out) => head out | Err _ => None end))
    as ([[t' j] key] & Hx & [Ht Hj]%andb_true_iff); [vm_compute; reflexivity|].
  apply bool_decide_eq_true in Ht, Hj. simpl in Ht, Hj. subst t'. rewrite Hm in Hx.
  assert (Hin : (t, j, key) ∈ out) by (destruct out; [discriminate Hx|injection Hx as ->; left]).
  exists out, j, key. split_and!; [exact Hm|exact Hin|exact Hj|].
  exact (proj2 (expired_jobs_are_never_delivered (clock 4000) (λ _, false) 10 s7 c5 c5_claimed out t j key
    s7_reachable Hm Hin c5_runs)).
Defined.

Lemma cancel_ok : is_ok (cancel "j2" s7) = true.
Proof. vm_compute. reflexivity. Qed.
Definition c4_claimed : Store := next claim c4.
Lemma c4_runs : runs c4 c4_claimed.
Proof. unfold c4_claimed. apply runs_next, t_claim. Qed.
Lemma j2_not_accepted : s7.(job_acceptances) !! "j2"%string = None.
Proof. vm_compute. reflexivity. Qed.

Lemma cancellation_reaches_the_node_or_ends_witness :
  is_ok (cancel "j2" s7) = true ∧ closed c4_claimed "j2" Cancelled.
Proof.
  split; [exact cancel_ok|]. destruct (next_ok _ _ cancel_ok) as [j Hm].
  destruct (cancellation_reaches_the_node_or_ends (clock 9) t "j2" (CancelJob "j2") s7 c4 c4_claimed j
    s7_reachable Hm c4_runs) as [(a & r & n & Ha & _)|Hc]; [|exact Hc].
  rewrite j2_not_accepted in Ha. discriminate Ha.
Defined.

Lemma created_j1 : ∃ o, create "j1" 0 s0 = Ok (s1, Created o).
Proof.
  assert (Ho : is_ok (create "j1" 0 s0) = true) by (vm_compute; reflexivity).
  destruct (next_ok _ _ Ho) as [[o|o] Hm]; [exists o; exact Hm|]. exfalso.
  assert (Hb : (match create "j1" 0 s0 with Ok (_, Created _) => true | _ => false end) = true) by (vm_compute; reflexivity).
  rewrite Hm in Hb. discriminate Hb.
Qed.
Lemma s1_s2_runs : runs s1 s2.
Proof. unfold s2. apply runs_next, t_append. Qed.

Lemma creation_is_idempotent_witness :
  ∃ r, s2.(jobs) !! "j1"%string = Some r ∧ create_again 3600 s2 = Ok (s2, Existing (job_from_row r)).
Proof.
  destruct created_j1 as [o Hm].
  exact (creation_is_idempotent (clock 0) (clock 3600) (job "j1" 0) (job "j9" 3600) "a1" "a1" "key-j1" "body" "body"
    true true s0 s1 s2 o s0_reachable eq_refl Hm s1_s2_runs eq_refl eq_refl).
Defined.

Lemma expired_keys_create_nothing_witness :
  ¬ ∃ s' o, create_again 86400 s2 = Ok (s', Created o).
Proof.
  destruct created_j1 as [o Hm].
  apply (expired_keys_create_nothing (clock 0) (clock 86400) (job "j1" 0) (job "j9" 86400) "a1" "a1" "key-j1" "body"
    "body" true true s0 s1 s2 o s0_reachable eq_refl Hm s1_s2_runs eq_refl).
  unfold clock, seconds. simpl. lia.
Defined.

Lemma claim_ok : is_ok (claim s2) = true.
Proof. vm_compute. reflexivity. Qed.

Lemma claimed_jobs_are_leased_once_witness :
  ∃ leases, claim s2 = Ok (s3, leases) ∧ NoDup ((λ l, l.(jl_job).(j_id)) <$> leases).
Proof.
  destruct (next_ok _ _ claim_ok) as [leases Hm]. exists leases. split; [exact Hm|].
  exact (proj1 (proj2 (claimed_jobs_are_leased_once (clock 2) (λ _, false) new_lease t "a1" "a1" 10 s2 s3 leases
    s2_reachable Hm))).
Defined.

Lemma j1_not_accepted : s4.(job_acceptances) !! "j1"%string = None.
Proof. vm_compute. reflexivity. Qed.

Lemma acceptance_needs_lease_and_proof_witness :
  is_ok (accept "j1" s4) = true ∧
  ∃ r, holds_lease (clock 4) t "a1" "j1" "lease-j1" "secret-j1" s4 = Some r ∧ active_agent t "a1" s4 = true.
Proof.
  split; [exact accept_ok|]. destruct (next_ok _ _ accept_ok) as [j Hm].
  destruct (acceptance_needs_lease_and_proof (clock 4) t "a1" "j1" "lease-j1" "secret-j1" None 1 (Some (proof "j1"))
    s4 s5 j s4_reachable Hm j1_not_accepted) as (r & H1 & H2 & _).
  exact (ex_intro _ r (conj H1 H2)).
Defined.

Lemma revoke_ok : is_ok (revoke s6) = true.
Proof. vm_compute. reflexivity. Qed.

Lemma revocation_ends_accepted_work_witness :
  is_ok (revoke s6) = true ∧ open_jobs t "a1" c6 = ∅ ∧ active_agent t "a1" c6 = false.
Proof.
  split; [exact revoke_ok|]. destruct (next_ok _ _ revoke_ok) as [out Hm].
  destruct (revocation_ends_accepted_work (clock 9) t "a1" s6 c6 out s6_reachable Hm) as (H1 & H2 & _).
  exact (conj H1 H2).
Defined.

(** ** What the fence does not cover *)

Lemma merge_ok : is_ok (merge s8) = true.
Proof. vm_compute. reflexivity. Qed.

(** While the delivery to the printer is uncertain and unresolved, an attempt of the next
    job is refused; after the merge the same route takes it under the other destination, and
    the delivery is still unresolved. *)
Lemma merge_lifts_the_fence_witness :
  is_ok (start "j2" "d1" "r1" s8) = false ∧ unresolved t "d1" s8 = true ∧
  unresolved t "d1" s_merged = true ∧ unresolved t "d2" s_merged = false ∧
  is_ok (start "j2" "d2" "r1" s_merged) = true.
Proof.
  split; [vm_compute; reflexivity|]. split; [vm_compute; reflexivity|].
  destruct (found (λ a, bool_decide (a.(at_state) = Attempt.DeliveryUncertain) && bool_decide (a.(at_tenant) = t)
      && bool_decide (a.(at_destination_id) = "d1"%string) && bool_decide (a.(at_route_id) = "r1"%string)
      && negb (resolved t a.(at_id) s8))
    (s8.(delivery_attempts) !! (t, "attempt-j1"%string))) as (a & Ha & Hp); [vm_compute; reflexivity|].
  rewrite !andb_true_iff, !bool_decide_eq_true, negb_true_iff in Hp. destruct Hp as [[[[Hs Ht] Hd] Hr] Hno].
  destruct (next_ok _ _ merge_ok) as [[] Hm].
  destruct (merge_lifts_the_fence (clock 6) t _ s8 _ _ a Hm (or_introl eq_refl) Ha Ht
    ltac:(rewrite Hr; left) Hs Hno) as (_ & _ & _ & H1 & H2). rewrite Hd in H1.
  split; [exact H1|]. split; [|vm_compute; reflexivity]. etrans; [exact H2|vm_compute; reflexivity].
Defined.
End CloudDemo.
