(* ===== verification/TopologyMemory.v ===== *)
(** The in-memory repository of destinations, routes and deliveries
    (crates/storage-postgres/src/destination_topology.rs,
    [MemoryDestinationTopologyRepository]), which a control plane without a database uses in
    place of the transactions of [CloudRouting] and [CloudTopology].

    An operation holds the lock of the state while it runs and changes it in place: what it
    wrote before an error stays.  The rows of attempts, reservations and resolutions are
    those of the database; the key of a map carries the tenant and the identifier, and the
    digest beside an attempt is its [at_fencing_token_hash] (and, as a column of the table, that
    of its reservation, which the memory does not read).  The iteration order of a hash
    map is some order. *)

From S2P Require Import Prelude Domain CloudStore CloudRouting CloudTopology.

(** * State *)

Inductive IdentityConfidence := ConfidenceUnknown | Possible | High | Verified | Conflict.
#[export] Instance IdentityConfidence_eq_dec : EqDecision IdentityConfidence.
Proof. solve_decision. Defined.

Record StoredPhysicalDestination := {
  spd_id : string;
  spd_name : string;
  spd_identity_confidence : IdentityConfidence;
  spd_state : DestinationState;
  spd_identity_revision : N;
  spd_created_at : Z
}.
Record StoredPrinterRoute := {
  spr_id : string;
  spr_destination_id : string;
  spr_printer_id : string;
  spr_agent_id : string;
  spr_local_route_key : option string;
  spr_state : RouteState;
  spr_role : RouteRole;
  spr_enabled : bool;
  spr_created_at : Z
}.
Record IdentityEvidence := {
  ie_id : string;
  ie_destination_id : string;
  ie_route_id : string;
  ie_value_digest : string;
  ie_conflicts : bool
}.
(** What was seen, beside its sequence and its times. *)
Record RouteObservation := {
  ro_route_id : string;
  ro_sequence : N;
  ro_seen : string;
  ro_observed_at : Z;
  ro_fresh_until : Z
}.
#[export] Instance RouteObservation_eq_dec : EqDecision RouteObservation.
Proof. solve_decision. Defined.
Record NodeRuntimeObservation := {
  no_agent_id : string;
  no_sequence : N;
  no_seen : string;
  no_observed_at : Z;
  no_fresh_until : Z
}.
#[export] Instance NodeRuntimeObservation_eq_dec : EqDecision NodeRuntimeObservation.
Proof. solve_decision. Defined.
Record NodeWakeHint := {
  nw_id : string;
  nw_agent_id : string;
  nw_reason : string;
  nw_delivery_channel : string;
  nw_status : HintStatus;
  nw_requested_at : Z;
  nw_expires_at : Z;
  nw_observed_at : option Z
}.
Record ProjectionAcknowledgement := {
  pj_agent_id : string;
  pj_route_id : string;
  pj_inventory_revision : N;
  pj_status : string
}.
Record MemoryDecisionSnapshot := {
  ms_destinations : list StoredPhysicalDestination;
  ms_routes : list StoredPrinterRoute
}.

Record MemoryState := {
  destinations : gmap (Tenant * string) StoredPhysicalDestination;
  routes : gmap (Tenant * string) StoredPrinterRoute;
  evidence : gmap (Tenant * string) IdentityEvidence;
  decisions : gmap (Tenant * string) IdentityDecision;
  decision_snapshots : gmap (Tenant * string) MemoryDecisionSnapshot;
  observations : gmap (Tenant * string) (list RouteObservation);
  runtime_observations : gmap (Tenant * string) (list NodeRuntimeObservation);
  wake_hints : gmap (Tenant * string) (NodeWakeHint * string);
  acknowledgements : gmap (Tenant * string * string) ProjectionAcknowledgement;
  memberships : gmap (Tenant * string * string) bool;
  revoked_agents : gset (Tenant * string);
  attempts : gmap (Tenant * string) AttemptRow;
  reservations : gmap (Tenant * string) ReservationRow;
  uncertainty_resolutions : gmap (Tenant * string) (string * ResolutionRow);
  pending_uncertainty_resolutions : gmap (Tenant * string) (PendingRow * AgentCommand);
  acknowledged_uncertainty_commands : gset (Tenant * Z);
  next_uncertainty_command_cursor : Z
}.

Definition on_destinations (f : gmap (Tenant * string) StoredPhysicalDestination → gmap (Tenant * string) StoredPhysicalDestination) (m : MemoryState) : MemoryState :=
  {| destinations := f m.(destinations); routes := m.(routes); evidence := m.(evidence);
     decisions := m.(decisions); decision_snapshots := m.(decision_snapshots);
     observations := m.(observations); runtime_observations := m.(runtime_observations);
     wake_hints := m.(wake_hints); acknowledgements := m.(acknowledgements);
     memberships := m.(memberships); revoked_agents := m.(revoked_agents); attempts := m.(attempts);
     reservations := m.(reservations); uncertainty_resolutions := m.(uncertainty_resolutions);
     pending_uncertainty_resolutions := m.(pending_uncertainty_resolutions);
     acknowledged_uncertainty_commands := m.(acknowledged_uncertainty_commands);
     next_uncertainty_command_cursor := m.(next_uncertainty_command_cursor) |}.
Definition on_routes (f : gmap (Tenant * string) StoredPrinterRoute → gmap (Tenant * string) StoredPrinterRoute) (m : MemoryState) : MemoryState :=
  {| destinations := m.(destinations); routes := f m.(routes); evidence := m.(evidence);
     decisions := m.(decisions); decision_snapshots := m.(decision_snapshots);
     observations := m.(observations); runtime_observations := m.(runtime_observations);
     wake_hints := m.(wake_hints); acknowledgements := m.(acknowledgements);
     memberships := m.(memberships); revoked_agents := m.(revoked_agents); attempts := m.(attempts);
     reservations := m.(reservations); uncertainty_resolutions := m.(uncertainty_resolutions);
     pending_uncertainty_resolutions := m.(pending_uncertainty_resolutions);
     acknowledged_uncertainty_commands := m.(acknowledged_uncertainty_commands);
     next_uncertainty_command_cursor := m.(next_uncertainty_command_cursor) |}.
Definition on_evidence (f : gmap (Tenant * string) IdentityEvidence → gmap (Tenant * string) IdentityEvidence) (m : MemoryState) : MemoryState :=
  {| destinations := m.(destinations); routes := m.(routes); evidence := f m.(evidence);
     decisions := m.(decisions); decision_snapshots := m.(decision_snapshots);
     observations := m.(observations); runtime_observations := m.(runtime_observations);
     wake_hints := m.(wake_hints); acknowledgements := m.(acknowledgements);
     memberships := m.(memberships); revoked_agents := m.(revoked_agents); attempts := m.(attempts);
     reservations := m.(reservations); uncertainty_resolutions := m.(uncertainty_resolutions);
     pending_uncertainty_resolutions := m.(pending_uncertainty_resolutions);
     acknowledged_uncertainty_commands := m.(acknowledged_uncertainty_commands);
     next_uncertainty_command_cursor := m.(next_uncertainty_command_cursor) |}.
Definition on_decisions (f : gmap (Tenant * string) IdentityDecision → gmap (Tenant * string) IdentityDecision) (m : MemoryState) : MemoryState :=
  {| destinations := m.(destinations); routes := m.(routes); evidence := m.(evidence);
     decisions := f m.(decisions); decision_snapshots := m.(decision_snapshots);
     observations := m.(observations); runtime_observations := m.(runtime_observations);
     wake_hints := m.(wake_hints); acknowledgements := m.(acknowledgements);
     memberships := m.(memberships); revoked_agents := m.(revoked_agents); attempts := m.(attempts);
     reservations := m.(reservations); uncertainty_resolutions := m.(uncertainty_resolutions);
     pending_uncertainty_resolutions := m.(pending_uncertainty_resolutions);
     acknowledged_uncertainty_commands := m.(acknowledged_uncertainty_commands);
     next_uncertainty_command_cursor := m.(next_uncertainty_command_cursor) |}.
Definition on_decision_snapshots (f : gmap (Tenant * string) MemoryDecisionSnapshot → gmap (Tenant * string) MemoryDecisionSnapshot) (m : MemoryState) : MemoryState :=
  {| destinations := m.(destinations); routes := m.(routes); evidence := m.(evidence);
     decisions := m.(decisions); decision_snapshots := f m.(decision_snapshots);
     observations := m.(observations); runtime_observations := m.(runtime_observations);
     wake_hints := m.(wake_hints); acknowledgements := m.(acknowledgements);
     memberships := m.(memberships); revoked_agents := m.(revoked_agents); attempts := m.(attempts);
     reservations := m.(reservations); uncertainty_resolutions := m.(uncertainty_resolutions);
     pending_uncertainty_resolutions := m.(pending_uncertainty_resolutions);
     acknowledged_uncertainty_commands := m.(acknowledged_uncertainty_commands);
     next_uncertainty_command_cursor := m.(next_uncertainty_command_cursor) |}.
Definition on_observations (f : gmap (Tenant * string) (list RouteObservation) → gmap (Tenant * string) (list RouteObservation)) (m : MemoryState) : MemoryState :=
  {| destinations := m.(destinations); routes := m.(routes); evidence := m.(evidence);
     decisions := m.(decisions); decision_snapshots := m.(decision_snapshots);
     observations := f m.(observations); runtime_observations := m.(runtime_observations);
     wake_hints := m.(wake_hints); acknowledgements := m.(acknowledgements);
     memberships := m.(memberships); revoked_agents := m.(revoked_agents); attempts := m.(attempts);
     reservations := m.(reservations); uncertainty_resolutions := m.(uncertainty_resolutions);
     pending_uncertainty_resolutions := m.(pending_uncertainty_resolutions);
     acknowledged_uncertainty_commands := m.(acknowledged_uncertainty_commands);
     next_uncertainty_command_cursor := m.(next_uncertainty_command_cursor) |}.
Definition on_runtime_observations (f : gmap (Tenant * string) (list NodeRuntimeObservation) → gmap (Tenant * string) (list NodeRuntimeObservation)) (m : MemoryState) : MemoryState :=
  {| destinations := m.(destinations); routes := m.(routes); evidence := m.(evidence);
     decisions := m.(decisions); decision_snapshots := m.(decision_snapshots);
     observations := m.(observations); runtime_observations := f m.(runtime_observations);
     wake_hints := m.(wake_hints); acknowledgements := m.(acknowledgements);
     memberships := m.(memberships); revoked_agents := m.(revoked_agents); attempts := m.(attempts);
     reservations := m.(reservations); uncertainty_resolutions := m.(uncertainty_resolutions);
     pending_uncertainty_resolutions := m.(pending_uncertainty_resolutions);
     acknowledged_uncertainty_commands := m.(acknowledged_uncertainty_commands);
     next_uncertainty_command_cursor := m.(next_uncertainty_command_cursor) |}.
Definition on_wake_hints (f : gmap (Tenant * string) (NodeWakeHint * string) → gmap (Tenant * string) (NodeWakeHint * string)) (m : MemoryState) : MemoryState :=
  {| destinations := m.(destinations); routes := m.(routes); evidence := m.(evidence);
     decisions := m.(decisions); decision_snapshots := m.(decision_snapshots);
     observations := m.(observations); runtime_observations := m.(runtime_observations);
     wake_hints := f m.(wake_hints); acknowledgements := m.(acknowledgements);
     memberships := m.(memberships); revoked_agents := m.(revoked_agents); attempts := m.(attempts);
     reservations := m.(reservations); uncertainty_resolutions := m.(uncertainty_resolutions);
     pending_uncertainty_resolutions := m.(pending_uncertainty_resolutions);
     acknowledged_uncertainty_commands := m.(acknowledged_uncertainty_commands);
     next_uncertainty_command_cursor := m.(next_uncertainty_command_cursor) |}.
Definition on_acknowledgements (f : gmap (Tenant * string * string) ProjectionAcknowledgement → gmap (Tenant * string * string) ProjectionAcknowledgement) (m : MemoryState) : MemoryState :=
  {| destinations := m.(destinations); routes := m.(routes); evidence := m.(evidence);
     decisions := m.(decisions); decision_snapshots := m.(decision_snapshots);
     observations := m.(observations); runtime_observations := m.(runtime_observations);
     wake_hints := m.(wake_hints); acknowledgements := f m.(acknowledgements);
     memberships := m.(memberships); revoked_agents := m.(revoked_agents); attempts := m.(attempts);
     reservations := m.(reservations); uncertainty_resolutions := m.(uncertainty_resolutions);
     pending_uncertainty_resolutions := m.(pending_uncertainty_resolutions);
     acknowledged_uncertainty_commands := m.(acknowledged_uncertainty_commands);
     next_uncertainty_command_cursor := m.(next_uncertainty_command_cursor) |}.
Definition on_memberships (f : gmap (Tenant * string * string) bool → gmap (Tenant * string * string) bool) (m : MemoryState) : MemoryState :=
  {| destinations := m.(destinations); routes := m.(routes); evidence := m.(evidence);
     decisions := m.(decisions); decision_snapshots := m.(decision_snapshots);
     observations := m.(observations); runtime_observations := m.(runtime_observations);
     wake_hints := m.(wake_hints); acknowledgements := m.(acknowledgements);
     memberships := f m.(memberships); revoked_agents := m.(revoked_agents); attempts := m.(attempts);
     reservations := m.(reservations); uncertainty_resolutions := m.(uncertainty_resolutions);
     pending_uncertainty_resolutions := m.(pending_uncertainty_resolutions);
     acknowledged_uncertainty_commands := m.(acknowledged_uncertainty_commands);
     next_uncertainty_command_cursor := m.(next_uncertainty_command_cursor) |}.
Definition on_revoked_agents (f : gset (Tenant * string) → gset (Tenant * string)) (m : MemoryState) : MemoryState :=
  {| destinations := m.(destinations); routes := m.(routes); evidence := m.(evidence);
     decisions := m.(decisions); decision_snapshots := m.(decision_snapshots);
     observations := m.(observations); runtime_observations := m.(runtime_observations);
     wake_hints := m.(wake_hints); acknowledgements := m.(acknowledgements);
     memberships := m.(memberships); revoked_agents := f m.(revoked_agents); attempts := m.(attempts);
     reservations := m.(reservations); uncertainty_resolutions := m.(uncertainty_resolutions);
     pending_uncertainty_resolutions := m.(pending_uncertainty_resolutions);
     acknowledged_uncertainty_commands := m.(acknowledged_uncertainty_commands);
     next_uncertainty_command_cursor := m.(next_uncertainty_command_cursor) |}.
Definition on_attempts (f : gmap (Tenant * string) AttemptRow → gmap (Tenant * string) AttemptRow) (m : MemoryState) : MemoryState :=
  {| destinations := m.(destinations); routes := m.(routes); evidence := m.(evidence);
     decisions := m.(decisions); decision_snapshots := m.(decision_snapshots);
     observations := m.(observations); runtime_observations := m.(runtime_observations);
     wake_hints := m.(wake_hints); acknowledgements := m.(acknowledgements);
     memberships := m.(memberships); revoked_agents := m.(revoked_agents); attempts := f m.(attempts);
     reservations := m.(reservations); uncertainty_resolutions := m.(uncertainty_resolutions);
     pending_uncertainty_resolutions := m.(pending_uncertainty_resolutions);
     acknowledged_uncertainty_commands := m.(acknowledged_uncertainty_commands);
     next_uncertainty_command_cursor := m.(next_uncertainty_command_cursor) |}.
Definition on_reservations (f : gmap (Tenant * string) ReservationRow → gmap (Tenant * string) ReservationRow) (m : MemoryState) : MemoryState :=
  {| destinations := m.(destinations); routes := m.(routes); evidence := m.(evidence);
     decisions := m.(decisions); decision_snapshots := m.(decision_snapshots);
     observations := m.(observations); runtime_observations := m.(runtime_observations);
     wake_hints := m.(wake_hints); acknowledgements := m.(acknowledgements);
     memberships := m.(memberships); revoked_agents := m.(revoked_agents); attempts := m.(attempts);
     reservations := f m.(reservations); uncertainty_resolutions := m.(uncertainty_resolutions);
     pending_uncertainty_resolutions := m.(pending_uncertainty_resolutions);
     acknowledged_uncertainty_commands := m.(acknowledged_uncertainty_commands);
     next_uncertainty_command_cursor := m.(next_uncertainty_command_cursor) |}.
Definition on_uncertainty_resolutions (f : gmap (Tenant * string) (string * ResolutionRow) → gmap (Tenant * string) (string * ResolutionRow)) (m : MemoryState) : MemoryState :=
  {| destinations := m.(destinations); routes := m.(routes); evidence := m.(evidence);
     decisions := m.(decisions); decision_snapshots := m.(decision_snapshots);
     observations := m.(observations); runtime_observations := m.(runtime_observations);
     wake_hints := m.(wake_hints); acknowledgements := m.(acknowledgements);
     memberships := m.(memberships); revoked_agents := m.(revoked_agents); attempts := m.(attempts);
     reservations := m.(reservations); uncertainty_resolutions := f m.(uncertainty_resolutions);
     pending_uncertainty_resolutions := m.(pending_uncertainty_resolutions);
     acknowledged_uncertainty_commands := m.(acknowledged_uncertainty_commands);
     next_uncertainty_command_cursor := m.(next_uncertainty_command_cursor) |}.
Definition on_pending_uncertainty_resolutions (f : gmap (Tenant * string) (PendingRow * AgentCommand) → gmap (Tenant * string) (PendingRow * AgentCommand)) (m : MemoryState) : MemoryState :=
  {| destinations := m.(destinations); routes := m.(routes); evidence := m.(evidence);
     decisions := m.(decisions); decision_snapshots := m.(decision_snapshots);
     observations := m.(observations); runtime_observations := m.(runtime_observations);
     wake_hints := m.(wake_hints); acknowledgements := m.(acknowledgements);
     memberships := m.(memberships); revoked_agents := m.(revoked_agents); attempts := m.(attempts);
     reservations := m.(reservations); uncertainty_resolutions := m.(uncertainty_resolutions);
     pending_uncertainty_resolutions := f m.(pending_uncertainty_resolutions);
     acknowledged_uncertainty_commands := m.(acknowledged_uncertainty_commands);
     next_uncertainty_command_cursor := m.(next_uncertainty_command_cursor) |}.
Definition on_acknowledged_uncertainty_commands (f : gset (Tenant * Z) → gset (Tenant * Z)) (m : MemoryState) : MemoryState :=
  {| destinations := m.(destinations); routes := m.(routes); evidence := m.(evidence);
     decisions := m.(decisions); decision_snapshots := m.(decision_snapshots);
     observations := m.(observations); runtime_observations := m.(runtime_observations);
     wake_hints := m.(wake_hints); acknowledgements := m.(acknowledgements);
     memberships := m.(memberships); revoked_agents := m.(revoked_agents); attempts := m.(attempts);
     reservations := m.(reservations); uncertainty_resolutions := m.(uncertainty_resolutions);
     pending_uncertainty_resolutions := m.(pending_uncertainty_resolutions);
     acknowledged_uncertainty_commands := f m.(acknowledged_uncertainty_commands);
     next_uncertainty_command_cursor := m.(next_uncertainty_command_cursor) |}.
Definition on_next_uncertainty_command_cursor (f : Z → Z) (m : MemoryState) : MemoryState :=
  {| destinations := m.(destinations); routes := m.(routes); evidence := m.(evidence);
     decisions := m.(decisions); decision_snapshots := m.(decision_snapshots);
     observations := m.(observations); runtime_observations := m.(runtime_observations);
     wake_hints := m.(wake_hints); acknowledgements := m.(acknowledgements);
     memberships := m.(memberships); revoked_agents := m.(revoked_agents); attempts := m.(attempts);
     reservations := m.(reservations); uncertainty_resolutions := m.(uncertainty_resolutions);
     pending_uncertainty_resolutions := m.(pending_uncertainty_resolutions);
     acknowledged_uncertainty_commands := m.(acknowledged_uncertainty_commands);
     next_uncertainty_command_cursor := f m.(next_uncertainty_command_cursor) |}.

(** * Operations *)

Abbreviation Mem := (Opn MemoryState).
Definition read {A} (f : MemoryState → A) : Mem A := λ m, (m, Ok (f m)).
Definition find {A} (f : MemoryState → option A) (e : StorageError) : Mem A := λ m,
  match f m with Some a => (m, Ok a) | None => (m, Err e) end.
Definition write (f : MemoryState → MemoryState) : Mem unit := λ m, (f m, Ok ()).
Definition require (b : bool) (e : StorageError) : Mem unit := λ m, if b then (m, Ok ()) else (m, Err e).

Section memory.
Context `{CloudExternal}.
Variable now : Z.

(** ** Deliveries *)

Definition resolved (t : Tenant) (attempt : string) (m : MemoryState) : bool :=
  exists_row (λ k r, bool_decide (k.1 = t) && bool_decide (r.2.(rn_attempt_id) = attempt)) m.(uncertainty_resolutions).
Definition unresolved (t : Tenant) (destination : string) (m : MemoryState) : bool :=
  exists_row (λ k a, bool_decide (k.1 = t) && bool_decide (a.(at_destination_id) = destination)
                     && bool_decide (a.(at_state) = Attempt.DeliveryUncertain)
                     && negb (resolved t a.(at_id) m)) m.(attempts).

(** The attempt of the highest generation; of equal ones, the last. *)
Definition latest (t : Tenant) (p : AttemptRow → bool) (m : MemoryState) : option AttemptRow :=
  foldl (λ o a, match o with
                | Some b => if (b.(at_generation) <=? a.(at_generation))%Z then Some a else o
                | None => Some a
                end) None
    (snd <$> select_rows (λ k a, bool_decide (k.1 = t) && p a) m.(attempts)).

(** [find_map] over the reservations: the first one is changed. *)
Definition release_one (t : Tenant) (attempt : string) (st : ReservationState) (m : MemoryState) : MemoryState :=
  match find_row (λ k r, bool_decide (k.1 = t) && bool_decide (r.(rs_attempt_id) = attempt)
                         && bool_decide (r.(rs_state) = Active)) m.(reservations) with
  | Some (k, _) => on_reservations (alter (set_reservation st (Some now)) k) m
  | None => m
  end.

Definition stale (t : Tenant) (destination : string) (k : Tenant * string) (a : AttemptRow) : bool :=
  bool_decide (k.1 = t) && bool_decide (a.(at_destination_id) = destination)
  && bool_decide (a.(at_state) = Attempt.RouteLeased) && (a.(at_lease_until) <=? now)%Z.
Definition supersede_stale (t : Tenant) (destination : string) (m : MemoryState) : MemoryState :=
  let ids := (λ e : Tenant * string * AttemptRow, e.2.(at_id)) <$> select_rows (stale t destination) m.(attempts) in
  on_reservations (map_imap (λ k r,
    Some (if bool_decide (k.1 = t) && bool_decide (r.(rs_state) = Active) && bool_decide (r.(rs_attempt_id) ∈ ids)
          then set_reservation ReservationSuperseded (Some now) r else r)))
  (on_attempts (map_imap (λ k a,
    Some (if stale t destination k a then set_attempt Attempt.Superseded (Some now) a else a))) m).

Definition retire_own_attempt (t : Tenant) (job : string) : Mem unit :=
  active ← read (λ m, find_row (λ k a, bool_decide (k.1 = t) && of_job job a
                                       && negb (Attempt.is_final a.(at_state))) m.(attempts));
  match active with
  | Some (k, a) =>
    _ ← require (bool_decide (a.(at_state) = Attempt.RouteLeased) && (a.(at_lease_until) <=? now)%Z)
          ConcurrentStateChange;
    _ ← write (on_attempts (alter (set_attempt Attempt.Superseded (Some now)) k));
    write (release_one t a.(at_id) ReservationSuperseded)
  | None =>
    uncertain ← read (λ m, exists_row (λ k a, bool_decide (k.1 = t) && of_job job a
                             && bool_decide (a.(at_state) = Attempt.DeliveryUncertain)) m.(attempts));
    require (negb uncertain) ConcurrentStateChange
  end.

(** [u64::saturating_add]. *)
Definition next_generation (t : Tenant) (job : string) (m : MemoryState) : Z :=
  (Z.min (from_option at_generation 0 (latest t (of_job job) m) + 1) (2 ^ 64 - 1))%Z.

Definition leased_attempt (t : Tenant) (q : NewDeliveryAttempt) (generation : Z) (digest : string) : AttemptRow :=
  {| at_tenant := t; at_id := q.(nd_attempt_id); at_job_id := q.(nd_job_id);
     at_destination_id := q.(nd_destination_id); at_route_id := q.(nd_route_id); at_generation := generation;
     at_fencing_token_hash := digest; at_state := Attempt.RouteLeased; at_lease_until := q.(nd_lease_until);
     at_accepted_at := None; at_handoff_started_at := None; at_spooler_accepted_at := None; at_final_at := None;
     at_created_at := now |}.
Definition active_reservation (t : Tenant) (q : NewDeliveryAttempt) (generation : Z) (digest : string) :
    ReservationRow :=
  {| rs_tenant := t; rs_id := q.(nd_reservation_id); rs_route_id := q.(nd_route_id);
     rs_destination_id := q.(nd_destination_id); rs_job_id := q.(nd_job_id); rs_attempt_id := q.(nd_attempt_id);
     rs_generation := generation; rs_fencing_token_hash := digest; rs_state := Active;
     rs_lease_until := q.(nd_lease_until); rs_released_at := None; rs_created_at := now |}.
Definition begin_delivery_attempt (t : Tenant) (q : NewDeliveryAttempt) (token : string) :
    Mem (AttemptRow * ReservationRow) :=
  usable ← read (λ m, match m.(routes) !! (t, q.(nd_route_id)) with
                      | Some r => bool_decide (r.(spr_destination_id) = q.(nd_destination_id)) && r.(spr_enabled)
                                  && negb (bool_decide ((t, r.(spr_agent_id)) ∈ m.(revoked_agents)))
                      | None => false
                      end);
  _ ← require usable NotFound;
  _ ← write (supersede_stale t q.(nd_destination_id));
  _ ← retire_own_attempt t q.(nd_job_id);
  taken ← read (λ m, exists_row (λ k r, bool_decide (k.1 = t)
      && (bool_decide (r.(rs_route_id) = q.(nd_route_id)) || bool_decide (r.(rs_destination_id) = q.(nd_destination_id)))
      && bool_decide (r.(rs_state) = Active)) m.(reservations));
  _ ← require (negb taken) ConcurrentStateChange;
  open ← read (unresolved t q.(nd_destination_id));
  _ ← require (negb open) ConcurrentStateChange;
  generation ← read (next_generation t q.(nd_job_id));
  let a := leased_attempt t q generation (token_digest token) in
  let r := active_reservation t q generation (token_digest token) in
  _ ← write (on_attempts <[(t, q.(nd_attempt_id)) := a]>);
  _ ← write (on_reservations <[(t, q.(nd_reservation_id)) := r]>);
  mret (a, r).

Definition set_destination_state (st : DestinationState) (d : StoredPhysicalDestination) : StoredPhysicalDestination :=
  {| spd_id := d.(spd_id); spd_name := d.(spd_name); spd_identity_confidence := d.(spd_identity_confidence);
     spd_state := st; spd_identity_revision := d.(spd_identity_revision); spd_created_at := d.(spd_created_at) |}.
Definition need_attention (t : Tenant) (destination : string) : MemoryState → MemoryState :=
  on_destinations (alter (set_destination_state Attention) (t, destination)).

(** The final time is written when the state is final, and otherwise stays. *)
Definition advance (next : DeliveryAttemptState) (a : AttemptRow) : AttemptRow :=
  mark_times next now (set_attempt next (if Attempt.is_final next then Some now else a.(at_final_at)) a).
Definition transition_delivery_attempt (t : Tenant) (attempt : string) (generation : N) (token : string)
    (next : DeliveryAttemptState) : Mem AttemptRow :=
  a ← find (λ m, m.(attempts) !! (t, attempt)) NotFound;
  _ ← require (bool_decide (a.(at_generation) = Z.of_N generation)
               && bool_decide (a.(at_fencing_token_hash) = token_digest token)
               && Attempt.valid_attempt_transition a.(at_state) next) ConcurrentStateChange;
  let a := if decide (next = Attempt.AcceptedBySpooler)
           then mark_times next now (set_attempt next None a) else advance next a in
  _ ← write (on_attempts <[(t, attempt) := a]>);
  _ ← (if Attempt.is_final next || bool_decide (next = Attempt.AcceptedBySpooler)
       then write (release_one t attempt (released_state next)) else mret ());
  _ ← (if decide (next = Attempt.DeliveryUncertain) then write (need_attention t a.(at_destination_id)) else mret ());
  mret a.

(** The end of a delivery that the spooler accepted. *)
Definition report_attempt (t : Tenant) (a : AttemptRow) (next : DeliveryAttemptState) : Mem AttemptRow :=
  let a := set_attempt next (final_time next now) a in
  _ ← write (on_attempts <[(t, a.(at_id)) := a]>);
  _ ← write (release_one t a.(at_id) Released);
  _ ← (if decide (next = Attempt.DeliveryUncertain) then write (need_attention t a.(at_destination_id)) else mret ());
  mret a.
Definition transition_post_spooler_attempt (t : Tenant) (job agent route : string) (next : DeliveryAttemptState) :
    Mem AttemptRow :=
  _ ← require (bool_decide (next ∈ [Attempt.PrintingReported; Attempt.CompletedReported; Attempt.Failed;
                                    Attempt.DeliveryUncertain])) InvalidTransition;
  owner ← read (λ m, spr_agent_id <$> m.(routes) !! (t, route));
  _ ← require (bool_decide (owner = Some agent)) NotFound;
  a ← find (latest t (λ a, of_job job a && bool_decide (a.(at_route_id) = route))) NotFound;
  _ ← require (post_spooler a.(at_state) && Attempt.valid_attempt_transition a.(at_state) next) ConcurrentStateChange;
  report_attempt t a next.
Definition mark_post_spooler_attempt_uncertain (t : Tenant) (job : string) : Mem AttemptRow :=
  a ← find (latest t (of_job job)) NotFound;
  _ ← require (post_spooler a.(at_state)) ConcurrentStateChange;
  report_attempt t a Attempt.DeliveryUncertain.

(** The attempt is renewed before the reservation is looked at. *)
Definition renew_delivery_attempt (t : Tenant) (reservation : string) (generation : N) (token : string) (until : Z) :
    Mem (AttemptRow * ReservationRow) :=
  _ ← require (now <? until)%Z (InvalidData "renewed lease must be in the future");
  r ← find (λ m, m.(reservations) !! (t, reservation)) NotFound;
  a ← find (λ m, m.(attempts) !! (t, r.(rs_attempt_id))) NotFound;
  _ ← require (bool_decide (a.(at_generation) = Z.of_N generation)
               && bool_decide (a.(at_fencing_token_hash) = token_digest token)
               && Attempt.renewable a.(at_state)) ConcurrentStateChange;
  _ ← write (on_attempts (alter (set_attempt_lease until) (t, r.(rs_attempt_id))));
  _ ← require (bool_decide (r.(rs_state) = Active)) ConcurrentStateChange;
  _ ← write (on_reservations (alter (set_reservation_lease until) (t, reservation)));
  mret (set_attempt_lease until a, set_reservation_lease until r).

(** ** Uncertain deliveries *)

Definition enqueue_delivery_uncertainty_resolution (t : Tenant) (job resolution : string) (note : option string)
    (actor request : string) : Mem (PendingRow * AgentCommand) :=
  existing ← read (λ m, m.(pending_uncertainty_resolutions) !! (t, request));
  match existing with
  | Some p =>
    _ ← require (bool_decide (p.1.(pn_job_id) = job) && bool_decide (p.1.(pn_resolution) = resolution)
                 && bool_decide (p.1.(pn_note) = note) && bool_decide (p.1.(pn_actor_id) = actor)) IdempotencyConflict;
    mret p
  | None =>
    a ← find (latest t (λ a, of_job job a && bool_decide (a.(at_state) = Attempt.DeliveryUncertain))) NotFound;
    taken ← read (λ m, exists_row (λ k p, bool_decide (k.1 = t) && bool_decide (p.1.(pn_attempt_id) = a.(at_id)))
                         m.(pending_uncertainty_resolutions));
    _ ← require (negb taken) ConcurrentStateChange;
    route ← find (λ m, m.(routes) !! (t, a.(at_route_id))) NotFound;
    key ← find (λ _, route.(spr_local_route_key)) (InvalidData "uncertain route has no node-local route key");
    r ← find (λ m, find_row (λ k r, bool_decide (k.1 = t) && bool_decide (r.(rs_attempt_id) = a.(at_id)))
                     m.(reservations)) NotFound;
    last ← read next_uncertainty_command_cursor;
    _ ← require (last + 1 <? 2 ^ 64)%Z (InvalidData "agent command cursor overflow");
    let cursor := (last + 1)%Z in
    _ ← write (on_next_uncertainty_command_cursor (λ _, cursor));
    let p := {| pn_job_id := job; pn_attempt_id := a.(at_id); pn_destination_id := a.(at_destination_id);
                pn_route_id := a.(at_route_id); pn_agent_id := route.(spr_agent_id); pn_reservation_id := r.2.(rs_id);
                pn_generation := a.(at_generation); pn_resolution := resolution; pn_note := note; pn_actor_id := actor;
                pn_command_cursor := cursor; pn_created_at := now; pn_finalized_at := None |} in
    let command := ResolveAmbiguousHandoff job key r.2.(rs_id) (Z.to_N a.(at_generation)) true in
    _ ← write (on_pending_uncertainty_resolutions <[(t, request) := (p, command)]>);
    mret (p, command)
  end.

Definition set_finalized (p : PendingRow) : PendingRow :=
  {| pn_job_id := p.(pn_job_id); pn_attempt_id := p.(pn_attempt_id); pn_destination_id := p.(pn_destination_id);
     pn_route_id := p.(pn_route_id); pn_agent_id := p.(pn_agent_id); pn_reservation_id := p.(pn_reservation_id);
     pn_generation := p.(pn_generation); pn_resolution := p.(pn_resolution); pn_note := p.(pn_note);
     pn_actor_id := p.(pn_actor_id); pn_command_cursor := p.(pn_command_cursor); pn_created_at := p.(pn_created_at);
     pn_finalized_at := Some now |}.
Definition available_again (t : Tenant) (destination : string) (m : MemoryState) : MemoryState :=
  if unresolved t destination m then m
  else on_destinations (alter (λ d, if decide (d.(spd_state) = Attention) then set_destination_state Available d else d)
         (t, destination)) m.
Definition finalize_delivery_uncertainty_resolution (new_id : string) (t : Tenant) (request : string) :
    Mem (option (string * ResolutionRow)) :=
  existing ← read (λ m, m.(uncertainty_resolutions) !! (t, request));
  match existing with
  | Some r => mret (Some r)
  | None =>
    p ← find (λ m, m.(pending_uncertainty_resolutions) !! (t, request)) NotFound;
    acknowledged ← read (λ m, bool_decide ((t, p.1.(pn_command_cursor)) ∈ m.(acknowledged_uncertainty_commands)));
    if negb acknowledged then mret None else
    let r := (new_id, {| rn_job_id := p.1.(pn_job_id); rn_attempt_id := p.1.(pn_attempt_id);
                rn_destination_id := p.1.(pn_destination_id); rn_resolution := p.1.(pn_resolution);
                rn_note := p.1.(pn_note); rn_actor_id := p.1.(pn_actor_id); rn_request_id := request;
                rn_created_at := now |}) in
    _ ← write (on_uncertainty_resolutions <[(t, request) := r]>);
    _ ← write (available_again t p.1.(pn_destination_id));
    _ ← write (on_pending_uncertainty_resolutions (alter (λ p, (set_finalized p.1, p.2)) (t, request)));
    mret (Some r)
  end.
Definition acknowledge_uncertainty_resolution_command (t : Tenant) (cursor : Z) : Mem unit :=
  known ← read (λ m, exists_row (λ k p, bool_decide (k.1 = t) && bool_decide (p.1.(pn_command_cursor) = cursor))
                       m.(pending_uncertainty_resolutions));
  _ ← require known NotFound;
  write (on_acknowledged_uncertainty_commands (λ c, {[(t, cursor)]} ∪ c)).
Definition has_unresolved_destination_uncertainty (t : Tenant) (destination : string) : Mem bool :=
  read (unresolved t destination).
Definition recompute_destination_attention (t : Tenant) (destination : string) : Mem StoredPhysicalDestination :=
  open ← read (unresolved t destination);
  d ← find (λ m, m.(destinations) !! (t, destination)) NotFound;
  let d := set_destination_state (if open : bool then Attention
             else if decide (d.(spd_state) = Attention) then Available else d.(spd_state)) d in
  _ ← write (on_destinations <[(t, destination) := d]>);
  mret d.

(** ** Destinations and routes *)

Definition upsert_destination (t : Tenant) (d : StoredPhysicalDestination) : Mem unit :=
  write (λ m, on_destinations <[(t, d.(spd_id)) :=
    {| spd_id := d.(spd_id); spd_name := d.(spd_name); spd_identity_confidence := d.(spd_identity_confidence);
       spd_state := d.(spd_state); spd_identity_revision := d.(spd_identity_revision);
       spd_created_at := from_option spd_created_at d.(spd_created_at) (m.(destinations) !! (t, d.(spd_id))) |}]> m).

(** A printer of a node keeps its route: the identifier, the time of creation, and the key
    that the node gave it. *)
Definition upsert_route (t : Tenant) (r : StoredPrinterRoute) : Mem unit :=
  revoked ← read (λ m, bool_decide ((t, r.(spr_agent_id)) ∈ m.(revoked_agents)));
  _ ← require (negb revoked) NotFound;
  known ← read (λ m, bool_decide (is_Some (m.(destinations) !! (t, r.(spr_destination_id)))));
  _ ← require known NotFound;
  existing ← read (λ m, find_row (λ k x, bool_decide (k.1 = t) && bool_decide (x.(spr_printer_id) = r.(spr_printer_id))
                                         && bool_decide (x.(spr_agent_id) = r.(spr_agent_id))) m.(routes));
  let stored := match existing with
    | Some (k, x) =>
      {| spr_id := k.2; spr_destination_id := r.(spr_destination_id); spr_printer_id := r.(spr_printer_id);
         spr_agent_id := r.(spr_agent_id);
         spr_local_route_key := match r.(spr_local_route_key) with None => x.(spr_local_route_key) | o => o end;
         spr_state := r.(spr_state); spr_role := r.(spr_role); spr_enabled := r.(spr_enabled);
         spr_created_at := x.(spr_created_at) |}
    | None => r
    end in
  write (on_routes <[(t, stored.(spr_id)) := stored]>).

Definition retire_route (r : StoredPrinterRoute) : StoredPrinterRoute :=
  {| spr_id := r.(spr_id); spr_destination_id := r.(spr_destination_id); spr_printer_id := r.(spr_printer_id);
     spr_agent_id := r.(spr_agent_id); spr_local_route_key := r.(spr_local_route_key); spr_state := RouteRetired;
     spr_role := Disabled; spr_enabled := false; spr_created_at := r.(spr_created_at) |}.
Definition set_hint (st : HintStatus) (observed : option Z) (h : NodeWakeHint) : NodeWakeHint :=
  {| nw_id := h.(nw_id); nw_agent_id := h.(nw_agent_id); nw_reason := h.(nw_reason);
     nw_delivery_channel := h.(nw_delivery_channel); nw_status := st;
     nw_requested_at := h.(nw_requested_at); nw_expires_at := h.(nw_expires_at); nw_observed_at := observed |}.

(** The routes of a revoked node, and a tombstone for it. *)
Definition revoke_agent_topology (t : Tenant) (agent : string) : Mem unit :=
  write (λ m,
    let affected := select_rows (λ k r, bool_decide (k.1 = t) && bool_decide (r.(spr_agent_id) = agent)) m.(routes) in
    let route_ids := (λ e : Tenant * string * StoredPrinterRoute, e.1.2) <$> affected in
    let destination_ids := (λ e : Tenant * string * StoredPrinterRoute, e.2.(spr_destination_id)) <$> affected in
    let retired := map_imap (λ k r,
      Some (if bool_decide (k.1 = t) && bool_decide (k.2 ∈ route_ids) then retire_route r else r)) m.(routes) in
    let served d := exists_row (λ k r, bool_decide (k.1 = t) && r.(spr_enabled)
                                       && bool_decide (r.(spr_destination_id) = d)) retired in
    on_destinations (map_imap (λ k d,
      Some (if bool_decide (k.1 = t) && bool_decide (k.2 ∈ destination_ids) && negb (served k.2)
               && negb (bool_decide (d.(spd_state) = Attention))
            then set_destination_state Unavailable d else d)))
    (on_reservations (map_imap (λ k r,
      Some (if bool_decide (k.1 = t) && bool_decide (r.(rs_route_id) ∈ route_ids) && bool_decide (r.(rs_state) = Active)
            then set_reservation ReservationSuperseded (Some now) r else r)))
    (on_attempts (map_imap (λ k a,
      Some (if bool_decide (k.1 = t) && bool_decide (a.(at_route_id) ∈ route_ids)
               && bool_decide (a.(at_state) = Attempt.RouteLeased)
            then set_attempt Attempt.Superseded (Some now) a else a)))
    (on_wake_hints (map_imap (λ k h,
      Some (if bool_decide (k.1 = t) && bool_decide (h.1.(nw_agent_id) = agent) && bool_decide (h.1.(nw_status) = HintPending)
            then (set_hint HintCancelled h.1.(nw_observed_at) h.1, h.2) else h)))
    (on_memberships (map_imap (λ k revoked,
      Some (if bool_decide (k.1.1 = t) && bool_decide (k.2 = agent) then true else revoked)))
    (on_routes (λ _, retired)
    (on_revoked_agents (λ s, {[(t, agent)]} ∪ s) m))))))).

Definition upsert_site_membership (t : Tenant) (authority agent : string) (revoked : bool) : Mem unit :=
  known ← read (λ m, bool_decide ((t, agent) ∈ m.(revoked_agents)));
  _ ← require (revoked || negb known) NotFound;
  write (on_memberships <[(t, authority, agent) := revoked]>).

(** ** Identity *)

Definition set_identity (c : IdentityConfidence) (d : StoredPhysicalDestination) : StoredPhysicalDestination :=
  {| spd_id := d.(spd_id); spd_name := d.(spd_name); spd_identity_confidence := c; spd_state := d.(spd_state);
     spd_identity_revision := u64_saturating_add d.(spd_identity_revision) 1; spd_created_at := d.(spd_created_at) |}.
Definition record_identity_evidence (t : Tenant) (e : IdentityEvidence) : Mem unit :=
  r ← find (λ m, m.(routes) !! (t, e.(ie_route_id))) NotFound;
  _ ← require (bool_decide (r.(spr_destination_id) = e.(ie_destination_id))) NotFound;
  _ ← write (on_evidence <[(t, e.(ie_id)) := e]>);
  if e.(ie_conflicts) then write (on_destinations (alter (set_identity Conflict) (t, e.(ie_destination_id)))) else mret ().

Definition busy (t : Tenant) (route : string) (m : MemoryState) : bool :=
  exists_row (λ k r, bool_decide (k.1 = t) && bool_decide (r.(rs_route_id) = route) && bool_decide (r.(rs_state) = Active))
    m.(reservations)
  || exists_row (λ k a, bool_decide (k.1 = t) && bool_decide (a.(at_route_id) = route)
                        && negb (Attempt.is_final a.(at_state))) m.(attempts).
Definition snapshot (t : Tenant) (d : IdentityDecision) (m : MemoryState) : MemoryDecisionSnapshot :=
  {| ms_destinations := omap (λ i, m.(destinations) !! (t, i)) (d.(id_destination_id) :: d.(id_related_destination_ids));
     ms_routes := omap (λ i, m.(routes) !! (t, i)) d.(id_route_ids) |}.

Definition place_route (destination : string) (role : RouteRole) (r : StoredPrinterRoute) : StoredPrinterRoute :=
  {| spr_id := r.(spr_id); spr_destination_id := destination; spr_printer_id := r.(spr_printer_id);
     spr_agent_id := r.(spr_agent_id); spr_local_route_key := r.(spr_local_route_key); spr_state := r.(spr_state);
     spr_role := role; spr_enabled := r.(spr_enabled); spr_created_at := r.(spr_created_at) |}.
Definition move_evidence (destination : string) (e : IdentityEvidence) : IdentityEvidence :=
  {| ie_id := e.(ie_id); ie_destination_id := destination; ie_route_id := e.(ie_route_id);
     ie_value_digest := e.(ie_value_digest); ie_conflicts := e.(ie_conflicts) |}.
Definition has_primary (t : Tenant) (destination : string) (m : MemoryState) : bool :=
  exists_row (λ k r, bool_decide (k.1 = t) && bool_decide (r.(spr_destination_id) = destination)
                     && bool_decide (r.(spr_role) = Primary) && r.(spr_enabled)) m.(routes).
Definition retire_empty (t : Tenant) (source : string) (m : MemoryState) : MemoryState :=
  if exists_row (λ k r, bool_decide (k.1 = t) && bool_decide (r.(spr_destination_id) = source)) m.(routes) then m
  else on_destinations (alter (set_destination_state Retired) (t, source)) m.

(** A merge or a split: the routes move, one of them becomes the primary route when the
    destination has none, and a merge retires the sources that have no route left. *)
Definition move_routes (t : Tenant) (d : IdentityDecision) : Mem unit :=
  _ ← require (negb (bool_decide (d.(id_route_ids) = [])) && negb (bool_decide (d.(id_related_destination_ids) = [])))
        (InvalidData "merge and split decisions require source destinations and routes");
  declared ← read (λ m, forallb (λ i, from_option (λ r, bool_decide (r.(spr_destination_id) ∈ d.(id_related_destination_ids)))
                                      false (m.(routes) !! (t, i))) d.(id_route_ids));
  _ ← require declared (InvalidData "identity route does not belong to a declared source destination");
  _ ← write (on_routes (map_imap (λ k r, Some (if bool_decide (k.1 = t) && bool_decide (k.2 ∈ d.(id_route_ids))
                                               then place_route d.(id_destination_id) Standby r else r))));
  _ ← write (on_evidence (map_imap (λ k e, Some (if bool_decide (k.1 = t) && bool_decide (e.(ie_route_id) ∈ d.(id_route_ids))
                                                 then move_evidence d.(id_destination_id) e else e))));
  primary ← read (has_primary t d.(id_destination_id));
  _ ← (if primary : bool then mret ()
       else write (on_routes (alter (λ r, place_route r.(spr_destination_id) Primary r)
                                (t, default ""%string (head d.(id_route_ids))))));
  if decide (d.(id_kind) = Merge)
  then write (λ m, foldl (λ m source, retire_empty t source m) m d.(id_related_destination_ids)) else mret ().

Fixpoint each {A} (f : A → Mem unit) (l : list A) : Mem unit :=
  match l with
  | [] => mret ()
  | a :: l => _ ← f a; each f l
  end.
Definition judge (t : Tenant) (c : IdentityConfidence) (destination : string) : Mem unit :=
  _ ← find (λ m, m.(destinations) !! (t, destination)) NotFound;
  write (on_destinations (alter (set_identity c) (t, destination))).

Definition record_identity_decision (t : Tenant) (d : IdentityDecision) : Mem unit :=
  _ ← require (negb (bool_decide (d.(id_kind) = Reverse)))
        (InvalidData "reverse decisions require reverse_identity_decision");
  known ← read (λ m, forallb (λ i, bool_decide (is_Some (m.(routes) !! (t, i)))) d.(id_route_ids));
  _ ← require known NotFound;
  proven ← read (λ m, forallb (λ i, bool_decide (is_Some (m.(evidence) !! (t, i)))) d.(id_evidence_ids));
  _ ← require proven NotFound;
  occupied ← read (λ m, existsb (λ i, busy t i m) d.(id_route_ids));
  _ ← require (negb occupied) ConcurrentStateChange;
  before ← read (snapshot t d);
  _ ← (match d.(id_kind) with
       | Confirm => judge t Verified d.(id_destination_id)
       | RejectMatch => each (judge t Conflict) (d.(id_destination_id) :: d.(id_related_destination_ids))
       | _ => move_routes t d
       end);
  _ ← write (on_decision_snapshots <[(t, d.(id_id)) := before]>);
  write (on_decisions <[(t, d.(id_id)) := d]>).

(** Whether a decision was reversed is asked of all tenants. *)
Definition reverse_identity_decision (t : Tenant) (d : IdentityDecision) : Mem unit :=
  original ← find (λ _, d.(id_reverses)) (InvalidData "missing reversed decision");
  known ← read (λ m, bool_decide (d.(id_kind) = Reverse) && bool_decide (is_Some (m.(decisions) !! (t, original))));
  _ ← require known NotFound;
  reversed ← read (λ m, exists_row (λ _ x, bool_decide (x.(id_reverses) = Some original)) m.(decisions));
  _ ← require (negb reversed) ConcurrentStateChange;
  before ← find (λ m, m.(decision_snapshots) !! (t, original)) NotFound;
  occupied ← read (λ m, existsb (λ r, busy t r.(spr_id) m) before.(ms_routes));
  _ ← require (negb occupied) ConcurrentStateChange;
  _ ← write (λ m, foldl (λ m x, on_destinations <[(t, x.(spd_id)) := x]> m) m before.(ms_destinations));
  _ ← write (λ m, foldl (λ m x, on_routes <[(t, x.(spr_id)) := x]> m) m before.(ms_routes));
  _ ← write (λ m, on_evidence (map_imap (λ k e, Some (
        if decide (k.1 = t) then match m.(routes) !! (t, e.(ie_route_id)) with
                                 | Some r => move_evidence r.(spr_destination_id) e
                                 | None => e
                                 end
        else e))) m);
  write (on_decisions <[(t, d.(id_id)) := d]>).

(** ** Observations *)

(** The route and the sequence identify an observation. *)
Definition record_route_observation (t : Tenant) (o : RouteObservation) : Mem unit :=
  known ← read (λ m, bool_decide (is_Some (m.(routes) !! (t, o.(ro_route_id)))));
  _ ← require known NotFound;
  items ← read (λ m, default [] (m.(observations) !! (t, o.(ro_route_id))));
  match List.find (λ x, (x.(ro_sequence) =? o.(ro_sequence))%N) items with
  | Some x => require (bool_decide (x = o)) IdempotencyConflict
  | None =>
    _ ← require (forallb (λ x, (x.(ro_sequence) <? o.(ro_sequence))%N) items) ConcurrentStateChange;
    write (on_observations <[(t, o.(ro_route_id)) := items ++ [o]]>)
  end.
Definition latest_observation (items : list RouteObservation) : option RouteObservation :=
  foldl (λ m o, match m with
                | Some x => if (o.(ro_sequence) <? x.(ro_sequence))%N then m else Some o
                | None => Some o
                end) None items.
Definition latest_route_observation (t : Tenant) (route : string) : Mem RouteObservation :=
  find (λ m, m.(observations) !! (t, route) ≫= latest_observation) NotFound.

Definition MAX_RUNTIME_OBSERVATIONS_PER_AGENT : nat := 64.
Definition record_node_runtime_observation (t : Tenant) (o : NodeRuntimeObservation) : Mem unit :=
  _ ← write (on_runtime_observations (partial_alter (λ x, Some (default [] x)) (t, o.(no_agent_id))));
  items ← read (λ m, default [] (m.(runtime_observations) !! (t, o.(no_agent_id))));
  match List.find (λ x, (x.(no_sequence) =? o.(no_sequence))%N) items with
  | Some x => require (bool_decide (x = o)) IdempotencyConflict
  | None =>
    _ ← require (forallb (λ x, (x.(no_sequence) <? o.(no_sequence))%N) items) ConcurrentStateChange;
    let items := items ++ [o] in
    write (on_runtime_observations <[(t, o.(no_agent_id)) :=
      drop (length items - MAX_RUNTIME_OBSERVATIONS_PER_AGENT) items]>)
  end.

Definition acknowledge_projection (t : Tenant) (a : ProjectionAcknowledgement) : Mem unit :=
  let key := (t, a.(pj_agent_id), a.(pj_route_id)) in
  write (λ m, match m.(acknowledgements) !! key with
              | Some x => if (x.(pj_inventory_revision) <=? a.(pj_inventory_revision))%N
                          then on_acknowledgements <[key := a]> m else m
              | None => on_acknowledgements <[key := a]> m
              end).

(** ** Wake hints *)

Definition WAKE_HINT_RETENTION : Z := seconds (7 * 86400).
Definition expired_hint (at_ : Z) (h : NodeWakeHint) : NodeWakeHint :=
  if decide (h.(nw_status) = HintPending ∧ (h.(nw_expires_at) ≤ at_)%Z)
  then set_hint HintExpired h.(nw_observed_at) h else h.
Definition retained (at_ : Z) (h : NodeWakeHint) : bool :=
  bool_decide (h.(nw_status) = HintPending) || (at_ - WAKE_HINT_RETENTION <=? h.(nw_expires_at))%Z.
Definition of_node (t : Tenant) (agent : string) (k : Tenant * string) (h : NodeWakeHint) : bool :=
  bool_decide (k.1 = t) && bool_decide (h.(nw_agent_id) = agent).

(** The node's hints that ran out are closed, and old ones forgotten; a repeated request
    gets the hint of its key. *)
Definition create_node_wake_hint (t : Tenant) (h : NodeWakeHint) (idempotency_key : string) : Mem NodeWakeHint :=
  _ ← write (on_wake_hints (map_imap (λ k x,
        if of_node t h.(nw_agent_id) k x.1
        then let y := expired_hint now x.1 in if retained now y then Some (y, x.2) else None
        else Some x)));
  existing ← read (λ m, find_row (λ k x, of_node t h.(nw_agent_id) k x.1 && bool_decide (x.2 = idempotency_key))
                          m.(wake_hints));
  match existing with
  | Some (_, (x, _)) =>
    _ ← require (bool_decide (x.(nw_reason) = h.(nw_reason)) && bool_decide (x.(nw_delivery_channel) = h.(nw_delivery_channel))
                 && (x.(nw_expires_at) - x.(nw_requested_at) =? h.(nw_expires_at) - h.(nw_requested_at))%Z)
          IdempotencyConflict;
    mret x
  | None => _ ← write (on_wake_hints <[(t, h.(nw_id)) := (h, idempotency_key)]>); mret h
  end.

Definition hint_le (a b : Tenant * string * (NodeWakeHint * string)) : bool :=
  let x := a.2.1 in let y := b.2.1 in
  if negb (x.(nw_requested_at) =? y.(nw_requested_at))%Z then (x.(nw_requested_at) <? y.(nw_requested_at))%Z
  else String.leb x.(nw_id) y.(nw_id).
(** One hint, with those observed so far. *)
Definition observe_hint (observed_at : Z) (acc : MemoryState * list NodeWakeHint)
    (e : Tenant * string * (NodeWakeHint * string)) : MemoryState * list NodeWakeHint :=
  let '(k, (h, key)) := e in
  if (h.(nw_expires_at) <=? observed_at)%Z
  then (on_wake_hints <[k := (set_hint HintExpired h.(nw_observed_at) h, key)]> acc.1, acc.2)
  else let h := set_hint HintObserved (Some observed_at) h in (on_wake_hints <[k := (h, key)]> acc.1, acc.2 ++ [h]).
Definition observe_hints (t : Tenant) (agent : string) (observed_at limit : Z) : Mem (list NodeWakeHint) := λ m,
  let pending := sort_by hint_le (select_rows (λ k x, of_node t agent k x.1
                   && bool_decide (x.1.(nw_status) = HintPending)) m.(wake_hints)) in
  let '(m, observed) := foldl (observe_hint observed_at) (m, []) (take (clamp limit 1 100) pending) in
  (m, Ok observed).
Definition observe_pending_node_wake_hints (t : Tenant) (agent : string) (observed_at limit : Z) : Mem (list NodeWakeHint) :=
  _ ← write (on_wake_hints (filter (λ e, of_node t agent e.1 e.2.1 = false ∨ retained observed_at e.2.1 = true)));
  observe_hints t agent observed_at limit.

(** ** Queries *)

Definition rows_of {V} (t : Tenant) (p : V → bool) (tbl : gmap (Tenant * string) V) : list V :=
  snd <$> select_rows (λ k v, bool_decide (k.1 = t) && p v) tbl.
Definition get_destination (t : Tenant) (id : string) : Mem StoredPhysicalDestination :=
  find (λ m, m.(destinations) !! (t, id)) NotFound.
Definition list_destinations (t : Tenant) : Mem (list StoredPhysicalDestination) :=
  read (λ m, rows_of t (λ _, true) m.(destinations)).
Definition get_route (t : Tenant) (route : string) : Mem StoredPrinterRoute := find (λ m, m.(routes) !! (t, route)) NotFound.
Definition get_route_by_local_key (t : Tenant) (agent key : string) : Mem StoredPrinterRoute :=
  find (λ m, snd <$> find_row (λ k r, bool_decide (k.1 = t) && bool_decide (r.(spr_agent_id) = agent)
                                      && bool_decide (r.(spr_local_route_key) = Some key)) m.(routes)) NotFound.
Definition list_all_routes (t : Tenant) : Mem (list StoredPrinterRoute) := read (λ m, rows_of t (λ _, true) m.(routes)).
Definition list_routes (t : Tenant) (destination : string) : Mem (list StoredPrinterRoute) :=
  read (λ m, rows_of t (λ r, bool_decide (r.(spr_destination_id) = destination)) m.(routes)).
Definition list_identity_evidence (t : Tenant) (destination : string) : Mem (list IdentityEvidence) :=
  read (λ m, rows_of t (λ e, bool_decide (e.(ie_destination_id) = destination)) m.(evidence)).
Definition latest_route_observations (t : Tenant) (ids : list string) : Mem (list RouteObservation) :=
  read (λ m, omap (λ e : Tenant * string * list RouteObservation, latest_observation e.2)
    (select_rows (λ k _, bool_decide (k.1 = t) && bool_decide (k.2 ∈ ids)) m.(observations))).
Definition list_route_observations (t : Tenant) (route : string) (limit : Z) : Mem (list RouteObservation) :=
  read (λ m, take (clamp limit 1 1000) (sort_by (λ a b, (b.(ro_sequence) <=? a.(ro_sequence))%N)
    (default [] (m.(observations) !! (t, route))))).
Definition latest_runtime (items : list NodeRuntimeObservation) : option NodeRuntimeObservation :=
  foldl (λ m o, match m with
                | Some x => if (o.(no_sequence) <? x.(no_sequence))%N then m else Some o
                | None => Some o
                end) None items.
Definition latest_node_runtime_observation (t : Tenant) (agent : string) : Mem NodeRuntimeObservation :=
  find (λ m, m.(runtime_observations) !! (t, agent) ≫= latest_runtime) NotFound.
Definition list_latest_node_runtime_observations (t : Tenant) (after : option string) (limit : Z) :
    Mem (list NodeRuntimeObservation) :=
  read (λ m, take (clamp limit 1 1001) (sort_by (λ a b, String.leb a.(no_agent_id) b.(no_agent_id))
    (omap (λ e : Tenant * string * list NodeRuntimeObservation, latest_runtime e.2)
      (select_rows (λ k _, bool_decide (k.1 = t) && from_option (λ a, String.ltb a k.2) true after)
         m.(runtime_observations))))).
Definition list_node_wake_hints (t : Tenant) (agent : string) (limit : Z) : Mem (list NodeWakeHint) :=
  read (λ m, take (clamp limit 1 100) (sort_by (λ a b,
      if negb (a.(nw_requested_at) =? b.(nw_requested_at))%Z then (b.(nw_requested_at) <? a.(nw_requested_at))%Z
      else String.leb b.(nw_id) a.(nw_id))
    ((λ e : Tenant * string * (NodeWakeHint * string), expired_hint now e.2.1) <$>
       select_rows (λ k x, of_node t agent k x.1) m.(wake_hints)))).
Definition get_projection_acknowledgement (t : Tenant) (agent route : string) : Mem ProjectionAcknowledgement :=
  find (λ m, m.(acknowledgements) !! (t, agent, route)) NotFound.
Definition projection_acknowledgements_for_routes (t : Tenant) (ids : list string) : Mem (list ProjectionAcknowledgement) :=
  read (λ m, snd <$> select_rows (λ k _, bool_decide (k.1.1 = t) && bool_decide (k.2 ∈ ids)) m.(acknowledgements)).
Definition list_route_reservations (t : Tenant) (limit : Z) : Mem (list ReservationRow) :=
  read (λ m, take (clamp limit 1 1000) (sort_by (λ a b,
      if negb (a.(rs_created_at) =? b.(rs_created_at))%Z then (b.(rs_created_at) <? a.(rs_created_at))%Z
      else String.leb b.(rs_id) a.(rs_id)) (rows_of t (λ _, true) m.(reservations)))).
Definition list_delivery_attempts (t : Tenant) (job : string) : Mem (list AttemptRow) :=
  read (λ m, sort_by (λ a b, (a.(at_generation) <=? b.(at_generation))%Z)
    (snd <$> select_rows (λ k a, bool_decide (k.1 = t) && of_job job a) m.(attempts))).
Definition get_latest_delivery_attempt (t : Tenant) (job : string) : Mem AttemptRow :=
  find (latest t (of_job job)) NotFound.
Definition get_delivery_attempt_by_reservation (t : Tenant) (reservation : string) : Mem AttemptRow :=
  r ← find (λ m, m.(reservations) !! (t, reservation)) NotFound;
  find (λ m, m.(attempts) !! (t, r.(rs_attempt_id))) NotFound.

(** One resolution per acknowledged command, then reprints that may have been lost. *)
Definition acknowledged_pending (t : Tenant) (agent : string) (m : MemoryState) : list (Tenant * string * (PendingRow * AgentCommand)) :=
  select_rows (λ k p, bool_decide (k.1 = t) && bool_decide (p.1.(pn_agent_id) = agent)
    && bool_decide (p.1.(pn_finalized_at) = None)
    && bool_decide ((t, p.1.(pn_command_cursor)) ∈ m.(acknowledged_uncertainty_commands)))
    m.(pending_uncertainty_resolutions).
Fixpoint finalize_each (new_id : string → string) (t : Tenant) (requests : list string) :
    Mem (list (string * ResolutionRow)) :=
  match requests with
  | [] => mret []
  | q :: qs =>
    r ← finalize_delivery_uncertainty_resolution (new_id q) t q;
    rs ← finalize_each new_id t qs;
    mret (match r with Some r => r :: rs | None => rs end)
  end.
Definition reprints (t : Tenant) (agent : string) (m : MemoryState) : list (string * ResolutionRow) :=
  snd <$> select_rows (λ k r, match m.(pending_uncertainty_resolutions) !! (k.1, r.2.(rn_request_id)) with
    | Some p => bool_decide (k.1 = t) && bool_decide (p.1.(pn_agent_id) = agent)
                && bool_decide (r.2.(rn_resolution) = "reprint_authorized"%string)
    | None => false
    end) m.(uncertainty_resolutions).
Definition reprint_le (a b : string * ResolutionRow) : bool :=
  if negb (a.2.(rn_created_at) =? b.2.(rn_created_at))%Z then (a.2.(rn_created_at) <? b.2.(rn_created_at))%Z
  else String.leb a.1 b.1.
Definition finalize_acknowledged_uncertainty_resolutions (new_id : string → string) (t : Tenant) (agent : string)
    (limit : Z) : Mem (list (string * ResolutionRow)) :=
  requests ← read (λ m, (λ e : Tenant * string * (PendingRow * AgentCommand), e.1.2) <$>
    take (clamp limit 1 100) (sort_by (λ a b, pending_le (a.1.2, a.2.1) (b.1.2, b.2.1)) (acknowledged_pending t agent m)));
  done ← finalize_each new_id t requests;
  more ← read (λ m, sort_by reprint_le (reprints t agent m));
  mret (foldl (λ acc r, if bool_decide (length acc < clamp limit 1 100)
                          && negb (existsb (λ x : string * ResolutionRow, bool_decide (x.2.(rn_request_id) = r.2.(rn_request_id))) acc)
                        then acc ++ [r] else acc) done more).
End memory.
