(* ===== verification/TopologyMirror.v ===== *)
(** The in-memory repository against the transactions on the database: states that mirror
    each other, and the delivery operations on them. *)

From S2P Require Import Prelude Domain CloudStore CloudJobs CloudRevoke CloudRouting CloudTopology CloudFacts CloudDeliveries CloudQueue CloudSystem CloudSteps CloudRouteSteps TopologyMemory.

(** * Mirrored states *)

Definition route_view (r : RouteRow) : string * string * option string * bool :=
  (r.(rt_destination_id), r.(rt_agent_id), r.(rt_local_route_key), r.(rt_enabled)).
Definition stored_view (r : StoredPrinterRoute) : string * string * option string * bool :=
  (r.(spr_destination_id), r.(spr_agent_id), r.(spr_local_route_key), r.(spr_enabled)).

(** Of a job's attempts, all but the latest ended, and none of them uncertain. *)
Definition in_order (ats : gmap (Tenant * string) AttemptRow) : Prop :=
  ∀ k k' a b, ats !! k = Some a → ats !! k' = Some b → a.(at_tenant) = b.(at_tenant) → a.(at_job_id) = b.(at_job_id) →
    (a.(at_generation) < b.(at_generation))%Z →
    Attempt.is_final a.(at_state) = true ∧ a.(at_state) ≠ Attempt.DeliveryUncertain.

(** The rows of deliveries agree, and what the deliveries depend on: routes, the state of
    destinations, revoked nodes, and which attempts were resolved. *)
Record mirrors (s : Store) (m : MemoryState) : Prop := {
  mi_attempts : m.(attempts) = s.(delivery_attempts);
  mi_reservations : m.(reservations) = s.(route_reservations);
  mi_order : in_order s.(delivery_attempts);
  mi_routes k : stored_view <$> m.(routes) !! k = route_view <$> s.(topology).(printer_routes) !! k;
  mi_destinations k : spd_state <$> m.(destinations) !! k = pd_state <$> s.(topology).(physical_destinations) !! k;
  mi_revoked t a : (t, a) ∈ m.(revoked_agents) → active_agent t a s = false;
  mi_resolved t a : TopologyMemory.resolved t a m = CloudRouting.resolved t a s
}.

(** * Rows that are found *)

Section rows.
Context {K V : Type} `{Countable K}.
Implicit Types (m : gmap K V).

Lemma select_rows_ext (p q : K → V → bool) m :
  (∀ k v, m !! k = Some v → p k v = q k v) → select_rows p m = select_rows q m.
Proof.
  intros Hpq. unfold select_rows.
  assert (Hl : ∀ l : list (K * V), (∀ e, e ∈ l → p e.1 e.2 = q e.1 e.2) →
    filter (λ e, p e.1 e.2 = true) l = filter (λ e, q e.1 e.2 = true) l).
  { induction l as [|e l IH]; intros Hin; [done|]. rewrite !filter_cons.
    rewrite (Hin e) by left. rewrite IH by (intros; apply Hin; by right). done. }
  apply Hl. intros [k v] Hin%elem_of_map_to_list. by apply Hpq.
Qed.
Lemma exists_row_ext (p q : K → V → bool) m :
  (∀ k v, m !! k = Some v → p k v = q k v) → exists_row p m = exists_row q m.
Proof.
  intros Hpq. destruct (exists_row q m) eqn:Hq.
  - apply exists_row_true in Hq as (k & v & Hk & Hv). apply exists_row_true. exists k, v. by rewrite Hpq.
  - apply exists_row_false. intros k v Hk. rewrite Hpq by done. by eapply exists_row_false.
Qed.
(** The first row that a condition selects, when there is one at most. *)
Lemma alter_found (p : K → V → bool) (q : V → bool) f m :
  (∀ k v, m !! k = Some v → p k v = q v) →
  (∀ k k' v v', m !! k = Some v → m !! k' = Some v' → q v = true → q v' = true → k = k') →
  match find_row p m with Some (k, _) => alter f k m | None => m end = update_where q f m.
Proof.
  intros Hpq Hone. apply map_eq. intros i. rewrite lookup_update_where. destruct (find_row p m) as [[k v]|] eqn:Hf.
  - apply find_row_Some in Hf as [Hk Hp]. rewrite (Hpq _ _ Hk) in Hp. rewrite lookup_alter_row.
    destruct (m !! i) as [x|] eqn:Hi; [|done]. simpl. case_decide as Hd; [subst; simplify_eq; by rewrite Hp|].
    destruct (q x) eqn:Hx; [|done]. exfalso. eauto.
  - rewrite find_row_None in Hf. destruct (m !! i) as [x|] eqn:Hi; [|done]. simpl.
    by rewrite <- (Hpq i x Hi), (Hf i x Hi).
Qed.
End rows.

(** * The latest attempt *)

(** A fold that keeps the greater of two, whichever it keeps of equal ones. *)
Lemma fold_latest (better : AttemptRow → AttemptRow → bool) l o :
  (∀ a b, better a b = true → (a.(at_generation) ≤ b.(at_generation))%Z) →
  (∀ a b, better a b = false → (b.(at_generation) ≤ a.(at_generation))%Z) →
  match foldl (λ o a, match o with Some b => if better b a then Some a else o | None => Some a end) o l with
  | Some a => (o = Some a ∨ a ∈ l) ∧ (∀ b, o = Some b ∨ b ∈ l → (b.(at_generation) ≤ a.(at_generation))%Z)
  | None => o = None ∧ l = []
  end.
Proof.
  intros Ht Hf. revert o. induction l as [|x l IH]; intros o; simpl.
  - destruct o as [a|]; [|done]. split; [by left|]. intros b [[= ->]|Hb]; [lia|by apply elem_of_nil in Hb].
  - set (o' := match o with Some b => if better b x then Some x else o | None => Some x end).
    specialize (IH o'). destruct (foldl _ o' l) as [a|].
    + destruct IH as [Hin Hmax]. split.
      * destruct Hin as [Ho|Ha]; [|right; by right]. unfold o' in Ho. destruct o as [b|]; [case_match|]; simplify_eq; auto using list_elem_of_here.
      * assert (Hx : (x.(at_generation) ≤ a.(at_generation))%Z ∧ (∀ b, o = Some b → (b.(at_generation) ≤ a.(at_generation))%Z)).
        { unfold o' in Hmax. destruct o as [b|]; [destruct (better b x) eqn:E|].
          - specialize (Ht _ _ E). pose proof (Hmax x (or_introl eq_refl)). split; [lia|]. intros ? [= <-]. lia.
          - specialize (Hf _ _ E). pose proof (Hmax b (or_introl eq_refl)). split; [lia|]. intros ? [= <-]. lia.
          - split; [by apply Hmax; left|done]. }
        intros b [Hb|[->|Hb]%elem_of_cons]; [by apply (proj2 Hx)|exact (proj1 Hx)|]. apply Hmax. by right.
    + destruct IH as [Ho _]. unfold o' in Ho. by destruct o as [b|]; [case_match|].
Qed.

Section mirror.
Context `{CloudExternal}.
Implicit Types (s : Store) (m : MemoryState).

Lemma attempt_key s k a : cloud_wf s → s.(delivery_attempts) !! k = Some a → k = (a.(at_tenant), a.(at_id)).
Proof. intros Hwf Ha. by destruct (dw_attempt _ _ (cw_deliveries _ Hwf) _ _ Ha). Qed.
Lemma attempt_final s k a : cloud_wf s → s.(delivery_attempts) !! k = Some a →
  bool_decide (a.(at_final_at) = None) = negb (Attempt.is_final a.(at_state)).
Proof.
  intros Hwf Ha. destruct (dw_attempt _ _ (cw_deliveries _ Hwf) _ _ Ha) as [_ _ Hf _].
  destruct (Attempt.is_final a.(at_state)), a.(at_final_at); try done.
  - by destruct (proj2 Hf eq_refl).
  - by specialize (proj1 Hf (mk_is_Some _ _ eq_refl)).
Qed.
Lemma reservation_key s k r : cloud_wf s → s.(route_reservations) !! k = Some r → k = (r.(rs_tenant), r.(rs_id)).
Proof. intros Hwf. apply (dw_key _ _ (cw_deliveries _ Hwf)). Qed.

Lemma latest_agrees s m t p id :
  cloud_wf s → mirrors s m → (∀ a, p a = true → of_job id a = true) → latest t p m = latest_attempt t p s.
Proof.
  intros Hwf Hm Hp. unfold latest, latest_attempt. rewrite (mi_attempts _ _ Hm).
  rewrite (select_rows_ext _ (λ _ a, bool_decide (a.(at_tenant) = t) && p a)); last first.
  { intros k a Ha. by rewrite (attempt_key _ _ _ Hwf Ha). }
  set (l := snd <$> _).
  assert (Hone : ∀ a b, a ∈ l → b ∈ l → a.(at_generation) = b.(at_generation) → a = b).
  { intros a b ([k a'] & -> & [Ha [Hta Hja]%andb_true_iff]%elem_of_select_rows)%list_elem_of_fmap
      ([k' b'] & -> & [Hb [Htb Hjb]%andb_true_iff]%elem_of_select_rows)%list_elem_of_fmap Hg. simpl in *.
    apply Hp, bool_decide_eq_true in Hja, Hjb. apply bool_decide_eq_true in Hta, Htb.
    assert (k = k') as ->; [|congruence].
    eapply (dw_generation _ _ (cw_deliveries _ Hwf)); [done|done|congruence..]. }
  pose proof (fold_latest (λ b a, (b.(at_generation) <=? a.(at_generation))%Z) l None) as H1.
  pose proof (fold_latest (λ b a, (b.(at_generation) <? a.(at_generation))%Z) l None) as H2.
  specialize (H1 ltac:(cbv beta; intros; lia) ltac:(cbv beta; intros; lia)). specialize (H2 ltac:(cbv beta; intros; lia) ltac:(cbv beta; intros; lia)).
  destruct (foldl _ None l) as [a|], (foldl _ None l) as [b|]; [|..|done].
  2: { destruct H1 as [[?|Ha] _], H2 as [_ Hl]; [done|]. rewrite Hl in Ha. by apply elem_of_nil in Ha. }
  2: { destruct H2 as [[?|Ha] _], H1 as [_ Hl]; [done|]. rewrite Hl in Ha. by apply elem_of_nil in Ha. }
  destruct H1 as [[?|Ha] Ha'], H2 as [[?|Hb] Hb']; try done. f_equal. apply Hone; [done..|].
  pose proof (Ha' b (or_intror Hb)). pose proof (Hb' a (or_intror Ha)). lia.
Qed.

Lemma unresolved_agrees s m t d : cloud_wf s → mirrors s m → unresolved t d m = CloudRouting.unresolved t d s.
Proof.
  intros Hwf Hm. unfold unresolved, CloudRouting.unresolved. rewrite (mi_attempts _ _ Hm). apply exists_row_ext.
  intros k a Ha. rewrite (attempt_key _ _ _ Hwf Ha), (mi_resolved _ _ Hm). done.
Qed.

(** Of an attempt's reservations there is one. *)
Lemma release_agrees s m now t attempt st :
  cloud_wf s → m.(reservations) = s.(route_reservations) →
  (release_one now t attempt st m).(reservations)
  = (release_reservations t (reserved_by [attempt]) st now s).(route_reservations).
Proof.
  intros Hwf Hm. unfold release_one, release_reservations. simpl.
  rewrite <- (alter_found (λ k r, bool_decide (k.1 = t) && bool_decide (r.(rs_attempt_id) = attempt)
                                 && bool_decide (r.(rs_state) = Active))).
  - rewrite <- Hm. by destruct (find_row _ _) as [[k r]|].
  - intros k r Hr. rewrite (reservation_key _ _ _ Hwf Hr). unfold reserved_by. simpl. f_equal. f_equal.
    apply bool_decide_ext. by rewrite list_elem_of_singleton.
  - intros k k' r r' Hr Hr' H1 H2. checks. unfold reserved_by in *. checks.
    rewrite list_elem_of_singleton in *. eapply (dw_one _ _ (cw_deliveries _ Hwf)); [done|done|congruence..].
Qed.

(** * States after an operation *)

Lemma mirrors_step s m s' m' :
  mirrors s m → m'.(attempts) = s'.(delivery_attempts) → m'.(reservations) = s'.(route_reservations) →
  in_order s'.(delivery_attempts) → m'.(routes) = m.(routes) →
  s'.(topology).(printer_routes) = s.(topology).(printer_routes) → s'.(topology).(agents) = s.(topology).(agents) →
  m'.(revoked_agents) = m.(revoked_agents) → m'.(uncertainty_resolutions) = m.(uncertainty_resolutions) →
  s'.(resolutions) = s.(resolutions) →
  (∀ k, spd_state <$> m'.(destinations) !! k = pd_state <$> s'.(topology).(physical_destinations) !! k) → mirrors s' m'.
Proof.
  intros [] Ha Hr Ho Hro Hsr Hag Hrev Hres Hsres Hd. split; try done.
  - intros k. by rewrite Hro, Hsr.
  - intros t a. rewrite Hrev. unfold active_agent. rewrite Hag. apply mi_revoked0.
  - intros t a. unfold resolved, CloudRouting.resolved in *. rewrite Hres, Hsres. apply mi_resolved0.
Qed.

(** Attempts that were open may end; the others stay. *)
Definition same_place (a b : AttemptRow) : Prop :=
  b.(at_tenant) = a.(at_tenant) ∧ b.(at_job_id) = a.(at_job_id) ∧ b.(at_generation) = a.(at_generation).
Lemma in_order_moves ats ats' :
  in_order ats →
  (∀ k b, ats' !! k = Some b → ∃ a, ats !! k = Some a ∧ same_place a b ∧ (b = a ∨ Attempt.is_final a.(at_state) = false)) →
  in_order ats'.
Proof.
  intros Ho Hf i j a b Ha Hb Ht Hj Hg.
  destruct (Hf _ _ Ha) as (a0 & Ha0 & (? & ? & ?) & Hsame), (Hf _ _ Hb) as (b0 & Hb0 & (? & ? & ?) & _).
  destruct (Ho i j a0 b0) as [Hfin Hu]; [done..|congruence|congruence|lia|]. destruct Hsame as [->|]; [done|congruence].
Qed.
Lemma in_order_alter ats k f :
  in_order ats → (∀ a, ats !! k = Some a → Attempt.is_final a.(at_state) = false ∧ same_place a (f a)) →
  in_order (alter f k ats).
Proof.
  intros Ho Hf. apply (in_order_moves ats); [done|]. intros i b. rewrite lookup_alter_row.
  intros (a & Ha & ->)%fmap_Some. exists a. split; [done|]. destruct (decide (i = k)) as [->|]; [|by split; [|left]].
  destruct (Hf _ Ha). auto.
Qed.

Lemma release_one_same now t attempt st m :
  let m' := release_one now t attempt st m in
  m'.(attempts) = m.(attempts) ∧ m'.(routes) = m.(routes) ∧ m'.(revoked_agents) = m.(revoked_agents)
  ∧ m'.(uncertainty_resolutions) = m.(uncertainty_resolutions) ∧ m'.(destinations) = m.(destinations).
Proof. unfold release_one. by destruct (find_row _ _) as [[k r]|]. Qed.

Lemma attention_agrees s m t d k :
  (∀ k, spd_state <$> m.(destinations) !! k = pd_state <$> s.(topology).(physical_destinations) !! k) →
  spd_state <$> (need_attention t d m).(destinations) !! k
  = pd_state <$> (CloudRouting.need_attention t d s).(topology).(physical_destinations) !! k.
Proof.
  intros Hd. simpl. rewrite !lookup_alter_row, <- !option_fmap_compose. specialize (Hd k).
  destruct (m.(destinations) !! k), (s.(topology).(physical_destinations) !! k); simplify_eq/=; [|done].
  case_decide; simpl; congruence.
Qed.

Definition agrees {A B} (R : A → B → Prop) (pg : Tx A) (mem : Mem B) (s : Store) (m : MemoryState) : Prop :=
  match pg s with
  | Ok (s', a) => ∃ m' b, mem m = (m', Ok b) ∧ R a b ∧ mirrors s' m'
  | Err e => mem m = (m, Err e)
  end.

(** An attempt changes, its reservation may be released, its destination may need attention. *)
Lemma settle_mirrors s m now t id a f rst (rel att : bool) d :
  cloud_wf s → mirrors s m → s.(delivery_attempts) !! (t, id) = Some a → Attempt.is_final a.(at_state) = false →
  (f a).(at_tenant) = a.(at_tenant) → (f a).(at_job_id) = a.(at_job_id) → (f a).(at_generation) = a.(at_generation) →
  let s1 := on_delivery_attempts (alter f (t, id)) s in
  let s2 := if rel then release_reservations t (reserved_by [id]) rst now s1 else s1 in
  let s3 := if att then CloudRouting.need_attention t d s2 else s2 in
  let m1 := on_attempts <[(t, id) := f a]> m in
  let m2 := if rel then release_one now t id rst m1 else m1 in
  let m3 := if att then need_attention t d m2 else m2 in
  mirrors s3 m3 ∧ s3.(delivery_attempts) !! (t, id) = Some (f a).
Proof.
  intros Hwf Hm Ha Hopen H1 H2 H3 s1 s2 s3 m1 m2 m3.
  pose proof (release_one_same now t id rst m1) as (E1 & E2 & E3 & E4 & E5).
  assert (Hat : m2.(attempts) = s2.(delivery_attempts)).
  { unfold m2, s2. destruct rel; rewrite ?E1; simpl; by rewrite (mi_attempts _ _ Hm), (alter_Some _ _ _ _ Ha). }
  assert (Hre : m2.(reservations) = s2.(route_reservations)).
  { unfold m2, s2. destruct rel; [|apply (mi_reservations _ _ Hm)].
    by rewrite (release_agrees s) by (done || apply (mi_reservations _ _ Hm)). }
  assert (Hor : in_order s2.(delivery_attempts)).
  { unfold s2. destruct rel; apply in_order_alter; try apply (mi_order _ _ Hm); intros b Hb; simplify_eq; done. }
  assert (mirrors s2 m2) as Hm2.
  { apply (mirrors_step s m); try done; unfold m2, s2; destruct rel; try done; simpl.
    all: intros k; rewrite ?E5; apply (mi_destinations _ _ Hm). }
  assert (Hl : s2.(delivery_attempts) !! (t, id) = Some (f a)).
  { unfold s2. destruct rel; simpl; by rewrite lookup_alter_eq, Ha. }
  unfold s3, m3. destruct att; [|done]. split; [|done].
  apply (mirrors_step s2 m2); try done.
  intros k. apply attention_agrees, (mi_destinations _ _ Hm2).
Qed.

Section operations.
Variable c : Clock.
#[local] Abbreviation now := c.(utc_now).

Ltac run := unfold mbind, tx_bind, op_bind, pure_result, fetch, query, ensure, execute, read, find, require, write,
  mret, tx_ret, op_ret.

Lemma valid_open f t : Attempt.valid_attempt_transition f t = true → Attempt.is_final f = false.
Proof. by destruct f. Qed.
Lemma open_not_final s k a :
  cloud_wf s → s.(delivery_attempts) !! k = Some a → Attempt.is_final a.(at_state) = false → a.(at_final_at) = None.
Proof.
  intros Hwf Ha Hf. pose proof (attempt_final _ _ _ Hwf Ha) as He. rewrite Hf in He. by apply bool_decide_eq_true in He.
Qed.

Lemma transition_agrees s m t attempt generation token next :
  cloud_wf s → mirrors s m → is_Some (i64_of_u64 generation) →
  agrees eq (CloudRouting.transition_delivery_attempt c t attempt generation token next)
    (transition_delivery_attempt now t attempt generation token next) s m.
Proof.
  intros Hwf Hm [g Hg]. unfold agrees, CloudRouting.transition_delivery_attempt, transition_delivery_attempt. run.
  rewrite Hg, (mi_attempts _ _ Hm). unfold i64_of_u64 in Hg. destruct (_ <? _)%Z; simplify_eq/=.
  destruct (s.(delivery_attempts) !! (t, attempt)) as [a|] eqn:Ha; [|done].
  destruct (_ && _ && _) eqn:Hok; [|done]. checks. rename H1 into Hv.
  pose proof (valid_open _ _ Hv) as Hopen. pose proof (open_not_final _ _ _ Hwf Ha Hopen) as Hnone.
  set (f := λ a, mark_times next now (set_attempt next (final_time next now) a)).
  assert (Hf : (if decide (next = Attempt.AcceptedBySpooler) then mark_times next now (set_attempt next None a)
                else advance now next a) = f a).
  { unfold f, advance, final_time. rewrite Hnone. by destruct next. }
  rewrite Hf. destruct (settle_mirrors s m now t attempt a f (released_state next)
    (Attempt.is_final next || bool_decide (next = Attempt.AcceptedBySpooler)) (bool_decide (next = Attempt.DeliveryUncertain))
    a.(at_destination_id)) as [Hmir Hlook]; [done..|].
  replace (f a).(at_destination_id) with a.(at_destination_id) by done. clearbody f. clear Hf.
  rewrite !decide_bool_decide.
  destruct (_ || _), (bool_decide (next = Attempt.DeliveryUncertain)); cbn in Hlook |- *; rewrite Hlook; by eexists _, _.
Qed.

Lemma report_agrees s m t a next :
  cloud_wf s → mirrors s m → s.(delivery_attempts) !! (t, a.(at_id)) = Some a → post_spooler a.(at_state) = true →
  agrees eq (CloudRouting.report_attempt c t a next) (report_attempt now t a next) s m.
Proof.
  intros Hwf Hm Ha Hopen. unfold agrees, CloudRouting.report_attempt, report_attempt. run.
  set (f := set_attempt next (final_time next now)).
  destruct (settle_mirrors s m now t a.(at_id) a f Released true (bool_decide (next = Attempt.DeliveryUncertain))
    a.(at_destination_id)) as [Hmir Hlook]; try done.
  { apply bool_decide_eq_true in Hopen. by destruct a.(at_state); vm_compute in Hopen |- *; set_solver. }
  replace (f a).(at_destination_id) with a.(at_destination_id) by done. rewrite !decide_bool_decide.
  destruct (bool_decide (next = Attempt.DeliveryUncertain)); cbn in Hlook |- *; rewrite Hlook; by eexists _, _.
Qed.

Lemma latest_attempt_ext s t p q : (∀ a, p a = q a) → latest_attempt t p s = latest_attempt t q s.
Proof. intros Hpq. unfold latest_attempt. f_equal. f_equal. apply select_rows_ext. intros k a _. by rewrite Hpq. Qed.
Lemma latest_attempt_none s t p : (∀ a, p a = false) → latest_attempt t p s = None.
Proof.
  intros Hp. destruct (latest_attempt t p s) as [a|] eqn:Ha; [|done].
  apply latest_attempt_Some in Ha as (k & _ & _ & Ha). by rewrite Hp in Ha.
Qed.
Lemma latest_attempt_row s t p a : cloud_wf s → latest_attempt t p s = Some a →
  s.(delivery_attempts) !! (t, a.(at_id)) = Some a ∧ p a = true.
Proof.
  intros Hwf (k & Ha & <- & Hp)%latest_attempt_Some. split; [|done]. by rewrite <- (attempt_key _ _ _ Hwf Ha).
Qed.
Lemma owner_agrees s m t route :
  mirrors s m → spr_agent_id <$> m.(routes) !! (t, route) = rt_agent_id <$> s.(topology).(printer_routes) !! (t, route).
Proof.
  intros Hm. pose proof (mi_routes _ _ Hm (t, route)) as Hr.
  destruct (m.(routes) !! _), (s.(topology).(printer_routes) !! _); try done.
  injection Hr as _ Hr _ _. simpl. by rewrite Hr.
Qed.

Lemma post_spooler_agrees s m t job agent route next :
  cloud_wf s → mirrors s m →
  agrees eq (CloudRouting.transition_post_spooler_attempt c t job agent route next)
    (transition_post_spooler_attempt now t job agent route next) s m.
Proof.
  intros Hwf Hm. pose proof (λ a, report_agrees s m t a next Hwf Hm) as Hrep. revert Hrep.
  unfold agrees, CloudRouting.transition_post_spooler_attempt, transition_post_spooler_attempt. run. intros Hrep.
  destruct (bool_decide (next ∈ _)); [|done]. rewrite (owner_agrees s) by done.
  set (owner := rt_agent_id <$> _).
  rewrite (latest_attempt_ext s t _ (λ a, of_job job a && bool_decide (a.(at_route_id) = route)
    && bool_decide (owner = Some agent))); last first.
  { intros a. unfold route_agent. destruct (decide (a.(at_route_id) = route)) as [->|]; [done|].
    by rewrite (bool_decide_eq_false_2 (_ = route)), andb_false_r by done. }
  destruct (bool_decide (owner = Some agent)); [|by rewrite latest_attempt_none by (intros; apply andb_false_r)].
  rewrite (latest_agrees s m t _ job) by (done || by intros a [? _]%andb_true_iff).
  rewrite (latest_attempt_ext s t _ (λ a, of_job job a && bool_decide (a.(at_route_id) = route)))
    by (intros; apply andb_true_r).
  destruct (latest_attempt _ _ s) as [a|] eqn:Ha; [|done]. apply latest_attempt_row in Ha as [Ha _]; [|done].
  rewrite andb_comm. destruct (post_spooler _ && _) eqn:Hp; [|done]. apply andb_true_iff in Hp as [Hp _]. by apply Hrep.
Qed.

Lemma mark_agrees s m t job :
  cloud_wf s → mirrors s m →
  agrees eq (CloudRouting.mark_post_spooler_attempt_uncertain c t job) (mark_post_spooler_attempt_uncertain now t job) s m.
Proof.
  intros Hwf Hm. pose proof (λ a, report_agrees s m t a Attempt.DeliveryUncertain Hwf Hm) as Hrep. revert Hrep.
  unfold agrees, CloudRouting.mark_post_spooler_attempt_uncertain, mark_post_spooler_attempt_uncertain. run. intros Hrep.
  rewrite (latest_agrees s m t _ job) by done.
  destruct (latest_attempt _ _ s) as [a|] eqn:Ha; [|done]. apply latest_attempt_row in Ha as [Ha _]; [|done].
  destruct (post_spooler _) eqn:Hp; [|done]. by apply Hrep.
Qed.

Lemma renew_agrees s m t reservation generation token until :
  cloud_wf s → mirrors s m → is_Some (i64_of_u64 generation) →
  agrees eq (CloudRouting.renew_delivery_attempt c t reservation generation token until)
    (renew_delivery_attempt now t reservation generation token until) s m.
Proof.
  intros Hwf Hm [g Hg]. unfold agrees, CloudRouting.renew_delivery_attempt, renew_delivery_attempt. run.
  destruct (_ <? until)%Z; [|done].
  rewrite Hg, (mi_reservations _ _ Hm). unfold i64_of_u64 in Hg. destruct (_ <? _)%Z; simplify_eq/=.
  destruct (s.(route_reservations) !! _) as [r|] eqn:Hr; [|done]. rewrite (mi_attempts _ _ Hm).
  destruct (s.(delivery_attempts) !! _) as [a|] eqn:Ha; [|done].
  pose proof (attempt_key _ _ _ Hwf Ha) as Hk. pose proof (reservation_key _ _ _ Hwf Hr) as Hkr. simplify_eq.
  destruct (dw_reserves _ _ (cw_deliveries _ Hwf) _ _ Hr) as (a' & Ha' & _ & Hh). simpl in Ha'.
  rewrite Ha in Ha'. simplify_eq. unfold holds in Hh.
  destruct (Attempt.renewable a'.(at_state)) eqn:Hren; rewrite ?andb_false_r, ?andb_true_r; [|done].
  rewrite (bool_decide_eq_true_2 _ (proj2 Hh eq_refl)), andb_true_r. destruct (_ && _); [|done].
  eexists _, _. split_and!; [done|done|]. rewrite H1. apply (mirrors_step s m); try done; simpl.
  - by rewrite (mi_attempts _ _ Hm).
  - by rewrite (mi_reservations _ _ Hm).
  - apply in_order_alter; [apply (mi_order _ _ Hm)|]. intros a. rewrite <- H1, Ha. intros [= <-].
    split; [by destruct a'.(at_state)|done].
  - apply (mi_destinations _ _ Hm).
Qed.

Lemma recompute_agrees s m t destination :
  cloud_wf s → mirrors s m →
  agrees (λ d d', d.(pd_state) = d'.(spd_state)) (CloudRouting.recompute_destination_attention t destination)
    (recompute_destination_attention t destination) s m.
Proof.
  intros Hwf Hm. unfold agrees, CloudRouting.recompute_destination_attention, recompute_destination_attention. run.
  rewrite (unresolved_agrees s) by done. pose proof (mi_destinations _ _ Hm (t, destination)) as Hd.
  destruct (m.(destinations) !! _) as [d|] eqn:Hmd, (s.(topology).(physical_destinations) !! _) as [d'|] eqn:Hsd;
    simplify_eq/=; [|done]. rewrite <- Hd. eexists _, _. split_and!; [done|done|].
  apply (mirrors_step s m); try done; try apply Hm. intros k. simpl.
  destruct (decide (k = (t, destination))) as [->|]; [by rewrite lookup_insert_eq, lookup_alter_eq, Hsd|].
  rewrite lookup_insert_ne, lookup_alter_ne by done. apply Hm.
Qed.

(** ** Starting an attempt *)

Hypothesis same_clock : c.(sql_now) = c.(utc_now).

Lemma supersede_none t now s : supersede t [] now s = s.
Proof.
  assert (Hid : ∀ {K V} `{Countable K} (p : V → bool) f (tbl : gmap K V), (∀ v, p v = false) → update_where p f tbl = tbl).
  { intros K V ?? p f tbl Hp. apply map_eq. intros k. rewrite lookup_update_where. destruct (tbl !! k); simpl; [by rewrite Hp|done]. }
  unfold supersede, finish_attempts, release_reservations, on_route_reservations, on_delivery_attempts. simpl.
  rewrite !Hid; [by destruct s|..]; intros v; unfold reserved_by.
  all: rewrite ?(bool_decide_eq_false_2 (_ ∈ [])) by apply not_elem_of_nil; by rewrite andb_false_r.
Qed.

Lemma stale_ids s t d x a : cloud_wf s → s.(delivery_attempts) !! (t, x) = Some a →
  bool_decide (x ∈ stale_attempts c t d s) = stale now t d (t, x) a.
Proof.
  intros Hwf Ha. apply Bool.eq_true_iff_eq. rewrite bool_decide_eq_true. unfold stale_attempts, stale.
  rewrite list_elem_of_fmap, same_clock. simpl. split.
  - intros ([k b] & -> & [Hb Hp]%elem_of_select_rows). simpl in *. checks. pose proof (attempt_key _ _ _ Hwf Hb) as ->.
    subst t. simplify_eq. rewrite !bool_decide_eq_true_2 by done. done.
  - intros Hp. exists ((t, x), a). pose proof (attempt_key _ _ _ Hwf Ha). simplify_eq/=. split; [done|].
    apply elem_of_select_rows. split; [done|]. simpl. checks.
    rewrite (open_not_final _ _ _ Hwf Ha) by by rewrite H2. rewrite !bool_decide_eq_true_2 by done. by rewrite H1.
Qed.
Lemma stale_row s t d k a : cloud_wf s → s.(delivery_attempts) !! k = Some a →
  bool_decide (a.(at_tenant) = t)
  && (bool_decide (a.(at_id) ∈ stale_attempts c t d s) && bool_decide (a.(at_state) = Attempt.RouteLeased))
  && bool_decide (a.(at_final_at) = None) = stale now t d k a.
Proof.
  intros Hwf Ha. pose proof (attempt_key _ _ _ Hwf Ha) as ->. destruct (decide (a.(at_tenant) = t)) as [Ht|Ht].
  - rewrite Ht in Ha |- *. rewrite (stale_ids _ _ d _ _ Hwf Ha). destruct (stale _ _ _ _ _) eqn:Hs.
    + unfold stale in Hs. checks. rewrite (open_not_final _ _ _ Hwf Ha) by by rewrite H2. by rewrite !bool_decide_eq_true_2.
    + by rewrite andb_false_r.
  - unfold stale. simpl. by rewrite bool_decide_eq_false_2.
Qed.

Lemma stale_list s m t d : cloud_wf s → mirrors s m →
  (λ e : Tenant * string * AttemptRow, e.2.(at_id)) <$> select_rows (stale now t d) m.(attempts) = stale_attempts c t d s.
Proof.
  intros Hwf Hm. rewrite (mi_attempts _ _ Hm). unfold stale_attempts. f_equal. apply select_rows_ext. intros k a Ha.
  rewrite (attempt_key _ _ _ Hwf Ha). unfold stale. simpl. rewrite same_clock.
  destruct (decide (a.(at_state) = Attempt.RouteLeased)) as [Hs|Hs].
  - by rewrite (open_not_final _ _ _ Hwf Ha), !(bool_decide_eq_true_2 (None = None)), andb_true_r by by rewrite ?Hs.
  - by rewrite (bool_decide_eq_false_2 (a.(at_state) = _)), !andb_false_r by done.
Qed.

Lemma stale_agrees s m t d :
  cloud_wf s → mirrors s m → mirrors (supersede t (stale_attempts c t d s) c.(sql_now) s) (supersede_stale now t d m).
Proof.
  intros Hwf Hm. apply (mirrors_step s m); try done; try apply (mi_destinations _ _ Hm); unfold supersede_stale; simpl.
  - rewrite (mi_attempts _ _ Hm), same_clock. apply map_eq. intros k. rewrite map_lookup_imap, lookup_update_where.
    destruct (s.(delivery_attempts) !! k) as [a|] eqn:Ha; [|done]. simpl. by rewrite (stale_row s t d k a) by done.
  - rewrite (stale_list s) by done. rewrite (mi_reservations _ _ Hm), same_clock. apply map_eq. intros k.
    rewrite map_lookup_imap, lookup_update_where. destruct (s.(route_reservations) !! k) as [r|] eqn:Hr; [|done]. simpl.
    rewrite (reservation_key _ _ _ Hwf Hr). unfold reserved_by. simpl.
    by rewrite <- !andb_assoc, (andb_comm (bool_decide (r.(rs_state) = Active))).
  - apply (in_order_moves s.(delivery_attempts)); [apply (mi_order _ _ Hm)|]. intros k b. rewrite lookup_update_where.
    intros (a & Ha & ->)%fmap_Some. exists a. split; [done|]. destruct (_ && _ && _) eqn:Hb; [|by split; [|left]].
    split; [done|right]. checks. by rewrite H3.
Qed.

Lemma own_attempt s m t job : cloud_wf s → mirrors s m →
  find_row (λ k a, bool_decide (k.1 = t) && of_job job a && negb (Attempt.is_final a.(at_state))) m.(attempts)
  = head (select_rows (λ _ a, bool_decide (a.(at_tenant) = t) && of_job job a && bool_decide (a.(at_final_at) = None))
            s.(delivery_attempts)).
Proof.
  intros Hwf Hm. unfold find_row. rewrite (mi_attempts _ _ Hm). f_equal. apply select_rows_ext. intros k a Ha.
  by rewrite (attempt_final _ _ _ Hwf Ha), (attempt_key _ _ _ Hwf Ha).
Qed.

(** A lease is superseded: the row of the attempt is the only one with its id. *)
Lemma supersede_one t k a s : cloud_wf s → s.(delivery_attempts) !! k = Some a → a.(at_tenant) = t →
  a.(at_state) = Attempt.RouteLeased →
  supersede t [a.(at_id)] now s
  = release_reservations t (reserved_by [a.(at_id)]) ReservationSuperseded now
      (on_delivery_attempts (alter (set_attempt Attempt.Superseded (Some now)) (t, a.(at_id))) s).
Proof.
  intros Hwf Ha Ht Hs. unfold supersede, finish_attempts, on_delivery_attempts. f_equal. f_equal. apply map_eq. intros i.
  pose proof (attempt_key _ _ _ Hwf Ha) as Hk. rewrite lookup_update_where, lookup_alter_row.
  destruct (s.(delivery_attempts) !! i) as [b|] eqn:Hb; [|done]. simpl. f_equal.
  pose proof (attempt_key _ _ _ Hwf Hb) as Hi. destruct (decide (i = (t, a.(at_id)))) as [He|He].
  - assert (b = a) as -> by congruence. rewrite (open_not_final _ _ _ Hwf Ha) by by rewrite Hs.
    rewrite !bool_decide_eq_true_2; [done|..]; try done. apply list_elem_of_singleton. done.
  - destruct (decide (b.(at_tenant) = t)); [|by rewrite bool_decide_eq_false_2].
    rewrite (bool_decide_eq_false_2 (_ ∈ _)), andb_false_r; [done|]. rewrite list_elem_of_singleton. congruence.
Qed.

Lemma latest_greatest s t p a k b : latest_attempt t p s = Some a →
  s.(delivery_attempts) !! k = Some b → b.(at_tenant) = t → p b = true → (b.(at_generation) ≤ a.(at_generation))%Z.
Proof.
  intros Ha Hb Ht Hp. unfold latest_attempt in Ha.
  pose proof (fold_latest (λ b a, (b.(at_generation) <? a.(at_generation))%Z)) as Hf. cbv beta in Hf.
  specialize (Hf (snd <$> select_rows (λ _ a, bool_decide (a.(at_tenant) = t) && p a) s.(delivery_attempts)) None).
  rewrite Ha in Hf. destruct Hf as [_ Hmax]; [intros; lia|intros; lia|]. apply Hmax. right. apply list_elem_of_fmap.
  exists (k, b). split; [done|]. apply elem_of_select_rows. split; [done|]. by rewrite bool_decide_eq_true_2, Hp.
Qed.
Lemma latest_exists s t p k b : s.(delivery_attempts) !! k = Some b → b.(at_tenant) = t → p b = true →
  is_Some (latest_attempt t p s).
Proof.
  intros Hb Ht Hp. destruct (latest_attempt t p s) as [a|] eqn:Ha; [done|]. unfold latest_attempt in Ha.
  pose proof (fold_latest (λ b a, (b.(at_generation) <? a.(at_generation))%Z)) as Hf. cbv beta in Hf.
  specialize (Hf (snd <$> select_rows (λ _ a, bool_decide (a.(at_tenant) = t) && p a) s.(delivery_attempts)) None).
  rewrite Ha in Hf. destruct Hf as [_ Hnil]; [intros; lia|intros; lia|]. apply fmap_nil_inv in Hnil.
  assert (Hin : (k, b) ∈ select_rows (λ _ a, bool_decide (a.(at_tenant) = t) && p a) s.(delivery_attempts)).
  { apply elem_of_select_rows. split; [done|]. by rewrite bool_decide_eq_true_2, Hp. }
  rewrite Hnil in Hin. by apply elem_of_nil in Hin.
Qed.

(** When the latest attempt of a job is not uncertain, none is. *)
Lemma none_uncertain s m t job : cloud_wf s → mirrors s m →
  at_state <$> latest_attempt t (of_job job) s ≠ Some Attempt.DeliveryUncertain →
  exists_row (λ k a, bool_decide (k.1 = t) && of_job job a && bool_decide (a.(at_state) = Attempt.DeliveryUncertain))
    m.(attempts) = false.
Proof.
  intros Hwf Hm Hl. rewrite (mi_attempts _ _ Hm). apply exists_row_false. intros k b Hb.
  apply not_true_iff_false. intros Hp. rewrite (attempt_key _ _ _ Hwf Hb) in Hp. checks. simpl in *.
  destruct (latest_exists _ t (of_job job) _ _ Hb) as [a Ha]; [done..|]. rewrite Ha in Hl. simpl in Hl.
  pose proof (latest_greatest _ _ _ _ _ _ Ha Hb) as Hg. apply latest_attempt_Some in Ha as (k' & Ha & Ht & Hj).
  specialize (Hg ltac:(done) ltac:(done)). unfold of_job in *. checks.
  destruct (decide (b.(at_generation) = a.(at_generation))) as [He|He].
  - assert (k = k') as <- by (eapply (dw_generation _ _ (cw_deliveries _ Hwf)); [done|done|congruence..]). congruence.
  - destruct (mi_order _ _ Hm k k' b a) as [_ Hu]; [done..|congruence|congruence|lia|]. done.
Qed.

Lemma retire_own_agrees s s' m t job u :
  cloud_wf s → mirrors s m → CloudRouting.retire_own_attempt c t job s = Ok (s', u) →
  ∃ m', retire_own_attempt now t job m = (m', Ok ()) ∧ mirrors s' m'.
Proof.
  intros Hwf Hm. unfold CloudRouting.retire_own_attempt, retire_own_attempt. run. rewrite (own_attempt s) by done.
  destruct (head _) as [[k a]|] eqn:Hown.
  - destruct (_ && _) eqn:Hok; [|done]. intros [= <- <-]. checks.
    apply head_Some_elem_of, elem_of_select_rows in Hown as [Ha Hp]. checks.
    rewrite (supersede_one t k a) by done. pose proof (attempt_key _ _ _ Hwf Ha) as ->. eexists. split; [done|].
    destruct (settle_mirrors s m now t a.(at_id) a (set_attempt Attempt.Superseded (Some now)) ReservationSuperseded
      true false a.(at_destination_id)) as [Hmir _]; [done|done|congruence|by rewrite H0|done..|].
    unfold on_attempts in Hmir |- *. rewrite (mi_attempts _ _ Hm) in Hmir |- *. rewrite H2.
    by rewrite (alter_Some _ _ _ a) by congruence.
  - destruct (bool_decide (_ = Some Attempt.DeliveryUncertain)) eqn:Hu; [done|]. intros [= <- <-].
    apply bool_decide_eq_false in Hu. rewrite (none_uncertain s) by done. by exists m.
Qed.

Lemma retire_own_certain s s' m t job u k b :
  cloud_wf s → mirrors s m → CloudRouting.retire_own_attempt c t job s = Ok (s', u) →
  s'.(delivery_attempts) !! k = Some b → b.(at_tenant) = t → b.(at_job_id) = job → b.(at_state) ≠ Attempt.DeliveryUncertain.
Proof.
  intros Hwf Hm. unfold CloudRouting.retire_own_attempt. run. destruct (head _) as [[ka a]|] eqn:Hown.
  - destruct (_ && _) eqn:Hok; [|done]. intros [= <- <-]. checks.
    apply head_Some_elem_of, elem_of_select_rows in Hown as [Ha Hp]. checks. unfold of_job in *. checks.
    rewrite (supersede_one t ka a) by done. simpl. rewrite lookup_alter_row. intros (b0 & Hb & ->)%fmap_Some.
    destruct (decide (k = (t, a.(at_id)))); [done|]. intros Hbt Hbj Hu.
    destruct (Z.lt_trichotomy a.(at_generation) b0.(at_generation)) as [Hg|[Hg|Hg]].
    + destruct (mi_order _ _ Hm ka k a b0) as [Hf _]; [done..|congruence|congruence|done|]. by rewrite H0 in Hf.
    + assert (ka = k) as -> by (eapply (dw_generation _ _ (cw_deliveries _ Hwf)); [done|done|congruence..]).
      simplify_eq. congruence.
    + destruct (mi_order _ _ Hm k ka b0 a) as [_ Hf]; [done..|congruence|congruence|done|]. done.
  - destruct (bool_decide (_ = Some Attempt.DeliveryUncertain)) eqn:Hu; [done|]. intros [= <- <-].
    apply bool_decide_eq_false in Hu. pose proof (none_uncertain s m t job Hwf Hm Hu) as Hn.
    rewrite (mi_attempts _ _ Hm), exists_row_false in Hn. intros Hb Ht Hj Hst. specialize (Hn _ _ Hb).
    rewrite (attempt_key _ _ _ Hwf Hb) in Hn. unfold of_job in Hn. simpl in Hn. by rewrite !bool_decide_eq_true_2 in Hn.
Qed.

(** The attempt and the reservation that both repositories insert. *)
Lemma insert_agrees s s1 s2 m t q token u v :
  let g := (from_option at_generation 0 (latest_attempt t (of_job q.(nd_job_id)) s) + 1)%Z in
  let a := new_attempt c t q g (token_digest token) in
  let r := new_reservation c t q g (token_digest token) in
  cloud_wf s → mirrors s m → (g ≤ i64_max)%Z →
  (∀ k b, s.(delivery_attempts) !! k = Some b → b.(at_tenant) = t → b.(at_job_id) = q.(nd_job_id) →
    b.(at_state) ≠ Attempt.DeliveryUncertain) →
  insert_attempt a s = Ok (s1, u) → insert_reservation r s1 = Ok (s2, v) →
  next_generation t q.(nd_job_id) m = g
  ∧ leased_attempt now t q g (token_digest token) = a ∧ active_reservation now t q g (token_digest token) = r
  ∧ exists_row (λ k r, bool_decide (k.1 = t)
      && (bool_decide (r.(rs_route_id) = q.(nd_route_id)) || bool_decide (r.(rs_destination_id) = q.(nd_destination_id)))
      && bool_decide (r.(rs_state) = Active)) m.(reservations) = false
  ∧ mirrors s2 (on_reservations <[(t, q.(nd_reservation_id)) := r]> (on_attempts <[(t, q.(nd_attempt_id)) := a]> m)).
Proof.
  intros g a r Hwf Hm Hg Hcertain Hia Hir. unfold insert_attempt in Hia. tx Hia. unfold insert_reservation in Hir. tx Hir.
  apply negb_true_iff in Hx, Hx1. unfold attempt_conflict in Hx. unfold reservation_conflict in Hx1.
  simpl in Hx1. pose proof (proj1 (exists_row_false _ _) Hx) as Hfree. pose proof (proj1 (exists_row_false _ _) Hx1) as Hroom.
  assert (Hclosed : ∀ k b, s.(delivery_attempts) !! k = Some b → b.(at_tenant) = t → b.(at_job_id) = q.(nd_job_id) →
    Attempt.is_final b.(at_state) = true).
  { intros k b Hb Ht Hj. specialize (Hfree k b Hb). apply orb_false_iff in Hfree as [_ Hopen]. simpl in Hopen.
    rewrite (attempt_final _ _ _ Hwf Hb), Ht, Hj, !(bool_decide_eq_true_2 (_ = _)) in Hopen by done.
    apply orb_false_iff in Hopen as [_ Hopen]. by apply negb_false_iff in Hopen. }
  split_and!.
  - unfold next_generation. rewrite (latest_agrees s m t _ q.(nd_job_id)) by done. fold g. unfold i64_max in Hg. lia.
  - unfold leased_attempt, a, new_attempt. by rewrite same_clock.
  - unfold active_reservation, r, new_reservation. by rewrite same_clock.
  - rewrite (mi_reservations _ _ Hm). apply exists_row_false. intros k p Hp. specialize (Hroom k p Hp).
    apply orb_false_iff in Hroom as [_ Hroom]. simpl in Hroom. rewrite (reservation_key _ _ _ Hwf Hp). simpl.
    destruct (bool_decide (p.(rs_tenant) = t)); [simpl in *|done]. apply orb_false_iff in Hroom as [_ Hroom].
    destruct (bool_decide (p.(rs_state) = Active)); [simpl in *|by rewrite andb_false_r].
    apply orb_false_iff in Hroom as [-> _]. done.
  - apply (mirrors_step s m); try done; simpl; [by rewrite (mi_attempts _ _ Hm)|by rewrite (mi_reservations _ _ Hm)| |].
    + intros i k b1 b2. rewrite !lookup_insert_Some. intros [[<- <-]|[_ H1]] [[<- <-]|[_ H2]] Ht Hj Hlt; simpl in *.
      * lia.
      * pose proof (latest_exists _ t (of_job q.(nd_job_id)) _ _ H2) as [l Hl]; [done|unfold of_job; by rewrite bool_decide_eq_true_2|].
        pose proof (latest_greatest _ _ _ _ _ _ Hl H2) as Hle. unfold of_job in Hle at 1.
        rewrite bool_decide_eq_true_2 in Hle by done. specialize (Hle ltac:(done) eq_refl).
        unfold g in Hlt. rewrite Hl in Hlt. simpl in Hlt. lia.
      * split; [by eapply Hclosed|by eapply Hcertain].
      * by apply (mi_order _ _ Hm i k b1 b2).
    + apply (mi_destinations _ _ Hm).
Qed.

Lemma unresolved_evolves s s' t d : (∀ k b, s'.(delivery_attempts) !! k = Some b → b.(at_state) = Attempt.DeliveryUncertain →
    s.(delivery_attempts) !! k = Some b) → s'.(resolutions) = s.(resolutions) →
  CloudRouting.unresolved t d s = false → CloudRouting.unresolved t d s' = false.
Proof.
  unfold CloudRouting.unresolved. rewrite !exists_row_false. intros Hb Hr Hs k b Hk.
  destruct (decide (b.(at_state) = Attempt.DeliveryUncertain)) as [Hu|Hu].
  - unfold CloudRouting.resolved. rewrite Hr. by apply (Hs k), Hb.
  - by rewrite (bool_decide_eq_false_2 (b.(at_state) = _)), andb_false_r by done.
Qed.
Lemma supersede_uncertain t ids now s k b :
  (supersede t ids now s).(delivery_attempts) !! k = Some b → b.(at_state) = Attempt.DeliveryUncertain →
  s.(delivery_attempts) !! k = Some b.
Proof. simpl. rewrite lookup_update_where. intros (a & Ha & ->)%fmap_Some. by destruct (_ && _). Qed.

Lemma retire_own_uncertain t job s s' u :
  CloudRouting.retire_own_attempt c t job s = Ok (s', u) → s'.(resolutions) = s.(resolutions)
  ∧ (∀ k b, s'.(delivery_attempts) !! k = Some b → b.(at_state) = Attempt.DeliveryUncertain →
       s.(delivery_attempts) !! k = Some b).
Proof. intros Hm. unfold CloudRouting.retire_own_attempt in Hm. txs Hm; [|done]. split; [done|apply supersede_uncertain]. Qed.
Lemma stale_wf s t d : cloud_wf s → cloud_wf (supersede t (stale_attempts c t d s) c.(sql_now) s).
Proof.
  intros Hwf. eapply store_evolves_wf; [done|]. apply supersede_evolves; [done|]. apply leased_ids; [done|].
  intros k b [_ [[[[Ht _]%andb_true_iff Hs]%andb_true_iff _]%andb_true_iff _]%andb_true_iff]%elem_of_select_rows.
  by rewrite bool_decide_eq_true in Ht, Hs.
Qed.

Lemma reserve_refines s s' m t q token a r :
  cloud_wf s → mirrors s m → CloudRouting.unresolved t q.(nd_destination_id) s = false →
  CloudRouting.reserve_delivery c t q token s = Ok (s', (a, r)) → (a.(at_generation) ≤ i64_max)%Z →
  ∃ m1 m2, supersede_stale now t q.(nd_destination_id) m = m1 ∧ retire_own_attempt now t q.(nd_job_id) m1 = (m2, Ok ())
   ∧ exists_row (λ k r, bool_decide (k.1 = t)
      && (bool_decide (r.(rs_route_id) = q.(nd_route_id)) || bool_decide (r.(rs_destination_id) = q.(nd_destination_id)))
      && bool_decide (r.(rs_state) = Active)) m2.(reservations) = false
   ∧ unresolved t q.(nd_destination_id) m2 = false
   ∧ let g := next_generation t q.(nd_job_id) m2 in
     leased_attempt now t q g (token_digest token) = a ∧ active_reservation now t q g (token_digest token) = r
   ∧ mirrors s' (on_reservations <[(t, q.(nd_reservation_id)) := r]> (on_attempts <[(t, q.(nd_attempt_id)) := a]> m2)).
Proof.
  intros Hwf Hm Hun Hr Hg. remember (a, r) as o eqn:Ho. unfold reserve_delivery in Hr. tx Hr.
  assert (s0 = supersede t (stale_attempts c t q.(nd_destination_id) s) c.(sql_now) s) as ->.
  { destruct (bool_decide (_ = [])) eqn:Hnil; tx Hx; [|done]. apply bool_decide_eq_true in Hnil. by rewrite Hnil, supersede_none. }
  set (s0 := supersede _ _ _ s) in *. assert (Hwf0 : cloud_wf s0) by by apply stale_wf.
  assert (Hm0 : mirrors s0 (supersede_stale now t q.(nd_destination_id) m)) by by apply stale_agrees.
  destruct (retire_own_agrees _ _ _ _ _ _ Hwf0 Hm0 Hx2) as (m2 & Hret & Hm2).
  destruct (retire_own_uncertain _ _ _ _ _ Hx2) as [Hres Hunc].
  assert (Hwf1 : cloud_wf s1) by (eapply store_evolves_wf; [exact Hwf0|]; by eapply retire_own_evolves).
  injection Ho as <- <-. simpl in Hg.
  destruct (insert_agrees _ _ _ m2 _ _ _ _ _ Hwf1 Hm2 Hg (λ k b, retire_own_certain _ _ _ _ _ _ k b Hwf0 Hm0 Hx2) Hx3 Hx4)
    as (Hgen & Ea & Er & Hfree & Hmir).
  eexists _, m2. split_and!; [done|done|done| |]; last first.
  - intros gen. unfold gen. rewrite Hgen. done.
  - rewrite (unresolved_agrees s1) by done. apply (unresolved_evolves s0); [done|done|].
    apply (unresolved_evolves s); [|done|done]. apply supersede_uncertain.
Qed.

(** An attempt that the database starts, the memory starts too, with the same rows. *)
Lemma checked_route s s' m t q u :
  mirrors s m → check_delivery c t q s = Ok (s', u) →
  ∃ r, m.(routes) !! (t, q.(nd_route_id)) = Some r ∧ r.(spr_destination_id) = q.(nd_destination_id)
    ∧ r.(spr_enabled) = true ∧ (t, r.(spr_agent_id)) ∉ m.(revoked_agents).
Proof.
  intros Hm Hc. unfold check_delivery, check_against in Hc. tx Hc. checks. pose proof (mi_routes _ _ Hm (t, q.(nd_route_id))) as Hr.
  rewrite Hx in Hr. apply fmap_Some in Hr as (r & Hr & Hv). injection Hv as E1 E2 E3 E4. exists r.
  split_and!; [done|congruence|congruence|]. intros Hrev%(mi_revoked _ _ Hm). congruence.
Qed.
Lemma checked_mirrors s s' m t q u : mirrors s m → check_delivery c t q s = Ok (s', u) → mirrors s' m.
Proof.
  intros Hm Hc. unfold check_delivery, check_against in Hc. tx Hc. txs Hx5; [done|]. subst.
  apply (mirrors_step s m); try done; apply Hm.
Qed.

Lemma begin_refines s s' m t q token a r :
  cloud_wf s → mirrors s m → CloudRouting.begin_delivery_attempt c t q token s = Ok (s', (a, r)) →
  (a.(at_generation) ≤ i64_max)%Z →
  ∃ m', begin_delivery_attempt now t q token m = (m', Ok (a, r)) ∧ mirrors s' m'.
Proof.
  intros Hwf Hm Hb Hg. remember (a, r) as o eqn:Ho. unfold CloudRouting.begin_delivery_attempt in Hb. tx Hb. subst o.
  destruct (checked_route _ _ _ _ _ _ Hm Hx) as (rt & Hrt & Hd & He & Hrev).
  pose proof (checked_mirrors _ _ _ _ _ _ Hm Hx) as Hm0.
  destruct (check_delivery_evolves _ _ _ _ _ _ Hx) as (Hev & _ & _ & Hun & _).
  destruct (reserve_refines _ _ _ _ _ _ _ _ (store_evolves_wf _ _ Hwf Hev) Hm0 Hun Hb Hg)
    as (m1 & m2 & <- & Hret & Hfree & Hopen & Ea & Er & Hmir).
  eexists. split; [|exact Hmir]. unfold begin_delivery_attempt. run. rewrite Hrt, Hd, He.
  rewrite bool_decide_eq_true_2, bool_decide_eq_false_2 by done. simpl. rewrite Hret, Hfree. simpl. rewrite Hopen. simpl.
  by rewrite Ea, Er.
Qed.
End operations.
End mirror.
