(* ===== verification/TopologyRefusals.v ===== *)
(** Attempts that are not started: what the database checks and the memory does not, and
    that beside these checks the two repositories refuse the same attempts with the same
    answer.

    The memory keeps what it wrote before an error, and supersedes leases that ran out
    before it refuses: the states stay the same where no lease ran out. *)

From S2P Require Import Prelude Domain CloudStore CloudJobs CloudRouting CloudTopology CloudFacts CloudDeliveries CloudSystem CloudSteps CloudRouteSteps TopologyMemory TopologyMirror.

Section refusals.
Context `{CloudExternal}.
Variable c : Clock.
Hypothesis same_clock : c.(sql_now) = c.(utc_now).
#[local] Abbreviation now := c.(utc_now).

Ltac run := unfold mbind, tx_bind, op_bind, pure_result, fetch, query, ensure, execute, read, find, require, write,
  mret, tx_ret, op_ret.

(** The route belongs to the destination and is enabled: both repositories look. *)
Definition route_fits (t : Tenant) (q : NewDeliveryAttempt) (s : Store) : bool :=
  match s.(topology).(printer_routes) !! (t, q.(nd_route_id)) with
  | Some r => bool_decide (r.(rt_destination_id) = q.(nd_destination_id)) && r.(rt_enabled)
  | None => false
  end.
(** What only the database knows: the route is not retired and its node is active, the job
    is waiting for this destination and not behind an older one, the identifiers are new,
    the destination exists, and the digest has the length of its column. *)
Definition job_fits (t : Tenant) (q : NewDeliveryAttempt) (token : string) (s : Store) : bool :=
  match s.(topology).(printer_routes) !! (t, q.(nd_route_id)) with
  | Some r => bool_decide (r.(rt_retired_at) = None) && active_agent t r.(rt_agent_id) s
  | None => false
  end
  && match job_of t q.(nd_job_id) s with
     | Some r => bool_decide (r.(jr_life).(final_at) = None) && (c.(sql_now) <? r.(jr_expires_at))%Z
                 && bool_decide (r.(jr_life).(state) ∈ [Registered; ContentPending; WaitingForAgent; FailedRetryable])
                 && from_option (λ d, bool_decide (d = q.(nd_destination_id))) true r.(jr_place).(destination_id)
                 && negb (older_eligible_job c t q.(nd_destination_id) q.(nd_job_id) r.(jr_created_at) s)
     | None => false
     end
  && bool_decide (s.(delivery_attempts) !! (t, q.(nd_attempt_id)) = None)
  && bool_decide (s.(route_reservations) !! (t, q.(nd_reservation_id)) = None)
  && bool_decide (is_Some (s.(topology).(physical_destinations) !! (t, q.(nd_destination_id))))
  && (32 <=? String.length (token_digest token)) && (String.length (token_digest token) <=? 128).
(** No lease of the destination or of the job ran out. *)
Definition no_lease_ran_out (t : Tenant) (q : NewDeliveryAttempt) (s : Store) : bool :=
  negb (exists_row (λ _ a, bool_decide (a.(at_tenant) = t)
    && (bool_decide (a.(at_destination_id) = q.(nd_destination_id)) || of_job q.(nd_job_id) a)
    && bool_decide (a.(at_state) = Attempt.RouteLeased) && (a.(at_lease_until) <=? now)%Z) s.(delivery_attempts)).

Lemma begin_unusable t q token s m :
  mirrors s m → route_fits t q s = false →
  CloudRouting.begin_delivery_attempt c t q token s = Err NotFound
  ∧ begin_delivery_attempt now t q token m = (m, Err NotFound).
Proof.
  intros Hm Hf. pose proof (mi_routes _ _ Hm (t, q.(nd_route_id))) as Hr. unfold route_fits in Hf.
  unfold CloudRouting.begin_delivery_attempt, check_delivery, check_against, begin_delivery_attempt. run.
  destruct (s.(topology).(printer_routes) !! _) as [r|], (m.(routes) !! _) as [r'|]; try done. simpl in Hr.
  injection Hr as E1 E2 E3 E4. rewrite E1, E4.
  destruct (bool_decide (r.(rt_destination_id) = _)); [|done]. simpl in Hf. rewrite Hf. simpl.
  by destruct (active_agent _ _ _).
Qed.

(** * What refuses an attempt in both *)

Definition own_open (t : Tenant) (job : string) (s : Store) : option (Tenant * string * AttemptRow) :=
  head (select_rows (λ _ a, bool_decide (a.(at_tenant) = t) && of_job job a && bool_decide (a.(at_final_at) = None))
          s.(delivery_attempts)).
Definition own_uncertain (t : Tenant) (job : string) (s : Store) : bool :=
  bool_decide (at_state <$> latest_attempt t (of_job job) s = Some Attempt.DeliveryUncertain).
Definition reserved (t : Tenant) (q : NewDeliveryAttempt) (s : Store) : bool :=
  exists_row (λ k r, bool_decide (k.1 = t)
    && (bool_decide (r.(rs_route_id) = q.(nd_route_id)) || bool_decide (r.(rs_destination_id) = q.(nd_destination_id)))
    && bool_decide (r.(rs_state) = Active)) s.(route_reservations).
Definition blocked (t : Tenant) (q : NewDeliveryAttempt) (s : Store) : bool :=
  CloudRouting.unresolved t q.(nd_destination_id) s || bool_decide (is_Some (own_open t q.(nd_job_id) s))
  || own_uncertain t q.(nd_job_id) s || reserved t q s.

Lemma ran_out_false t q s k a :
  no_lease_ran_out t q s = true → s.(delivery_attempts) !! k = Some a → a.(at_tenant) = t →
  a.(at_destination_id) = q.(nd_destination_id) ∨ of_job q.(nd_job_id) a = true →
  bool_decide (a.(at_state) = Attempt.RouteLeased) && (a.(at_lease_until) <=? now)%Z = false.
Proof.
  unfold no_lease_ran_out. rewrite negb_true_iff, exists_row_false. intros Hn Ha Ht Hor. specialize (Hn _ _ Ha).
  rewrite <- andb_assoc in Hn. apply andb_false_iff in Hn as [Hn|Hn]; [|done].
  rewrite (bool_decide_eq_true_2 (_ = t)) in Hn by done. simpl in Hn. apply orb_false_iff in Hn as [H1 H2].
  apply bool_decide_eq_false in H1. destruct Hor; congruence.
Qed.

Lemma imap_same {V} (f : Tenant * string → V → V) (tbl : gmap (Tenant * string) V) :
  (∀ k v, tbl !! k = Some v → f k v = v) → map_imap (λ k v, Some (f k v)) tbl = tbl.
Proof.
  intros Hf. apply map_eq. intros k. rewrite map_lookup_imap. destruct (tbl !! k) as [v|] eqn:Hv; [|done]. simpl.
  by rewrite Hf.
Qed.
Lemma nothing_stale t q s m :
  cloud_wf s → mirrors s m → no_lease_ran_out t q s = true → supersede_stale now t q.(nd_destination_id) m = m.
Proof.
  intros Hwf Hm Hn.
  assert (Hs : ∀ k a, m.(attempts) !! k = Some a → stale now t q.(nd_destination_id) k a = false).
  { intros k a Ha. rewrite (mi_attempts _ _ Hm) in Ha. unfold stale. rewrite (attempt_key _ _ _ Hwf Ha). simpl.
    destruct (bool_decide (a.(at_tenant) = t)) eqn:Ht; [|done].
    destruct (bool_decide (a.(at_destination_id) = _)) eqn:Hd; [|done]. checks. simpl.
    eapply ran_out_false; [done..|]. by left. }
  unfold supersede_stale.
  assert (select_rows (stale now t q.(nd_destination_id)) m.(attempts) = []) as ->.
  { apply elem_of_nil_inv. intros [k a] [Ha Hp]%elem_of_select_rows. simpl in Hp. by rewrite Hs in Hp. }
  unfold on_reservations, on_attempts. simpl.
  rewrite imap_same; [rewrite imap_same; [by destruct m|]|].
  - intros k r _. by rewrite andb_false_r.
  - intros k a Ha. by rewrite Hs.
Qed.

Lemma memory_refuses t q token s m :
  cloud_wf s → mirrors s m → route_fits t q s = true → job_fits t q token s = true → no_lease_ran_out t q s = true →
  blocked t q s = true → begin_delivery_attempt now t q token m = (m, Err ConcurrentStateChange).
Proof.
  intros Hwf Hm Hf Hj Hn Hb. pose proof (mi_routes _ _ Hm (t, q.(nd_route_id))) as Hr.
  unfold route_fits in Hf. unfold job_fits in Hj. rewrite !andb_true_iff in Hj. destruct Hj as [[[[[[Hj _] _] _] _] _] _].
  unfold begin_delivery_attempt. run.
  destruct (s.(topology).(printer_routes) !! _) as [r|]; [|done]. destruct (m.(routes) !! _) as [r'|]; [|done]. simpl in Hr.
  injection Hr as E1 E2 E3 E4. rewrite E1, E4, Hf. apply andb_true_iff in Hj as [_ Hact].
  rewrite bool_decide_eq_false_2; [simpl|intros Hrev%(mi_revoked _ _ Hm); congruence].
  rewrite (nothing_stale t q s m) by done. unfold retire_own_attempt. run. rewrite (own_attempt s) by done.
  fold (own_open t q.(nd_job_id) s). unfold blocked in Hb. destruct (own_open t q.(nd_job_id) s) as [[k a]|] eqn:Ho.
  - apply head_Some_elem_of, elem_of_select_rows in Ho as [Ha Hp]. checks.
    rewrite (ran_out_false t q s k a) by (try done; by right). done.
  - destruct (exists_row _ m.(attempts)) eqn:He; [done|]. simpl.
    assert (own_uncertain t q.(nd_job_id) s = false) as Hu.
    { apply bool_decide_eq_false. intros (a & Ha & Hst)%fmap_Some. symmetry in Hst.
      apply latest_attempt_row in Ha as [Ha Hp]; [|done]. rewrite (mi_attempts _ _ Hm), exists_row_false in He.
      specialize (He _ _ Ha). simpl in He. by rewrite Hp, !bool_decide_eq_true_2 in He. }
    rewrite Hu in Hb. rewrite (bool_decide_eq_false_2 (is_Some None)), !orb_false_r in Hb by (by intros []).
    unfold reserved in Hb. rewrite (mi_reservations _ _ Hm). destruct (exists_row _ s.(route_reservations)); [done|]. simpl.
    rewrite orb_false_r in Hb. by rewrite (unresolved_agrees s), Hb.
Qed.

(** The database goes on to the reservation of the route. *)
Lemma check_fits t q token s :
  route_fits t q s = true → job_fits t q token s = true →
  ∃ s1 r, (∀ b, check_against c (λ _, b) t q s = if b : bool then Err ConcurrentStateChange else Ok (s1, ())) ∧ s1.(delivery_attempts) = s.(delivery_attempts)
    ∧ s1.(route_reservations) = s.(route_reservations) ∧ s1.(topology) = s.(topology)
    ∧ job_of t q.(nd_job_id) s1 = Some r
    ∧ older_eligible_job c t q.(nd_destination_id) q.(nd_job_id) r.(jr_created_at) s1 = false.
Proof.
  intros Hf Hj. unfold route_fits in Hf. unfold job_fits in Hj. rewrite !andb_true_iff in Hj.
  destruct Hj as [[[[[[Hj Hjob] _] _] _] _] _]. unfold check_against. run.
  destruct (s.(topology).(printer_routes) !! _) as [rt|]; [|done]. apply andb_true_iff in Hf as [-> ->].
  apply andb_true_iff in Hj as [-> ->]. cbn [negb andb]. destruct (job_of t q.(nd_job_id) s) as [r|] eqn:Hr; [|done].
  rewrite !andb_true_iff in Hjob. destruct Hjob as [[[[-> ->] ->] Hd] Ho%negb_true_iff]. cbn [andb].
  destruct (r.(jr_place).(destination_id)) as [d|] eqn:Hdest; simpl in Hd.
  - rewrite Hd. exists s, r. split; [by intros []|done].
  - unfold update_job, execute. set (f := λ r, with_place _ r). set (s1 := on_jobs _ s).
    apply job_of_Some in Hr as [Hr Ht]. exists s1, (f r). split_and!; try done; [by intros []| |].
    + unfold job_of, s1. simpl. rewrite lookup_alter_eq, Hr. simpl. by rewrite decide_True.
    + unfold older_eligible_job in Ho |- *. rewrite exists_row_false in Ho |- *. intros k x. unfold s1. simpl.
      rewrite lookup_alter_row. intros (x0 & Hx & ->)%fmap_Some. case_decide; [|exact (Ho _ _ Hx)].
      rewrite (bool_decide_eq_true_2 (k = _)) by done. simpl. by rewrite !andb_false_r.
Qed.

Lemma own_closed t job s k a :
  own_open t job s = None → s.(delivery_attempts) !! k = Some a → a.(at_tenant) = t → of_job job a = true →
  a.(at_final_at) ≠ None.
Proof.
  intros Hnone%head_None Ha Ht Hj Hf.
  assert (Hin : (k, a) ∈ select_rows (λ _ a, bool_decide (a.(at_tenant) = t) && of_job job a
    && bool_decide (a.(at_final_at) = None)) s.(delivery_attempts)).
  { apply elem_of_select_rows. split; [done|]. simpl. by rewrite Hj, !bool_decide_eq_true_2. }
  rewrite Hnone in Hin. by apply elem_of_nil in Hin.
Qed.
(** The keys of an attempt and of a reservation under new identifiers. *)
Lemma attempt_is_new t q digest s :
  let g := (from_option at_generation 0 (latest_attempt t (of_job q.(nd_job_id)) s) + 1)%Z in
  own_open t q.(nd_job_id) s = None → s.(delivery_attempts) !! (t, q.(nd_attempt_id)) = None →
  attempt_conflict (new_attempt c t q g digest) s = false.
Proof.
  intros g Ho Hn. unfold attempt_conflict. apply exists_row_false. intros k b Hb. simpl. apply orb_false_iff. split.
  { apply bool_decide_eq_false. congruence. }
  destruct (bool_decide (b.(at_tenant) = t)) eqn:Ht; [|done]. destruct (bool_decide (b.(at_job_id) = _)) eqn:Hj; [|done].
  checks. simpl. assert (Hof : of_job q.(nd_job_id) b = true) by (unfold of_job; by rewrite bool_decide_eq_true_2).
  apply orb_false_iff. split; apply bool_decide_eq_false; [|by eapply own_closed].
  destruct (latest_exists _ t (of_job q.(nd_job_id)) _ _ Hb) as [l Hl]; [done..|].
  pose proof (latest_greatest _ _ _ _ _ _ Hl Hb ltac:(done) Hof). unfold g. rewrite Hl. simpl. lia.
Qed.
Lemma reservation_is_taken t q g digest s :
  cloud_wf s → own_open t q.(nd_job_id) s = None → s.(delivery_attempts) !! (t, q.(nd_attempt_id)) = None →
  s.(route_reservations) !! (t, q.(nd_reservation_id)) = None →
  reservation_conflict (new_reservation c t q g digest) s = true → reserved t q s = true.
Proof.
  intros Hwf Ho Ha Hr. unfold reservation_conflict, reserved. rewrite !exists_row_true. simpl.
  intros (k & r & Hk & Hc). exists k, r. split; [done|]. pose proof (reservation_key _ _ _ Hwf Hk) as ->.
  destruct (dw_reserves _ _ (cw_deliveries _ Hwf) _ _ Hk) as (a & Hat & Hres & Hh). simpl in Hat.
  apply orb_true_iff in Hc as [Hc|[Ht Hc]%andb_true_iff].
  { apply bool_decide_eq_true in Hc. congruence. }
  apply bool_decide_eq_true in Ht. simpl. rewrite bool_decide_eq_true_2 by done.
  apply orb_true_iff in Hc as [Hc|[Hact Hc]%andb_true_iff].
  { apply bool_decide_eq_true in Hc. congruence. }
  rewrite Hact, andb_true_r. apply orb_true_iff in Hc as [Hc|Hc]; [done|]. apply bool_decide_eq_true in Hc, Hact.
  destruct (own_closed t q.(nd_job_id) s _ a Ho Hat).
  - destruct Hres. congruence.
  - unfold of_job. apply bool_decide_eq_true. destruct Hres. congruence.
  - eapply open_not_final; [done..|]. apply Hh in Hact. by destruct a.(at_state).
Qed.

(** ... and fails there only for what the memory sees too. *)
Lemma reserve_fits t q token s s1 r :
  cloud_wf s → job_fits t q token s = true → no_lease_ran_out t q s = true →
  s1.(delivery_attempts) = s.(delivery_attempts) → s1.(route_reservations) = s.(route_reservations) →
  s1.(topology) = s.(topology) → job_of t q.(nd_job_id) s1 = Some r →
  older_eligible_job c t q.(nd_destination_id) q.(nd_job_id) r.(jr_created_at) s1 = false →
  match reserve_delivery c t q token s1 with
  | Ok _ => True
  | Err e => e = ConcurrentStateChange ∧ blocked t q s = true
  end.
Proof.
  intros Hwf Hj Hn Ea Er Et Hr Ho. unfold reserve_delivery. run.
  assert (stale_attempts c t q.(nd_destination_id) s1 = []) as ->.
  { unfold stale_attempts. rewrite Ea. match goal with |- _ <$> ?l = [] => assert (l = []) as ->; [|done] end.
    apply elem_of_nil_inv. intros [k a] [Ha Hp]%elem_of_select_rows.
    rewrite same_clock in Hp. simpl in Hp. rewrite !andb_true_iff, !bool_decide_eq_true in Hp.
    destruct Hp as [[[[Ht Hd] Hs] _] Hl].
    pose proof (ran_out_false t q s k a Hn Ha Ht (or_introl Hd)) as Hfalse. by rewrite Hl, bool_decide_eq_true_2 in Hfalse. }
  rewrite bool_decide_eq_true_2 by done. rewrite Hr, Ho. cbn [negb]. unfold job_fits in Hj. rewrite !andb_true_iff in Hj.
  destruct Hj as [[[[[[_ _] Hna%bool_decide_eq_true] Hnr%bool_decide_eq_true] Hd] Hl] Hu].
  unfold CloudRouting.retire_own_attempt. run. rewrite Ea. fold (own_open t q.(nd_job_id) s).
  unfold blocked. destruct (own_open t q.(nd_job_id) s) as [[k a]|] eqn:Hown.
  - apply head_Some_elem_of, elem_of_select_rows in Hown as [Ha Hp]. checks.
    rewrite (ran_out_false t q s k a) by (try done; by right). split; [done|].
    rewrite (bool_decide_eq_true_2 (is_Some _)) by done. by rewrite orb_true_r.
  - assert (latest_attempt t (of_job q.(nd_job_id)) s1 = latest_attempt t (of_job q.(nd_job_id)) s) as El
      by (unfold latest_attempt; by rewrite Ea).
    rewrite El. fold (own_uncertain t q.(nd_job_id) s). destruct (own_uncertain _ _ s); [by rewrite orb_true_r|]. cbn [negb].
    rewrite El. unfold insert_attempt, insert_reservation. run. set (a := new_attempt _ _ _ _ _).
    assert (attempt_conflict a s1 = false) as ->.
    { unfold attempt_conflict. rewrite Ea. by apply attempt_is_new. }
    cbn [negb]. rewrite Et. change a.(at_tenant) with t. change a.(at_destination_id) with q.(nd_destination_id).
    change a.(at_fencing_token_hash) with (token_digest token). rewrite Hd, Hl, Hu. cbn [andb]. set (rs := new_reservation _ _ _ _ _).
    assert (reservation_conflict rs (on_delivery_attempts <[(t, a.(at_id)) := a]> s1) = reservation_conflict rs s) as ->.
    { unfold reservation_conflict. simpl. by rewrite Er. }
    destruct (reservation_conflict rs s) eqn:Hc; [|done]. cbn [negb]. split; [done|].
    by rewrite (reservation_is_taken _ _ _ _ _ Hwf Hown Hna Hnr Hc), orb_true_r.
Qed.

Lemma begin_refused t q token s m e :
  cloud_wf s → mirrors s m → route_fits t q s = true → job_fits t q token s = true → no_lease_ran_out t q s = true →
  CloudRouting.begin_delivery_attempt c t q token s = Err e →
  begin_delivery_attempt now t q token m = (m, Err e).
Proof.
  intros Hwf Hm Hf Hj Hn Hb.
  enough (e = ConcurrentStateChange ∧ blocked t q s = true) as [-> Hbl] by by eapply memory_refuses.
  destruct (check_fits t q token s Hf Hj) as (s1 & r & Hc & Ea & Er & Et & Hr & Ho).
  rewrite begin_at_once in Hb. unfold begin_read_committed, mbind, tx_bind in Hb. rewrite Hc in Hb.
  destruct (CloudRouting.unresolved t q.(nd_destination_id) s) eqn:Hun.
  - injection Hb as <-. split; [done|]. unfold blocked. by rewrite Hun.
  - pose proof (reserve_fits t q token s s1 r Hwf Hj Hn Ea Er Et Hr Ho) as Hres. by rewrite Hb in Hres.
Qed.
End refusals.
