(* ===== verification/TopologyDecisions.v ===== *)
(** Decisions about the identity of destinations in the in-memory repository: which rows a
    decision and its reversal write, and what the operations in between leave of a decision
    that is stored. *)

From S2P Require Import Prelude Domain CloudStore CloudRouting CloudTopology CloudFacts TopologyMemory TopologyMirror.

(** * The operations that write *)

(** A decision or a reversal under the identifier [k] is not among them: it would overwrite
    the decision that is stored there. *)
Inductive writes_besides `{CloudExternal} (k : Tenant * string) : ∀ A, Mem A → Prop :=
| w_begin now t q token : writes_besides k _ (begin_delivery_attempt now t q token)
| w_transition now t a g token next : writes_besides k _ (transition_delivery_attempt now t a g token next)
| w_post_spooler now t j agent route next : writes_besides k _ (transition_post_spooler_attempt now t j agent route next)
| w_mark_uncertain now t j : writes_besides k _ (mark_post_spooler_attempt_uncertain now t j)
| w_renew now t r g token until : writes_besides k _ (renew_delivery_attempt now t r g token until)
| w_enqueue now t j resolution note actor request :
    writes_besides k _ (enqueue_delivery_uncertainty_resolution now t j resolution note actor request)
| w_finalize now new_id t request : writes_besides k _ (finalize_delivery_uncertainty_resolution now new_id t request)
| w_finalize_all now new_id t agent limit :
    writes_besides k _ (finalize_acknowledged_uncertainty_resolutions now new_id t agent limit)
| w_acknowledge_command t cursor : writes_besides k _ (acknowledge_uncertainty_resolution_command t cursor)
| w_recompute t d : writes_besides k _ (recompute_destination_attention t d)
| w_destination t d : writes_besides k _ (upsert_destination t d)
| w_route t r : writes_besides k _ (upsert_route t r)
| w_revoke now t agent : writes_besides k _ (revoke_agent_topology now t agent)
| w_membership t authority agent revoked : writes_besides k _ (upsert_site_membership t authority agent revoked)
| w_evidence t e : writes_besides k _ (record_identity_evidence t e)
| w_observation t o : writes_besides k _ (record_route_observation t o)
| w_runtime t o : writes_besides k _ (record_node_runtime_observation t o)
| w_acknowledge_projection t a : writes_besides k _ (acknowledge_projection t a)
| w_create_hint now t h key : writes_besides k _ (create_node_wake_hint now t h key)
| w_observe_hints t agent at_ limit : writes_besides k _ (observe_pending_node_wake_hints t agent at_ limit)
| w_decide t d : (t, d.(id_id)) ≠ k → writes_besides k _ (record_identity_decision t d)
| w_reverse t d : (t, d.(id_id)) ≠ k → writes_besides k _ (reverse_identity_decision t d).

(** One operation, whether it succeeds or not. *)
Inductive step_besides `{CloudExternal} (k : Tenant * string) (m : MemoryState) : MemoryState → Prop :=
| memory_steps A (o : Mem A) : writes_besides k A o → step_besides k m (o m).1.

Section spares.
Context `{CloudExternal}.
Variable k : Tenant * string.

Definition spared (m m' : MemoryState) : Prop :=
  m'.(decisions) !! k = m.(decisions) !! k ∧ m'.(decision_snapshots) !! k = m.(decision_snapshots) !! k.
#[local] Instance spared_preorder : PreOrder spared.
Proof. split; [done|]. intros m1 m2 m3 [] []. split; congruence. Qed.
Definition spares {A} (o : Mem A) : Prop := ∀ m, spared m (o m).1.

Lemma spares_bind {A B} (o : Mem A) (f : A → Mem B) : spares o → (∀ a, spares (f a)) → spares (o ≫= f).
Proof.
  intros Ho Hf m. specialize (Ho m). unfold mbind, op_bind. destruct (o m) as [m1 [a|e]]; [|done]. simpl in Ho.
  etrans; [exact Ho|apply Hf].
Qed.
Lemma spares_ret {A} (a : A) : spares (mret a).
Proof. intros m. reflexivity. Qed.
Lemma spares_read {A} (f : MemoryState → A) : spares (read f).
Proof. intros m. reflexivity. Qed.
Lemma spares_find {A} (f : MemoryState → option A) e : spares (find f e).
Proof. intros m. unfold find. by destruct (f m). Qed.
Lemma spares_require b e : spares (require b e).
Proof. intros m. unfold require. by destruct b. Qed.
Lemma spares_write f : (∀ m, spared m (f m)) → spares (write f).
Proof. intros Hf m. apply Hf. Qed.
Lemma spares_each {A} (f : A → Mem unit) l : (∀ a, spares (f a)) → spares (each f l).
Proof. intros Hf. induction l as [|a l IH]; simpl; [apply spares_ret|]. by apply spares_bind. Qed.
Lemma spared_foldl {A} (f : MemoryState → A → MemoryState) l m : (∀ m a, spared m (f m a)) → spared m (foldl f m l).
Proof. intros Hf. revert m. induction l as [|a l IH]; intros m; [reflexivity|]. simpl. etrans; [apply Hf|apply IH]. Qed.

Ltac spared_row :=
  unfold release_one, available_again, retire_empty; split; simpl; repeat case_match; simpl; first [reflexivity | by rewrite lookup_insert_ne].
Ltac spare :=
  repeat first
    [ apply spares_bind; [|intro]
    | apply spares_ret | apply spares_read | apply spares_find | apply spares_require
    | apply spares_each; intro
    | apply spares_write; intro; first [spared_row | apply spared_foldl; intros; spared_row]
    | case_match | progress cbv zeta ].

Lemma retire_own_spares now t j : spares (retire_own_attempt now t j).
Proof. unfold retire_own_attempt. spare. Qed.
Lemma begin_spares now t q token : spares (begin_delivery_attempt now t q token).
Proof. unfold begin_delivery_attempt. apply spares_bind; [spare|intro]. apply spares_bind; [spare|intro].
  apply spares_bind; [spare|intro]. apply spares_bind; [apply retire_own_spares|intro]. spare. Qed.
Lemma finalize_spares now i t request : spares (finalize_delivery_uncertainty_resolution now i t request).
Proof. unfold finalize_delivery_uncertainty_resolution. spare. Qed.
Lemma finalize_each_spares now f t l : spares (finalize_each now f t l).
Proof.
  induction l as [|q l IH]; simpl; [apply spares_ret|]. apply spares_bind; [apply finalize_spares|intro].
  apply spares_bind; [done|intro]. apply spares_ret.
Qed.
Lemma observe_hints_spares t agent at_ limit : spares (observe_hints t agent at_ limit).
Proof.
  intros m. unfold observe_hints. set (l := take _ _).
  assert (Hl : ∀ acc, spared m acc.1 → spared m (foldl (observe_hint at_) acc l).1).
  { induction l as [|[i [h key]] l IH]; intros acc Ha; [done|]. simpl. apply IH. unfold observe_hint.
    destruct (_ <=? _)%Z; simpl; etrans; try exact Ha; done. }
  specialize (Hl (m, []) (reflexivity m)). by destruct (foldl _ _ _).
Qed.
Lemma move_routes_spares t d : spares (move_routes t d).
Proof. unfold move_routes. spare. Qed.

Lemma writes_spare A (o : Mem A) : writes_besides k A o → spares o.
Proof.
  intros [].
  - apply begin_spares.
  - unfold transition_delivery_attempt. spare.
  - unfold transition_post_spooler_attempt, report_attempt. spare.
  - unfold mark_post_spooler_attempt_uncertain, report_attempt. spare.
  - unfold renew_delivery_attempt. spare.
  - unfold enqueue_delivery_uncertainty_resolution. spare.
  - apply finalize_spares.
  - unfold finalize_acknowledged_uncertainty_resolutions. apply spares_bind; [spare|intro].
    apply spares_bind; [apply finalize_each_spares|intro]. spare.
  - unfold acknowledge_uncertainty_resolution_command. spare.
  - unfold recompute_destination_attention. spare.
  - unfold upsert_destination. spare.
  - unfold upsert_route. spare.
  - unfold revoke_agent_topology. spare.
  - unfold upsert_site_membership. spare.
  - unfold record_identity_evidence. spare.
  - unfold record_route_observation. spare.
  - unfold record_node_runtime_observation. spare.
  - unfold acknowledge_projection. spare.
  - unfold create_node_wake_hint. spare.
  - unfold observe_pending_node_wake_hints. apply spares_bind; [spare|intro]. apply observe_hints_spares.
  - unfold record_identity_decision, judge. do 8 (apply spares_bind; [spare|intro]). all: spare; apply move_routes_spares.
  - unfold reverse_identity_decision. spare.
Qed.

Lemma steps_spare m m' : rtc (step_besides k) m m' → spared m m'.
Proof.
  induction 1 as [m|m m1 m' [A o Ho] _ IH]; [reflexivity|]. etrans; [|exact IH]. by apply (writes_spare A o).
Qed.
End spares.

(** * Decisions and their reversal *)

Section decisions.
Context `{CloudExternal}.
Variable t : Tenant.

(** The id of a row is its key. *)
Definition keyed (m : MemoryState) : Prop :=
  (∀ k r, m.(routes) !! k = Some r → k.2 = r.(spr_id)) ∧ (∀ k d, m.(destinations) !! k = Some d → k.2 = d.(spd_id)).

(** Rows of the tenant with one of the ids changed, and no others. *)
Definition only {V} (ids : list string) (tbl tbl' : gmap (Tenant * string) V) : Prop :=
  ∀ k, tbl' !! k = tbl !! k ∨ k.1 = t ∧ k.2 ∈ ids ∧ is_Some (tbl !! k).

Lemma only_refl {V} (ids : list string) (tbl : gmap (Tenant * string) V) : only ids tbl tbl.
Proof. by left. Qed.
Lemma only_alter {V} (ids : list string) (tbl tbl' : gmap (Tenant * string) V) f i :
  i ∈ ids → only ids tbl tbl' → only ids tbl (alter f (t, i) tbl').
Proof.
  intros Hi Ho k. destruct (Ho k) as [Hk|Hk]; [|by right]. rewrite lookup_alter_row.
  destruct (decide (k = (t, i))) as [->|]; [|by left; rewrite <- Hk; destruct (tbl' !! k)].
  rewrite Hk. destruct (tbl !! (t, i)); [by right; simpl|by left].
Qed.
Lemma only_imap {V} (ids : list string) (tbl : gmap (Tenant * string) V) f :
  only ids tbl (map_imap (λ k v, Some (if bool_decide (k.1 = t) && bool_decide (k.2 ∈ ids) then f v else v)) tbl).
Proof.
  intros k. rewrite map_lookup_imap. destruct (tbl !! k) as [v|] eqn:Hk; [|by left]. simpl.
  destruct (_ && _) eqn:Hb; [|by left]. checks. by right.
Qed.

(** The rows with one of the ids, as they were in [tbl], over those of [tbl']. *)
Definition restored {V} (ids : list string) (tbl tbl' : gmap (Tenant * string) V) (k : Tenant * string) : option V :=
  if bool_decide (k.1 = t) && bool_decide (k.2 ∈ ids) && bool_decide (is_Some (tbl !! k)) then tbl !! k else tbl' !! k.
Lemma put_back {V} (id : V → string) (ids : list string) (tbl tbl' : gmap (Tenant * string) V) k :
  (∀ k v, tbl !! k = Some v → k.2 = id v) →
  foldl (λ x v, <[(t, id v) := v]> x) tbl' (omap (λ i, tbl !! (t, i)) ids) !! k = restored ids tbl tbl' k.
Proof.
  intros Hid. revert tbl'. induction ids as [|i ids IH]; intros tbl'.
  { unfold restored. rewrite (bool_decide_eq_false_2 (_ ∈ [])) by apply not_elem_of_nil. by rewrite andb_false_r. }
  simpl. destruct (tbl !! (t, i)) as [v|] eqn:Hv; simpl; rewrite IH; unfold restored.
  - pose proof (Hid _ _ Hv) as Hi. simpl in Hi. rewrite <- Hi.
    destruct (decide (k = (t, i))) as [->|Hk].
    + rewrite lookup_insert_eq, Hv. simpl. rewrite (bool_decide_eq_true_2 (t = t)), (bool_decide_eq_true_2 (i ∈ i :: ids)) by (done || by left).
      by destruct (bool_decide (i ∈ ids)).
    + rewrite lookup_insert_ne by done. destruct k as [t' j]. simpl. destruct (decide (t' = t)) as [->|]; [|by rewrite (bool_decide_eq_false_2 (t' = t))].
      by rewrite (bool_decide_ext (j ∈ i :: ids) (j ∈ ids)) by (rewrite elem_of_cons; naive_solver).
  - destruct k as [t' j]. simpl. destruct (decide (t' = t)) as [->|]; [|by rewrite (bool_decide_eq_false_2 (t' = t))].
    destruct (decide (j = i)) as [->|Hj].
    + rewrite Hv, (bool_decide_eq_false_2 (is_Some None)) by (by intros []). by rewrite !andb_false_r.
    + by rewrite (bool_decide_ext (j ∈ i :: ids) (j ∈ ids)) by (rewrite elem_of_cons; naive_solver).
Qed.

(** What a decision leaves alone. *)
Record decides (ds rs : list string) (m m' : MemoryState) : Prop := {
  de_destinations : only ds m.(destinations) m'.(destinations);
  de_routes : only rs m.(routes) m'.(routes);
  de_reservations : m'.(reservations) = m.(reservations);
  de_attempts : m'.(attempts) = m.(attempts);
  de_decisions : m'.(decisions) = m.(decisions)
}.

Lemma decides_refl ds rs m : decides ds rs m m.
Proof. by split; try apply only_refl. Qed.
Lemma judge_decides ds rs conf d m m0 m' :
  decides ds rs m0 m → d ∈ ds → judge t conf d m = (m', Ok ()) → decides ds rs m0 m'.
Proof.
  intros [] Hd. unfold judge, mbind, op_bind, find, write. destruct (_ !! _); [|done]. intros [= <-].
  split; try done. simpl. by apply only_alter.
Qed.
Lemma each_decides ds rs conf l m m0 m' :
  decides ds rs m0 m → l ⊆ ds → each (judge t conf) l m = (m', Ok ()) → decides ds rs m0 m'.
Proof.
  revert m. induction l as [|d l IH]; intros m Hd Hl; simpl; [by intros [= <-]|]. unfold mbind at 1, op_bind at 1.
  destruct (judge t conf d m) as [m1 [[]|e]] eqn:Hj; [|done]. apply IH; [|set_solver].
  eapply judge_decides; [done| |done]. set_solver.
Qed.
Lemma retire_decides ds rs l m m0 :
  decides ds rs m0 m → l ⊆ ds → decides ds rs m0 (foldl (λ m source, retire_empty t source m) m l).
Proof.
  revert m. induction l as [|d l IH]; intros m Hd Hl; [done|]. simpl. apply IH; [|set_solver]. unfold retire_empty.
  destruct (exists_row _ _); [done|]. destruct Hd. split; try done. simpl. apply only_alter; [set_solver|done].
Qed.
Ltac run := unfold mbind, op_bind, read, find, require, write, mret, op_ret.

Lemma move_decides d m m' :
  move_routes t d m = (m', Ok ()) →
  decides (d.(id_destination_id) :: d.(id_related_destination_ids)) d.(id_route_ids) m m'.
Proof.
  unfold move_routes. run. destruct (_ && _) eqn:Hne; [|done]. apply andb_true_iff in Hne as [Hne _].
  destruct (forallb _ _); [|done].
  set (m1 := on_routes _ m). set (m2 := on_evidence _ m1).
  assert (Hd2 : decides (d.(id_destination_id) :: d.(id_related_destination_ids)) d.(id_route_ids) m m2).
  { split; try done; simpl; [apply only_refl|apply only_imap]. }
  assert (Hhead : default ""%string (head d.(id_route_ids)) ∈ d.(id_route_ids)).
  { destruct d.(id_route_ids); [|by left]. by rewrite bool_decide_eq_true_2 in Hne. }
  set (m3 := if has_primary t d.(id_destination_id) m2 then m2
             else on_routes (alter (λ r, place_route r.(spr_destination_id) Primary r) (t, default ""%string (head d.(id_route_ids)))) m2).
  assert (Hd3 : decides (d.(id_destination_id) :: d.(id_related_destination_ids)) d.(id_route_ids) m m3).
  { unfold m3. destruct (has_primary _ _ _); [done|]. destruct Hd2. split; try done. simpl. by apply only_alter. }
  intros Hm. enough (m' = m3 ∨ m' = foldl (λ m source, retire_empty t source m) m3 d.(id_related_destination_ids)) as [->| ->].
  - done.
  - apply retire_decides; [done|set_solver].
  - unfold m3. clear -Hm. destruct (has_primary _ _ _), (decide (d.(id_kind) = Merge)); simplify_eq/=; auto.
Qed.

Lemma record_decides d m m' :
  record_identity_decision t d m = (m', Ok ()) →
  existsb (λ i, busy t i m) d.(id_route_ids) = false ∧ d.(id_kind) ≠ Reverse ∧
  ∃ mid, decides (d.(id_destination_id) :: d.(id_related_destination_ids)) d.(id_route_ids) m mid
    ∧ m' = on_decisions <[(t, d.(id_id)) := d]> (on_decision_snapshots <[(t, d.(id_id)) := snapshot t d m]> mid).
Proof.
  unfold record_identity_decision. run. destruct (bool_decide (_ = Reverse)) eqn:Hrev; [done|]. simpl.
  destruct (forallb _ _); [|done]. destruct (forallb _ _); [|done]. destruct (existsb _ _); [done|]. simpl.
  set (act := match d.(id_kind) with Confirm => _ | _ => _ end).
  destruct (act m) as [mid [[]|e]] eqn:Ha; [|done]. intros [= <-].
  split; [done|]. split; [by apply bool_decide_eq_false in Hrev|]. exists mid. split; [|done]. unfold act in Ha.
  destruct d.(id_kind); try (by apply move_decides).
  - eapply judge_decides; [apply decides_refl| |done]. by left.
  - refine (each_decides _ _ Conflict (_ :: _) _ _ _ (decides_refl _ _ _) _ Ha). by intros i Hi.
Qed.

Lemma put_destinations l m :
  let m' := foldl (λ m x, on_destinations <[(t, x.(spd_id)) := x]> m) m l in
  m'.(destinations) = foldl (λ tbl x, <[(t, x.(spd_id)) := x]> tbl) m.(destinations) l ∧ m'.(routes) = m.(routes)
  ∧ m'.(decisions) = m.(decisions).
Proof. revert m. induction l as [|x l IH]; intros m; [done|]. apply (IH (on_destinations <[(t, x.(spd_id)) := x]> m)). Qed.
Lemma put_routes l m :
  let m' := foldl (λ m x, on_routes <[(t, x.(spr_id)) := x]> m) m l in
  m'.(routes) = foldl (λ tbl x, <[(t, x.(spr_id)) := x]> tbl) m.(routes) l ∧ m'.(destinations) = m.(destinations)
  ∧ m'.(decisions) = m.(decisions).
Proof. revert m. induction l as [|x l IH]; intros m; [done|]. apply (IH (on_routes <[(t, x.(spr_id)) := x]> m)). Qed.

Lemma reverse_puts_back back original before m :
  back.(id_reverses) = Some original → back.(id_kind) = Reverse → is_Some (m.(decisions) !! (t, original)) →
  exists_row (λ _ x, bool_decide (x.(id_reverses) = Some original)) m.(decisions) = false →
  m.(decision_snapshots) !! (t, original) = Some before →
  existsb (λ r, busy t r.(spr_id) m) before.(ms_routes) = false →
  ∃ m', reverse_identity_decision t back m = (m', Ok ())
    ∧ m'.(destinations) = foldl (λ tbl x, <[(t, x.(spd_id)) := x]> tbl) m.(destinations) before.(ms_destinations)
    ∧ m'.(routes) = foldl (λ tbl x, <[(t, x.(spr_id)) := x]> tbl) m.(routes) before.(ms_routes)
    ∧ m'.(decisions) = <[(t, back.(id_id)) := back]> m.(decisions).
Proof.
  intros Hb Hk Hd Hn Hs Hi. unfold reverse_identity_decision. run.
  rewrite Hb, Hk, (bool_decide_eq_true_2 _ eq_refl), bool_decide_eq_true_2 by done. cbn [andb]. rewrite Hn. cbn [negb].
  rewrite Hs, Hi. cbn [negb]. eexists. split; [done|]. cbn.
  set (m1 := foldl _ m before.(ms_destinations)). destruct (put_destinations before.(ms_destinations) m) as (E1 & E2 & E3).
  destruct (put_routes before.(ms_routes) m1) as (F1 & F2 & F3). rewrite F1, F2, F3. fold m1 in E1, E2, E3.
  by rewrite E1, E2, E3.
Qed.
End decisions.
