(* ===== verification/TopologyClaims.v ===== *)
(** What the in-memory topology repository promises: it answers the delivery requests as
    the transactions on the database do, and the reversal of a decision about the identity
    of destinations restores what was there before. *)

From S2P Require Import Prelude Domain CloudStore CloudJobs CloudRevoke CloudRouting CloudTopology CloudFacts CloudDeliveries CloudQueue CloudSystem CloudSteps CloudRouteSteps CloudKept CloudMachine TopologyMemory TopologyMirror TopologyRefusals TopologyDecisions CloudDemo.

(** * Histories of delivery requests *)




Section histories.
Context `{CloudExternal}.









End histories.

(** * Decisions about identity and their reversal *)

Section decisions.
Context `{CloudExternal}.
Variable t : Tenant.

(** Some decision, of any tenant, names the one it reverses. *)
Definition reversed (id : string) (m : MemoryState) : bool :=
  exists_row (λ _ x, bool_decide (x.(id_reverses) = Some id)) m.(decisions).

Lemma reversed_refuses t' again id m :
  reversed id m = true → again.(id_reverses) = Some id → ∃ e, reverse_identity_decision t' again m = (m, Err e).
Proof.
  intros Hr Ha. unfold reverse_identity_decision, mbind, op_bind, find, read, require. rewrite Ha.
  destruct (_ && _); [|by eexists]. unfold reversed in Hr. rewrite Hr. by eexists.
Qed.

Lemma snapshot_occupied d m m2 :
  keyed m → forallb (λ i, bool_decide (is_Some (m.(routes) !! (t, i)))) d.(id_route_ids) = true →
  existsb (λ r, busy t r.(spr_id) m2) (snapshot t d m).(ms_routes) = existsb (λ i, busy t i m2) d.(id_route_ids).
Proof.
  intros [Hk _]. unfold snapshot. simpl. induction d.(id_route_ids) as [|i l IH]; [done|]. simpl.
  intros [[r Hr]%bool_decide_eq_true Hl]%andb_true_iff. rewrite Hr. simpl. f_equal; [|by apply IH].
  by rewrite <- (Hk _ _ Hr).
Qed.
Lemma recorded_routes d m m1 : record_identity_decision t d m = (m1, Ok ()) →
  forallb (λ i, bool_decide (is_Some (m.(routes) !! (t, i)))) d.(id_route_ids) = true.
Proof.
  unfold record_identity_decision, mbind, op_bind, read, require. destruct (negb _); [|done]. by destruct (forallb _ _).
Qed.
Lemma only_restored {V} (ids : list string) (tbl tbl' : gmap (Tenant * string) V) (new : gmap (Tenant * string) V) :
  only t ids tbl tbl' → (∀ k, new !! k = restored t ids tbl tbl' k) → new = tbl.
Proof.
  intros Ho Hn. apply map_eq. intros k. rewrite Hn. unfold restored.
  destruct (Ho k) as [Hk|(-> & Hin & Hs)]; [by rewrite Hk; destruct (_ && _)|]. by rewrite !bool_decide_eq_true_2.
Qed.

(** C21: a decision about the identity of destinations (a confirmation, a rejected match, a
    merge or a split) that was recorded can be reversed in every later state, whatever the
    memory was asked in between, unless a decision was recorded under its identifier.  The
    reversal is refused, and nothing changes, when a decision that reverses it is stored or
    one of its routes is in use; otherwise every destination and every route of the decision
    is again what it was before, and the others are as they are; right after the decision
    that is the whole topology from before.  As long as the reversal's own identifier is not
    used again, no later reversal of the decision is accepted. *)
Theorem reversal_restores_topology d back m m1 m2 :
  keyed m → record_identity_decision t d m = (m1, Ok ()) → rtc (step_besides (t, d.(id_id))) m1 m2 →
  back.(id_kind) = Reverse → back.(id_reverses) = Some d.(id_id) →
  if reversed d.(id_id) m2 || existsb (λ i, busy t i m2) d.(id_route_ids)
  then reverse_identity_decision t back m2 = (m2, Err ConcurrentStateChange)
  else ∃ m3, reverse_identity_decision t back m2 = (m3, Ok ())
    ∧ (∀ k, m3.(destinations) !! k
            = restored t (d.(id_destination_id) :: d.(id_related_destination_ids)) m.(destinations) m2.(destinations) k)
    ∧ (∀ k, m3.(routes) !! k = restored t d.(id_route_ids) m.(routes) m2.(routes) k)
    ∧ (m2 = m1 → m3.(destinations) = m.(destinations) ∧ m3.(routes) = m.(routes))
    ∧ (∀ m4 t' again, rtc (step_besides (t, back.(id_id))) m3 m4 → again.(id_reverses) = Some d.(id_id) →
         ∃ e, reverse_identity_decision t' again m4 = (m4, Err e)).
Proof.
  intros Hkey Hrec Hsteps Hkind Hback. pose proof (recorded_routes _ _ _ Hrec) as Hroutes.
  apply record_decides in Hrec as (_ & _ & mid & Hde & Em1).
  destruct (steps_spare _ _ _ Hsteps) as [Hdec Hsnap]. rewrite Em1 in Hdec, Hsnap. simpl in Hdec, Hsnap.
  rewrite lookup_insert_eq in Hdec. rewrite lookup_insert_eq in Hsnap. rewrite <- (snapshot_occupied d m m2) by done.
  destruct (reversed d.(id_id) m2) eqn:Hrev; [|destruct (existsb _ _) eqn:Hbusy]; simpl.
  1,2: unfold reverse_identity_decision, mbind, op_bind, find, read, require; rewrite Hback, Hkind, Hdec; simpl;
    unfold reversed in Hrev; rewrite Hrev; simpl; try done; by rewrite Hsnap, Hbusy.
  destruct (reverse_puts_back t back d.(id_id) (snapshot t d m) m2) as (m3 & Hrun & Ed & Er & Ec); [done|done|by rewrite Hdec|done|done|done|].
  assert (Hd3 : ∀ k, m3.(destinations) !! k
    = restored t (d.(id_destination_id) :: d.(id_related_destination_ids)) m.(destinations) m2.(destinations) k).
  { intros k. rewrite Ed. by apply put_back, Hkey. }
  assert (Hr3 : ∀ k, m3.(routes) !! k = restored t d.(id_route_ids) m.(routes) m2.(routes) k).
  { intros k. rewrite Er. by apply put_back, Hkey. }
  exists m3. split_and!; [done..| |].
  - intros ->. rewrite Em1 in Hd3, Hr3. split; (eapply only_restored; [|done]); apply Hde.
  - intros m4 t' again Hlater Hagain. apply reversed_refuses with d.(id_id); [|done].
    destruct (steps_spare _ _ _ Hlater) as [Hdec4 _]. rewrite Ec, lookup_insert_eq in Hdec4.
    apply exists_row_true. exists (t, back.(id_id)), back. split; [done|]. by rewrite bool_decide_eq_true_2.
Qed.
End decisions.

(** * A run beside the database *)

Module TopologyDemo.
#[local] Existing Instance CloudDemo.external.
Abbreviation t := CloudDemo.t.

(** The tables of [CloudDemo] as the memory has them. *)
Definition stored_route (k : Tenant * string) (r : RouteRow) : StoredPrinterRoute :=
  {| spr_id := k.2; spr_destination_id := r.(rt_destination_id); spr_printer_id := r.(rt_printer_id);
     spr_agent_id := r.(rt_agent_id); spr_local_route_key := r.(rt_local_route_key); spr_state := r.(rt_state);
     spr_role := r.(rt_role); spr_enabled := r.(rt_enabled); spr_created_at := 0 |}.
Definition stored_destination (k : Tenant * string) (d : DestinationRow) : StoredPhysicalDestination :=
  {| spd_id := k.2; spd_name := k.2; spd_identity_confidence := Possible; spd_state := d.(pd_state);
     spd_identity_revision := 1; spd_created_at := 0 |}.
Definition m0 : MemoryState :=
  {| destinations := map_imap (λ k d, Some (stored_destination k d)) CloudDemo.T.(physical_destinations);
     routes := map_imap (λ k r, Some (stored_route k r)) CloudDemo.T.(printer_routes);
     evidence := ∅; decisions := ∅; decision_snapshots := ∅; observations := ∅; runtime_observations := ∅;
     wake_hints := ∅; acknowledgements := ∅; memberships := ∅; revoked_agents := ∅; attempts := ∅;
     reservations := ∅; uncertainty_resolutions := ∅; pending_uncertainty_resolutions := ∅;
     acknowledged_uncertainty_commands := ∅; next_uncertainty_command_cursor := 1 |}.



(** A delivery that ends uncertain, requests that are refused, attempts among them, and what
    is asked then. *)
Definition again (id route : string) : NewDeliveryAttempt :=
  {| nd_attempt_id := "attempt-" +:+ id; nd_reservation_id := "reservation-" +:+ id; nd_job_id := "j1";
     nd_destination_id := "d1"; nd_route_id := route; nd_lease_until := seconds 300 |}.


(** A merge of the two destinations, and its reversal. *)
Definition decision : IdentityDecision :=
  {| id_id := "decision"; id_kind := Merge; id_destination_id := "d2"; id_related_destination_ids := ["d1"%string];
     id_route_ids := ["r1"%string]; id_evidence_ids := []; id_reverses := None |}.
Definition reversal : IdentityDecision :=
  {| id_id := "reversal"; id_kind := Reverse; id_destination_id := "d2"; id_related_destination_ids := [];
     id_route_ids := []; id_evidence_ids := []; id_reverses := Some "decision"%string |}.

Lemma m0_keyed : keyed m0.
Proof.
  split; intros k x; cbn [m0 routes destinations]; rewrite map_lookup_imap; destruct (_ !! k); intros Hx; try discriminate Hx;
    injection Hx as <-; reflexivity.
Qed.
Definition merged : MemoryState := (record_identity_decision t decision m0).1.
Lemma decision_recorded : record_identity_decision t decision m0 = (merged, Ok ()).
Proof.
  assert (Hok : is_ok (record_identity_decision t decision m0).2 = true) by (vm_compute; reflexivity).
  unfold merged. destruct (record_identity_decision t decision m0) as [m [[]|]]; [reflexivity|discriminate Hok].
Qed.

(** In between, a delivery starts over another route. *)
Definition used : MemoryState :=
  (begin_delivery_attempt (seconds 3) t (CloudDemo.attempt "j1" "d2" "r2") "token" merged).1.
Lemma merged_used : rtc (step_besides (t, "decision"%string)) merged used.
Proof. apply rtc_once. unfold used. constructor. apply w_begin. Qed.

Lemma reversal_restores_topology_witness :
  spr_destination_id <$> used.(routes) !! (t, "r1"%string) = Some "d2"%string ∧
  ∃ m, reverse_identity_decision t reversal used = (m, Ok ())
    ∧ spr_destination_id <$> m.(routes) !! (t, "r1"%string) = Some "d1"%string
    ∧ m.(routes) !! (t, "r2"%string) = used.(routes) !! (t, "r2"%string)
    ∧ ∃ e, reverse_identity_decision t reversal m = (m, Err e).
Proof.
  split; [vm_compute; reflexivity|].
  pose proof (reversal_restores_topology t decision reversal m0 merged used m0_keyed decision_recorded merged_used eq_refl eq_refl)
    as Hrev.
  assert (Hfree : (reversed decision.(id_id) used || existsb (λ i, busy t i used) decision.(id_route_ids)) = false)
    by (vm_compute; reflexivity).
  rewrite Hfree in Hrev. destruct Hrev as (m & H1 & _ & H3 & _ & H5). exists m. split; [exact H1|].
  split; [rewrite H3; vm_compute; reflexivity|]. split; [rewrite H3; vm_compute; reflexivity|].
  exact (H5 m t reversal (rtc_refl _ m) eq_refl).
Defined.
End TopologyDemo.
