(* ===== verification/AccessStore.v ===== *)
(** Who may use the control plane (crates/storage-postgres/src/lib.rs and
    migrations/postgres): workspaces, API keys, the owner of a self-hosted installation,
    platform accounts and their grants, and the ways a node becomes known - enrolment
    tokens and browser pairing - with its connectors, request nonces and content keys.

    Columns that only describe a row (names of machines, versions, timestamps of creation
    and use) are left out, and so are audit events. *)

From S2P Require Import Prelude Transactions.
Export Transactions.

(** * Rows *)

Inductive WorkspaceStatus := WsActive | WsSuspended | WsCancelled.
#[export] Instance WorkspaceStatus_eq_dec : EqDecision WorkspaceStatus.
Proof. solve_decision. Defined.

(** [ws_platform] is the platform account that owns the workspace, with its name there. *)
Record WorkspaceRow := {
  ws_name : string;
  ws_slug : string;
  ws_status : WorkspaceStatus;
  ws_platform : option (string * string)
}.
Record EnvironmentRow := { ev_workspace : string; ev_kind : string }.

Record ApiKeyRow := {
  ak_tenant : Tenant;
  ak_lookup_prefix : string;
  ak_secret_hash : string;
  ak_scopes : list string;
  ak_expires_at : option Z;
  ak_revoked_at : option Z
}.
Record OwnerCredentialRow := { oc_workspace : string; oc_key_hash : string; oc_revoked_at : option Z }.
Record OwnerSessionRow := {
  os_workspace : string;
  os_credential : string;
  os_token_hash : string;
  os_expires_at : Z;
  os_revoked_at : option Z
}.
Record PlatformAccountRow := {
  pa_name : string;
  pa_secret_hash : string;
  pa_owner_workspace : string;
  pa_revoked_at : option Z
}.
Record GrantRow := { gr_scopes : list string; gr_expires_at : option Z; gr_revoked_at : option Z }.

Record EnrolmentRow := {
  et_tenant : Tenant;
  et_secret_hash : string;
  et_expires_at : Z;
  et_consumed_at : option Z;
  et_agent_id : option string;
  et_return_url : option string;
  et_requester : option (option string * string)
}.

Inductive DeviceState := DevicePending | DeviceApproved | DeviceDenied | DeviceConsumed | DeviceExpired.
#[export] Instance DeviceState_eq_dec : EqDecision DeviceState.
Proof. solve_decision. Defined.
Record DeviceRow := {
  da_device_code_hash : string;
  da_user_code_hash : string;
  da_public_key : string;
  da_installation_id : string;
  da_name : string;
  da_state : DeviceState;
  da_expires_at : Z;
  da_tenant : option Tenant;
  da_approved_by : option string;
  da_enrolled_agent : option string
}.

Record NodeRow := {
  no_tenant : Tenant;
  no_name : string;
  no_installation_id : string;
  no_public_key : option string;
  no_connected : bool;
  no_revoked_at : option Z
}.
Record InstallationRow := { in_key : string; in_public_key : string }.

(** [permissions->'printers']. *)
Inductive PrinterGrant := AllPrinters | SelectedPrinters (ids : list string).
#[export] Instance PrinterGrant_eq_dec : EqDecision PrinterGrant.
Proof. solve_decision. Defined.
Record NodeConnectorRow := {
  nc_installation : string;
  nc_tenant : Tenant;
  nc_agent : string;
  nc_grant : PrinterGrant;
  nc_generation : Z;
  nc_revoked_at : option Z
}.

Inductive KeyState := KeyActive | KeyDecryptOnly | KeyRevoked | KeyDestroyed.
#[export] Instance KeyState_eq_dec : EqDecision KeyState.
Proof. solve_decision. Defined.
Record EncryptionKeyRow := {
  ek_algorithm : string;
  ek_material : string;
  ek_state : KeyState;
  ek_changed_at : Z
}.

(** * Tables

    The entitlement of a workspace is its node limit here, and a grant is keyed by its
    unique account and tenant.  The reference of a job to a content key is keyed by tenant,
    job and key, and names the node that holds the key. *)

Record Accounts := {
  workspaces : gmap string WorkspaceRow;
  environments : gmap string EnvironmentRow;
  users : gmap string string;
  workspace_members : gmap (string * string) string;
  entitlements : gmap string Z;
  api_keys : gmap string ApiKeyRow;
  owner_credentials : gmap string OwnerCredentialRow;
  owner_sessions : gmap string OwnerSessionRow;
  platform_accounts : gmap string PlatformAccountRow;
  platform_grants : gmap (string * Tenant) GrantRow
}.
Record Devices := {
  enrolment_tokens : gmap string EnrolmentRow;
  device_authorizations : gmap string DeviceRow;
  nodes : gmap string NodeRow;
  installations : gmap string InstallationRow;
  connectors : gmap string NodeConnectorRow;
  agent_nonces : gmap (string * string) Z;
  encryption_keys : gmap (Tenant * string * string) EncryptionKeyRow;
  job_key_references : gmap (Tenant * string * string) string
}.
Record Access := { accounts : Accounts; devices : Devices }.

Definition on_workspaces (f : gmap string WorkspaceRow → gmap string WorkspaceRow) (s : Access) : Access :=
  let a := s.(accounts) in
  {| accounts := {| workspaces := f a.(workspaces); environments := a.(environments); users := a.(users);
        workspace_members := a.(workspace_members); entitlements := a.(entitlements);
        api_keys := a.(api_keys); owner_credentials := a.(owner_credentials);
        owner_sessions := a.(owner_sessions); platform_accounts := a.(platform_accounts);
        platform_grants := a.(platform_grants) |};
     devices := s.(devices) |}.
Definition on_environments (f : gmap string EnvironmentRow → gmap string EnvironmentRow) (s : Access) : Access :=
  let a := s.(accounts) in
  {| accounts := {| workspaces := a.(workspaces); environments := f a.(environments); users := a.(users);
        workspace_members := a.(workspace_members); entitlements := a.(entitlements);
        api_keys := a.(api_keys); owner_credentials := a.(owner_credentials);
        owner_sessions := a.(owner_sessions); platform_accounts := a.(platform_accounts);
        platform_grants := a.(platform_grants) |};
     devices := s.(devices) |}.
Definition on_users (f : gmap string string → gmap string string) (s : Access) : Access :=
  let a := s.(accounts) in
  {| accounts := {| workspaces := a.(workspaces); environments := a.(environments); users := f a.(users);
        workspace_members := a.(workspace_members); entitlements := a.(entitlements);
        api_keys := a.(api_keys); owner_credentials := a.(owner_credentials);
        owner_sessions := a.(owner_sessions); platform_accounts := a.(platform_accounts);
        platform_grants := a.(platform_grants) |};
     devices := s.(devices) |}.
Definition on_workspace_members (f : gmap (string * string) string → gmap (string * string) string) (s : Access) : Access :=
  let a := s.(accounts) in
  {| accounts := {| workspaces := a.(workspaces); environments := a.(environments); users := a.(users);
        workspace_members := f a.(workspace_members); entitlements := a.(entitlements);
        api_keys := a.(api_keys); owner_credentials := a.(owner_credentials);
        owner_sessions := a.(owner_sessions); platform_accounts := a.(platform_accounts);
        platform_grants := a.(platform_grants) |};
     devices := s.(devices) |}.
Definition on_entitlements (f : gmap string Z → gmap string Z) (s : Access) : Access :=
  let a := s.(accounts) in
  {| accounts := {| workspaces := a.(workspaces); environments := a.(environments); users := a.(users);
        workspace_members := a.(workspace_members); entitlements := f a.(entitlements);
        api_keys := a.(api_keys); owner_credentials := a.(owner_credentials);
        owner_sessions := a.(owner_sessions); platform_accounts := a.(platform_accounts);
        platform_grants := a.(platform_grants) |};
     devices := s.(devices) |}.
Definition on_api_keys (f : gmap string ApiKeyRow → gmap string ApiKeyRow) (s : Access) : Access :=
  let a := s.(accounts) in
  {| accounts := {| workspaces := a.(workspaces); environments := a.(environments); users := a.(users);
        workspace_members := a.(workspace_members); entitlements := a.(entitlements);
        api_keys := f a.(api_keys); owner_credentials := a.(owner_credentials);
        owner_sessions := a.(owner_sessions); platform_accounts := a.(platform_accounts);
        platform_grants := a.(platform_grants) |};
     devices := s.(devices) |}.
Definition on_owner_credentials (f : gmap string OwnerCredentialRow → gmap string OwnerCredentialRow) (s : Access) : Access :=
  let a := s.(accounts) in
  {| accounts := {| workspaces := a.(workspaces); environments := a.(environments); users := a.(users);
        workspace_members := a.(workspace_members); entitlements := a.(entitlements);
        api_keys := a.(api_keys); owner_credentials := f a.(owner_credentials);
        owner_sessions := a.(owner_sessions); platform_accounts := a.(platform_accounts);
        platform_grants := a.(platform_grants) |};
     devices := s.(devices) |}.
Definition on_owner_sessions (f : gmap string OwnerSessionRow → gmap string OwnerSessionRow) (s : Access) : Access :=
  let a := s.(accounts) in
  {| accounts := {| workspaces := a.(workspaces); environments := a.(environments); users := a.(users);
        workspace_members := a.(workspace_members); entitlements := a.(entitlements);
        api_keys := a.(api_keys); owner_credentials := a.(owner_credentials);
        owner_sessions := f a.(owner_sessions); platform_accounts := a.(platform_accounts);
        platform_grants := a.(platform_grants) |};
     devices := s.(devices) |}.
Definition on_platform_accounts (f : gmap string PlatformAccountRow → gmap string PlatformAccountRow) (s : Access) : Access :=
  let a := s.(accounts) in
  {| accounts := {| workspaces := a.(workspaces); environments := a.(environments); users := a.(users);
        workspace_members := a.(workspace_members); entitlements := a.(entitlements);
        api_keys := a.(api_keys); owner_credentials := a.(owner_credentials);
        owner_sessions := a.(owner_sessions); platform_accounts := f a.(platform_accounts);
        platform_grants := a.(platform_grants) |};
     devices := s.(devices) |}.
Definition on_platform_grants (f : gmap (string * Tenant) GrantRow → gmap (string * Tenant) GrantRow) (s : Access) : Access :=
  let a := s.(accounts) in
  {| accounts := {| workspaces := a.(workspaces); environments := a.(environments); users := a.(users);
        workspace_members := a.(workspace_members); entitlements := a.(entitlements);
        api_keys := a.(api_keys); owner_credentials := a.(owner_credentials);
        owner_sessions := a.(owner_sessions); platform_accounts := a.(platform_accounts);
        platform_grants := f a.(platform_grants) |};
     devices := s.(devices) |}.
Definition on_enrolment_tokens (f : gmap string EnrolmentRow → gmap string EnrolmentRow) (s : Access) : Access :=
  let d := s.(devices) in
  {| accounts := s.(accounts);
     devices := {| enrolment_tokens := f d.(enrolment_tokens);
        device_authorizations := d.(device_authorizations); nodes := d.(nodes);
        installations := d.(installations); connectors := d.(connectors);
        agent_nonces := d.(agent_nonces); encryption_keys := d.(encryption_keys);
        job_key_references := d.(job_key_references) |} |}.
Definition on_device_authorizations (f : gmap string DeviceRow → gmap string DeviceRow) (s : Access) : Access :=
  let d := s.(devices) in
  {| accounts := s.(accounts);
     devices := {| enrolment_tokens := d.(enrolment_tokens);
        device_authorizations := f d.(device_authorizations); nodes := d.(nodes);
        installations := d.(installations); connectors := d.(connectors);
        agent_nonces := d.(agent_nonces); encryption_keys := d.(encryption_keys);
        job_key_references := d.(job_key_references) |} |}.
Definition on_nodes (f : gmap string NodeRow → gmap string NodeRow) (s : Access) : Access :=
  let d := s.(devices) in
  {| accounts := s.(accounts);
     devices := {| enrolment_tokens := d.(enrolment_tokens);
        device_authorizations := d.(device_authorizations); nodes := f d.(nodes);
        installations := d.(installations); connectors := d.(connectors);
        agent_nonces := d.(agent_nonces); encryption_keys := d.(encryption_keys);
        job_key_references := d.(job_key_references) |} |}.
Definition on_installations (f : gmap string InstallationRow → gmap string InstallationRow) (s : Access) : Access :=
  let d := s.(devices) in
  {| accounts := s.(accounts);
     devices := {| enrolment_tokens := d.(enrolment_tokens);
        device_authorizations := d.(device_authorizations); nodes := d.(nodes);
        installations := f d.(installations); connectors := d.(connectors);
        agent_nonces := d.(agent_nonces); encryption_keys := d.(encryption_keys);
        job_key_references := d.(job_key_references) |} |}.
Definition on_connectors (f : gmap string NodeConnectorRow → gmap string NodeConnectorRow) (s : Access) : Access :=
  let d := s.(devices) in
  {| accounts := s.(accounts);
     devices := {| enrolment_tokens := d.(enrolment_tokens);
        device_authorizations := d.(device_authorizations); nodes := d.(nodes);
        installations := d.(installations); connectors := f d.(connectors);
        agent_nonces := d.(agent_nonces); encryption_keys := d.(encryption_keys);
        job_key_references := d.(job_key_references) |} |}.
Definition on_agent_nonces (f : gmap (string * string) Z → gmap (string * string) Z) (s : Access) : Access :=
  let d := s.(devices) in
  {| accounts := s.(accounts);
     devices := {| enrolment_tokens := d.(enrolment_tokens);
        device_authorizations := d.(device_authorizations); nodes := d.(nodes);
        installations := d.(installations); connectors := d.(connectors);
        agent_nonces := f d.(agent_nonces); encryption_keys := d.(encryption_keys);
        job_key_references := d.(job_key_references) |} |}.
Definition on_encryption_keys (f : gmap (Tenant * string * string) EncryptionKeyRow → gmap (Tenant * string * string) EncryptionKeyRow) (s : Access) : Access :=
  let d := s.(devices) in
  {| accounts := s.(accounts);
     devices := {| enrolment_tokens := d.(enrolment_tokens);
        device_authorizations := d.(device_authorizations); nodes := d.(nodes);
        installations := d.(installations); connectors := d.(connectors);
        agent_nonces := d.(agent_nonces); encryption_keys := f d.(encryption_keys);
        job_key_references := d.(job_key_references) |} |}.
Definition on_job_key_references (f : gmap (Tenant * string * string) string → gmap (Tenant * string * string) string) (s : Access) : Access :=
  let d := s.(devices) in
  {| accounts := s.(accounts);
     devices := {| enrolment_tokens := d.(enrolment_tokens);
        device_authorizations := d.(device_authorizations); nodes := d.(nodes);
        installations := d.(installations); connectors := d.(connectors);
        agent_nonces := d.(agent_nonces); encryption_keys := d.(encryption_keys);
        job_key_references := f d.(job_key_references) |} |}.

(** * Statements *)

Abbreviation Tx := (Txn Access).

Definition unset (o : option Z) : bool := bool_decide (o = None).
Definition unexpired (now : Z) (o : option Z) : bool :=
  match o with None => true | Some t => (now <? t)%Z end.

Definition workspace_exists (w : string) (s : Access) : bool := bool_decide (is_Some (s.(accounts).(workspaces) !! w)).
Definition workspace_active (w : string) (s : Access) : bool :=
  bool_decide (ws_status <$> s.(accounts).(workspaces) !! w = Some WsActive).
Definition environment_exists (e : string) (s : Access) : bool := bool_decide (is_Some (s.(accounts).(environments) !! e)).
(** [environments (id, workspace_id)]. *)
Definition tenant_exists (t : Tenant) (s : Access) : bool :=
  bool_decide (ev_workspace <$> s.(accounts).(environments) !! t.2 = Some t.1).
(** The references of a table to [workspaces] and to [environments]. *)
Definition tenant_references (t : Tenant) (s : Access) : bool := workspace_exists t.1 s && environment_exists t.2 s.

(** The [CHECK]s on the text of a column; a character is a byte here. *)
Definition length_between (low high : nat) (value : string) : bool :=
  ((low <=? String.length value) && (String.length value <=? high))%nat.
Definition ascii_in (n low high : N) : bool := ((low <=? n) && (n <=? high))%N.
Definition alphanumeric (a : Ascii.ascii) : bool :=
  let n := N_of_ascii a in ascii_in n 48 57 || ascii_in n 65 90 || ascii_in n 97 122.
Definition valid_platform_external_id (value : string) : bool :=
  length_between 1 120 value
  && match String.list_ascii_of_string value with
     | [] => false
     | a :: l => alphanumeric a && forallb (λ a, alphanumeric a || bool_decide (N_of_ascii a ∈ [95; 46; 58; 45]%N)) l
     end.

Section access.
Context (now : Z) (fresh : string → string) (sha256 : string → string).

(** * API keys *)

Definition create_api_key (t : Tenant) (id prefix secret_hash : string) (scopes : list string) (expires_at : option Z) :
    Tx ApiKeyRow :=
  free ← query (λ s, bool_decide (s.(accounts).(api_keys) !! id = None) && tenant_references t s
    && negb (exists_row (λ _ k, bool_decide (k.(ak_lookup_prefix) = prefix)) s.(accounts).(api_keys)));
  _ ← ensure free (Database "api_keys");
  let row := {| ak_tenant := t; ak_lookup_prefix := prefix; ak_secret_hash := secret_hash; ak_scopes := scopes;
                ak_expires_at := expires_at; ak_revoked_at := None |} in
  _ ← execute (on_api_keys <[id := row]>);
  mret row.

(** [COALESCE(revoked_at, now())]. *)
Definition revoked (o : option Z) : option Z := match o with Some _ => o | None => Some now end.
Definition revoke_key (k : ApiKeyRow) : ApiKeyRow :=
  {| ak_tenant := k.(ak_tenant); ak_lookup_prefix := k.(ak_lookup_prefix); ak_secret_hash := k.(ak_secret_hash);
     ak_scopes := k.(ak_scopes); ak_expires_at := k.(ak_expires_at); ak_revoked_at := revoked k.(ak_revoked_at) |}.
Definition revoke_api_key (t : Tenant) (id : string) : Tx ApiKeyRow :=
  row ← fetch (λ s, s.(accounts).(api_keys) !! id) NotFound;
  _ ← ensure (bool_decide (row.(ak_tenant) = t)) NotFound;
  _ ← execute (on_api_keys (alter revoke_key id));
  mret (revoke_key row).

Definition api_key_for_authentication (prefix : string) : Tx (Tenant * string * list string) :=
  row ← fetch (λ s, find_row (λ _ k, bool_decide (k.(ak_lookup_prefix) = prefix) && unset k.(ak_revoked_at)
                                     && unexpired now k.(ak_expires_at)) s.(accounts).(api_keys)) NotFound;
  mret (row.2.(ak_tenant), row.2.(ak_secret_hash), row.2.(ak_scopes)).

(** * The owner of a self-hosted installation *)

Definition insert_workspace (id : string) (row : WorkspaceRow) : Tx unit :=
  free ← query (λ s, bool_decide (s.(accounts).(workspaces) !! id = None)
    && match row.(ws_platform) with Some p => valid_platform_external_id p.2 | None => true end
    && negb (exists_row (λ _ w, bool_decide (w.(ws_slug) = row.(ws_slug))
         || bool_decide (is_Some row.(ws_platform)) && bool_decide (w.(ws_platform) = row.(ws_platform)))
         s.(accounts).(workspaces)));
  _ ← ensure free (Database "workspaces");
  execute (on_workspaces <[id := row]>).
Definition insert_environment (id workspace kind : string) : Tx unit :=
  free ← query (λ s, bool_decide (s.(accounts).(environments) !! id = None) && workspace_exists workspace s
    && negb (exists_row (λ _ e, bool_decide (e.(ev_workspace) = workspace) && bool_decide (e.(ev_kind) = kind))
         s.(accounts).(environments)));
  _ ← ensure free (Database "environments");
  execute (on_environments <[id := {| ev_workspace := workspace; ev_kind := kind |}]>).

(** [slug] is made of the workspace's name and its identifier. *)
Definition bootstrap_local_owner (t : Tenant) (credential credential_hash name slug user email : string) : Tx unit :=
  unconfigured ← query (λ s, (size s.(accounts).(owner_credentials) =? 0)%nat);
  _ ← ensure unconfigured ConcurrentStateChange;
  _ ← insert_workspace t.1 {| ws_name := name; ws_slug := slug; ws_status := WsActive; ws_platform := None |};
  _ ← insert_environment t.2 t.1 "live";
  free ← query (λ s, bool_decide (s.(accounts).(users) !! user = None));
  _ ← ensure free (Database "users_pkey");
  _ ← execute (on_users <[user := email]>);
  _ ← execute (on_workspace_members <[(t.1, user) := "owner"%string]>);
  execute (on_owner_credentials
    <[credential := {| oc_workspace := t.1; oc_key_hash := credential_hash; oc_revoked_at := None |}]>).

(** The live environment of a workspace. *)
Definition live_environment (workspace : string) (s : Access) : option string :=
  fst <$> find_row (λ _ e, bool_decide (e.(ev_workspace) = workspace) && bool_decide (e.(ev_kind) = "live"%string))
            s.(accounts).(environments).

Definition local_owner_credential_for_authentication (id : string) : Tx (Tenant * string) :=
  row ← fetch (λ s, s.(accounts).(owner_credentials) !! id) NotFound;
  active ← query (workspace_active row.(oc_workspace));
  _ ← ensure (unset row.(oc_revoked_at) && active) NotFound;
  env ← fetch (live_environment row.(oc_workspace)) NotFound;
  mret (row.(oc_workspace), env, row.(oc_key_hash)).

Definition local_owner_session_for_authentication (id : string) : Tx (Tenant * string * string) :=
  row ← fetch (λ s, s.(accounts).(owner_sessions) !! id) NotFound;
  credential ← fetch (λ s, s.(accounts).(owner_credentials) !! row.(os_credential)) NotFound;
  active ← query (workspace_active row.(os_workspace));
  _ ← ensure (unset row.(os_revoked_at) && (now <? row.(os_expires_at))%Z && unset credential.(oc_revoked_at)
              && active) NotFound;
  env ← fetch (live_environment row.(os_workspace)) NotFound;
  mret (row.(os_workspace), env, row.(os_credential), row.(os_token_hash)).

(** The primary key and [UNIQUE (token_hash)]. *)
Definition insert_owner_session (id workspace credential token_hash : string) (expires_at : Z) : Tx unit :=
  free ← query (λ s, bool_decide (s.(accounts).(owner_sessions) !! id = None)
    && workspace_exists workspace s && bool_decide (is_Some (s.(accounts).(owner_credentials) !! credential))
    && negb (exists_row (λ _ x, bool_decide (x.(os_token_hash) = token_hash)) s.(accounts).(owner_sessions)));
  _ ← ensure free (Database "local_owner_sessions");
  execute (on_owner_sessions <[id := {| os_workspace := workspace; os_credential := credential;
    os_token_hash := token_hash; os_expires_at := expires_at; os_revoked_at := None |}]>).

Definition create_local_owner_session (id workspace credential token_hash : string) (expires_at : Z) : Tx unit :=
  known ← query (λ s, from_option (λ k, bool_decide (k.(oc_workspace) = workspace) && unset k.(oc_revoked_at)) false
                        (s.(accounts).(owner_credentials) !! credential));
  _ ← ensure known NotFound;
  insert_owner_session id workspace credential token_hash expires_at.

Definition revoke_session (x : OwnerSessionRow) : OwnerSessionRow :=
  {| os_workspace := x.(os_workspace); os_credential := x.(os_credential); os_token_hash := x.(os_token_hash);
     os_expires_at := x.(os_expires_at); os_revoked_at := revoked x.(os_revoked_at) |}.
Definition rotate_local_owner_session (workspace old new credential token_hash : string) (expires_at : Z) : Tx unit :=
  live ← query (λ s, from_option (λ x, bool_decide (x.(os_workspace) = workspace)
                       && bool_decide (x.(os_credential) = credential) && unset x.(os_revoked_at)
                       && (now <? x.(os_expires_at))%Z) false (s.(accounts).(owner_sessions) !! old));
  _ ← ensure live NotFound;
  _ ← execute (on_owner_sessions (alter revoke_session old));
  insert_owner_session new workspace credential token_hash expires_at.
Definition revoke_local_owner_session (workspace id : string) : Tx unit :=
  execute (λ s, match s.(accounts).(owner_sessions) !! id with
                | Some x => if decide (x.(os_workspace) = workspace)
                            then on_owner_sessions (alter revoke_session id) s else s
                | None => s
                end).

(** * Platform accounts *)

Definition account_active (a : PlatformAccountRow) : bool := unset a.(pa_revoked_at).
Definition active_account (id : string) (s : Access) : option PlatformAccountRow :=
  a ← s.(accounts).(platform_accounts) !! id;
  if account_active a then Some a else None.
Definition grant_active (g : GrantRow) : bool := unset g.(gr_revoked_at) && unexpired now g.(gr_expires_at).

Definition platform_grant_for_authentication (account : string) (t : Tenant) : Tx (string * list string) :=
  a ← fetch (active_account account) NotFound;
  active ← query (workspace_active t.1);
  g ← fetch (λ s, s.(accounts).(platform_grants) !! (account, t)) NotFound;
  _ ← ensure (active && grant_active g) NotFound;
  mret (a.(pa_secret_hash), g.(gr_scopes)).

(** The active account of an owner; a partial index allows one. *)
Definition account_of_owner (owner : string) (s : Access) : option (string * PlatformAccountRow) :=
  find_row (λ _ a, bool_decide (a.(pa_owner_workspace) = owner) && account_active a) s.(accounts).(platform_accounts).

(** The accounts of [managed_tenant_for_owner]: of the owner, active, with a grant in force
    for a child workspace that it owns. *)
Definition manages (owner : string) (t : Tenant) (s : Access) (id : string) (a : PlatformAccountRow) : bool :=
  bool_decide (a.(pa_owner_workspace) = owner) && account_active a
  && bool_decide (fst <$> (s.(accounts).(workspaces) !! t.1 ≫= ws_platform) = Some id)
  && from_option grant_active false (s.(accounts).(platform_grants) !! (id, t)).
Definition managed_tenant_for_owner (owner : string) (t : Tenant) : Tx (list string) :=
  ok ← query (λ s, workspace_active owner s && workspace_active t.1 s && tenant_exists t s);
  _ ← ensure ok NotFound;
  a ← fetch (λ s, find_row (manages owner t s) s.(accounts).(platform_accounts)) NotFound;
  g ← fetch (λ s, s.(accounts).(platform_grants) !! (a.1, t)) NotFound;
  mret g.(gr_scopes).

Definition platform_manager_for_authentication (account : string) : Tx (string * string) :=
  a ← fetch (active_account account) NotFound;
  active ← query (workspace_active a.(pa_owner_workspace));
  _ ← ensure active NotFound;
  mret (a.(pa_secret_hash), a.(pa_owner_workspace)).
Definition platform_manager_for_owner_workspace (owner : string) : Tx string :=
  active ← query (workspace_active owner);
  _ ← ensure active NotFound;
  a ← fetch (account_of_owner owner) NotFound;
  mret a.1.

Definition PLATFORM_ACCOUNT_SCOPES : list string :=
  ["api_keys_read"; "api_keys_write"; "agents_read"; "agents_write"; "printers_read"; "printers_write";
   "jobs_read"; "jobs_write"; "webhooks_read"; "webhooks_write"; "usage_read"; "audit_read"]%string.

(** The checks of [platform_workspace_grants]; an existing grant of the account and tenant
    is written over when [upsert] is set. *)
Definition put_grant (upsert : bool) (account : string) (t : Tenant) (scopes : list string) (expires_at : option Z) :
    Tx unit :=
  valid ← query (λ s, tenant_exists t s && workspace_exists t.1 s
    && bool_decide (is_Some (s.(accounts).(platform_accounts) !! account))
    && negb (bool_decide (scopes = [])) && forallb (λ x, bool_decide (x ∈ PLATFORM_ACCOUNT_SCOPES)) scopes
    && (upsert || bool_decide (s.(accounts).(platform_grants) !! (account, t) = None)));
  _ ← ensure valid (Database "platform_workspace_grants");
  execute (on_platform_grants <[(account, t) :=
    {| gr_scopes := scopes; gr_expires_at := expires_at; gr_revoked_at := None |}]>).

(** [platform_service_accounts]: the primary key, the owner, one active account per owner. *)
Definition insert_platform_account (id name secret_hash owner : string) : Tx unit :=
  free ← query (λ s, bool_decide (s.(accounts).(platform_accounts) !! id = None) && workspace_exists owner s
    && length_between 1 120 name
    && bool_decide (account_of_owner owner s = None));
  _ ← ensure free (Database "platform_service_accounts");
  execute (on_platform_accounts <[id := {| pa_name := name; pa_secret_hash := secret_hash;
    pa_owner_workspace := owner; pa_revoked_at := None |}]>).

Definition create_platform_service_account_with_grant (id name secret_hash : string) (t : Tenant)
    (scopes : list string) (expires_at : option Z) : Tx unit :=
  _ ← insert_platform_account id name secret_hash t.1;
  put_grant false id t scopes expires_at.

(** [kind IN ('test', 'live') ORDER BY kind]. *)
Definition both_environments (workspace : string) (s : Access) : list string :=
  let of_kind k := fst <$> select_rows (λ _ e, bool_decide (e.(ev_workspace) = workspace)
                                              && bool_decide (e.(ev_kind) = k)) s.(accounts).(environments) in
  of_kind "live"%string ++ of_kind "test"%string.
Definition grant_environments (upsert : bool) (account workspace : string) (message : string) : Tx unit :=
  envs ← query (both_environments workspace);
  _ ← ensure (length envs =? 2)%nat (InvalidData message);
  _ ← for_each (λ e, put_grant upsert account (workspace, e) PLATFORM_ACCOUNT_SCOPES None) envs;
  mret ().

Definition enable_platform_service_account (id name secret_hash workspace : string) : Tx unit :=
  active ← query (workspace_active workspace);
  _ ← ensure active NotFound;
  enabled ← query (λ s, bool_decide (is_Some (account_of_owner workspace s)));
  _ ← ensure (negb enabled) PlatformAlreadyEnabled;
  envs ← query (both_environments workspace);
  _ ← ensure (length envs =? 2)%nat (InvalidData "platform owner does not have Test and Live environments");
  _ ← insert_platform_account id name secret_hash workspace;
  grant_environments false id workspace "platform owner does not have Test and Live environments".

Definition rename_workspace (name : string) (w : WorkspaceRow) : WorkspaceRow :=
  {| ws_name := name; ws_slug := w.(ws_slug); ws_status := w.(ws_status); ws_platform := w.(ws_platform) |}.
Definition child_workspace (account external : string) (s : Access) : option (string * WorkspaceRow) :=
  find_row (λ _ w, bool_decide (w.(ws_platform) = Some (account, external))) s.(accounts).(workspaces).

(** The workspace, created or renamed, and whether it was created. *)
Definition upsert_child_workspace (account external name slug : string) : Tx (string * bool) :=
  existing ← query (child_workspace account external);
  match existing with
  | Some (w, _) => _ ← execute (on_workspaces (alter (rename_workspace name) w)); mret (w, false)
  | None =>
    let w := fresh "workspace" in
    _ ← insert_workspace w {| ws_name := name; ws_slug := slug; ws_status := WsActive;
                              ws_platform := Some (account, external) |};
    _ ← insert_environment (fresh "test") w "test";
    _ ← insert_environment (fresh "live") w "live";
    mret (w, true)
  end.
Definition upsert_platform_account (account external name slug : string) : Tx (string * bool) :=
  _ ← fetch (active_account account) NotFound;
  w ← upsert_child_workspace account external name slug;
  active ← query (workspace_active w.1);
  _ ← (if active : bool
       then grant_environments true account w.1 "platform account does not have Test and Live environments"
       else mret ());
  mret w.

Definition cancel_workspace (w : WorkspaceRow) : WorkspaceRow :=
  {| ws_name := w.(ws_name); ws_slug := w.(ws_slug); ws_status := WsCancelled; ws_platform := w.(ws_platform) |}.
Definition revoke_grant (g : GrantRow) : GrantRow :=
  {| gr_scopes := g.(gr_scopes); gr_expires_at := g.(gr_expires_at); gr_revoked_at := revoked g.(gr_revoked_at) |}.
Definition archive_platform_account (account external : string) : Tx unit :=
  _ ← fetch (active_account account) NotFound;
  w ← fetch (child_workspace account external) NotFound;
  _ ← execute (on_workspaces (alter cancel_workspace w.1));
  execute (on_platform_grants (map_imap (λ k g,
    Some (if bool_decide (k.1 = account) && bool_decide (k.2.1 = w.1) then revoke_grant g else g)))).

Definition upsert_platform_workspace_grant (account : string) (t : Tenant) (scopes : list string)
    (expires_at : option Z) : Tx unit := put_grant true account t scopes expires_at.
Definition revoke_platform_workspace_grant (account : string) (t : Tenant) : Tx unit :=
  g ← fetch (λ s, s.(accounts).(platform_grants) !! (account, t)) NotFound;
  _ ← ensure (unset g.(gr_revoked_at)) NotFound;
  execute (on_platform_grants (alter revoke_grant (account, t))).

Definition set_account_secret (secret_hash : string) (a : PlatformAccountRow) : PlatformAccountRow :=
  {| pa_name := a.(pa_name); pa_secret_hash := secret_hash; pa_owner_workspace := a.(pa_owner_workspace);
     pa_revoked_at := a.(pa_revoked_at) |}.
Definition rotate_platform_service_account (account secret_hash : string) : Tx unit :=
  _ ← fetch (active_account account) NotFound;
  execute (on_platform_accounts (alter (set_account_secret secret_hash) account)).
Definition revoke_account (a : PlatformAccountRow) : PlatformAccountRow :=
  {| pa_name := a.(pa_name); pa_secret_hash := a.(pa_secret_hash); pa_owner_workspace := a.(pa_owner_workspace);
     pa_revoked_at := revoked a.(pa_revoked_at) |}.
Definition revoke_platform_service_account (account : string) : Tx unit :=
  _ ← fetch (active_account account) NotFound;
  execute (on_platform_accounts (alter revoke_account account)).

(** A workspace that the account owns keeps it; its grants go with it, and enrolment tokens
    forget who asked for them. *)
Definition forget_requester (account : string) (e : EnrolmentRow) : EnrolmentRow :=
  {| et_tenant := e.(et_tenant); et_secret_hash := e.(et_secret_hash); et_expires_at := e.(et_expires_at);
     et_consumed_at := e.(et_consumed_at); et_agent_id := e.(et_agent_id); et_return_url := e.(et_return_url);
     et_requester := match e.(et_requester) with
                     | Some (Some a, name) => if decide (a = account) then Some (None, name) else e.(et_requester)
                     | r => r
                     end |}.
Definition delete_platform_service_account (account : string) : Tx unit :=
  a ← fetch (λ s, s.(accounts).(platform_accounts) !! account) NotFound;
  _ ← ensure (negb (account_active a)) NotFound;
  owned ← query (λ s, exists_row (λ _ w, bool_decide (fst <$> w.(ws_platform) = Some account)) s.(accounts).(workspaces));
  _ ← ensure (negb owned) (Database "workspaces_platform_service_account_id_fkey");
  _ ← execute (on_platform_accounts (delete account));
  _ ← execute (on_platform_grants (filter (λ e, e.1.1 ≠ account)));
  execute (on_enrolment_tokens (fmap (forget_requester account))).

(** * Enrolment tokens *)

Definition insert_enrolment (id : string) (row : EnrolmentRow) : Tx unit :=
  free ← query (λ s, bool_decide (s.(devices).(enrolment_tokens) !! id = None) && tenant_references row.(et_tenant) s
    && match row.(et_return_url) with Some url => length_between 0 2048 url | None => true end);
  _ ← ensure free (Database "enrolment_tokens");
  execute (on_enrolment_tokens <[id := row]>).
Definition new_enrolment (t : Tenant) (secret_hash : string) (expires_at : Z) (return_url : option string)
    (requester : option (option string * string)) : EnrolmentRow :=
  {| et_tenant := t; et_secret_hash := secret_hash; et_expires_at := expires_at; et_consumed_at := None;
     et_agent_id := None; et_return_url := return_url; et_requester := requester |}.

Definition create_enrolment (id : string) (t : Tenant) (secret_hash : string) (expires_at : Z) : Tx unit :=
  insert_enrolment id (new_enrolment t secret_hash expires_at None None).
Definition create_connect_enrolment (id : string) (t : Tenant) (secret_hash : string) (expires_at : Z)
    (return_url requester : option string) : Tx unit :=
  known ← query (workspace_exists t.1);
  _ ← ensure known NotFound;
  account ← query (λ s, id ← requester; a ← active_account id s; Some (Some id, a.(pa_name)));
  insert_enrolment id (new_enrolment t secret_hash expires_at return_url account).
Definition enrolment_status (id : string) (t : Tenant) : Tx (Z * option string) :=
  row ← fetch (λ s, s.(devices).(enrolment_tokens) !! id) NotFound;
  _ ← ensure (bool_decide (row.(et_tenant) = t)) NotFound;
  mret (row.(et_expires_at), row.(et_agent_id)).
Definition connect_session_preview (secret_hash : string) : Tx (Tenant * string * Z) :=
  row ← fetch (λ s, find_row (λ _ e, bool_decide (e.(et_secret_hash) = secret_hash) && unset e.(et_consumed_at)
                                     && (now <? e.(et_expires_at))%Z) s.(devices).(enrolment_tokens)) NotFound;
  w ← fetch (λ s, s.(accounts).(workspaces) !! row.2.(et_tenant).1) NotFound;
  mret (row.2.(et_tenant), w.(ws_name), row.2.(et_expires_at)).

(** * Nodes *)

(** The workspaces billed to an owner, as in the admission of jobs. *)
Definition billing_owner (workspace : string) (s : Access) : option string :=
  w ← s.(accounts).(workspaces) !! workspace;
  Some (match w.(ws_platform) ≫= λ p, active_account p.1 s with
        | Some a => a.(pa_owner_workspace)
        | None => workspace
        end).
Definition billed_to (owner : string) (s : Access) (workspace : string) : bool :=
  bool_decide (workspace = owner)
  || match s.(accounts).(workspaces) !! workspace ≫= ws_platform with
     | Some p => from_option (λ a, bool_decide (a.(pa_owner_workspace) = owner)) false (active_account p.1 s)
     | None => false
     end.
Definition active_nodes (owner : string) (s : Access) : Z :=
  Z.of_nat (length (select_rows (λ _ n, unset n.(no_revoked_at) && billed_to owner s n.(no_tenant).1)
                      s.(devices).(nodes))).
Definition FREE_PLAN_node_limit : Z := 1.
Definition enforce_node_admission (workspace : string) : Tx unit :=
  owner ← fetch (billing_owner workspace) NotFound;
  known ← query (workspace_exists owner);
  _ ← ensure known (Database "workspace_entitlements_workspace_id_fkey");
  _ ← execute (λ s, match s.(accounts).(entitlements) !! owner with
                    | Some _ => s
                    | None => on_entitlements <[owner := FREE_PLAN_node_limit]> s
                    end);
  limit ← fetch (λ s, s.(accounts).(entitlements) !! owner) (Database "workspace_entitlements");
  count ← query (active_nodes owner);
  ensure (count <? limit)%Z NodeQuotaExceeded.

(** The node of an installation that is not revoked; an index allows one per tenant. *)
Definition node_of_installation (t : Tenant) (installation : string) (s : Access) : option (string * NodeRow) :=
  find_row (λ _ n, bool_decide (n.(no_tenant) = t) && bool_decide (n.(no_installation_id) = installation)
                   && unset n.(no_revoked_at)) s.(devices).(nodes).
Definition insert_node (id : string) (row : NodeRow) : Tx unit :=
  free ← query (λ s, bool_decide (s.(devices).(nodes) !! id = None) && tenant_references row.(no_tenant) s
    && bool_decide (fst <$> node_of_installation row.(no_tenant) row.(no_installation_id) s = None));
  _ ← ensure free (Database "agents");
  execute (on_nodes <[id := row]>).
Definition rebind_node (name public_key : string) (connected : bool) (n : NodeRow) : NodeRow :=
  {| no_tenant := n.(no_tenant); no_name := name; no_installation_id := n.(no_installation_id);
     no_public_key := Some public_key; no_connected := connected; no_revoked_at := n.(no_revoked_at) |}.

(** An installation that is known keeps its key: another key makes the statement return no
    row. *)
Definition upsert_installation (key public_key : string) : Tx string :=
  existing ← query (λ s, find_row (λ _ i, bool_decide (i.(in_key) = key)) s.(devices).(installations));
  match existing with
  | Some (id, i) => _ ← ensure (bool_decide (i.(in_public_key) = public_key)) (Database "RowNotFound"); mret id
  | None =>
    let id := fresh "ninst" in
    free ← query (λ s, bool_decide (s.(devices).(installations) !! id = None));
    _ ← ensure free (Database "node_installations_pkey");
    _ ← execute (on_installations <[id := {| in_key := key; in_public_key := public_key |}]>);
    mret id
  end.

Definition reconnect (installation : string) (k : NodeConnectorRow) : NodeConnectorRow :=
  {| nc_installation := installation; nc_tenant := k.(nc_tenant); nc_agent := k.(nc_agent); nc_grant := k.(nc_grant);
     nc_generation := if unset k.(nc_revoked_at) then k.(nc_generation) else (k.(nc_generation) + 1)%Z;
     nc_revoked_at := None |}.
(** [UNIQUE (installation_id, workspace_id, environment_id)], which the conflict clause does
    not name. *)
Definition installation_taken (installation : string) (t : Tenant) (except : option string) (s : Access) : bool :=
  exists_row (λ id k, bool_decide (k.(nc_installation) = installation) && bool_decide (k.(nc_tenant) = t)
                      && negb (bool_decide (Some id = except))) s.(devices).(connectors).
Definition upsert_node_connector (key public_key : string) (t : Tenant) (agent : string) : Tx string :=
  installation ← upsert_installation key public_key;
  existing ← query (λ s, find_row (λ _ k, bool_decide (k.(nc_tenant) = t) && bool_decide (k.(nc_agent) = agent))
                           s.(devices).(connectors));
  match existing with
  | Some (id, _) =>
    taken ← query (installation_taken installation t (Some id));
    _ ← ensure (negb taken) (Database "node_connectors_installation_id_key");
    _ ← execute (on_connectors (alter (reconnect installation) id));
    mret id
  | None =>
    let id := fresh "ncon" in
    free ← query (λ s, bool_decide (s.(devices).(connectors) !! id = None) && tenant_exists t s
      && workspace_exists t.1 s && bool_decide (is_Some (s.(devices).(nodes) !! agent))
      && negb (installation_taken installation t None s));
    _ ← ensure free (Database "node_connectors");
    _ ← execute (on_connectors <[id := {| nc_installation := installation; nc_tenant := t; nc_agent := agent;
          nc_grant := AllPrinters; nc_generation := 1; nc_revoked_at := None |}]>);
    mret id
  end.

Definition set_grant (g : PrinterGrant) (k : NodeConnectorRow) : NodeConnectorRow :=
  {| nc_installation := k.(nc_installation); nc_tenant := k.(nc_tenant); nc_agent := k.(nc_agent); nc_grant := g;
     nc_generation := k.(nc_generation); nc_revoked_at := k.(nc_revoked_at) |}.
Definition valid_printer_ids (ids : list string) : bool :=
  negb (bool_decide (ids = [])) && (length ids <=? 128)%nat && bool_decide (NoDup ids)
  && forallb (λ id, (String.length id <=? 128)%nat && negb (bool_decide (id = ""%string))) ids.
Definition set_connector_printer_grant (connector printer_grant : string) (ids : list string) : Tx unit :=
  if decide (printer_grant = "all_local_printers"%string) then
    _ ← ensure (bool_decide (ids = []))
          (InvalidData "all-printer connector grants cannot contain printer identifiers");
    execute (on_connectors (alter (set_grant AllPrinters) connector))
  else
    _ ← ensure (bool_decide (printer_grant = "selected_printers"%string))
          (InvalidData "unknown connector printer grant");
    _ ← ensure (valid_printer_ids ids)
          (InvalidData "connector enrolment requires one to 128 valid printer identifiers");
    execute (on_connectors (alter (set_grant (SelectedPrinters ids)) connector)).

Definition valid_external_installation_id (value : string) : bool :=
  length_between 8 128 value
  && forallb (λ a, alphanumeric a || bool_decide (N_of_ascii a ∈ [95; 45]%N)) (String.list_ascii_of_string value).

Record EnrolRequest := {
  er_public_key : string;
  er_name : string;
  er_hostname : string;
  er_physical_installation : option string;
  er_installation_key : option string;
  er_printer_grant : string;
  er_printer_ids : list string
}.
Record EnrolledAgent := { ea_agent : string; ea_tenant : Tenant; ea_connector : option string }.

Definition installation_id (q : EnrolRequest) : result StorageError string :=
  match q.(er_physical_installation) with
  | Some v => if valid_external_installation_id v then Ok v else Err (InvalidData "physical installation id is invalid")
  | None => Ok (q.(er_hostname) +:+ ":" +:+ hex (sha256 q.(er_public_key)))
  end.

(** The connector that a repeated enrolment is answered with. *)
Definition same_grant (q : EnrolRequest) (g : PrinterGrant) : bool :=
  if bool_decide (is_Some q.(er_physical_installation))
  then bool_decide (q.(er_printer_grant) = "selected_printers"%string)
         && bool_decide (g = SelectedPrinters q.(er_printer_ids))
       || bool_decide (q.(er_printer_grant) = "all_local_printers"%string) && bool_decide (g = AllPrinters)
  else bool_decide (g = AllPrinters).
Definition enrolled_connector (q : EnrolRequest) (t : Tenant) (installation agent : string) (s : Access) :
    option (string * NodeConnectorRow) :=
  n ← s.(devices).(nodes) !! agent;
  if bool_decide (n.(no_tenant) = t) && bool_decide (n.(no_installation_id) = installation)
     && bool_decide (n.(no_public_key) = Some q.(er_public_key)) && unset n.(no_revoked_at)
  then find_row (λ _ k, bool_decide (k.(nc_agent) = agent) && bool_decide (k.(nc_tenant) = t)
                        && unset k.(nc_revoked_at) && same_grant q k.(nc_grant)) s.(devices).(connectors)
  else None.

Definition redeemable (secret_hash : string) (e : EnrolmentRow) : bool :=
  bool_decide (e.(et_secret_hash) = secret_hash)
  && ((now <? e.(et_expires_at))%Z
      || negb (unset e.(et_consumed_at)) && (now - seconds 600 <? e.(et_expires_at))%Z).
Definition consume (agent : string) (e : EnrolmentRow) : EnrolmentRow :=
  {| et_tenant := e.(et_tenant); et_secret_hash := e.(et_secret_hash); et_expires_at := e.(et_expires_at);
     et_consumed_at := revoked e.(et_consumed_at); et_agent_id := Some agent; et_return_url := e.(et_return_url);
     et_requester := e.(et_requester) |}.

(** What follows when the node is known or was created. *)
Definition finish_enrolment (q : EnrolRequest) (t : Tenant) (token installation agent : string) : Tx EnrolledAgent :=
  _ ← execute (on_enrolment_tokens (alter (consume agent) token));
  connector ← upsert_node_connector installation (default q.(er_public_key) q.(er_installation_key)) t agent;
  _ ← (if bool_decide (is_Some q.(er_physical_installation))
       then set_connector_printer_grant connector q.(er_printer_grant) q.(er_printer_ids) else mret ());
  mret {| ea_agent := agent; ea_tenant := t; ea_connector := Some connector |}.

Definition enrol_agent_connector_with_billing (secret_hash : string) (q : EnrolRequest) (enforce : bool) :
    Tx EnrolledAgent :=
  token ← fetch (λ s, find_row (λ _ e, redeemable secret_hash e) s.(devices).(enrolment_tokens)) NotFound;
  let t := token.2.(et_tenant) in
  installation ← pure_result (installation_id q);
  if negb (unset token.2.(et_consumed_at)) then
    agent ← fetch (λ _, token.2.(et_agent_id)) NotFound;
    connector ← fetch (enrolled_connector q t installation agent) NotFound;
    mret {| ea_agent := agent; ea_tenant := t; ea_connector := Some connector.1 |}
  else
    existing ← query (node_of_installation t installation);
    match existing with
    | Some (agent, _) =>
      _ ← execute (on_nodes (alter (rebind_node q.(er_name) q.(er_public_key) true) agent));
      finish_enrolment q t token.1 installation agent
    | None =>
      _ ← (if enforce then enforce_node_admission t.1 else mret ());
      let agent := fresh "agent" in
      _ ← insert_node agent {| no_tenant := t; no_name := q.(er_name); no_installation_id := installation;
            no_public_key := Some q.(er_public_key); no_connected := true; no_revoked_at := None |};
      finish_enrolment q t token.1 installation agent
    end.

(** * Browser pairing *)

Definition create_device_authorization (id : string) (row : DeviceRow) : Tx unit :=
  free ← query (λ s, bool_decide (s.(devices).(device_authorizations) !! id = None)
    && bool_decide (String.length row.(da_public_key) = 32)
    && negb (exists_row (λ _ d, bool_decide (d.(da_device_code_hash) = row.(da_device_code_hash))
              || bool_decide (d.(da_user_code_hash) = row.(da_user_code_hash))) s.(devices).(device_authorizations)));
  _ ← ensure free (Database "device_authorizations");
  execute (on_device_authorizations <[id := row]>).
Definition new_device (device_code_hash user_code_hash public_key installation name : string) (expires_at : Z) : DeviceRow :=
  {| da_device_code_hash := device_code_hash; da_user_code_hash := user_code_hash; da_public_key := public_key;
     da_installation_id := installation; da_name := name; da_state := DevicePending; da_expires_at := expires_at;
     da_tenant := None; da_approved_by := None; da_enrolled_agent := None |}.

Definition set_device (st : DeviceState) (t : option Tenant) (by_ agent : option string) (d : DeviceRow) : DeviceRow :=
  {| da_device_code_hash := d.(da_device_code_hash); da_user_code_hash := d.(da_user_code_hash);
     da_public_key := d.(da_public_key); da_installation_id := d.(da_installation_id); da_name := d.(da_name);
     da_state := st; da_expires_at := d.(da_expires_at); da_tenant := t; da_approved_by := by_;
     da_enrolled_agent := agent |}.
Definition set_device_state (st : DeviceState) (d : DeviceRow) : DeviceRow :=
  set_device st d.(da_tenant) d.(da_approved_by) d.(da_enrolled_agent) d.

(** The expiry that every lookup writes. *)
Definition expire_device (p : string → DeviceRow → bool) : Access → Access :=
  on_device_authorizations (map_imap (λ id d,
    Some (if p id d && bool_decide (d.(da_state) ∈ [DevicePending; DeviceApproved]) && (d.(da_expires_at) <=? now)%Z
          then set_device_state DeviceExpired d else d))).
Definition device_lookup (p : string → DeviceRow → bool) : Tx (string * DeviceRow) :=
  _ ← execute (expire_device p);
  fetch (λ s, find_row p s.(devices).(device_authorizations)) NotFound.
Definition device_authorization_by_hash (hash : string) : Tx (string * DeviceRow) :=
  device_lookup (λ _ d, bool_decide (d.(da_device_code_hash) = hash)).
Definition device_authorization_by_id (id : string) : Tx (string * DeviceRow) :=
  device_lookup (λ k _, bool_decide (k = id)).

Definition node_replaced_by_device_authorization (id : string) (t : Tenant) : Tx (option string) :=
  query (λ s, d ← s.(devices).(device_authorizations) !! id; fst <$> node_of_installation t d.(da_installation_id) s).

Definition decidable_device (id user_code_hash : string) (s : Access) : option DeviceRow :=
  d ← s.(devices).(device_authorizations) !! id;
  if bool_decide (d.(da_user_code_hash) = user_code_hash) && bool_decide (d.(da_state) = DevicePending)
     && (now <? d.(da_expires_at))%Z then Some d else None.
Definition approve_device_authorization (id user_code_hash : string) (t : Tenant) (by_ : string) : Tx DeviceRow :=
  d ← fetch (decidable_device id user_code_hash) NotFound;
  known ← query (tenant_exists t);
  _ ← ensure known NotFound;
  let f d := set_device DeviceApproved (Some t) (Some by_) d.(da_enrolled_agent) d in
  _ ← execute (on_device_authorizations (alter f id));
  mret (f d).
Definition deny_device_authorization (id user_code_hash : string) : Tx DeviceRow :=
  d ← fetch (decidable_device id user_code_hash) NotFound;
  _ ← execute (on_device_authorizations (alter (set_device_state DeviceDenied) id));
  mret (set_device_state DeviceDenied d).

Definition exchangeable (hash : string) (d : DeviceRow) : bool :=
  bool_decide (d.(da_device_code_hash) = hash)
  && (bool_decide (d.(da_state) = DeviceApproved) && (now <? d.(da_expires_at))%Z
      || bool_decide (d.(da_state) = DeviceConsumed) && bool_decide (is_Some d.(da_enrolled_agent))).
(** [WHERE id = $1 AND state = 'approved']. *)
Definition consume_device (agent : string) (d : DeviceRow) : DeviceRow :=
  if decide (d.(da_state) = DeviceApproved)
  then set_device DeviceConsumed d.(da_tenant) d.(da_approved_by) (Some agent) d else d.
Definition exchange_device_authorization_with_billing (hash : string) (enforce : bool) : Tx EnrolledAgent :=
  row ← fetch (λ s, find_row (λ _ d, exchangeable hash d) s.(devices).(device_authorizations)) NotFound;
  let d := row.2 in
  t ← fetch (λ _, d.(da_tenant)) (Database "ColumnDecode");
  if bool_decide (d.(da_state) = DeviceConsumed) then
    agent ← fetch (λ _, d.(da_enrolled_agent)) (Database "ColumnDecode");
    mret {| ea_agent := agent; ea_tenant := t; ea_connector := None |}
  else
    existing ← query (node_of_installation t d.(da_installation_id));
    agent ← (match existing with
             | Some (agent, _) =>
               _ ← execute (on_nodes (alter (rebind_node d.(da_name) d.(da_public_key) false) agent));
               mret agent
             | None =>
               _ ← (if enforce then enforce_node_admission t.1 else mret ());
               let agent := fresh "agent" in
               _ ← insert_node agent {| no_tenant := t; no_name := d.(da_name);
                     no_installation_id := d.(da_installation_id); no_public_key := Some d.(da_public_key);
                     no_connected := false; no_revoked_at := None |};
               mret agent
             end);
    _ ← execute (on_device_authorizations (alter (consume_device agent) row.1));
    mret {| ea_agent := agent; ea_tenant := t; ea_connector := None |}.

(** * Requests of nodes *)

Definition connector_of (agent : string) (k : NodeConnectorRow) : bool := bool_decide (k.(nc_agent) = agent).
Definition agent_for_authentication (agent : string) : Tx (Tenant * string) :=
  n ← fetch (λ s, s.(devices).(nodes) !! agent) NotFound;
  admitted ← query (λ s, negb (exists_row (λ _ k, connector_of agent k) s.(devices).(connectors))
    || exists_row (λ _ k, connector_of agent k && bool_decide (k.(nc_tenant) = n.(no_tenant))
                          && unset k.(nc_revoked_at)) s.(devices).(connectors));
  _ ← ensure (unset n.(no_revoked_at) && admitted) NotFound;
  key ← fetch (λ _, n.(no_public_key)) (InvalidData "agent has no public key");
  mret (n.(no_tenant), key).
Definition agent_for_revocation_authentication (agent : string) : Tx (Tenant * string) :=
  n ← fetch (λ s, s.(devices).(nodes) !! agent) NotFound;
  _ ← ensure (unset n.(no_revoked_at)) NotFound;
  key ← fetch (λ _, n.(no_public_key)) (InvalidData "agent has no public key");
  mret (n.(no_tenant), key).

Definition reserve_agent_nonce (agent nonce : string) (expires_at : Z) : Tx unit :=
  known ← query (λ s, bool_decide (is_Some (s.(devices).(nodes) !! agent)));
  _ ← ensure known (Database "agent_nonces_agent_id_fkey");
  taken ← query (λ s, from_option (λ e, (now <? e)%Z) false (s.(devices).(agent_nonces) !! (agent, nonce)));
  _ ← ensure (negb taken) ConcurrentStateChange;
  execute (on_agent_nonces <[(agent, nonce) := expires_at]>).

(** The sweep of expired nonces and pairing rows. *)
Definition purge_expired_authentication_state : Tx unit :=
  _ ← execute (on_agent_nonces (filter (λ e, (now < e.2)%Z)));
  execute (on_device_authorizations (filter (λ e, (now - seconds 3600 < e.2.(da_expires_at))%Z))).

(** The parts of [revoke_node_connector] and [revoke_agent] that concern these tables. *)
Definition revoke_connector_row (k : NodeConnectorRow) : NodeConnectorRow :=
  {| nc_installation := k.(nc_installation); nc_tenant := k.(nc_tenant); nc_agent := k.(nc_agent);
     nc_grant := k.(nc_grant); nc_generation := k.(nc_generation); nc_revoked_at := revoked k.(nc_revoked_at) |}.
Definition revoke_connector (t : Tenant) (agent connector : string) : Tx unit :=
  k ← fetch (λ s, s.(devices).(connectors) !! connector) NotFound;
  _ ← ensure (connector_of agent k && bool_decide (k.(nc_tenant) = t)) NotFound;
  execute (on_connectors (alter revoke_connector_row connector)).
Definition revoke_node_row (n : NodeRow) : NodeRow :=
  {| no_tenant := n.(no_tenant); no_name := n.(no_name); no_installation_id := n.(no_installation_id);
     no_public_key := n.(no_public_key); no_connected := false; no_revoked_at := Some now |}.
Definition revoke_node (t : Tenant) (agent : string) : Tx unit :=
  n ← fetch (λ s, s.(devices).(nodes) !! agent) NotFound;
  _ ← ensure (bool_decide (n.(no_tenant) = t) && unset n.(no_revoked_at)) NotFound;
  _ ← execute (on_connectors (update_where (λ k, connector_of agent k && bool_decide (k.(nc_tenant) = t))
                                revoke_connector_row));
  execute (on_nodes (alter revoke_node_row agent)).

(** * Content encryption keys *)

Definition set_key_state (st : KeyState) (k : EncryptionKeyRow) : EncryptionKeyRow :=
  {| ek_algorithm := k.(ek_algorithm); ek_material := k.(ek_material); ek_state := st; ek_changed_at := now |}.
Definition CONTENT_KEY_ALGORITHM : string := "ECDH-P256-HKDF-SHA256".
Definition retire_active_keys (t : Tenant) (agent : string) : Access → Access :=
  on_encryption_keys (map_imap (λ i k,
    Some (if bool_decide (i.1 = (t, agent)) && bool_decide (k.(ek_state) = KeyActive)
          then set_key_state KeyDecryptOnly k else k))).
Definition rotate_content_encryption_key (t : Tenant) (agent key algorithm material : string) : Tx KeyState :=
  _ ← ensure (bool_decide (algorithm = CONTENT_KEY_ALGORITHM))
        (InvalidData "unsupported content encryption key algorithm");
  existing ← query (λ s, s.(devices).(encryption_keys) !! (t, agent, key));
  match existing with
  | Some k =>
    _ ← ensure (bool_decide (k.(ek_algorithm) = algorithm) && bool_decide (k.(ek_material) = material))
          (InvalidData "content encryption key id is already bound to different material");
    _ ← ensure (bool_decide (k.(ek_state) = KeyActive))
          (InvalidData "content encryption key cannot be resurrected");
    mret k.(ek_state)
  | None =>
    _ ← execute (retire_active_keys t agent);
    known ← query (λ s, bool_decide (no_tenant <$> s.(devices).(nodes) !! agent = Some t) && tenant_references t s
      && length_between 1 255 key && length_between 80 4096 material);
    _ ← ensure known (Database "node_content_encryption_keys");
    _ ← execute (on_encryption_keys <[(t, agent, key) := {| ek_algorithm := algorithm; ek_material := material;
          ek_state := KeyActive; ek_changed_at := now |}]>);
    mret KeyActive
  end.
Definition usable_key (k : EncryptionKeyRow) : bool :=
  bool_decide (k.(ek_state) = KeyActive)
  || bool_decide (k.(ek_state) = KeyDecryptOnly) && (now - seconds 900 <? k.(ek_changed_at))%Z.
Definition content_encryption_key_for_agent_recipient (t : Tenant) (agent key : string) : Tx EncryptionKeyRow :=
  k ← fetch (λ s, s.(devices).(encryption_keys) !! (t, agent, key)) NotFound;
  _ ← ensure (usable_key k) NotFound;
  mret k.
Definition referenced_key (t : Tenant) (agent key : string) (s : Access) : bool :=
  exists_row (λ i a, bool_decide (i.1.1 = t) && bool_decide (i.2 = key) && bool_decide (a = agent))
    s.(devices).(job_key_references).

(** The references of an encrypted job, which [create_job] writes: one for each recipient of
    its manifest whose key its node may use, and at least one. *)
Definition ENCRYPTED_JOB_V3_RECIPIENT_ALGORITHM : string := "ECDH-ES-P256+HKDF-SHA256+A256GCMKW".
Definition reference_key (t : Tenant) (agent job key : string) : Tx bool :=
  admissible ← query (λ s,
    from_option (λ k, bool_decide (k.(ek_algorithm) = CONTENT_KEY_ALGORITHM) && usable_key k) false
      (s.(devices).(encryption_keys) !! (t, agent, key))
    && bool_decide (s.(devices).(job_key_references) !! (t, job, key) = None));
  _ ← (if admissible : bool then execute (on_job_key_references <[(t, job, key) := agent]>) else mret ());
  mret admissible.
Definition reference_content_keys (t : Tenant) (agent job : string) (recipients : list (string * string)) : Tx unit :=
  inserted ← for_each (λ r, reference_key t agent job r.2)
               (filter (λ r, r.1 = ENCRYPTED_JOB_V3_RECIPIENT_ALGORITHM) recipients);
  ensure (existsb id inserted) (InvalidData "encrypted job has no admissible recipient key for its node").

Definition revoke_content_encryption_key (t : Tenant) (agent key : string) : Tx unit :=
  k ← fetch (λ s, s.(devices).(encryption_keys) !! (t, agent, key)) NotFound;
  referenced ← query (referenced_key t agent key);
  _ ← ensure (bool_decide (k.(ek_state) ∈ [KeyActive; KeyDecryptOnly]) && negb referenced) NotFound;
  execute (on_encryption_keys (alter (set_key_state KeyRevoked) (t, agent, key))).
End access.
