(* ===== verification/AccessSystem.v ===== *)
(** What no transaction on the access tables takes back: rows that stay, keys and
    identities that do not change, revocations and consumed secrets that are final.  Each
    transaction is shown to respect this relation, and the control plane is any sequence of
    them. *)

From S2P Require Import Prelude Transactions AccessStore.

(** * Tables *)

(** Every row of the first table is still there, related to what it was. *)
Definition persists {K V} `{Countable K} (R : V → V → Prop) (m m' : gmap K V) : Prop :=
  ∀ k v, m !! k = Some v → ∃ v', m' !! k = Some v' ∧ R v v'.

Section persists.
Context {K V : Type} `{Countable K} (R : V → V → Prop) `{!PreOrder R}.
Implicit Types (m : gmap K V).

#[export] Instance persists_preorder : PreOrder (@persists K V _ _ R).
Proof.
  split.
  - intros m k v Hk. by exists v.
  - intros m1 m2 m3 H1 H2 k v Hk. destruct (H1 _ _ Hk) as (v' & Hk' & ?). destruct (H2 _ _ Hk') as (v'' & ? & ?).
    exists v''. split; [done|by etrans].
Qed.

Lemma persists_insert m i x : m !! i = None → persists R m (<[i := x]> m).
Proof. intros Hi k v Hk. exists v. split; [|done]. rewrite lookup_insert_ne; [done|congruence]. Qed.

Lemma persists_alter m i f : (∀ v, m !! i = Some v → R v (f v)) → persists R m (alter f i m).
Proof.
  intros Hf k v Hk. rewrite lookup_alter_row, Hk. simpl. eexists. split; [done|].
  destruct (decide (k = i)) as [->|]; [by apply Hf|done].
Qed.

Lemma persists_imap m (f : K → V → V) : (∀ k v, R v (f k v)) → persists R m (map_imap (λ k v, Some (f k v)) m).
Proof. intros Hf k v Hk. rewrite map_lookup_imap, Hk. simpl. eauto. Qed.

Lemma persists_fmap m (f : V → V) : (∀ v, R v (f v)) → persists R m (f <$> m).
Proof. intros Hf k v Hk. rewrite lookup_fmap, Hk. simpl. eauto. Qed.
End persists.

(** * What a row keeps *)

(** A time that was set stays set. *)
Definition set_once (o o' : option Z) : Prop := is_Some o → o' = o.

Record same_key (k k' : ApiKeyRow) : Prop := {
  sk_tenant : k'.(ak_tenant) = k.(ak_tenant);
  sk_prefix : k'.(ak_lookup_prefix) = k.(ak_lookup_prefix);
  sk_secret : k'.(ak_secret_hash) = k.(ak_secret_hash);
  sk_revoked : set_once k.(ak_revoked_at) k'.(ak_revoked_at)
}.
Record same_session (x x' : OwnerSessionRow) : Prop := {
  ss_secret : x'.(os_token_hash) = x.(os_token_hash);
  ss_revoked : set_once x.(os_revoked_at) x'.(os_revoked_at)
}.
Record same_workspace (w w' : WorkspaceRow) : Prop := {
  sw_owner : w'.(ws_platform) = w.(ws_platform);
  sw_cancelled : w.(ws_status) = WsCancelled → w'.(ws_status) = WsCancelled
}.
Record same_token (e e' : EnrolmentRow) : Prop := {
  st_tenant : e'.(et_tenant) = e.(et_tenant);
  st_secret : e'.(et_secret_hash) = e.(et_secret_hash);
  st_expires : e'.(et_expires_at) = e.(et_expires_at);
  st_consumed : set_once e.(et_consumed_at) e'.(et_consumed_at);
  st_agent : is_Some e.(et_consumed_at) → e'.(et_agent_id) = e.(et_agent_id)
}.
Record same_node (n n' : NodeRow) : Prop := {
  sn_tenant : n'.(no_tenant) = n.(no_tenant);
  sn_installation : n'.(no_installation_id) = n.(no_installation_id);
  sn_revoked : is_Some n.(no_revoked_at) → is_Some n'.(no_revoked_at)
}.
Record same_connector (k k' : NodeConnectorRow) : Prop := {
  sc_tenant : k'.(nc_tenant) = k.(nc_tenant);
  sc_agent : k'.(nc_agent) = k.(nc_agent);
  sc_generation : (k.(nc_generation) ≤ k'.(nc_generation))%Z
}.
(** The order of a pairing: a decision is final, and so is its tenant. *)
Definition device_next (st st' : DeviceState) : bool :=
  match st, st' with
  | DevicePending, _ => true
  | DeviceApproved, (DeviceApproved | DeviceConsumed | DeviceExpired) => true
  | _, _ => bool_decide (st = st')
  end.
Record same_device (d d' : DeviceRow) : Prop := {
  sd_code : d'.(da_device_code_hash) = d.(da_device_code_hash);
  sd_key : d'.(da_public_key) = d.(da_public_key);
  sd_expires : d'.(da_expires_at) = d.(da_expires_at);
  sd_next : device_next d.(da_state) d'.(da_state) = true;
  sd_tenant : d.(da_state) ≠ DevicePending → d'.(da_tenant) = d.(da_tenant);
  sd_by : d.(da_state) ≠ DevicePending → d'.(da_approved_by) = d.(da_approved_by);
  sd_agent : d.(da_state) = DeviceConsumed → d'.(da_enrolled_agent) = d.(da_enrolled_agent)
}.
(** A key is retired, then revoked, and keeps its material. *)
Definition key_rank (st : KeyState) : nat :=
  match st with KeyActive => 0 | KeyDecryptOnly => 1 | KeyRevoked => 2 | KeyDestroyed => 3 end.
Record same_content_key (k k' : EncryptionKeyRow) : Prop := {
  sck_material : k'.(ek_material) = k.(ek_material);
  sck_rank : key_rank k.(ek_state) ≤ key_rank k'.(ek_state)
}.

#[export] Instance same_key_preorder : PreOrder same_key.
Proof.
  split; [by intros []|]. intros ??? [] []. split; [congruence..|].
  unfold set_once in *. intros Hs. rewrite <- sk_revoked0 by done. apply sk_revoked1. by rewrite sk_revoked0.
Qed.
#[export] Instance same_session_preorder : PreOrder same_session.
Proof.
  split; [by intros []|]. intros ??? [] []. split; [congruence|].
  unfold set_once in *. intros Hs. rewrite <- ss_revoked0 by done. apply ss_revoked1. by rewrite ss_revoked0.
Qed.
#[export] Instance same_workspace_preorder : PreOrder same_workspace.
Proof. split; [by intros []|]. intros ??? [] []. split; [congruence|auto]. Qed.
#[export] Instance same_token_preorder : PreOrder same_token.
Proof.
  split; [by intros []|]. intros ??? [] []. split; [congruence..| |].
  - unfold set_once in *. intros Hs. rewrite <- st_consumed0 by done. apply st_consumed1. by rewrite st_consumed0.
  - intros Hs. rewrite <- st_agent0 by done. apply st_agent1. by rewrite st_consumed0.
Qed.
#[export] Instance same_node_preorder : PreOrder same_node.
Proof. split; [by intros []|]. intros ??? [] []. split; [congruence..|auto]. Qed.
#[export] Instance same_connector_preorder : PreOrder same_connector.
Proof. split; [by intros []|]. intros ??? [] []. split; [congruence..|lia]. Qed.
#[export] Instance same_device_preorder : PreOrder same_device.
Proof.
  split.
  - intros d. split; try done. by destruct d.(da_state).
  - intros x y z [] []. split; try congruence.
    + destruct x.(da_state), y.(da_state), z.(da_state); done.
    + intros Hx. rewrite <- sd_tenant0 by done. apply sd_tenant1. by destruct x.(da_state), y.(da_state).
    + intros Hx. rewrite <- sd_by0 by done. apply sd_by1. by destruct x.(da_state), y.(da_state).
    + intros Hx. rewrite <- sd_agent0 by done. apply sd_agent1. rewrite Hx in sd_next0. by destruct y.(da_state).
Qed.
#[export] Instance same_content_key_preorder : PreOrder same_content_key.
Proof. split; [by intros []|]. intros ??? [] []. split; [congruence|lia]. Qed.

(** * The tables

    [u] is a time that has not come: what expires is kept until then. *)
Record evolves (u : Z) (s s' : Access) : Prop := {
  e_workspaces : persists same_workspace s.(accounts).(workspaces) s'.(accounts).(workspaces);
  e_keys : persists same_key s.(accounts).(api_keys) s'.(accounts).(api_keys);
  e_sessions : persists same_session s.(accounts).(owner_sessions) s'.(accounts).(owner_sessions);
  e_tokens : persists same_token s.(devices).(enrolment_tokens) s'.(devices).(enrolment_tokens);
  e_nodes : persists same_node s.(devices).(nodes) s'.(devices).(nodes);
  e_installations : persists eq s.(devices).(installations) s'.(devices).(installations);
  e_connectors : persists same_connector s.(devices).(connectors) s'.(devices).(connectors);
  e_content_keys : persists same_content_key s.(devices).(encryption_keys) s'.(devices).(encryption_keys);
  e_references : s.(devices).(job_key_references) ⊆ s'.(devices).(job_key_references);
  e_devices : ∀ id d, s.(devices).(device_authorizations) !! id = Some d → (u ≤ d.(da_expires_at) + seconds 3600)%Z →
    ∃ d', s'.(devices).(device_authorizations) !! id = Some d' ∧ same_device d d';
  e_nonces : ∀ k e, s.(devices).(agent_nonces) !! k = Some e → (u ≤ e)%Z → s'.(devices).(agent_nonces) !! k = Some e
}.

#[export] Instance evolves_preorder u : PreOrder (evolves u).
Proof.
  split.
  - intros s. split; try done. intros id d Hd _. by exists d.
  - intros s1 s2 s3 [] []. split; try by etrans.
    + intros id d Hd Hu. destruct (e_devices0 _ _ Hd Hu) as (d' & Hd' & Hs).
      destruct (e_devices1 _ _ Hd') as (d'' & ? & ?); [by rewrite (sd_expires _ _ Hs)|].
      exists d''. split; [done|by etrans].
    + eauto.
Qed.

(** A change of one table. *)
Ltac one_table := split; try first [done | by (let d := fresh in intros ? d ? _; exists d)]; simpl.
Ltac persist :=
  first [apply persists_insert; [apply _|] | apply persists_alter; [apply _|] | apply persists_fmap | apply persists_imap].
Create HintDb access.
Ltac respect := preserve ltac:(solve [auto 2 with access]).

Section operations.
Context (u now : Z) (fresh sha256 : string → string).
Hypothesis Hnow : (now < u)%Z.

(** ** Accounts *)

Lemma revoked_set_once o : set_once o (revoked now o).
Proof. intros [x ->]. done. Qed.
Lemma revoked_is_Some o : is_Some (revoked now o).
Proof. destruct o; by eexists. Qed.

Lemma create_api_key_respects t id prefix secret scopes expires :
  preserves (evolves u) (create_api_key t id prefix secret scopes expires).
Proof.
  intros s s' a H. unfold create_api_key in H. tx H. checks.
  one_table. by persist.
Qed.
Lemma revoke_api_key_respects t id : preserves (evolves u) (revoke_api_key now t id).
Proof.
  unfold revoke_api_key. respect. apply preserves_execute. intros ?. one_table.
  persist. intros k _. split; [done..|]. apply revoked_set_once.
Qed.

Lemma insert_workspace_respects id row : preserves (evolves u) (insert_workspace id row).
Proof.
  intros s s' a H. unfold insert_workspace in H. tx H. checks.
  one_table. by persist.
Qed.
Lemma insert_environment_respects id w kind : preserves (evolves u) (insert_environment id w kind).
Proof. unfold insert_environment. respect. apply preserves_execute. intros ?. by one_table. Qed.
Hint Resolve insert_workspace_respects insert_environment_respects : access.

Lemma bootstrap_local_owner_respects t credential hash name slug user email :
  preserves (evolves u) (bootstrap_local_owner t credential hash name slug user email).
Proof. unfold bootstrap_local_owner. respect; apply preserves_execute; intros ?; by one_table. Qed.

Lemma insert_owner_session_respects id w credential hash expires :
  preserves (evolves u) (insert_owner_session id w credential hash expires).
Proof.
  intros s s' a H. unfold insert_owner_session in H. tx H. checks.
  one_table. by persist.
Qed.
Hint Resolve insert_owner_session_respects : access.
Lemma revoke_session_evolves id s : evolves u s (on_owner_sessions (alter (revoke_session now) id) s).
Proof. one_table. persist. intros x _. split; [done|]. apply revoked_set_once. Qed.
Lemma create_local_owner_session_respects id w credential hash expires :
  preserves (evolves u) (create_local_owner_session id w credential hash expires).
Proof. unfold create_local_owner_session. respect. Qed.
Lemma rotate_local_owner_session_respects w old new credential hash expires :
  preserves (evolves u) (rotate_local_owner_session now w old new credential hash expires).
Proof. unfold rotate_local_owner_session. respect. apply preserves_execute, revoke_session_evolves. Qed.
Lemma revoke_local_owner_session_respects w id : preserves (evolves u) (revoke_local_owner_session now w id).
Proof.
  apply preserves_execute. intros ?. case_match; [|done]. case_decide; [|done]. apply revoke_session_evolves.
Qed.

(** ** Platform accounts *)

Lemma put_grant_respects upsert a t scopes expires : preserves (evolves u) (put_grant upsert a t scopes expires).
Proof. unfold put_grant. respect. apply preserves_execute. intros ?. by one_table. Qed.
Lemma insert_platform_account_respects id name secret owner : preserves (evolves u) (insert_platform_account id name secret owner).
Proof. unfold insert_platform_account. respect. apply preserves_execute. intros ?. by one_table. Qed.
Hint Resolve put_grant_respects insert_platform_account_respects : access.
Lemma create_platform_service_account_respects id name secret t scopes expires :
  preserves (evolves u) (create_platform_service_account_with_grant id name secret t scopes expires).
Proof. unfold create_platform_service_account_with_grant. respect. Qed.
Lemma grant_environments_respects upsert a w message : preserves (evolves u) (grant_environments upsert a w message).
Proof. unfold grant_environments. respect. Qed.
Hint Resolve grant_environments_respects : access.
Lemma enable_platform_service_account_respects id name secret w :
  preserves (evolves u) (enable_platform_service_account id name secret w).
Proof. unfold enable_platform_service_account. respect. Qed.
Lemma upsert_platform_account_respects a external name slug :
  preserves (evolves u) (upsert_platform_account fresh a external name slug).
Proof.
  unfold upsert_platform_account, upsert_child_workspace. respect. apply preserves_execute. intros ?. one_table.
  by persist.
Qed.
Lemma archive_platform_account_respects a external : preserves (evolves u) (archive_platform_account now a external).
Proof.
  unfold archive_platform_account. respect; apply preserves_execute; intros ?; one_table. by persist.
Qed.
Lemma revoke_platform_workspace_grant_respects a t : preserves (evolves u) (revoke_platform_workspace_grant now a t).
Proof. unfold revoke_platform_workspace_grant. respect. apply preserves_execute. intros ?. by one_table. Qed.
Lemma rotate_platform_service_account_respects a secret : preserves (evolves u) (rotate_platform_service_account a secret).
Proof. unfold rotate_platform_service_account. respect. apply preserves_execute. intros ?. by one_table. Qed.
Lemma revoke_platform_service_account_respects a : preserves (evolves u) (revoke_platform_service_account now a).
Proof. unfold revoke_platform_service_account. respect. apply preserves_execute. intros ?. by one_table. Qed.
Lemma delete_platform_service_account_respects a : preserves (evolves u) (delete_platform_service_account a).
Proof.
  unfold delete_platform_service_account. respect; apply preserves_execute; intros ?; one_table.
  by persist.
Qed.

(** ** Enrolment and nodes *)

Lemma insert_enrolment_respects id row : preserves (evolves u) (insert_enrolment id row).
Proof.
  intros s s' a H. unfold insert_enrolment in H. tx H. checks.
  one_table. by persist.
Qed.
Hint Resolve insert_enrolment_respects : access.
Lemma create_enrolment_respects id t secret expires : preserves (evolves u) (create_enrolment id t secret expires).
Proof. unfold create_enrolment. respect. Qed.
Lemma create_connect_enrolment_respects id t secret expires url requester :
  preserves (evolves u) (create_connect_enrolment id t secret expires url requester).
Proof. unfold create_connect_enrolment. respect. Qed.

Lemma enforce_node_admission_respects w : preserves (evolves u) (enforce_node_admission w).
Proof.
  unfold enforce_node_admission. respect. apply preserves_execute. intros s. case_match; [done|]. by one_table.
Qed.
Lemma insert_node_respects id row : preserves (evolves u) (insert_node id row).
Proof.
  intros s s' a H. unfold insert_node in H. tx H. checks.
  one_table. by persist.
Qed.
Lemma rebind_node_evolves name key connected id s :
  evolves u s (on_nodes (alter (rebind_node name key connected) id) s).
Proof. one_table. by persist. Qed.
Lemma upsert_installation_respects key public_key : preserves (evolves u) (upsert_installation fresh key public_key).
Proof.
  intros s s' a H. unfold upsert_installation in H. txs H; [done|]. checks.
  one_table. by persist.
Qed.
Hint Resolve enforce_node_admission_respects insert_node_respects upsert_installation_respects : access.

Lemma upsert_node_connector_respects key public_key t agent :
  preserves (evolves u) (upsert_node_connector fresh key public_key t agent).
Proof.
  intros s s' a H. unfold upsert_node_connector in H. tx_step H.
  etrans; [by eapply upsert_installation_respects|]. txs H.
  - one_table. persist. intros k _. split; [done..|]. simpl. case_match; lia.
  - checks. one_table. by persist.
Qed.
Lemma set_connector_printer_grant_respects connector g ids : preserves (evolves u) (set_connector_printer_grant connector g ids).
Proof.
  unfold set_connector_printer_grant. respect; apply preserves_execute; intros ?; one_table; by persist.
Qed.
Hint Resolve upsert_node_connector_respects set_connector_printer_grant_respects : access.

(** The token is consumed once. *)
Definition unconsumed (token : string) (s : Access) : Prop :=
  ∀ e, s.(devices).(enrolment_tokens) !! token = Some e → e.(et_consumed_at) = None.

Lemma finish_enrolment_evolves q t token installation agent s s' a :
  unconsumed token s → finish_enrolment now fresh q t token installation agent s = Ok (s', a) → evolves u s s'.
Proof.
  intros Hu H. unfold finish_enrolment in H. tx_step H.
  trans (on_enrolment_tokens (alter (consume now agent) token) s).
  - one_table. persist. intros e He. apply Hu in He. split; try done; intros [? Hs]; congruence.
  - revert H. generalize (on_enrolment_tokens (alter (consume now agent) token) s). intros s1.
    assert (Hr : preserves (evolves u) (connector ← upsert_node_connector fresh installation
        (default q.(er_public_key) q.(er_installation_key)) t agent;
      _ ← (if bool_decide (is_Some q.(er_physical_installation))
           then set_connector_printer_grant connector q.(er_printer_grant) q.(er_printer_ids) else mret ());
      mret {| ea_agent := agent; ea_tenant := t; ea_connector := Some connector |})) by respect.
    apply Hr.
Qed.

Lemma enforce_node_admission_tokens w s s' a :
  enforce_node_admission w s = Ok (s', a) → s'.(devices) = s.(devices).
Proof. intros H. unfold enforce_node_admission in H. tx H. by case_match. Qed.
Lemma insert_node_tokens id row s s' a :
  insert_node id row s = Ok (s', a) → s'.(devices).(enrolment_tokens) = s.(devices).(enrolment_tokens).
Proof. intros H. unfold insert_node in H. by tx H. Qed.

Lemma enrol_agent_connector_respects secret q enforce :
  preserves (evolves u) (enrol_agent_connector_with_billing now fresh sha256 secret q enforce).
Proof.
  intros s s' a H. unfold enrol_agent_connector_with_billing in H. tx H. destruct x as [token e]. simpl in H.
  apply find_row_Some in Hx as [He _].
  destruct (negb (unset e.(et_consumed_at))) eqn:Hc; [by tx H|].
  apply negb_false_iff, bool_decide_eq_true in Hc.
  assert (Hu : unconsumed token s) by (intros ? Ht; congruence).
  tx_step H. destruct (node_of_installation _ _ s) as [[agent n]|].
  - tx_step H. etrans; [apply rebind_node_evolves|]. by eapply finish_enrolment_evolves.
  - tx_step H. assert (s0.(devices) = s.(devices)) as Hd.
    { destruct enforce; [by eapply enforce_node_admission_tokens|by tx Hx]. }
    etrans; [eapply (_ : preserves (evolves u) _), Hx|].
    tx_step H. etrans; [by eapply insert_node_respects|]. eapply finish_enrolment_evolves; [|done].
    intros e0 Ht. erewrite insert_node_tokens in Ht by done. rewrite Hd in Ht. by apply Hu.
    Unshelve. destruct enforce; respect.
Qed.

(** ** Pairing *)

Lemma devices_evolve s f :
  persists same_device s.(devices).(device_authorizations) (f s.(devices).(device_authorizations)) →
  evolves u s (on_device_authorizations f s).
Proof. intros Hp. one_table. intros id d Hd _. by apply Hp. Qed.

Lemma create_device_authorization_respects id row : preserves (evolves u) (create_device_authorization id row).
Proof.
  intros s s' a H. unfold create_device_authorization in H. tx H. checks. apply devices_evolve. by persist.
Qed.
Lemma device_lookup_respects p : preserves (evolves u) (device_lookup now p).
Proof.
  unfold device_lookup. respect. apply preserves_execute. intros s. apply devices_evolve. persist.
  intros id d. destruct (_ && _) eqn:Hp; [|done]. checks.
  split; try done. simpl. destruct d.(da_state); first [done|set_solver].
Qed.
Hint Resolve device_lookup_respects : access.
Lemma device_authorization_by_hash_respects hash : preserves (evolves u) (device_authorization_by_hash now hash).
Proof. unfold device_authorization_by_hash. respect. Qed.
Lemma device_authorization_by_id_respects id : preserves (evolves u) (device_authorization_by_id now id).
Proof. unfold device_authorization_by_id. respect. Qed.

Lemma decidable_device_Some id code s d :
  decidable_device now id code s = Some d →
  s.(devices).(device_authorizations) !! id = Some d ∧ d.(da_state) = DevicePending ∧ (now < d.(da_expires_at))%Z.
Proof.
  unfold decidable_device. intros Hd. apply bind_Some in Hd as (d' & Hd & H). case_match; simplify_eq. checks.
  split_and!; [done..|lia].
Qed.
Lemma approve_device_authorization_respects id code t by_ :
  preserves (evolves u) (approve_device_authorization now id code t by_).
Proof.
  intros s s' a H. unfold approve_device_authorization in H. tx H. apply decidable_device_Some in Hx as (Hd & Hp & _).
  apply devices_evolve. persist. intros d ?. simplify_eq. split; rewrite ?Hp; done.
Qed.
Lemma deny_device_authorization_respects id code : preserves (evolves u) (deny_device_authorization now id code).
Proof.
  intros s s' a H. unfold deny_device_authorization in H. tx H. apply decidable_device_Some in Hx as (Hd & Hp & _).
  apply devices_evolve. persist. intros d ?. simplify_eq. split; rewrite ?Hp; done.
Qed.
Lemma consume_device_same agent d : same_device d (consume_device agent d).
Proof. unfold consume_device. case_decide as Hd; [|done]. split; rewrite ?Hd; done. Qed.
Lemma exchange_device_authorization_respects hash enforce :
  preserves (evolves u) (exchange_device_authorization_with_billing now fresh hash enforce).
Proof.
  unfold exchange_device_authorization_with_billing. respect; apply preserves_execute; intros ?;
    first [apply rebind_node_evolves|apply devices_evolve; persist; intros ? _; apply consume_device_same].
Qed.

(** ** Requests and revocations *)

Lemma reserve_agent_nonce_respects agent nonce expires : preserves (evolves u) (reserve_agent_nonce now agent nonce expires).
Proof.
  intros s s' a H. unfold reserve_agent_nonce in H. tx H. checks. one_table.
  intros k e Hk He. rewrite lookup_insert_ne; [done|]. intros <-. rewrite Hk in Hx0. simpl in Hx0. lia.
Qed.
Lemma purge_expired_authentication_state_respects : preserves (evolves u) (purge_expired_authentication_state now).
Proof.
  unfold purge_expired_authentication_state. respect; apply preserves_execute; intros ?; one_table.
  - intros k e Hk He. apply map_lookup_filter_Some. split; [done|]. simpl. lia.
  - intros k d Hk Hd. exists d. split; [|done]. apply map_lookup_filter_Some. split; [done|]. simpl.
    unfold seconds in *. lia.
Qed.
Lemma revoke_connector_respects t agent connector : preserves (evolves u) (revoke_connector now t agent connector).
Proof. unfold revoke_connector. respect. apply preserves_execute. intros ?. one_table. by persist. Qed.
Lemma revoke_node_respects t agent : preserves (evolves u) (revoke_node now t agent).
Proof.
  unfold revoke_node. respect; apply preserves_execute; intros ?; one_table.
  - apply persists_fmap. intros k. by case_match.
  - persist. intros n _. by split.
Qed.

(** ** Content keys *)

Lemma set_key_state_same st k : key_rank k.(ek_state) ≤ key_rank st → same_content_key k (set_key_state now st k).
Proof. by split. Qed.
Lemma rotate_content_encryption_key_respects t agent key algorithm material :
  preserves (evolves u) (rotate_content_encryption_key now t agent key algorithm material).
Proof.
  intros s s' a H. unfold rotate_content_encryption_key in H. txs H; [done|]. etrans.
  - instantiate (1 := retire_active_keys now t agent s). one_table. persist. intros i k.
    case_match; [|done]. checks. apply set_key_state_same. destruct k.(ek_state); simpl; first [lia|done].
  - one_table. persist. by rewrite map_lookup_imap, Heqo.
Qed.
Lemma reference_key_respects t agent job key : preserves (evolves u) (reference_key now t agent job key).
Proof.
  intros s s' a H. unfold reference_key in H. tx H. destruct (_ && _) eqn:Hc; tx Hx; [|done]. checks. one_table. by apply insert_subseteq.
Qed.
Hint Resolve reference_key_respects : access.
Lemma reference_content_keys_respects t agent job recipients :
  preserves (evolves u) (reference_content_keys now t agent job recipients).
Proof. unfold reference_content_keys. respect. Qed.
Lemma revoke_content_encryption_key_respects t agent key : preserves (evolves u) (revoke_content_encryption_key now t agent key).
Proof.
  intros s s' a H. unfold revoke_content_encryption_key in H. tx H. checks. one_table. persist.
  intros k Hk. rewrite Hx in Hk. injection Hk as <-. apply set_key_state_same. destruct x.(ek_state); first [simpl; lia|set_solver].
Qed.
End operations.
