(* ===== verification/AccessMachine.v ===== *)
(** The access tables as a state machine: the uniqueness that their indexes and statements
    keep, and every sequence of committed transactions.

    A transaction runs at its own time, and [runs u] is what happens before time [u]. *)

From S2P Require Import Prelude Transactions AccessStore AccessSystem.

(** * Unique columns *)

(** Of the rows that satisfy [p], no two agree on [f]. *)
Definition unique_on {K V X} `{Countable K} (p : V → bool) (f : V → X) (m : gmap K V) : Prop :=
  ∀ i j x y, m !! i = Some x → m !! j = Some y → p x = true → p y = true → f x = f y → i = j.

Section unique.
Context {K V X : Type} `{Countable K} (p : V → bool) (f : V → X).
Implicit Types (m : gmap K V).

Lemma unique_on_insert m i x :
  unique_on p f m → (∀ j y, m !! j = Some y → p y = true → p x = true → f y = f x → j = i) →
  unique_on p f (<[i := x]> m).
Proof.
  intros Hm Hx j k y z. rewrite !lookup_insert.
  repeat case_decide; intros; simplify_eq; [done|naive_solver..|by eapply Hm].
Qed.

(** Rows that were rewritten or left out. *)
Lemma unique_on_image m m' :
  unique_on p f m →
  (∀ i y, m' !! i = Some y → p y = true → ∃ x, m !! i = Some x ∧ p x = true ∧ f x = f y) → unique_on p f m'.
Proof.
  intros Hm Hi i j y z Hy Hz Py Pz Hyz. destruct (Hi _ _ Hy Py) as (x & Hx & Px & Hxy).
  destruct (Hi _ _ Hz Pz) as (x' & Hx' & Px' & Hxz). eapply (Hm i j); eauto. congruence.
Qed.

Lemma unique_on_imap m (g : K → V → V) :
  unique_on p f m → (∀ i x, m !! i = Some x → p (g i x) = true → p x = true ∧ f x = f (g i x)) →
  unique_on p f (map_imap (λ i x, Some (g i x)) m).
Proof.
  intros Hm Hg. apply (unique_on_image m); [done|]. intros i y. rewrite map_lookup_imap.
  destruct (m !! i) as [x|] eqn:Hx; intros [= <-] Py. exists x. naive_solver.
Qed.
Lemma unique_on_fmap m (g : V → V) :
  unique_on p f m → (∀ x, p (g x) = true → p x = true ∧ f x = f (g x)) → unique_on p f (g <$> m).
Proof.
  intros Hm Hg. apply (unique_on_image m); [done|]. intros i y. rewrite lookup_fmap.
  destruct (m !! i) as [x|] eqn:Hx; intros [= <-] Py. exists x. naive_solver.
Qed.
Lemma unique_on_alter m i (g : V → V) :
  unique_on p f m → (∀ x, m !! i = Some x → p (g x) = true → p x = true ∧ f x = f (g x)) →
  unique_on p f (alter g i m).
Proof.
  intros Hm Hg. apply (unique_on_image m); [done|]. intros j y. rewrite lookup_alter_row.
  destruct (m !! j) as [x|] eqn:Hx; intros [= <-] Py. exists x. case_decide; naive_solver.
Qed.
Lemma unique_on_filter m P `{!∀ e, Decision (P e)} : unique_on p f m → unique_on p f (filter P m).
Proof.
  intros Hm. apply (unique_on_image m); [done|]. intros i y Hy Py. apply map_lookup_filter_Some in Hy as [Hy _].
  eauto.
Qed.
End unique.

(** A row that was looked for is the only one. *)
Lemma find_row_unique {K V X} `{Countable K} (p : V → bool) (f : V → X) (q : K → V → bool) (m : gmap K V) i x :
  unique_on p f m → m !! i = Some x → p x = true → q i x = true →
  (∀ j y, q j y = true → p y = true ∧ f y = f x) → find_row q m = Some (i, x).
Proof.
  intros Hm Hi Px Hq Hall. destruct (find_row q m) as [[j y]|] eqn:Hf.
  - apply find_row_Some in Hf as [Hj Hy]. destruct (Hall _ _ Hy) as [Py Hyx].
    assert (j = i) as -> by by eapply Hm. congruence.
  - unfold find_row in Hf. assert (Hin : (i, x) ∈ select_rows q m) by by apply elem_of_select_rows.
    destruct (select_rows q m); [by apply elem_of_nil in Hin|done].
Qed.
(** * Well-formed tables *)

Definition always {V} (x : V) : bool := true.
Definition node_live (n : NodeRow) : bool := unset n.(no_revoked_at).
Definition key_active (k : EncryptionKeyRow) : bool := bool_decide (k.(ek_state) = KeyActive).

(** Every connector is of a node. *)
Definition of_nodes (connectors : gmap string NodeConnectorRow) (nodes : gmap string NodeRow) : Prop :=
  ∀ c k, connectors !! c = Some k → is_Some (nodes !! k.(nc_agent)).
(** A pairing that was approved has a tenant and the user who approved it. *)
Definition decided (d : DeviceRow) : Prop :=
  d.(da_state) = DeviceApproved ∨ d.(da_state) = DeviceConsumed → is_Some d.(da_tenant) ∧ is_Some d.(da_approved_by).

Record wf (s : Access) : Prop := {
  wf_prefixes : unique_on always ak_lookup_prefix s.(accounts).(api_keys);
  wf_accounts : unique_on account_active pa_owner_workspace s.(accounts).(platform_accounts);
  wf_nodes : unique_on node_live (λ n, (n.(no_tenant), n.(no_installation_id))) s.(devices).(nodes);
  wf_connectors : unique_on always (λ k, (k.(nc_tenant), k.(nc_agent))) s.(devices).(connectors);
  wf_installations : unique_on always (λ k, (k.(nc_installation), k.(nc_tenant))) s.(devices).(connectors);
  wf_codes : unique_on always da_device_code_hash s.(devices).(device_authorizations);
  wf_installation_keys : unique_on always in_key s.(devices).(installations);
  wf_connector_nodes : of_nodes s.(devices).(connectors) s.(devices).(nodes);
  wf_decided : map_Forall (λ _, decided) s.(devices).(device_authorizations);
  wf_active_keys : ∀ t agent i j x y,
    s.(devices).(encryption_keys) !! (t, agent, i) = Some x → s.(devices).(encryption_keys) !! (t, agent, j) = Some y →
    key_active x = true → key_active y = true → i = j;
  wf_references : ∀ t job key agent,
    s.(devices).(job_key_references) !! (t, job, key) = Some agent →
    ∃ k, s.(devices).(encryption_keys) !! (t, agent, key) = Some k ∧ key_rank k.(ek_state) ≤ 1
}.
Definition kept_wf : relation Access := λ s s', wf s → wf s'.
#[export] Instance kept_wf_preorder : PreOrder kept_wf.
Proof. unfold kept_wf. split; [by intros ?|]. intros ?????. auto. Qed.

Lemma of_nodes_connectors ks ks' ns :
  of_nodes ks ns → (∀ c k', ks' !! c = Some k' → ∃ k, ks !! c = Some k ∧ k.(nc_agent) = k'.(nc_agent)) → of_nodes ks' ns.
Proof. intros Ho Hi c k' Hk'. destruct (Hi _ _ Hk') as (k & Hk & <-). by eapply Ho. Qed.
Lemma of_nodes_alter ks ns f i :
  of_nodes ks ns → (∀ k, (f k).(nc_agent) = k.(nc_agent)) → of_nodes (alter f i ks) ns.
Proof.
  intros Ho Hf. apply (of_nodes_connectors ks); [done|]. intros c k'. rewrite lookup_alter_row.
  intros (k & Hk & ->)%fmap_Some. exists k. case_decide; by rewrite ?Hf.
Qed.
Lemma of_nodes_nodes ks ns ns' : of_nodes ks ns → (∀ i, is_Some (ns !! i) → is_Some (ns' !! i)) → of_nodes ks ns'.
Proof. intros Ho Hi c k Hk. by eapply Hi, Ho. Qed.
Lemma of_nodes_nodes_alter ks ns f i : of_nodes ks ns → of_nodes ks (alter f i ns).
Proof. intros Ho. eapply of_nodes_nodes; [done|]. intros j. by rewrite lookup_alter_is_Some. Qed.
Lemma decided_alter f i (m : gmap string DeviceRow) :
  map_Forall (λ _, decided) m → (∀ d, m !! i = Some d → decided d → decided (f d)) →
  map_Forall (λ _, decided) (alter f i m).
Proof.
  intros Hm Hf j d'. rewrite lookup_alter_row. intros (d & Hd & ->)%fmap_Some. case_decide as Hj; [subst|]; eauto.
Qed.

Create HintDb access_wf.
Ltac keep := preserve ltac:(solve [auto 2 with access_wf]).
(** A change of tables without a condition, or of one that has. *)
Ltac wf_table := intros []; split; try done; simpl.
Ltac wf_done := apply preserves_execute; intros ?; by wf_table.
Ltac wf_row := first [apply of_nodes_alter | apply of_nodes_nodes_alter | apply decided_alter | apply unique_on_alter | apply unique_on_fmap | apply unique_on_imap | apply unique_on_filter]; [done|..].

Section operations.
Context (now : Z) (fresh sha256 : string → string).
Local Abbreviation keeps := (preserves kept_wf).

(** ** Accounts *)

Lemma create_api_key_keeps t id prefix secret scopes expires : keeps (create_api_key t id prefix secret scopes expires).
Proof.
  intros s s' a H. unfold create_api_key in H. tx H. checks. wf_table. apply unique_on_insert; [done|].
  intros j y Hy _ _ He. match goal with E : exists_row _ _ = false |- _ => rewrite exists_row_false in E;
    specialize (E _ _ Hy); by rewrite bool_decide_eq_false in E end.
Qed.
Lemma revoke_api_key_keeps t id : keeps (revoke_api_key now t id).
Proof. unfold revoke_api_key. keep. apply preserves_execute. intros ?. wf_table. by wf_row. Qed.

Lemma insert_workspace_keeps id row : keeps (insert_workspace id row).
Proof. unfold insert_workspace. keep. wf_done. Qed.
Lemma insert_environment_keeps id w kind : keeps (insert_environment id w kind).
Proof. unfold insert_environment. keep. wf_done. Qed.
Hint Resolve insert_workspace_keeps insert_environment_keeps : access_wf.
Lemma bootstrap_local_owner_keeps t credential hash name slug user email :
  keeps (bootstrap_local_owner t credential hash name slug user email).
Proof. unfold bootstrap_local_owner. keep; wf_done. Qed.
Lemma insert_owner_session_keeps id w credential hash expires : keeps (insert_owner_session id w credential hash expires).
Proof. unfold insert_owner_session. keep. wf_done. Qed.
Hint Resolve insert_owner_session_keeps : access_wf.
Lemma create_local_owner_session_keeps id w credential hash expires :
  keeps (create_local_owner_session id w credential hash expires).
Proof. unfold create_local_owner_session. keep. Qed.
Lemma rotate_local_owner_session_keeps w old new credential hash expires :
  keeps (rotate_local_owner_session now w old new credential hash expires).
Proof. unfold rotate_local_owner_session. keep. wf_done. Qed.
Lemma revoke_local_owner_session_keeps w id : keeps (revoke_local_owner_session now w id).
Proof. apply preserves_execute. intros s. case_match; [|done]. case_decide; [|done]. by wf_table. Qed.

Lemma put_grant_keeps upsert a t scopes expires : keeps (put_grant upsert a t scopes expires).
Proof. unfold put_grant. keep. wf_done. Qed.
Lemma insert_platform_account_keeps id name secret owner : keeps (insert_platform_account id name secret owner).
Proof.
  intros s s' a H. unfold insert_platform_account in H. tx H. checks. wf_table. apply unique_on_insert; [done|].
  intros j y Hy Hj _ He. match goal with E : account_of_owner _ _ = None |- _ => unfold account_of_owner in E;
    rewrite find_row_None in E; specialize (E _ _ Hy); by rewrite Hj, bool_decide_true in E end.
Qed.
Hint Resolve put_grant_keeps insert_platform_account_keeps : access_wf.
Lemma create_platform_service_account_keeps id name secret t scopes expires :
  keeps (create_platform_service_account_with_grant id name secret t scopes expires).
Proof. unfold create_platform_service_account_with_grant. keep. Qed.
Lemma grant_environments_keeps upsert a w message : keeps (grant_environments upsert a w message).
Proof. unfold grant_environments. keep. Qed.
Hint Resolve grant_environments_keeps : access_wf.
Lemma enable_platform_service_account_keeps id name secret w : keeps (enable_platform_service_account id name secret w).
Proof. unfold enable_platform_service_account. keep. Qed.
Lemma upsert_platform_account_keeps a external name slug : keeps (upsert_platform_account fresh a external name slug).
Proof. unfold upsert_platform_account, upsert_child_workspace. keep. wf_done. Qed.
Lemma archive_platform_account_keeps a external : keeps (archive_platform_account now a external).
Proof. unfold archive_platform_account. keep; wf_done. Qed.
Lemma revoke_platform_workspace_grant_keeps a t : keeps (revoke_platform_workspace_grant now a t).
Proof. unfold revoke_platform_workspace_grant. keep. wf_done. Qed.
Lemma rotate_platform_service_account_keeps a secret : keeps (rotate_platform_service_account a secret).
Proof. unfold rotate_platform_service_account. keep. apply preserves_execute. intros ?. wf_table. by wf_row. Qed.
Lemma revoke_platform_service_account_keeps a : keeps (revoke_platform_service_account now a).
Proof.
  unfold revoke_platform_service_account. keep. apply preserves_execute. intros ?. wf_table. wf_row.
  intros x _. unfold account_active, revoke_account, unset. simpl. by destruct x.(pa_revoked_at).
Qed.
Lemma delete_platform_service_account_keeps a : keeps (delete_platform_service_account a).
Proof.
  unfold delete_platform_service_account. keep; [|wf_done..].
  apply preserves_execute. intros ?. wf_table. eapply unique_on_image; [done|].
  intros i y Hy Py. apply lookup_delete_Some in Hy as [_ Hy]. eauto.
Qed.

(** ** Nodes *)

Lemma insert_enrolment_keeps id row : keeps (insert_enrolment id row).
Proof. unfold insert_enrolment. keep. wf_done. Qed.
Hint Resolve insert_enrolment_keeps : access_wf.
Lemma create_enrolment_keeps id t secret expires : keeps (create_enrolment id t secret expires).
Proof. unfold create_enrolment. keep. Qed.
Lemma create_connect_enrolment_keeps id t secret expires url requester :
  keeps (create_connect_enrolment id t secret expires url requester).
Proof. unfold create_connect_enrolment. keep. Qed.

Lemma enforce_node_admission_keeps w : keeps (enforce_node_admission w).
Proof.
  unfold enforce_node_admission. keep. apply preserves_execute. intros s. case_match; [done|]. by wf_table.
Qed.
Lemma insert_node_keeps id row : keeps (insert_node id row).
Proof.
  intros s s' a H. unfold insert_node in H. tx H. checks. wf_table; last first.
  { eapply of_nodes_nodes; [done|]. intros j Hj. rewrite lookup_insert. by case_decide. }
  apply unique_on_insert; [done|]. intros j y Hy Hj _ [= He1 He2].
  match goal with E : fst <$> _ = None |- _ => apply fmap_None in E; unfold node_of_installation in E;
    rewrite find_row_None in E; specialize (E _ _ Hy); rewrite He1, He2, !bool_decide_true in E by done end.
  unfold node_live in Hj. simpl in *. congruence.
Qed.
Lemma rebind_node_keeps name key connected id : keeps (execute (on_nodes (alter (rebind_node name key connected) id))).
Proof. apply preserves_execute. intros ?. wf_table; by wf_row. Qed.
Lemma upsert_installation_keeps key public_key : keeps (upsert_installation fresh key public_key).
Proof.
  intros s s' a H. unfold upsert_installation in H. txs H; [done|]. checks. wf_table. apply unique_on_insert; [done|].
  intros j y Hy _ _ He. rewrite find_row_None in Heqo. specialize (Heqo _ _ Hy). by rewrite bool_decide_true in Heqo.
Qed.
Lemma set_connector_printer_grant_keeps connector g ids : keeps (set_connector_printer_grant connector g ids).
Proof. unfold set_connector_printer_grant. keep; apply preserves_execute; intros ?; wf_table; by wf_row. Qed.
Hint Resolve enforce_node_admission_keeps insert_node_keeps rebind_node_keeps upsert_installation_keeps
  set_connector_printer_grant_keeps : access_wf.

Lemma installation_free installation t except s id k :
  installation_taken installation t except s = false → s.(devices).(connectors) !! id = Some k →
  (k.(nc_installation), k.(nc_tenant)) = (installation, t) → Some id = except.
Proof.
  unfold installation_taken. rewrite exists_row_false. intros Hf Hk [= H1 H2]. specialize (Hf _ _ Hk).
  rewrite !bool_decide_true in Hf by done. simpl in Hf. by apply negb_false_iff, bool_decide_eq_true in Hf.
Qed.
Lemma upsert_node_connector_keeps key public_key t agent : keeps (upsert_node_connector fresh key public_key t agent).
Proof.
  intros s s' a H. unfold upsert_node_connector in H. tx_step H. etrans; [by eapply upsert_installation_keeps|].
  txs H; checks; wf_table.
  - by wf_row.
  - apply find_row_Some in Heqo as [Hi Hk]. checks. rewrite (alter_Some _ _ _ _ Hi).
    apply unique_on_insert; [done|]. intros j y Hy _ _ [= He1 He2].
    eapply installation_free in Hx0; [by simplify_eq|done|congruence].
  - by wf_row.
  - apply unique_on_insert; [done|]. intros j y Hy _ _ [= He1 He2]. rewrite find_row_None in Heqo.
    specialize (Heqo _ _ Hy). simpl in Heqo. by rewrite He1, He2, !bool_decide_true in Heqo.
  - apply unique_on_insert; [done|]. intros j y Hy _ _ [= He1 He2].
    match goal with E : installation_taken _ _ _ _ = false |- _ => by eapply installation_free in E; [|done|congruence] end.
  - intros c k. rewrite lookup_insert. case_decide; [|eauto]. by intros [= <-].
Qed.
Hint Resolve upsert_node_connector_keeps : access_wf.
Lemma finish_enrolment_keeps q t token installation agent : keeps (finish_enrolment now fresh q t token installation agent).
Proof. unfold finish_enrolment. keep. wf_done. Qed.
Hint Resolve finish_enrolment_keeps : access_wf.
Lemma enrol_agent_connector_keeps secret q enforce :
  keeps (enrol_agent_connector_with_billing now fresh sha256 secret q enforce).
Proof. unfold enrol_agent_connector_with_billing. keep. Qed.
Lemma revoke_connector_keeps t agent connector : keeps (revoke_connector now t agent connector).
Proof. unfold revoke_connector. keep. apply preserves_execute. intros ?. wf_table; by wf_row. Qed.
Lemma revoke_node_keeps t agent : keeps (revoke_node now t agent).
Proof.
  unfold revoke_node. keep; apply preserves_execute; intros ?; wf_table; try by wf_row.
  1, 2: apply unique_on_fmap; [done|]; intros k; by case_match.
  eapply of_nodes_connectors; [done|]. intros c k'. rewrite lookup_update_where. intros (k & Hk & ->)%fmap_Some.
  exists k. by case_match.
Qed.

(** ** Pairing and requests *)

Lemma create_device_authorization_keeps id row :
  row.(da_state) = DevicePending → keeps (create_device_authorization id row).
Proof.
  intros Hp s s' a H. unfold create_device_authorization in H. tx H. checks. wf_table; last first.
  { apply map_Forall_insert_2; [|done]. intros []; congruence. }
  apply unique_on_insert; [done|].
  intros j y Hy _ _ He. match goal with E : exists_row _ _ = false |- _ => rewrite exists_row_false in E;
    specialize (E _ _ Hy); by rewrite bool_decide_true in E end.
Qed.
Lemma device_lookup_keeps p : keeps (device_lookup now p).
Proof.
  unfold device_lookup. keep. apply preserves_execute. intros ?. wf_table.
  - wf_row. intros id d _ _. by case_match.
  - intros id d'. rewrite map_lookup_imap. intros (d & Hd & [= <-])%bind_Some. specialize (wf_decided0 _ _ Hd).
    case_match; [|done]. by intros [].
Qed.
Hint Resolve device_lookup_keeps : access_wf.
Lemma device_authorization_by_hash_keeps hash : keeps (device_authorization_by_hash now hash).
Proof. unfold device_authorization_by_hash. keep. Qed.
Lemma device_authorization_by_id_keeps id : keeps (device_authorization_by_id now id).
Proof. unfold device_authorization_by_id. keep. Qed.
Lemma approve_device_authorization_keeps id code t by_ : keeps (approve_device_authorization now id code t by_).
Proof. unfold approve_device_authorization. keep. apply preserves_execute. intros ?. wf_table; wf_row; [done|]. by split. Qed.
Lemma deny_device_authorization_keeps id code : keeps (deny_device_authorization now id code).
Proof. unfold deny_device_authorization. keep. apply preserves_execute. intros ?. wf_table; wf_row; [done|]. by intros ??? []. Qed.
Lemma exchange_device_authorization_keeps hash enforce :
  keeps (exchange_device_authorization_with_billing now fresh hash enforce).
Proof.
  unfold exchange_device_authorization_with_billing. keep; apply preserves_execute; intros ?; wf_table; wf_row; try done.
  - intros d _ _. split; [done|]. symmetry. apply sd_code, consume_device_same.
  - intros d _ Hd. unfold consume_device. destruct (decide (d.(da_state) = DeviceApproved)); [|done]. intros _. apply Hd. by left.
Qed.
Lemma reserve_agent_nonce_keeps agent nonce expires : keeps (reserve_agent_nonce now agent nonce expires).
Proof. unfold reserve_agent_nonce. keep. wf_done. Qed.
Lemma purge_expired_authentication_state_keeps : keeps (purge_expired_authentication_state now).
Proof.
  unfold purge_expired_authentication_state. keep; [wf_done|]. apply preserves_execute. intros ?. wf_table.
  - by apply unique_on_filter.
  - intros id d Hd. apply map_lookup_filter_Some in Hd as [Hd _]. by eapply wf_decided0.
Qed.

(** ** Content keys *)

Lemma retire_active_keys_lookup t agent s i :
  (retire_active_keys now t agent s).(devices).(encryption_keys) !! i =
  (λ k, if bool_decide (i.1 = (t, agent)) && bool_decide (k.(ek_state) = KeyActive)
        then set_key_state now KeyDecryptOnly k else k) <$> s.(devices).(encryption_keys) !! i.
Proof. unfold retire_active_keys. simpl. rewrite map_lookup_imap. by destruct (_ !! i). Qed.
Lemma retire_active_keys_keeps t agent s : kept_wf s (retire_active_keys now t agent s).
Proof.
  intros []. split; try done.
  - intros t' a i j x y. rewrite !retire_active_keys_lookup. intros (x' & Hx & ->)%fmap_Some (y' & Hy & ->)%fmap_Some.
    repeat case_match; try done. by eapply wf_active_keys0.
  - intros t' job key a Ha. destruct (wf_references0 _ _ _ _ Ha) as (k & Hk & Hr).
    rewrite retire_active_keys_lookup, Hk. simpl. eexists. split; [done|]. by case_match.
Qed.
Lemma retired t agent s key k :
  (retire_active_keys now t agent s).(devices).(encryption_keys) !! (t, agent, key) = Some k → key_active k = false.
Proof.
  rewrite retire_active_keys_lookup. intros (x & Hx & ->)%fmap_Some. simpl. rewrite bool_decide_true by done. simpl.
  unfold key_active. destruct (bool_decide (x.(ek_state) = KeyActive)) eqn:E; done.
Qed.

Lemma rotate_content_encryption_key_keeps t agent key algorithm material :
  keeps (rotate_content_encryption_key now t agent key algorithm material).
Proof.
  intros s s' a H. unfold rotate_content_encryption_key in H. txs H; [done|].
  trans (retire_active_keys now t agent s); [apply retire_active_keys_keeps|].
  pose proof (retired t agent s) as Hret. assert (Hn : (retire_active_keys now t agent s).(devices).(encryption_keys)
    !! (t, agent, key) = None) by by rewrite retire_active_keys_lookup, Heqo.
  revert Hret Hn. generalize (retire_active_keys now t agent s). clear. intros s Hret Hn []. split; try done; simpl.
  - intros t' a i j x y. rewrite !lookup_insert. repeat case_decide; intros; simplify_eq; try done.
    all: first [by eapply wf_active_keys0|match goal with E : _ !! _ = Some ?z, A : key_active ?z = true |- _ =>
      by rewrite (Hret _ _ E) in A end].
  - intros t' job key' a Ha. destruct (wf_references0 _ _ _ _ Ha) as (k & Hk & Hr).
    exists k. split; [|done]. rewrite lookup_insert_ne; [done|congruence].
Qed.
Lemma reference_key_keeps t agent job key : keeps (reference_key now t agent job key).
Proof.
  intros s s' a H. unfold reference_key in H. tx H. destruct (_ && _) eqn:Hc; tx Hx; [|done]. checks. wf_table.
  intros t' job' key' a. rewrite lookup_insert. case_decide; [|eauto]. intros [= <-]. simplify_eq.
  destruct (_ !! (t', agent, key')) as [k|] eqn:Hk; [|done]. simpl in *. checks. exists k. split; [done|].
  unfold usable_key in *. destruct k.(ek_state); simpl in *; done || lia.
Qed.
Hint Resolve reference_key_keeps : access_wf.
Lemma reference_content_keys_keeps t agent job recipients : keeps (reference_content_keys now t agent job recipients).
Proof. unfold reference_content_keys. keep. Qed.
Lemma revoke_content_encryption_key_keeps t agent key : keeps (revoke_content_encryption_key now t agent key).
Proof.
  intros s s' a H. unfold revoke_content_encryption_key in H. tx H. checks. wf_table.
  - intros t' a' i j x1 y. rewrite !lookup_alter_row. intros (x' & Hx' & ->)%fmap_Some (y' & Hy' & ->)%fmap_Some.
    repeat case_decide; try done. by eapply wf_active_keys0.
  - intros t' job key' a' Ha. destruct (wf_references0 _ _ _ _ Ha) as (k & Hk & Hr).
    exists k. split; [|done]. rewrite lookup_alter_ne; [done|]. intros [= <- <- <-].
    match goal with E : referenced_key _ _ _ _ = false |- _ => unfold referenced_key in E; rewrite exists_row_false in E;
      specialize (E _ _ Ha); by rewrite !bool_decide_true in E end.
Qed.
End operations.

(** * Requests *)

Inductive Request :=
| CreateApiKey (t : Tenant) (id prefix secret_hash : string) (scopes : list string) (expires_at : option Z)
| RevokeApiKey (t : Tenant) (id : string)
| BootstrapLocalOwner (t : Tenant) (credential hash name slug user email : string)
| CreateOwnerSession (id workspace credential hash : string) (expires_at : Z)
| RotateOwnerSession (workspace old new credential hash : string) (expires_at : Z)
| RevokeOwnerSession (workspace id : string)
| CreatePlatformAccount (id name secret_hash : string) (t : Tenant) (scopes : list string) (expires_at : option Z)
| EnablePlatformAccount (id name secret_hash workspace : string)
| UpsertChildAccount (account external name slug : string)
| ArchiveChildAccount (account external : string)
| UpsertGrant (account : string) (t : Tenant) (scopes : list string) (expires_at : option Z)
| RevokeGrant (account : string) (t : Tenant)
| RotatePlatformAccount (account secret_hash : string)
| RevokePlatformAccount (account : string)
| DeletePlatformAccount (account : string)
| CreateEnrolment (id : string) (t : Tenant) (secret_hash : string) (expires_at : Z)
| CreateConnectEnrolment (id : string) (t : Tenant) (secret_hash : string) (expires_at : Z) (return_url requester : option string)
| Enrol (secret_hash : string) (q : EnrolRequest) (enforce : bool)
| CreateDevice (id device_code_hash user_code_hash public_key installation name : string) (expires_at : Z)
| DeviceByHash (hash : string)
| DeviceById (id : string)
| ApproveDevice (id user_code_hash : string) (t : Tenant) (by_ : string)
| DenyDevice (id user_code_hash : string)
| ExchangeDevice (hash : string) (enforce : bool)
| ReserveNonce (agent nonce : string) (expires_at : Z)
| PurgeExpired
| RevokeConnector (t : Tenant) (agent connector : string)
| RevokeNode (t : Tenant) (agent : string)
| RotateContentKey (t : Tenant) (agent key algorithm material : string)
| ReferenceContentKeys (t : Tenant) (agent job : string) (recipients : list (string * string))
| RevokeContentKey (t : Tenant) (agent key : string).

Definition discard {A} (m : Tx A) : Tx unit := _ ← m; mret ().
Lemma preserves_discard {A} (R : relation Access) `{!PreOrder R} (m : Tx A) : preserves R m → preserves R (discard m).
Proof. intros Hm. apply preserves_bind; [apply _|done|]. intros a. apply preserves_ret, _. Qed.

Definition serve (sha256 : string → string) (now : Z) (fresh : string → string) (r : Request) : Tx unit :=
  match r with
  | CreateApiKey t id prefix secret_hash scopes expires_at => discard (create_api_key t id prefix secret_hash scopes expires_at)
  | RevokeApiKey t id => discard (revoke_api_key now t id)
  | BootstrapLocalOwner t credential hash name slug user email => discard (bootstrap_local_owner t credential hash name slug user email)
  | CreateOwnerSession id workspace credential hash expires_at => discard (create_local_owner_session id workspace credential hash expires_at)
  | RotateOwnerSession workspace old new credential hash expires_at => discard (rotate_local_owner_session now workspace old new credential hash expires_at)
  | RevokeOwnerSession workspace id => discard (revoke_local_owner_session now workspace id)
  | CreatePlatformAccount id name secret_hash t scopes expires_at => discard (create_platform_service_account_with_grant id name secret_hash t scopes expires_at)
  | EnablePlatformAccount id name secret_hash workspace => discard (enable_platform_service_account id name secret_hash workspace)
  | UpsertChildAccount account external name slug => discard (upsert_platform_account fresh account external name slug)
  | ArchiveChildAccount account external => discard (archive_platform_account now account external)
  | UpsertGrant account t scopes expires_at => discard (upsert_platform_workspace_grant account t scopes expires_at)
  | RevokeGrant account t => discard (revoke_platform_workspace_grant now account t)
  | RotatePlatformAccount account secret_hash => discard (rotate_platform_service_account account secret_hash)
  | RevokePlatformAccount account => discard (revoke_platform_service_account now account)
  | DeletePlatformAccount account => discard (delete_platform_service_account account)
  | CreateEnrolment id t secret_hash expires_at => discard (create_enrolment id t secret_hash expires_at)
  | CreateConnectEnrolment id t secret_hash expires_at return_url requester => discard (create_connect_enrolment id t secret_hash expires_at return_url requester)
  | Enrol secret_hash q enforce => discard (enrol_agent_connector_with_billing now fresh sha256 secret_hash q enforce)
  | CreateDevice id device_code_hash user_code_hash public_key installation name expires_at => discard (create_device_authorization id (new_device device_code_hash user_code_hash public_key installation name expires_at))
  | DeviceByHash hash => discard (device_authorization_by_hash now hash)
  | DeviceById id => discard (device_authorization_by_id now id)
  | ApproveDevice id user_code_hash t by_ => discard (approve_device_authorization now id user_code_hash t by_)
  | DenyDevice id user_code_hash => discard (deny_device_authorization now id user_code_hash)
  | ExchangeDevice hash enforce => discard (exchange_device_authorization_with_billing now fresh hash enforce)
  | ReserveNonce agent nonce expires_at => discard (reserve_agent_nonce now agent nonce expires_at)
  | PurgeExpired => discard (purge_expired_authentication_state now)
  | RevokeConnector t agent connector => discard (revoke_connector now t agent connector)
  | RevokeNode t agent => discard (revoke_node now t agent)
  | RotateContentKey t agent key algorithm material => discard (rotate_content_encryption_key now t agent key algorithm material)
  | ReferenceContentKeys t agent job recipients => discard (reference_content_keys now t agent job recipients)
  | RevokeContentKey t agent key => discard (revoke_content_encryption_key now t agent key)
  end.

Lemma serve_evolves sha256 u now fresh r : (now < u)%Z → preserves (evolves u) (serve sha256 now fresh r).
Proof.
  intros Hnow. destruct r; (apply preserves_discard; [apply _|]).
  - by apply create_api_key_respects.
  - by apply revoke_api_key_respects.
  - by apply bootstrap_local_owner_respects.
  - by apply create_local_owner_session_respects.
  - by apply rotate_local_owner_session_respects.
  - by apply revoke_local_owner_session_respects.
  - by apply create_platform_service_account_respects.
  - by apply enable_platform_service_account_respects.
  - by apply upsert_platform_account_respects.
  - by apply archive_platform_account_respects.
  - by apply put_grant_respects.
  - by apply revoke_platform_workspace_grant_respects.
  - by apply rotate_platform_service_account_respects.
  - by apply revoke_platform_service_account_respects.
  - by apply delete_platform_service_account_respects.
  - by apply create_enrolment_respects.
  - by apply create_connect_enrolment_respects.
  - by apply enrol_agent_connector_respects.
  - by apply create_device_authorization_respects.
  - by apply device_authorization_by_hash_respects.
  - by apply device_authorization_by_id_respects.
  - by apply approve_device_authorization_respects.
  - by apply deny_device_authorization_respects.
  - by apply exchange_device_authorization_respects.
  - by apply reserve_agent_nonce_respects.
  - by apply purge_expired_authentication_state_respects.
  - by apply revoke_connector_respects.
  - by apply revoke_node_respects.
  - by apply rotate_content_encryption_key_respects.
  - by apply reference_content_keys_respects.
  - by apply revoke_content_encryption_key_respects.
Qed.
Lemma serve_keeps sha256 now fresh r : preserves kept_wf (serve sha256 now fresh r).
Proof.
  destruct r; (apply preserves_discard; [apply _|]).
  - apply create_api_key_keeps.
  - apply revoke_api_key_keeps.
  - apply bootstrap_local_owner_keeps.
  - apply create_local_owner_session_keeps.
  - apply rotate_local_owner_session_keeps.
  - apply revoke_local_owner_session_keeps.
  - apply create_platform_service_account_keeps.
  - apply enable_platform_service_account_keeps.
  - apply upsert_platform_account_keeps.
  - apply archive_platform_account_keeps.
  - apply put_grant_keeps.
  - apply revoke_platform_workspace_grant_keeps.
  - apply rotate_platform_service_account_keeps.
  - apply revoke_platform_service_account_keeps.
  - apply delete_platform_service_account_keeps.
  - apply create_enrolment_keeps.
  - apply create_connect_enrolment_keeps.
  - apply enrol_agent_connector_keeps.
  - by apply create_device_authorization_keeps.
  - apply device_authorization_by_hash_keeps.
  - apply device_authorization_by_id_keeps.
  - apply approve_device_authorization_keeps.
  - apply deny_device_authorization_keeps.
  - apply exchange_device_authorization_keeps.
  - apply reserve_agent_nonce_keeps.
  - apply purge_expired_authentication_state_keeps.
  - apply revoke_connector_keeps.
  - apply revoke_node_keeps.
  - apply rotate_content_encryption_key_keeps.
  - apply reference_content_keys_keeps.
  - apply revoke_content_encryption_key_keeps.
Qed.

(** * Runs *)

Section runs.
Context (sha256 : string → string).

Definition commits (now : Z) : relation Access := λ s s', ∃ fresh r, serve sha256 now fresh r s = Ok (s', ()).
(** What happens before [u]. *)
Definition runs (u : Z) : relation Access := rtc (λ s s', ∃ now, (now < u)%Z ∧ commits now s s').

Lemma access_runs_evolves u s s' : runs u s s' → evolves u s s'.
Proof.
  induction 1 as [|s s1 s2 (now & Hnow & fresh & r & Hr) _ IH]; [done|]. etrans; [|done]. by eapply serve_evolves.
Qed.
Lemma runs_wf u s s' : runs u s s' → wf s → wf s'.
Proof.
  induction 1 as [|s s1 s2 (now & Hnow & fresh & r & Hr) _ IH]; [done|]. intros Hw. apply IH.
  by eapply serve_keeps.
Qed.
End runs.

(** The tables of a database without access rows. *)
Definition no_access : Access := {|
  accounts := {| workspaces := ∅; environments := ∅; users := ∅; workspace_members := ∅; entitlements := ∅;
    api_keys := ∅; owner_credentials := ∅; owner_sessions := ∅; platform_accounts := ∅; platform_grants := ∅ |};
  devices := {| enrolment_tokens := ∅; device_authorizations := ∅; nodes := ∅; installations := ∅; connectors := ∅;
    agent_nonces := ∅; encryption_keys := ∅; job_key_references := ∅ |} |}.
Lemma no_access_wf : wf no_access.
Proof. by split. Qed.
