(* ===== verification/AccessClaims.v ===== *)
(** What the access tables promise: revocation is final, request nonces and enrolment
    secrets are used once, a pairing needs its approval, node limits hold, content keys that
    jobs refer to stay; and two ways in which a node is shut out. *)

From S2P Require Import Prelude Transactions AccessStore AccessSystem AccessMachine.

(** * What transactions leave alone *)

Definition same_tokens : relation Access := λ s s', s'.(devices).(enrolment_tokens) = s.(devices).(enrolment_tokens).
#[export] Instance same_tokens_preorder : PreOrder same_tokens.
Proof. unfold same_tokens. split; [done|]. intros ???. congruence. Qed.
(** What a billing owner and its nodes are counted on. *)
Definition same_billing : relation Access := λ s s',
  s'.(accounts).(workspaces) = s.(accounts).(workspaces)
  ∧ s'.(accounts).(platform_accounts) = s.(accounts).(platform_accounts).
#[export] Instance same_billing_preorder : PreOrder same_billing.
Proof. unfold same_billing. split; [done|]. intros ???. intuition congruence. Qed.
Definition same_nodes : relation Access := λ s s',
  same_billing s s' ∧ s'.(devices).(nodes) = s.(devices).(nodes) ∧ s'.(accounts).(entitlements) = s.(accounts).(entitlements).
#[export] Instance same_nodes_preorder : PreOrder same_nodes.
Proof. unfold same_nodes, same_billing. split; [done|]. intros ???. intuition congruence. Qed.

Ltac untouched := preserve ltac:(fail); try (apply preserves_execute; intros ?; done).

Lemma upsert_node_connector_tokens fresh key public_key t agent :
  preserves same_tokens (upsert_node_connector fresh key public_key t agent).
Proof. unfold upsert_node_connector, upsert_installation. untouched. Qed.
Lemma set_connector_printer_grant_tokens connector g ids : preserves same_tokens (set_connector_printer_grant connector g ids).
Proof. unfold set_connector_printer_grant. untouched. Qed.
Lemma finish_enrolment_nodes now fresh q t token installation agent :
  preserves same_nodes (finish_enrolment now fresh q t token installation agent).
Proof. unfold finish_enrolment, upsert_node_connector, upsert_installation, set_connector_printer_grant. untouched. Qed.

Lemma finish_enrolment_Ok now fresh q t token installation agent s s' a :
  finish_enrolment now fresh q t token installation agent s = Ok (s', a) →
  a.(ea_agent) = agent ∧ a.(ea_tenant) = t
  ∧ s'.(devices).(enrolment_tokens) = alter (consume now agent) token s.(devices).(enrolment_tokens).
Proof.
  intros H. unfold finish_enrolment in H. tx H. split_and!; [done..|].
  apply upsert_node_connector_tokens in Hx. etrans; [|exact Hx].
  destruct (bool_decide _) in Hx0; [|by tx Hx0]. by apply set_connector_printer_grant_tokens in Hx0.
Qed.

(** The token that an enrolment was redeemed with. *)
Lemma enrol_token sha256 now fresh secret q enforce s s' a :
  enrol_agent_connector_with_billing now fresh sha256 secret q enforce s = Ok (s', a) →
  ∃ token e0, find_row (λ _ e, redeemable now secret e) s.(devices).(enrolment_tokens) = Some (token, e0) ∧
  ∃ e, s'.(devices).(enrolment_tokens) !! token = Some e ∧ e.(et_secret_hash) = secret
    ∧ is_Some e.(et_consumed_at) ∧ e.(et_agent_id) = Some a.(ea_agent) ∧ e.(et_tenant) = a.(ea_tenant).
Proof.
  intros H. unfold enrol_agent_connector_with_billing in H. tx H. destruct x as [token e]. simpl in H.
  exists token, e. split; [done|]. apply find_row_Some in Hx as [He Hre]. unfold redeemable in Hre. checks.
  destruct (negb (unset e.(et_consumed_at))) eqn:Hc.
  { tx H. exists e. split_and!; try done. unfold unset in Hc. destruct e.(et_consumed_at); [by eexists|done]. }
  tx_step H. assert (Hfin : ∀ s1 agent, s1.(devices).(enrolment_tokens) = s.(devices).(enrolment_tokens) →
    finish_enrolment now fresh q e.(et_tenant) token x0 agent s1 = Ok (s', a) →
    ∃ e', s'.(devices).(enrolment_tokens) !! token = Some e' ∧ e'.(et_secret_hash) = secret
      ∧ is_Some e'.(et_consumed_at) ∧ e'.(et_agent_id) = Some a.(ea_agent) ∧ e'.(et_tenant) = a.(ea_tenant)).
  { intros s1 agent Ht (Ha & Htn & Hs)%finish_enrolment_Ok. exists (consume now agent e).
    rewrite Hs, Ht, lookup_alter_eq, He. split_and!; try done; [apply revoked_is_Some|by rewrite Ha]. }
  destruct (node_of_installation _ _ s) as [[agent n]|].
  - tx_step H. by eapply Hfin, H.
  - tx_step H. tx_step H. eapply Hfin, H. erewrite insert_node_tokens by done.
    destruct enforce; [by erewrite enforce_node_admission_tokens|by tx Hx].
Qed.

(** The node of a pairing: the one that the installation had, or a new one, with the key that was presented. *)
Definition pair_node (fresh : string → string) (t : Tenant) (d : DeviceRow) (enforce : bool) : Tx string :=
  existing ← query (node_of_installation t d.(da_installation_id));
  match existing with
  | Some (agent, _) =>
    _ ← execute (on_nodes (alter (rebind_node d.(da_name) d.(da_public_key) false) agent)); mret agent
  | None =>
    _ ← (if enforce then enforce_node_admission t.1 else mret ());
    let agent := fresh "agent" in
    _ ← insert_node agent {| no_tenant := t; no_name := d.(da_name);
          no_installation_id := d.(da_installation_id); no_public_key := Some d.(da_public_key);
          no_connected := false; no_revoked_at := None |};
    mret agent
  end.
Lemma pair_node_Ok fresh t d enforce s s' agent :
  pair_node fresh t d enforce s = Ok (s', agent) →
  s'.(devices).(device_authorizations) = s.(devices).(device_authorizations)
  ∧ ∃ n, s'.(devices).(nodes) !! agent = Some n ∧ n.(no_public_key) = Some d.(da_public_key) ∧ n.(no_tenant) = t.
Proof.
  intros H. unfold pair_node in H. tx_step H. destruct (node_of_installation _ _ s) as [[id n]|] eqn:Hn.
  - apply find_row_Some in Hn as [Hn Hq]. checks. tx H. split; [done|]. simpl. rewrite lookup_alter_eq, Hn. by eexists.
  - tx_step H. assert (s0.(devices) = s.(devices)) as <-.
    { destruct enforce; [by eapply enforce_node_admission_tokens|by tx Hx]. }
    tx H. unfold insert_node in Hx0. tx Hx0. split; [done|]. simpl. rewrite lookup_insert_eq. by eexists.
Qed.

(** A pairing that was exchanged: answered again, or now, from its approval. *)
Lemma exchange_Ok now fresh hash enforce s s' a :
  exchange_device_authorization_with_billing now fresh hash enforce s = Ok (s', a) →
  ∃ id d, s.(devices).(device_authorizations) !! id = Some d ∧ d.(da_device_code_hash) = hash
    ∧ d.(da_tenant) = Some a.(ea_tenant) ∧ a.(ea_connector) = None
    ∧ (d.(da_state) = DeviceConsumed ∧ s' = s ∧ d.(da_enrolled_agent) = Some a.(ea_agent)
       ∨ d.(da_state) = DeviceApproved ∧ (now < d.(da_expires_at))%Z ∧
         ∃ s0, pair_node fresh a.(ea_tenant) d enforce s = Ok (s0, a.(ea_agent))
           ∧ s' = on_device_authorizations (alter (consume_device a.(ea_agent)) id) s0).
Proof.
  intros H. unfold exchange_device_authorization_with_billing in H. tx_step H. destruct x as [id d].
  apply find_row_Some in Hx as [Hd He]. unfold exchangeable in He. checks. simpl in H. tx_step H. exists id, d.
  destruct (bool_decide (d.(da_state) = DeviceConsumed)) eqn:Hc; checks.
  - tx H. split_and!; try done. by left.
  - simpl in *. rewrite orb_false_r in *. checks.
    assert (Hp : (agent ← pair_node fresh x d enforce;
      _ ← execute (on_device_authorizations (alter (consume_device agent) id));
      mret {| ea_agent := agent; ea_tenant := x; ea_connector := None |}) s = Ok (s', a)) by exact H.
    tx_step Hp. tx Hp. split_and!; try done. right. split_and!; [done|lia|]. by eexists.
Qed.

Lemma exchange_consumed now fresh hash enforce s s' a id d agent t :
  wf s → exchange_device_authorization_with_billing now fresh hash enforce s = Ok (s', a) →
  s.(devices).(device_authorizations) !! id = Some d → d.(da_device_code_hash) = hash → d.(da_state) = DeviceConsumed →
  d.(da_enrolled_agent) = Some agent → d.(da_tenant) = Some t →
  s' = s ∧ a = {| ea_agent := agent; ea_tenant := t; ea_connector := None |}.
Proof.
  intros Hw H Hd Hh Hc Ha Ht. apply exchange_Ok in H as (id' & y & Hy & Hhy & Hty & Hky & Hcase).
  assert (id' = id) as -> by (eapply (wf_codes _ Hw); [done..|congruence]). simplify_eq.
  destruct Hcase as [(_ & -> & Ha')|(Hc' & _)]; [|congruence]. split; [done|]. destruct a; simplify_eq/=. congruence.
Qed.

(** * References of jobs to content keys *)

Lemma reference_key_inserted now t agent job key s s' :
  reference_key now t agent job key s = Ok (s', true) →
  s'.(devices).(job_key_references) !! (t, job, key) = Some agent.
Proof.
  intros H. unfold reference_key in H. remember true as b eqn:Hb. tx H. rewrite Hb in Hx. tx Hx. simpl.
  by rewrite lookup_insert_eq.
Qed.
Lemma reference_keys_inserted now t agent job l s s' inserted :
  for_each (λ r : string * string, reference_key now t agent job r.2) l s = Ok (s', inserted) →
  existsb id inserted = true →
  ∃ r, r ∈ l ∧ s'.(devices).(job_key_references) !! (t, job, r.2) = Some agent.
Proof.
  revert s inserted. induction l as [|r l IH]; intros s inserted H Hin; simpl in H; tx H; [done|].
  simpl in Hin. destruct x.
  - exists r. split; [left|]. apply reference_key_inserted in Hx. eapply lookup_weaken; [done|].
    assert (Hp : preserves (evolves (now + 1)) (for_each (λ r : string * string, reference_key now t agent job r.2) l)).
    { apply preserves_for_each; [apply _|]. intros ?. apply reference_key_respects. }
    apply Hp in Hx0. apply Hx0.
  - destruct (IH _ _ Hx0 Hin) as (r' & Hr' & Hk). exists r'. split; [by right|done].
Qed.

(** * Counting nodes *)

Lemma select_rows_count {K V} `{Countable K} (p : K → V → bool) (m m' : gmap K V) (extra : list K) :
  (∀ k v, m' !! k = Some v → p k v = true → k ∈ extra ∨ ∃ v0, m !! k = Some v0 ∧ p k v0 = true) →
  length (select_rows p m') ≤ length extra + length (select_rows p m).
Proof.
  intros Hm. rewrite <- (length_fmap fst (select_rows p m')), <- (length_fmap fst (select_rows p m)), <- length_app.
  apply submseteq_length, NoDup_submseteq; [apply select_rows_keys|].
  intros k ([k' v] & -> & Hv%elem_of_select_rows)%list_elem_of_fmap. apply elem_of_app.
  destruct (Hm k' v) as [?|(v0 & Hv0)]; [naive_solver..|by left|]. right. apply list_elem_of_fmap.
  exists (k', v0). split; [done|]. by apply elem_of_select_rows.
Qed.

Lemma billed_to_same owner s s' w : same_billing s s' → billed_to owner s' w = billed_to owner s w.
Proof. intros [H1 H2]. unfold billed_to, active_account. by rewrite H1, H2. Qed.
Lemma billing_owner_same s s' w : same_billing s s' → billing_owner w s' = billing_owner w s.
Proof. intros [H1 H2]. unfold billing_owner, active_account. by rewrite H1, H2. Qed.
(** Nodes that are counted for an owner: at most those before and [extra]. *)
Lemma active_nodes_le owner s s' extra :
  same_billing s s' →
  (∀ k n, s'.(devices).(nodes) !! k = Some n → n.(no_revoked_at) = None → k ∈ extra ∨
     ∃ n0, s.(devices).(nodes) !! k = Some n0 ∧ n0.(no_revoked_at) = None ∧ n0.(no_tenant) = n.(no_tenant)) →
  (active_nodes owner s' ≤ Z.of_nat (length extra) + active_nodes owner s)%Z.
Proof.
  intros Hb Hn. unfold active_nodes. rewrite <- Nat2Z.inj_add. apply inj_le.
  etrans; [apply (select_rows_count _ (s.(devices).(nodes)) _ extra)|]; last first.
  { apply Nat.eq_le_incl. do 2 f_equal. unfold select_rows. apply list_filter_iff. intros [k n]. simpl.
    by rewrite (billed_to_same _ s). }
  intros k n Hk Hp. checks. unfold unset in *. checks. rewrite (billed_to_same _ s) in * by done.
  destruct (Hn k n) as [?|(n0 & Hn0 & Hu & Ht)]; [done..|by left|]. right. exists n0. rewrite Hu, Ht. by rewrite (billed_to_same _ s).
Qed.

Definition within_limit (owner : string) (s s' : Access) : Prop :=
  (active_nodes owner s' ≤ active_nodes owner s)%Z ∨
  ∃ limit, s'.(accounts).(entitlements) !! owner = Some limit ∧ (active_nodes owner s' ≤ limit)%Z.

Lemma within_limit_rebind owner s name key connected id :
  within_limit owner s (on_nodes (alter (rebind_node name key connected) id) s).
Proof.
  left. etrans; [apply (active_nodes_le owner s _ [])|simpl; lia]; [done|]. intros k n. simpl. rewrite lookup_alter_row.
  intros (n0 & Hn0 & ->)%fmap_Some Hu. right. exists n0. case_decide; by split_and!.
Qed.
Lemma within_limit_admitted w owner s s1 s2 id row :
  billing_owner w s = Some owner → enforce_node_admission w s = Ok (s1, ()) → insert_node id row s1 = Ok (s2, ()) →
  within_limit owner s s2.
Proof.
  intros Ho H1 H2. right. unfold enforce_node_admission in H1. tx_step H1. rewrite Ho in Hx. injection Hx as <-.
  remember () as a eqn:Ha. tx H1. unfold insert_node in H2. tx H2. exists x1. split; [done|].
  match goal with |- context [on_nodes _ ?s1] => etrans; [apply (active_nodes_le owner s1 _ [id])|] end.
  - by repeat case_match.
  - intros k n. simpl. rewrite lookup_insert. case_decide; [subst; by left; left|]. intros ??. right. by exists n.
  - simpl. lia.
Qed.
Lemma within_limit_nodes owner s s1 s2 : within_limit owner s s1 → same_nodes s1 s2 → within_limit owner s s2.
Proof.
  intros Hw (Hb & Hn & He). assert (Hle : (active_nodes owner s2 ≤ active_nodes owner s1)%Z).
  { etrans; [apply (active_nodes_le owner s1 _ [])|simpl; lia]; [done|]. intros k n. rewrite Hn. eauto. }
  destruct Hw as [Hw|(limit & Hl & Hw)]; [left; lia|]. right. exists limit. rewrite He. split; [done|lia].
Qed.

(** A new node cannot have a connector of an installation that has one in the tenant. *)
Lemma connector_place_taken fresh public_key t agent s s1 c k i :
  wf s → s1.(devices).(connectors) = s.(devices).(connectors) → s1.(devices).(installations) = s.(devices).(installations) →
  s.(devices).(nodes) !! agent = None → s.(devices).(connectors) !! c = Some k → k.(nc_tenant) = t →
  s.(devices).(installations) !! k.(nc_installation) = Some i →
  ¬ ∃ s2 id, upsert_node_connector fresh i.(in_key) public_key t agent s1 = Ok (s2, id).
Proof.
  intros Hw Hcs His Hn Hc Hkt Hi (s2 & id & H). unfold upsert_node_connector in H. tx_step H.
  unfold upsert_installation in Hx. tx_step Hx. rewrite His in Hx.
  rewrite (find_row_unique always in_key _ _ (k.(nc_installation)) i) in Hx; first last.
  { intros j y ?. checks. done. } { by apply bool_decide_eq_true. } { done. } { done. } { apply (wf_installation_keys _ Hw). }
  tx Hx. tx_step H. rewrite Hcs in H.
  destruct (find_row _ _) as [[c' k']|] eqn:Hf.
  - apply find_row_Some in Hf as [Hc' Hp]. checks. subst. destruct (wf_connector_nodes _ Hw _ _ Hc'). congruence.
  - tx H. checks. match goal with E : installation_taken _ _ _ _ = false |- _ =>
      eapply installation_free in E; [done|rewrite Hcs; exact Hc|congruence] end.
Qed.

Section claims.
Context (sha256 : string → string).
Local Abbreviation runs := (runs sha256).
Local Abbreviation enrol := (λ now fresh, enrol_agent_connector_with_billing now fresh sha256).

(** * Revocation *)

(** C30: a revoked API key never authenticates again: whatever is committed later, its prefix is not found, at any
    time. *)
Theorem revoked_api_key_never_authenticates now u s s1 s2 t id k :
  wf s → revoke_api_key now t id s = Ok (s1, k) → runs u s1 s2 →
  ∀ now', api_key_for_authentication now' k.(ak_lookup_prefix) s2 = Err NotFound.
Proof.
  intros Hw H Hr now'. pose proof (revoke_api_key_keeps _ _ _ _ _ _ H Hw) as Hw1.
  pose proof (runs_wf _ _ _ _ Hr Hw1) as Hw2. apply access_runs_evolves in Hr. unfold revoke_api_key in H. tx H.
  destruct (e_keys _ _ _ Hr id (revoke_key now x)) as (k' & Hk' & Hs).
  { simpl. by rewrite lookup_alter_eq, Hx. }
  apply tx_bind_fetch_None, find_row_None. intros j y Hy.
  destruct (bool_decide (y.(ak_lookup_prefix) = _)) eqn:Hp; [|done]. apply bool_decide_eq_true in Hp.
  assert (j = id) as ->.
  { eapply (wf_prefixes _ Hw2); [done..|]. by rewrite Hp, (sk_prefix _ _ Hs). }
  simplify_eq. rewrite (sk_revoked _ _ Hs) by apply revoked_is_Some. simpl.
  by destruct x.(ak_revoked_at).
Qed.

(** A revoked node never authenticates again, neither for work nor to revoke itself. *)
Theorem revoked_node_never_authenticates now u s s1 s2 t agent :
  revoke_node now t agent s = Ok (s1, ()) → runs u s1 s2 →
  agent_for_authentication agent s2 = Err NotFound ∧ agent_for_revocation_authentication agent s2 = Err NotFound.
Proof.
  intros H Hr. apply access_runs_evolves in Hr. unfold revoke_node in H. remember () as a eqn:Ha. tx H.
  destruct (e_nodes _ _ _ Hr agent (revoke_node_row now x)) as (n & Hn & Hs).
  { simpl. by rewrite lookup_alter_eq, Hx. }
  destruct (sn_revoked _ _ Hs) as [r Hrev]; [by eexists|].
  unfold agent_for_authentication, agent_for_revocation_authentication, mbind, tx_bind, fetch.
  rewrite Hn. simpl. unfold query, ensure, unset. by rewrite Hrev.
Qed.

(** An archived customer account stays closed to its platform: whatever is committed later, get-or-create
    included, no platform account is granted either environment of the workspace. *)
Theorem archived_account_stays_closed now u s s1 s2 account external :
  archive_platform_account now account external s = Ok (s1, ()) → runs u s1 s2 →
  ∃ w row, child_workspace account external s = Some (w, row) ∧
    ∀ now' account' environment,
      platform_grant_for_authentication now' account' (w, environment) s2 = Err NotFound.
Proof.
  intros H Hr. apply access_runs_evolves in Hr. unfold archive_platform_account in H. remember () as a eqn:Ha. tx H.
  destruct x0 as [w row]. exists w, row. split; [done|]. unfold child_workspace in Hx0. apply find_row_Some in Hx0 as [Hw _].
  destruct (e_workspaces _ _ _ Hr w (cancel_workspace row)) as (row' & Hw' & Hs).
  { simpl. by rewrite lookup_alter_eq, Hw. }
  intros now' account' environment. unfold platform_grant_for_authentication, mbind, tx_bind, fetch, query, ensure.
  repeat case_match; simplify_eq; try done. checks. unfold workspace_active in *. checks. simpl in *.
  rewrite Hw' in H. simplify_eq/=. by rewrite (sw_cancelled _ _ Hs) in H.
Qed.

(** * Requests *)

(** A nonce is accepted once until it expires: until then the same nonce of the same node is refused, whatever
    is committed in between, the sweep of expired nonces included. *)
Theorem nonce_accepted_once_until_expiry now now' u s s1 s2 agent nonce expires_at expires_at' :
  reserve_agent_nonce now agent nonce expires_at s = Ok (s1, ()) → runs u s1 s2 → (u ≤ expires_at)%Z → (now' < u)%Z →
  reserve_agent_nonce now' agent nonce expires_at' s2 = Err ConcurrentStateChange.
Proof.
  intros H Hr Hu Hnow. apply access_runs_evolves in Hr. unfold reserve_agent_nonce in H. remember () as a eqn:Ha. tx H. checks.
  destruct Hx as [n Hn]. destruct (e_nodes _ _ _ Hr agent n Hn) as (n' & Hn' & _).
  assert (He : s2.(devices).(agent_nonces) !! (agent, nonce) = Some expires_at).
  { apply (e_nonces _ _ _ Hr); [|done]. simpl. by rewrite lookup_insert_eq. }
  unfold reserve_agent_nonce, mbind, tx_bind, query, ensure. rewrite bool_decide_true by by eexists.
  rewrite He. simpl. by rewrite (proj2 (Z.ltb_lt now' expires_at)) by lia.
Qed.

(** The token was redeemed with the secret, for the node and the tenant of the answer. *)
Definition spent (token secret : string) (a : EnrolledAgent) (s : Access) : Prop :=
  ∃ e, s.(devices).(enrolment_tokens) !! token = Some e ∧ e.(et_secret_hash) = secret
    ∧ is_Some e.(et_consumed_at) ∧ e.(et_agent_id) = Some a.(ea_agent) ∧ e.(et_tenant) = a.(ea_tenant).
Lemma spent_evolves u token secret a s s' : spent token secret a s → evolves u s s' → spent token secret a s'.
Proof.
  intros (e & He & Hse & Hc & Ha & Ht) Hev. destruct (e_tokens _ _ _ Hev _ _ He) as (e' & He' & Hs).
  exists e'. rewrite (st_secret _ _ Hs), (st_agent _ _ Hs Hc), (st_tenant _ _ Hs), (st_consumed _ _ Hs Hc). done.
Qed.

(** C28: an enrolment token is redeemed once.  The token whose secret was redeemed stays
    spent on that node, whatever is committed later.  When the secret is redeemed again, the
    answer - given for a lost response - changes nothing, names the same node and needs the
    key that the node has, unless another token was issued under the same secret and it is
    that one which is redeemed. *)
Theorem enrolment_secret_is_single_use now fresh s s1 secret q enforce a :
  enrol now fresh secret q enforce s = Ok (s1, a) →
  ∃ token, spent token secret a s1 ∧
  ∀ u s2, runs u s1 s2 → spent token secret a s2 ∧
  ∀ now' fresh' q' enforce' s3 a', enrol now' fresh' secret q' enforce' s2 = Ok (s3, a') →
    spent token secret a s3 ∧
    (s3 = s2 ∧ a'.(ea_agent) = a.(ea_agent) ∧ a'.(ea_tenant) = a.(ea_tenant)
       ∧ (∃ n, s2.(devices).(nodes) !! a.(ea_agent) = Some n ∧ n.(no_public_key) = Some q'.(er_public_key)
            ∧ n.(no_revoked_at) = None)
     ∨ ∃ other e, other ≠ token ∧ s2.(devices).(enrolment_tokens) !! other = Some e ∧ e.(et_secret_hash) = secret
         ∧ spent other secret a' s3).
Proof.
  intros H. apply enrol_token in H as (token & _ & _ & Htok). exists token. split; [exact Htok|]. intros u s2 Hr.
  assert (spent token secret a s2) as H2 by (eapply spent_evolves; [exact Htok|by apply access_runs_evolves in Hr]).
  split; [done|]. intros now' fresh' q' enforce' s3 a' H'. split.
  { eapply (spent_evolves (now' + 1)); [done|]. eapply enrol_agent_connector_respects; exact H'. }
  destruct H2 as (e & He & Hse & [c Hc] & Ha & Ht). pose proof H' as Hred.
  unfold enrol_agent_connector_with_billing in H'. tx_step H'. destruct x as [j y]. simpl in H'.
  apply enrol_token in Hred as (j' & y' & Hj & Hspent). rewrite Hx in Hj. injection Hj as <- <-.
  apply find_row_Some in Hx as [Hy Hre]. unfold redeemable in Hre. checks.
  destruct (decide (j = token)) as [->|Hne].
  - left. simplify_eq. tx_step H'. rewrite Hc in H'. simpl in H'. tx H'. simpl. rewrite Ha in Hx0. simplify_eq.
    split_and!; [done..|]. unfold enrolled_connector in Hx1. apply bind_Some in Hx1 as (n & Hn & Hk). case_match; [|done].
    checks. exists n. split_and!; [done..|]. unfold unset in *. by checks.
  - right. by exists j, y.
Qed.

(** C29: a pairing yields one node, and only after its approval: a device code that was
    exchanged was approved by a user for the tenant of the node, and the node has the key
    that was presented.  Until an hour past the expiry of the code every later exchange
    changes nothing and names the same node; after that the sweep may remove the code, and a
    code that is not stored is refused. *)
Theorem pairing_yields_one_approved_node now fresh hash enforce s s1 a :
  wf s → exchange_device_authorization_with_billing now fresh hash enforce s = Ok (s1, a) →
  ∃ id d user, s1.(devices).(device_authorizations) !! id = Some d
    ∧ d.(da_device_code_hash) = hash ∧ d.(da_tenant) = Some a.(ea_tenant) ∧ d.(da_approved_by) = Some user
    ∧ (da_state <$> s.(devices).(device_authorizations) !! id = Some DeviceApproved →
       ∃ n, s1.(devices).(nodes) !! a.(ea_agent) = Some n ∧ n.(no_public_key) = Some d.(da_public_key)
         ∧ n.(no_tenant) = a.(ea_tenant))
    ∧ (∀ u now' fresh' enforce' s2 s3 a', runs u s1 s2 → (u ≤ d.(da_expires_at) + seconds 3600)%Z →
        exchange_device_authorization_with_billing now' fresh' hash enforce' s2 = Ok (s3, a') → s3 = s2 ∧ a' = a)
    ∧ (∀ u now' fresh' enforce' s2, runs u s1 s2 →
        (∀ k x, s2.(devices).(device_authorizations) !! k = Some x → x.(da_device_code_hash) ≠ hash) →
        (d.(da_expires_at) + seconds 3600 < u)%Z
        ∧ exchange_device_authorization_with_billing now' fresh' hash enforce' s2 = Err NotFound).
Proof.
  intros Hw H. pose proof (exchange_device_authorization_keeps _ _ _ _ _ _ _ H Hw) as Hw1.
  apply exchange_Ok in H as (id & d & Hd & Hh & Ht & Hk & Hcase).
  assert (∃ d', s1.(devices).(device_authorizations) !! id = Some d' ∧ same_device d d' ∧ d'.(da_state) = DeviceConsumed
    ∧ d'.(da_enrolled_agent) = Some a.(ea_agent)) as (d' & Hd' & Hs & Hc & Ha).
  { destruct Hcase as [(Hc & -> & Ha)|(Hc & _ & s0 & [Hs0 _]%pair_node_Ok & ->)]; [by exists d|].
    simpl. rewrite Hs0, lookup_alter_eq, Hd. eexists. split; [done|]. split; [apply consume_device_same|].
    unfold consume_device. by rewrite decide_True by done. }
  assert (decided d') as [_ [user Hu]]; [by eapply (wf_decided _ Hw1)|by right|].
  assert (Htd : d'.(da_tenant) = Some a.(ea_tenant)).
  { destruct Hcase as [(Hc' & _)|(Hc' & _)]; by rewrite (sd_tenant _ _ Hs) by by rewrite Hc'. }
  exists id, d', user. split_and!; [done|by rewrite (sd_code _ _ Hs)|done..| | |].
  - rewrite Hd. intros [= Hap]. destruct Hcase as [(Hc' & _)|(_ & _ & s0 & [_ Hn]%pair_node_Ok & ->)]; [congruence|].
    by rewrite (sd_key _ _ Hs).
  - intros u now' fresh' enforce' s2 s3 a' Hr Hexp H'. pose proof (runs_wf _ _ _ _ Hr Hw1) as Hw2.
    apply access_runs_evolves in Hr. destruct (e_devices _ _ _ Hr _ _ Hd' Hexp) as (d2 & Hd2 & Hs2).
    replace a with {| ea_agent := a.(ea_agent); ea_tenant := a.(ea_tenant); ea_connector := None |}
      by (destruct a; by simplify_eq/=).
    eapply exchange_consumed; [done..| | | |].
    + by rewrite (sd_code _ _ Hs2), (sd_code _ _ Hs).
    + pose proof (sd_next _ _ Hs2) as Hn. rewrite Hc in Hn. by destruct d2.(da_state).
    + by rewrite (sd_agent _ _ Hs2 Hc).
    + rewrite (sd_tenant _ _ Hs2); [done|by rewrite Hc].
  - intros u now' fresh' enforce' s2 Hr Hnone. split.
    + apply Z.nle_gt. intros Hexp. apply access_runs_evolves in Hr.
      destruct (e_devices _ _ _ Hr _ _ Hd' Hexp) as (d2 & Hd2 & Hs2). apply (Hnone _ _ Hd2).
      by rewrite (sd_code _ _ Hs2), (sd_code _ _ Hs).
    + unfold exchange_device_authorization_with_billing, mbind at 1, tx_bind at 1, fetch.
      destruct (find_row _ _) as [[k x]|] eqn:Hx; [|done]. apply find_row_Some in Hx as [Hx He].
      unfold exchangeable in He. checks. by destruct (Hnone _ _ Hx).
Qed.

(** The node limit of a plan holds: when limits are enforced, a node that enrols or pairs leaves the owner who
    is billed with no more active nodes than before, or with no more than the limit. *)
Theorem node_limit_respected now fresh secret q hash s s1 a owner :
  enrol now fresh secret q true s = Ok (s1, a)
  ∨ exchange_device_authorization_with_billing now fresh hash true s = Ok (s1, a) →
  billing_owner a.(ea_tenant).1 s = Some owner →
  (active_nodes owner s1 ≤ active_nodes owner s)%Z ∨
  ∃ limit, s1.(accounts).(entitlements) !! owner = Some limit ∧ (active_nodes owner s1 ≤ limit)%Z.
Proof.
  intros [H|H] Ho; change (within_limit owner s s1).
  - unfold enrol_agent_connector_with_billing in H. tx_step H. tx_step H. case_match; [tx H; by left|].
    tx_step H. case_match; [destruct p as [agent n]|].
    + tx_step H. eapply within_limit_nodes; [apply within_limit_rebind|]. by eapply finish_enrolment_nodes.
    + tx_step H. tx_step H. pose proof (finish_enrolment_Ok _ _ _ _ _ _ _ _ _ _ H) as (_ & Ht & _). rewrite Ht in Ho.
      destruct x1, x2. eapply within_limit_nodes; [by eapply within_limit_admitted|]. by eapply finish_enrolment_nodes.
  - apply exchange_Ok in H as (id & d & _ & _ & _ & _ & [(_ & -> & _)|(_ & _ & s0 & H & ->)]); [by left|].
    apply (within_limit_nodes _ _ s0); [|done]. destruct a. simpl in *. unfold pair_node in H. tx_step H.
    destruct (node_of_installation _ _ s) as [[agent n]|]; [tx H; apply within_limit_rebind|].
    tx_step H. tx_step H. tx H. destruct x, x0.
    by eapply within_limit_admitted.
Qed.

(** * Content keys *)

(** The content key that an encrypted job refers to survives: whatever is committed later, the key is there
    with its material, active or kept for decryption, and its revocation is refused. *)
Theorem content_key_of_a_job_survives now u s s1 s2 t agent job recipients :
  wf s → reference_content_keys now t agent job recipients s = Ok (s1, ()) → runs u s1 s2 →
  ∃ key k1 k2, (ENCRYPTED_JOB_V3_RECIPIENT_ALGORITHM, key) ∈ recipients
    ∧ s1.(devices).(encryption_keys) !! (t, agent, key) = Some k1
    ∧ s2.(devices).(encryption_keys) !! (t, agent, key) = Some k2 ∧ k2.(ek_material) = k1.(ek_material)
    ∧ (k2.(ek_state) = KeyActive ∨ k2.(ek_state) = KeyDecryptOnly)
    ∧ ∀ now', revoke_content_encryption_key now' t agent key s2 = Err NotFound.
Proof.
  intros Hw H Hr. pose proof (reference_content_keys_keeps _ _ _ _ _ _ _ _ H Hw) as Hw1.
  pose proof (runs_wf _ _ _ _ Hr Hw1) as Hw2. apply access_runs_evolves in Hr.
  unfold reference_content_keys in H. remember () as a eqn:Ha. tx H.
  destruct (reference_keys_inserted _ _ _ _ _ _ _ _ Hx H) as ([algorithm key] & Hin & Hk). simpl in Hk.
  apply list_elem_of_filter in Hin as [? Hin]. simplify_eq/=.
  destruct (wf_references _ Hw1 _ _ _ _ Hk) as (k1 & Hk1 & _).
  assert (Hk2 : s2.(devices).(job_key_references) !! (t, job, key) = Some agent)
    by by eapply lookup_weaken, (e_references _ _ _ Hr).
  destruct (e_content_keys _ _ _ Hr _ _ Hk1) as (k2 & Hs2 & Hs).
  destruct (wf_references _ Hw2 _ _ _ _ Hk2) as (k2' & Hk2' & Hrank). simplify_eq.
  exists key, k1, k2. split_and!; [done..|by rewrite (sck_material _ _ Hs)| |].
  { destruct k2.(ek_state); simpl in Hrank; first [by left|by right|lia]. }
  intros now'. unfold revoke_content_encryption_key, mbind, tx_bind, fetch, query, ensure. rewrite Hs2.
  assert (referenced_key t agent key s2 = true) as ->; [|by rewrite andb_false_r].
  apply exists_row_true. eexists _, _. split; [done|]. simpl. by rewrite !bool_decide_true.
Qed.

(** * Nodes that are shut out *)

(** An installation whose node was revoked cannot enrol again in its tenant: its old connector keeps the
    installation's place, and the statement that creates a connector gives up on no other conflict than the node's
    own, so every enrolment fails. *)
Theorem revoked_installation_cannot_reenrol now fresh secret q enforce s t installation c k i :
  wf s → node_of_installation t installation s = None →
  s.(devices).(connectors) !! c = Some k → k.(nc_tenant) = t →
  s.(devices).(installations) !! k.(nc_installation) = Some i → i.(in_key) = installation →
  (∀ j e, s.(devices).(enrolment_tokens) !! j = Some e → e.(et_secret_hash) = secret → e.(et_tenant) = t) →
  installation_id sha256 q = Ok installation →
  ¬ ∃ s' a, enrol now fresh secret q enforce s = Ok (s', a).
Proof.
  intros Hw Hnone Hc Hkt Hi Hik Htok Hq (s' & a & H). unfold enrol_agent_connector_with_billing in H.
  tx_step H. destruct x as [token e]. apply find_row_Some in Hx as [He Hre]. unfold redeemable in Hre. checks. simpl in H.
  tx_step H. rewrite Hq in Hx. injection Hx as <-. rewrite (Htok _ _ He) in H by done. case_match.
  - tx H. unfold enrolled_connector in Hx0. apply bind_Some in Hx0 as (n & Hn & Hk). case_match; [|done].
    unfold node_of_installation in Hnone. rewrite find_row_None in Hnone. specialize (Hnone _ _ Hn).
    checks. simplify_eq. rewrite !bool_decide_true in Hnone by done. simpl in Hnone. congruence.
  - tx_step H. rewrite Hnone in H. tx_step H. tx_step H.
    assert (Hd : s0.(devices) = s.(devices)).
    { destruct enforce; [by eapply enforce_node_admission_tokens|by tx Hx]. }
    unfold insert_node in Hx0. destruct x0. remember () as b eqn:Hb in Hx0. tx Hx0. checks. rewrite Hd in *.
    unfold finish_enrolment in H. tx_step H. tx_step H. rewrite <- Hik in Hx0.
    eapply (connector_place_taken fresh _ t (fresh "agent") s); last (eexists _, _; exact Hx0); simpl; rewrite ?Hd; done.
Qed.

(** A node whose connector was revoked and that is paired again in the browser stays shut out: the exchange
    succeeds and binds the new key, and leaves the connector revoked, so the node does not authenticate. *)
Theorem paired_node_stays_locked_out now fresh hash enforce s id d t agent n c k :
  wf s → s.(devices).(device_authorizations) !! id = Some d → d.(da_device_code_hash) = hash →
  d.(da_state) = DeviceApproved → (now < d.(da_expires_at))%Z → d.(da_tenant) = Some t →
  node_of_installation t d.(da_installation_id) s = Some (agent, n) →
  s.(devices).(connectors) !! c = Some k → k.(nc_agent) = agent → k.(nc_tenant) = t → is_Some k.(nc_revoked_at) →
  ∃ s' n', exchange_device_authorization_with_billing now fresh hash enforce s
      = Ok (s', {| ea_agent := agent; ea_tenant := t; ea_connector := None |})
    ∧ s'.(devices).(nodes) !! agent = Some n' ∧ n'.(no_public_key) = Some d.(da_public_key)
    ∧ agent_for_authentication agent s' = Err NotFound.
Proof.
  intros Hw Hd Hh Hst Hnow Ht Hnode Hc Hka Hkt [r Hkr].
  unfold exchange_device_authorization_with_billing, mbind, tx_bind, fetch, query, execute, mret, tx_ret.
  rewrite (find_row_unique always da_device_code_hash _ _ id d); first last.
  { intros j y Hy. unfold exchangeable in Hy. checks. by subst. }
  { unfold exchangeable. rewrite !bool_decide_true by done. simpl. by rewrite (proj2 (Z.ltb_lt _ _) Hnow). }
  { done. } { done. } { apply (wf_codes _ Hw). }
  simpl. rewrite Ht, Hst, bool_decide_false by done. rewrite Hnode. simpl.
  unfold node_of_installation in Hnode. apply find_row_Some in Hnode as [Hn Hq]. checks.
  eexists _, _. split; [done|]. simpl. rewrite lookup_alter_eq, Hn. split_and!; [done..|].
  unfold agent_for_authentication, mbind, tx_bind, fetch, query, ensure. simpl. rewrite lookup_alter_eq, Hn. simpl.
  assert (exists_row (λ _ k, connector_of agent k) s.(devices).(connectors) = true) as ->.
  { apply exists_row_true. exists c, k. split; [done|]. by apply bool_decide_eq_true. }
  assert (exists_row (λ _ k, connector_of agent k && bool_decide (k.(nc_tenant) = n.(no_tenant))
                       && unset k.(nc_revoked_at)) s.(devices).(connectors) = false) as ->; [|by rewrite andb_false_r].
  apply exists_row_false. intros c' k' Hk'. apply not_true_iff_false. intros Hp. unfold connector_of in Hp. checks.
  assert (c' = c) as -> by (eapply (wf_connectors _ Hw); [done..|congruence]). simplify_eq. unfold unset in *. checks. congruence.
Qed.
End claims.
