(* ===== verification/AccessDemo.v ===== *)
(** A run of the access tables, on which the claims of [AccessClaims] are seen to apply: an
    owner sets up a workspace, makes API keys, enrols and pairs nodes, revokes them, and
    manages customer accounts. *)

From S2P Require Import Prelude Transactions AccessStore AccessSystem AccessMachine AccessClaims.

(** * Running requests *)

Definition digest (s : string) : string := s.
Definition named (suffix : string) (label : string) : string := label +:+ suffix.

Definition after {A} (m : Tx A) (s : Access) : Access := match m s with Ok (s', _) => s' | Err _ => s end.
Lemma ok_after {A} (m : Tx A) s : is_ok (m s) = true → ∃ a, m s = Ok (after m s, a).
Proof. unfold after. destruct (m s) as [[s' a]|e]; [by exists a|done]. Qed.
Lemma ok_after_unit (m : Tx unit) s : is_ok (m s) = true → m s = Ok (after m s, ()).
Proof. intros [[] H]%ok_after. done. Qed.

Lemma row_with {V} (o : option V) (p : V → bool) : from_option p false o = true → ∃ v, o = Some v ∧ p v = true.
Proof. destruct o as [v|]; [by exists v|done]. Qed.

(** Requests with their times and the suffix of the identifiers they make. *)
Fixpoint performed (l : list (Z * string * Request)) (s : Access) : Access :=
  match l with
  | [] => s
  | (now, suffix, r) :: l => performed l (after (serve digest now (named suffix) r) s)
  end.
Fixpoint performs (u : Z) (l : list (Z * string * Request)) (s : Access) : bool :=
  match l with
  | [] => true
  | (now, suffix, r) :: l =>
    (now <? u)%Z && is_ok (serve digest now (named suffix) r s) && performs u l (after (serve digest now (named suffix) r) s)
  end.
Lemma performed_runs u l s : performs u l s = true → runs digest u s (performed l s).
Proof.
  revert s. induction l as [|[[now suffix] r] l IH]; intros s H; simpl in H |- *; [constructor|].
  apply andb_true_iff in H as [[Hu Hok]%andb_true_iff H]. econstructor; [|by apply IH].
  exists now. split; [lia|]. exists (named suffix), r. by apply ok_after_unit.
Qed.

(** * The run *)

Definition T : Tenant := ("w", "e").
Definition enrol_request (key : string) : EnrolRequest := {|
  er_public_key := key; er_name := "desk"; er_hostname := "host"; er_physical_installation := Some "installation-1";
  er_installation_key := Some "ik"; er_printer_grant := "all_local_printers"; er_printer_ids := [] |}.
Definition key32 : string := "0123456789abcdef0123456789abcdef".
Definition spki : string := key32 +:+ key32 +:+ key32.

Definition setup : list (Z * string * Request) := [
  (1, "", BootstrapLocalOwner T "cred" "hash" "Acme" "acme-w" "user" "mail");
  (2, "", CreateApiKey T "key" "pk_1" "secret" ["jobs_write"] None);
  (3, "", CreateEnrolment "tok" T "enrol" (seconds 100));
  (4, "1", Enrol "enrol" (enrol_request "pub") true);
  (5, "", RotateContentKey T "agent1" "ck" CONTENT_KEY_ALGORITHM spki)]%Z%string.
Definition s0 : Access := performed setup no_access.
Lemma s0_runs : runs digest 10 no_access s0.
Proof. apply performed_runs. by vm_compute. Qed.
Lemma s0_wf : wf s0.
Proof. eapply runs_wf; [apply s0_runs|apply no_access_wf]. Qed.

(** * Witnesses *)

Definition s_key : Access := after (revoke_api_key 10 T "key") s0.
Lemma revoked_api_key_never_authenticates_witness :
  ∃ k, revoke_api_key 10 T "key" s0 = Ok (s_key, k)
    ∧ ∀ now', api_key_for_authentication now' k.(ak_lookup_prefix)
        (performed [(11, "", CreateApiKey T "key2" "pk_2" "other" ["jobs_read"] None)]%Z%string s_key) = Err NotFound.
Proof.
  destruct (ok_after (revoke_api_key 10 T "key") s0) as [k Hk]; [by vm_compute|].
  exists k. split; [exact Hk|].
  apply (revoked_api_key_never_authenticates digest 10 20 s0 s_key _ T "key" k s0_wf Hk).
  apply performed_runs. by vm_compute.
Defined.

Definition s_revoked : Access := after (revoke_node 10 T "agent1") s0.
Lemma revoked_node_never_authenticates_witness :
  let s := performed [(11, "", CreateEnrolment "tok2" T "enrol2" 100)]%Z%string s_revoked in
  agent_for_authentication "agent1" s = Err NotFound ∧ agent_for_revocation_authentication "agent1" s = Err NotFound.
Proof.
  apply (revoked_node_never_authenticates digest 10 20 s0 s_revoked _ T "agent1").
  - apply ok_after_unit. by vm_compute.
  - apply performed_runs. by vm_compute.
Defined.

Definition s_nonce : Access := after (reserve_agent_nonce 10 "agent1" "n" 50) s0.
Lemma nonce_accepted_once_until_expiry_witness :
  reserve_agent_nonce 20 "agent1" "n" 60 (performed [(15, "", PurgeExpired)]%Z%string s_nonce)
  = Err ConcurrentStateChange.
Proof.
  apply (nonce_accepted_once_until_expiry digest 10 20 50 s0 s_nonce _ "agent1" "n" 50 60).
  - apply ok_after_unit. by vm_compute.
  - apply performed_runs. by vm_compute.
  - done.
  - done.
Defined.

(** The token redeemed, and redeemed again for a lost response. *)
Definition s_token : Access := performed (take 3 setup) no_access.
Definition redeem (now : Z) (suffix : string) (s : Access) : result StorageError (Access * EnrolledAgent) :=
  enrol_agent_connector_with_billing now (named suffix) digest "enrol" (enrol_request "pub") true s.
Definition s_enrolled : Access :=
  after (enrol_agent_connector_with_billing 4 (named "1") digest "enrol" (enrol_request "pub") true) s_token.
Definition s_later : Access := performed [(7, "", PurgeExpired)]%Z%string s_enrolled.
Lemma later_token i e : s_later.(devices).(enrolment_tokens) !! i = Some e → i = "tok"%string.
Proof.
  intros Hi. assert (Hall : forallb (λ e, bool_decide (e.1 = "tok"%string))
    (map_to_list s_later.(devices).(enrolment_tokens)) = true) by (by vm_compute).
  rewrite forallb_forall in Hall. apply elem_of_map_to_list, list_elem_of_In, Hall, bool_decide_eq_true in Hi. exact Hi.
Qed.
Lemma enrolment_secret_is_single_use_witness :
  ∃ a a' s3, redeem 4 "1" s_token = Ok (s_enrolled, a) ∧ redeem 8 "2" s_later = Ok (s3, a') ∧
    s3 = s_later ∧ a'.(ea_agent) = a.(ea_agent) ∧ a'.(ea_tenant) = a.(ea_tenant)
    ∧ ∃ n, s_later.(devices).(nodes) !! a.(ea_agent) = Some n ∧ n.(no_public_key) = Some "pub"%string
        ∧ n.(no_revoked_at) = None.
Proof.
  destruct (ok_after (enrol_agent_connector_with_billing 4 (named "1") digest "enrol" (enrol_request "pub") true) s_token)
    as [a Ha]; [by vm_compute|].
  destruct (ok_after (enrol_agent_connector_with_billing 8 (named "2") digest "enrol" (enrol_request "pub") true) s_later)
    as [a' Ha']; [by vm_compute|].
  eexists a, a', _. split; [exact Ha|]. split; [exact Ha'|].
  destruct (enrolment_secret_is_single_use digest 4 (named "1") s_token s_enrolled "enrol" (enrol_request "pub") true a Ha)
    as (token & _ & Hlater).
  destruct (Hlater 20%Z s_later) as [(e & He & _) Hagain]; [apply performed_runs; by vm_compute|].
  destruct (Hagain 8%Z (named "2") (enrol_request "pub") true _ a' Ha') as [_ [Hs|(other & e' & Hne & He' & _)]]; [exact Hs|].
  exfalso. apply Hne. by rewrite (later_token _ _ He), (later_token _ _ He').
Defined.

Lemma node_limit_respected_witness :
  (active_nodes "w" s_enrolled ≤ active_nodes "w" s_token)%Z ∨
  ∃ limit, s_enrolled.(accounts).(entitlements) !! "w"%string = Some limit ∧ (active_nodes "w" s_enrolled ≤ limit)%Z.
Proof.
  destruct (ok_after (enrol_agent_connector_with_billing 4 (named "1") digest "enrol" (enrol_request "pub") true) s_token)
    as [a Ha]; [by vm_compute|].
  apply (node_limit_respected digest 4 (named "1") "enrol" (enrol_request "pub") "" s_token s_enrolled a "w").
  - left. exact Ha.
  - assert (Ht : a.(ea_tenant) = T).
    { assert (Hb : match redeem 4 "1" s_token with Ok (_, a) => bool_decide (a.(ea_tenant) = T) | Err _ => false end = true)
        by (by vm_compute).
      unfold redeem in Hb. rewrite Ha in Hb. by apply bool_decide_eq_true in Hb. }
    rewrite Ht. by vm_compute.
Defined.

(** A customer account of a platform, archived, and asked for again. *)
Definition s_platform : Access := performed [
  (10, "", CreatePlatformAccount "acct" "Platform" "ps" T ["jobs_write"] None);
  (11, "c", UpsertChildAccount "acct" "customer" "Customer" "customer-1")]%Z%string s0.
Definition s_archived : Access := after (archive_platform_account 12 "acct" "customer") s_platform.
Lemma archived_account_stays_closed_witness :
  ∃ w row, child_workspace "acct" "customer" s_platform = Some (w, row) ∧
    ∀ now' account' environment, platform_grant_for_authentication now' account' (w, environment)
      (performed [(13, "x", UpsertChildAccount "acct" "customer" "Customer" "customer-1")]%Z%string s_archived)
      = Err NotFound.
Proof.
  apply (archived_account_stays_closed digest 12 20 s_platform s_archived _ "acct" "customer").
  - apply ok_after_unit. by vm_compute.
  - apply performed_runs. by vm_compute.
Defined.

(** A second node, paired in the browser. *)
Definition s_approved : Access := performed [
  (10, "", CreateDevice "dev" "dch" "uch" key32 "installation-2" "till" 1000);
  (11, "", ApproveDevice "dev" "uch" T "user")]%Z%string s0.
Lemma s_approved_wf : wf s_approved.
Proof. eapply (runs_wf digest 20); [|apply s0_wf]. apply performed_runs. by vm_compute. Qed.
Definition s_paired : Access := after (exchange_device_authorization_with_billing 12 (named "2") "dch" false) s_approved.
Definition s_paired_later : Access := performed [(30, "", PurgeExpired)]%Z%string s_paired.
Lemma pairing_yields_one_approved_node_witness :
  ∃ a d user n a' s3, exchange_device_authorization_with_billing 12 (named "2") "dch" false s_approved = Ok (s_paired, a)
    ∧ s_paired.(devices).(device_authorizations) !! "dev"%string = Some d ∧ d.(da_approved_by) = Some user
    ∧ s_paired.(devices).(nodes) !! a.(ea_agent) = Some n ∧ n.(no_public_key) = Some d.(da_public_key)
    ∧ exchange_device_authorization_with_billing 40 (named "3") "dch" false s_paired_later = Ok (s3, a')
    ∧ s3 = s_paired_later ∧ a' = a.
Proof.
  destruct (ok_after (exchange_device_authorization_with_billing 12 (named "2") "dch" false) s_approved) as [a Ha];
    [by vm_compute|].
  destruct (ok_after (exchange_device_authorization_with_billing 40 (named "3") "dch" false) s_paired_later) as [a' Ha'];
    [by vm_compute|].
  destruct (pairing_yields_one_approved_node digest 12 (named "2") "dch" false s_approved s_paired a s_approved_wf Ha)
    as (id & d & user & Hd & Hh & Ht & Hu & Hn & Hlater & _).
  assert (Hid : ∀ i x, s_paired.(devices).(device_authorizations) !! i = Some x →
    i = "dev"%string ∧ x.(da_expires_at) = 1000%Z).
  { intros i x Hi. assert (Hall : forallb (λ e, bool_decide (e.1 = "dev"%string ∧ e.2.(da_expires_at) = 1000%Z))
      (map_to_list s_paired.(devices).(device_authorizations)) = true) by (by vm_compute).
    rewrite forallb_forall in Hall. apply elem_of_map_to_list, list_elem_of_In, Hall, bool_decide_eq_true in Hi. exact Hi. }
  destruct (Hid _ _ Hd) as [-> Hexp].
  destruct (Hn ltac:(vm_compute; reflexivity)) as (n & Hnode & Hk & _).
  set (s3 := after _ s_paired_later) in Ha'.
  destruct (Hlater 100%Z 40%Z (named "3") false s_paired_later s3 a') as [Hs Hag];
    [apply performed_runs; by vm_compute|rewrite Hexp; by vm_compute|exact Ha'|].
  exists a, d, user, n, a', s3. exact (conj Ha (conj Hd (conj Hu (conj Hnode (conj Hk (conj Ha' (conj Hs Hag))))))).
Defined.

Definition s_referenced : Access :=
  after (reference_content_keys 10 T "agent1" "job" [(ENCRYPTED_JOB_V3_RECIPIENT_ALGORITHM, "ck"%string)]) s0.
Definition s_rotated : Access :=
  performed [(11, "", RotateContentKey T "agent1" "ck2" CONTENT_KEY_ALGORITHM (spki +:+ key32))]%Z%string s_referenced.
Lemma content_key_of_a_job_survives_witness :
  ∃ key k1 k2, (ENCRYPTED_JOB_V3_RECIPIENT_ALGORITHM, key) ∈ [(ENCRYPTED_JOB_V3_RECIPIENT_ALGORITHM, "ck"%string)]
    ∧ s_referenced.(devices).(encryption_keys) !! (T, "agent1"%string, key) = Some k1
    ∧ s_rotated.(devices).(encryption_keys) !! (T, "agent1"%string, key) = Some k2 ∧ k2.(ek_material) = k1.(ek_material)
    ∧ (k2.(ek_state) = KeyActive ∨ k2.(ek_state) = KeyDecryptOnly)
    ∧ ∀ now', revoke_content_encryption_key now' T "agent1" key s_rotated = Err NotFound.
Proof.
  apply (content_key_of_a_job_survives digest 10 20 s0 s_referenced s_rotated T "agent1" "job" _ s0_wf).
  - apply ok_after_unit. by vm_compute.
  - apply performed_runs. by vm_compute.
Defined.

(** The node revoked, and a new token for its installation. *)
Definition s_retry : Access := performed [
  (10, "", RevokeNode T "agent1"); (11, "", CreateEnrolment "tok2" T "enrol2" 1000)]%Z%string s0.
Lemma s_retry_wf : wf s_retry.
Proof. eapply (runs_wf digest 20); [|apply s0_wf]. apply performed_runs. by vm_compute. Qed.
Lemma retry_tokens j e : s_retry.(devices).(enrolment_tokens) !! j = Some e → e.(et_tenant) = T.
Proof.
  intros Hi. assert (Hall : forallb (λ e, bool_decide (e.2.(et_tenant) = T))
    (map_to_list s_retry.(devices).(enrolment_tokens)) = true) by (by vm_compute).
  rewrite forallb_forall in Hall. apply elem_of_map_to_list, list_elem_of_In, Hall, bool_decide_eq_true in Hi. exact Hi.
Qed.
Lemma revoked_installation_cannot_reenrol_witness :
  redeemable 12 "enrol2" (new_enrolment T "enrol2" 1000 None None) = true
  ∧ ¬ ∃ s' a, enrol_agent_connector_with_billing 12 (named "2") digest "enrol2" (enrol_request "pub") true s_retry = Ok (s', a).
Proof.
  split; [by vm_compute|].
  destruct (row_with (s_retry.(devices).(connectors) !! "ncon1"%string) (λ k,
    bool_decide (k.(nc_tenant) = T) && bool_decide (k.(nc_installation) = "ninst1"%string)))
    as (k & Hk & [Ht%bool_decide_eq_true Hi%bool_decide_eq_true]%andb_true_iff); [by vm_compute|].
  destruct (row_with (s_retry.(devices).(installations) !! "ninst1"%string) (λ i,
    bool_decide (i.(in_key) = "installation-1"%string))) as (i & Hin & Hb%bool_decide_eq_true); [by vm_compute|].
  apply (revoked_installation_cannot_reenrol digest 12 (named "2") "enrol2" (enrol_request "pub") true s_retry T
    "installation-1" "ncon1" k i s_retry_wf).
  - by vm_compute.
  - exact Hk.
  - exact Ht.
  - rewrite Hi. exact Hin.
  - exact Hb.
  - intros j e Hj _. exact (retry_tokens j e Hj).
  - reflexivity.
Defined.

(** The connector revoked, and the same installation paired again. *)
Definition s_locked : Access := performed [
  (10, "", RevokeConnector T "agent1" "ncon1");
  (11, "", CreateDevice "dev" "dch" "uch" key32 "installation-1" "desk" 1000);
  (12, "", ApproveDevice "dev" "uch" T "user")]%Z%string s0.
Lemma s_locked_wf : wf s_locked.
Proof. eapply (runs_wf digest 20); [|apply s0_wf]. apply performed_runs. by vm_compute. Qed.
Lemma paired_node_stays_locked_out_witness :
  ∃ s' n', exchange_device_authorization_with_billing 13 (named "2") "dch" true s_locked
      = Ok (s', {| ea_agent := "agent1"; ea_tenant := T; ea_connector := None |})
    ∧ s'.(devices).(nodes) !! "agent1"%string = Some n' ∧ n'.(no_public_key) = Some key32
    ∧ agent_for_authentication "agent1" s' = Err NotFound.
Proof.
  destruct (row_with (s_locked.(devices).(connectors) !! "ncon1"%string) (λ k, bool_decide (k.(nc_agent) = "agent1"%string)
    && bool_decide (k.(nc_tenant) = T) && bool_decide (k.(nc_revoked_at) = Some 10%Z)))
    as (k & Hk & [[Ha%bool_decide_eq_true Ht%bool_decide_eq_true]%andb_true_iff Hr%bool_decide_eq_true]%andb_true_iff);
    [by vm_compute|].
  destruct (row_with (node_of_installation T "installation-1" s_locked) (λ x, bool_decide (x.1 = "agent1"%string)))
    as ([agent n] & Hn & Hx%bool_decide_eq_true); [by vm_compute|].
  simpl in Hx. rewrite Hx in Hn.
  apply (paired_node_stays_locked_out 13 (named "2") "dch" true s_locked "dev"
    (set_device DeviceApproved (Some T) (Some "user"%string) None
       (new_device "dch" "uch" key32 "installation-1" "desk" 1000)) T "agent1" n "ncon1" k s_locked_wf).
  - by vm_compute.
  - reflexivity.
  - reflexivity.
  - reflexivity.
  - reflexivity.
  - exact Hn.
  - exact Hk.
  - exact Ha.
  - exact Ht.
  - rewrite Hr. by eexists.
Defined.
