(* ===== verification/DurableFile.v ===== *)
(** The replacement of a small file (crates/node-runtime/src/durable_file.rs): a file system
    whose calls may fail or be cut off by a crash, [replace_json] on it, and the disk that
    its clients are modelled with, which it refines. *)

From S2P Require Import Prelude.

(** * What a client sees *)

(** How one write ends: an error before the rename leaves the old file, an error after it
    (the sync of the directory) the new one. *)
Inductive ReplaceFault := NoFault | BeforeReplace | AfterReplace.

(** The file that processes see, and those that a crash may leave. *)
Record Disk (A : Type) := { visible : option A; possible : list (option A) }.
Arguments visible {A}.
Arguments possible {A}.
Arguments Build_Disk {A}.

Definition settled {A} (o : option A) : Disk A := {| visible := o; possible := [o] |}.
Definition replace {A} (f : ReplaceFault) (a : A) (d : Disk A) : Disk A :=
  match f with
  | NoFault => settled (Some a)
  | BeforeReplace => d
  | AfterReplace => {| visible := Some a; possible := Some a :: d.(possible) |}
  end.
Definition replaced (f : ReplaceFault) : bool := match f with NoFault => true | _ => false end.

(** * A file system *)

(** One directory of names for inodes.  A crash leaves, for each name, its entry in one of
    the states the directory had since it was synced, and the content of the inodes that
    were synced. *)
Record Fs := {
  entries : gmap string N;
  earlier : list (gmap string N);
  content : gmap N string;
  synced : gmap N string
}.

Definition read_file (p : string) (fs : Fs) : option string := fs.(entries) !! p ≫= λ i, fs.(content) !! i.
Definition on_entries (f : gmap string N → gmap string N) (fs : Fs) : Fs :=
  {| entries := f fs.(entries); earlier := fs.(entries) :: fs.(earlier); content := fs.(content); synced := fs.(synced) |}.

Definition remove_file (p : string) : Fs → Fs := on_entries (delete p).
Definition rename (staged p : string) (fs : Fs) : Fs :=
  match fs.(entries) !! staged with
  | Some i => on_entries (λ e, <[p := i]> (delete staged e)) fs
  | None => fs
  end.
Definition create (p : string) (i : N) (fs : Fs) : Fs :=
  let fs := on_entries <[p := i]> fs in
  {| entries := fs.(entries); earlier := fs.(earlier); content := <[i := EmptyString]> fs.(content);
     synced := fs.(synced) |}.
Definition write_content (i : N) (b : string) (fs : Fs) : Fs :=
  {| entries := fs.(entries); earlier := fs.(earlier); content := <[i := b]> fs.(content);
     synced := delete i fs.(synced) |}.
Definition sync_file (i : N) (fs : Fs) : Fs :=
  {| entries := fs.(entries); earlier := fs.(earlier); content := fs.(content);
     synced := match fs.(content) !! i with Some b => <[i := b]> fs.(synced) | None => fs.(synced) end |}.
Definition sync_directory (fs : Fs) : Fs :=
  {| entries := fs.(entries); earlier := []; content := fs.(content); synced := fs.(synced) |}.

Record crash (fs fs' : Fs) : Prop := {
  cr_entries p : ∃ d, d ∈ fs.(entries) :: fs.(earlier) ∧ fs'.(entries) !! p = d !! p;
  cr_content i b : fs.(synced) !! i = Some b → fs'.(content) !! i = Some b;
  cr_earlier : fs'.(earlier) = [];
  cr_synced : fs'.(synced) = fs'.(content)
}.

(** * Calls *)

(** How a call goes: it succeeds, reports an error, or is cut off; the number says how far a
    write came, or whether a call took effect before the crash. *)
Inductive Outcome := Succeeds | Fails (n : nat) | Crashes (n : nat).
Inductive Ran (A : Type) := Returned (a : A) | Failed | Crashed.
Arguments Returned {A} a.
Arguments Failed {A}.
Arguments Crashed {A}.

Definition Calls (A : Type) : Type := list Outcome → Fs → list Outcome * Fs * Ran A.
#[export] Instance calls_ret : MRet Calls := λ A a script fs, (script, fs, Returned a).
#[export] Instance calls_bind : MBind Calls := λ A B f m script fs,
  match m script fs with
  | (script, fs, Returned a) => f a script fs
  | (script, fs, Failed) => (script, fs, Failed)
  | (script, fs, Crashed) => (script, fs, Crashed)
  end.

(** A call with its effect, its effect when it reports an error, and when it is cut off. *)
Definition call (effect : Fs → Fs) (failing crashing : nat → Fs → Fs) : Calls unit := λ script fs,
  match script with
  | [] => ([], effect fs, Returned ())
  | Succeeds :: script => (script, effect fs, Returned ())
  | Fails n :: script => (script, failing n fs, Failed)
  | Crashes n :: script => (script, crashing n fs, Crashed)
  end.
(** A call that takes effect as a whole. *)
Definition either (effect : Fs → Fs) (n : nat) : Fs → Fs := match n with O => id | _ => effect end.
Definition whole (effect : Fs → Fs) : Calls unit := call effect (λ _, id) (either effect).
(** [let _ = call]: an error is ignored. *)
Definition ignored (m : Calls unit) : Calls unit := λ script fs,
  match m script fs with (script, fs, Failed) => (script, fs, Returned ()) | r => r end.

Definition look {A} (f : Fs → A) : Calls A := λ script fs, (script, fs, Returned (f fs)).
Definition fails {A} : Calls A := λ script fs, (script, fs, Failed).

(** [OpenOptions::create_new]: an existing file is an error. *)
Definition open_new (p : string) : Calls N :=
  taken ← look (λ fs, bool_decide (is_Some (fs.(entries) !! p)));
  i ← look (λ fs, fresh (dom fs.(content)));
  if taken : bool then fails else _ ← whole (create p i); mret i.
Definition write_all (i : N) (b : string) : Calls unit :=
  let partly n := write_content i (String.substring 0 n b) in call (write_content i b) partly partly.

(** [Path::with_extension] on a file name. *)
Fixpoint file_stem (name : string) : option string :=
  match name with
  | EmptyString => None
  | String c rest =>
    match file_stem rest with
    | Some stem => Some (String c stem)
    | None => if Ascii.eqb c (Ascii.ascii_of_N 46) then Some EmptyString else None
    end
  end.
Definition with_extension (name extension : string) : string :=
  (match file_stem name with
   | Some EmptyString | None => name
   | Some stem => stem
   end) +:+ "." +:+ extension.

Definition replace_json (path b : string) : Calls unit :=
  _ ← whole id;
  let staged := with_extension path "json.replacing" in
  _ ← ignored (whole (remove_file staged));
  i ← open_new staged;
  _ ← write_all i b;
  _ ← call (sync_file i) (either (sync_file i)) (either (sync_file i));
  _ ← whole (rename staged path);
  call sync_directory (either sync_directory) (either sync_directory).

(** * The disk is what the file system gives *)

(** The inode of an entry, if there is one, has its content for sure. *)
Definition surely (fs : Fs) (e : option N) (o : option string) : Prop :=
  match e with
  | Some i => ∃ b, o = Some b ∧ fs.(synced) !! i = Some b ∧ fs.(content) !! i = Some b
  | None => o = None
  end.

Record fs_wf (fs : Fs) : Prop := {
  fw_entries d p i : d ∈ fs.(entries) :: fs.(earlier) → d !! p = Some i → is_Some (fs.(content) !! i);
  fw_synced i b : fs.(synced) !! i = Some b → fs.(content) !! i = Some b
}.
Record stores (fs : Fs) (p : string) (d : Disk string) : Prop := {
  st_visible : surely fs (fs.(entries) !! p) d.(visible);
  st_possible e : e ∈ fs.(entries) :: fs.(earlier) → ∃ o, o ∈ d.(possible) ∧ surely fs (e !! p) o
}.

Lemma stores_read fs p d : stores fs p d → read_file p fs = d.(visible).
Proof.
  intros [Hv _]. unfold read_file. destruct (_ !! p) as [i|]; simpl in *; [|done].
  by destruct Hv as (b & -> & _ & ->).
Qed.

Lemma stores_mono fs p d d' : stores fs p d → d'.(visible) = d.(visible) → d.(possible) ⊆ d'.(possible) → stores fs p d'.
Proof.
  intros [Hv Hp] E Hsub. split; [by rewrite E|]. intros e He. destruct (Hp e He) as (o & Ho & Hs).
  exists o. split; [by apply Hsub|done].
Qed.

(** A crash leaves one of the possible files. *)
Lemma crash_settles fs fs' p d : stores fs p d → crash fs fs' →
  ∃ o, o ∈ d.(possible) ∧ stores fs' p (settled o).
Proof.
  intros [_ Hp] [He Hc Hl Hs]. destruct (He p) as (e & Hin & Hep). destruct (Hp e Hin) as (o & Ho & Hsure).
  exists o. split; [done|]. assert (Hs' : surely fs' (fs'.(entries) !! p) o).
  { rewrite Hep. destruct (e !! p) as [i|]; [|done]. destruct Hsure as (b & -> & Hi & _). exists b.
    rewrite Hs. by rewrite (Hc _ _ Hi). }
  split; [done|]. rewrite Hl. intros x ->%list_elem_of_singleton. exists o. split; [left|done].
Qed.

(** Changes that do not touch the file. *)
Lemma stores_entries fs p d f : (∀ e : gmap string N, f e !! p = e !! p) → stores fs p d → stores (on_entries f fs) p d.
Proof.
  intros Hf [Hv Hp]. split; simpl.
  - by rewrite Hf.
  - intros e [->|He]%elem_of_cons; [|by apply Hp]. rewrite Hf. apply (Hp fs.(entries)). left.
Qed.
Lemma surely_other fs fs' e o i :
  e ≠ Some i → (∀ j, j ≠ i → fs'.(content) !! j = fs.(content) !! j ∧ fs'.(synced) !! j = fs.(synced) !! j) →
  surely fs e o → surely fs' e o.
Proof.
  intros Hi Hsame. destruct e as [j|]; [|done]. simpl. intros (b & -> & Hs & Hc). exists b.
  destruct (Hsame j) as [-> ->]; [congruence|done].
Qed.

(** An inode that no entry of the file refers to. *)
Definition unused (fs : Fs) (p : string) (i : N) : Prop := ∀ e, e ∈ fs.(entries) :: fs.(earlier) → e !! p ≠ Some i.
Lemma stores_inode fs fs' p d i :
  unused fs p i → fs'.(entries) = fs.(entries) → fs'.(earlier) = fs.(earlier) →
  (∀ j, j ≠ i → fs'.(content) !! j = fs.(content) !! j ∧ fs'.(synced) !! j = fs.(synced) !! j) →
  stores fs p d → stores fs' p d.
Proof.
  intros Hu He Hl Hsame [Hv Hp]. split; rewrite ?He, ?Hl.
  - eapply surely_other; [|done|done]. apply Hu. left.
  - intros e Hin. destruct (Hp e Hin) as (o & Ho & Hs). exists o. split; [done|].
    eapply surely_other; [by apply Hu|done|done].
Qed.

(** ** Triples: what holds after a call, and after one that did not return *)

Definition triple {A} (P : Fs → Prop) (m : Calls A) (Q : A → Fs → Prop) (E : Fs → Prop) : Prop :=
  ∀ script fs, P fs → match m script fs with
                      | (_, fs', Returned a) => Q a fs'
                      | (_, fs', _) => E fs'
                      end.

Lemma calls_triple_bind {A B} P (m : Calls A) (f : A → Calls B) Q R E :
  triple P m Q E → (∀ a, triple (Q a) (f a) R E) → triple P (m ≫= f) R E.
Proof.
  intros Hm Hf script fs HP. unfold mbind, calls_bind. specialize (Hm script fs HP).
  destruct (m script fs) as [[script' fs'] [a| |]]; [by apply Hf|done|done].
Qed.
Lemma triple_call P effect failing crashing (Q : Fs → Prop) (E : Fs → Prop) :
  (∀ fs, P fs → Q (effect fs)) → (∀ n fs, P fs → E (failing n fs)) → (∀ n fs, P fs → E (crashing n fs)) →
  triple P (call effect failing crashing) (λ _, Q) E.
Proof. intros HQ HF HC [|[|n|n] script] fs HP; simpl; auto. Qed.
Lemma triple_whole P effect (Q E : Fs → Prop) :
  (∀ fs, P fs → Q (effect fs)) → (∀ fs, P fs → E fs) → (∀ fs, Q fs → E fs) → triple P (whole effect) (λ _, Q) E.
Proof. intros HQ HE HQE. apply triple_call; [done|auto|]. intros [|n] fs HP; simpl; auto. Qed.
Lemma triple_look {A} (P : Fs → Prop) (f : Fs → A) E : triple P (look f) (λ a fs, P fs ∧ a = f fs) E.
Proof. by intros script fs HP. Qed.
Lemma calls_triple_weaken {A} (P P' : Fs → Prop) (m : Calls A) (Q Q' : A → Fs → Prop) E :
  triple P' m Q' E → (∀ fs, P fs → P' fs) → (∀ a fs, Q' a fs → Q a fs) → triple P m Q E.
Proof.
  intros Hm HP HQ script fs H. specialize (Hm script fs (HP fs H)). destruct (m script fs) as [[? ?] [?| |]]; auto.
Qed.

(** ** The replacement *)

Section replacement.
Variables (p b : string) (d : Disk string).
Let staged := with_extension p "json.replacing".
Hypothesis Hstaged : staged ≠ p.

Definition untouched (fs : Fs) : Prop := fs_wf fs ∧ stores fs p d.
Definition staging (i : N) (fs : Fs) : Prop := untouched fs ∧ unused fs p i ∧ fs.(entries) !! staged = Some i.
Definition staged_content (i : N) (fs : Fs) : Prop := staging i fs ∧ fs.(content) !! i = Some b.
Definition staged_durably (i : N) (fs : Fs) : Prop := staged_content i fs ∧ fs.(synced) !! i = Some b.
(** The old file, or the new one on top of it. *)
Definition unsettled (fs : Fs) : Prop :=
  fs_wf fs ∧ (stores fs p (replace BeforeReplace b d) ∨ stores fs p (replace AfterReplace b d)).

Lemma untouched_unsettled fs : untouched fs → unsettled fs.
Proof. intros [? ?]. by split; [|left]. Qed.
Lemma staging_unsettled i fs : staging i fs → unsettled fs.
Proof. intros [? _]. by apply untouched_unsettled. Qed.

Lemma wf_entries fs f : fs_wf fs → (∀ q i, f fs.(entries) !! q = Some i → is_Some (fs.(content) !! i)) → fs_wf (on_entries f fs).
Proof.
  intros [He Hs] Hf. split; [|done]. intros e q i [->|Hin]%elem_of_cons Hq; simpl in *; [by eapply Hf|by eapply He].
Qed.

Lemma remove_untouched fs : untouched fs → untouched (remove_file staged fs).
Proof.
  intros [Hwf Hst]. split.
  - apply wf_entries; [done|]. intros q i [_ Hq]%lookup_delete_Some. eapply (fw_entries _ Hwf); [left|done].
  - apply stores_entries; [|done]. intros e. by rewrite lookup_delete_ne.
Qed.

Lemma create_staging fs i : untouched fs → fs.(content) !! i = None → staging i (create staged i fs).
Proof.
  intros [Hwf Hst] Hi.
  assert (Hu : ∀ e q, e ∈ fs.(entries) :: fs.(earlier) → e !! q ≠ Some i).
  { intros e q He Hq. destruct (fw_entries _ Hwf _ _ _ He Hq) as [x Hx]. congruence. }
  assert (Hst' : stores (on_entries <[staged := i]> fs) p d).
  { apply stores_entries; [|done]. intros e. by rewrite lookup_insert_ne. }
  assert (Hun : unused (create staged i fs) p i).
  { intros e [->|He]%elem_of_cons; simpl in *; [|by apply Hu]. rewrite lookup_insert_ne by done. apply Hu. left. }
  split; [split|split; [done|by simpl; rewrite lookup_insert_eq]].
  - split; simpl.
    + intros e q j [->|He]%elem_of_cons Hq.
      * destruct (decide (j = i)) as [->|]; [by rewrite lookup_insert_eq|]. rewrite lookup_insert_ne by done.
        apply lookup_insert_Some in Hq as [[_ ?]|[_ Hq]]; [done|]. eapply (fw_entries _ Hwf); [left|done].
      * destruct (decide (j = i)) as [->|]; [by rewrite lookup_insert_eq|]. rewrite lookup_insert_ne by done.
        by eapply (fw_entries _ Hwf).
    + intros j x Hj. pose proof (fw_synced _ Hwf _ _ Hj). rewrite lookup_insert_ne; [done|congruence].
  - eapply (stores_inode (on_entries <[staged := i]> fs)); [exact Hun|done|done| |done].
    intros j Hj. simpl. by rewrite lookup_insert_ne.
Qed.

Lemma write_staging fs i x : staging i fs → staging i (write_content i x fs) ∧ (write_content i x fs).(content) !! i = Some x.
Proof.
  intros ([Hwf Hst] & Hu & Hi). split; [|by simpl; rewrite lookup_insert_eq]. split; [split|done].
  - split; simpl.
    + intros e q j He Hq. destruct (decide (j = i)) as [->|]; [by rewrite lookup_insert_eq|].
      rewrite lookup_insert_ne by done. by eapply (fw_entries _ Hwf).
    + intros j y [Hne Hj]%lookup_delete_Some. rewrite lookup_insert_ne by done. by apply (fw_synced _ Hwf).
  - eapply (stores_inode fs); [exact Hu|done|done| |done]. intros j Hj. simpl. by rewrite lookup_insert_ne, lookup_delete_ne.
Qed.

Lemma sync_staging fs i : staged_content i fs → staged_durably i (sync_file i fs).
Proof.
  intros [([Hwf Hst] & Hu & Hi) Hc]. unfold staged_durably, staged_content, staging, untouched, sync_file. rewrite Hc.
  split_and!; try done; [| |by simpl; rewrite lookup_insert_eq].
  - split; simpl; [apply (fw_entries _ Hwf)|]. intros j y [[<- <-]|[_ Hj]]%lookup_insert_Some; [done|by apply (fw_synced _ Hwf)].
  - eapply (stores_inode fs); [exact Hu|done|done| |done]. intros j Hj. simpl. by rewrite lookup_insert_ne.
Qed.

Lemma rename_replaces fs i : staged_durably i fs →
  fs_wf (rename staged p fs) ∧ stores (rename staged p fs) p (replace AfterReplace b d).
Proof.
  intros [[([Hwf Hst] & Hu & Hi) Hc] Hs]. unfold rename. rewrite Hi. split.
  - apply wf_entries; [done|]. intros q j [[_ <-]|[_ [_ Hq]%lookup_delete_Some]]%lookup_insert_Some; [done|].
    eapply (fw_entries _ Hwf); [left|done].
  - split; simpl.
    + rewrite lookup_insert_eq. by exists b.
    + intros e [->|He]%elem_of_cons.
      * exists (Some b). split; [left|]. simpl. rewrite lookup_insert_eq. by exists b.
      * destruct (st_possible _ _ _ Hst e He) as (o & Ho & Hsure). exists o. split; [by right|done].
Qed.
Lemma sync_settles fs : fs_wf fs → stores fs p (replace AfterReplace b d) →
  fs_wf (sync_directory fs) ∧ stores (sync_directory fs) p (settled (Some b)).
Proof.
  intros Hwf Hst. split.
  - split; [|apply (fw_synced _ Hwf)]. intros e q i ->%list_elem_of_singleton. apply (fw_entries _ Hwf). left.
  - split; [apply (st_visible _ _ _ Hst)|]. intros e ->%list_elem_of_singleton. exists (Some b). split; [left|].
    apply (st_visible _ _ _ Hst).
Qed.

Lemma replace_json_triple :
  triple untouched (replace_json p b) (λ _ fs, fs_wf fs ∧ stores fs p (settled (Some b))) unsettled.
Proof.
  unfold replace_json. fold staged. eapply (calls_triple_bind _ _ _ (λ _, untouched)).
  { apply triple_whole; [done|apply untouched_unsettled|apply untouched_unsettled]. }
  intros _. eapply (calls_triple_bind _ _ _ (λ _, untouched)).
  { intros [|[|n|[|n]] script] fs Hfs; simpl; auto using remove_untouched, untouched_unsettled. }
  intros _. eapply (calls_triple_bind _ _ _ staging).
  { unfold open_new. eapply calls_triple_bind; [apply triple_look|]. intros taken.
    eapply calls_triple_bind; [apply (triple_look (λ fs, untouched fs ∧ taken = _))|]. intros i. destruct taken.
    - intros script fs [[Hfs _] _]. by apply untouched_unsettled.
    - eapply (calls_triple_bind _ _ _ (λ _, staging i)); [|by intros _ script fs Hfs].
      apply triple_whole; [|by intros fs [[? _] _]; apply untouched_unsettled|apply staging_unsettled].
      intros fs [[Hfs _] ->]. apply create_staging; [done|]. apply not_elem_of_dom. apply is_fresh. }
  intros i. eapply (calls_triple_bind _ _ _ (λ _, staged_content i)).
  { unfold write_all. apply triple_call; [intros fs; apply write_staging|..];
      intros n fs Hfs; eapply staging_unsettled, write_staging, Hfs. }
  intros _. eapply (calls_triple_bind _ _ _ (λ _, staged_durably i)).
  { apply triple_call; [intros fs; apply sync_staging|..]; intros [|n] fs Hfs; eapply staging_unsettled;
      first [exact (proj1 Hfs)|exact (proj1 (proj1 (sync_staging _ _ Hfs)))]. }
  intros _. eapply (calls_triple_bind _ _ _ (λ _ fs, fs_wf fs ∧ stores fs p (replace AfterReplace b d))).
  { apply triple_whole; [intros fs; apply rename_replaces|intros fs Hfs; eapply staging_unsettled, Hfs|].
    intros fs [? ?]. by split; [|right]. }
  assert (Hsync : ∀ n fs, fs_wf fs ∧ stores fs p (replace AfterReplace b d) → unsettled (either sync_directory n fs)).
  { intros [|n] fs [Hwf Hst]; [by split; [|right]|]. destruct (sync_settles _ Hwf Hst) as [Hwf' Hst'].
    split; [done|right]. apply (stores_mono _ _ _ _ Hst'); [done|set_solver]. }
  intros _. apply triple_call; [by intros fs [? ?]; apply sync_settles|done|done].
Qed.
End replacement.

(** C18: whatever fails and wherever a crash cuts it off, a replacement leaves the file as it
    was or with the new bytes: it acts on what processes see, and on what a crash may leave,
    as [replace] does on the disk of its clients.  When it returns, the file has the new
    bytes, also after a crash. *)
Theorem replacement_is_atomic p b script fs d :
  with_extension p "json.replacing" ≠ p → fs_wf fs → stores fs p d →
  let '(_, fs', r) := replace_json p b script fs in
  ∃ f, stores fs' p (replace f b d) ∧ fs_wf fs' ∧ (r = Returned () ↔ f = NoFault)
    ∧ read_file p fs' = (replace f b d).(visible)
    ∧ (∀ fs'', crash fs' fs'' → read_file p fs'' ∈ (replace f b d).(possible)).
Proof.
  intros Hp Hwf Hst. pose proof (replace_json_triple p b d Hp script fs (conj Hwf Hst)) as Ht.
  destruct (replace_json p b script fs) as [[script' fs'] r].
  assert (Hall : ∀ f, stores fs' p (replace f b d) → read_file p fs' = (replace f b d).(visible)
    ∧ (∀ fs'', crash fs' fs'' → read_file p fs'' ∈ (replace f b d).(possible))).
  { intros f Hs. split; [by apply stores_read|]. intros fs'' Hc.
    destruct (crash_settles _ _ _ _ Hs Hc) as (o & Ho & Hs'). by rewrite (stores_read _ _ _ Hs'). }
  destruct r as [[]| |]; simpl in Ht.
  - destruct Ht as [Hwf' Hs]. exists NoFault. destruct (Hall NoFault Hs). done.
  - destruct Ht as [Hwf' [Hs|Hs]]; eexists; (split; [exact Hs|]); destruct (Hall _ Hs); done.
  - destruct Ht as [Hwf' [Hs|Hs]]; eexists; (split; [exact Hs|]); destruct (Hall _ Hs); done.
Qed.

(** A directory with one file, and a replacement whose directory sync fails. *)
Module Demo.
Definition fs0 : Fs :=
  {| entries := {["connectors.json" := 0%N]}; earlier := []; content := {[0%N := "old"]}; synced := {[0%N := "old"]} |}.
Definition script : list Outcome := [Succeeds; Fails 0; Succeeds; Succeeds; Succeeds; Succeeds; Fails 0].

Lemma fs0_wf : fs_wf fs0.
Proof.
  split.
  - intros d p i ->%list_elem_of_singleton Hi. cbn [fs0 entries] in Hi. apply lookup_singleton_Some in Hi as [_ <-]. by eexists.
  - done.
Qed.
Lemma fs0_stores : stores fs0 "connectors.json" (settled (Some "old")).
Proof.
  split.
  - simpl. rewrite lookup_singleton_eq. by exists "old".
  - intros e ->%list_elem_of_singleton. exists (Some "old"). split; [left|]. simpl. rewrite lookup_singleton_eq. by exists "old".
Qed.
Lemma replacement_is_atomic_witness :
  let '(_, fs', r) := replace_json "connectors.json" "new" script fs0 in
  r = Failed ∧ read_file "connectors.json" fs' = Some "new"
  ∧ ∃ f, read_file "connectors.json" fs' = (replace f "new" (settled (Some "old"))).(visible)
    ∧ ∀ fs'', crash fs' fs'' → read_file "connectors.json" fs'' ∈ (replace f "new" (settled (Some "old"))).(possible).
Proof.
  assert (Hne : with_extension "connectors.json" "json.replacing" ≠ "connectors.json") by (vm_compute; discriminate).
  pose proof (replacement_is_atomic "connectors.json" "new" script fs0 _ Hne fs0_wf fs0_stores) as Ht.
  assert (Hr : (match replace_json "connectors.json" "new" script fs0 with
    | (_, fs', Failed) => bool_decide (read_file "connectors.json" fs' = Some "new") | _ => false end) = true)
    by (vm_compute; reflexivity).
  destruct (replace_json "connectors.json" "new" script fs0) as [[script' fs'] r].
  destruct Ht as (f & _ & _ & _ & H1 & H2). destruct r as [x| |]; [discriminate Hr| |discriminate Hr].
  apply bool_decide_eq_true in Hr. exact (conj eq_refl (conj Hr (ex_intro _ f (conj H1 H2)))).
Defined.
End Demo.
