(* ===== verification/NodeRegistry.v ===== *)
(** The connectors of a node (crates/node-runtime/src/connector_registry.rs) and their keys
    (crates/node-runtime/src/connector_enrollment.rs): records of the control planes a node
    works for, the keys prepared for invitations, the keys to delete, all in one file that
    every change replaces.

    The fields of a record that only describe it are its [cr_about]; URLs are those of the
    url crate; a path is separated by slashes.  Keys are kept by the platform: the registry
    knows their handles. *)

From S2P Require Import Prelude Domain DurableFile.

Class UrlApi := {
  Url : Type;
  url_scheme : Url → string;
  url_host : Url → option string;
  url_username : Url → string;
  url_password : Url → option string;
  url_fragment : Url → option string;
  url_origin : Url → string
}.

Definition REGISTRY_VERSION : N := 1.
Definition MAX_CONNECTORS : nat := 128.

Inductive PrinterGrant := SelectedPrinters | AllLocalPrinters.
#[export] Instance PrinterGrant_eq_dec : EqDecision PrinterGrant.
Proof. solve_decision. Defined.

Abbreviation SecureKeyHandle := string.

Record InstallationSigningIdentity := {
  in_installation_id : string;
  in_handle : SecureKeyHandle;
  in_public_key : string
}.
Record PreparedConnectorKey := {
  pk_handle : SecureKeyHandle;
  pk_public_key : string;
  pk_expires_unix_ms : Z
}.

Inductive RegistryError :=
| InvalidConnectorId | InvalidAgentId | UnsupportedScheme | UnsafeManageUrl | PlaintextUrl | CredentialCount
| KeyPathEscapes | InvalidGrants | InvalidReconciliation
| ParseFailed | UnsupportedVersion | TooManyConnectors | DuplicateConnector | KeyStateBounds | KeyStateOverlap
| RevocationMismatch | PersistFailed | ConnectorNotFound | IdentityExists | InvalidIdentity | PreparedKeyInvalid
| NoSecureKey | NotPrepared | PreparationExpired | ConnectorExists | ConnectorActive | KeyActive
| InvalidRequest | GrantMismatch | InvitationExpired | ProviderFailed | AuthorityFailed.

(** [u8::is_ascii_alphanumeric]. *)
Definition is_ascii_alphanumeric (c : ascii) : bool :=
  let n := N_of_ascii c in
  ((48 <=? n) && (n <=? 57) || (65 <=? n) && (n <=? 90) || (97 <=? n) && (n <=? 122))%N.

(** The parts of a path between its slashes; an absolute path starts with an empty one. *)
Fixpoint path_parts (current : string) (s : string) : list string :=
  match s with
  | String.EmptyString => [current]
  | String.String c rest =>
    if Ascii.eqb c (Ascii.ascii_of_N 47) then current :: path_parts String.EmptyString rest
    else path_parts (current +:+ String.String c String.EmptyString) rest
  end.
Definition escapes (path : string) : bool :=
  String.prefix "/" path || existsb (λ part, bool_decide (part = ".."%string)) (path_parts "" path).

(** By physical group of printers, by origin of the control plane: the connectors. *)
Abbreviation Groups := (gmap string (gmap string (gset string))).

Section registry.
Context `{UrlApi}.

Record ConnectorRecord := {
  cr_connector_id : string;
  cr_agent_id : string;
  cr_control_plane_url : Url;
  cr_about : list (option string);
  cr_manage_url : option Url;
  cr_device_key_file : option string;
  cr_secure_key_handle : option SecureKeyHandle;
  cr_enabled : bool;
  cr_printer_grant : PrinterGrant;
  cr_allowed_printer_ids : list string;
  cr_node_identity_revision : option N;
  cr_node_identity_applied_local_revision : option N;
  cr_node_identity_conflict_revision : option N;
  cr_node_identity_conflict_local_revision : option N
}.

Definition set_enabled (b : bool) (r : ConnectorRecord) : ConnectorRecord :=
  {| cr_connector_id := r.(cr_connector_id); cr_agent_id := r.(cr_agent_id);
     cr_control_plane_url := r.(cr_control_plane_url); cr_about := r.(cr_about); cr_manage_url := r.(cr_manage_url);
     cr_device_key_file := r.(cr_device_key_file); cr_secure_key_handle := r.(cr_secure_key_handle);
     cr_enabled := b; cr_printer_grant := r.(cr_printer_grant); cr_allowed_printer_ids := r.(cr_allowed_printer_ids);
     cr_node_identity_revision := r.(cr_node_identity_revision);
     cr_node_identity_applied_local_revision := r.(cr_node_identity_applied_local_revision);
     cr_node_identity_conflict_revision := r.(cr_node_identity_conflict_revision);
     cr_node_identity_conflict_local_revision := r.(cr_node_identity_conflict_local_revision) |}.
Definition set_allowed (ids : list string) (r : ConnectorRecord) : ConnectorRecord :=
  {| cr_connector_id := r.(cr_connector_id); cr_agent_id := r.(cr_agent_id);
     cr_control_plane_url := r.(cr_control_plane_url); cr_about := r.(cr_about); cr_manage_url := r.(cr_manage_url);
     cr_device_key_file := r.(cr_device_key_file); cr_secure_key_handle := r.(cr_secure_key_handle);
     cr_enabled := r.(cr_enabled); cr_printer_grant := r.(cr_printer_grant); cr_allowed_printer_ids := ids;
     cr_node_identity_revision := r.(cr_node_identity_revision);
     cr_node_identity_applied_local_revision := r.(cr_node_identity_applied_local_revision);
     cr_node_identity_conflict_revision := r.(cr_node_identity_conflict_revision);
     cr_node_identity_conflict_local_revision := r.(cr_node_identity_conflict_local_revision) |}.
Definition set_reconciliation (server applied conflict conflict_local : option N) (r : ConnectorRecord) : ConnectorRecord :=
  {| cr_connector_id := r.(cr_connector_id); cr_agent_id := r.(cr_agent_id);
     cr_control_plane_url := r.(cr_control_plane_url); cr_about := r.(cr_about); cr_manage_url := r.(cr_manage_url);
     cr_device_key_file := r.(cr_device_key_file); cr_secure_key_handle := r.(cr_secure_key_handle);
     cr_enabled := r.(cr_enabled); cr_printer_grant := r.(cr_printer_grant);
     cr_allowed_printer_ids := r.(cr_allowed_printer_ids); cr_node_identity_revision := server;
     cr_node_identity_applied_local_revision := applied; cr_node_identity_conflict_revision := conflict;
     cr_node_identity_conflict_local_revision := conflict_local |}.

(** * Validation *)

Definition loopback (url : Url) : bool :=
  from_option (λ host, bool_decide (host ∈ ["localhost"; "127.0.0.1"; "::1"]%string)) false (url_host url).
Definition bare (url : Url) : bool :=
  bool_decide (url_username url = ""%string) && bool_decide (url_password url = None)
  && bool_decide (url_fragment url = None).
Definition operator_safe (url : Url) : bool :=
  (bool_decide (url_scheme url = "https"%string) || bool_decide (url_scheme url = "http"%string) && loopback url) && bare url.

Definition revisions (r : ConnectorRecord) : list (option N) :=
  [r.(cr_node_identity_revision); r.(cr_node_identity_applied_local_revision);
   r.(cr_node_identity_conflict_revision); r.(cr_node_identity_conflict_local_revision)].

Definition check (b : bool) (e : RegistryError) : result RegistryError unit := if b then Ok () else Err e.

Definition validate_record (r : ConnectorRecord) : result RegistryError unit :=
  _ ← check ((String.length r.(cr_connector_id) <=? 128) && String.prefix "ncon_" r.(cr_connector_id)
             && bytes_all (λ c, is_ascii_alphanumeric c || Ascii.eqb c Id.underscore) r.(cr_connector_id)) InvalidConnectorId;
  _ ← check ((String.length r.(cr_agent_id) <=? 128) && String.prefix "agt_" r.(cr_agent_id)) InvalidAgentId;
  _ ← check (bool_decide (url_scheme r.(cr_control_plane_url) ∈ ["https"; "http"]%string)) UnsupportedScheme;
  _ ← check (from_option operator_safe true r.(cr_manage_url)) UnsafeManageUrl;
  _ ← check (negb (bool_decide (url_scheme r.(cr_control_plane_url) = "http"%string)) || loopback r.(cr_control_plane_url))
        PlaintextUrl;
  _ ← check (negb (Bool.eqb (bool_decide (is_Some r.(cr_device_key_file))) (bool_decide (is_Some r.(cr_secure_key_handle)))))
        CredentialCount;
  _ ← check (negb (from_option escapes false r.(cr_device_key_file))) KeyPathEscapes;
  _ ← check (Bool.eqb (bool_decide (r.(cr_printer_grant) = AllLocalPrinters)) (bool_decide (r.(cr_allowed_printer_ids) = []))
             && (length r.(cr_allowed_printer_ids) <=? 128)
             && forallb (λ i, negb (bool_decide (i = ""%string)) && (String.length i <=? 128)) r.(cr_allowed_printer_ids)
             && bool_decide (NoDup r.(cr_allowed_printer_ids))) InvalidGrants;
  check (forallb (λ o, negb (bool_decide (o = Some 0%N))) (revisions r)
         && Bool.eqb (bool_decide (is_Some r.(cr_node_identity_conflict_revision)))
              (bool_decide (is_Some r.(cr_node_identity_conflict_local_revision)))) InvalidReconciliation.

Definition has_handle (handle : SecureKeyHandle) (r : ConnectorRecord) : bool :=
  bool_decide (r.(cr_secure_key_handle) = Some handle).
Definition validate_key_state (records : gmap string ConnectorRecord) (prepared : list PreparedConnectorKey)
    (cleanup : list SecureKeyHandle) : result RegistryError unit :=
  _ ← check ((length prepared <=? MAX_CONNECTORS) && (length cleanup <=? MAX_CONNECTORS * 2)) KeyStateBounds;
  check (forallb (λ p, negb (existsb (λ e : string * ConnectorRecord, has_handle p.(pk_handle) e.2) (map_to_list records))
                       && negb (bool_decide (p.(pk_handle) ∈ cleanup))) prepared) KeyStateOverlap.
Definition revocations_match (records : gmap string ConnectorRecord) (revoked : list string) : bool :=
  forallb (λ id, from_option (λ r, negb r.(cr_enabled)) false (records !! id)) revoked.

(** * Authorities that share printers *)

Definition add_member (key origin id : string) (groups : Groups) : Groups :=
  partial_alter (λ m, Some (partial_alter (λ s, Some ({[id]} ∪ default ∅ s)) origin (default ∅ m))) key groups.
Definition grants (r : ConnectorRecord) (printer : string) : bool :=
  bool_decide (r.(cr_printer_grant) = AllLocalPrinters ∨ printer ∈ r.(cr_allowed_printer_ids)).
Definition authority_groups (rs : list ConnectorRecord) (printer_groups : list (string * string)) : Groups :=
  foldl (λ groups r, foldl (λ (groups : Groups) '(printer, key),
      if grants r printer then add_member key (url_origin r.(cr_control_plane_url)) r.(cr_connector_id) groups else groups)
    groups printer_groups) ∅ (filter (λ r, r.(cr_enabled) = true) rs).
Definition cross_authority_connectors (rs : list ConnectorRecord) (printer_groups : list (string * string)) : gset string :=
  ⋃ ((λ m : string * gmap string (gset string), if 1 <? size m.2 then ⋃ (map_to_list m.2).*2 else ∅)
     <$> map_to_list (authority_groups rs printer_groups)).

(** * The document and the registry *)

Record ConnectorRegistryDocument := {
  rd_version : N;
  rd_connectors : list ConnectorRecord;
  rd_prepared_keys : list PreparedConnectorKey;
  rd_key_cleanup : list SecureKeyHandle;
  rd_remote_revoked : list string;
  rd_installation_identity : option InstallationSigningIdentity
}.
Record ConnectorRegistry := {
  records : gmap string ConnectorRecord;
  prepared_keys : list PreparedConnectorKey;
  key_cleanup : list SecureKeyHandle;
  remote_revoked : gset string;
  installation_identity : option InstallationSigningIdentity
}.

(** [serde_json]. *)
Class RegistryCodec := {
  text : Type;
  to_json : ConnectorRegistryDocument → text;
  from_json : text → option ConnectorRegistryDocument
}.

Definition sorted_grants (r : ConnectorRecord) : ConnectorRecord :=
  set_allowed (sort_by String.leb r.(cr_allowed_printer_ids)) r.
Fixpoint load_records (l : list ConnectorRecord) (acc : gmap string ConnectorRecord) :
    result RegistryError (gmap string ConnectorRecord) :=
  match l with
  | [] => Ok acc
  | r :: l =>
    _ ← validate_record r;
    _ ← check (bool_decide (acc !! r.(cr_connector_id) = None)) DuplicateConnector;
    load_records l (<[r.(cr_connector_id) := sorted_grants r]> acc)
  end.

Section operations.
Context `{RegistryCodec}.

(** A missing file is an empty registry. *)
Definition load (found : option text) : result RegistryError ConnectorRegistry :=
  d ← match found with
      | Some bytes => ok_or (from_json bytes) ParseFailed
      | None => Ok {| rd_version := REGISTRY_VERSION; rd_connectors := []; rd_prepared_keys := []; rd_key_cleanup := [];
                      rd_remote_revoked := []; rd_installation_identity := None |}
      end;
  _ ← check (bool_decide (d.(rd_version) = REGISTRY_VERSION)) UnsupportedVersion;
  _ ← check (length d.(rd_connectors) <=? MAX_CONNECTORS) TooManyConnectors;
  rs ← load_records d.(rd_connectors) ∅;
  _ ← validate_key_state rs d.(rd_prepared_keys) d.(rd_key_cleanup);
  _ ← check (revocations_match rs d.(rd_remote_revoked)) RevocationMismatch;
  Ok {| records := rs; prepared_keys := d.(rd_prepared_keys); key_cleanup := d.(rd_key_cleanup);
        remote_revoked := list_to_set d.(rd_remote_revoked); installation_identity := d.(rd_installation_identity) |}.

Definition document_of (g : ConnectorRegistry) : ConnectorRegistryDocument :=
  {| rd_version := REGISTRY_VERSION; rd_connectors := btree_values g.(records); rd_prepared_keys := g.(prepared_keys);
     rd_key_cleanup := g.(key_cleanup); rd_remote_revoked := sort_by String.leb (elements g.(remote_revoked));
     rd_installation_identity := g.(installation_identity) |}.

(** The registry of a running node, and its file. *)
Record Node := { registry : ConnectorRegistry; file : Disk text }.
(** How a write ends; on Unix the permissions of the new file are set after it. *)
Record Io := { io_fault : ReplaceFault; io_permissions : bool }.

Definition validate_state (g : ConnectorRegistry) : result RegistryError unit :=
  _ ← check (size g.(records) <=? MAX_CONNECTORS) TooManyConnectors;
  _ ← validate_key_state g.(records) g.(prepared_keys) g.(key_cleanup);
  check (revocations_match g.(records) (elements g.(remote_revoked))) RevocationMismatch.

(** [persist_all], and the assignment of what was persisted: every operation that changes the
    registry ends with both. *)
Definition persist_all (io : Io) (g : ConnectorRegistry) (n : Node) : Node * result RegistryError unit :=
  match validate_state g with
  | Err e => (n, Err e)
  | Ok _ =>
    let f := replace io.(io_fault) (to_json (document_of g)) n.(file) in
    if replaced io.(io_fault) && io.(io_permissions) then ({| registry := g; file := f |}, Ok ())
    else ({| registry := n.(registry); file := f |}, Err PersistFailed)
  end.
Definition answer {A} (a : A) (x : Node * result RegistryError unit) : Node * result RegistryError A :=
  (x.1, _ ← x.2; Ok a).

Definition with_records (rs : gmap string ConnectorRecord) (g : ConnectorRegistry) : ConnectorRegistry :=
  {| records := rs; prepared_keys := g.(prepared_keys); key_cleanup := g.(key_cleanup);
     remote_revoked := g.(remote_revoked); installation_identity := g.(installation_identity) |}.
Definition with_keys (prepared : list PreparedConnectorKey) (cleanup : list SecureKeyHandle) (g : ConnectorRegistry) :
    ConnectorRegistry :=
  {| records := g.(records); prepared_keys := prepared; key_cleanup := cleanup;
     remote_revoked := g.(remote_revoked); installation_identity := g.(installation_identity) |}.
Definition with_revoked (revoked : gset string) (g : ConnectorRegistry) : ConnectorRegistry :=
  {| records := g.(records); prepared_keys := g.(prepared_keys); key_cleanup := g.(key_cleanup);
     remote_revoked := revoked; installation_identity := g.(installation_identity) |}.
Definition with_identity (i : option InstallationSigningIdentity) (g : ConnectorRegistry) : ConnectorRegistry :=
  {| records := g.(records); prepared_keys := g.(prepared_keys); key_cleanup := g.(key_cleanup);
     remote_revoked := g.(remote_revoked); installation_identity := i |}.

(** * Operations *)

Definition enabled (g : ConnectorRegistry) : list ConnectorRecord := filter (λ r, r.(cr_enabled) = true) (btree_values g.(records)).
Definition pending_remote_revocations (g : ConnectorRegistry) : list ConnectorRecord :=
  filter (λ r, r.(cr_enabled) = false ∧ r.(cr_connector_id) ∉ g.(remote_revoked)) (btree_values g.(records)).
Definition remotely_revoked (g : ConnectorRegistry) : list ConnectorRecord :=
  filter (λ r, r.(cr_connector_id) ∈ g.(remote_revoked)) (btree_values g.(records)).
Definition prepared_key (handle : SecureKeyHandle) (g : ConnectorRegistry) : option PreparedConnectorKey :=
  List.find (λ p, bool_decide (p.(pk_handle) = handle)) g.(prepared_keys).
Definition active_handle (handle : SecureKeyHandle) (g : ConnectorRegistry) : bool :=
  existsb (λ e : string * ConnectorRecord, e.2.(cr_enabled) && has_handle handle e.2) (map_to_list g.(records)).
Definition handle_is_known (handle : SecureKeyHandle) (g : ConnectorRegistry) : bool :=
  existsb (λ e : string * ConnectorRecord, has_handle handle e.2) (map_to_list g.(records))
  || existsb (λ p, bool_decide (p.(pk_handle) = handle)) g.(prepared_keys)
  || bool_decide (handle ∈ g.(key_cleanup))
  || from_option (λ i, bool_decide (i.(in_handle) = handle)) false g.(installation_identity).

Definition update_identity_reconciliation (io : Io) (id : string) (server applied conflict conflict_local : option N)
    (n : Node) : Node * result RegistryError unit :=
  match n.(registry).(records) !! id with
  | None => (n, Err ConnectorNotFound)
  | Some r => persist_all io (with_records (<[id := set_reconciliation server applied conflict conflict_local r]>
                n.(registry).(records)) n.(registry)) n
  end.

Definition set_installation_identity_once (io : Io) (i : InstallationSigningIdentity) (n : Node) :
    Node * result RegistryError unit :=
  if bool_decide (is_Some n.(registry).(installation_identity)) || handle_is_known i.(in_handle) n.(registry)
  then (n, Err IdentityExists) else
  if negb (String.prefix "ins_" i.(in_installation_id)) || (128 <? String.length i.(in_installation_id))
  then (n, Err InvalidIdentity) else
  persist_all io (with_identity (Some i) n.(registry)) n.

Definition register_prepared_key (io : Io) (now : Z) (p : PreparedConnectorKey) (n : Node) :
    Node * result RegistryError unit :=
  if (p.(pk_expires_unix_ms) <=? now)%Z || handle_is_known p.(pk_handle) n.(registry)
  then (n, Err PreparedKeyInvalid) else
  persist_all io (with_keys (n.(registry).(prepared_keys) ++ [p]) n.(registry).(key_cleanup) n.(registry)) n.

(** [Vec::position] and [Vec::remove]. *)
Fixpoint take_prepared (handle : SecureKeyHandle) (l : list PreparedConnectorKey) :
    option (PreparedConnectorKey * list PreparedConnectorKey) :=
  match l with
  | [] => None
  | p :: l => if decide (p.(pk_handle) = handle) then Some (p, l)
              else '(q, l) ← take_prepared handle l; Some (q, p :: l)
  end.

Definition complete_prepared (io : Io) (now : Z) (r : ConnectorRecord) (n : Node) : Node * result RegistryError unit :=
  let g := n.(registry) in
  match validate_record r with
  | Err e => (n, Err e)
  | Ok _ =>
    match r.(cr_secure_key_handle) with
    | None => (n, Err NoSecureKey)
    | Some handle =>
      match take_prepared handle g.(prepared_keys) with
      | None => (n, Err NotPrepared)
      | Some (p, rest) =>
        if (p.(pk_expires_unix_ms) <=? now)%Z then (n, Err PreparationExpired) else
        if decide (is_Some (g.(records) !! r.(cr_connector_id))) then (n, Err ConnectorExists) else
        persist_all io (with_keys rest g.(key_cleanup)
          (with_records (<[r.(cr_connector_id) := sorted_grants r]> g.(records)) g)) n
      end
    end
  end.

Definition push_new (handle : SecureKeyHandle) (l : list SecureKeyHandle) : list SecureKeyHandle :=
  if decide (handle ∈ l) then l else l ++ [handle].
Definition cancel_prepared_key (io : Io) (handle : SecureKeyHandle) (n : Node) : Node * result RegistryError bool :=
  let g := n.(registry) in
  match take_prepared handle g.(prepared_keys) with
  | None => (n, Ok false)
  | Some (p, rest) => answer true (persist_all io (with_keys rest (push_new p.(pk_handle) g.(key_cleanup)) g) n)
  end.
Definition expire_prepared_keys (io : Io) (now : Z) (n : Node) : Node * result RegistryError nat :=
  let g := n.(registry) in
  let expired := filter (λ p, (p.(pk_expires_unix_ms) ≤ now)%Z) g.(prepared_keys) in
  let retained := filter (λ p, ¬ (p.(pk_expires_unix_ms) ≤ now)%Z) g.(prepared_keys) in
  if decide (expired = []) then (n, Ok 0) else
  answer (length expired) (persist_all io
    (with_keys retained (foldl (λ l p, push_new p.(pk_handle) l) g.(key_cleanup) expired) g) n).

Definition confirm_remote_revocation (io : Io) (id : string) (n : Node) : Node * result RegistryError bool :=
  let g := n.(registry) in
  match g.(records) !! id with
  | None => (n, Err ConnectorNotFound)
  | Some r =>
    if r.(cr_enabled) then (n, Err ConnectorActive) else
    if decide (id ∈ g.(remote_revoked)) then (n, Ok false) else
    answer true (persist_all io (with_revoked ({[id]} ∪ g.(remote_revoked))
      (with_keys g.(prepared_keys) (from_option (λ h, push_new h g.(key_cleanup)) g.(key_cleanup) r.(cr_secure_key_handle)) g)) n)
  end.
Fixpoint remove_first (handle : SecureKeyHandle) (l : list SecureKeyHandle) : list SecureKeyHandle :=
  match l with [] => [] | h :: l => if decide (h = handle) then l else h :: remove_first handle l end.
Definition confirm_key_cleanup (io : Io) (handle : SecureKeyHandle) (n : Node) : Node * result RegistryError bool :=
  let g := n.(registry) in
  if active_handle handle g then (n, Err KeyActive) else
  if decide (handle ∈ g.(key_cleanup))
  then answer true (persist_all io (with_keys g.(prepared_keys) (remove_first handle g.(key_cleanup)) g) n)
  else (n, Ok false).

Definition add (io : Io) (r : ConnectorRecord) (n : Node) : Node * result RegistryError unit :=
  let g := n.(registry) in
  match validate_record r with
  | Err e => (n, Err e)
  | Ok _ =>
    if MAX_CONNECTORS <=? size g.(records) then (n, Err TooManyConnectors) else
    if decide (is_Some (g.(records) !! r.(cr_connector_id))) then (n, Err ConnectorExists) else
    persist_all io (with_records (<[r.(cr_connector_id) := sorted_grants r]> g.(records)) g) n
  end.
Definition revoke (io : Io) (id : string) (n : Node) : Node * result RegistryError bool :=
  let g := n.(registry) in
  match g.(records) !! id with
  | None => (n, Ok false)
  | Some r => if r.(cr_enabled)
              then answer true (persist_all io (with_records (<[id := set_enabled false r]> g.(records)) g) n)
              else (n, Ok false)
  end.
Definition replace_connector (io : Io) (r : ConnectorRecord) (n : Node) : Node * result RegistryError ConnectorRecord :=
  let g := n.(registry) in
  match validate_record r with
  | Err e => (n, Err e)
  | Ok _ =>
    match g.(records) !! r.(cr_connector_id) with
    | None => (n, Err ConnectorNotFound)
    | Some previous =>
      answer previous (persist_all io (with_revoked (g.(remote_revoked) ∖ {[previous.(cr_connector_id)]})
        (with_records (<[r.(cr_connector_id) := sorted_grants r]> g.(records)) g)) n)
    end
  end.
End operations.
End registry.
