(* ===== verification/NodeEnrolment.v ===== *)
(** Connecting a node to a control plane (crates/node-runtime/src/connector_enrollment.rs and
    the scopes of crates/node-runtime/src/secure_connector.rs), and deleting the keys of
    connectors that are gone (the cleanup of embedded_cloud.rs).

    Keys are generated, used and deleted by a provider of the platform, whose answers are
    arguments; [keys] are those it has.  What the control plane answers is an argument. *)

From S2P Require Import Prelude Domain DurableFile NodeRegistry.

Section enrolment.
Context `{UrlApi} `{RegistryCodec}.

(** The registry, the keys that the provider has, and the handles that were given to the
    application. *)
Record Host := { node : Node; keys : gset SecureKeyHandle; given : gset SecureKeyHandle }.
Definition with_node (n : Node) (h : Host) : Host := {| node := n; keys := h.(keys); given := h.(given) |}.
Definition with_provider (ks : gset SecureKeyHandle) (h : Host) : Host :=
  {| node := h.(node); keys := ks; given := h.(given) |}.

(** * Scopes of keys *)

Definition scoped_key_label (prefix scope : string) (suffix : option string) : result RegistryError string :=
  if bool_decide (scope = ""%string) || (160 <? String.length scope)
     || negb (bytes_all (λ c, is_ascii_alphanumeric c || bool_decide (N_of_ascii c ∈ [46; 45; 95]%N)) scope)
  then Err ProviderFailed
  else Ok (prefix +:+ scope +:+ from_option (λ s, "/" +:+ s) "" suffix).
Definition installation_key_scope (scope : string) : result RegistryError string := scoped_key_label "installation/" scope None.
Definition connector_key_scope (uuid scope : string) : result RegistryError string :=
  scoped_key_label "connector/" scope (Some uuid).

(** What the provider does for one new key: the handle and the public key that it returns,
    whether the handle signs for that key ([verify_generated_key]), and whether a deletion of
    the key succeeds. *)
Record Generated := { gk_key : option (SecureKeyHandle * string); gk_verified : bool; gk_deletes : bool }.

Definition discard (p : Generated) (handle : SecureKeyHandle) (ks : gset SecureKeyHandle) : gset SecureKeyHandle :=
  if p.(gk_deletes) then ks ∖ {[handle]} else ks.

(** * Identities *)

Definition ensure_installation_identity (io : Io) (p : Generated) (new_id scope : string) (h : Host) :
    Host * result RegistryError InstallationSigningIdentity :=
  match h.(node).(registry).(installation_identity) with
  | Some i => (h, Ok i)
  | None =>
    match installation_key_scope scope, p.(gk_key) with
    | Err e, _ => (h, Err e)
    | Ok _, None => (h, Err ProviderFailed)
    | Ok _, Some (handle, public_key) =>
      let ks := {[handle]} ∪ h.(keys) in
      if negb p.(gk_verified) then (with_provider ks h, Err ProviderFailed) else
      let i := {| in_installation_id := "ins_" +:+ new_id; in_handle := handle; in_public_key := public_key |} in
      match set_installation_identity_once io i h.(node) with
      | (n, Ok _) => (with_node n (with_provider ks h), Ok i)
      | (n, Err e) => (with_node n (with_provider (discard p handle ks) h), Err e)
      end
    end
  end.

(** Ten minutes. *)
Definition PREPARED_KEY_LIFETIME : Z := 600000.
Definition prepare_connector_identity (io : Io) (now : Z) (p : Generated) (uuid scope : string) (h : Host) :
    Host * result RegistryError PreparedConnectorKey :=
  match connector_key_scope uuid scope, p.(gk_key) with
  | Err e, _ => (h, Err e)
  | Ok _, None => (h, Err ProviderFailed)
  | Ok _, Some (handle, public_key) =>
    let ks := {[handle]} ∪ h.(keys) in
    if negb p.(gk_verified) then (with_provider ks h, Err ProviderFailed) else
    let k := {| pk_handle := handle; pk_public_key := public_key; pk_expires_unix_ms := now + PREPARED_KEY_LIFETIME |} in
    match register_prepared_key io now k h.(node) with
    | (n, Ok _) => ({| node := n; keys := ks; given := {[handle]} ∪ h.(given) |}, Ok k)
    | (n, Err e) => (with_node n (with_provider (discard p handle ks) h), Err e)
    end
  end.

(** * Invitations *)

Record ConnectorInvitationExchange := {
  ex_control_plane_url : Url;
  ex_invitation_token : string;
  ex_connector_key_handle : SecureKeyHandle;
  ex_application_scope : string;
  ex_printer_grant : PrinterGrant;
  ex_allowed_printer_ids : list string;
  ex_node_name : string;
  ex_hostname : string;
  ex_platform : string;
  ex_architecture : string
}.
(** The authenticated answers of the control plane: the preview of the invitation (its grant,
    its expiry, the labels and the URL to manage it), and the enrolment (connector and
    agent). *)
Record Authority := {
  au_grant : string;
  au_expires_at : Z;
  au_about : list (option string);
  au_manage_url : option Url;
  au_enrolled : option (option string * string)
}.

Definition within (s : string) (limit : nat) : bool := negb (bool_decide (s = ""%string)) && (String.length s <=? limit).
Definition validate_exchange_request (q : ConnectorInvitationExchange) : result RegistryError unit :=
  _ ← check (operator_safe q.(ex_control_plane_url) && within q.(ex_invitation_token) 4096
             && within q.(ex_node_name) 256 && within q.(ex_hostname) 256
             && (length q.(ex_allowed_printer_ids) <=? 128)) InvalidRequest;
  check (Bool.eqb (bool_decide (q.(ex_printer_grant) = AllLocalPrinters)) (bool_decide (q.(ex_allowed_printer_ids) = [])))
    InvalidRequest.
Definition validate_preview_grant (preview : string) (consent : PrinterGrant) : result RegistryError unit :=
  check (bool_decide (preview ∈ match consent with
                                | AllLocalPrinters => ["all_local_printers"; "all_printers"]
                                | SelectedPrinters => ["selected_printers"; "selected"]
                                end%string)) GrantMismatch.

(** The record of the connector: what the application chose, and the rest from the
    authority. *)
Definition enrolled_record (q : ConnectorInvitationExchange) (a : Authority) (connector agent : string) : ConnectorRecord :=
  {| cr_connector_id := connector; cr_agent_id := agent; cr_control_plane_url := q.(ex_control_plane_url);
     cr_about := a.(au_about); cr_manage_url := a.(au_manage_url); cr_device_key_file := None;
     cr_secure_key_handle := Some q.(ex_connector_key_handle); cr_enabled := true;
     cr_printer_grant := q.(ex_printer_grant); cr_allowed_printer_ids := q.(ex_allowed_printer_ids);
     cr_node_identity_revision := None; cr_node_identity_applied_local_revision := None;
     cr_node_identity_conflict_revision := None; cr_node_identity_conflict_local_revision := None |}.

(** [signed]: the provider signs the proof with the key of the installation.  [a] is [None]
    when the preview fails. *)
Definition exchange_connector_invitation (io_identity io : Io) (now : Z) (p : Generated) (new_id : string) (signed : bool)
    (a : option Authority) (q : ConnectorInvitationExchange) (h : Host) : Host * result RegistryError ConnectorRecord :=
  match validate_exchange_request q with
  | Err e => (h, Err e)
  | Ok _ =>
    match prepared_key q.(ex_connector_key_handle) h.(node).(registry), a with
    | None, _ => (h, Err NotPrepared)
    | Some k, a =>
      if (k.(pk_expires_unix_ms) <=? now)%Z then (h, Err PreparationExpired) else
      match a with
      | None => (h, Err AuthorityFailed)
      | Some a =>
        if (a.(au_expires_at) <=? now)%Z then (h, Err InvitationExpired) else
        match validate_preview_grant a.(au_grant) q.(ex_printer_grant) with
        | Err e => (h, Err e)
        | Ok _ =>
          match ensure_installation_identity io_identity p new_id q.(ex_application_scope) h with
          | (h, Err e) => (h, Err e)
          | (h, Ok _) =>
            if negb signed then (h, Err ProviderFailed) else
            match a.(au_enrolled) with
            | Some (Some connector, agent) =>
              let r := enrolled_record q a connector agent in
              match complete_prepared io now r h.(node) with
              | (n, Ok _) => (with_node n h, Ok r)
              | (n, Err e) => (with_node n h, Err e)
              end
            | _ => (h, Err AuthorityFailed)
            end
          end
        end
      end
    end
  end.

(** * Cleanup *)

(** [retry_secure_cleanup]: for each handle, whether the provider deletes the key, and the
    write that records it. *)
Definition cleanup_one (handle : SecureKeyHandle) (deleted : bool) (io : Io) (h : Host) : Host :=
  if deleted then
    let h := with_provider (h.(keys) ∖ {[handle]}) h in with_node (confirm_key_cleanup io handle h.(node)).1 h
  else h.
Definition retry_secure_cleanup (outcome : SecureKeyHandle → bool * Io) (h : Host) : Host :=
  foldl (λ h handle, cleanup_one handle (outcome handle).1 (outcome handle).2 h) h h.(node).(registry).(key_cleanup).
End enrolment.
