(* ===== verification/NodeSystem.v ===== *)
(** A node with its connectors as a process: operations whose writes may fail, keys that are
    generated and deleted, crashes and restarts; and what holds in all its states. *)

From S2P Require Import Prelude Domain DurableFile NodeRegistry NodeEnrolment.

Class RegistryLaws `{UrlApi} `{!RegistryCodec} : Prop := {
  registry_round_trip d : from_json (to_json d) = Some d
}.

Section system.
Context `{UrlApi} `{!RegistryCodec}.
(** The handles of installation keys; the provider keeps them apart from those of connectors. *)
Variable installation_handle : SecureKeyHandle → bool.
(** The revisions that the authorities answer with when identities are reconciled. *)
Variable reconciles : option N → option N → option N → option N → bool.
(** The connectors that the installed agent replaces. *)
Variable replaces : ConnectorRecord → bool.

Definition empty_registry : ConnectorRegistry :=
  {| records := ∅; prepared_keys := []; key_cleanup := []; remote_revoked := ∅; installation_identity := None |}.

(** * Steps *)

(** The steps of a host; [ever] are the handles of connector keys that were ever generated.
    A new key has a new handle; an application completes an invitation with a handle that it
    was given; a connector that is added or replaced by the installed agent has its key in a
    file.  After a crash the node runs again when it can load what the crash left. *)
Inductive host_step : gset SecureKeyHandle * Host → gset SecureKeyHandle * Host → Prop :=
| h_reconcile ever h io id a b c d : reconciles a b c d = true →
    host_step (ever, h) (ever, with_node (update_identity_reconciliation io id a b c d h.(node)).1 h)
| h_ensure ever h io p new_id scope :
    (∀ x k, p.(gk_key) = Some (x, k) → installation_handle x = true) →
    host_step (ever, h) (ever, (ensure_installation_identity io p new_id scope h).1)
| h_prepare ever h io now p uuid scope :
    (∀ x k, p.(gk_key) = Some (x, k) → installation_handle x = false ∧ x ∉ ever) →
    host_step (ever, h) (from_option (λ x, {[x.1]}) ∅ p.(gk_key) ∪ ever,
                         (prepare_connector_identity io now p uuid scope h).1)
| h_exchange ever h io1 io2 now p new_id signed a q :
    (∀ x k, p.(gk_key) = Some (x, k) → installation_handle x = true) → q.(ex_connector_key_handle) ∈ h.(given) →
    host_step (ever, h) (ever, (exchange_connector_invitation io1 io2 now p new_id signed a q h).1)
| h_cancel ever h io handle : host_step (ever, h) (ever, with_node (cancel_prepared_key io handle h.(node)).1 h)
| h_expire ever h io now : host_step (ever, h) (ever, with_node (expire_prepared_keys io now h.(node)).1 h)
| h_confirm ever h io id : host_step (ever, h) (ever, with_node (confirm_remote_revocation io id h.(node)).1 h)
| h_cleanup ever h outcome : host_step (ever, h) (ever, retry_secure_cleanup outcome h)
| h_add ever h io r : r.(cr_secure_key_handle) = None →
    host_step (ever, h) (ever, with_node (add io r h.(node)).1 h)
| h_replace ever h io r : r.(cr_secure_key_handle) = None → replaces r = true →
    host_step (ever, h) (ever, with_node (replace_connector io r h.(node)).1 h)
| h_revoke ever h io id : host_step (ever, h) (ever, with_node (revoke io id h.(node)).1 h)
| h_restart ever h o g : o ∈ h.(node).(file).(possible) → load o = Ok g →
    host_step (ever, h) (ever, with_node {| registry := g; file := settled o |} h).

Definition new_host : Host := {| node := {| registry := empty_registry; file := settled None |}; keys := ∅; given := ∅ |}.
Definition host_reachable (w : gset SecureKeyHandle * Host) : Prop := rtc host_step (∅, new_host) w.

(** * Registries that the keys are safe in *)

Definition handle_of (g : ConnectorRegistry) (id : string) (x : SecureKeyHandle) (on : bool) : Prop :=
  ∃ r, g.(records) !! id = Some r ∧ r.(cr_secure_key_handle) = Some x ∧ r.(cr_enabled) = on.

Record key_safe (ks gv ever : gset SecureKeyHandle) (g : ConnectorRegistry) : Prop := {
  ks_enabled id x : handle_of g id x true → x ∈ ks ∧ x ∈ gv ∧ x ∉ g.(key_cleanup);
  ks_unique id id' x on on' : handle_of g id x on → handle_of g id' x on' → id = id';
  ks_prepared p : p ∈ g.(prepared_keys) → p.(pk_handle) ∈ gv → p.(pk_handle) ∈ ks;
  ks_apart p : p ∈ g.(prepared_keys) → (p.(pk_handle) ∉ g.(key_cleanup)) ∧ (∀ id on, ¬ handle_of g id p.(pk_handle) on);
  ks_record id x on : handle_of g id x on → x ∈ ever ∧ installation_handle x = false;
  ks_pending p : p ∈ g.(prepared_keys) → p.(pk_handle) ∈ ever ∧ installation_handle p.(pk_handle) = false;
  ks_cleanup x : x ∈ g.(key_cleanup) → x ∈ ever ∧ installation_handle x = false;
  ks_keyed id r : g.(records) !! id = Some r → id = r.(cr_connector_id) ∧ sorted_grants r = r
}.
(** A key that is to be deleted is not in use in another registry. *)
Definition spares (g g' : ConnectorRegistry) : Prop :=
  ∀ x, x ∈ g.(key_cleanup) → (∀ id, ¬ handle_of g' id x true) ∧ (∀ p, p ∈ g'.(prepared_keys) → p.(pk_handle) ≠ x).

Lemma safe_spares ks gv ever g : key_safe ks gv ever g → spares g g.
Proof.
  intros Hs x Hx. split.
  - intros id Hid. by destruct (ks_enabled _ _ _ _ Hs _ _ Hid) as (_ & _ & ?).
  - intros p Hp <-. by destruct (ks_apart _ _ _ _ Hs _ Hp).
Qed.

Definition written (o : option text) (g : ConnectorRegistry) : Prop :=
  (o = Some (to_json (document_of g))) ∨ (o = None ∧ g = empty_registry).
Record node_safe (ks gv ever : gset SecureKeyHandle) (n : Node) : Prop := {
  ns_registry : key_safe ks gv ever n.(registry);
  ns_file o : o ∈ n.(file).(possible) → ∃ g, written o g ∧ key_safe ks gv ever g ∧ spares n.(registry) g
}.

Lemma validate_apart g : validate_state g = Ok () → ∀ p, p ∈ g.(prepared_keys) →
  (p.(pk_handle) ∉ g.(key_cleanup)) ∧ (∀ id on, ¬ handle_of g id p.(pk_handle) on).
Proof.
  unfold validate_state, validate_key_state, check, mbind, result_bind.
  destruct (size _ <=? _); [|done]. destruct (_ && _); [|done]. destruct (forallb _ _) eqn:Hf; [|done]. intros _ p Hp.
  rewrite forallb_forall in Hf. specialize (Hf p ltac:(by apply list_elem_of_In)).
  apply andb_true_iff in Hf as [H1 H2]. apply negb_true_iff in H1, H2. apply bool_decide_eq_false in H2.
  split; [done|]. intros id on (r & Hr & Hx & _). apply not_true_iff_false in H1. apply H1. apply existsb_exists.
  exists (id, r). split; [by apply list_elem_of_In, elem_of_map_to_list|]. by apply bool_decide_eq_true.
Qed.

(** A write keeps the keys safe when the registry that is written does. *)
Lemma persist_safe ks gv ever io g n n' r :
  node_safe ks gv ever n → (validate_state g = Ok () → key_safe ks gv ever g ∧ spares n.(registry) g) →
  persist_all io g n = (n', r) → node_safe ks gv ever n'.
Proof.
  intros [Hreg Hfile] Hg. unfold persist_all. destruct (validate_state g) as [[]|e]; [|by intros [= <- <-]].
  destruct (Hg eq_refl) as [Hs Hsp]. destruct (replaced _ && _) eqn:Hok; intros [= <- <-].
  - apply andb_true_iff in Hok as [Hok _]. destruct io.(io_fault); try done. split; [done|]. simpl.
    intros o ->%list_elem_of_singleton. exists g. split_and!; [by left|done|]. by eapply safe_spares.
  - split; [done|]. simpl. assert (Hnew : ∃ g0, written (Some (to_json (document_of g))) g0 ∧ key_safe ks gv ever g0
      ∧ spares n.(registry) g0) by (exists g; split_and!; [by left|done|done]).
    destruct io.(io_fault); simpl; [|done|].
    + by intros o ->%list_elem_of_singleton.
    + intros o [->|Ho]%elem_of_cons; [done|by apply Hfile].
Qed.

(** ** Changes that take handles away *)

Record narrows (g g' : ConnectorRegistry) : Prop := {
  na_handles id x on : handle_of g' id x on → ∃ on', handle_of g id x on' ∧ (on = true → on' = true);
  na_prepared p : p ∈ g'.(prepared_keys) → p ∈ g.(prepared_keys);
  na_cleanup x : x ∈ g'.(key_cleanup) →
    x ∈ g.(key_cleanup) ∨ (∃ p, p ∈ g.(prepared_keys) ∧ p.(pk_handle) = x) ∨ (∃ id, handle_of g id x false);
  na_keyed id r : g'.(records) !! id = Some r → id = r.(cr_connector_id) ∧ sorted_grants r = r
}.

Lemma narrows_safe ks gv ever g g' :
  key_safe ks gv ever g → narrows g g' → validate_state g' = Ok () → key_safe ks gv ever g' ∧ spares g g'.
Proof.
  intros Hs [Hh Hp Hc Hk] Hv. pose proof (validate_apart _ Hv) as Hap.
  assert (Hen : ∀ id x, handle_of g' id x true → handle_of g id x true).
  { intros id x (on' & Ho & Hon)%Hh. by rewrite (Hon eq_refl) in Ho. }
  split; [split|].
  - intros id x Hx. apply Hen in Hx as Hg. destruct (ks_enabled _ _ _ _ Hs _ _ Hg) as (? & ? & Hn).
    split_and!; [done..|]. intros [?|[(p & Hin & <-)|(id' & Hd)]]%Hc; [done|by eapply (ks_apart _ _ _ _ Hs)|].
    pose proof (ks_unique _ _ _ _ Hs _ _ _ _ _ Hg Hd) as <-. destruct Hg as (r & E1 & _ & ?), Hd as (r' & E2 & _ & ?). congruence.
  - intros id id' x on on' (? & Ho & _)%Hh (? & Ho' & _)%Hh. by eapply (ks_unique _ _ _ _ Hs).
  - intros p Hin. apply (ks_prepared _ _ _ _ Hs), Hp, Hin.
  - exact Hap.
  - intros id x on (? & Ho & _)%Hh. by eapply (ks_record _ _ _ _ Hs).
  - intros p Hin. apply (ks_pending _ _ _ _ Hs), Hp, Hin.
  - intros x [?|[(p & Hin & <-)|(id & Hd)]]%Hc; [by apply (ks_cleanup _ _ _ _ Hs)|by apply (ks_pending _ _ _ _ Hs)|].
    by eapply (ks_record _ _ _ _ Hs).
  - exact Hk.
  - intros x Hx. split.
    + intros id Hid%Hen. by destruct (ks_enabled _ _ _ _ Hs _ _ Hid) as (_ & _ & ?).
    + intros p Hin%Hp <-. by destruct (ks_apart _ _ _ _ Hs _ Hin).
Qed.
Lemma persist_narrows ks gv ever io g n n' r :
  node_safe ks gv ever n → narrows n.(registry) g → persist_all io g n = (n', r) → node_safe ks gv ever n'.
Proof. intros Hn Hg. apply persist_safe; [done|]. intros Hv. eapply narrows_safe; [apply Hn|done|done]. Qed.

(** Records that are changed, added without a handle, or left. *)
Lemma narrows_record ks gv ever g id r :
  key_safe ks gv ever g → id = r.(cr_connector_id) → sorted_grants r = r →
  (∀ x, r.(cr_secure_key_handle) = Some x →
    ∃ r0, g.(records) !! id = Some r0 ∧ r0.(cr_secure_key_handle) = Some x ∧ (r.(cr_enabled) = true → r0.(cr_enabled) = true)) →
  narrows g (with_records (<[id := r]> g.(records)) g).
Proof.
  intros Hs Hid Hsort Hr. split; simpl; try done.
  - intros i x on (r' & Hl & Hx & <-). simpl in Hl. apply lookup_insert_Some in Hl as [[<- <-]|[_ Hl]].
    + destruct (Hr x Hx) as (r0 & Hr0 & Hx0 & Hon). exists r0.(cr_enabled). split; [by exists r0|done].
    + exists r'.(cr_enabled). split; [by exists r'|done].
  - auto.
  - intros i r' [[<- <-]|[_ Hl]]%lookup_insert_Some; [done|by apply (ks_keyed _ _ _ _ Hs)].
Qed.
Lemma narrows_keys ks gv ever g prepared cleanup :
  key_safe ks gv ever g → (∀ p, p ∈ prepared → p ∈ g.(prepared_keys)) →
  (∀ x, x ∈ cleanup → x ∈ g.(key_cleanup) ∨ (∃ p, p ∈ g.(prepared_keys) ∧ p.(pk_handle) = x) ∨ (∃ id, handle_of g id x false)) →
  narrows g (with_keys prepared cleanup g).
Proof.
  intros Hs Hp Hc. split; try done; [|apply (ks_keyed _ _ _ _ Hs)].
  intros id x on (r & Hr). exists on. split; [by exists r|done].
Qed.

(** ** The operations *)

Lemma sorted_grants_iff r : sorted_grants r = r ↔ sort_by String.leb r.(cr_allowed_printer_ids) = r.(cr_allowed_printer_ids).
Proof. split; [by intros ?%(f_equal cr_allowed_printer_ids)|]. intros Hs. unfold sorted_grants. rewrite Hs. by destruct r. Qed.
Lemma sorted_grants_again r : sorted_grants (sorted_grants r) = sorted_grants r.
Proof. apply sorted_grants_iff. simpl. apply sort_by_idemp, String.leb_total. Qed.

Section one_node.
Context (ks gv ever : gset SecureKeyHandle).
Abbreviation safe := (node_safe ks gv ever).
Implicit Types (n : Node).

Lemma answer_fst {A} (a : A) x : (answer a x).1 = x.1.
Proof. done. Qed.

Lemma reconcile_safe io id a b c d n : safe n → safe (update_identity_reconciliation io id a b c d n).1.
Proof.
  intros Hn. unfold update_identity_reconciliation. destruct (_ !! id) as [r|] eqn:Hr; [|done].
  destruct (persist_all _ _ n) as [n' x] eqn:Hp. eapply persist_narrows; [done| |done].
  destruct (ks_keyed _ _ _ _ (ns_registry _ _ _ _ Hn) _ _ Hr) as [Hid Hs].
  eapply narrows_record; [apply Hn|done| |].
  - apply sorted_grants_iff. by apply sorted_grants_iff in Hs.
  - intros x0 Hx. by exists r.
Qed.
Lemma identity_safe io i n : safe n → safe (set_installation_identity_once io i n).1.
Proof.
  intros Hn. unfold set_installation_identity_once. destruct (_ || _); [done|]. destruct (_ || _); [done|].
  destruct (persist_all _ _ n) as [n' x] eqn:Hp. eapply persist_narrows; [done| |done].
  split; try done; [|auto|apply (ks_keyed _ _ _ _ (ns_registry _ _ _ _ Hn))].
  intros id y on (r & Hr). exists on. split; [by exists r|done].
Qed.

Lemma take_prepared_Some h l p rest : take_prepared h l = Some (p, rest) →
  p.(pk_handle) = h ∧ p ∈ l ∧ (∀ q, q ∈ rest → q ∈ l).
Proof.
  revert p rest. induction l as [|q l IH]; intros p rest; simpl; [done|]. case_decide as Hd.
  - intros [= -> ->]. split_and!; [done|left|]. intros; by right.
  - destruct (take_prepared h l) as [[p' rest']|]; [|done]. intros [= -> <-].
    destruct (IH _ _ eq_refl) as (? & ? & Hsub). split_and!; [done|by right|].
    intros x [->|Hx]%elem_of_cons; [left|right; auto].
Qed.
Lemma elem_of_push_new x h l : x ∈ push_new h l ↔ x = h ∨ x ∈ l.
Proof. unfold push_new. case_decide; set_solver. Qed.

Lemma cancel_safe io h n : safe n → safe (cancel_prepared_key io h n).1.
Proof.
  intros Hn. unfold cancel_prepared_key. destruct (take_prepared _ _) as [[p rest]|] eqn:Ht; [|done].
  apply take_prepared_Some in Ht as (_ & Hp & Hrest). rewrite answer_fst.
  destruct (persist_all _ _ n) as [n' x] eqn:Hper. eapply persist_narrows; [done| |done].
  eapply narrows_keys; [apply Hn|done|]. intros y [->|Hy]%elem_of_push_new; [|by left]. right; left. by exists p.
Qed.
Lemma elem_of_push_all x l cleanup : x ∈ foldl (λ l p, push_new p.(pk_handle) l) cleanup l →
  x ∈ cleanup ∨ ∃ p, p ∈ l ∧ p.(pk_handle) = x.
Proof.
  revert cleanup. induction l as [|p l IH]; intros cleanup; simpl; [by left|].
  intros [Hx|(q & Hq & <-)]%IH.
  - apply elem_of_push_new in Hx as [->|Hx]; [right; exists p; by split; [left|]|by left].
  - right. exists q. by split; [right|].
Qed.
Lemma expire_safe io now n : safe n → safe (expire_prepared_keys io now n).1.
Proof.
  intros Hn. unfold expire_prepared_keys. case_decide; [done|]. rewrite answer_fst.
  destruct (persist_all _ _ n) as [n' x] eqn:Hper. eapply persist_narrows; [done| |done].
  eapply narrows_keys; [apply Hn| |].
  - by intros p [_ ?]%list_elem_of_filter.
  - intros y [Hy|(p & [_ Hp]%list_elem_of_filter & <-)]%elem_of_push_all; [by left|]. right; left. by exists p.
Qed.
Lemma confirm_safe io id n : safe n → safe (confirm_remote_revocation io id n).1.
Proof.
  intros Hn. unfold confirm_remote_revocation. destruct (_ !! id) as [r|] eqn:Hr; [|done].
  destruct r.(cr_enabled) eqn:He; [done|]. case_decide; [done|]. rewrite answer_fst.
  destruct (persist_all _ _ n) as [n' x] eqn:Hper. eapply persist_narrows; [done| |done].
  destruct (narrows_keys ks gv ever n.(registry) n.(registry).(prepared_keys)
    (from_option (λ h, push_new h n.(registry).(key_cleanup)) n.(registry).(key_cleanup) r.(cr_secure_key_handle)))
    as [Na Nb Nc Nd]; [apply Hn|done| |by split].
  intros y. destruct r.(cr_secure_key_handle) as [h|] eqn:Hh; simpl; [|by left].
  intros [->|Hy]%elem_of_push_new; [|by left]. right; right. exists id. by exists r.
Qed.
Lemma elem_of_remove_first x h l : x ∈ remove_first h l → x ∈ l.
Proof. induction l as [|y l IH]; simpl; [done|]. case_decide; set_solver. Qed.
Lemma confirm_cleanup_safe io h n : safe n → safe (confirm_key_cleanup io h n).1.
Proof.
  intros Hn. unfold confirm_key_cleanup. destruct (active_handle _ _); [done|]. case_decide; [|done]. rewrite answer_fst.
  destruct (persist_all _ _ n) as [n' x] eqn:Hper. eapply persist_narrows; [done| |done].
  eapply narrows_keys; [apply Hn|done|]. intros y Hy%elem_of_remove_first. by left.
Qed.
Lemma revoke_safe io id n : safe n → safe (revoke io id n).1.
Proof.
  intros Hn. unfold revoke. destruct (_ !! id) as [r|] eqn:Hr; [|done]. destruct r.(cr_enabled); [|done]. rewrite answer_fst.
  destruct (persist_all _ _ n) as [n' x] eqn:Hper. eapply persist_narrows; [done| |done].
  destruct (ks_keyed _ _ _ _ (ns_registry _ _ _ _ Hn) _ _ Hr) as [Hid Hs].
  eapply narrows_record; [apply Hn|done| |].
  - apply sorted_grants_iff. by apply sorted_grants_iff in Hs.
  - intros y Hy. by exists r.
Qed.
Lemma narrows_revoked g g' revoked : narrows g g' → narrows g (with_revoked revoked g').
Proof. intros []. by split. Qed.
Lemma add_safe io r n : safe n → r.(cr_secure_key_handle) = None → safe (add io r n).1.
Proof.
  intros Hn Hh. unfold add. destruct (validate_record r); [|done]. destruct (_ <=? _); [done|]. case_decide; [done|].
  destruct (persist_all _ _ n) as [n' x] eqn:Hper. eapply persist_narrows; [done| |done].
  eapply narrows_record; [apply Hn|done|apply sorted_grants_again|]. intros y Hy. simpl in Hy. congruence.
Qed.
Lemma replace_safe io r n : safe n → r.(cr_secure_key_handle) = None → safe (replace_connector io r n).1.
Proof.
  intros Hn Hh. unfold replace_connector. destruct (validate_record r); [|done]. destruct (_ !! _) as [old|]; [|done].
  rewrite answer_fst. destruct (persist_all _ _ n) as [n' x] eqn:Hper. eapply persist_narrows; [done| |done].
  apply narrows_revoked. eapply narrows_record; [apply Hn|done|apply sorted_grants_again|]. intros y Hy. simpl in Hy. congruence.
Qed.

Lemma completed_safe g r p rest : key_safe ks gv ever g → p ∈ g.(prepared_keys) → (∀ q, q ∈ rest → q ∈ g.(prepared_keys)) →
  r.(cr_secure_key_handle) = Some p.(pk_handle) → p.(pk_handle) ∈ gv → g.(records) !! r.(cr_connector_id) = None →
  let g' := with_keys rest g.(key_cleanup) (with_records (<[r.(cr_connector_id) := sorted_grants r]> g.(records)) g) in
  validate_state g' = Ok () → key_safe ks gv ever g' ∧ spares g g'.
Proof.
  intros Hs Hp Hrest Hx Hgv Hnew g' Hv. pose proof (validate_apart _ Hv) as Hap. destruct (ks_apart _ _ _ _ Hs _ Hp) as [Hnc Hno].
  assert (Hh : ∀ id x on, handle_of g' id x on → (id = r.(cr_connector_id) ∧ x = p.(pk_handle)) ∨ handle_of g id x on).
  { intros id x on (r' & Hl & Hx' & Hon). simpl in Hl. apply lookup_insert_Some in Hl as [[<- <-]|[_ Hl]].
    - left. simpl in Hx'. split; congruence.
    - right. by exists r'. }
  split; [split|].
  - intros id x [[-> ->]|Hd]%Hh; [|by apply (ks_enabled _ _ _ _ Hs) in Hd].
    split_and!; [by apply (ks_prepared _ _ _ _ Hs)|done|done].
  - intros id id' x on on' [[-> ->]|Hd]%Hh [[-> E]|Hd']%Hh; [done|by apply Hno in Hd'|subst x; by apply Hno in Hd|].
    by eapply (ks_unique _ _ _ _ Hs).
  - intros q Hq. by apply (ks_prepared _ _ _ _ Hs), Hrest.
  - exact Hap.
  - intros id x on [[-> ->]|Hd]%Hh; [by apply (ks_pending _ _ _ _ Hs)|by eapply (ks_record _ _ _ _ Hs)].
  - intros q Hq. by apply (ks_pending _ _ _ _ Hs), Hrest.
  - apply (ks_cleanup _ _ _ _ Hs).
  - intros id r' Hl. simpl in Hl. apply lookup_insert_Some in Hl as [[<- <-]|[_ Hl]]; [split; [done|apply sorted_grants_again]|by apply (ks_keyed _ _ _ _ Hs)].
  - intros x Hc. split.
    + intros id [[-> ->]|Hd]%Hh; [done|]. by destruct (ks_enabled _ _ _ _ Hs _ _ Hd) as (_ & _ & ?).
    + intros q Hq%Hrest <-. by destruct (ks_apart _ _ _ _ Hs _ Hq).
Qed.
Lemma complete_safe io now r n : safe n → (∀ x, r.(cr_secure_key_handle) = Some x → x ∈ gv) →
  safe (complete_prepared io now r n).1.
Proof.
  intros Hn Hgv. unfold complete_prepared. destruct (validate_record r); [|done].
  destruct r.(cr_secure_key_handle) as [x|] eqn:Hx; [|done].
  destruct (take_prepared _ _) as [[p rest]|] eqn:Ht; [|done]. destruct (_ <=? _)%Z; [done|]. case_decide as Hnew; [done|].
  apply take_prepared_Some in Ht as (<- & Hp & Hrest). destruct (persist_all _ _ n) as [n' y] eqn:Hper.
  pose proof (ns_registry _ _ _ _ Hn) as Hs. eapply persist_safe; [done| |done]. intros Hv.
  eapply completed_safe; [done|done|done|done|by apply Hgv| |done].
  by apply eq_None_not_Some.
Qed.
End one_node.

(** ** Keys that are generated and deleted *)

Lemma key_safe_mono ks gv ever ks' gv' ever' g : key_safe ks gv ever g →
  gv ⊆ gv' → ever ⊆ ever' → (∀ x, x ∈ ks → x ∈ gv' → x ∈ ks') → (∀ x, x ∈ gv' → x ∉ gv → x ∈ ks') → key_safe ks' gv' ever' g.
Proof.
  intros [He Hu Hp Ha Hr Hpe Hc Hk] Hgv Hev Hks Hnew. split; try done.
  - intros id x (? & ? & ?)%He. auto.
  - intros p Hin Hg. destruct (decide (p.(pk_handle) ∈ gv)); auto.
  - intros id x on [??]%Hr. auto.
  - intros p [??]%Hpe. auto.
  - intros x [??]%Hc. auto.
Qed.
Lemma node_safe_mono ks gv ever ks' gv' ever' n : node_safe ks gv ever n →
  gv ⊆ gv' → ever ⊆ ever' → (∀ x, x ∈ ks → x ∈ gv' → x ∈ ks') → (∀ x, x ∈ gv' → x ∉ gv → x ∈ ks') → node_safe ks' gv' ever' n.
Proof.
  intros [Hr Hf] ????. split; [by eapply key_safe_mono|]. intros o (g & ? & ? & ?)%Hf. exists g. split_and!; [done| |done].
  by eapply key_safe_mono.
Qed.
Lemma key_safe_delete ks gv ever g x : key_safe ks gv ever g →
  (∀ id, ¬ handle_of g id x true) → (∀ p, p ∈ g.(prepared_keys) → p.(pk_handle) ≠ x) → key_safe (ks ∖ {[x]}) gv ever g.
Proof.
  intros [He Hu Hp Ha Hr Hpe Hc Hk] Hen Hpr. split; try done.
  - intros id y Hy. destruct (He _ _ Hy) as (? & ? & ?). split_and!; [|done..].
    apply elem_of_difference. split; [done|]. intros ->%elem_of_singleton. by eapply Hen.
  - intros p Hin Hg. apply elem_of_difference. split; [by apply Hp|]. intros E%elem_of_singleton. by eapply Hpr.
Qed.
Lemma node_safe_delete ks gv ever n x : node_safe ks gv ever n → x ∈ n.(registry).(key_cleanup) → node_safe (ks ∖ {[x]}) gv ever n.
Proof.
  intros [Hr Hf] Hx. split.
  - destruct (safe_spares _ _ _ _ Hr x Hx). by apply key_safe_delete.
  - intros o (g & ? & ? & Hsp)%Hf. exists g. split_and!; [done| |done]. destruct (Hsp x Hx). by apply key_safe_delete.
Qed.

Lemma register_safe ks gv ever io now p n : node_safe ks gv ever n → (p.(pk_handle) ∉ ever) → gv ⊆ ever →
  installation_handle p.(pk_handle) = false →
  node_safe ({[p.(pk_handle)]} ∪ ks) gv ({[p.(pk_handle)]} ∪ ever) (register_prepared_key io now p n).1.
Proof.
  intros Hn Hfresh Hgv Hi.
  assert (Hn' : node_safe ({[p.(pk_handle)]} ∪ ks) gv ({[p.(pk_handle)]} ∪ ever) n) by (eapply node_safe_mono; [done|set_solver..]).
  unfold register_prepared_key. destruct (_ || _); [done|]. destruct (persist_all _ _ n) as [n' y] eqn:Hper.
  eapply persist_safe; [done| |done]. intros Hv. pose proof (validate_apart _ Hv) as Hap.
  destruct (ns_registry _ _ _ _ Hn) as [_ _ _ _ _ Hpe0 Hc0 _].
  destruct (ns_registry _ _ _ _ Hn') as [He Hu Hp Ha Hr Hpe Hc Hk].
  assert (Hin : ∀ q, q ∈ n.(registry).(prepared_keys) ++ [p] → q ∈ n.(registry).(prepared_keys) ∨ q = p)
    by (intros q [?|?%list_elem_of_singleton]%elem_of_app; auto).
  split; [split; try done|].
  - intros q [Hq| ->]%Hin; [by apply Hp|set_solver].
  - intros q [Hq| ->]%Hin; [by apply Hpe|set_solver].
  - intros x Hx. split; [intros id Hd; by destruct (He _ _ Hd) as (_ & _ & ?)|].
    intros q [Hq| ->]%Hin <-; [by destruct (Ha _ Hq)|]. by destruct (Hc0 _ Hx).
Qed.

(** ** What a restart loads *)

Lemma load_records_Ok l acc m : load_records l acc = Ok m → (∀ r, r ∈ l → sorted_grants r = r) →
  ∀ id r, m !! id = Some r ↔ acc !! id = Some r ∨ (r ∈ l ∧ id = r.(cr_connector_id)).
Proof.
  revert acc. induction l as [|r0 l IH]; intros acc; simpl.
  { intros [= <-] _ id r. split; [by left|]. intros [?|[?%elem_of_nil _]]; done. }
  destruct (validate_record r0); [|done]. simpl. unfold check. case_bool_decide as Hfree; [|done]. simpl.
  intros Hl Hsort id r. rewrite (IH _ Hl) by (intros; apply Hsort; by right). rewrite (Hsort r0) by left.
  rewrite lookup_insert_Some, elem_of_cons. split.
  - intros [[[<- <-]|[Hne Ha]]|[Hin ->]]; auto.
  - intros [Ha|[[->|Hin] ->]]; [|auto..]. left; right. split; [|done]. congruence.
Qed.
Lemma load_records_same (m m' : gmap string ConnectorRecord) :
  (∀ id r, m !! id = Some r → id = r.(cr_connector_id) ∧ sorted_grants r = r) →
  load_records (btree_values m) ∅ = Ok m' → m' = m.
Proof.
  intros Hk Hl. apply map_eq. intros id. apply option_eq. intros r.
  rewrite (load_records_Ok _ _ _ Hl) by (intros r' [id' Hr']%elem_of_btree_values; by destruct (Hk _ _ Hr')).
  rewrite lookup_empty, elem_of_btree_values. split.
  - intros [?|[[id' Hr'] ->]]; [done|]. by destruct (Hk _ _ Hr') as [<- _].
  - intros Hr. right. split; [by exists id|by apply (Hk id r)].
Qed.
Lemma load_written `{!RegistryLaws} o g g' :
  written o g → (∀ id r, g.(records) !! id = Some r → id = r.(cr_connector_id) ∧ sorted_grants r = r) →
  load o = Ok g' → g' = g.
Proof.
  intros [->|[-> ->]] Hk; [|by intros [= <-]].
  unfold load, check, mbind, result_bind. rewrite registry_round_trip. simpl.
  destruct (length _ <=? _); [|done]. destruct (load_records _ _) as [rs|] eqn:Hl; [|done].
  destruct (validate_key_state _ _ _); [|done]. destruct (revocations_match _ _); [|done]. intros [= <-].
  rewrite (load_records_same _ _ Hk Hl). replace (list_to_set (sort_by String.leb (elements g.(remote_revoked)))) with g.(remote_revoked); [by destruct g|].
  apply set_eq. intros x. by rewrite elem_of_list_to_set, elem_of_sort_by, elem_of_elements.
Qed.

(** ** Hosts *)

Definition host_safe (w : gset SecureKeyHandle * Host) : Prop :=
  node_safe w.2.(keys) w.2.(given) w.1 w.2.(node) ∧
  (∀ x, x ∈ w.2.(given) → x ∈ w.1 ∧ installation_handle x = false).

Lemma host_safe_node ever h n : host_safe (ever, h) → node_safe h.(keys) h.(given) ever n → host_safe (ever, with_node n h).
Proof. by intros [_ Hg] Hn. Qed.

Lemma ensure_safe ever h io p new_id scope : host_safe (ever, h) →
  (∀ x k, p.(gk_key) = Some (x, k) → installation_handle x = true) →
  host_safe (ever, (ensure_installation_identity io p new_id scope h).1)
  ∧ (ensure_installation_identity io p new_id scope h).1.(given) = h.(given).
Proof.
  intros [Hn Hg] Hnew. unfold ensure_installation_identity. destruct (installation_identity _) as [i|]; [done|].
  destruct (installation_key_scope _); [|done]. destruct p.(gk_key) as [[x k]|]; [|done]. specialize (Hnew x k eq_refl).
  assert (Hgx : x ∉ h.(given)) by (intros [_ ?]%Hg; simplify_eq/=; congruence).
  destruct p.(gk_verified); simpl; [|split; [split; [eapply node_safe_mono; [done|set_solver..]|done]|done]].
  pose proof (identity_safe _ _ _ io {| in_installation_id := "ins_" +:+ new_id; in_handle := x; in_public_key := k |} _ Hn)
    as Hsafe. destruct (set_installation_identity_once _ _ _) as [n' [u|e]]; simpl in *; (split; [split; [|done]|done]); simpl.
  - eapply node_safe_mono; [done|set_solver..].
  - unfold discard. destruct p.(gk_deletes); (eapply node_safe_mono; [done|set_solver..]).
Qed.
Lemma prepare_safe ever h io now p uuid scope : host_safe (ever, h) →
  (∀ x k, p.(gk_key) = Some (x, k) → installation_handle x = false ∧ x ∉ ever) →
  host_safe (from_option (λ x, {[x.1]}) ∅ p.(gk_key) ∪ ever, (prepare_connector_identity io now p uuid scope h).1).
Proof.
  intros [Hn Hg] Hnew. unfold prepare_connector_identity.
  assert (Hwider : ∀ h', h'.(given) = h.(given) → h.(keys) ⊆ h'.(keys) → h'.(node) = h.(node) →
    host_safe (from_option (λ x, {[x.1]}) ∅ p.(gk_key) ∪ ever, h')).
  { intros h' Eg Hk En. split; simpl; rewrite Eg.
    - rewrite En. eapply node_safe_mono; [done|set_solver..].
    - intros x [? ?]%Hg. split; [set_solver|done]. }
  destruct (connector_key_scope _ _); [|by apply Hwider]. destruct p.(gk_key) as [[x k]|]; [|by apply Hwider]. simpl.
  destruct (Hnew x k eq_refl) as [Hi Hfresh]. assert (Hgx : x ∉ h.(given)) by (by intros [? _]%Hg).
  destruct p.(gk_verified); simpl; [|apply Hwider; simpl; set_solver].
  assert (Hgv : h.(given) ⊆ ever) by (by intros y [? _]%Hg).
  set (key := {| pk_handle := x; pk_public_key := k; pk_expires_unix_ms := now + PREPARED_KEY_LIFETIME |}).
  pose proof (register_safe _ _ _ io now key _ Hn Hfresh Hgv Hi) as Hreg.
  destruct (register_prepared_key _ _ _ _) as [n' [u|e]]; simpl in *; split; simpl.
  - eapply node_safe_mono; [done|set_solver..].
  - intros y [->%elem_of_singleton|[? ?]%Hg]%elem_of_union; [split; [set_solver|done]|split; [set_solver|done]].
  - unfold discard. destruct p.(gk_deletes); (eapply node_safe_mono; [done|set_solver..]).
  - intros y [? ?]%Hg. split; [set_solver|done].
Qed.
Lemma exchange_safe ever h io1 io2 now p new_id signed a q : host_safe (ever, h) →
  (∀ x k, p.(gk_key) = Some (x, k) → installation_handle x = true) → q.(ex_connector_key_handle) ∈ h.(given) →
  host_safe (ever, (exchange_connector_invitation io1 io2 now p new_id signed a q h).1).
Proof.
  intros Hh Hnew Hq. unfold exchange_connector_invitation. destruct (validate_exchange_request q); [|done].
  destruct (prepared_key _ _) as [k|]; [|done]. destruct (_ <=? _)%Z; [done|]. destruct a as [a|]; [|done].
  destruct (_ <=? _)%Z; [done|]. destruct (validate_preview_grant _ _); [|done].
  pose proof (ensure_safe ever h io1 p new_id q.(ex_application_scope) Hh Hnew) as [Hsafe Hgiven].
  destruct (ensure_installation_identity _ _ _ _ h) as [h' [i|e]]; simpl in *; [|done].
  destruct signed; simpl; [|done]. destruct a.(au_enrolled) as [[[connector|] agent]|]; [|done..].
  destruct (complete_prepared _ _ _ _) as [n' y] eqn:Hc. replace (host_safe _) with (host_safe (ever, with_node n' h'))
    by (by destruct y). apply host_safe_node; [done|].
  replace n' with (complete_prepared io2 now (enrolled_record q a connector agent) h'.(node)).1 by (by rewrite Hc).
  apply complete_safe; [apply Hsafe|]. simpl. intros x [= <-]. by rewrite Hgiven.
Qed.

Lemma remove_first_perm x l : x ∈ l → l ≡ₚ x :: remove_first x l.
Proof.
  induction l as [|y l IH]; [by intros ?%elem_of_nil|]. simpl. case_decide as Hd; [by subst|].
  intros [->|Hx]%elem_of_cons; [done|]. rewrite (IH Hx) at 1. apply Permutation_swap.
Qed.
Lemma confirm_cleanup_rest io x l n : x :: l ⊆+ n.(registry).(key_cleanup) →
  l ⊆+ (confirm_key_cleanup io x n).1.(registry).(key_cleanup).
Proof.
  intros Hl. assert (Hrest : l ⊆+ n.(registry).(key_cleanup)) by (etrans; [by apply submseteq_cons|exact Hl]).
  unfold confirm_key_cleanup. destruct (active_handle _ _); [done|]. case_decide as Hx; [|done]. simpl.
  unfold persist_all. destruct (validate_state _); [|done]. destruct (replaced _ && _); [|done]. simpl.
  rewrite (remove_first_perm _ _ Hx) in Hl. by apply (submseteq_app_inv_l _ _ [x]) in Hl.
Qed.
Lemma cleanup_safe ever outcome h : host_safe (ever, h) → host_safe (ever, retry_secure_cleanup outcome h).
Proof.
  unfold retry_secure_cleanup. assert (Hl : h.(node).(registry).(key_cleanup) ⊆+ h.(node).(registry).(key_cleanup)) by done.
  revert Hl. generalize h.(node).(registry).(key_cleanup) at 1 3 as l.
  intros l. revert h. induction l as [|x l IH]; intros h Hl Hh; simpl; [done|].
  unfold cleanup_one at 2. destruct (outcome x) as [[|] io]; simpl.
  - apply IH; simpl; [by apply confirm_cleanup_rest|]. destruct Hh as [Hn Hg]. split; [|done]. simpl in *.
    apply confirm_cleanup_safe, node_safe_delete; [done|]. eapply elem_of_submseteq; [|done]. left.
  - apply IH; [|done]. etrans; [by apply submseteq_cons|exact Hl].
Qed.

Lemma host_step_safe `{!RegistryLaws} w w' : host_step w w' → host_safe w → host_safe w'.
Proof.
  destruct 1 as [ever h io id a b c d _|ever h io p new_id scope Hp|ever h io now p uuid scope Hp|
    ever h io1 io2 now p new_id signed a q Hp Hq|ever h io x|ever h io now|ever h io id|ever h outcome|ever h io r Hr|
    ever h io r Hr _|ever h io id|ever h o g Ho Hload]; intros Hh; pose proof Hh as [Hn Hg].
  - apply host_safe_node; [done|]. by apply reconcile_safe.
  - by apply ensure_safe.
  - by apply prepare_safe.
  - by apply exchange_safe.
  - apply host_safe_node; [done|]. by apply cancel_safe.
  - apply host_safe_node; [done|]. by apply expire_safe.
  - apply host_safe_node; [done|]. by apply confirm_safe.
  - by apply cleanup_safe.
  - apply host_safe_node; [done|]. by apply add_safe.
  - apply host_safe_node; [done|]. by apply replace_safe.
  - apply host_safe_node; [done|]. by apply revoke_safe.
  - apply host_safe_node; [done|]. destruct (ns_file _ _ _ _ Hn o Ho) as (g0 & Hw & Hs & _).
    pose proof (load_written _ _ _ Hw (ks_keyed _ _ _ _ Hs) Hload) as ->. split; [done|].
    simpl. intros o' ->%list_elem_of_singleton. exists g0. split_and!; [done..|]. by eapply safe_spares.
Qed.
Lemma new_host_safe : host_safe (∅, new_host).
Proof.
  split; [|simpl; set_solver]. assert (Hs : key_safe ∅ ∅ ∅ empty_registry).
  { assert (Hno : ∀ id x on, ¬ handle_of empty_registry id x on) by (by intros id x on (? & ? & _)).
    split; simpl; try (by intros ? ?%elem_of_nil); try (by intros ? ? ?%Hno); try (by intros ? ? ? ?%Hno).
    - by intros ? ? ? ? ? ?%Hno.
    - by intros id r. }
  split; [done|]. simpl. intros o ->%list_elem_of_singleton. exists empty_registry. split_and!; [by right|done|].
  by eapply safe_spares.
Qed.
Lemma reachable_safe `{!RegistryLaws} w : host_reachable w → host_safe w.
Proof. intros Hr. apply (rtc_ind_r (R := host_step) host_safe (∅, new_host)); [apply new_host_safe| |done]. intros; by eapply host_step_safe. Qed.

(** * What holds of the records, in memory and in the file *)

Definition everywhere (P : ConnectorRegistry → Prop) (n : Node) : Prop :=
  P n.(registry) ∧ ∀ o, o ∈ n.(file).(possible) → ∃ g, written o g ∧ P g.

(** Properties that every change of a record keeps, of registries that a write accepts. *)
Record kept (P : ConnectorRegistry → Prop) : Prop := {
  k_keyed g id r : P g → g.(records) !! id = Some r → id = r.(cr_connector_id) ∧ sorted_grants r = r;
  k_same g g' : P g → g'.(records) = g.(records) → validate_state g' = Ok () → P g';
  k_reconcile g g' id r a b c d : P g → g.(records) !! id = Some r → reconciles a b c d = true →
    g'.(records) = <[id := set_reconciliation a b c d r]> g.(records) → validate_state g' = Ok () → P g';
  k_disable g g' id r : P g → g.(records) !! id = Some r →
    g'.(records) = <[id := set_enabled false r]> g.(records) → validate_state g' = Ok () → P g';
  k_new g g' r : P g → validate_record r = Ok () → g.(records) !! r.(cr_connector_id) = None →
    g'.(records) = <[r.(cr_connector_id) := sorted_grants r]> g.(records) → validate_state g' = Ok () → P g';
  k_replace g g' r : P g → validate_record r = Ok () → replaces r = true →
    g'.(records) = <[r.(cr_connector_id) := sorted_grants r]> g.(records) → validate_state g' = Ok () → P g'
}.

Section kept.
Context (P : ConnectorRegistry → Prop) (Hkept : kept P).
Implicit Types (n : Node).

Lemma registry_persist_everywhere io g n : everywhere P n → (validate_state g = Ok () → P g) → everywhere P (persist_all io g n).1.
Proof.
  intros [Hreg Hfile] Hg. unfold persist_all. destruct (validate_state g) as [[]|e] eqn:Hv; [|done].
  assert (Hnew : ∃ g0, written (Some (to_json (document_of g))) g0 ∧ P g0) by (exists g; split; [by left|auto]).
  destruct (replaced _ && _) eqn:Hok; (split; [by auto|]); simpl.
  - apply andb_true_iff in Hok as [Hok _]. destruct io.(io_fault); try done. by intros o ->%list_elem_of_singleton.
  - destruct io.(io_fault); simpl; [by intros o ->%list_elem_of_singleton|done|].
    intros o [->|Ho]%elem_of_cons; [done|by apply Hfile].
Qed.
Lemma persist_same io g n : everywhere P n → g.(records) = n.(registry).(records) → everywhere P (persist_all io g n).1.
Proof. intros Hn Hg. apply registry_persist_everywhere; [done|]. eapply (k_same _ Hkept); [apply Hn|done]. Qed.

Lemma ensure_everywhere io p new_id scope h : everywhere P h.(node) →
  everywhere P (ensure_installation_identity io p new_id scope h).1.(node).
Proof.
  intros Hn. unfold ensure_installation_identity. destruct (installation_identity _); [done|].
  destruct (installation_key_scope _); [|done]. destruct p.(gk_key) as [[x k]|]; [|done]. destruct (negb _); [done|].
  unfold set_installation_identity_once. destruct (_ || _); [done|]. destruct (_ || _); [done|].
  pose proof (persist_same io (with_identity (Some {| in_installation_id := "ins_" +:+ new_id; in_handle := x;
    in_public_key := k |}) h.(node).(registry)) _ Hn eq_refl) as Hp. by destruct (persist_all _ _ _) as [n' []].
Qed.
Lemma prepare_everywhere io now p uuid scope h : everywhere P h.(node) →
  everywhere P (prepare_connector_identity io now p uuid scope h).1.(node).
Proof.
  intros Hn. unfold prepare_connector_identity.
  destruct (connector_key_scope _ _); [|done]. destruct p.(gk_key) as [[x k]|]; [|done]. destruct (negb _); [done|].
  unfold register_prepared_key. destruct (_ || _); [done|].
  pose proof (persist_same io (with_keys (h.(node).(registry).(prepared_keys) ++ [{| pk_handle := x; pk_public_key := k;
    pk_expires_unix_ms := now + PREPARED_KEY_LIFETIME |}]) h.(node).(registry).(key_cleanup) h.(node).(registry)) _ Hn eq_refl) as Hp.
  by destruct (persist_all _ _ _) as [n' []].
Qed.
Lemma complete_everywhere io now r n : everywhere P n → everywhere P (complete_prepared io now r n).1.
Proof.
  intros Hn. unfold complete_prepared. destruct (validate_record r) as [[]|] eqn:Hv; [|done].
  destruct r.(cr_secure_key_handle); [|done]. destruct (take_prepared _ _) as [[p rest]|]; [|done]. destruct (_ <=? _)%Z; [done|].
  case_decide as Hnew; [done|]. apply registry_persist_everywhere; [done|].
  eapply (k_new _ Hkept); [apply Hn|done|by apply eq_None_not_Some|done].
Qed.
Lemma exchange_everywhere io1 io2 now p new_id signed a q h : everywhere P h.(node) →
  everywhere P (exchange_connector_invitation io1 io2 now p new_id signed a q h).1.(node).
Proof.
  intros Hn. unfold exchange_connector_invitation. destruct (validate_exchange_request q); [|done].
  destruct (prepared_key _ _) as [k|]; [|done]. destruct (_ <=? _)%Z; [done|]. destruct a as [a|]; [|done].
  destruct (_ <=? _)%Z; [done|]. destruct (validate_preview_grant _ _); [|done].
  pose proof (ensure_everywhere io1 p new_id q.(ex_application_scope) h Hn) as He.
  destruct (ensure_installation_identity _ _ _ _ h) as [h' [i|e]]; simpl in *; [|done].
  destruct signed; simpl; [|done]. destruct a.(au_enrolled) as [[[connector|] agent]|]; [|done..].
  pose proof (complete_everywhere io2 now (enrolled_record q a connector agent) _ He) as Hc.
  by destruct (complete_prepared _ _ _ _) as [n' []].
Qed.
Lemma cleanup_everywhere outcome h : everywhere P h.(node) → everywhere P (retry_secure_cleanup outcome h).(node).
Proof.
  intros Hn. unfold retry_secure_cleanup. apply (foldl_inv (λ h, everywhere P h.(node))); [done|].
  intros h' x _ Hn'. unfold cleanup_one. destruct (outcome x) as [[|] io]; simpl; [|done].
  unfold confirm_key_cleanup. destruct (active_handle _ _); [done|]. case_decide; [|done]. by apply persist_same.
Qed.

Lemma host_step_everywhere `{!RegistryLaws} w w' :
  host_step w w' → everywhere P w.2.(node) → everywhere P w'.2.(node).
Proof.
  destruct 1 as [ever h io id a b c d Hr|ever h io p new_id scope Hp|ever h io now p uuid scope Hp|
    ever h io1 io2 now p new_id signed a q Hp Hq|ever h io x|ever h io now|ever h io id|ever h outcome|ever h io r Hr|
    ever h io r Hr Hrep|ever h io id|ever h o g Ho Hload]; simpl; intros Hn.
  - unfold update_identity_reconciliation. destruct (_ !! id) as [r|] eqn:Hl; [|done].
    apply registry_persist_everywhere; [done|]. by eapply (k_reconcile _ Hkept); [apply Hn|done|done|].
  - by apply ensure_everywhere.
  - by apply prepare_everywhere.
  - by apply exchange_everywhere.
  - unfold cancel_prepared_key. destruct (take_prepared _ _) as [[p rest]|]; [|done]. by apply persist_same.
  - unfold expire_prepared_keys. case_decide; [done|]. by apply persist_same.
  - unfold confirm_remote_revocation. destruct (_ !! id) as [r|]; [|done]. destruct r.(cr_enabled); [done|]. case_decide; [done|].
    by apply persist_same.
  - by apply cleanup_everywhere.
  - unfold add. destruct (validate_record r) as [[]|] eqn:Hv; [|done]. destruct (_ <=? _); [done|]. case_decide as Hnew; [done|].
    apply registry_persist_everywhere; [done|]. eapply (k_new _ Hkept); [apply Hn|done|by apply eq_None_not_Some|done].
  - unfold replace_connector. destruct (validate_record r) as [[]|] eqn:Hv; [|done]. destruct (_ !! _); [|done].
    apply registry_persist_everywhere; [done|]. by eapply (k_replace _ Hkept); [apply Hn|..].
  - unfold revoke. destruct (_ !! id) as [r|] eqn:Hl; [|done]. destruct r.(cr_enabled); [|done].
    apply registry_persist_everywhere; [done|]. by eapply (k_disable _ Hkept); [apply Hn|..].
  - destruct Hn as [_ Hf]. destruct (Hf o Ho) as (g0 & Hw & Hg).
    pose proof (load_written _ _ _ Hw (λ id r, k_keyed _ Hkept _ id r Hg) Hload) as ->. split; [done|].
    simpl. intros o' ->%list_elem_of_singleton. by exists g0.
Qed.
End kept.

(** ** What is written can be loaded *)

Definition record_ok (id : string) (r : ConnectorRecord) : Prop :=
  validate_record r = Ok () ∧ id = r.(cr_connector_id) ∧ sorted_grants r = r.
Definition loads (g : ConnectorRegistry) : Prop := validate_state g = Ok () ∧ map_Forall record_ok g.(records).
(** Revisions that a record may have. *)
Definition sane (server applied conflict conflict_local : option N) : bool :=
  forallb (λ o, negb (bool_decide (o = Some 0%N))) [server; applied; conflict; conflict_local]
  && Bool.eqb (bool_decide (is_Some conflict)) (bool_decide (is_Some conflict_local)).

Lemma load_records_fresh l acc : (∀ r, r ∈ l → validate_record r = Ok () ∧ acc !! r.(cr_connector_id) = None) →
  NoDup (cr_connector_id <$> l) → is_ok (load_records l acc) = true.
Proof.
  revert acc. induction l as [|r l IH]; intros acc Hl Hnd; simpl; [done|].
  destruct (Hl r ltac:(left)) as [-> Hfree]. simpl. unfold check. rewrite bool_decide_true by done. simpl.
  inversion Hnd as [|? ? Hr Hnd']; subst. apply IH; [|done]. intros r' Hin. destruct (Hl r' ltac:(by right)) as [? ?].
  split; [done|]. rewrite lookup_insert_ne; [done|]. intros E. apply Hr. rewrite E. by apply list_elem_of_fmap_2.
Qed.
Lemma keyed_values_NoDup (m : gmap string ConnectorRecord) : map_Forall (λ id r, id = r.(cr_connector_id)) m →
  NoDup (cr_connector_id <$> btree_values m).
Proof.
  intros Hk. unfold btree_values. replace (cr_connector_id <$> (btree_entries m).*2) with (btree_entries m).*1.
  - rewrite btree_entries_perm. apply NoDup_fst_map_to_list.
  - rewrite <- list_fmap_compose. apply list_fmap_ext. intros i [id r] Hl. simpl.
    apply Hk, elem_of_btree_entries. by eapply list_elem_of_lookup_2.
Qed.
Lemma load_loads `{!RegistryLaws} o g : written o g → loads g → load o = Ok g.
Proof.
  intros Hw [Hv Hr]. assert (Hk : ∀ id r, g.(records) !! id = Some r → id = r.(cr_connector_id) ∧ sorted_grants r = r)
    by (intros id r Hl; by destruct (Hr _ _ Hl) as (_ & ?)).
  destruct (load o) as [g'|e] eqn:Hload; [by rewrite (load_written _ _ _ Hw Hk Hload)|]. exfalso.
  destruct Hw as [->|[-> ->]]; [|done]. revert Hload. unfold load. rewrite registry_round_trip. simpl.
  unfold validate_state, check, mbind, result_bind in *.
  destruct (size g.(records) <=? MAX_CONNECTORS) eqn:Hsize; [|done].
  unfold btree_values at 1. rewrite length_fmap, length_btree_entries, Hsize.
  pose proof (load_records_fresh (btree_values g.(records)) ∅) as Hlr.
  destruct (load_records _ _) as [rs|] eqn:Hl.
  2: { discriminate Hlr; [|apply keyed_values_NoDup; intros id r Hl'; by apply Hk].
       intros r [id Hin]%elem_of_btree_values. split; [by destruct (Hr _ _ Hin)|apply lookup_empty]. }
  rewrite (load_records_same _ _ Hk Hl). destruct (validate_key_state _ _ _); [|done]. unfold revocations_match in *.
  rewrite forallb_sort_by. by destruct (forallb _ _).
Qed.

Lemma validate_sorted r : validate_record (sorted_grants r) = validate_record r.
Proof.
  unfold validate_record. simpl. rewrite forallb_sort_by, (Permutation_length (sort_by_perm _ _)).
  replace (bool_decide (sort_by String.leb r.(cr_allowed_printer_ids) = []))
    with (bool_decide (r.(cr_allowed_printer_ids) = [])).
  2: { apply bool_decide_ext. split; [by intros ->|]. intros E. apply Permutation_nil_r. by rewrite <- E, (sort_by_perm _ _). }
  replace (bool_decide (NoDup (sort_by String.leb r.(cr_allowed_printer_ids))))
    with (bool_decide (NoDup r.(cr_allowed_printer_ids))); [done|].
  apply bool_decide_ext. by rewrite (sort_by_perm _ _).
Qed.
Lemma record_ok_sorted r : validate_record r = Ok () → record_ok r.(cr_connector_id) (sorted_grants r).
Proof. intros Hv. split_and!; [by rewrite validate_sorted|done|apply sorted_grants_again]. Qed.
Lemma record_ok_reconciled id r a b c d :
  record_ok id r → sane a b c d = true → record_ok id (set_reconciliation a b c d r).
Proof.
  intros (Hv & Hid & Hs) Hsane. split_and!; [|done|].
  - revert Hv. unfold validate_record, check, revisions. unfold sane in Hsane. simpl in *. rewrite Hsane.
    repeat (first [done | case_match; simpl]).
  - apply sorted_grants_iff. by apply sorted_grants_iff in Hs.
Qed.
End system.
