(* ===== verification/NodeClaims.v ===== *)
(** What a node promises about its connectors: the keys of connectors in use are kept, what is
    acknowledged survives crashes, and where that ends. *)

From S2P Require Import Prelude Domain DurableFile NodeRegistry NodeEnrolment NodeSystem.

Section claims.
Context `{UrlApi} `{!RegistryCodec}.
Implicit Types (g : ConnectorRegistry) (h : Host) (r : ConnectorRecord).

(** * Records *)

Lemma loads_kept rc rp : (∀ a b c d, rc a b c d = true → sane a b c d = true) → kept rc rp loads.
Proof.
  intros Hsane. split.
  - intros g id r [_ Hg] Hl. by destruct (Hg _ _ Hl) as (_ & ?).
  - intros g g' [_ Hg] E Hv. split; [done|]. by rewrite E.
  - intros g g' id r a b c d [_ Hg] Hl Hrc E Hv. split; [done|]. rewrite E. apply map_Forall_insert_2; [|done].
    apply record_ok_reconciled; [by apply Hg|by apply Hsane].
  - intros g g' id r [_ Hg] Hl E Hv. split; [done|]. rewrite E. apply map_Forall_insert_2; [|done].
    destruct (Hg _ _ Hl) as (Hr & Hid & Hs). split_and!; [exact Hr|done|].
    apply sorted_grants_iff. by apply sorted_grants_iff in Hs.
  - intros g g' r [_ Hg] Hr _ E Hv. split; [done|]. rewrite E. apply map_Forall_insert_2; [|done]. by apply record_ok_sorted.
  - intros g g' r [_ Hg] Hr _ E Hv. split; [done|]. rewrite E. apply map_Forall_insert_2; [|done]. by apply record_ok_sorted.
Qed.

Definition keyed g : Prop := map_Forall (λ id r, id = r.(cr_connector_id) ∧ sorted_grants r = r) g.(records).
Definition revoked (id : string) g : Prop := ∃ r, g.(records) !! id = Some r ∧ r.(cr_enabled) = false.
(** Records other than those of [id]. *)
Definition others (id : string) r : bool := negb (bool_decide (r.(cr_connector_id) = id)).

Lemma keyed_insert g g' id r : keyed g → id = r.(cr_connector_id) ∧ sorted_grants r = r →
  g'.(records) = <[id := r]> g.(records) → keyed g'.
Proof. unfold keyed. intros Hg Hr ->. by apply map_Forall_insert_2. Qed.
Lemma revoked_insert id g g' i r : revoked id g → (i = id → r.(cr_enabled) = false) →
  g'.(records) = <[i := r]> g.(records) → revoked id g'.
Proof.
  intros (r0 & Hl & Hoff) Hr E. unfold revoked. rewrite E. destruct (decide (i = id)) as [->|Hne].
  - exists r. rewrite lookup_insert_eq. by auto.
  - exists r0. by rewrite lookup_insert_ne.
Qed.
Lemma revoked_kept rc id : kept rc (others id) (λ g, keyed g ∧ revoked id g).
Proof.
  split.
  - intros g i r [Hk _] Hl. by apply Hk.
  - intros g g' [Hk Hr] E _. unfold keyed, revoked in *. by rewrite E.
  - intros g g' i r a b c d [Hk Hr] Hl _ E _. destruct (Hk _ _ Hl) as [Hid Hs]. split.
    + eapply keyed_insert; [done| |done]. split; [done|]. apply sorted_grants_iff. by apply sorted_grants_iff in Hs.
    + eapply revoked_insert; [done| |done]. intros ->. destruct Hr as (r0 & Hl0 & Hoff). simpl. congruence.
  - intros g g' i r [Hk Hr] Hl E _. destruct (Hk _ _ Hl) as [Hid Hs]. split.
    + eapply keyed_insert; [done| |done]. split; [done|]. apply sorted_grants_iff. by apply sorted_grants_iff in Hs.
    + eapply revoked_insert; [done| |done]. done.
  - intros g g' r [Hk Hr] _ Hl E _. split.
    + eapply keyed_insert; [done| |done]. split; [done|apply sorted_grants_again].
    + eapply revoked_insert; [done| |done]. intros <-. destruct Hr as (r0 & Hl0 & _). congruence.
  - intros g g' r [Hk Hr] _ Ho E _. split.
    + eapply keyed_insert; [done| |done]. split; [done|apply sorted_grants_again].
    + eapply revoked_insert; [done| |done]. intros Heq. unfold others in Ho. by rewrite bool_decide_true in Ho.
Qed.

Lemma run_everywhere `{!RegistryLaws} ih rc rp P w w' : kept rc rp P →
  rtc (host_step ih rc rp) w w' → everywhere P w.2.(node) → everywhere P w'.2.(node).
Proof.
  intros Hk Hsteps Hw. induction Hsteps as [w|w1 w2 w3 Hstep _ IH]; [done|]. apply IH. eapply host_step_everywhere; done.
Qed.
Lemma empty_everywhere P : P empty_registry → everywhere P new_host.(node).
Proof. intros HP. split; [done|]. simpl. intros o ->%list_elem_of_singleton. exists empty_registry. by split; [right|]. Qed.

(** * Theorems *)

(** C17: However writes fail and whenever the node crashes, the key of a connector that is in
    use is not deleted, is not going to be, and is the key of no other connector. *)
Theorem connector_keys_are_kept `{!RegistryLaws} ih rc rp ever h :
  host_reachable ih rc rp (ever, h) → ∀ r x, r ∈ enabled h.(node).(registry) → r.(cr_secure_key_handle) = Some x →
  x ∈ h.(keys) ∧ (x ∉ h.(node).(registry).(key_cleanup)) ∧
  ∀ r', r' ∈ btree_values h.(node).(registry).(records) → r'.(cr_secure_key_handle) = Some x → r' = r.
Proof.
  intros Hr r x [Hon [id Hl]%elem_of_btree_values]%list_elem_of_filter Hx.
  pose proof (reachable_safe _ _ _ _ Hr) as [[Hs _] _]. simpl in *.
  destruct (ks_enabled _ _ _ _ _ Hs id x) as (? & _ & ?); [by exists r|]. split_and!; [done..|].
  intros r' [id' Hl']%elem_of_btree_values Hx'.
  assert (id = id') as <- by (eapply (ks_unique _ _ _ _ _ Hs); [by exists r|by exists r']). congruence.
Qed.

(** C35: As long as authorities answer with revisions that are not zero and with whole
    conflicts, a node that was started can be started again after any crash, and with what
    the last acknowledged change left. *)
Theorem node_starts_again `{!RegistryLaws} ih rc rp ever h :
  (∀ a b c d, rc a b c d = true → sane a b c d = true) → host_reachable ih rc rp (ever, h) →
  (∀ o, o ∈ h.(node).(file).(possible) → ∃ g, load o = Ok g ∧ written o g) ∧
  (∀ io g n', map_Forall record_ok g.(records) → persist_all io g h.(node) = (n', Ok ()) →
    ∀ o, o ∈ n'.(file).(possible) → load o = Ok n'.(registry)).
Proof.
  intros Hsane Hr. pose proof (loads_kept rc rp Hsane) as Hk.
  destruct (run_everywhere _ _ _ _ _ _ Hk Hr) as [_ Hf]; [by apply empty_everywhere|]. split.
  - intros o (g & Hw & Hg)%Hf. exists g. split; [by apply load_loads|done].
  - intros io g n' Hg. unfold persist_all. destruct (validate_state g) as [[]|e] eqn:Hv; [|done].
    destruct (replaced _ && _) eqn:Hok; [|done]. intros [= <-]. apply andb_true_iff in Hok as [Hok _].
    destruct io.(io_fault); try done. simpl. intros o ->%list_elem_of_singleton. apply load_loads; [by left|done].
Qed.

(** C19: A connector whose revocation was acknowledged stays revoked, through failing writes,
    crashes and everything that the node does, until the agent replaces it. *)
Theorem revocation_is_durable `{!RegistryLaws} ih rc rp ever h io id n' ever' h' :
  host_reachable ih rc rp (ever, h) → revoke io id h.(node) = (n', Ok true) →
  rtc (host_step ih rc (others id)) (ever, with_node n' h) (ever', h') →
  revoked id h'.(node).(registry) ∧ ∀ r, r ∈ enabled h'.(node).(registry) → r.(cr_connector_id) ≠ id.
Proof.
  intros Hr Hrev Hsteps. pose proof (reachable_safe _ _ _ _ Hr) as [[Hs _] _]. simpl in Hs.
  assert (Hn : everywhere (λ g, keyed g ∧ revoked id g) n').
  { revert Hrev. unfold revoke. destruct (_ !! id) as [r|] eqn:Hl; [|done]. destruct r.(cr_enabled); [|done].
    unfold persist_all. destruct (validate_state _); [|done]. destruct (replaced _ && _) eqn:Hok; [|done]. intros [= <-].
    apply andb_true_iff in Hok as [Hok _]. destruct io.(io_fault); try done.
    destruct (ks_keyed _ _ _ _ _ Hs _ _ Hl) as [Hid Hso]. apply sorted_grants_iff in Hso.
    assert (Hg : keyed (with_records (<[id := set_enabled false r]> h.(node).(registry).(records)) h.(node).(registry))
      ∧ revoked id (with_records (<[id := set_enabled false r]> h.(node).(registry).(records)) h.(node).(registry))).
    { split; [|exists (set_enabled false r); split; [apply lookup_insert_eq|done]].
      eapply keyed_insert; [intros i r'; apply (ks_keyed _ _ _ _ _ Hs)| |done]. split; [done|by apply sorted_grants_iff]. }
    split; [done|]. simpl. intros o ->%list_elem_of_singleton. eexists. split; [by left|done]. }
  destruct (run_everywhere _ _ _ _ _ _ (revoked_kept rc id) Hsteps Hn) as [[Hk Hoff] _]. split; [done|].
  intros r [Hon [i Hl]%elem_of_btree_values]%list_elem_of_filter E. destruct (Hk _ _ Hl) as [-> _], Hoff as (r' & Hl' & Hoff).
  rewrite E in Hl. simpl in *. congruence.
Qed.

Lemma load_records_invalid l acc r e : r ∈ l → validate_record r = Err e → is_ok (load_records l acc) = false.
Proof.
  revert acc. induction l as [|r0 l IH]; intros acc; [by intros ?%elem_of_nil|].
  intros [->|Hin]%elem_of_cons Hr; simpl; [by rewrite Hr|]. destruct (validate_record r0); [|done]. simpl. unfold check.
  case_bool_decide; [|done]. simpl. by apply IH.
Qed.
Lemma load_invalid `{!RegistryLaws} g id r e : g.(records) !! id = Some r → validate_record r = Err e →
  is_ok (load (Some (to_json (document_of g)))) = false.
Proof.
  intros Hl Hr. unfold load. rewrite registry_round_trip. simpl. unfold check. destruct (_ <=? _); [|done]. simpl.
  assert (Hb : is_ok (load_records (btree_values g.(records)) ∅) = false)
    by (eapply load_records_invalid; [apply elem_of_btree_values; by exists id|done]).
  by destruct (load_records _ _).
Qed.

(** Reconciliation stores a revision of an authority without checking it: once revision
    zero is stored, which is acknowledged, the node cannot load its connectors any more,
    those of the other authorities neither. *)
Theorem revision_zero_stops_the_node `{!RegistryLaws} io id applied conflict conflict_local n n' :
  map_Forall (λ id r, validate_record r = Ok ()) n.(registry).(records) →
  update_identity_reconciliation io id (Some 0%N) applied conflict conflict_local n = (n', Ok ()) →
  ∀ o, o ∈ n'.(file).(possible) → is_ok (load o) = false.
Proof.
  intros Hn. unfold update_identity_reconciliation. destruct (_ !! id) as [r|] eqn:Hl; [|done].
  unfold persist_all. destruct (validate_state _); [|done]. destruct (replaced _ && _) eqn:Hok; [|done]. intros [= <-].
  apply andb_true_iff in Hok as [Hok _]. destruct io.(io_fault); try done. simpl. intros o ->%list_elem_of_singleton.
  eapply (load_invalid _ id); [apply lookup_insert_eq|]. specialize (Hn _ _ Hl). revert Hn.
  unfold validate_record, check, revisions. simpl. instantiate (1 := InvalidReconciliation).
  repeat (first [done | case_match; simpl]).
Qed.

(** When the write of a new installation identity reaches the file and still fails, the
    key is deleted: after a crash the node may come up with an identity that it keeps, and
    hands out, for ever, and whose key is gone. *)
Theorem installation_key_is_lost `{!RegistryLaws} io p new_id scope h key public_key :
  everywhere loads h.(node) → h.(node).(registry).(installation_identity) = None →
  is_ok (installation_key_scope scope) = true → p = {| gk_key := Some (key, public_key); gk_verified := true; gk_deletes := true |} →
  handle_is_known key h.(node).(registry) = false → String.length ("ins_" +:+ new_id) ≤ 128 → io.(io_fault) = AfterReplace →
  let '(h', r) := ensure_installation_identity io p new_id scope h in
  let i := {| in_installation_id := "ins_" +:+ new_id; in_handle := key; in_public_key := public_key |} in
  r = Err PersistFailed ∧ (i.(in_handle) ∉ h'.(keys)) ∧
  ∃ o g, o ∈ h'.(node).(file).(possible) ∧ load o = Ok g ∧ g.(installation_identity) = Some i ∧
    ∀ io' p' id' scope', ensure_installation_identity io' p' id' scope' (with_node {| registry := g; file := settled o |} h')
      = (with_node {| registry := g; file := settled o |} h', Ok i).
Proof.
  intros [[Hv Hr] _] Hnone Hscope -> Hnew Hlen Hio. unfold ensure_installation_identity at 1. rewrite Hnone.
  destruct (installation_key_scope scope); [|done]. simpl. unfold set_installation_identity_once. rewrite Hnone. simpl. rewrite Hnew. simpl.
  assert (Hp : String.prefix "" ("" +:+ new_id) = true) by (by destruct ("" +:+ new_id)). rewrite Hp. simpl in *.
  rewrite (proj2 (Nat.ltb_ge _ _) Hlen). simpl. set (i := {| in_installation_id := _ |}). unfold persist_all.
  change (validate_state (with_identity (Some i) h.(node).(registry))) with (validate_state h.(node).(registry)).
  rewrite Hv, Hio. simpl. split_and!; [done|set_solver|].
  exists (Some (to_json (document_of (with_identity (Some i) h.(node).(registry))))), (with_identity (Some i) h.(node).(registry)).
  split_and!; [left|apply load_loads; [by left|done]|done|done].
Qed.
End claims.

(** * Authorities that share printers *)

Section authorities.
Context `{UrlApi}.
Implicit Types (groups : Groups) (T : string → string → string → Prop).

Record groups_are groups T : Prop := {
  ga_member key origin id : (∃ m s, groups !! key = Some m ∧ m !! origin = Some s ∧ id ∈ s) ↔ T key origin id;
  ga_nonempty key m origin s : groups !! key = Some m → m !! origin = Some s → ∃ id, id ∈ s
}.
Lemma add_member_are groups T key origin id : groups_are groups T →
  groups_are (add_member key origin id groups) (λ k o i, (k = key ∧ o = origin ∧ i = id) ∨ T k o i).
Proof.
  intros [Hm Hn]. unfold add_member. split.
  - intros k o i. rewrite <- Hm. destruct (decide (k = key)) as [->|Hk]; [rewrite lookup_partial_alter_eq|].
    + destruct (decide (o = origin)) as [->|Ho].
      * split.
        -- intros (m & s & [= <-] & Hs & Hi). rewrite lookup_partial_alter_eq in Hs. injection Hs as <-.
           apply elem_of_union in Hi as [->%elem_of_singleton|Hi]; [by left|]. right.
           destruct (groups !! key) as [m|] eqn:Hg; simpl in Hi; [|set_solver].
           destruct (m !! origin) as [s|] eqn:Hs; simpl in Hi; [|set_solver]. by exists m, s.
        -- intros Hi. eexists _, _. split; [done|]. rewrite lookup_partial_alter_eq. split; [done|].
           destruct Hi as [(_ & _ & ->)|(m & s & Hg & Hs & Hi)]; [set_solver|]. rewrite Hg. simpl. rewrite Hs. set_solver.
      * split.
        -- intros (m & s & [= <-] & Hs & Hi). rewrite lookup_partial_alter_ne in Hs by done. right.
           destruct (groups !! key) as [m|] eqn:Hg; simpl in Hs; [by exists m, s|by rewrite lookup_empty in Hs].
        -- intros [(_ & -> & _)|(m & s & Hg & Hs & Hi)]; [done|]. eexists _, s. split; [done|].
           rewrite lookup_partial_alter_ne, Hg by done. done.
    + rewrite lookup_partial_alter_ne by done. naive_solver.
  - intros k m o s Hg Hs. destruct (decide (k = key)) as [->|Hk].
    + rewrite lookup_partial_alter_eq in Hg. injection Hg as <-. destruct (decide (o = origin)) as [->|Ho].
      * rewrite lookup_partial_alter_eq in Hs. injection Hs as <-. exists id. set_solver.
      * rewrite lookup_partial_alter_ne in Hs by done. destruct (groups !! key) as [m|] eqn:Hg; simpl in Hs; [by eapply Hn|].
        by rewrite lookup_empty in Hs.
    + rewrite lookup_partial_alter_ne in Hg by done. by eapply Hn.
Qed.
Lemma groups_are_iff groups T T' : groups_are groups T → (∀ k o i, T k o i ↔ T' k o i) → groups_are groups T'.
Proof. intros [Hm Hn] HT. split; [|done]. intros. by rewrite Hm. Qed.

(** An enabled connector that may use a printer of the group. *)
Definition serves (rs : list ConnectorRecord) (pgs : list (string * string)) (key origin id : string) : Prop :=
  ∃ r printer, r ∈ rs ∧ r.(cr_enabled) = true ∧ (printer, key) ∈ pgs ∧ grants r printer = true
    ∧ origin = url_origin r.(cr_control_plane_url) ∧ id = r.(cr_connector_id).

Lemma printers_are r pgs groups T : groups_are groups T →
  groups_are (foldl (λ (groups : Groups) '(printer, key),
      if grants r printer then add_member key (url_origin r.(cr_control_plane_url)) r.(cr_connector_id) groups else groups)
    groups pgs)
    (λ k o i, (∃ printer, (printer, k) ∈ pgs ∧ grants r printer = true ∧ o = url_origin r.(cr_control_plane_url)
       ∧ i = r.(cr_connector_id)) ∨ T k o i).
Proof.
  revert groups T. induction pgs as [|[printer key] pgs IH]; intros groups T Hg; simpl.
  { eapply groups_are_iff; [exact Hg|]. intros. split; [by right|]. intros [(? & ?%elem_of_nil & _)|]; done. }
  destruct (grants r printer) eqn:Hp.
  - eapply groups_are_iff; [apply IH, add_member_are, Hg|]. intros k o i. split.
    + intros [(p & ? & ?)|[(-> & -> & ->)|?]]; [left; exists p; split; [by right|done]|left; exists printer; by split; [left|]|by right].
    + intros [(p & [[= -> ->]|Hin]%elem_of_cons & Hp' & -> & ->)|?]; [by right; left|left; by exists p|by right; right].
  - eapply groups_are_iff; [by apply IH|]. intros k o i. split.
    + intros [(p & ? & ?)|?]; [left; exists p; split; [by right|done]|by right].
    + intros [(p & [[= -> ->]|Hin]%elem_of_cons & Hp' & -> & ->)|?]; [congruence|left; by exists p|by right].
Qed.
Lemma authority_groups_are rs pgs : groups_are (authority_groups rs pgs) (serves rs pgs).
Proof.
  unfold authority_groups. assert (Hfold : ∀ l groups T, groups_are groups T →
    groups_are (foldl (λ groups r, foldl (λ (groups : Groups) '(printer, key),
      if grants r printer then add_member key (url_origin r.(cr_control_plane_url)) r.(cr_connector_id) groups else groups)
      groups pgs) groups l)
      (λ k o i, (∃ r printer, r ∈ l ∧ (printer, k) ∈ pgs ∧ grants r printer = true ∧ o = url_origin r.(cr_control_plane_url)
        ∧ i = r.(cr_connector_id)) ∨ T k o i)).
  { intros l. induction l as [|r l IH]; intros groups T Hg; simpl.
    - eapply groups_are_iff; [exact Hg|]. intros. split; [by right|]. intros [(? & ? & ?%elem_of_nil & _)|]; done.
    - eapply groups_are_iff; [apply IH, printers_are, Hg|]. intros k o i. split.
      + intros [(r' & p & ? & ?)|[(p & ?)|?]]; [left; exists r', p; by split; [right|]|left; exists r, p; by split; [left|]|by right].
      + intros [(r' & p & [->|Hin]%elem_of_cons & ?)|?]; [right; left; by exists p|left; by exists r', p|by right; right]. }
  eapply groups_are_iff; [apply (Hfold _ ∅ (λ _ _ _, False))|].
  - split; [|by intros key m o s Hg]. intros key o id. split; [by intros (m & s & Hg & _)|done].
  - intros k o i. unfold serves. split.
    + intros [(r & p & [Hon Hr]%list_elem_of_filter & ? & ?)|[]]. by exists r, p.
    + intros (r & p & Hr & Hon & ?). left. exists r, p. split; [by apply list_elem_of_filter|done].
Qed.

(** The connectors that share printers with another authority: those that may use a
    printer of a physical group, of which a connector of another origin may use one too. *)
Theorem shared_printers_are_found rs pgs id :
  id ∈ cross_authority_connectors rs pgs ↔
  ∃ key origin other id', serves rs pgs key origin id ∧ serves rs pgs key other id' ∧ origin ≠ other.
Proof.
  destruct (authority_groups_are rs pgs) as [Hm Hn]. unfold cross_authority_connectors.
  rewrite elem_of_union_list. split.
  - intros (X & ([key m] & -> & Hg%elem_of_map_to_list)%list_elem_of_fmap & Hid). simpl in Hid.
    destruct (Nat.ltb_spec 1 (size m)) as [Hsize|]; [|set_solver].
    apply elem_of_union_list in Hid as (s & ([origin s'] & -> & Hs%elem_of_map_to_list)%list_elem_of_fmap & Hid).
    assert (Hother : ∃ other s2, m !! other = Some s2 ∧ origin ≠ other).
    { destruct (map_choose (delete origin m)) as (other & s2 & Ho).
      - intros E. assert (Hd : size (delete origin m) = 0) by (rewrite E; apply map_size_empty).
        rewrite (map_size_delete_Some _ _ (mk_is_Some _ _ Hs)) in Hd. lia.
      - apply lookup_delete_Some in Ho as [Hne Ho]. by exists other, s2. }
    destruct Hother as (other & s2 & Ho & Hne). destruct (Hn _ _ _ _ Hg Ho) as [id' Hid'].
    exists key, origin, other, id'. rewrite <- !Hm. split_and!; [by exists m, s'|by exists m, s2|done].
  - intros (key & origin & other & id' & H1 & H2 & Hne). apply Hm in H1 as (m & s & Hg & Hs & Hid), H2 as (m' & s2 & Hg' & Hs2 & _).
    assert (m' = m) as -> by congruence. eexists. split.
    + apply list_elem_of_fmap. exists (key, m). split; [done|]. by apply elem_of_map_to_list.
    + simpl. assert (Hsize : 1 < size m).
      { rewrite <- (insert_delete_id m origin s Hs), map_size_insert_None by apply lookup_delete_eq.
        assert (Hd : size (delete origin m) ≠ 0); [|lia]. apply map_size_non_empty_iff. intros E.
        apply (f_equal (lookup other)) in E. rewrite lookup_delete_ne, lookup_empty in E by done. congruence. }
      rewrite (proj2 (Nat.ltb_lt _ _) Hsize). apply elem_of_union_list. exists s. split; [|done].
      apply list_elem_of_fmap. exists (origin, s). split; [done|]. by apply elem_of_map_to_list.
Qed.
End authorities.

(** * A node *)

Module NodeDemo.
#[local] Instance urls : UrlApi := {|
  Url := string; url_scheme _ := "https"%string; url_host u := Some u; url_username _ := ""%string;
  url_password _ := None; url_fragment _ := None; url_origin u := u |}.
#[local] Instance codec : RegistryCodec := {| text := ConnectorRegistryDocument; to_json d := d; from_json := Some |}.
#[local] Instance laws : RegistryLaws.
Proof. by split. Qed.

Definition fine : Io := {| io_fault := NoFault; io_permissions := true |}.
Definition unsynced : Io := {| io_fault := AfterReplace; io_permissions := true |}.
Definition installation (x : SecureKeyHandle) : bool := String.prefix "i" x.
Definition any (r : ConnectorRecord) : bool := true.
Definition fresh (x : SecureKeyHandle) : Generated := {| gk_key := Some (x, "public"%string); gk_verified := true; gk_deletes := true |}.
Definition request : ConnectorInvitationExchange :=
  {| ex_control_plane_url := "example.com"%string : Url; ex_invitation_token := "token"; ex_connector_key_handle := "c1";
     ex_application_scope := "app"; ex_printer_grant := SelectedPrinters; ex_allowed_printer_ids := ["p2"; "p1"]%string;
     ex_node_name := "node"; ex_hostname := "host"; ex_platform := "linux";
     ex_architecture := "x86_64" |}.
Definition authority : Authority :=
  {| au_grant := "selected"; au_expires_at := 1000; au_about := []; au_manage_url := None;
     au_enrolled := Some (Some "ncon_1"%string, "agt_1"%string) |}.

Definition prepared : Host := (prepare_connector_identity fine 0 (fresh "c1") "u" "app" new_host).1.
Definition connected : Host :=
  (exchange_connector_invitation fine fine 10 (fresh "i1") "a" true (Some authority) request prepared).1.
Definition ever : gset SecureKeyHandle := {["c1"]} ∪ ∅.
Definition record : ConnectorRecord := sorted_grants (enrolled_record request authority "ncon_1" "agt_1").

Lemma connected_reachable : host_reachable installation sane any (ever, connected).
Proof.
  eapply rtc_l; [apply (h_prepare _ _ _ ∅ new_host fine 0 (fresh "c1") "u" "app")|].
  { intros x k [= <- <-]. split; [vm_compute; reflexivity|set_solver]. }
  apply rtc_once. apply (h_exchange _ _ _ ever prepared fine fine 10 (fresh "i1") "a" true (Some authority) request).
  - by intros x k [= <- <-].
  - change ("c1" ∈ prepared.(given)). refine (bool_decide_eq_true_1 _ _). vm_compute. reflexivity.
Qed.
Lemma connected_record : connected.(node).(registry).(records) !! "ncon_1" = Some record.
Proof. vm_compute. reflexivity. Qed.
Lemma record_enabled : record ∈ enabled connected.(node).(registry).
Proof.
  apply list_elem_of_filter. split; [vm_compute; reflexivity|]. apply elem_of_btree_values. exists "ncon_1". exact connected_record.
Qed.

Lemma connector_keys_are_kept_witness :
  ∃ r, r ∈ enabled connected.(node).(registry) ∧ r.(cr_secure_key_handle) = Some "c1" ∧ "c1" ∈ connected.(keys)
    ∧ "c1" ∉ connected.(node).(registry).(key_cleanup).
Proof.
  exists record. destruct (connector_keys_are_kept installation sane any ever connected connected_reachable record "c1"
    record_enabled eq_refl) as (Hk & Hc & _). exact (conj record_enabled (conj eq_refl (conj Hk Hc))).
Defined.

Lemma node_starts_again_witness :
  ∃ g, load (Some (to_json (document_of connected.(node).(registry)))) = Ok g.
Proof.
  destruct (node_starts_again installation sane any ever connected (λ a b c d H, H) connected_reachable) as [Hl _].
  destruct (Hl (Some (to_json (document_of connected.(node).(registry))))) as (g & Hg & _).
  - apply list_elem_of_singleton. vm_compute. reflexivity.
  - exact (ex_intro _ g Hg).
Defined.

Definition disconnected : Node := (revoke fine "ncon_1" connected.(node)).1.
Definition interrupted : Node := (update_identity_reconciliation unsynced "ncon_1" (Some 2%N) (Some 1%N) None None disconnected).1.
Lemma disconnected_revoked : revoke fine "ncon_1" connected.(node) = (disconnected, Ok true).
Proof. vm_compute. reflexivity. Qed.
Lemma disconnected_runs :
  rtc (host_step installation sane (others "ncon_1")) (ever, with_node disconnected connected) (ever, with_node interrupted connected).
Proof. apply rtc_once. by apply (h_reconcile _ _ _ ever (with_node disconnected connected) unsynced "ncon_1"). Qed.
Lemma revocation_is_durable_witness :
  length interrupted.(file).(possible) = 2 ∧ revoked "ncon_1" interrupted.(registry).
Proof.
  split; [vm_compute; reflexivity|].
  exact (proj1 (revocation_is_durable installation sane any ever connected fine "ncon_1" disconnected ever _
    connected_reachable disconnected_revoked disconnected_runs)).
Defined.

Definition zeroed : Node := (update_identity_reconciliation fine "ncon_1" (Some 0%N) (Some 1%N) None None connected.(node)).1.
Lemma revision_zero_stops_the_node_witness : is_ok (load zeroed.(file).(visible)) = false ∧ zeroed.(registry).(records) ≠ ∅.
Proof.
  split.
  - apply (revision_zero_stops_the_node fine "ncon_1" (Some 1%N) None None connected.(node) zeroed).
    + replace (connected.(node).(registry).(records)) with ({["ncon_1" := record]} : gmap string ConnectorRecord)
        by (vm_compute; reflexivity).
      apply map_Forall_singleton. vm_compute. reflexivity.
    + vm_compute. reflexivity.
    + apply list_elem_of_singleton. vm_compute. reflexivity.
  - intros E%(f_equal (lookup "ncon_1")). vm_compute in E. discriminate E.
Defined.

Lemma installation_key_is_lost_witness :
  let h' := (ensure_installation_identity unsynced (fresh "i1") "a" "app" new_host).1 in
  ("i1" ∉ h'.(keys)) ∧ ∃ o g, o ∈ h'.(node).(file).(possible) ∧ load o = Ok g ∧ is_Some g.(installation_identity).
Proof.
  assert (He : everywhere loads (node new_host)) by (apply empty_everywhere; split; [reflexivity|apply map_Forall_empty]).
  pose proof (installation_key_is_lost unsynced (fresh "i1") "a" "app" new_host "i1" "public" He eq_refl eq_refl eq_refl
    eq_refl ltac:(vm_compute; lia) eq_refl) as Ht.
  destruct (ensure_installation_identity unsynced (fresh "i1") "a" "app" new_host) as [h' r].
  destruct Ht as (_ & Hk & o & g & Ho & Hg & Hi & _). split; [exact Hk|]. exists o, g.
  split; [exact Ho|]. split; [exact Hg|]. rewrite Hi. by eexists.
Defined.
End NodeDemo.
