(* ===== verification/LocalIpc.v ===== *)
(** Messages between applications and a node on one machine (crates/local-ipc/src/lib.rs): the
    operations of the broker, the proofs of requests and responses, and the frames that
    carry them.

    Strings are strings of bytes; a UUID is its sixteen bytes.  Hashing, base64 and JSON are
    those of their crates ([IpcCodec]); the data that operations and results carry through is
    opaque ([Payloads]). *)

From S2P Require Import Prelude Domain NodeRegistry.

(** * Bytes *)

(** [to_be_bytes] of [k] bytes, and back. *)
Fixpoint be_bytes (k : nat) (v : N) : string :=
  match k with
  | 0 => ""
  | S k => String.String (Ascii.ascii_of_N ((v / 256 ^ N.of_nat k) mod 256)) (be_bytes k v)
  end.
Fixpoint be_value (acc : N) (s : string) : N :=
  match s with "" => acc | String.String c s => be_value (acc * 256 + N_of_ascii c) s end%string.

Fixpoint string_take (n : nat) (s : string) : string :=
  match n, s with S n, String.String c s => String.String c (string_take n s) | _, _ => "" end.
Fixpoint string_drop (n : nat) (s : string) : string :=
  match n, s with S n, String.String _ s => string_drop n s | _, _ => s end.

(** [left.iter().zip(right).fold(0, |difference, (a, b)| difference | (a ^ b))]. *)
Fixpoint difference (acc : N) (l r : string) : N :=
  match l, r with
  | String.String a l, String.String b r => difference (N.lor acc (N.lxor (N_of_ascii a) (N_of_ascii b))) l r
  | _, _ => acc
  end.
Definition constant_time_proof_eq (l r : string) : bool :=
  if negb (String.length l =? String.length r) then false else (difference 0 l r =? 0)%N.

(** * Operations *)

Definition BROKER_PROTOCOL_MIN_VERSION : N := 1.
Definition BROKER_PROTOCOL_VERSION : N := 4.
Definition BROKER_PROOF_MAX_SKEW_MS : Z := 30000.
Definition MAX_MESSAGE_BYTES : N := 2 * 1024 * 1024.

Abbreviation Uuid := string.

Inductive BrokerCapability :=
| ObserveStatus | ObservePrinters | ObserveJobHistory | ManageProfiles | SubmitLocalJobs | ManageConnectors.
#[export] Instance BrokerCapability_eq_dec : EqDecision BrokerCapability.
Proof. solve_decision. Defined.

Record BrokerApplicationIdentity := {
  id_application_id : string;
  id_display_name : string;
  id_signing_identity_sha256 : option string
}.
Record BrokerAuthorizationHandle := { ah_authorization_id : Uuid; ah_nonce : string; ah_expires_unix_ms : Z }.
Inductive BrokerAuthorizationState := Pending | Approved | Denied | Expired.
Record PendingBrokerAuthorization := {
  pa_authorization_id : Uuid;
  pa_application : BrokerApplicationIdentity;
  pa_requested_capabilities : list BrokerCapability;
  pa_requested_unix_ms : Z;
  pa_expires_unix_ms : Z
}.
Record BrokerAuthorizationDecision := { de_approved : bool; de_granted_capabilities : list BrokerCapability }.
Record BrokerCredential := { bc_application_id : string; bc_token : string; bc_granted_capabilities : list BrokerCapability }.
Record BrokerPresence := { protocol_min : N; protocol_max : N }.
Record LocalFailure := { lf_code : string; lf_message : string; lf_retryable : bool }.

(** Captured configurations, and what the runtime answers. *)
Class Payloads := { Capture : Type; Data : Type; Json : Type; to_value : Data → option Json }.

Section operations.
Context `{Payloads}.

Inductive SdkBrokerOperation :=
| ConnectInvitation (control_plane_url invitation_token : string) (printer_grant : PrinterGrant)
    (allowed_printer_ids : list string) (node_name hostname : string)
| SubmitLocalJob (printer_id title idempotency_key : string) (profile_id : option string) (content_kind : Job.ContentKind)
    (content_base64 : string) (options : Job.JobOptions) (expires_unix_ms : option Z)
| Profiles (printer_id : string)
| JobHistory (offset limit : N)
| ConnectorSnapshots
| RevokeConnector (connector_id : string).

Inductive LocalOperation :=
| Status | Printers | Pause | Resume | RestartAgent
| ExportSupportBundle (destination : string)
| Reenrol (confirmation : string)
| BeginProfileCapture (printer_id operation : string) (profile_id : option string) (expected_revision : option N)
| CommitProfileCapture (session_id capture_token : string) (capture : Capture)
| CancelProfileCapture (session_id capture_token : string)
| ValidateProfile (profile_id : string) (revision : N)
| ConfirmLoadedMedia (device_id source : string) (stock_id : option string) (confidence : string) (confirmed_by : option string)
| Sdk (operation : SdkBrokerOperation).

Inductive BrokerOperation :=
| Presence
| RequestAuthorization (application : option BrokerApplicationIdentity) (requested : list BrokerCapability)
| AuthorizationStatus (handle : BrokerAuthorizationHandle)
| ExchangeAuthorization (handle : BrokerAuthorizationHandle)
| Execute (credential : BrokerCredential) (capability : BrokerCapability) (operation : LocalOperation)
| ExecuteAuthenticated (application_id : string) (capability : BrokerCapability) (operation : LocalOperation)
    (nonce : string) (issued_unix_ms : Z) (proof : string).
Record BrokerRequest := { rq_protocol : N; rq_request_id : Uuid; rq_operation : BrokerOperation }.

Inductive LocalResult :=
| LocalStatus (status : Data)
| LocalPrinters (printers : Data)
| Accepted
| ProfileCaptureAuthorized (authorization : Data)
| ProfileCaptured (profile : Data)
| ProfileValidation (validation : Data)
| SdkData (data : Json).
Inductive BrokerResult :=
| PresenceResult (presence : BrokerPresence)
| AuthorizationRequested (handle : BrokerAuthorizationHandle)
| AuthorizationStatusResult (state : BrokerAuthorizationState)
| AuthorizationExchanged (credential : BrokerCredential)
| LocalBrokerResult (result : LocalResult).
Record BrokerResponse := {
  rs_protocol : N;
  rs_request_id : Uuid;
  rs_result : result LocalFailure BrokerResult;
  rs_proof : option string
}.

(** * Proofs *)

Class IpcCodec := {
  sha256 : string → string;
  base64url : string → string;
  hex_encode : string → string;
  hex_decode : string → option string;
  operation_json : LocalOperation → option string;
  result_json : result LocalFailure BrokerResult → option string
}.

Section proofs.
Context `{IpcCodec}.

(** The 64 bytes of a block: the byte [pad], xored with the key where it has bytes. *)
Fixpoint xor_pad (n : nat) (pad : N) (key : string) : string :=
  match n with
  | 0 => ""
  | S n =>
    match key with
    | "" => String.String (Ascii.ascii_of_N pad) (xor_pad n pad "")
    | String.String k key => String.String (Ascii.ascii_of_N (N.lxor pad (N_of_ascii k))) (xor_pad n pad key)
    end%string
  end.
Fixpoint framed (fields : list string) : string :=
  match fields with [] => "" | f :: fields => be_bytes 8 (N.of_nat (String.length f)) +:+ f +:+ framed fields end.
Definition broker_hmac (key : string) (fields : list string) : string :=
  base64url (sha256 (xor_pad 64 92 key +:+ sha256 (xor_pad 64 54 key +:+ framed fields))).

Definition broker_proof_key (token : string) : string := sha256 token.

Definition quoted (s : string) : string := String.String (Ascii.ascii_of_N 34) (s +:+ String.String (Ascii.ascii_of_N 34) "").
Definition capability_json (c : BrokerCapability) : string :=
  quoted match c with
  | ObserveStatus => "observe_status" | ObservePrinters => "observe_printers" | ObserveJobHistory => "observe_job_history"
  | ManageProfiles => "manage_profiles" | SubmitLocalJobs => "submit_local_jobs" | ManageConnectors => "manage_connectors"
  end.
Definition i64_bytes (v : Z) : string := be_bytes 8 (Z.to_N (v mod 2 ^ 64)).

Definition broker_request_proof (key : string) (request_id : Uuid) (application_id : string) (capability : BrokerCapability)
    (operation : LocalOperation) (nonce : string) (issued_unix_ms : Z) : option string :=
  operation ← operation_json operation;
  Some (broker_hmac key ["piqae-broker-request-v4"%string; request_id; application_id; capability_json capability; operation;
                         nonce; i64_bytes issued_unix_ms]).
Definition broker_response_proof (key : string) (request_id : Uuid) (nonce : string)
    (r : result LocalFailure BrokerResult) : option string :=
  r ← result_json r;
  Some (broker_hmac key ["piqae-broker-response-v4"%string; request_id; nonce; r]).
End proofs.
End operations.

(** * Frames *)

Inductive LocalIpcError := MessageTooLarge (n : N) | IoError | JsonError.

Section frames.
Context {A : Type} (to_vec : A → option string) (from_slice : string → option A).

(** What is written to the stream. *)
Definition write_message (a : A) : result LocalIpcError string :=
  body ← ok_or (to_vec a) JsonError;
  let size := N.of_nat (String.length body) in
  if (MAX_MESSAGE_BYTES <? size)%N then Err (MessageTooLarge size) else
  Ok (be_bytes 4 size +:+ body).
(** The message, and the rest of the stream; a stream that ends early is an error. *)
Definition read_message (stream : string) : result LocalIpcError (A * string) :=
  if String.length stream <? 4 then Err IoError else
  let size := be_value 0 (string_take 4 stream) in
  let rest := string_drop 4 stream in
  if (MAX_MESSAGE_BYTES <? size)%N then Err (MessageTooLarge size) else
  if (N.of_nat (String.length rest) <? size)%N then Err IoError else
  a ← ok_or (from_slice (string_take (N.to_nat size) rest)) JsonError;
  Ok (a, string_drop (N.to_nat size) rest).
End frames.

(** * Facts about bytes *)

Lemma string_length_app (a b : string) : String.length (a +:+ b) = String.length a + String.length b.
Proof. induction a as [|c a IH]; [done|]. simpl. by rewrite <- IH. Qed.
Lemma string_app_inv (a b c d : string) : String.length a = String.length b → a +:+ c = b +:+ d → a = b ∧ c = d.
Proof.
  revert b. induction a as [|x a IH]; intros [|y b]; simpl; try done. intros Hl [= -> E]. injection Hl as Hl.
  by destruct (IH b Hl E) as [-> ->].
Qed.
Lemma string_take_app (a b : string) : string_take (String.length a) (a +:+ b) = a.
Proof. induction a as [|c a IH]; [by destruct b|]. simpl. by f_equal. Qed.
Lemma string_drop_app (a b : string) : string_drop (String.length a) (a +:+ b) = b.
Proof. induction a as [|c a IH]; [done|]. exact IH. Qed.

Lemma string_take_length n (s : string) : String.length (string_take n s) = n `min` String.length s.
Proof. revert n. induction s as [|c s IH]; intros [|n]; simpl; [done..|]. by rewrite IH. Qed.
Lemma string_drop_length n (s : string) : String.length (string_drop n s) = String.length s - n.
Proof. revert n. induction s as [|c s IH]; intros [|n]; simpl; [done..|]. by rewrite IH. Qed.
Lemma string_take_take m n (s : string) : string_take m (string_take n s) = string_take (m `min` n) s.
Proof. revert m n. induction s as [|c s IH]; intros [|m] [|n]; simpl; [done..|]. by rewrite IH. Qed.

Lemma be_bytes_length k v : String.length (be_bytes k v) = k.
Proof. induction k as [|k IH]; simpl; congruence. Qed.
Lemma be_value_bytes acc k v : be_value acc (be_bytes k v) = (acc * 256 ^ N.of_nat k + v mod 256 ^ N.of_nat k)%N.
Proof.
  revert acc. induction k as [|k IH]; intros acc; simpl be_bytes; simpl be_value.
  - rewrite N.mod_1_r. lia.
  - rewrite IH, Ascii.N_ascii_embedding by (apply N.mod_lt; lia). rewrite Nat2N.inj_succ, N.pow_succ_r'.
    rewrite (N.mul_comm 256), N.Div0.mod_mul_r. lia.
Qed.
Lemma be_value_small k v : (v < 256 ^ N.of_nat k)%N → be_value 0 (be_bytes k v) = v.
Proof. intros Hv. rewrite be_value_bytes, N.mod_small by done. lia. Qed.
Lemma be_bytes_inj k v w : (v < 256 ^ N.of_nat k)%N → (w < 256 ^ N.of_nat k)%N → be_bytes k v = be_bytes k w → v = w.
Proof. intros Hv Hw E. by rewrite <- (be_value_small k v Hv), <- (be_value_small k w Hw), E. Qed.

Lemma difference_zero acc l r : String.length l = String.length r → difference acc l r = 0%N ↔ acc = 0%N ∧ l = r.
Proof.
  revert acc r. induction l as [|a l IH]; intros acc [|b r]; simpl; try done; [intros _; naive_solver|].
  intros [= Hl]. rewrite (IH _ _ Hl), N.lor_eq_0_iff, N.lxor_eq_0_iff. split.
  - intros [[-> E] ->]. split; [done|]. f_equal. by rewrite <- (Ascii.ascii_N_embedding a), <- (Ascii.ascii_N_embedding b), E.
  - by intros [-> [= -> ->]].
Qed.
Lemma constant_time_proof_eq_spec l r : constant_time_proof_eq l r = true ↔ l = r.
Proof.
  unfold constant_time_proof_eq. destruct (Nat.eqb_spec (String.length l) (String.length r)) as [Hl|Hl]; simpl.
  - rewrite N.eqb_eq, difference_zero by done. naive_solver.
  - split; [done|]. by intros ->.
Qed.

(** Texts that fit: every length is a u64. *)
Definition fits (s : string) : Prop := (N.of_nat (String.length s) < 2 ^ 64)%N.
Lemma framed_inj l l' : Forall fits l → Forall fits l' → framed l = framed l' → l = l'.
Proof.
  intros Hl. revert l'. induction Hl as [|f l Hf Hl IH]; intros l' [|f' l'' Hf' Hl']; [done|done|done|].
  cbn [framed]. intros E. apply string_app_inv in E as [E1 E]; [|by rewrite !be_bytes_length].
  apply be_bytes_inj in E1; [|exact Hf|exact Hf']. apply Nat2N.inj in E1. apply string_app_inv in E as [-> E]; [|done].
  f_equal. by apply IH.
Qed.
Lemma xor_pad_inj pad n k k' : pad = 54%N ∨ pad = 92%N → String.length k = String.length k' → String.length k ≤ n →
  xor_pad n pad k = xor_pad n pad k' → k = k'.
Proof.
  intros Hpad. assert (Hx : ∀ a, Ascii.ascii_of_N (N.lxor pad (N_of_ascii (Ascii.ascii_of_N (N.lxor pad (N_of_ascii a))))) = a).
  { destruct Hpad as [->| ->]; intros [[] [] [] [] [] [] [] []]; vm_compute; reflexivity. }
  revert n k'. induction k as [|a k IH]; intros [|n] [|b k']; simpl; try done; [lia|]. intros [= Hl] Hn E.
  injection E as E1 E2. f_equal; [|apply (IH n); [done|lia|done]]. by rewrite <- (Hx a), <- (Hx b), E1.
Qed.
Lemma xor_pad_length n pad k : String.length (xor_pad n pad k) = n.
Proof. revert k. induction n as [|n IH]; intros k; simpl; [done|]. destruct k; simpl; by rewrite IH. Qed.

(** * What proofs bind *)

Class IpcLaws `{Payloads} `{!IpcCodec} : Prop := {
  sha256_length s : String.length (sha256 s) = 32;
  base64url_inj s t : base64url s = base64url t → s = t;
  hex_round_trip s : hex_decode (hex_encode s) = Some s;
  operation_json_inj o o' s : operation_json o = Some s → operation_json o' = Some s → o = o'
}.

Section binding.
Context `{Payloads} `{!IpcCodec} `{!IpcLaws}.

(** The two texts that are digested for an HMAC (RFC 2104), and that a pair of keys and
    fields shows a collision: two of these very texts differ and have one digest. *)
Definition inner_text (k : string) (l : list string) : string := xor_pad 64 54 k +:+ framed l.
Definition outer_text (k : string) (l : list string) : string := xor_pad 64 92 k +:+ sha256 (inner_text k l).
Definition collide (x y : string) : Prop := x ≠ y ∧ sha256 x = sha256 y.
Definition collision (k : string) (l : list string) (k' : string) (l' : list string) : Prop :=
  collide (outer_text k l) (outer_text k' l') ∨ collide (inner_text k l) (inner_text k' l').

Lemma broker_hmac_inj k k' l l' : String.length k = 32 → String.length k' = 32 → broker_hmac k l = broker_hmac k' l' →
  (k = k' ∧ framed l = framed l') ∨ collision k l k' l'.
Proof.
  unfold collision, collide, outer_text, inner_text.
  intros Hk Hk' E%base64url_inj. destruct (decide (xor_pad 64 92 k +:+ sha256 (xor_pad 64 54 k +:+ framed l)
    = xor_pad 64 92 k' +:+ sha256 (xor_pad 64 54 k' +:+ framed l'))) as [Eo|]; [|by right; left].
  apply string_app_inv in Eo as [Ek Ei]; [|by rewrite !xor_pad_length].
  apply xor_pad_inj in Ek; [|by right|congruence|lia]. subst k'.
  destruct (decide (xor_pad 64 54 k +:+ framed l = xor_pad 64 54 k +:+ framed l')) as [El|]; [|by right; right].
  apply string_app_inv in El as [_ El]; [|done]. by left.
Qed.
Lemma i64_bytes_inj t t' : (i64_min ≤ t ≤ i64_max)%Z → (i64_min ≤ t' ≤ i64_max)%Z → i64_bytes t = i64_bytes t' → t = t'.
Proof.
  unfold i64_bytes, i64_min, i64_max. intros Ht Ht' E. apply be_bytes_inj in E.
  - apply Z2N.inj in E; [|apply Z.mod_pos_bound; lia..].
    destruct (decide (0 ≤ t)%Z), (decide (0 ≤ t')%Z);
      rewrite ?(Z.mod_small t), ?(Z.mod_small t') in E by lia; try done.
    + replace (t' mod 2 ^ 64)%Z with (t' + 2 ^ 64)%Z in E; [lia|].
      apply Zmod_unique with (-1)%Z; lia.
    + replace (t mod 2 ^ 64)%Z with (t + 2 ^ 64)%Z in E; [lia|]. apply Zmod_unique with (-1)%Z; lia.
    + replace (t' mod 2 ^ 64)%Z with (t' + 2 ^ 64)%Z in E by (apply Zmod_unique with (-1)%Z; lia).
      replace (t mod 2 ^ 64)%Z with (t + 2 ^ 64)%Z in E by (apply Zmod_unique with (-1)%Z; lia). lia.
  - pose proof (Z.mod_pos_bound t (2 ^ 64)). lia.
  - pose proof (Z.mod_pos_bound t' (2 ^ 64)). lia.
Qed.
Lemma capability_json_inj c c' : capability_json c = capability_json c' → c = c'.
Proof. by destruct c, c'. Qed.

(** The fields of a request, with its operation as JSON, and those of a response. *)
Definition request_fields (i a : string) (c : BrokerCapability) (o n : string) (t : Z) : list string :=
  ["piqae-broker-request-v4"%string; i; a; capability_json c; o; n; i64_bytes t].
Definition response_fields (i n r : string) : list string := ["piqae-broker-response-v4"%string; i; n; r].

Lemma request_fields_fit i a c o n t : fits i → fits a → fits o → fits n → Forall fits (request_fields i a c o n t).
Proof.
  intros. assert (fits (capability_json c)) by (destruct c; vm_compute; reflexivity).
  assert (fits (i64_bytes t)) by (unfold fits, i64_bytes; by rewrite be_bytes_length).
  repeat (apply Forall_cons; split); [vm_compute; reflexivity|done..].
Qed.
Lemma response_fields_fit i n r : fits i → fits n → fits r → Forall fits (response_fields i n r).
Proof. intros. repeat (apply Forall_cons; split); [vm_compute; reflexivity|done..]. Qed.

(** C36: a proof stands for one request.  When two requests have one proof, they have the
    same key, identifier, application, capability, operation, nonce and time, or the texts
    that were digested for these two proofs are a collision of SHA-256; and when a response
    has the proof of a request, the texts of the two are such a collision. *)
Theorem proof_binds_request k k' i i' a a' c c' o o' n n' t t' s p :
  String.length k = 32 → String.length k' = 32 → Forall fits [i; i'; a; a'; n; n'; s] →
  (i64_min ≤ t ≤ i64_max)%Z → (i64_min ≤ t' ≤ i64_max)%Z →
  operation_json o = Some s → broker_request_proof k i a c o n t = Some p →
  (∀ s', operation_json o' = Some s' → fits s' → broker_request_proof k' i' a' c' o' n' t' = Some p →
    (k = k' ∧ i = i' ∧ a = a' ∧ c = c' ∧ o = o' ∧ n = n' ∧ t = t')
    ∨ collision k (request_fields i a c s n t) k' (request_fields i' a' c' s' n' t')) ∧
  (∀ r s', result_json r = Some s' → fits s' → broker_response_proof k' i' n' r = Some p →
    collision k (request_fields i a c s n t) k' (response_fields i' n' s')).
Proof.
  intros Hk Hk' Hfit Ht Ht' Hs. rewrite !Forall_cons in Hfit. destruct Hfit as (Hi & Hi' & Ha & Ha' & Hn & Hn' & Hfs & _).
  unfold broker_request_proof, broker_response_proof. rewrite Hs. intros [= <-].
  pose proof (request_fields_fit i a c s n t Hi Ha Hfs Hn) as Hl. split.
  - intros s' Hs' Hf'. rewrite Hs'. intros [= E]. symmetry in E.
    apply broker_hmac_inj in E as [[<- E]|]; [|by right|done..]. left.
    apply framed_inj in E; [|done|by apply request_fields_fit].
    pose proof (λ j, f_equal (λ l, nth j l ""%string) E) as Ef.
    split_and!; [done|exact (Ef 1)|exact (Ef 2)|apply capability_json_inj; exact (Ef 3)| |exact (Ef 5)|].
    + apply (operation_json_inj _ _ s); [done|]. rewrite Hs'. f_equal. exact (eq_sym (Ef 4)).
    + apply i64_bytes_inj; [done..|exact (Ef 6)].
  - intros r s' Hs' Hf'. rewrite Hs'. intros [= E]. symmetry in E.
    apply broker_hmac_inj in E as [[_ E]|]; [|done..].
    apply framed_inj in E; [|done|by apply response_fields_fit]. discriminate E.
Qed.
End binding.

(** * Frames come through *)

Section framing.
Context {A : Type} (to_vec : A → option string) (from_slice : string → option A).

(** A message that is written is read back, with the bytes after it left; what was cut
    off is not taken for a message, and a frame says at most two megabytes. *)
Theorem frames_round_trip a s :
  (∀ b, to_vec a = Some b → from_slice b = Some a) → write_message to_vec a = Ok s →
  (∀ rest, read_message from_slice (s +:+ rest) = Ok (a, rest)) ∧
  (∀ k, k < String.length s → read_message from_slice (string_take k s) = Err IoError) ∧
  (N.of_nat (String.length s) ≤ 4 + MAX_MESSAGE_BYTES)%N.
Proof.
  intros Hrt. unfold write_message. destruct (to_vec a) as [b|] eqn:Hb; [|done]. cbn [ok_or mbind result_bind].
  destruct (N.ltb_spec MAX_MESSAGE_BYTES (N.of_nat (String.length b))) as [|Hsize]; [done|].
  assert (Hv : be_value 0 (be_bytes 4 (N.of_nat (String.length b))) = N.of_nat (String.length b))
    by (apply be_value_small; unfold MAX_MESSAGE_BYTES in Hsize; lia).
  assert (Hh : String.length (be_bytes 4 (N.of_nat (String.length b))) = 4) by apply be_bytes_length.
  revert Hv Hh. generalize (be_bytes 4 (N.of_nat (String.length b))) as h. intros h Hv Hh [= <-]. split_and!.
  - intros rest. unfold read_message. rewrite <- string_app_assoc, (proj2 (Nat.ltb_ge _ _)) by (rewrite string_length_app; lia).
    rewrite <- Hh, string_take_app, string_drop_app, Hv.
    rewrite (proj2 (N.ltb_ge _ _) Hsize), (proj2 (N.ltb_ge _ _)) by (rewrite string_length_app; lia).
    rewrite Nat2N.id, string_take_app, string_drop_app, (Hrt b eq_refl). done.
  - intros k. rewrite string_length_app, Hh. intros Hk. unfold read_message.
    destruct (Nat.ltb_spec (String.length (string_take k (h +:+ b))) 4) as [|H4]; [done|].
    rewrite string_take_length in H4. assert (4 ≤ k) by lia.
    replace (string_take 4 (string_take k (h +:+ b))) with h; [|by rewrite string_take_take, Nat.min_l, <- Hh, string_take_app by lia].
    rewrite Hv, (proj2 (N.ltb_ge _ _) Hsize), (proj2 (N.ltb_lt _ _)); [done|].
    rewrite string_drop_length, string_take_length, string_length_app. lia.
  - rewrite string_length_app, Hh. lia.
Qed.
End framing.

(** * Examples *)

Module IpcDemo.
Definition zeros : string := "00000000000000000000000000000000".
Definition digest (s : string) : string := string_take 32 (s +:+ zeros).
Definition job : SdkBrokerOperation := SubmitLocalJob "printer" "title" "key" None Job.Raw "" Job.default_options None.
#[export] Existing Instances Job.ContentKind_eq_dec Job.JobOptions_eq_dec.
#[export] Instance SdkBrokerOperation_eq_dec : EqDecision SdkBrokerOperation.
Proof. solve_decision. Defined.
#[export] Instance payloads : Payloads := {| Capture := unit; Data := unit; Json := unit; to_value := Some |}.
#[export] Instance codec : IpcCodec := {|
  sha256 := digest; base64url s := s; hex_encode s := s; hex_decode := Some;
  operation_json o := match o with
                      | Status => Some "status"%string
                      | Sdk s => if decide (s = job) then Some "job"%string else None
                      | _ => None
                      end;
  result_json _ := Some "result"%string |}.
Lemma operations_differ o o' s : operation_json o = Some s → operation_json o' = Some s → o = o'.
Proof. destruct o, o'; simpl; try done; repeat case_decide; congruence. Qed.
#[export] Instance laws : IpcLaws.
Proof.
  split; [|done|done|apply operations_differ].
  intros s. simpl. unfold digest. rewrite string_take_length, string_length_app. change (String.length zeros) with 32. lia.
Qed.

Definition proof : string := default zeros (broker_request_proof zeros "id" "app" ObserveStatus Status "n" 5).
Lemma proof_binds_request_witness :
  broker_request_proof zeros "id" "app" ObserveStatus Status "n" 5 = Some proof ∧
  (broker_request_proof zeros "id" "app" ObserveStatus Status "n" 6 = Some proof →
   collision zeros (request_fields "id" "app" ObserveStatus "status" "n" 5)
     zeros (request_fields "id" "app" ObserveStatus "status" "n" 6)) ∧
  (∀ r, broker_response_proof zeros "id" "n" r = Some proof →
   collision zeros (request_fields "id" "app" ObserveStatus "status" "n" 5) zeros (response_fields "id" "n" "result")).
Proof.
  split; [reflexivity|].
  destruct (proof_binds_request zeros zeros "id" "id" "app" "app" ObserveStatus ObserveStatus Status Status "n" "n" 5 6
    "status" proof eq_refl eq_refl) as [Hp Hr];
    [repeat constructor|vm_compute; split; discriminate|vm_compute; split; discriminate|reflexivity..|].
  split; [intros E|intros r E; exact (Hr r "result"%string eq_refl eq_refl E)].
  destruct (Hp "status"%string eq_refl eq_refl E) as [(_ & _ & _ & _ & _ & _ & Ht)|Hc]; [discriminate Ht|exact Hc].
Defined.

Definition frame : string := be_bytes 4 5 +:+ "hello".
Lemma frames_round_trip_witness :
  write_message Some "hello"%string = Ok frame ∧ read_message Some (frame +:+ frame) = Ok ("hello"%string, frame)
    ∧ read_message Some (string_take 6 frame) = Err IoError.
Proof.
  split; [reflexivity|]. destruct (frames_round_trip Some Some "hello"%string frame (λ b H, eq_sym H) eq_refl) as (H1 & H2 & _).
  split; [exact (H1 _)|]. apply H2. vm_compute. lia.
Defined.
End IpcDemo.
