(* ===== verification/NodeBroker.v ===== *)
(** The broker of a node (crates/node-runtime/src/broker.rs): applications on the machine ask
    for capabilities, an operator grants them, and requests with a proof of the granted token
    become commands of the node's runtime.

    Every operation that changes the broker does so under one lock, as one step here; the
    operating system says who a peer is, and random numbers, the clock, the outcome of a
    write and the answers of the runtime are arguments. *)

From S2P Require Import Prelude Domain Coordinator DurableFile NodeRegistry LocalIpc.

Definition DOCUMENT_VERSION : N := 3.
Definition MAX_APPLICATIONS : nat := 128.
Definition MAX_PENDING_AUTHORIZATIONS : nat := 64.
Definition AUTHORIZATION_LIFETIME_MS : Z := 5 * 60 * 1000.
Definition MAX_REPLAY_PROOFS : nat := 4096.

(** * Capabilities *)

Record ApplicationCapabilities := {
  observe_status : bool;
  observe_printers : bool;
  observe_job_history : bool;
  manage_profiles : bool;
  submit_local_jobs : bool;
  manage_connectors : bool
}.
Definition no_capabilities : ApplicationCapabilities :=
  {| observe_status := false; observe_printers := false; observe_job_history := false; manage_profiles := false;
     submit_local_jobs := false; manage_connectors := false |}.

Definition allows (self requested : ApplicationCapabilities) : bool :=
  (negb requested.(observe_status) || self.(observe_status))
  && (negb requested.(observe_printers) || self.(observe_printers))
  && (negb requested.(observe_job_history) || self.(observe_job_history))
  && (negb requested.(manage_profiles) || self.(manage_profiles))
  && (negb requested.(submit_local_jobs) || self.(submit_local_jobs))
  && (negb requested.(manage_connectors) || self.(manage_connectors)).
Definition requiring (capability : BrokerCapability) : ApplicationCapabilities :=
  let needs c := bool_decide (capability = c) in
  {| observe_status := needs ObserveStatus; observe_printers := needs ObservePrinters; observe_job_history := needs ObserveJobHistory;
     manage_profiles := needs ManageProfiles; submit_local_jobs := needs SubmitLocalJobs; manage_connectors := needs ManageConnectors |}.
Definition with_capability (result requested : ApplicationCapabilities) : ApplicationCapabilities :=
  {| observe_status := result.(observe_status) || requested.(observe_status);
     observe_printers := result.(observe_printers) || requested.(observe_printers);
     observe_job_history := result.(observe_job_history) || requested.(observe_job_history);
     manage_profiles := result.(manage_profiles) || requested.(manage_profiles);
     submit_local_jobs := result.(submit_local_jobs) || requested.(submit_local_jobs);
     manage_connectors := result.(manage_connectors) || requested.(manage_connectors) |}.
Definition from_capabilities (capabilities : list BrokerCapability) : ApplicationCapabilities :=
  foldl (λ result c, with_capability result (requiring c)) no_capabilities capabilities.

(** The order of the declaration, in which a [BTreeSet] lists them. *)
Definition all_capabilities : list BrokerCapability :=
  [ObserveStatus; ObservePrinters; ObserveJobHistory; ManageProfiles; SubmitLocalJobs; ManageConnectors].
Definition validated_capabilities (capabilities : list BrokerCapability) : option (list BrokerCapability) :=
  let unique := filter (λ c, c ∈ capabilities) all_capabilities in
  if bool_decide (unique = []) || negb (length unique =? length capabilities) || (6 <? length unique) then None
  else Some unique.

(** * Identities *)

Inductive BrokerError :=
| BadDocument | BadVersion | TooManyApplications | BadIdentity | BadPrincipal | DuplicateApplication | DuplicatePrincipal
| TooManyProofs | ApplicationLimit | WriteFailed | NotJson.

Definition is_ascii_hexdigit (c : ascii) : bool :=
  let n := N_of_ascii c in
  ((48 <=? n) && (n <=? 57) || (65 <=? n) && (n <=? 70) || (97 <=? n) && (n <=? 102))%N.
Definition is_digest (s : string) : bool := (String.length s =? 64) && bytes_all is_ascii_hexdigit s.
Definition validate_identity (i : BrokerApplicationIdentity) : result BrokerError unit :=
  if bool_decide (i.(id_application_id) = ""%string) || (255 <? String.length i.(id_application_id))
     || negb (bytes_all (λ c, is_ascii_alphanumeric c || bool_decide (N_of_ascii c ∈ [46; 45; 95]%N)) i.(id_application_id))
     || bool_decide (i.(id_display_name) = ""%string) || (128 <? String.length i.(id_display_name))
     || from_option (λ v, negb (is_digest v)) false i.(id_signing_identity_sha256)
  then Err BadIdentity else Ok ().
Definition validate_principal_digest (value : string) : result BrokerError unit :=
  if is_digest value then Ok () else Err BadPrincipal.
Definition claimed_identity_matches (claimed verified : BrokerApplicationIdentity) : bool :=
  bool_decide (claimed.(id_application_id) = verified.(id_application_id))
  && from_option (λ digest, bool_decide (verified.(id_signing_identity_sha256) = Some digest)) true
       claimed.(id_signing_identity_sha256).

(** What the operating system says of a connection. *)
Record Peer := { pe_application : BrokerApplicationIdentity; pe_principal_sha256 : string }.

(** * The registry *)

Record DurableApplicationAuthorization := {
  da_identity : BrokerApplicationIdentity;
  da_verified_principal_sha256 : option string;
  da_capabilities : ApplicationCapabilities;
  da_token_sha256 : string;
  da_revoked : bool
}.
Record DurableReplayProof := { dr_application_id : string; dr_nonce_sha256 : string; dr_expires_unix_ms : Z }.
Record BrokerDocument := {
  bd_version : N;
  bd_applications : list DurableApplicationAuthorization;
  bd_replay_proofs : list DurableReplayProof
}.
Record BrokerRegistry := {
  applications : gmap string DurableApplicationAuthorization;
  replay_proofs : gmap (string * string) Z
}.

Definition set_revoked (a : DurableApplicationAuthorization) : DurableApplicationAuthorization :=
  {| da_identity := a.(da_identity); da_verified_principal_sha256 := a.(da_verified_principal_sha256);
     da_capabilities := a.(da_capabilities); da_token_sha256 := a.(da_token_sha256); da_revoked := true |}.
Definition application_of (a : DurableApplicationAuthorization) : string := a.(da_identity).(id_application_id).
Definition principal_key (a : DurableApplicationAuthorization) : string :=
  from_option (λ p, p) ("legacy:" +:+ application_of a) a.(da_verified_principal_sha256).

(** Applications, each once and with its own principal; [ids] are those that were read. *)
Fixpoint load_applications (l : list DurableApplicationAuthorization) (ids : gset string)
    (acc : gmap string DurableApplicationAuthorization) : result BrokerError (gmap string DurableApplicationAuthorization) :=
  match l with
  | [] => Ok acc
  | a :: l =>
    _ ← validate_identity a.(da_identity);
    if decide (application_of a ∈ ids) then Err DuplicateApplication else
    _ ← from_option validate_principal_digest (Ok ()) a.(da_verified_principal_sha256);
    if decide (is_Some (acc !! principal_key a)) then Err DuplicatePrincipal else
    load_applications l ({[application_of a]} ∪ ids) (<[principal_key a := a]> acc)
  end.

(** [serde_json]. *)
Class BrokerCodec := {
  broker_text : Type;
  broker_to_json : BrokerDocument → broker_text;
  broker_from_json : broker_text → option BrokerDocument
}.

Definition proof_leb (p q : (string * string) * Z) : bool :=
  if String.eqb p.1.1 q.1.1 then String.leb p.1.2 q.1.2 else String.leb p.1.1 q.1.1.
Definition document (g : BrokerRegistry) : BrokerDocument :=
  {| bd_version := DOCUMENT_VERSION; bd_applications := btree_values g.(applications);
     bd_replay_proofs := (λ p : (string * string) * Z, {| dr_application_id := p.1.1; dr_nonce_sha256 := p.1.2;
       dr_expires_unix_ms := p.2 |}) <$> sort_by proof_leb (map_to_list g.(replay_proofs)) |}.

Section broker.
Context `{Payloads} `{!IpcCodec} `{!BrokerCodec}.

Definition load (now : Z) (found : option broker_text) : result BrokerError BrokerRegistry :=
  d ← match found with
      | Some bytes => ok_or (broker_from_json bytes) BadDocument
      | None => Ok {| bd_version := DOCUMENT_VERSION; bd_applications := []; bd_replay_proofs := [] |}
      end;
  if negb (bool_decide (d.(bd_version) ∈ [1; 2; DOCUMENT_VERSION]%N)) then Err BadVersion else
  if MAX_APPLICATIONS <? length d.(bd_applications) then Err TooManyApplications else
  apps ← load_applications d.(bd_applications) ∅ ∅;
  if MAX_REPLAY_PROOFS <? length d.(bd_replay_proofs) then Err TooManyProofs else
  Ok {| applications := apps;
        replay_proofs := list_to_map ((λ p, ((p.(dr_application_id), p.(dr_nonce_sha256)), p.(dr_expires_unix_ms)))
          <$> reverse (filter (λ p, (now < p.(dr_expires_unix_ms))%Z) d.(bd_replay_proofs))) |}.

(** * Consent *)

Record PendingAuthorization := {
  pn_view : PendingBrokerAuthorization;
  pn_verified_principal_sha256 : string;
  pn_nonce_sha256 : string;
  pn_decision : option (result unit (list BrokerCapability))
}.
Definition decided (d : result unit (list BrokerCapability)) (p : PendingAuthorization) : PendingAuthorization :=
  {| pn_view := p.(pn_view); pn_verified_principal_sha256 := p.(pn_verified_principal_sha256);
     pn_nonce_sha256 := p.(pn_nonce_sha256); pn_decision := Some d |}.

(** The registry in memory, its file, and the requests that wait. *)
Record Broker := { registry : BrokerRegistry; file : Disk broker_text; pending : gmap Uuid PendingAuthorization }.
Definition with_pending (m : gmap Uuid PendingAuthorization) (b : Broker) : Broker :=
  {| registry := b.(registry); file := b.(file); pending := m |}.

(** [persist_state], and the assignment of what was persisted. *)
Definition persist_state (fault : ReplaceFault) (g : BrokerRegistry) (b : Broker) : Broker * result BrokerError unit :=
  let f := replace fault (broker_to_json (document g)) b.(file) in
  if replaced fault then ({| registry := g; file := f; pending := b.(pending) |}, Ok ())
  else ({| registry := b.(registry); file := f; pending := b.(pending) |}, Err WriteFailed).

Definition token_digest (token : string) : string := hex_encode (sha256 token).
Definition constant_time_eq : string → string → bool := constant_time_proof_eq.

(** The token is new; it is returned and only its digest is kept. *)
Definition authorize (fault : ReplaceFault) (token : string) (identity : BrokerApplicationIdentity) (principal : string)
    (capabilities : ApplicationCapabilities) (b : Broker) : Broker * result BrokerError string :=
  match validate_identity identity, validate_principal_digest principal with
  | Err e, _ => (b, Err e)
  | Ok _, Err e => (b, Err e)
  | Ok _, Ok _ =>
    let apps := b.(registry).(applications) in
    let replaces_existing :=
      existsb (λ a, bool_decide (application_of a = identity.(id_application_id))) (btree_values apps) in
    if negb replaces_existing && (MAX_APPLICATIONS <=? size apps) then (b, Err ApplicationLimit) else
    let apps := filter (λ e : string * DurableApplicationAuthorization,
      application_of e.2 ≠ identity.(id_application_id)) apps in
    let apps := <[principal := {| da_identity := identity; da_verified_principal_sha256 := Some principal;
      da_capabilities := capabilities; da_token_sha256 := token_digest token; da_revoked := false |}]> apps in
    let '(b, r) := persist_state fault {| applications := apps; replay_proofs := b.(registry).(replay_proofs) |} b in
    (b, _ ← r; Ok token)
  end.

Definition authenticate (g : BrokerRegistry) (application_id principal token : string)
    (requested : ApplicationCapabilities) : bool :=
  match g.(applications) !! principal with
  | None => false
  | Some a =>
    negb a.(da_revoked) && bool_decide (application_of a = application_id)
    && bool_decide (a.(da_verified_principal_sha256) = Some principal) && allows a.(da_capabilities) requested
    && constant_time_eq a.(da_token_sha256) (token_digest token)
  end.

(** [hex::decode(..).ok().and_then(|value| value.try_into().ok())]. *)
Definition proof_key (token_sha256 : string) : option string :=
  key ← hex_decode token_sha256;
  if String.length key =? 32 then Some key else None.

Definition authenticate_proof (fault : ReplaceFault) (request_id : Uuid) (application_id principal : string)
    (capability : BrokerCapability) (operation : LocalOperation) (nonce : string) (issued_unix_ms : Z) (proof : string)
    (now_unix_ms : Z) (b : Broker) : Broker * result BrokerError (option string) :=
  if bool_decide (application_id = ""%string) || negb (is_ok (validate_principal_digest principal))
     || (String.length nonce <? 32) || (128 <? String.length nonce)
     || (BROKER_PROOF_MAX_SKEW_MS <? Z.abs (now_unix_ms - issued_unix_ms))%Z
  then (b, Ok None) else
  match b.(registry).(applications) !! principal with
  | None => (b, Ok None)
  | Some a =>
    if a.(da_revoked) || negb (bool_decide (application_of a = application_id))
       || negb (bool_decide (a.(da_verified_principal_sha256) = Some principal))
       || negb (allows a.(da_capabilities) (requiring capability))
    then (b, Ok None) else
    match proof_key a.(da_token_sha256) with
    | None => (b, Ok None)
    | Some key =>
      match broker_request_proof key request_id application_id capability operation nonce issued_unix_ms with
      | None => (b, Err NotJson)
      | Some expected =>
        if negb (constant_time_proof_eq expected proof) then (b, Ok None) else
        let replay_key := (application_id, hex_encode (sha256 nonce)) in
        let kept := filter (λ e : (string * string) * Z, (now_unix_ms < e.2)%Z) b.(registry).(replay_proofs) in
        if bool_decide (is_Some (kept !! replay_key)) || (MAX_REPLAY_PROOFS <=? size kept) then (b, Ok None) else
        let kept := <[replay_key := i64_saturating_add issued_unix_ms BROKER_PROOF_MAX_SKEW_MS]> kept in
        let '(b, r) := persist_state fault {| applications := b.(registry).(applications); replay_proofs := kept |} b in
        (b, _ ← r; Ok (Some key))
      end
    end
  end.

Definition revoke (fault : ReplaceFault) (application_id : string) (b : Broker) : Broker * result BrokerError bool :=
  let apps := b.(registry).(applications) in
  match List.find (λ e, bool_decide (application_of e.2 = application_id)) (btree_entries apps) with
  | None => (b, Ok false)
  | Some (principal, a) =>
    if a.(da_revoked) then (b, Ok false) else
    let '(b, r) := persist_state fault {| applications := <[principal := set_revoked a]> apps;
                                          replay_proofs := b.(registry).(replay_proofs) |} b in
    (b, _ ← r; Ok true)
  end.

(** * Decisions of the operator *)

Record CommandFailure := { cf_code : string; cf_message : string; cf_current_revision : option N }.
Definition command_error (code message : string) : CommandFailure :=
  {| cf_code := code; cf_message := message; cf_current_revision := None |}.

Definition prune_expired (now : Z) (m : gmap Uuid PendingAuthorization) : gmap Uuid PendingAuthorization :=
  filter (λ e : Uuid * PendingAuthorization, (now < e.2.(pn_view).(pa_expires_unix_ms))%Z) m.

(** [BrokerConsentHandle::pending]. *)
Definition pending_views (now : Z) (b : Broker) : Broker * list PendingBrokerAuthorization :=
  let m := prune_expired now b.(pending) in
  (with_pending m b, pn_view <$> filter (λ p, p.(pn_decision) = None) (btree_values m)).

Definition decide_authorization (now : Z) (id : Uuid) (decision : BrokerAuthorizationDecision) (b : Broker) :
    Broker * result CommandFailure unit :=
  let m := prune_expired now b.(pending) in
  let b := with_pending m b in
  match m !! id with
  | None => (b, Err (command_error "broker_authorization_not_found" "the authorization request was not found or expired"))
  | Some p =>
    if bool_decide (is_Some p.(pn_decision)) then
      (b, Err (command_error "broker_authorization_already_decided" "the authorization request has already been decided")) else
    if negb decision.(de_approved) then
      if negb (bool_decide (decision.(de_granted_capabilities) = [])) then
        (b, Err (command_error "broker_authorization_invalid_decision" "a denied request cannot grant capabilities"))
      else (with_pending (<[id := decided (Err ()) p]> m) b, Ok ()) else
    let invalid := command_error "broker_authorization_invalid_capabilities"
                     "approved capabilities must be a non-empty subset of the request" in
    match validated_capabilities decision.(de_granted_capabilities) with
    | None => (b, Err invalid)
    | Some granted =>
      if negb (forallb (λ c, bool_decide (c ∈ p.(pn_view).(pa_requested_capabilities))) granted) then (b, Err invalid)
      else (with_pending (<[id := decided (Ok granted) p]> m) b, Ok ())
    end
  end.

(** * Requests of applications *)

Definition local_failure (code message : string) (retryable : bool) : LocalFailure :=
  {| lf_code := code; lf_message := message; lf_retryable := retryable |}.
Definition unavailable : LocalFailure :=
  local_failure "node_runtime_unavailable" "the durable node runtime is unavailable" true.
Definition command_failure (f : CommandFailure) : LocalFailure := local_failure f.(cf_code) f.(cf_message) false.
Definition unverified_peer : LocalFailure :=
  local_failure "broker_peer_identity_unverified"
    "the operating system could not verify the signed application attached to this connection" false.
Definition peer_mismatch : LocalFailure :=
  local_failure "broker_peer_identity_mismatch" "the authorization belongs to a different signed application" false.

(** New random numbers: an identifier, and a token or nonce. *)
Record Draw := { dw_id : Uuid; dw_token : string }.

Definition request (now : Z) (draw : Draw) (claimed : option BrokerApplicationIdentity) (peer : Peer)
    (capabilities : list BrokerCapability) (b : Broker) : Broker * result LocalFailure BrokerAuthorizationHandle :=
  match validate_identity peer.(pe_application) with
  | Err _ => (b, Err (local_failure "broker_peer_identity_unverified"
      "the operating system did not provide a supported signed application identity" false))
  | Ok _ =>
    if negb (from_option (λ c, claimed_identity_matches c peer.(pe_application)) true claimed) then
      (b, Err (local_failure "broker_application_identity_mismatch"
        "the claimed application identity does not match the signed broker peer" false)) else
    match validated_capabilities capabilities with
    | None => (b, Err (local_failure "invalid_requested_capabilities"
        "at least one unique supported capability is required" false))
    | Some capabilities =>
      let m := prune_expired now b.(pending) in
      let b := with_pending m b in
      if MAX_PENDING_AUTHORIZATIONS <=? size m then
        (b, Err (local_failure "authorization_capacity_reached"
          "the node has too many pending authorization requests" true)) else
      let expires := i64_saturating_add now AUTHORIZATION_LIFETIME_MS in
      let p := {| pn_view := {| pa_authorization_id := draw.(dw_id); pa_application := peer.(pe_application);
                    pa_requested_capabilities := capabilities; pa_requested_unix_ms := now; pa_expires_unix_ms := expires |};
                  pn_verified_principal_sha256 := peer.(pe_principal_sha256);
                  pn_nonce_sha256 := token_digest draw.(dw_token); pn_decision := None |} in
      (with_pending (<[draw.(dw_id) := p]> m) b,
       Ok {| ah_authorization_id := draw.(dw_id); ah_nonce := draw.(dw_token); ah_expires_unix_ms := expires |})
    end
  end.

Definition authenticated_pending (m : gmap Uuid PendingAuthorization) (handle : BrokerAuthorizationHandle) :
    result LocalFailure PendingAuthorization :=
  match m !! handle.(ah_authorization_id) with
  | None => Err (local_failure "authorization_not_found" "the authorization request was not found or has expired" false)
  | Some p =>
    if negb (bool_decide (handle.(ah_expires_unix_ms) = p.(pn_view).(pa_expires_unix_ms)))
       || negb (constant_time_eq p.(pn_nonce_sha256) (token_digest handle.(ah_nonce)))
    then Err (local_failure "authorization_invalid_nonce" "the authorization exchange secret is invalid" false)
    else Ok p
  end.

Definition status (now : Z) (handle : BrokerAuthorizationHandle) (peer : Peer) (b : Broker) :
    Broker * result LocalFailure BrokerAuthorizationState :=
  if (handle.(ah_expires_unix_ms) <=? now)%Z then (b, Ok Expired) else
  let m := prune_expired now b.(pending) in
  let b := with_pending m b in
  match authenticated_pending m handle with
  | Err e => (b, Err e)
  | Ok p =>
    if negb (constant_time_eq p.(pn_verified_principal_sha256) peer.(pe_principal_sha256)) then (b, Err peer_mismatch) else
    (b, Ok match p.(pn_decision) with None => Pending | Some (Ok _) => Approved | Some (Err _) => Denied end)
  end.

Definition exchange (fault : ReplaceFault) (now : Z) (draw : Draw) (handle : BrokerAuthorizationHandle) (peer : Peer)
    (b : Broker) : Broker * result LocalFailure BrokerCredential :=
  let m := prune_expired now b.(pending) in
  let b := with_pending m b in
  match authenticated_pending m handle with
  | Err e => (b, Err e)
  | Ok p =>
    if negb (constant_time_eq p.(pn_verified_principal_sha256) peer.(pe_principal_sha256)) then (b, Err peer_mismatch) else
    match p.(pn_decision) with
    | None => (b, Err (local_failure "authorization_pending"
        "the authorization request is awaiting a node-side decision" true))
    | Some (Err _) => (b, Err (local_failure "authorization_denied"
        "the node operator denied the authorization request" false))
    | Some (Ok capabilities) =>
      let application := p.(pn_view).(pa_application) in
      match authorize fault draw.(dw_token) application peer.(pe_principal_sha256) (from_capabilities capabilities) b with
      | (b, Err _) => (b, Err (local_failure "authorization_persistence_failed"
          "the approved capability could not be persisted" true))
      | (b, Ok token) =>
        (with_pending (delete handle.(ah_authorization_id) b.(pending)) b,
         Ok {| bc_application_id := application.(id_application_id); bc_token := token;
               bc_granted_capabilities := capabilities |})
      end
    end
  end.

(** * Commands *)

(** [LifecycleEvent] of crates/node-host-api/src/lib.rs. *)
Inductive LifecycleEvent :=
| Started | EnteredForeground | EnteredBackground | SuspendImminent | Sleeping | Woke
| NetworkAvailable | NetworkConstrained | NetworkUnavailable | ShutdownRequested.

(** The commands of crates/node-runtime/src/command.rs; the broker sends some of them. *)
Inductive RuntimeCommand :=
| CommandConnectInvitation (control_plane_url invitation_token : string) (printer_grant : PrinterGrant)
    (allowed_printer_ids : list string) (node_name hostname : string)
| CommandApplyHostLifecycle (event : LifecycleEvent)
| CommandPendingBrokerAuthorizations
| CommandDecideBrokerAuthorization (authorization_id : Uuid) (decision : BrokerAuthorizationDecision)
| CommandStatus
| CommandUpdateNodeIdentity (expected_revision : N) (display_name : string) (site location : option string) (labels : list string)
| CommandPrinters
| CommandSetPrinterExposure (printer_id : string) (exposed : bool)
| CommandProfiles (printer_id : string)
| CommandCreateProfile (printer_id name : string) (is_default : bool) (options : Job.JobOptions)
| CommandUpdateProfile (printer_id profile_id : string) (expected_revision : N) (name : string) (is_default : bool)
    (options : Job.JobOptions)
| CommandDeleteProfile (printer_id profile_id : string) (expected_revision : N)
| CommandBeginProfileCapture (printer_id operation : string) (profile_id : option string) (expected_revision : option N)
| CommandCommitProfileCapture (session_id capture_token : string) (capture : Capture)
| CommandCancelProfileCapture (session_id capture_token : string)
| CommandValidateProfile (profile_id : string) (revision : N)
| CommandConfirmLoadedMedia (device_id source : string) (stock_id : option string) (confidence : string)
    (confirmed_by : option string)
| CommandPrinterQueue (printer_id : string)
| CommandJobHistory (offset limit : N)
| CommandReprintJob (job_id idempotency_key : string) (confirmed : bool)
| CommandLocalAmbiguousHandoff (job_id : string)
| CommandResolveLocalAmbiguousHandoff (job_id ambiguity_id : string) (resolution : AmbiguousHandoffResolution)
| CommandConnectorDetails
| CommandTestPage (printer_id profile_id : string) (confirmed : bool)
| CommandPause | CommandResume | CommandReloadConnectors
| CommandRevokeConnector (connector_id : string)
| CommandSubmitJob (printer_id : string) (printer_native_id : option string) (title : string)
    (idempotency_key profile_id : option string) (content_kind : Job.ContentKind) (content_base64 : string)
    (options : Job.JobOptions) (expires_unix_ms : option Z).

Definition required_capability (operation : LocalOperation) : option BrokerCapability :=
  match operation with
  | Status => Some ObserveStatus
  | Printers => Some ObservePrinters
  | BeginProfileCapture _ _ _ _ | CommitProfileCapture _ _ _ | CancelProfileCapture _ _ | ValidateProfile _ _
  | ConfirmLoadedMedia _ _ _ _ _ => Some ManageProfiles
  | Pause | Resume => Some ManageConnectors
  | Sdk operation =>
    Some match operation with
         | ConnectInvitation _ _ _ _ _ _ | RevokeConnector _ => ManageConnectors
         | SubmitLocalJob _ _ _ _ _ _ _ _ => SubmitLocalJobs
         | Profiles _ => ObservePrinters
         | JobHistory _ _ => ObserveJobHistory
         | ConnectorSnapshots => ObserveStatus
         end
  | RestartAgent | ExportSupportBundle _ | Reenrol _ => None
  end.

(** The answer of the runtime to a command; none when it does not run. *)
Definition Runtime : Type := RuntimeCommand → option (result CommandFailure Data).
(** The command that was sent, if any, and the outcome. *)
Definition Dispatched : Type := option RuntimeCommand * result LocalFailure LocalResult.

Definition ask (runtime : Runtime) (command : RuntimeCommand) (answer : Data → result LocalFailure LocalResult) : Dispatched :=
  (Some command, match runtime command with
                 | None => Err unavailable
                 | Some (Err f) => Err (command_failure f)
                 | Some (Ok d) => answer d
                 end).
Definition sdk_data (d : Data) : result LocalFailure LocalResult :=
  match to_value d with
  | Some j => Ok (SdkData j)
  | None => Err (local_failure "sdk_result_serialization_failed" "the local SDK result could not be serialized" false)
  end.

Definition nul : string := String.String Ascii.zero "".
Definition broker_idempotency_key (application_id key : string) : string := "broker" +:+ nul +:+ application_id +:+ nul +:+ key.

(** [revoked] is the value of [serde_json::json!({ "revoked": true })]. *)
Definition dispatch_sdk_operation (runtime : Runtime) (revoked : Json) (operation : SdkBrokerOperation)
    (application_id : option string) : Dispatched :=
  match operation with
  | ConnectInvitation url token grant ids node_name hostname =>
    ask runtime (CommandConnectInvitation url token grant ids node_name hostname) sdk_data
  | SubmitLocalJob printer_id title idempotency_key profile_id kind content options expires =>
    match application_id with
    | None => (None, Err (local_failure "application_identity_required"
        "SDK printing requires an authenticated application identity" false))
    | Some application_id =>
      if bool_decide (idempotency_key = ""%string) || (200 <? String.length idempotency_key) then
        (None, Err (local_failure "invalid_idempotency_key" "idempotency keys must contain 1 to 200 bytes" false))
      else ask runtime (CommandSubmitJob printer_id None title (Some (broker_idempotency_key application_id idempotency_key))
             profile_id kind content options expires) sdk_data
    end
  | Profiles printer_id => ask runtime (CommandProfiles printer_id) sdk_data
  | JobHistory offset limit => ask runtime (CommandJobHistory offset limit) sdk_data
  | ConnectorSnapshots => ask runtime CommandConnectorDetails sdk_data
  | RevokeConnector connector_id => ask runtime (CommandRevokeConnector connector_id) (λ _, Ok (SdkData revoked))
  end.

Definition dispatch_operation (runtime : Runtime) (revoked : Json) (operation : LocalOperation)
    (application_id : option string) : Dispatched :=
  match operation with
  | Status => ask runtime CommandStatus (λ d, Ok (LocalStatus d))
  | Printers => ask runtime CommandPrinters (λ d, Ok (LocalPrinters d))
  | Sdk operation => dispatch_sdk_operation runtime revoked operation application_id
  | Pause => ask runtime CommandPause (λ _, Ok Accepted)
  | Resume => ask runtime CommandResume (λ _, Ok Accepted)
  | BeginProfileCapture printer_id operation profile_id expected =>
    ask runtime (CommandBeginProfileCapture printer_id operation profile_id expected) (λ d, Ok (ProfileCaptureAuthorized d))
  | CommitProfileCapture session_id token capture =>
    ask runtime (CommandCommitProfileCapture session_id token capture) (λ d, Ok (ProfileCaptured d))
  | CancelProfileCapture session_id token => ask runtime (CommandCancelProfileCapture session_id token) (λ _, Ok Accepted)
  | ValidateProfile profile_id revision => ask runtime (CommandValidateProfile profile_id revision) (λ d, Ok (ProfileValidation d))
  | ConfirmLoadedMedia device source stock confidence by' =>
    ask runtime (CommandConfirmLoadedMedia device source stock confidence by') (λ _, Ok Accepted)
  | RestartAgent | ExportSupportBundle _ | Reenrol _ =>
    (None, Err (local_failure "operation_requires_native_shell"
       "this privileged operation is not available to application clients" false))
  end.

(** * The server *)

(** What a request left: the broker, the response and the command that was sent. *)
Record Handled := { hd_broker : Broker; hd_response : BrokerResponse; hd_sent : option RuntimeCommand }.

Definition verified {A} (peer : option Peer) (b : Broker) (f : Peer → Broker * result LocalFailure A) :
    Broker * result LocalFailure A :=
  match peer with Some peer => f peer | None => (b, Err unverified_peer) end.
Definition mapped {A B} (f : A → B) (x : Broker * result LocalFailure A) : Broker * result LocalFailure B :=
  (x.1, a ← x.2; Ok (f a)).

Definition execute (fault : ReplaceFault) (now : Z) (runtime : Runtime) (revoked : Json) (request_id : Uuid)
    (application_id : string) (capability : BrokerCapability) (operation : LocalOperation) (nonce : string) (issued : Z)
    (proof : string) (peer : option Peer) (b : Broker) :
    Broker * result LocalFailure BrokerResult * option RuntimeCommand * option string :=
  if negb (bool_decide (required_capability operation = Some capability)) then
    (b, Err (local_failure "capability_mismatch" "the declared capability does not authorize this operation" false), None, None)
  else match peer with
  | None => (b, Err unverified_peer, None, None)
  | Some peer =>
    match authenticate_proof fault request_id application_id peer.(pe_principal_sha256) capability operation nonce issued
            proof now b with
    | (b, Ok (Some key)) =>
      let '(sent, r) := dispatch_operation runtime revoked operation (Some application_id) in
      (b, (r ← r; Ok (LocalBrokerResult r)), sent, Some key)
    | (b, Ok None) => (b, Err (local_failure "application_unauthorized"
        "the application proof is invalid, stale, replayed, or revoked" false), None, None)
    | (b, Err _) => (b, Err (local_failure "broker_state_unavailable"
        "the broker could not durably reserve this request" true), None, None)
    end
  end.

Definition handle (fault : ReplaceFault) (now : Z) (draw : Draw) (runtime : Runtime) (revoked : Json) (q : BrokerRequest)
    (peer : option Peer) (b : Broker) : Handled :=
  let unsupported message := local_failure "unsupported_broker_protocol" message false in
  let consent := unsupported "authorization consent requires broker protocol version 2" in
  let respond (x : Broker * result LocalFailure BrokerResult) (sent : option RuntimeCommand) (proof : option string) :=
    {| hd_broker := x.1; hd_sent := sent;
       hd_response := {| rs_protocol := BROKER_PROTOCOL_VERSION; rs_request_id := q.(rq_request_id); rs_result := x.2;
                         rs_proof := proof |} |} in
  if negb ((BROKER_PROTOCOL_MIN_VERSION <=? q.(rq_protocol)) && (q.(rq_protocol) <=? BROKER_PROTOCOL_VERSION))%N then
    respond (b, Err (unsupported "the application and node broker protocol versions do not overlap")) None None else
  match q.(rq_operation) with
  | Presence => respond (b, Ok (PresenceResult {| protocol_min := BROKER_PROTOCOL_MIN_VERSION;
                                                  protocol_max := BROKER_PROTOCOL_VERSION |})) None None
  | RequestAuthorization application requested =>
    respond (if (q.(rq_protocol) <? 2)%N then (b, Err consent) else
      verified peer b (λ peer, mapped AuthorizationRequested (request now draw application peer requested b))) None None
  | AuthorizationStatus handle =>
    respond (if (q.(rq_protocol) <? 2)%N then (b, Err consent) else
      verified peer b (λ peer, mapped AuthorizationStatusResult (status now handle peer b))) None None
  | ExchangeAuthorization handle =>
    respond (if (q.(rq_protocol) <? 2)%N then (b, Err consent) else
      verified peer b (λ peer, mapped AuthorizationExchanged (exchange fault now draw handle peer b))) None None
  | Execute _ _ _ => respond (b, Err (local_failure "broker_protocol_upgrade_required"
      "secret-bearing broker execution requires protocol version 4" false)) None None
  | ExecuteAuthenticated application_id capability operation nonce issued proof =>
    if negb (q.(rq_protocol) =? 4)%N then
      respond (b, Err (unsupported "authenticated execution requires broker protocol version 4")) None None else
    let '(b, r, sent, key) := execute fault now runtime revoked q.(rq_request_id) application_id capability operation nonce
                                issued proof peer b in
    respond (b, r) sent (key ← key; broker_response_proof key q.(rq_request_id) nonce r)
  end.
End broker.
