(* ===== verification/NodeBrokerSystem.v ===== *)
(** The broker of a node as a process: requests, decisions, failing writes, crashes and
    restarts under a clock that does not go back, and what holds of its registry, in memory
    and in every file that a crash may leave. *)

From S2P Require Import Prelude Domain DurableFile LocalIpc NodeBroker.

Class BrokerLaws `{!BrokerCodec} : Prop := {
  broker_round_trip d : broker_from_json (broker_to_json d) = Some d
}.

Section system.
Context `{Payloads} `{!IpcCodec} `{!BrokerCodec}.

(** * What happened *)

(** The operator approved capabilities; an approved request was exchanged for a token; an
    application was revoked; a command was sent to the runtime. *)
Record Grant := {
  gr_principal : string;
  gr_application : BrokerApplicationIdentity;
  gr_capabilities : list BrokerCapability
}.
Record Execution := {
  x_at : Z;
  x_principal : string;
  x_request_id : Uuid;
  x_application : string;
  x_capability : BrokerCapability;
  x_operation : LocalOperation;
  x_nonce : string;
  x_issued : Z;
  x_proof : string;
  x_command : RuntimeCommand
}.
Inductive Event :=
| EApproved (g : Grant) | EExchanged (g : Grant) (token : string) | ERevoked (application : string) | ESent (x : Execution).

Definition decision_events (id : Uuid) (x : Broker * result CommandFailure unit) : list Event :=
  match x.2, x.1.(pending) !! id with
  | Ok _, Some p =>
    match p.(pn_decision) with
    | Some (Ok capabilities) =>
      [EApproved {| gr_principal := p.(pn_verified_principal_sha256); gr_application := p.(pn_view).(pa_application);
                    gr_capabilities := capabilities |}]
    | _ => []
    end
  | _, _ => []
  end.
(** An approved request is exchanged by its own peer, whether or not the write succeeds. *)
Definition exchange_events (now : Z) (token : string) (handle : BrokerAuthorizationHandle) (peer : Peer) (b : Broker) :
    list Event :=
  match authenticated_pending (prune_expired now b.(pending)) handle with
  | Ok p =>
    match constant_time_eq p.(pn_verified_principal_sha256) peer.(pe_principal_sha256), p.(pn_decision) with
    | true, Some (Ok capabilities) =>
      [EExchanged {| gr_principal := peer.(pe_principal_sha256); gr_application := p.(pn_view).(pa_application);
                     gr_capabilities := capabilities |} token]
    | _, _ => []
    end
  | Err _ => []
  end.
Definition request_events (now : Z) (draw : Draw) (q : BrokerRequest) (peer : option Peer) (b : Broker)
    (sent : option RuntimeCommand) : list Event :=
  match q.(rq_operation), peer with
  | ExchangeAuthorization handle, Some peer => exchange_events now draw.(dw_token) handle peer b
  | ExecuteAuthenticated application capability operation nonce issued proof, Some peer =>
    from_option (λ command, [ESent {| x_at := now; x_principal := peer.(pe_principal_sha256); x_request_id := q.(rq_request_id);
      x_application := application; x_capability := capability; x_operation := operation; x_nonce := nonce;
      x_issued := issued; x_proof := proof; x_command := command |}]) [] sent
  | _, _ => []
  end.

(** * Steps *)

Record World := { clock : Z; broker : Broker; log : list Event }.
Inductive broker_step : World → World → Prop :=
| b_request w now fault draw runtime revoked q peer : (w.(clock) ≤ now ≤ i64_max)%Z →
    let h := handle fault now draw runtime revoked q peer w.(broker) in
    broker_step w {| clock := now; broker := h.(hd_broker);
                     log := request_events now draw q peer w.(broker) h.(hd_sent) ++ w.(log) |}
| b_pending w now : (w.(clock) ≤ now ≤ i64_max)%Z →
    broker_step w {| clock := now; broker := (pending_views now w.(broker)).1; log := w.(log) |}
| b_decide w now id decision : (w.(clock) ≤ now ≤ i64_max)%Z →
    let x := decide_authorization now id decision w.(broker) in
    broker_step w {| clock := now; broker := x.1; log := decision_events id x ++ w.(log) |}
| b_revoke w fault application :
    let x := revoke fault application w.(broker) in
    broker_step w {| clock := w.(clock); broker := x.1;
                     log := match x.2 with Ok true => [ERevoked application] | _ => [] end ++ w.(log) |}
| b_restart w now o g : (w.(clock) ≤ now ≤ i64_max)%Z → o ∈ w.(broker).(file).(possible) → load now o = Ok g →
    broker_step w {| clock := now; broker := {| registry := g; file := settled o; pending := ∅ |}; log := w.(log) |}.

Definition empty_broker : BrokerRegistry := {| applications := ∅; replay_proofs := ∅ |}.
Definition new_world (now : Z) : World :=
  {| clock := now; broker := {| registry := empty_broker; file := settled None; pending := ∅ |}; log := [] |}.
Definition broker_reachable (w : World) : Prop := ∃ now, rtc broker_step (new_world now) w.

(** * Registries *)

Record apps_wf (m : gmap string DurableApplicationAuthorization) : Prop := {
  aw_key k a : m !! k = Some a → k = principal_key a ∧ validate_identity a.(da_identity) = Ok ()
    ∧ from_option validate_principal_digest (Ok ()) a.(da_verified_principal_sha256) = Ok ();
  aw_unique k k' a a' : m !! k = Some a → m !! k' = Some a' → application_of a = application_of a' → k = k';
  aw_size : size m ≤ MAX_APPLICATIONS
}.

(** An authorization goes back to an approval of the operator, and no revocation of the
    application was acknowledged since the exchange. *)
Definition granted_as (g : Grant) (token : string) (a : DurableApplicationAuthorization) : Prop :=
  a.(da_identity) = g.(gr_application) ∧ a.(da_verified_principal_sha256) = Some g.(gr_principal)
  ∧ a.(da_capabilities) = from_capabilities g.(gr_capabilities) ∧ a.(da_token_sha256) = token_digest token.
Definition granted (l : list Event) (a : DurableApplicationAuthorization) : Prop :=
  ∃ g token later older, l = later ++ EExchanged g token :: older ∧ granted_as g token a
    ∧ (ERevoked (application_of a) ∉ later) ∧ EApproved g ∈ older.

Definition expiry (x : Execution) : Z := i64_saturating_add x.(x_issued) BROKER_PROOF_MAX_SKEW_MS.
Definition replay_key (x : Execution) : string * string := (x.(x_application), hex_encode (sha256 x.(x_nonce))).

Record registry_ok (now : Z) (l : list Event) (g : BrokerRegistry) : Prop := {
  ro_wf : apps_wf g.(applications);
  ro_granted k a : g.(applications) !! k = Some a → a.(da_revoked) = false → granted l a;
  ro_replay x : ESent x ∈ l → (expiry x ≤ now)%Z ∨ g.(replay_proofs) !! replay_key x = Some (expiry x);
  ro_size : size g.(replay_proofs) ≤ MAX_REPLAY_PROOFS
}.
Definition written (o : option broker_text) (g : BrokerRegistry) : Prop :=
  o = Some (broker_to_json (document g)) ∨ (o = None ∧ g = empty_broker).
Definition pending_ok (l : list Event) (m : gmap Uuid PendingAuthorization) : Prop :=
  ∀ id p capabilities, m !! id = Some p → p.(pn_decision) = Some (Ok capabilities) →
    EApproved {| gr_principal := p.(pn_verified_principal_sha256); gr_application := p.(pn_view).(pa_application);
                 gr_capabilities := capabilities |} ∈ l.

Record broker_ok (now : Z) (l : list Event) (b : Broker) : Prop := {
  bo_registry : registry_ok now l b.(registry);
  bo_file o : o ∈ b.(file).(possible) → ∃ g, written o g ∧ registry_ok now l g;
  bo_pending : pending_ok l b.(pending)
}.

(** * More events *)

Lemma granted_more l es a : granted l a → (ERevoked (application_of a) ∉ es) → granted (es ++ l) a.
Proof.
  intros (g & token & later & older & -> & Ha & Hr & Happ) Hes. exists g, token, (es ++ later), older.
  split_and!; [by rewrite app_assoc|done| |done]. rewrite elem_of_app. naive_solver.
Qed.
Lemma registry_more now now' l es g : registry_ok now l g → (now ≤ now')%Z →
  (∀ k a, g.(applications) !! k = Some a → a.(da_revoked) = false → ERevoked (application_of a) ∉ es) →
  (∀ x, ESent x ∉ es) → registry_ok now' (es ++ l) g.
Proof.
  intros [Hwf Hg Hr Hs] Hn Hrev Hsent. split; [done| | |done].
  - intros k a Hl Hon. apply granted_more; [by eapply Hg|by eapply Hrev].
  - intros x [Hx|Hx]%elem_of_app; [by apply Hsent in Hx|]. destruct (Hr x Hx) as [?|?]; [left; lia|by right].
Qed.
Lemma broker_more now now' l es b : broker_ok now l b → (now ≤ now')%Z →
  (∀ a, ERevoked a ∉ es) → (∀ x, ESent x ∉ es) → broker_ok now' (es ++ l) b.
Proof.
  intros [Hr Hf Hp] Hn Hrev Hsent. split.
  - eapply registry_more; [done|done| |done]. intros. apply Hrev.
  - intros o (g & Hw & Hg)%Hf. exists g. split; [done|]. eapply registry_more; [done|done| |done]. intros. apply Hrev.
  - intros id p c Hl Hd. apply elem_of_app. right. by eapply Hp.
Qed.
Lemma broker_later now now' l b : broker_ok now l b → (now ≤ now')%Z → broker_ok now' l b.
Proof. intros Hb Hn. apply (broker_more _ now' _ [] _ Hb Hn); by intros ? ?%elem_of_nil. Qed.
Lemma broker_pruned now l m b : broker_ok now l b → pending_ok l m → broker_ok now l (with_pending m b).
Proof. by intros [Hr Hf Hp] Hm. Qed.
Lemma pending_pruned l now m : pending_ok l m → pending_ok l (prune_expired now m).
Proof. intros Hm id p c [Hl _]%map_lookup_filter_Some. by apply (Hm id). Qed.

(** * Writes *)

Lemma persist_ok now l fault g b : broker_ok now l b → registry_ok now l g → broker_ok now l (persist_state fault g b).1.
Proof.
  intros [Hr Hf Hp] Hg. assert (Hnew : ∃ g0, written (Some (broker_to_json (document g))) g0 ∧ registry_ok now l g0)
    by (exists g; by split; [left|]).
  unfold persist_state. destruct fault; simpl; (split; [done| |done]); simpl.
  - by intros o ->%list_elem_of_singleton.
  - done.
  - intros o [->|Ho]%elem_of_cons; [done|by apply Hf].
Qed.
Lemma persisted fault g b b' : persist_state fault g b = (b', Ok ()) →
  b' = {| registry := g; file := settled (Some (broker_to_json (document g))); pending := b.(pending) |}.
Proof. unfold persist_state. destruct fault; simpl; [|done..]. by intros [= <-]. Qed.

Lemma filter_insert_size (P : string * DurableApplicationAuthorization → Prop) `{!∀ e, Decision (P e)}
    (m : gmap string DurableApplicationAuthorization) k a :
  (∃ k' a', m !! k' = Some a' ∧ ¬ P (k', a')) ∨ size m < MAX_APPLICATIONS → size m ≤ MAX_APPLICATIONS →
  size (<[k := a]> (filter P m)) ≤ MAX_APPLICATIONS.
Proof.
  intros Hm Hsize. assert (Hle : size (filter P m) ≤ size m) by apply map_subseteq_size, map_filter_subseteq.
  assert (Hlt : size (filter P m) < MAX_APPLICATIONS).
  { destruct Hm as [(k' & a' & Hl & Hn)|]; [|lia]. eapply Nat.lt_le_trans; [|exact Hsize]. apply map_subset_size.
    split; [apply map_filter_subseteq|]. intros Hsub. pose proof (lookup_weaken _ _ _ _ Hl Hsub) as [_ ?]%map_lookup_filter_Some.
    done. }
  rewrite map_size_insert. destruct (_ !! k); simpl; lia.
Qed.

Lemma authorize_ok now l fault token g b :
  broker_ok now l b → (∃ older, l = EExchanged g token :: older ∧ EApproved g ∈ older) →
  broker_ok now l (authorize fault token g.(gr_application) g.(gr_principal) (from_capabilities g.(gr_capabilities)) b).1.
Proof.
  intros Hb (older & El & Happ). unfold authorize. destruct (validate_identity _) as [[]|] eqn:Hi; [|done].
  destruct (validate_principal_digest _) as [[]|] eqn:Hp; [|done]. destruct (negb _ && _) eqn:Hroom; [done|].
  set (new := {| da_identity := g.(gr_application); da_revoked := false |}).
  set (apps := <[_ := new]> _). destruct (persist_state _ _ _) as [b' r] eqn:Hper. simpl.
  replace b' with (persist_state fault {| applications := apps; replay_proofs := b.(registry).(replay_proofs) |} b).1
    by (by rewrite Hper). apply persist_ok; [done|]. destruct (bo_registry _ _ _ Hb) as [[Hk Hu Hs] Hg Hr Hsize].
  assert (Hl : ∀ k a, apps !! k = Some a → (k = g.(gr_principal) ∧ a = new)
    ∨ (b.(registry).(applications) !! k = Some a ∧ application_of a ≠ g.(gr_application).(id_application_id))).
  { intros k a [[<- <-]|[_ [Hl Hne]%map_lookup_filter_Some]]%lookup_insert_Some; [by left|by right]. }
  split; [split| |done|done]; simpl.
  - intros k a [[-> ->]|[Hl' _]]%Hl; [|by apply Hk]. by split_and!.
  - intros k k' a a' [[-> ->]|[Ha Hne]]%Hl [[-> ->]|[Ha' Hne']]%Hl E; [done|by destruct Hne'|by destruct Hne|by eapply Hu].
  - apply filter_insert_size; [|done]. apply andb_false_iff in Hroom as [Hex|Hsz].
    + left. apply negb_false_iff, existsb_exists in Hex as (a & Ha & Heq). apply bool_decide_eq_true in Heq.
      apply list_elem_of_In, elem_of_btree_values in Ha as [k Ha]. exists k, a. split; [done|]. simpl. by intros ?.
    + right. apply Nat.leb_gt in Hsz. done.
  - intros k a [[-> ->]|[Hl' _]]%Hl; [|by apply Hg with k]. intros _. exists g, token, [], older.
    split_and!; [done|by split_and!|by intros ?%elem_of_nil|done].
Qed.

(** * Proofs *)

(** What [authenticate_proof] requires of a request: [a] is the authorization and [key] its
    key. *)
Record authentic (fault : ReplaceFault) (x : Execution) (b : Broker) (a : DurableApplicationAuthorization) (key : string) :
    Prop := {
  au_form : bool_decide (x.(x_application) = ""%string) || negb (is_ok (validate_principal_digest x.(x_principal)))
    || (String.length x.(x_nonce) <? 32) || (128 <? String.length x.(x_nonce)) = false;
  au_fresh : (Z.abs (x.(x_at) - x.(x_issued)) ≤ BROKER_PROOF_MAX_SKEW_MS)%Z;
  au_entry : b.(registry).(applications) !! x.(x_principal) = Some a;
  au_active : a.(da_revoked) = false;
  au_application : application_of a = x.(x_application);
  au_principal : a.(da_verified_principal_sha256) = Some x.(x_principal);
  au_allowed : allows a.(da_capabilities) (requiring x.(x_capability)) = true;
  au_key : proof_key a.(da_token_sha256) = Some key;
  au_proof : broker_request_proof key x.(x_request_id) x.(x_application) x.(x_capability) x.(x_operation) x.(x_nonce)
               x.(x_issued) = Some x.(x_proof);
  au_new : filter (λ e : (string * string) * Z, (x.(x_at) < e.2)%Z) b.(registry).(replay_proofs) !! replay_key x = None;
  au_room : size (filter (λ e : (string * string) * Z, (x.(x_at) < e.2)%Z) b.(registry).(replay_proofs)) < MAX_REPLAY_PROOFS
}.
Definition consumed (x : Execution) (g : BrokerRegistry) : BrokerRegistry :=
  {| applications := g.(applications);
     replay_proofs := <[replay_key x := expiry x]> (filter (λ e : (string * string) * Z, (x.(x_at) < e.2)%Z) g.(replay_proofs)) |}.
Definition authentication (fault : ReplaceFault) (x : Execution) (b : Broker) : Broker * result BrokerError (option string) :=
  authenticate_proof fault x.(x_request_id) x.(x_application) x.(x_principal) x.(x_capability) x.(x_operation) x.(x_nonce)
    x.(x_issued) x.(x_proof) x.(x_at) b.

Lemma authentication_inv fault x b :
  ((authentication fault x b).1 = b ∧ ∀ key, (authentication fault x b).2 ≠ Ok (Some key)) ∨
  ∃ a key, authentic fault x b a key ∧
    authentication fault x b = ((persist_state fault (consumed x b.(registry)) b).1,
      _ ← (persist_state fault (consumed x b.(registry)) b).2; Ok (Some key)).
Proof.
  unfold authentication, authenticate_proof. destruct (_ || (_ <? _)%Z) eqn:Hpre; [by left|].
  destruct (_ !! x_principal x) as [a|] eqn:Ha; [|by left]. destruct (da_revoked a || _ || _ || _) eqn:Hentry; [by left|].
  destruct (proof_key _) as [key|] eqn:Hkey; [|by left].
  destruct (broker_request_proof _ _ _ _ _ _ _) as [expected|] eqn:Hproof; [|by left].
  destruct (negb (constant_time_proof_eq expected _)) eqn:Heq; [by left|]. destruct (bool_decide _ || (_ <=? _)) eqn:Hroom; [by left|].
  right. exists a, key. split; [|by destruct (persist_state _ _ _)].
  apply orb_false_iff in Hpre as [Hform Hfresh]. apply negb_false_iff, constant_time_proof_eq_spec in Heq as ->.
  rewrite !orb_false_iff, !negb_false_iff, !bool_decide_eq_true in Hentry. destruct Hentry as [[[? ?] ?] ?].
  apply orb_false_iff in Hroom as [Hnew Hroom]. apply bool_decide_eq_false, eq_None_not_Some in Hnew.
  split; try done; [by apply Z.ltb_ge in Hfresh|by apply Nat.leb_gt in Hroom].
Qed.

Lemma authentic_accepted fault x b a key : authentic fault x b a key →
  authentication fault x b = ((persist_state fault (consumed x b.(registry)) b).1,
    _ ← (persist_state fault (consumed x b.(registry)) b).2; Ok (Some key)).
Proof.
  intros [Hform Hfresh Hentry Hactive Happ Hprin Hallow Hkey Hproof Hnew Hroom]. unfold authentication, authenticate_proof.
  rewrite Hform, (proj2 (Z.ltb_ge _ _) Hfresh), Hentry, Hactive, Happ, Hprin, Hallow. cbn [orb negb].
  rewrite !bool_decide_true by done. cbn [orb negb]. rewrite Hkey, Hproof, (proj2 (constant_time_proof_eq_spec _ _) eq_refl). cbn [orb negb].
  unfold replay_key in Hnew. rewrite Hnew, bool_decide_false by (by intros []). cbn [orb negb].
  rewrite (proj2 (Nat.leb_gt _ _) Hroom). by destruct (persist_state _ _ _).
Qed.

Lemma consumed_ok l x g : registry_ok x.(x_at) l g →
  filter (λ e : (string * string) * Z, (x.(x_at) < e.2)%Z) g.(replay_proofs) !! replay_key x = None →
  size (filter (λ e : (string * string) * Z, (x.(x_at) < e.2)%Z) g.(replay_proofs)) < MAX_REPLAY_PROOFS →
  registry_ok x.(x_at) (ESent x :: l) (consumed x g).
Proof.
  intros [Hwf Hg Hr Hs] Hnew Hroom. split; [done| | |]; simpl.
  - intros k a Hl Hon. apply (granted_more l [ESent x]); [by eapply Hg|set_solver].
  - intros y [[= ->]|Hy]%elem_of_cons; [right; by rewrite lookup_insert_eq|].
    destruct (Hr y Hy) as [?|Hl]; [by left|]. destruct (decide (expiry y ≤ x_at x)%Z) as [|Hlt]; [by left|]. right.
    assert (Hkept : filter (λ e : (string * string) * Z, (x.(x_at) < e.2)%Z) g.(replay_proofs) !! replay_key y = Some (expiry y))
      by (apply map_lookup_filter_Some; split; [done|simpl; lia]).
    rewrite lookup_insert_ne; [done|]. congruence.
  - rewrite map_size_insert, Hnew. simpl. lia.
Qed.
Lemma consumed_unsent l x g : registry_ok x.(x_at) (ESent x :: l) g → (∀ k a, g.(applications) !! k = Some a → a.(da_revoked) = false → granted l a) →
  registry_ok x.(x_at) l g.
Proof. intros [Hwf _ Hr Hs] Hg. split; [done|done| |done]. intros y Hy. apply Hr. by right. Qed.

(** ** Revocations *)

Lemma broker_revoke_ok now l fault application b : broker_ok now l b →
  broker_ok now (match (revoke fault application b).2 with Ok true => [ERevoked application] | _ => [] end ++ l)
    (revoke fault application b).1.
Proof.
  intros Hb. unfold revoke. destruct (List.find _ _) as [[k a]|] eqn:Hf; [|done]. destruct a.(da_revoked) eqn:Hr; [done|].
  apply List.find_some in Hf as [Hin Happ]. apply bool_decide_eq_true in Happ. simpl in Happ.
  apply list_elem_of_In, elem_of_btree_entries in Hin. destruct (bo_registry _ _ _ Hb) as [[Hk Hu Hs] Hg Hrp Hsize].
  set (g := {| applications := <[k := set_revoked a]> b.(registry).(applications);
               replay_proofs := b.(registry).(replay_proofs) |}).
  assert (Hl : ∀ k' a', g.(applications) !! k' = Some a' →
    (k' = k ∧ a' = set_revoked a) ∨ (k' ≠ k ∧ b.(registry).(applications) !! k' = Some a')).
  { intros k' a' Hl. simpl in Hl. apply lookup_insert_Some in Hl as [[<- <-]|[Hne Hl]]; [by left|by right]. }
  assert (Hok : ∀ es, (es = [] ∨ es = [ERevoked application]) → registry_ok now (es ++ l) g).
  { intros es Hes. split; [split| | |done].
    - intros k' a' [[-> ->]|[_ Hl']]%Hl; [by apply (Hk k a)|by apply Hk].
    - intros k1 k2 a1 a2 [[-> ->]|[N1 L1]]%Hl [[-> ->]|[N2 L2]]%Hl E; [done| | |by eapply Hu].
      + by eapply (Hu _ _ a).
      + by eapply (Hu _ _ _ a).
    - simpl. by rewrite map_size_insert, Hin.
    - intros k' a' [[-> ->]|[Hne Hl']]%Hl Hon; [done|]. apply granted_more; [by eapply Hg|].
      destruct Hes as [->| ->]; [by intros ?%elem_of_nil|]. intros [= E]%list_elem_of_singleton. apply Hne.
      eapply Hu; [done|done|congruence].
    - intros x [Hx|Hx]%elem_of_app; [|by apply Hrp]. destruct Hes as [->| ->]; [by apply elem_of_nil in Hx|].
      by apply list_elem_of_singleton in Hx. }
  destruct (persist_state fault g b) as [b' [[]|e]] eqn:Hper; simpl.
  - apply persisted in Hper as ->. pose proof (Hok [ERevoked application] ltac:(by right)) as Hg'. split; [done| |]; simpl.
    + intros o ->%list_elem_of_singleton. exists g. by split; [left|].
    + intros id p c Hl' Hd. right. by eapply (bo_pending _ _ _ Hb).
  - replace b' with (persist_state fault g b).1 by (by rewrite Hper). apply persist_ok; [done|]. apply (Hok []). by left.
Qed.

(** * What a restart loads *)

Lemma load_applications_Ok l ids acc m : load_applications l ids acc = Ok m →
  ∀ k a, m !! k = Some a ↔ acc !! k = Some a ∨ (a ∈ l ∧ k = principal_key a).
Proof.
  revert ids acc. induction l as [|a0 l IH]; intros ids acc; simpl.
  { intros [= <-] k a. split; [by left|]. intros [?|[?%elem_of_nil _]]; done. }
  destruct (validate_identity _) as [[]|]; [|done]. simpl. case_decide; [done|].
  destruct (from_option _ _ _) as [[]|]; [|done]. simpl.
  case_decide as Hfree; [done|]. apply eq_None_not_Some in Hfree. intros Hl k a.
  rewrite (IH _ _ Hl), lookup_insert_Some, elem_of_cons. split.
  - intros [[[<- <-]|[Hne Ha]]|[Hin ->]]; auto.
  - intros [Ha|[[->|Hin] ->]]; [|auto..]. left; right. split; [|done]. congruence.
Qed.
Lemma load_applications_fresh l ids acc :
  (∀ a, a ∈ l → validate_identity a.(da_identity) = Ok ()
    ∧ from_option validate_principal_digest (Ok ()) a.(da_verified_principal_sha256) = Ok ()
    ∧ (application_of a ∉ ids) ∧ acc !! principal_key a = None) →
  NoDup (application_of <$> l) → NoDup (principal_key <$> l) → is_ok (load_applications l ids acc) = true.
Proof.
  revert ids acc. induction l as [|a l IH]; intros ids acc Hl Ha Hk; simpl; [done|].
  destruct (Hl a ltac:(left)) as (-> & Hp & Hid & Hfree). simpl. rewrite decide_False by done. rewrite Hp. simpl.
  rewrite decide_False by (by rewrite Hfree; intros []).
  inversion Ha as [|? ? Ha1 Ha2]; inversion Hk as [|? ? Hk1 Hk2]; subst. apply IH; [|done..].
  intros a' Hin. destruct (Hl a' ltac:(by right)) as (? & ? & ? & ?). split_and!; [done|done| |].
  - rewrite elem_of_union, elem_of_singleton. intros [E|?]; [|done]. apply Ha1. rewrite <- E. by apply list_elem_of_fmap_2.
  - rewrite lookup_insert_ne; [done|]. intros E. apply Hk1. rewrite E. by apply list_elem_of_fmap_2.
Qed.
Lemma wf_values_NoDup m : apps_wf m → NoDup (application_of <$> btree_values m) ∧ NoDup (principal_key <$> btree_values m).
Proof.
  intros [Hk Hu _]. assert (Hkeys : principal_key <$> btree_values m = (btree_entries m).*1).
  { unfold btree_values. rewrite <- list_fmap_compose. apply list_fmap_ext. intros i [k a] Hl. simpl. symmetry.
    apply Hk, elem_of_btree_entries. by eapply list_elem_of_lookup_2. }
  assert (Hnd : NoDup (principal_key <$> btree_values m)) by (rewrite Hkeys, btree_entries_perm; apply NoDup_fst_map_to_list).
  split; [|done]. apply NoDup_fmap_2_strong; [|by eapply NoDup_fmap_1].
  intros a a' [k Ha]%elem_of_btree_values [k' Ha']%elem_of_btree_values E.
  pose proof (Hu _ _ _ _ Ha Ha' E) as <-. congruence.
Qed.

Lemma filter_through {A B} (f : A → B) (h : B → A) (P : B → Prop) (Q : A → Prop) `{!∀ b, Decision (P b), !∀ a, Decision (Q a)}
    (l : list A) : (∀ a, h (f a) = a) → (∀ a, P (f a) ↔ Q a) → h <$> filter P (f <$> l) = filter Q l.
Proof.
  intros Hh HP. induction l as [|a l IH]; [done|]. rewrite fmap_cons, !filter_cons.
  destruct (decide (P (f a))) as [Hp|Hp], (decide (Q a)) as [Hq|Hq]; try (exfalso; apply HP in Hq; done); try (apply HP in Hp; done).
  - by rewrite fmap_cons, Hh, IH.
  - done.
Qed.
Lemma load_replay now m :
  list_to_map ((λ p, ((p.(dr_application_id), p.(dr_nonce_sha256)), p.(dr_expires_unix_ms)))
    <$> reverse (filter (λ p, (now < p.(dr_expires_unix_ms))%Z)
      ((document {| applications := ∅; replay_proofs := m |}).(bd_replay_proofs))))
  = (filter (λ e : (string * string) * Z, (now < e.2)%Z) m : gmap (string * string) Z).
Proof.
  simpl. rewrite map_filter_alt. rewrite fmap_reverse.
  rewrite (filter_through _ _ _ (λ e : (string * string) * Z, (now < e.2)%Z)); [|by intros [[? ?] ?]|done]. symmetry. apply list_to_map_proper.
  - eapply sublist_NoDup; [apply (NoDup_fst_map_to_list m)|]. apply fmap_sublist, sublist_filter.
  - rewrite reverse_Permutation. by rewrite (sort_by_perm _ _).
Qed.

Definition loaded (now : Z) (g : BrokerRegistry) : BrokerRegistry :=
  {| applications := g.(applications);
     replay_proofs := filter (λ e : (string * string) * Z, (now < e.2)%Z) g.(replay_proofs) |}.
Lemma load_broker `{!BrokerLaws} now o g : written o g → apps_wf g.(applications) → size g.(replay_proofs) ≤ MAX_REPLAY_PROOFS →
  load now o = Ok (loaded now g).
Proof.
  intros [->|[-> ->]] Hwf Hsize; [|unfold load, loaded; simpl; by rewrite map_filter_empty].
  unfold load. rewrite broker_round_trip. cbn [ok_or mbind result_bind bd_version bd_applications document].
  rewrite bool_decide_true by set_solver. cbn [negb]. destruct Hwf as [Hk Hu Hs].
  unfold btree_values at 1. rewrite length_fmap, length_btree_entries, (proj2 (Nat.ltb_ge _ _) Hs).
  destruct (wf_values_NoDup g.(applications)) as [Hnd1 Hnd2]; [done|].
  destruct (load_applications (btree_values g.(applications)) ∅ ∅) as [m|e] eqn:Hl.
  2: { pose proof (load_applications_fresh (btree_values g.(applications)) ∅ ∅) as Hf. rewrite Hl in Hf. discriminate Hf; [|done..].
       intros a [k Ha]%elem_of_btree_values. destruct (Hk _ _ Ha) as (_ & ? & ?). split_and!; [done|done|set_solver|apply lookup_empty]. }
  assert (Hm : m = g.(applications)).
  { apply map_eq. intros k. apply option_eq. intros a. rewrite (load_applications_Ok _ _ _ _ Hl), lookup_empty, elem_of_btree_values.
    split; [intros [?|[[k' Ha] ->]]; [done|]; by destruct (Hk _ _ Ha) as (<- & _)|].
    intros Ha. right. split; [by exists k|by apply Hk]. }
  rewrite Hm. cbn [mbind result_bind]. unfold document at 1. cbn [bd_replay_proofs].
  rewrite length_fmap, (Permutation_length (sort_by_perm _ _)), length_map_to_list, (proj2 (Nat.ltb_ge _ _) Hsize).
  unfold loaded. by rewrite <- (load_replay now g.(replay_proofs)).
Qed.
Lemma loaded_ok now now' l g : registry_ok now l g → (now ≤ now')%Z → registry_ok now' l (loaded now' g).
Proof.
  intros [Hwf Hg Hr Hs] Hn. split; [done|done| |]; simpl.
  - intros x Hx. destruct (Hr x Hx) as [?|Hl]; [left; lia|]. destruct (decide (expiry x ≤ now')%Z) as [|Hlt]; [by left|]. right.
    apply map_lookup_filter_Some. split; [done|]. simpl. lia.
  - etrans; [apply map_subseteq_size, map_filter_subseteq|done].
Qed.

(** * Steps keep it *)

(** What a command that was sent goes back to; it is not sent twice, but at the last moment. *)
Definition sent_ok (x : Execution) (older : list Event) : Prop :=
  required_capability x.(x_operation) = Some x.(x_capability) ∧
  (∃ runtime revoked, (dispatch_operation runtime revoked x.(x_operation) (Some x.(x_application))).1 = Some x.(x_command)) ∧
  (∃ a key, granted older a ∧ application_of a = x.(x_application) ∧ a.(da_verified_principal_sha256) = Some x.(x_principal)
    ∧ validate_identity a.(da_identity) = Ok () ∧ allows a.(da_capabilities) (requiring x.(x_capability)) = true
    ∧ proof_key a.(da_token_sha256) = Some key
    ∧ broker_request_proof key x.(x_request_id) x.(x_application) x.(x_capability) x.(x_operation) x.(x_nonce) x.(x_issued)
      = Some x.(x_proof)) ∧
  (∀ y, ESent y ∈ older → y.(x_application) = x.(x_application) → y.(x_nonce) = x.(x_nonce) → y.(x_issued) = x.(x_issued) →
    x.(x_at) = expiry x).
Definition log_ok (l : list Event) : Prop := ∀ later x older, l = later ++ ESent x :: older → sent_ok x older.
Lemma log_ok_cons e l : log_ok l → (∀ x, e = ESent x → sent_ok x l) → log_ok (e :: l).
Proof.
  intros Hl He [|e' later] x older [= -> E]; [by subst; apply He|]. by eapply Hl.
Qed.
Lemma log_ok_app es l : log_ok l → (∀ x, ESent x ∉ es) → log_ok (es ++ l).
Proof.
  intros Hl. induction es as [|e es IH]; intros Hes; [done|]. simpl. apply log_ok_cons.
  - apply IH. intros x Hx. apply (Hes x). by right.
  - intros x ->. destruct (Hes x). left.
Qed.

Definition world_ok (w : World) : Prop := broker_ok w.(clock) w.(log) w.(broker) ∧ log_ok w.(log).

Lemma request_ok now l draw claimed peer capabilities b : broker_ok now l b →
  broker_ok now l (request now draw claimed peer capabilities b).1.
Proof.
  intros Hb. unfold request. destruct (validate_identity _); [|done]. destruct (negb _); [done|].
  destruct (validated_capabilities _); [|done]. pose proof (pending_pruned _ now _ (bo_pending _ _ _ Hb)) as Hp.
  destruct (_ <=? _); [by apply broker_pruned|]. apply broker_pruned; [by apply broker_pruned|].
  intros id p c [[<- <-]|[_ Hl]]%lookup_insert_Some Hd; [done|]. by eapply Hp.
Qed.
Lemma status_ok now l handle peer b : broker_ok now l b → broker_ok now l (status now handle peer b).1.
Proof.
  intros Hb. unfold status. destruct (_ <=? _)%Z; [done|]. pose proof (pending_pruned _ now _ (bo_pending _ _ _ Hb)) as Hp.
  destruct (authenticated_pending _ _); [|by apply broker_pruned]. destruct (negb _); by apply broker_pruned.
Qed.
Lemma exchange_ok now l fault draw handle peer b : broker_ok now l b →
  broker_ok now (exchange_events now draw.(dw_token) handle peer b ++ l) (exchange fault now draw handle peer b).1.
Proof.
  intros Hb. unfold exchange, exchange_events. pose proof (pending_pruned _ now _ (bo_pending _ _ _ Hb)) as Hp.
  pose proof (broker_pruned _ _ _ _ Hb Hp) as Hb'. destruct (authenticated_pending _ _) as [p|e] eqn:Ha; [|done].
  destruct (constant_time_eq _ _) eqn:Heq; simpl; [|done]. destruct p.(pn_decision) as [[capabilities|[]]|] eqn:Hd; [|done..].
  assert (Hl : prune_expired now b.(pending) !! handle.(ah_authorization_id) = Some p).
  { revert Ha. unfold authenticated_pending. destruct (_ !! _); [|done]. destruct (_ || _); [done|]. by intros [= ->]. }
  pose proof (Hp _ _ _ Hl Hd) as Happ. apply constant_time_proof_eq_spec in Heq. rewrite Heq in Happ.
  set (g := {| gr_principal := _ |}) in *.
  assert (Hb2 : broker_ok now (EExchanged g draw.(dw_token) :: l) (with_pending (prune_expired now b.(pending)) b)).
  { apply (broker_more _ _ _ [EExchanged g draw.(dw_token)] _ Hb'); [lia|set_solver..]. }
  pose proof (authorize_ok now _ fault draw.(dw_token) g _ Hb2 (ex_intro _ l (conj eq_refl Happ))) as Hauth. simpl in Hauth |- *.
  destruct (authorize _ _ _ _ _ _) as [b2 [token|e]]; [|done]. apply broker_pruned; [done|].
  intros id p' c [_ Hl']%lookup_delete_Some. by apply (bo_pending _ _ _ Hauth id).
Qed.
Lemma decide_ok now l id decision b : broker_ok now l b →
  broker_ok now (decision_events id (decide_authorization now id decision b) ++ l) (decide_authorization now id decision b).1.
Proof.
  intros Hb. pose proof (pending_pruned _ now _ (bo_pending _ _ _ Hb)) as Hp. pose proof (broker_pruned _ _ _ _ Hb Hp) as Hb'.
  unfold decide_authorization. destruct (_ !! id) as [p|] eqn:Hl; [|done]. destruct (bool_decide _); [done|].
  destruct (negb decision.(de_approved)).
  { destruct (negb _); [done|]. unfold decision_events. simpl. rewrite lookup_insert_eq. simpl. apply broker_pruned; [done|].
    intros i p' c [[<- <-]|[_ Hl']]%lookup_insert_Some Hd; [done|by eapply Hp]. }
  destruct (validated_capabilities _) as [caps|]; [|done]. destruct (negb _); [done|].
  unfold decision_events. simpl. rewrite lookup_insert_eq. simpl. set (e := EApproved _).
  assert (Hb2 : broker_ok now (e :: l) (with_pending (prune_expired now b.(pending)) b))
    by (apply (broker_more _ _ _ [e] _ Hb'); [lia|set_solver..]).
  apply broker_pruned; [done|]. intros i p' c [[<- <-]|[_ Hl']]%lookup_insert_Some Hd; [|right; by eapply Hp].
  injection Hd as <-. left.
Qed.

(** A request that was sent before is taken again only when its entry has just expired. *)
Lemma sent_again l x y g : registry_ok x.(x_at) l g → (x.(x_at) ≤ i64_max)%Z →
  (Z.abs (x.(x_at) - x.(x_issued)) ≤ BROKER_PROOF_MAX_SKEW_MS)%Z →
  filter (λ e : (string * string) * Z, (x.(x_at) < e.2)%Z) g.(replay_proofs) !! replay_key x = None →
  ESent y ∈ l → y.(x_application) = x.(x_application) → y.(x_nonce) = x.(x_nonce) → y.(x_issued) = x.(x_issued) →
  x.(x_at) = expiry x.
Proof.
  intros Hg Hmax Hfresh Hnew Hy Ea En Ei. assert (Hexp : (expiry x ≤ x.(x_at))%Z).
  { replace (expiry x) with (expiry y) by (unfold expiry; by rewrite Ei).
    destruct (ro_replay _ _ _ Hg y Hy) as [|Hl]; [done|]. replace (replay_key y) with (replay_key x) in Hl
      by (unfold replay_key; by rewrite Ea, En).
    apply map_lookup_filter_None in Hnew as [Hnone|Hexp]; [congruence|]. specialize (Hexp _ Hl). simpl in Hexp. lia. }
  unfold expiry, i64_saturating_add in *. lia.
Qed.
Lemma execute_ok now l fault runtime revoked request_id application capability operation nonce issued proof peer b :
  broker_ok now l b → log_ok l → (now ≤ i64_max)%Z →
  let '(b', _, sent, _) := execute fault now runtime revoked request_id application capability operation nonce issued proof
                             (Some peer) b in
  let es := from_option (λ command, [ESent {| x_at := now; x_principal := peer.(pe_principal_sha256);
    x_request_id := request_id; x_application := application; x_capability := capability; x_operation := operation;
    x_nonce := nonce; x_issued := issued; x_proof := proof; x_command := command |}]) [] sent in
  broker_ok now (es ++ l) b' ∧ log_ok (es ++ l).
Proof.
  intros Hb Hlog Hmax. unfold execute. destruct (negb _) eqn:Hreq; [done|].
  apply negb_false_iff, bool_decide_eq_true in Hreq.
  set (x := λ command, {| x_at := now; x_principal := peer.(pe_principal_sha256);
    x_request_id := request_id; x_application := application; x_capability := capability; x_operation := operation;
    x_nonce := nonce; x_issued := issued; x_proof := proof; x_command := command |}).
  change (authenticate_proof _ _ _ _ _ _ _ _ _ _ b) with (authentication fault (x CommandStatus) b).
  destruct (authentication_inv fault (x CommandStatus) b) as [[Hsame Hno]|(a & key & Hau & Heq)].
  { destruct (authentication fault (x CommandStatus) b) as [b' [[key|]|e]]; simpl in *; subst; [by destruct (Hno key)|done|done]. }
  rewrite Heq. clear Heq. destruct Hau as [_ Hfresh Hentry Hactive Happ Hprin Hallow Hkey Hproof Hnew Hroom].
  pose proof (λ command, consumed_ok l (x command) b.(registry) (bo_registry _ _ _ Hb) Hnew Hroom) as Hcons.
  assert (Hun : registry_ok now l (consumed (x CommandStatus) b.(registry))).
  { apply (consumed_unsent l (x CommandStatus)); [apply (Hcons CommandStatus)|]. apply (ro_granted _ _ _ (bo_registry _ _ _ Hb)). }
  destruct (persist_state fault (consumed (x CommandStatus) b.(registry)) b) as [b' [[]|e]] eqn:Hper; simpl.
  2: { split; [|done]. replace b' with (persist_state fault (consumed (x CommandStatus) b.(registry)) b).1 by (by rewrite Hper).
       by apply persist_ok. }
  apply persisted in Hper as ->. destruct (dispatch_operation _ _ _ _) as [[command|] r] eqn:Hdis; simpl.
  - split.
    + split; [apply (Hcons command)| |].
      * intros o ->%list_elem_of_singleton. eexists. split; [by left|]. apply (Hcons command).
      * intros id p c Hl Hd. right. by eapply (bo_pending _ _ _ Hb).
    + apply log_ok_cons; [done|]. intros y [= <-]. split_and!; [done|exists runtime, revoked; simpl; by rewrite Hdis| |].
      * exists a, key. split_and!; try done; [by eapply (ro_granted _ _ _ (bo_registry _ _ _ Hb))|].
        by destruct (aw_key _ (ro_wf _ _ _ (bo_registry _ _ _ Hb)) _ _ Hentry) as (_ & ? & _).
      * intros y Hy Ea En Ei. by apply (sent_again l (x command) y b.(registry) (bo_registry _ _ _ Hb)).
  - split; [|done]. split; [done| |apply Hb]. intros o ->%list_elem_of_singleton. eexists. by split; [left|].
Qed.

Lemma handle_ok now l fault draw runtime revoked q peer b :
  broker_ok now l b → log_ok l → (now ≤ i64_max)%Z →
  let h := handle fault now draw runtime revoked q peer b in
  broker_ok now (request_events now draw q peer b h.(hd_sent) ++ l) h.(hd_broker)
  ∧ log_ok (request_events now draw q peer b h.(hd_sent) ++ l).
Proof.
  intros Hb Hlog Hmax. cbv zeta. unfold request_events, handle.
  assert (Hex : ∀ token h p, broker_ok now (exchange_events now token h p b ++ l) b ∧ log_ok (exchange_events now token h p b ++ l)).
  { intros token h p. assert (He : (∀ a, ERevoked a ∉ exchange_events now token h p b)
      ∧ (∀ x, ESent x ∉ exchange_events now token h p b)) by (unfold exchange_events; repeat case_match; set_solver).
    destruct He. split; [by apply (broker_more now)|by apply log_ok_app]. }
  destruct (negb (_ && _)).
  { destruct q.(rq_operation), peer; done. }
  destruct q.(rq_operation) as [|claimed requested|handle|handle|credential capability operation|
    application capability operation nonce issued proof]; simpl; try done.
  - destruct (_ <? 2)%N; [by destruct peer|]. destruct peer as [peer|]; [|done]. simpl. split; [by apply request_ok|done].
  - destruct (_ <? 2)%N; [by destruct peer|]. destruct peer as [peer|]; [|done]. simpl. split; [by apply status_ok|done].
  - destruct (_ <? 2)%N; destruct peer as [peer|]; simpl; try done. split; [by apply exchange_ok|apply Hex].
  - destruct (negb _); simpl; [by destruct peer|]. destruct peer as [peer|].
    + pose proof (execute_ok now l fault runtime revoked q.(rq_request_id) application capability operation nonce issued proof
        peer b Hb Hlog Hmax) as He. by destruct (execute _ _ _ _ _ _ _ _ _ _ _ _ _) as [[[b' r] sent] key].
    + unfold execute. by destruct (negb _).
Qed.

Lemma broker_step_ok `{!BrokerLaws} w w' : broker_step w w' → world_ok w → world_ok w'.
Proof.
  destruct 1 as [w now fault draw runtime revoked q peer Hnow|w now Hnow|w now id decision Hnow|w fault application|
    w now o g Hnow Ho Hload]; intros [Hb Hl].
  - pose proof (broker_later _ now _ _ Hb ltac:(lia)) as Hb'. apply (handle_ok now); [done|done|lia].
  - pose proof (broker_later _ now _ _ Hb ltac:(lia)) as Hb'. split; [|done].
    apply broker_pruned; [done|]. apply pending_pruned, (bo_pending _ _ _ Hb').
  - pose proof (broker_later _ now _ _ Hb ltac:(lia)) as Hb'. split; [by apply decide_ok|]. apply log_ok_app; [done|].
    intros x0. unfold decision_events. simpl. repeat case_match; set_solver.
  - split; [by apply broker_revoke_ok|]. apply log_ok_app; [done|]. intros x0. repeat case_match; set_solver.
  - split; [|done]. destruct (bo_file _ _ _ Hb o Ho) as (g0 & Hw & Hg).
    rewrite (load_broker now o g0 Hw (ro_wf _ _ _ Hg) (ro_size _ _ _ Hg)) in Hload. injection Hload as <-.
    split; simpl; [eapply loaded_ok; [done|lia]| |done].
    intros o' ->%list_elem_of_singleton. exists g0. split; [done|].
    apply (registry_more _ _ _ [] _ Hg); [lia|by intros ? ? ? ? ?%elem_of_nil|by intros ? ?%elem_of_nil].
Qed.
Lemma new_world_ok now : world_ok (new_world now).
Proof.
  assert (Hg : registry_ok now [] empty_broker).
  { split; [split| | |]; simpl; [done|done|unfold MAX_APPLICATIONS; by rewrite map_size_empty; lia|done|by intros x ?%elem_of_nil|].
    rewrite map_size_empty. unfold MAX_REPLAY_PROOFS. lia. }
  split; [|by intros [|] ? ? ?]. split; [done| |done]. simpl. intros o ->%list_elem_of_singleton. exists empty_broker.
  by split; [right|].
Qed.
Lemma reachable_ok `{!BrokerLaws} w : broker_reachable w → world_ok w.
Proof.
  intros [now Hr]. apply (rtc_ind_r (R := broker_step) world_ok (new_world now)); [apply new_world_ok| |done].
  intros; by eapply broker_step_ok.
Qed.
End system.
