(* ===== verification/NodeBrokerClaims.v ===== *)
(** What the broker promises: commands go back to a decision of the operator, a request runs
    once, tokens work, applications do not share retry keys; and where requests run twice. *)

From S2P Require Import Prelude Domain DurableFile NodeRegistry LocalIpc NodeBroker NodeBrokerSystem.

(** * Capabilities *)

Lemma allows_with self other c :
  allows (with_capability self other) (requiring c) = allows self (requiring c) || allows other (requiring c).
Proof. unfold allows. destruct c; simpl; by rewrite ?andb_true_r. Qed.
Lemma allows_requiring c c' : allows (requiring c) (requiring c') = bool_decide (c = c').
Proof. destruct c, c'; vm_compute; reflexivity. Qed.
Lemma allows_from_capabilities l c : allows (from_capabilities l) (requiring c) = bool_decide (c ∈ l).
Proof.
  unfold from_capabilities. assert (Hl : ∀ acc, allows (foldl (λ r c', with_capability r (requiring c')) acc l) (requiring c)
    = allows acc (requiring c) || bool_decide (c ∈ l)).
  { induction l as [|c' l IH]; intros acc; simpl; [by rewrite orb_false_r|].
    rewrite IH, allows_with, allows_requiring, <- orb_assoc. f_equal.
    apply Bool.eq_iff_eq_true. rewrite orb_true_iff, !bool_decide_eq_true, elem_of_cons. naive_solver. }
  rewrite Hl. by destruct c.
Qed.

(** * Retry keys *)

Lemma split_at_nul (a b s t : string) : bytes_all (λ c, negb (Ascii.eqb c Ascii.zero)) a = true →
  bytes_all (λ c, negb (Ascii.eqb c Ascii.zero)) b = true → a +:+ nul +:+ s = b +:+ nul +:+ t → a = b ∧ s = t.
Proof.
  revert b. induction a as [|x a IH]; intros [|y b]; simpl.
  - intros _ _ E. injection E as E. exact (conj eq_refl E).
  - intros _ [Hy _]%andb_true_iff E. injection E as <- _. discriminate Hy.
  - intros [Hx _]%andb_true_iff _ E. injection E as -> _. discriminate Hx.
  - intros [_ Ha]%andb_true_iff [_ Hb]%andb_true_iff E. injection E as -> E. by destruct (IH _ Ha Hb E) as [-> ->].
Qed.
Lemma identity_no_nul i : validate_identity i = Ok () →
  bytes_all (λ c, negb (Ascii.eqb c Ascii.zero)) i.(id_application_id) = true.
Proof.
  unfold validate_identity. destruct (_ || _) eqn:Hi; [done|]. intros _. rewrite !orb_false_iff, negb_false_iff in Hi.
  destruct Hi as [[[[_ Hb] _] _] _]. revert Hb. induction i.(id_application_id) as [|c s IH]; simpl; [done|].
  intros [Hc Hs]%andb_true_iff. apply andb_true_iff. split; [|by apply IH].
  destruct (Ascii.eqb_spec c Ascii.zero) as [->|]; [|done]. vm_compute in Hc. discriminate Hc.
Qed.

Lemma identity_nonempty i : validate_identity i = Ok () → i.(id_application_id) ≠ ""%string.
Proof.
  unfold validate_identity. destruct (_ || _) eqn:Hi; [done|]. intros _. rewrite !orb_false_iff in Hi.
  destruct Hi as [[[[[Hne _] _] _] _] _]. by apply bool_decide_eq_false in Hne.
Qed.

Section claims.
Context `{Payloads} `{!IpcCodec} `{!IpcLaws} `{!BrokerCodec} `{!BrokerLaws}.
Implicit Types (w : World) (x y : Execution) (b : Broker).

Lemma token_key token : proof_key (token_digest token) = Some (broker_proof_key token).
Proof. unfold proof_key, token_digest. rewrite hex_round_trip. simpl. by rewrite sha256_length. Qed.

(** C15: Every command that the broker sends for an application goes back to an approval by
    the operator: the same application, proved by the operating system, exchanged it for a
    token, asks for a granted capability that covers the operation, proves the token, and
    was not revoked since.  The clock does not go back. *)
Theorem commands_are_granted w later x older : broker_reachable w → w.(log) = later ++ ESent x :: older →
  ∃ g token mid before, older = mid ++ EExchanged g token :: before ∧ EApproved g ∈ before ∧
    (ERevoked x.(x_application) ∉ mid) ∧
    g.(gr_principal) = x.(x_principal) ∧ g.(gr_application).(id_application_id) = x.(x_application) ∧
    x.(x_capability) ∈ g.(gr_capabilities) ∧ required_capability x.(x_operation) = Some x.(x_capability) ∧
    broker_request_proof (broker_proof_key token) x.(x_request_id) x.(x_application) x.(x_capability) x.(x_operation)
      x.(x_nonce) x.(x_issued) = Some x.(x_proof).
Proof.
  intros Hr El. destruct (reachable_ok w Hr) as [_ Hlog].
  destruct (Hlog _ _ _ El) as (Hreq & _ & (a & key & Hg & Happ & Hprin & _ & Hallow & Hkey & Hproof) & _).
  destruct Hg as (g & token & mid & before & -> & (Hi & Hp & Hc & Ht) & Hrev & Hap).
  exists g, token, mid, before. rewrite Happ in Hrev. unfold application_of in Happ. rewrite Hi in Happ.
  rewrite Hc, allows_from_capabilities, bool_decide_eq_true in Hallow. rewrite Ht, token_key in Hkey. injection Hkey as <-.
  split_and!; try done. congruence.
Qed.

(** C16: Through failing writes, crashes and restarts a request is sent to the runtime once,
    but for the last millisecond in which it is fresh, under a clock that does not go
    back. *)
Theorem requests_run_once w l1 x l2 y l3 : broker_reachable w → w.(log) = l1 ++ ESent x :: l2 ++ ESent y :: l3 →
  x.(x_application) = y.(x_application) → x.(x_nonce) = y.(x_nonce) → x.(x_issued) = y.(x_issued) →
  x.(x_at) = i64_saturating_add x.(x_issued) BROKER_PROOF_MAX_SKEW_MS.
Proof.
  intros Hr El Ha Hn Hi. destruct (reachable_ok w Hr) as [_ Hlog]. destruct (Hlog _ _ _ El) as (_ & _ & _ & Hone).
  apply (Hone y); [set_solver|done..].
Qed.

Definition at_time (t : Z) x : Execution :=
  {| x_at := t; x_principal := x.(x_principal); x_request_id := x.(x_request_id); x_application := x.(x_application);
     x_capability := x.(x_capability); x_operation := x.(x_operation); x_nonce := x.(x_nonce); x_issued := x.(x_issued);
     x_proof := x.(x_proof); x_command := x.(x_command) |}.

(** In its last millisecond every accepted request is accepted once more: it is still
    fresh, and the entry that would refuse it has expired. *)
Theorem replay_in_the_last_millisecond fault x b b' key :
  (i64_min ≤ x.(x_issued))%Z → (x.(x_issued) + BROKER_PROOF_MAX_SKEW_MS ≤ i64_max)%Z →
  authentication fault x b = (b', Ok (Some key)) →
  ∃ b'', authentication NoFault (at_time (x.(x_issued) + BROKER_PROOF_MAX_SKEW_MS) x) b' = (b'', Ok (Some key)).
Proof.
  intros Hmin Hmax Hau. destruct (authentication_inv fault x b) as [[_ Hno]|(a & key' & Hok & Heq)];
    [by destruct (Hno key); rewrite Hau|].
  rewrite Heq in Hau. destruct (persist_state _ _ _) as [b1 [[]|e]] eqn:Hper; [|done]. injection Hau as <- <-. simpl.
  apply persisted in Hper as ->. destruct Hok as [Hform Hfresh Hentry Hactive Happ Hprin Hallow Hkey Hproof Hnew Hroom].
  set (t := (x.(x_issued) + BROKER_PROOF_MAX_SKEW_MS)%Z). set (b1 := {| registry := consumed x b.(registry) |}).
  assert (Hexp : expiry x = t) by (unfold expiry, t, i64_saturating_add, BROKER_PROOF_MAX_SKEW_MS in *; lia).
  exists (persist_state NoFault (consumed (at_time t x) b1.(registry)) b1).1.
  erewrite authentic_accepted; [done|]. split; try done; simpl.
  - unfold t, BROKER_PROOF_MAX_SKEW_MS. lia.
  - change (replay_key (at_time t x)) with (replay_key x). apply map_lookup_filter_None. right.
    intros v. rewrite lookup_insert_eq, Hexp. intros [= <-]. simpl. lia.
  - eapply Nat.le_lt_trans; [|exact Hroom]. apply map_subseteq_size. apply map_subseteq_spec. intros k v Hl.
    apply map_lookup_filter_Some in Hl as [[[<- <-]|[_ Hl]]%lookup_insert_Some Ht]; [|done]. simpl in Ht. lia.
Qed.

(** The token that an exchange returns works: a request of that application with a proof
    of the token, for a granted capability that covers the operation, is dispatched. *)
Theorem issued_tokens_work fault now draw handle peer b b' credential :
  exchange fault now draw handle peer b = (b', Ok credential) →
  ∀ x runtime revoked, x.(x_principal) = peer.(pe_principal_sha256) → x.(x_application) = credential.(bc_application_id) →
    x.(x_capability) ∈ credential.(bc_granted_capabilities) → required_capability x.(x_operation) = Some x.(x_capability) →
    broker_request_proof (broker_proof_key credential.(bc_token)) x.(x_request_id) x.(x_application) x.(x_capability)
      x.(x_operation) x.(x_nonce) x.(x_issued) = Some x.(x_proof) →
    32 ≤ String.length x.(x_nonce) ≤ 128 → (Z.abs (x.(x_at) - x.(x_issued)) ≤ BROKER_PROOF_MAX_SKEW_MS)%Z →
    b'.(registry).(replay_proofs) !! replay_key x = None → size b'.(registry).(replay_proofs) < MAX_REPLAY_PROOFS →
    ∃ b'', execute NoFault x.(x_at) runtime revoked x.(x_request_id) x.(x_application) x.(x_capability) x.(x_operation)
      x.(x_nonce) x.(x_issued) x.(x_proof) (Some peer) b' =
      (b'', (r ← (dispatch_operation runtime revoked x.(x_operation) (Some x.(x_application))).2; Ok (LocalBrokerResult r)),
       (dispatch_operation runtime revoked x.(x_operation) (Some x.(x_application))).1,
       Some (broker_proof_key credential.(bc_token))).
Proof.
  unfold exchange. destruct (authenticated_pending _ _) as [p|]; [|done]. destruct (negb _); [done|].
  destruct p.(pn_decision) as [[capabilities|]|]; [|done..].
  destruct (authorize _ _ _ _ _ _) as [b1 [token|]] eqn:Hauth; [|done]. intros [= <- <-]. simpl.
  unfold authorize in Hauth. destruct (validate_identity _) as [[]|] eqn:Hi; [|done].
  destruct (validate_principal_digest _) as [[]|] eqn:Hp; [|done]. destruct (negb _ && _); [done|].
  destruct (persist_state _ _ _) as [b2 [[]|]] eqn:Hper; [|done]. injection Hauth as <- <-. apply persisted in Hper as ->.
  intros x runtime revoked Hprin Happ Hcap Hreq Hproof Hnonce Hfresh Hnew Hroom. simpl in *. unfold execute.
  rewrite bool_decide_true by done. cbn [negb]. rewrite <- Hprin.
  match goal with |- context [authenticate_proof _ _ _ _ _ _ _ _ _ _ ?b] => set (b3 := b) end.
  change (authenticate_proof _ _ _ _ _ _ _ _ _ _ b3) with (authentication NoFault x b3).
  set (entry := {| da_identity := p.(pn_view).(pa_application); da_verified_principal_sha256 := Some x.(x_principal) |}) in b3.
  rewrite (authentic_accepted NoFault x b3 entry (broker_proof_key draw.(dw_token))).
  - simpl. destruct (dispatch_operation _ _ _ _). by eexists.
  - split; try done; simpl.
    + rewrite Hprin, Hp. simpl. rewrite Happ, bool_decide_false by (apply identity_nonempty, Hi). simpl.
      rewrite (proj2 (Nat.ltb_ge _ _)), (proj2 (Nat.ltb_ge _ _)) by lia. done.
    + apply lookup_insert_eq.
    + by rewrite allows_from_capabilities, bool_decide_true.
    + apply token_key.
    + apply map_lookup_filter_None. by left.
    + eapply Nat.le_lt_trans; [|exact Hroom]. apply map_subseteq_size, map_filter_subseteq.
Qed.

(** The retry keys of two applications are apart: jobs that the broker submits under one
    key were submitted by one application, under the same key of its own. *)
Theorem retry_keys_are_apart w later x older later' y older' :
  broker_reachable w → w.(log) = later ++ ESent x :: older → w.(log) = later' ++ ESent y :: older' →
  ∀ p n t k pr c d o e p' n' t' pr' c' d' o' e',
    x.(x_command) = CommandSubmitJob p n t (Some k) pr c d o e →
    y.(x_command) = CommandSubmitJob p' n' t' (Some k) pr' c' d' o' e' →
    x.(x_application) = y.(x_application) ∧ ∃ key, k = broker_idempotency_key x.(x_application) key ∧ key ≠ ""%string.
Proof.
  intros Hr Ex Ey. destruct (reachable_ok w Hr) as [_ Hlog].
  assert (Hone : ∀ z l l', w.(log) = l ++ ESent z :: l' →
    bytes_all (λ c, negb (Ascii.eqb c Ascii.zero)) z.(x_application) = true ∧
    ∀ p n t k pr c d o e, z.(x_command) = CommandSubmitJob p n t (Some k) pr c d o e →
      ∃ key, k = broker_idempotency_key z.(x_application) key ∧ key ≠ ""%string).
  { intros z l l' Ez. destruct (Hlog _ _ _ Ez) as (_ & (runtime & revoked & Hd) & (a & key & _ & Ha & _ & Hi & _) & _).
    split; [rewrite <- Ha; by apply identity_no_nul|]. intros p n t k pr c d o e Hc. rewrite Hc in Hd.
    destruct z.(x_operation) as [| | | | | | | | | | | |[]]; simpl in Hd; try done. destruct (_ || _) eqn:Hk; [done|].
    injection Hd as <- <- <- <- <- <- <- <- <-. eexists. split; [done|].
    apply orb_false_iff in Hk as [Hk _]. by apply bool_decide_eq_false in Hk. }
  intros p n t k pr c d o e p' n' t' pr' c' d' o' e' Hcx Hcy.
  destruct (Hone _ _ _ Ex) as [Nx Kx], (Hone _ _ _ Ey) as [Ny Ky].
  destruct (Kx _ _ _ _ _ _ _ _ _ Hcx) as (key & Ek & Hne), (Ky _ _ _ _ _ _ _ _ _ Hcy) as (key' & Ek' & _).
  split; [|by exists key]. rewrite Ek in Ek'. unfold broker_idempotency_key in Ek'.
  apply string_app_inv in Ek' as [_ E]; [|done]. apply string_app_inv in E as [_ E]; [|done].
  by destruct (split_at_nul _ _ _ _ Nx Ny E).
Qed.
End claims.

(** * A broker *)

Module BrokerDemo.
Export IpcDemo.
#[local] Instance broker_codec : BrokerCodec :=
  {| broker_text := BrokerDocument; broker_to_json d := d; broker_from_json := Some |}.
#[local] Instance broker_laws : BrokerLaws.
Proof. by split. Qed.

Definition identity : BrokerApplicationIdentity :=
  {| id_application_id := "app"; id_display_name := "App"; id_signing_identity_sha256 := None |}.
Definition peer : Peer := {| pe_application := identity; pe_principal_sha256 := zeros +:+ zeros |}.
Definition draw (id token : string) : Draw := {| dw_id := id; dw_token := token |}.
Definition runtime : Runtime := λ _, Some (Ok tt).
Definition send (now : Z) (d : Draw) (o : BrokerOperation) (w : World) : World :=
  let q := {| rq_protocol := 4; rq_request_id := "r"; rq_operation := o |} in
  let h := handle NoFault now d runtime tt q (Some peer) w.(broker) in
  {| clock := now; broker := h.(hd_broker); log := request_events now d q (Some peer) w.(broker) h.(hd_sent) ++ w.(log) |}.
Lemma send_step now d o w : (w.(clock) ≤ now ≤ i64_max)%Z → broker_step w (send now d o w).
Proof. intros Hnow. by apply (b_request w now NoFault d runtime tt). Qed.

Definition ticket : BrokerAuthorizationHandle :=
  {| ah_authorization_id := "1"; ah_nonce := "nonce"; ah_expires_unix_ms := 300001 |}.
Definition approval : BrokerAuthorizationDecision :=
  {| de_approved := true; de_granted_capabilities := [SubmitLocalJobs; ObserveStatus] |}.
Definition asked : World := send 1 (draw "1" "nonce") (RequestAuthorization None [ObserveStatus; SubmitLocalJobs]) (new_world 0).
Definition approved : World :=
  let x := decide_authorization 2 "1" approval asked.(broker) in
  {| clock := 2; broker := x.1; log := decision_events "1" x ++ asked.(log) |}.
Definition granted_world : World := send 3 (draw "2" "token") (ExchangeAuthorization ticket) approved.
Definition submission (t : Z) : Execution :=
  {| x_at := t; x_principal := peer.(pe_principal_sha256); x_request_id := "r"; x_application := "app";
     x_capability := SubmitLocalJobs; x_operation := Sdk job; x_nonce := zeros; x_issued := 4;
     x_proof := default zeros (broker_request_proof (broker_proof_key "token") "r" "app" SubmitLocalJobs (Sdk job) zeros 4);
     x_command := CommandSubmitJob "printer" None "title" (Some (broker_idempotency_key "app" "key")) None Job.Raw ""
       Job.default_options None |}.
Definition submit (t : Z) : BrokerOperation := ExecuteAuthenticated "app" SubmitLocalJobs (Sdk job) zeros 4 (submission t).(x_proof).
Definition submitted : World := send 4 (draw "3" "") (submit 4) granted_world.
Definition submitted_twice : World := send 30004 (draw "4" "") (submit 30004) submitted.

Lemma twice_reachable : broker_reachable submitted_twice.
Proof.
  exists 0%Z. eapply rtc_l; [apply (send_step 1 (draw "1" "nonce") (RequestAuthorization None [ObserveStatus; SubmitLocalJobs]));
    vm_compute; split; discriminate|].
  eapply rtc_l; [apply (b_decide asked 2 "1" approval); vm_compute; split; discriminate|].
  eapply rtc_l; [apply (send_step 3 (draw "2" "token") (ExchangeAuthorization ticket)); vm_compute; split; discriminate|].
  eapply rtc_l; [apply (send_step 4 (draw "3" "") (submit 4)); vm_compute; split; discriminate|].
  apply rtc_once, (send_step 30004 (draw "4" "") (submit 30004)). vm_compute; split; discriminate.
Qed.
Lemma twice_log : submitted_twice.(log) = [ESent (submission 30004); ESent (submission 4)] ++ granted_world.(log).
Proof. vm_compute. reflexivity. Qed.

Lemma commands_are_granted_witness :
  ∃ g token mid before, ESent (submission 4) :: granted_world.(log) = mid ++ EExchanged g token :: before ∧ EApproved g ∈ before
    ∧ SubmitLocalJobs ∈ g.(gr_capabilities).
Proof.
  destruct (commands_are_granted submitted_twice [] (submission 30004) (ESent (submission 4) :: granted_world.(log))
    twice_reachable twice_log) as (g & token & mid & before & E & Ha & _ & _ & _ & Hc & _).
  exists g, token, mid, before. exact (conj E (conj Ha Hc)).
Defined.
Lemma requests_run_once_witness :
  (submission 30004).(x_at) = i64_saturating_add 4 BROKER_PROOF_MAX_SKEW_MS.
Proof.
  exact (requests_run_once submitted_twice [] (submission 30004) [] (submission 4) granted_world.(log) twice_reachable twice_log
    eq_refl eq_refl eq_refl).
Defined.
Lemma retry_keys_are_apart_witness :
  ∃ key, broker_idempotency_key "app" "key" = broker_idempotency_key "app" key ∧ key ≠ ""%string.
Proof.
  exact (proj2 (retry_keys_are_apart submitted_twice [] (submission 30004) _ [ESent (submission 30004)] (submission 4) _
    twice_reachable twice_log twice_log _ _ _ _ _ _ _ _ _ _ _ _ _ _ _ _ _ eq_refl eq_refl)).
Defined.

Lemma accepted_once : authentication NoFault (submission 4) granted_world.(broker)
  = ((authentication NoFault (submission 4) granted_world.(broker)).1, Ok (Some (broker_proof_key "token"))).
Proof. vm_compute. reflexivity. Qed.
Lemma replay_in_the_last_millisecond_witness :
  ∃ b'', authentication NoFault (at_time 30004 (submission 4)) (authentication NoFault (submission 4) granted_world.(broker)).1
    = (b'', Ok (Some (broker_proof_key "token"))).
Proof.
  apply (replay_in_the_last_millisecond NoFault (submission 4) granted_world.(broker) _ (broker_proof_key "token")).
  - vm_compute. discriminate.
  - vm_compute. discriminate.
  - exact accepted_once.
Defined.

Definition credential : BrokerCredential :=
  {| bc_application_id := "app"; bc_token := "token"; bc_granted_capabilities := [ObserveStatus; SubmitLocalJobs] |}.
Lemma exchanged : exchange NoFault 3 (draw "2" "token") ticket peer approved.(broker)
  = ((exchange NoFault 3 (draw "2" "token") ticket peer approved.(broker)).1, Ok credential).
Proof. vm_compute. reflexivity. Qed.
Lemma issued_tokens_work_witness :
  ∃ b'', execute NoFault 4 runtime tt "r" "app" SubmitLocalJobs (Sdk job) zeros 4 (submission 4).(x_proof) (Some peer)
    (exchange NoFault 3 (draw "2" "token") ticket peer approved.(broker)).1
    = (b'', Ok (LocalBrokerResult (SdkData tt)), Some (submission 4).(x_command), Some (broker_proof_key "token")).
Proof.
  apply (issued_tokens_work NoFault 3 (draw "2" "token") ticket peer approved.(broker) _ credential exchanged (submission 4)
    runtime tt eq_refl eq_refl).
  - set_solver.
  - reflexivity.
  - reflexivity.
  - vm_compute. lia.
  - vm_compute. discriminate.
  - vm_compute. reflexivity.
  - vm_compute. lia.
Defined.
End BrokerDemo.
