(* ===== verification/ControlPlane.v ===== *)
(** What the handlers of the control plane share (crates/control-plane/src/error.rs,
    repository.rs and lib.rs): the answer an error becomes, the state a handler works on, a
    handler as a sequence of transactions, and the publication of events.

    The state is the store of [CloudStore] with the tables of the inventory beside it.  A
    handler is not one transaction: what it committed before an error stays.  A request runs
    at one instant. *)

From S2P Require Import Prelude Domain CloudStore CloudWake CloudJobs CloudRouting.

(** * Errors *)

(** [AppError], by its status and its code. *)
Inductive AppError :=
| AppNotFound
| AppInvalid (code : string)
| AppConflict (code : string)
| AppPaymentRequired (code : string)
| AppUnavailable (code : string)
| AppUnauthorized (code : string).
#[export] Instance AppError_eq_dec : EqDecision AppError.
Proof. solve_decision. Defined.

(** The errors of the repository of destinations. *)
Definition storage_error (e : StorageError) : AppError :=
  match e with
  | NotFound => AppNotFound
  | IdempotencyConflict | ConcurrentStateChange | InvalidTransition => AppConflict "destination_state_changed"
  | InvalidData _ => AppInvalid "invalid_destination_topology"
  | _ => AppUnavailable "destination_topology_unavailable"
  end.

(** Those of the other repository, through [RepositoryError]. *)
Definition repository_error (e : StorageError) : AppError :=
  match e with
  | NotFound => AppNotFound
  | IdempotencyConflict => AppConflict "idempotency_conflict"
  | ConcurrentStateChange | InvalidTransition => AppConflict "invalid_job_state"
  | NodeIdentityRevisionConflict _ => AppConflict "node_identity_revision_conflict"
  | QuotaExceeded => AppPaymentRequired "quota_exceeded"
  | BillingBlocked => AppPaymentRequired "billing_blocked"
  | NodeQuotaExceeded => AppPaymentRequired "node_quota_exceeded"
  | PlatformAlreadyEnabled => AppConflict "platform_already_enabled"
  | _ => AppUnavailable "service_unavailable"
  end.

(** * Reports of a node (crates/protocol/src/agent.rs) *)

Inductive NodeHostMode := MachineService | UserAgent | EmbeddedApplication | AttachedClient.
Inductive NodeAvailabilityClass :=
| ContinuousWhileAwake | ForegroundOnly | BackgroundOpportunistic | ManagedKiosk | WakeRelayCapable.
Inductive NodeAvailability :=
| NodeAvailable | Foreground | Background | Suspending | Suspended | Waking | NodeUnavailable.
Inductive WakeMechanism := LocalBroker | ApnsBackground | BluetoothAccessory | ExternalAccessory | WakeOnLan | Manual.
#[export] Instance NodeHostMode_eq_dec : EqDecision NodeHostMode.
Proof. solve_decision. Defined.
#[export] Instance NodeAvailabilityClass_eq_dec : EqDecision NodeAvailabilityClass.
Proof. solve_decision. Defined.
#[export] Instance NodeAvailability_eq_dec : EqDecision NodeAvailability.
Proof. solve_decision. Defined.
#[export] Instance WakeMechanism_eq_dec : EqDecision WakeMechanism.
Proof. solve_decision. Defined.

Record NodeRuntimeObservation := {
  nr_sequence : N;
  nr_host_mode : NodeHostMode;
  nr_availability_class : NodeAvailabilityClass;
  nr_lifecycle_state : NodeAvailability;
  nr_accepts_cloud_jobs : bool;
  nr_observed_at : Z;
  nr_fresh_until : Z;
  nr_execution_budget_ms : option N;
  nr_wake_mechanisms : list WakeMechanism
}.
#[export] Instance NodeRuntimeObservation_eq_dec : EqDecision NodeRuntimeObservation.
Proof. solve_decision. Defined.

(** * State *)

(** Rows of [destination_identity_evidence] beside the destination and the route, of
    [route_observations], keyed by route and sequence, and of
    [projection_acknowledgements], keyed by node and route. *)
Record EvidenceRow := {
  ev_kind : string;
  ev_value_digest : string;
  ev_strength : string;
  ev_conflicts : bool
}.
Record ObservationRow := {
  ob_printer_state : string;
  ob_accepting_jobs : option bool;
  ob_state_reasons : list string;
  ob_total_jobs : N;
  ob_connector_jobs : N;
  ob_other_jobs : N;
  ob_unknown_jobs : N;
  ob_active_jobs : N;
  ob_held_jobs : N;
  ob_estimated_busy_seconds : option N;
  ob_privacy_level : string;
  ob_profile_observed_at : option Z;
  ob_stock_observed_at : option Z;
  ob_observed_at : Z;
  ob_fresh_until : Z
}.
#[export] Instance ObservationRow_eq_dec : EqDecision ObservationRow.
Proof. solve_decision. Defined.
Record AcknowledgementRow := {
  ak_inventory_revision : Z;
  ak_capability_revision : Z;
  ak_observed_at : Z;
  ak_acknowledged_at : Z
}.

(** [node_diagnostics], by the request; the report is its serialised text. *)
Record DiagnosticRow := {
  dg_tenant : Tenant;
  dg_agent_id : string;
  dg_state : string;
  dg_report : option string;
  dg_expires_at : Z
}.

Record Inventory := {
  native_ids : gmap (Tenant * string) string;
  evidence_values : gmap (Tenant * string) EvidenceRow;
  route_observations : gmap (Tenant * string * N) ObservationRow;
  runtime_observations : gmap (Tenant * string * N) NodeRuntimeObservation;
  projection_acknowledgements : gmap (Tenant * string * string) AcknowledgementRow;
  node_diagnostics : gmap string DiagnosticRow
}.

(** What an event carries. *)
Inductive EventData :=
| OfJob (j : Job)
| OfAttempt (a : AttemptRow)
| OfDestination (destination : string)
| OfInventory (agent : string) (revision : N)
| OfRoute (agent : string) (destination route : option string)
| OfResolution (job destination request : string) (replacement : option string).

Record Plane := {
  store : Store;
  inventory : Inventory;
  published : list (Tenant * string * EventData)
}.

Definition on_store (f : Store → Store) (p : Plane) : Plane :=
  {| store := f p.(store); inventory := p.(inventory); published := p.(published) |}.
Definition on_inventory (f : Inventory → Inventory) (p : Plane) : Plane :=
  {| store := p.(store); inventory := f p.(inventory); published := p.(published) |}.
Definition on_published (f : list (Tenant * string * EventData) → list (Tenant * string * EventData)) (p : Plane) :
    Plane :=
  {| store := p.(store); inventory := p.(inventory); published := f p.(published) |}.

Definition on_native_ids (f : gmap (Tenant * string) string → gmap (Tenant * string) string) : Plane → Plane :=
  on_inventory (λ v, {| native_ids := f v.(native_ids); evidence_values := v.(evidence_values);
    route_observations := v.(route_observations); runtime_observations := v.(runtime_observations);
    projection_acknowledgements := v.(projection_acknowledgements); node_diagnostics := v.(node_diagnostics) |}).
Definition on_evidence_values (f : gmap (Tenant * string) EvidenceRow → gmap (Tenant * string) EvidenceRow) :
    Plane → Plane :=
  on_inventory (λ v, {| native_ids := v.(native_ids); evidence_values := f v.(evidence_values);
    route_observations := v.(route_observations); runtime_observations := v.(runtime_observations);
    projection_acknowledgements := v.(projection_acknowledgements); node_diagnostics := v.(node_diagnostics) |}).
Definition on_route_observations
    (f : gmap (Tenant * string * N) ObservationRow → gmap (Tenant * string * N) ObservationRow) : Plane → Plane :=
  on_inventory (λ v, {| native_ids := v.(native_ids); evidence_values := v.(evidence_values);
    route_observations := f v.(route_observations); runtime_observations := v.(runtime_observations);
    projection_acknowledgements := v.(projection_acknowledgements); node_diagnostics := v.(node_diagnostics) |}).
Definition on_runtime_observations
    (f : gmap (Tenant * string * N) NodeRuntimeObservation → gmap (Tenant * string * N) NodeRuntimeObservation) :
    Plane → Plane :=
  on_inventory (λ v, {| native_ids := v.(native_ids); evidence_values := v.(evidence_values);
    route_observations := v.(route_observations); runtime_observations := f v.(runtime_observations);
    projection_acknowledgements := v.(projection_acknowledgements); node_diagnostics := v.(node_diagnostics) |}).
Definition on_projection_acknowledgements
    (f : gmap (Tenant * string * string) AcknowledgementRow → gmap (Tenant * string * string) AcknowledgementRow) :
    Plane → Plane :=
  on_inventory (λ v, {| native_ids := v.(native_ids); evidence_values := v.(evidence_values);
    route_observations := v.(route_observations); runtime_observations := v.(runtime_observations);
    projection_acknowledgements := f v.(projection_acknowledgements); node_diagnostics := v.(node_diagnostics) |}).
Definition on_node_diagnostics (f : gmap string DiagnosticRow → gmap string DiagnosticRow) : Plane → Plane :=
  on_inventory (λ v, {| native_ids := v.(native_ids); evidence_values := v.(evidence_values);
    route_observations := v.(route_observations); runtime_observations := v.(runtime_observations);
    projection_acknowledgements := v.(projection_acknowledgements); node_diagnostics := f v.(node_diagnostics) |}).

(** * Handlers *)

Definition Call (A : Type) : Type := Plane → Plane * result AppError A.
#[export] Instance call_ret : MRet Call := λ A a p, (p, Ok a).
#[export] Instance call_bind : MBind Call := λ A B f m p,
  match m p with (p', Ok a) => f a p' | (p', Err e) => (p', Err e) end.

Definition look {A} (f : Plane → A) : Call A := λ p, (p, Ok (f p)).
Definition fail {A} (e : AppError) : Call A := λ p, (p, Err e).
Definition demand (b : bool) (e : AppError) : Call unit := λ p, if b then (p, Ok ()) else (p, Err e).

(** A transaction with its error as the handler reports it, and one whose error the handler
    looks at. *)
Definition run {A} (wrap : StorageError → AppError) (m : Txn Plane A) : Call A := λ p,
  match m p with Ok (p', a) => (p', Ok a) | Err e => (p, Err (wrap e)) end.
Definition try {A} (m : Txn Plane A) : Call (result StorageError A) := λ p,
  match m p with Ok (p', a) => (p', Ok (Ok a)) | Err e => (p, Ok (Err e)) end.
(** A transaction of the store, and an operation of several. *)
Definition in_store {A} (m : Tx A) : Txn Plane A := λ p,
  match m p.(store) with Ok (s, a) => Ok (on_store (λ _, s) p, a) | Err e => Err e end.
Definition operation {A} (wrap : StorageError → AppError) (m : Op A) : Call A := λ p,
  let '(s, r) := m p.(store) in
  (on_store (λ _, s) p, match r with Ok a => Ok a | Err e => Err (wrap e) end).

(** [match ... { Err(error) => ... }], and [let _ = ...]. *)
Definition or_else {A} (m : Call A) (h : AppError → Call A) : Call A := λ p,
  match m p with (p', Err e) => h e p' | r => r end.
Definition whatever {A} (m : Call A) : Call unit := λ p, ((m p).1, Ok ()).

Fixpoint each {A B} (f : A → Call B) (l : list A) : Call (list B) :=
  match l with
  | [] => mret []
  | a :: l => b ← f a; bs ← each f l; mret (b :: bs)
  end.

(** * Publication *)

(** The tables of webhooks may be out of reach for an event. *)
Class Outbox := outage : string → bool.

Section publish.
Context `{Outbox}.

Definition announce (t : Tenant) (event_type : string) (data : EventData) : Call unit := λ p,
  (on_published (λ l, l ++ [(t, event_type, data)]) p, Ok ()).
Definition publish (t : Tenant) (event_type : string) (data : EventData) : Call unit :=
  _ ← demand (negb (outage event_type)) (repository_error (Database "webhook_events"));
  announce t event_type data.
Definition publish_idempotently (key : string) (t : Tenant) (event_type : string) (j : Job) : Call unit :=
  _ ← demand (negb (outage event_type)) (repository_error (Database "webhook_events"));
  _ ← run repository_error (in_store (enqueue_webhook_event_in_transaction key t event_type j));
  announce t event_type (OfJob j).
End publish.
