(* ===== verification/ControlInventory.v ===== *)
(** The inventory that a node reports with a sync: the statements on its tables
    (crates/storage-postgres/src/destination_topology.rs, [sync_agent_presence] of
    crates/storage-postgres/src/lib.rs and the constraints of migrations 0039 to 0041), and
    its projection (crates/control-plane/src/destination_topology.rs): which physical
    destination a queue belongs to, its route, the evidence for it, what was observed, and
    whether the node may be offered jobs.

    Columns that nothing here reads - names, texts for people, times of the last sight - are
    left out, and so are the constant row of the scheduling authority and the reason and
    channel of a wake hint.  The projection never moves a known route to another
    destination. *)

From S2P Require Import Prelude Domain CloudStore CloudWake CloudJobs CloudRouting CloudTopology ControlPlane.
Export Printer.

(** * Reports (crates/protocol/src/agent.rs) *)

Inductive PhysicalIdentityEvidenceKind :=
| IppPrinterUuid | DeviceSerial | UsbSerial | CertificateKey | NetworkMac | NetworkEndpoint
| ManufacturerModel | CapabilityFingerprint | DriverFingerprint.
Inductive IdentityEvidenceStrength := Strong | Medium | Weak.
Inductive ReportedConfidence :=
| ReportedVerified | ReportedHigh | ReportedPossible | ReportedConflict | ReportedUnknown.
Inductive TopologyChange := Added | Changed | Removed | Reconciled.
#[export] Instance TopologyChange_eq_dec : EqDecision TopologyChange.
Proof. solve_decision. Defined.

Record PhysicalIdentityEvidence := {
  pe_kind : PhysicalIdentityEvidenceKind;
  pe_value_sha256 : string;
  pe_strength : IdentityEvidenceStrength
}.
Record PrinterRouteSnapshot := {
  sn_local_route_key : string;
  sn_inventory_revision : N;
  sn_topology_revision : N;
  sn_observed_at : Z;
  sn_identity_evidence : list PhysicalIdentityEvidence;
  sn_identity_confidence : ReportedConfidence;
  sn_topology_change : option TopologyChange
}.
Record PrinterSnapshot := {
  px_id : string;
  px_native_id : string;
  px_state : PrinterState;
  px_capability_revision : N;
  px_profiles : list ProfileSnapshot;
  px_route : option PrinterRouteSnapshot
}.
Record RouteTopologyChange := { tc_local_route_key : string; tc_observed_at : Z; tc_change : TopologyChange }.
Record PrivacySafeQueueObservation := {
  qo_total_jobs : N;
  qo_active_jobs : N;
  qo_held_jobs : N;
  qo_connector_jobs : N;
  qo_other_jobs : N;
  qo_unknown_jobs : N
}.
Record RouteObservation := {
  ro_local_route_key : string;
  ro_sequence : N;
  ro_observed_at : Z;
  ro_state : PrinterState;
  ro_accepts_jobs : bool;
  ro_state_reasons : list string;
  ro_queue : option PrivacySafeQueueObservation;
  ro_profile_observed_at : option Z;
  ro_stock_observed_at : option Z
}.

(** * Names *)

Definition stored_observation_state (st : PrinterState) : string :=
  match st with
  | Online => "idle"
  | Busy => "processing"
  | Paused | PaperOut | Error => "stopped"
  | Offline => "unavailable"
  | Unknown => "unknown"
  end.
Definition stored_route_state (st : PrinterState) : RouteState :=
  match st with
  | Online | Busy => RouteAvailable
  | Offline => RouteUnavailable
  | Paused => RoutePaused
  | PaperOut | Error => RouteRejecting
  | Unknown => RouteUnknown
  end.
Definition protocol_confidence (r : ReportedConfidence) : string :=
  match r with
  | ReportedVerified => "verified"
  | ReportedHigh => "high"
  | ReportedPossible => "possible"
  | ReportedConflict => "conflict"
  | ReportedUnknown => "unknown"
  end.
Definition evidence_kind (k : PhysicalIdentityEvidenceKind) : string :=
  match k with
  | IppPrinterUuid => "ipp_uuid"
  | DeviceSerial => "device_serial"
  | UsbSerial => "usb_serial"
  | CertificateKey => "certificate_key"
  | NetworkMac => "network_mac"
  | NetworkEndpoint => "network_endpoint"
  | ManufacturerModel => "manufacturer_model"
  | CapabilityFingerprint => "capability_fingerprint"
  | DriverFingerprint => "driver_fingerprint"
  end.
Definition evidence_strength (s : IdentityEvidenceStrength) : string :=
  match s with Strong => "strong" | Medium => "medium" | Weak => "weak" end.
Definition evidence_is_strong (strength : string) : bool :=
  bool_decide (strength ∈ ["strong"; "verified"]%string).

(** * Tables *)

Definition on_printers (f : gmap (Tenant * string) PrinterRow → gmap (Tenant * string) PrinterRow) : Store → Store :=
  on_topology (λ T, {| agents := T.(agents); node_connectors := T.(node_connectors);
    printer_routes := T.(printer_routes); physical_destinations := T.(physical_destinations);
    printers := f T.(printers); targets := T.(targets); target_bindings := T.(target_bindings);
    uploads := T.(uploads); content_keys := T.(content_keys); environments := T.(environments);
    platform_accounts := T.(platform_accounts); workspaces := T.(workspaces); subscriptions := T.(subscriptions);
    site_memberships := T.(site_memberships); identity_evidence := T.(identity_evidence);
    identity_decisions := T.(identity_decisions); catalogue := T.(catalogue) |}).

Section tables.
Context `{CloudExternal}.
Variable c : Clock.

(** ** Routes *)

Definition get_route (t : Tenant) (id : string) (s : Store) : option RouteRow :=
  r ← s.(topology).(printer_routes) !! (t, id);
  if decide (r.(rt_retired_at) = None) then Some r else None.
Definition current_routes (t : Tenant) (p : RouteRow → bool) (s : Store) : list (string * RouteRow) :=
  (λ e : Tenant * string * RouteRow, (e.1.2, e.2)) <$>
    select_rows (λ k r, bool_decide (k.1 = t) && bool_decide (r.(rt_retired_at) = None) && p r)
      s.(topology).(printer_routes).
Definition get_route_by_local_key (t : Tenant) (agent key : string) (s : Store) : option (string * RouteRow) :=
  head (current_routes t (λ r, bool_decide (r.(rt_agent_id) = agent)
                               && bool_decide (r.(rt_local_route_key) = Some key)) s).
Definition by_priority (a b : string * RouteRow) : bool :=
  if negb (a.2.(rt_priority) =? b.2.(rt_priority))%Z then (a.2.(rt_priority) <? b.2.(rt_priority))%Z
  else String.leb a.1 b.1.
Definition by_destination (a b : string * RouteRow) : bool :=
  if decide (a.2.(rt_destination_id) = b.2.(rt_destination_id)) then by_priority a b
  else String.ltb a.2.(rt_destination_id) b.2.(rt_destination_id).
Definition list_all_routes (t : Tenant) (s : Store) : list (string * RouteRow) :=
  sort_by by_destination (current_routes t (λ _, true) s).
Definition list_routes (t : Tenant) (destination : string) (s : Store) : list (string * RouteRow) :=
  sort_by by_priority (current_routes t (λ r, bool_decide (r.(rt_destination_id) = destination)) s).

(** The keys of [printer_routes] that a row can run into: the node's key of a queue, and
    one enabled primary route per destination. *)
Definition route_conflict (t : Tenant) (id : string) (r : RouteRow) (s : Store) : option string :=
  if exists_row (λ k x, bool_decide (k.1 = t) && negb (bool_decide (k.2 = id))
       && bool_decide (x.(rt_agent_id) = r.(rt_agent_id)) && negb (bool_decide (r.(rt_local_route_key) = None))
       && bool_decide (x.(rt_local_route_key) = r.(rt_local_route_key))) s.(topology).(printer_routes)
  then Some "printer_routes_agent_id_local_route_key_key"%string
  else if bool_decide (r.(rt_role) = Primary) && r.(rt_enabled) && bool_decide (r.(rt_retired_at) = None)
          && has_primary t r.(rt_destination_id) (Some id) s
  then Some "printer_routes_one_primary_idx"%string
  else None.

(** The row of the printer and the node is updated under its own identifier. *)
Definition upsert_route (t : Tenant) (id : string) (r : RouteRow) (capability_revision profile_revision : N) : Tx unit :=
  _ ← pure_result (ok_or (i64_of_u64 capability_revision) (InvalidData "capability revision exceeds PostgreSQL bigint"));
  _ ← pure_result (ok_or (i64_of_u64 profile_revision) (InvalidData "profile revision exceeds PostgreSQL bigint"));
  active ← query (active_agent t r.(rt_agent_id));
  _ ← ensure active NotFound;
  existing ← query (λ s, find_row (λ k x, bool_decide (k.1 = t) && bool_decide (x.(rt_printer_id) = r.(rt_printer_id))
                                          && bool_decide (x.(rt_agent_id) = r.(rt_agent_id))) s.(topology).(printer_routes));
  let '(id, r) := match existing with
    | Some (k, x) => (k.2, {| rt_destination_id := r.(rt_destination_id); rt_printer_id := r.(rt_printer_id);
        rt_agent_id := r.(rt_agent_id);
        rt_local_route_key := coalesce r.(rt_local_route_key) x.(rt_local_route_key);
        rt_state := r.(rt_state); rt_role := r.(rt_role); rt_priority := r.(rt_priority);
        rt_enabled := r.(rt_enabled); rt_retired_at := x.(rt_retired_at) |})
    | None => (id, r)
    end in
  taken ← query (λ s, rt_printer_id <$> s.(topology).(printer_routes) !! (t, id));
  _ ← ensure (bool_decide (is_Some existing) || bool_decide (taken = None)) (Database "printer_routes_pkey");
  known ← query (λ s, bool_decide (is_Some (s.(topology).(physical_destinations) !! (t, r.(rt_destination_id))))
                      && bool_decide (is_Some (s.(topology).(printers) !! (t, r.(rt_printer_id)))));
  _ ← ensure known (Database "printer_routes_fkey");
  clash ← query (route_conflict t id r);
  _ ← ensure (bool_decide (clash = None)) (Database (default ""%string clash));
  execute (on_printer_routes <[(t, id) := r]>).

(** ** Destinations and evidence *)

Definition list_destinations (t : Tenant) (s : Store) : list (string * DestinationRow) :=
  (λ e : Tenant * string * DestinationRow, (e.1.2, e.2)) <$>
    select_rows (λ k d, bool_decide (k.1 = t) && bool_decide (d.(pd_retired_at) = None))
      s.(topology).(physical_destinations).
Definition upsert_destination (t : Tenant) (id confidence : string) (st : DestinationState) (revision : N) : Tx unit :=
  n ← pure_result (ok_or (i64_of_u64 revision) (InvalidData "identity revision exceeds PostgreSQL bigint"));
  execute (on_physical_destinations (partial_alter (λ o, Some
    {| pd_state := st; pd_identity_confidence := confidence; pd_identity_revision := n;
       pd_retired_at := o ≫= pd_retired_at |}) (t, id))).

Definition list_identity_evidence (t : Tenant) (destination : string) (p : Plane) : list EvidenceRow :=
  omap (λ e : Tenant * string * (string * string), p.(inventory).(evidence_values) !! e.1)
    (select_rows (λ k e, bool_decide (k.1 = t) && bool_decide (e.2 = destination))
       p.(store).(topology).(identity_evidence)).
(** One row per route, kind and value. *)
Definition same_evidence (t : Tenant) (route : string) (e : EvidenceRow) (p : Plane) (k : Tenant * string)
    (x : string * string) : bool :=
  bool_decide (k.1 = t) && bool_decide (x.1 = route)
  && from_option (λ v, bool_decide (v.(ev_kind) = e.(ev_kind)) && bool_decide (v.(ev_value_digest) = e.(ev_value_digest)))
       false (p.(inventory).(evidence_values) !! k).
Definition record_identity_evidence (t : Tenant) (id destination route : string) (e : EvidenceRow) : Txn Plane unit :=
  r ← fetch (λ p, p.(store).(topology).(printer_routes) !! (t, route)) NotFound;
  _ ← ensure (bool_decide (r.(rt_destination_id) = destination)) NotFound;
  existing ← query (λ p, find_row (same_evidence t route e p) p.(store).(topology).(identity_evidence));
  let key := from_option fst (t, id) existing in
  taken ← query (λ p, bool_decide (is_Some (p.(store).(topology).(identity_evidence) !! (t, id))));
  _ ← ensure (bool_decide (is_Some existing) || negb taken) (Database "destination_identity_evidence_pkey");
  _ ← execute (on_store (on_identity_evidence <[key := (route, destination)]>));
  _ ← execute (on_evidence_values <[key := e]>);
  if e.(ev_conflicts)
  then execute (on_store (on_physical_destinations (alter (set_confidence "conflict") (t, destination))))
  else mret ().

(** ** Acknowledgements, memberships and diagnostics *)

Definition acknowledge_projection (t : Tenant) (agent route : string) (inventory_revision capability_revision : N)
    (observed_at acknowledged_at : Z) : Txn Plane unit :=
  n ← pure_result (ok_or (i64_of_u64 inventory_revision) (InvalidData "inventory revision exceeds bigint"));
  m ← pure_result (ok_or (i64_of_u64 capability_revision) (InvalidData "capability revision exceeds bigint"));
  owner ← query (λ p, rt_agent_id <$> p.(store).(topology).(printer_routes) !! (t, route));
  _ ← ensure (bool_decide (owner = Some agent)) (Database "projection_acknowledgements_fkey");
  execute (on_projection_acknowledgements (partial_alter (λ o,
    match o with
    | Some x => if (x.(ak_inventory_revision) <=? n)%Z
                then Some {| ak_inventory_revision := n; ak_capability_revision := m; ak_observed_at := observed_at;
                             ak_acknowledged_at := acknowledged_at |}
                else Some x
    | None => Some {| ak_inventory_revision := n; ak_capability_revision := m; ak_observed_at := observed_at;
                      ak_acknowledged_at := acknowledged_at |}
    end) (t, agent, route))).
Definition upsert_site_membership (t : Tenant) (authority agent : string) : Tx unit :=
  active ← query (active_agent t agent);
  _ ← ensure active NotFound;
  execute (on_site_memberships <[(t, authority, agent) := false]>).
Definition store_node_diagnostic (t : Tenant) (agent request state_ report : string) : Txn Plane unit :=
  _ ← ensure (Z.of_nat (String.length report) <=? 16384)%Z (InvalidData "diagnostic report exceeds limit");
  row ← fetch (λ p, p.(inventory).(node_diagnostics) !! request) NotFound;
  _ ← ensure (bool_decide (row.(dg_tenant) = t) && bool_decide (row.(dg_agent_id) = agent)
              && (c.(sql_now) <? row.(dg_expires_at))%Z) NotFound;
  execute (on_node_diagnostics <[request := {| dg_tenant := row.(dg_tenant); dg_agent_id := row.(dg_agent_id);
    dg_state := state_; dg_report := Some report; dg_expires_at := row.(dg_expires_at) |}]>).

(** ** Observations *)

Definition observations_of (t : Tenant) (route : string) (p : Plane) : list (N * ObservationRow) :=
  (λ e : Tenant * string * N * ObservationRow, (e.1.2, e.2)) <$>
    select_rows (λ k _, bool_decide (k.1 = (t, route))) p.(inventory).(route_observations).
Definition newest {A} (l : list (N * A)) : option (N * A) :=
  foldl (λ m x, match m with
                | Some y => if (y.1 <? x.1)%N then Some x else m
                | None => Some x
                end) None l.
Definition latest_route_observation (t : Tenant) (route : string) (p : Plane) : option ObservationRow :=
  snd <$> newest (observations_of t route p).

Definition i32_max : N := 2147483647.
Definition counts_fit (o : ObservationRow) : bool :=
  forallb (λ n, n <=? i32_max)%N [o.(ob_total_jobs); o.(ob_connector_jobs); o.(ob_other_jobs); o.(ob_unknown_jobs);
                                  o.(ob_active_jobs); o.(ob_held_jobs); default 0%N o.(ob_estimated_busy_seconds)].
(** The constraints of [route_observations]. *)
Definition observation_checks (o : ObservationRow) : bool :=
  bool_decide (o.(ob_printer_state) ∈ ["unknown"; "idle"; "processing"; "stopped"; "unavailable"]%string)
  && bool_decide (o.(ob_privacy_level) ∈ ["counts_only"; "piqae_details"]%string)
  && (o.(ob_observed_at) <=? o.(ob_fresh_until))%Z && (length o.(ob_state_reasons) <=? 64)
  && (o.(ob_total_jobs) =? o.(ob_connector_jobs) + o.(ob_other_jobs))%N
  && (o.(ob_unknown_jobs) <=? o.(ob_other_jobs))%N
  && (o.(ob_active_jobs) <=? o.(ob_total_jobs))%N && (o.(ob_held_jobs) <=? o.(ob_total_jobs))%N.
Definition record_route_observation (t : Tenant) (route : string) (sequence : N) (o : ObservationRow) :
    Txn Plane unit :=
  _ ← fetch (λ p, p.(store).(topology).(printer_routes) !! (t, route)) NotFound;
  n ← pure_result (ok_or (i64_of_u64 sequence) (InvalidData "observation sequence exceeds bigint"));
  existing ← query (λ p, p.(inventory).(route_observations) !! (t, route, sequence));
  match existing with
  | Some x => ensure (bool_decide (x = o)) IdempotencyConflict
  | None =>
    latest ← query (λ p, from_option fst 0%N (newest (observations_of t route p)));
    _ ← ensure (latest <? sequence)%N ConcurrentStateChange;
    _ ← ensure (counts_fit o) (InvalidData "job count exceeds integer");
    _ ← ensure ((0 <? sequence)%N && observation_checks o) (Database "route_observations_check");
    execute (on_route_observations <[(t, route, sequence) := o]>)
  end.

Definition MAX_RUNTIME_OBSERVATIONS_PER_AGENT : nat := 64.
Definition runtime_of (t : Tenant) (agent : string) (p : Plane) : list (N * NodeRuntimeObservation) :=
  (λ e : Tenant * string * N * NodeRuntimeObservation, (e.1.2, e.2)) <$>
    select_rows (λ k _, bool_decide (k.1 = (t, agent))) p.(inventory).(runtime_observations).
Definition accepting_lifecycle (st : NodeAvailability) : bool :=
  bool_decide (st ∈ [NodeAvailable; Foreground; Background]).
(** The constraints of [node_runtime_observations]; one on a missing budget holds. *)
Definition runtime_checks (o : NodeRuntimeObservation) : bool :=
  (0 <? o.(nr_sequence))%N && (o.(nr_observed_at) <=? o.(nr_fresh_until))%Z
  && (o.(nr_fresh_until) <=? o.(nr_observed_at) + seconds 600)%Z && (length o.(nr_wake_mechanisms) <=? 8)
  && (negb (bool_decide (o.(nr_availability_class) = BackgroundOpportunistic)) || negb o.(nr_accepts_cloud_jobs)
      || from_option (λ b, 30000 <=? b)%N true o.(nr_execution_budget_ms))
  && (negb o.(nr_accepts_cloud_jobs) || accepting_lifecycle o.(nr_lifecycle_state))
  && (negb (bool_decide (o.(nr_availability_class) = ForegroundOnly)) || negb o.(nr_accepts_cloud_jobs)
      || bool_decide (o.(nr_lifecycle_state) = Foreground))
  && (negb (bool_decide (o.(nr_host_mode) = AttachedClient)) || negb o.(nr_accepts_cloud_jobs)).
Definition record_node_runtime_observation (t : Tenant) (agent : string) (o : NodeRuntimeObservation) :
    Txn Plane unit :=
  a ← fetch (λ p, p.(store).(topology).(agents) !! agent) NotFound;
  _ ← ensure (bool_decide (a.(ag_tenant) = t)) NotFound;
  _ ← pure_result (ok_or (i64_of_u64 o.(nr_sequence)) (InvalidData "runtime observation sequence exceeds bigint"));
  existing ← query (λ p, p.(inventory).(runtime_observations) !! (t, agent, o.(nr_sequence)));
  match existing with
  | Some x => ensure (bool_decide (x = o)) IdempotencyConflict
  | None =>
    latest ← query (λ p, from_option fst 0%N (newest (runtime_of t agent p)));
    _ ← ensure (latest <? o.(nr_sequence))%N ConcurrentStateChange;
    _ ← ensure (from_option (λ b, bool_decide (is_Some (i64_of_u64 b))) true o.(nr_execution_budget_ms))
          (InvalidData "execution budget exceeds bigint");
    _ ← ensure (runtime_checks o) (Database "node_runtime_observations_check");
    _ ← execute (on_runtime_observations <[(t, agent, o.(nr_sequence)) := o]>);
    kept ← query (λ p, take MAX_RUNTIME_OBSERVATIONS_PER_AGENT
             (sort_by (λ a b, b <=? a)%N ((runtime_of t agent p).*1)));
    execute (on_runtime_observations (filter (λ e, e.1.1 ≠ (t, agent) ∨ e.1.2 ∈ kept)))
  end.

(** ** Presence *)

Definition remove_printers (agent : string) (t : Tenant) : Store → Store :=
  on_printers (map_imap (λ k r,
    Some (if bool_decide (k.1 = t) && bool_decide (r.(pr_agent_id) = agent)
          then {| pr_agent_id := r.(pr_agent_id); pr_capabilities_revision := r.(pr_capabilities_revision); pr_profiles := r.(pr_profiles); pr_removed_at := Some c.(sql_now) |}
          else r))).
(** The row of the node's native queue keeps its identifier. *)
Definition upsert_printer (t : Tenant) (agent : string) (x : PrinterSnapshot) : Txn Plane unit :=
  revision ← pure_result (ok_or (i64_of_u64 x.(px_capability_revision)) (InvalidData "capability revision overflow"));
  existing ← query (λ p, find_row (λ k r, bool_decide (r.(pr_agent_id) = agent)
               && bool_decide (p.(inventory).(native_ids) !! k = Some x.(px_native_id))) p.(store).(topology).(printers));
  let key := from_option fst (t, x.(px_id)) existing in
  taken ← query (λ p, bool_decide (is_Some (p.(store).(topology).(printers) !! (t, x.(px_id)))));
  _ ← ensure (bool_decide (is_Some existing) || negb taken) (Database "printers_pkey");
  _ ← execute (on_store (on_printers <[key :=
        {| pr_agent_id := agent; pr_capabilities_revision := revision; pr_profiles := x.(px_profiles); pr_removed_at := None |}]>));
  execute (on_native_ids <[key := x.(px_native_id)]>).
Definition sync_agent_presence (t : Tenant) (agent : string) (reported : option (list PrinterSnapshot)) :
    Txn Plane unit :=
  active ← query (λ p, active_agent t agent p.(store));
  _ ← ensure active NotFound;
  _ ← execute (on_store (agent_seen t agent));
  match reported with
  | Some l =>
    _ ← execute (on_store (remove_printers agent t));
    _ ← for_each (upsert_printer t agent) l;
    mret ()
  | None => mret ()
  end.
End tables.

(** * Projection *)

(** HMAC-SHA-256 under a key, as bytes. *)
Class IdentityMac := hmac_sha256 : string → string → string.

(** The identifiers a request draws, the key of the deployment's evidence, and the rows
    another transaction holds. *)
Section projection.
Context `{CloudExternal} `{IdentityMac}.
Variable c : Clock.
Variable ulid : string → string.
Variable destination_identity_key : string.
Variable locked_hint : Tenant * string * string → bool.

Definition lowercase_digest (s : string) : bool :=
  (String.length s =? 64)
  && bytes_all (λ a, let n := N_of_ascii a in ((48 <=? n) && (n <=? 57) || (97 <=? n) && (n <=? 102))%N) s.
Definition zero_byte : string := String.String Ascii.zero String.EmptyString.
Definition tenant_evidence_digest (t : Tenant) (digest : string) : result AppError string :=
  if negb (lowercase_digest digest) then Err (AppInvalid "invalid_identity_evidence") else
  Ok ("hmac-sha256:" +:+ hex (hmac_sha256 destination_identity_key
        (t.1 +:+ zero_byte +:+ t.2 +:+ zero_byte +:+ digest)))%string.

Fixpoint collect {A B} (f : A → result AppError B) (l : list A) : result AppError (list B) :=
  match l with
  | [] => Ok []
  | a :: l => match f a with
              | Ok b => match collect f l with Ok bs => Ok (b :: bs) | Err e => Err e end
              | Err e => Err e
              end
  end.
Definition snapshot_evidence (t : Tenant) (x : PrinterRouteSnapshot) : result AppError (list EvidenceRow) :=
  collect (λ i, match tenant_evidence_digest t i.(pe_value_sha256) with
                | Ok d => Ok {| ev_kind := evidence_kind i.(pe_kind); ev_value_digest := d;
                                ev_strength := evidence_strength i.(pe_strength); ev_conflicts := false |}
                | Err e => Err e
                end) x.(sn_identity_evidence).

(** ** The destination of a new route *)

Definition strong_values (l : list EvidenceRow) : list (string * string) :=
  (λ e, (e.(ev_kind), e.(ev_value_digest))) <$> filter (λ e, evidence_is_strong e.(ev_strength) = true) l.
Definition has_match (strong stored : list (string * string)) : bool :=
  existsb (λ x, bool_decide (x ∈ stored)) strong.
Definition has_conflict (strong stored : list (string * string)) : bool :=
  existsb (λ x, existsb (λ y, bool_decide (y.1 = x.1) && negb (bool_decide (y.2 = x.2))) stored) strong.
(** The destination, or none for a new one, and whether the evidence contradicts itself. *)
Definition destination_for_new_route (t : Tenant) (evidence : list EvidenceRow) (p : Plane) : option string * bool :=
  let strong := strong_values evidence in
  if bool_decide (strong = []) then (None, false) else
  let judged := (λ e : string * DestinationRow, let stored := strong_values (list_identity_evidence t e.1 p) in
      (e.1, (has_match strong stored, has_conflict strong stored))) <$> list_destinations t p.(store) in
  if existsb (λ e, e.2.1 && e.2.2) judged then (None, true) else
  match fst <$> filter (λ e, e.2.1 = true) judged with
  | [] => (None, false)
  | [destination] => (Some destination, false)
  | _ => (None, true)
  end.

(** ** One printer *)

Definition existing_route (t : Tenant) (agent : string) (x : PrinterSnapshot) (n : PrinterRouteSnapshot) (p : Plane) :
    option (string * RouteRow) :=
  match get_route_by_local_key t agent n.(sn_local_route_key) p.(store) with
  | Some r => Some r
  | None => List.find (λ e, bool_decide (e.2.(rt_agent_id) = agent) && bool_decide (e.2.(rt_printer_id) = x.(px_id)))
              (list_all_routes t p.(store))
  end.

(** A known destination keeps its state, unless the evidence contradicts itself. *)
Definition touch_destination (t : Tenant) (id : string) (conflicts : bool) (n : PrinterRouteSnapshot) : Call unit :=
  found ← look (λ p, p.(store).(topology).(physical_destinations) !! (t, id));
  run storage_error (in_store (match found with
    | Some d => upsert_destination t id (if conflicts then "conflict" else d.(pd_identity_confidence))
                  (if conflicts then Attention else d.(pd_state)) (Z.to_N d.(pd_identity_revision))
    | None => upsert_destination t id
                (if conflicts then "conflict" else protocol_confidence n.(sn_identity_confidence))
                (if conflicts then Attention else Available) (N.max n.(sn_topology_revision) 1)
    end)).

Definition route_role (t : Tenant) (destination : string) (existing : option (string * RouteRow)) (p : Plane) : RouteRole :=
  match existing with
  | Some e => e.2.(rt_role)
  | None => if existsb (λ e, e.2.(rt_enabled) && bool_decide (e.2.(rt_role) = Primary)) (list_routes t destination p.(store))
            then Standby else Primary
  end.
Definition projected_route (agent destination : string) (role : RouteRole) (existing : option (string * RouteRow))
    (x : PrinterSnapshot) (n : PrinterRouteSnapshot) : RouteRow :=
  {| rt_destination_id := destination; rt_printer_id := x.(px_id); rt_agent_id := agent;
     rt_local_route_key := Some n.(sn_local_route_key); rt_state := stored_route_state x.(px_state);
     rt_role := role; rt_priority := from_option (λ e, e.2.(rt_priority)) 100%Z existing; rt_enabled := true;
     rt_retired_at := None |}.
Definition profile_revision (x : PrinterSnapshot) : N := foldr N.max 0%N (ps_revision <$> x.(px_profiles)).
Definition with_conflicts (conflicts : bool) (e : EvidenceRow) : EvidenceRow :=
  {| ev_kind := e.(ev_kind); ev_value_digest := e.(ev_value_digest); ev_strength := e.(ev_strength);
     ev_conflicts := conflicts |}.

(** The route's identifier at the server, and the revision that was projected. *)
Definition project_route (t : Tenant) (agent : string) (x : PrinterSnapshot) (n : PrinterRouteSnapshot) : Call string :=
  evidence ← (λ p, (p, snapshot_evidence t n) : Plane * result AppError (list EvidenceRow)) : Call (list EvidenceRow);
  existing ← look (existing_route t agent x n);
  place ← look (λ p, match existing with
                     | Some e => (Some e.2.(rt_destination_id), false)
                     | None => destination_for_new_route t evidence p
                     end);
  let key := n.(sn_local_route_key) in
  let destination := default ("pdst_" +:+ ulid ("destination " +:+ key))%string place.1 in
  let conflicts := place.2 in
  _ ← touch_destination t destination conflicts n;
  let route := from_option fst ("rte_" +:+ ulid ("route " +:+ key))%string existing in
  role ← look (route_role t destination existing);
  _ ← run storage_error (in_store (upsert_route t route (projected_route agent destination role existing x n)
        x.(px_capability_revision) (profile_revision x)));
  _ ← each (λ e : nat * EvidenceRow, run storage_error (record_identity_evidence t
        ("ide_" +:+ ulid ("evidence " +:+ pretty (N.of_nat e.1) +:+ " " +:+ key))%string destination route
        (with_conflicts conflicts e.2))) (imap pair evidence);
  _ ← run storage_error (acknowledge_projection t agent route n.(sn_inventory_revision) x.(px_capability_revision)
        n.(sn_observed_at) c.(utc_now));
  mret route.

(** What was projected so far: the routes of the node's keys, and the highest revision. *)
Record Projection := { pr_routes : gmap string string; pr_revision : option N }.
Fixpoint project_printers (t : Tenant) (agent : string) (l : list PrinterSnapshot) (done : Projection) : Call Projection :=
  match l with
  | [] => mret done
  | x :: l =>
    match x.(px_route) with
    | Some n =>
      if decide (n.(sn_topology_change) = Some Removed) then project_printers t agent l done else
      route ← project_route t agent x n;
      project_printers t agent l
        {| pr_routes := <[n.(sn_local_route_key) := route]> done.(pr_routes);
           pr_revision := Some (from_option (N.max n.(sn_inventory_revision)) n.(sn_inventory_revision) done.(pr_revision)) |}
    | None => project_printers t agent l done
    end
  end.

(** ** Removals and observations *)

(** The revisions of the route are left as they are. *)
Definition remove_route (t : Tenant) (agent : string) (x : RouteTopologyChange) : Call unit :=
  if decide (x.(tc_change) ≠ Removed) then mret () else
  found ← look (λ p, get_route_by_local_key t agent x.(tc_local_route_key) p.(store));
  match found with
  | Some (id, r) => run storage_error (in_store (upsert_route t id
      {| rt_destination_id := r.(rt_destination_id); rt_printer_id := r.(rt_printer_id); rt_agent_id := r.(rt_agent_id);
         rt_local_route_key := r.(rt_local_route_key); rt_state := RouteUnavailable; rt_role := r.(rt_role);
         rt_priority := r.(rt_priority); rt_enabled := false; rt_retired_at := r.(rt_retired_at) |} 0 0))
  | None => mret ()
  end.

Definition u32_max : N := 4294967295.
Definition empty_queue : PrivacySafeQueueObservation :=
  {| qo_total_jobs := 0; qo_active_jobs := 0; qo_held_jobs := 0; qo_connector_jobs := 0; qo_other_jobs := 0;
     qo_unknown_jobs := 0 |}.
Definition valid_reasons (l : list string) : bool :=
  (length l <=? 64)
  && forallb (λ r, (String.length r <=? 255) && bytes_all (λ a, (N_of_ascii a <? 128)%N) r) l.
Definition valid_observation (o : RouteObservation) : bool :=
  let q := default empty_queue o.(ro_queue) in
  negb (o.(ro_sequence) =? 0)%N && (o.(ro_observed_at) <=? c.(utc_now) + seconds 300)%Z
  && (q.(qo_active_jobs) <=? q.(qo_total_jobs))%N && (q.(qo_held_jobs) <=? q.(qo_total_jobs))%N
  && (q.(qo_unknown_jobs) <=? q.(qo_other_jobs))%N
  && (q.(qo_connector_jobs) + q.(qo_other_jobs) <=? u32_max)%N
  && (q.(qo_connector_jobs) + q.(qo_other_jobs) =? q.(qo_total_jobs))%N.
Definition observation_row (o : RouteObservation) : ObservationRow :=
  let q := default empty_queue o.(ro_queue) in
  {| ob_printer_state := stored_observation_state o.(ro_state); ob_accepting_jobs := Some o.(ro_accepts_jobs);
     ob_state_reasons := o.(ro_state_reasons); ob_total_jobs := q.(qo_total_jobs);
     ob_connector_jobs := q.(qo_connector_jobs); ob_other_jobs := q.(qo_other_jobs);
     ob_unknown_jobs := q.(qo_unknown_jobs); ob_active_jobs := q.(qo_active_jobs); ob_held_jobs := q.(qo_held_jobs);
     ob_estimated_busy_seconds := None;
     ob_privacy_level := if bool_decide (is_Some o.(ro_queue)) then "counts_only" else "not_reported";
     ob_profile_observed_at := o.(ro_profile_observed_at); ob_stock_observed_at := o.(ro_stock_observed_at);
     ob_observed_at := o.(ro_observed_at); ob_fresh_until := o.(ro_observed_at) + seconds 90 |}.
Definition observe_route (t : Tenant) (agent : string) (known : gmap string string) (o : RouteObservation) : Call unit :=
  found ← look (λ p, match known !! o.(ro_local_route_key) with
                     | Some id => (λ _, id) <$> get_route t id p.(store)
                     | None => fst <$> get_route_by_local_key t agent o.(ro_local_route_key) p.(store)
                     end);
  match found with
  | None => mret ()
  | Some route =>
    _ ← demand (valid_reasons o.(ro_state_reasons)) (AppInvalid "invalid_route_observation");
    _ ← demand (valid_observation o) (AppInvalid "invalid_route_observation");
    run storage_error (record_route_observation t route o.(ro_sequence) (observation_row o))
  end.

Definition project_agent_topology (t : Tenant) (agent : string) (printers_ : option (list PrinterSnapshot))
    (changes : list RouteTopologyChange) (seen : list RouteObservation) : Call (option N) :=
  _ ← run storage_error (in_store (upsert_site_membership t "sched_primary" agent));
  done ← project_printers t agent (default [] printers_) {| pr_routes := ∅; pr_revision := None |};
  _ ← each (remove_route t agent) changes;
  _ ← each (observe_route t agent done.(pr_routes)) seen;
  mret done.(pr_revision).

(** * Admission *)

Record AgentWakeHint := { aw_id : string; aw_requested_at : Z; aw_expires_at : Z }.
Record RuntimeAdmission := { eligible_for_offers : bool; wake_hints_observed : list AgentWakeHint }.

Definition valid_runtime (o : NodeRuntimeObservation) : bool :=
  negb (o.(nr_sequence) =? 0)%N && (o.(nr_observed_at) <=? c.(utc_now) + seconds 300)%Z
  && (o.(nr_observed_at) <=? o.(nr_fresh_until))%Z && (o.(nr_fresh_until) <=? o.(nr_observed_at) + seconds 600)%Z
  && (length o.(nr_wake_mechanisms) <=? 8) && bool_decide (NoDup o.(nr_wake_mechanisms)).
Definition safe_for_cloud_offers (o : NodeRuntimeObservation) : bool :=
  let accepts := o.(nr_accepts_cloud_jobs) in
  (negb (bool_decide (o.(nr_availability_class) = BackgroundOpportunistic)) || negb accepts
   || from_option (λ b, 30000 <=? b)%N false o.(nr_execution_budget_ms))
  && (negb (bool_decide (o.(nr_host_mode) = AttachedClient)) || negb accepts)
  && (negb accepts || accepting_lifecycle o.(nr_lifecycle_state))
  && (negb accepts || negb (bool_decide (o.(nr_availability_class) = ForegroundOnly))
      || bool_decide (o.(nr_lifecycle_state) = Foreground)).
Definition observes_hints (o : NodeRuntimeObservation) : bool :=
  negb (bool_decide (o.(nr_lifecycle_state) ∈ [Suspending; Suspended; NodeUnavailable])).
(** A node without a runtime report is admitted by its queue. *)
Definition record_runtime_availability (t : Tenant) (agent : string) (runtime : option NodeRuntimeObservation)
    (accepts_jobs : bool) : Call RuntimeAdmission :=
  eligible ← (match runtime with
    | Some o =>
      _ ← demand (valid_runtime o) (AppInvalid "invalid_runtime_observation");
      _ ← run storage_error (record_node_runtime_observation t agent o);
      mret (safe_for_cloud_offers o && o.(nr_accepts_cloud_jobs) && (c.(utc_now) <=? o.(nr_fresh_until))%Z
            && accepting_lifecycle o.(nr_lifecycle_state))
    | None => mret accepts_jobs
    end);
  hints ← (if from_option observes_hints true runtime
           then run storage_error (in_store (observe_pending_node_wake_hints locked_hint t agent c.(utc_now) 32))
           else mret []);
  mret {| eligible_for_offers := eligible;
          wake_hints_observed := (λ h, {| aw_id := h.(wh_id); aw_requested_at := h.(wh_requested_at);
                                          aw_expires_at := h.(wh_expires_at) |}) <$> hints |}.

(** * Routes that can print now *)

Definition accepts_now (o : ObservationRow) : bool :=
  (c.(utc_now) <=? o.(ob_fresh_until))%Z && bool_decide (o.(ob_accepting_jobs) = Some true)
  && bool_decide (o.(ob_printer_state) ∈ ["idle"; "processing"]%string).
Definition rank : Type := N * Z * N * N * string.
Definition rank_of (e : string * RouteRow) (o : ObservationRow) : rank :=
  (if decide (e.2.(rt_role) = Primary) then 0%N else 1%N, e.2.(rt_priority), o.(ob_total_jobs),
   default u32_max o.(ob_estimated_busy_seconds), e.1).
Definition ready_le (a b : rank) : bool :=
  let '(r1, p1, j1, b1, i1) := a in
  let '(r2, p2, j2, b2, i2) := b in
  if negb (r1 =? r2)%N then (r1 <? r2)%N else
  if negb (p1 =? p2)%Z then (p1 <? p2)%Z else
  if negb (j1 =? j2)%N then (j1 <? j2)%N else
  if negb (b1 =? b2)%N then (b1 <? b2)%N else String.leb i1 i2.
Definition ready_rank (t : Tenant) (p : Plane) (e : string * RouteRow) : option (rank * (string * RouteRow)) :=
  if e.2.(rt_enabled) && bool_decide (e.2.(rt_state) = RouteAvailable)
  then match latest_route_observation t e.1 p with
       | Some o => if accepts_now o then Some (rank_of e o, e) else None
       | None => None
       end
  else None.
Definition ranked_ready_routes (t : Tenant) (destination : string) (p : Plane) : list (string * RouteRow) :=
  snd <$> sort_by (λ a b, ready_le a.1 b.1) (omap (ready_rank t p) (list_routes t destination p.(store))).
End projection.
