(* ===== verification/ControlDeliveries.v ===== *)
(** Deliveries as the control plane drives them
    (crates/control-plane/src/destination_topology.rs): the reservation of a route for a
    leased job, the evidence of a native handoff that a node sends, its reports after the
    spooler accepted a job, and what follows when a node acknowledged the resolution of an
    uncertain delivery.

    Identifiers are parsed before: a job, route or node is named by its text. *)

From S2P Require Import Prelude Domain CloudStore CloudWake CloudJobs CloudRouting ControlPlane ControlInventory.

(** * Protocol (crates/protocol/src/agent.rs) *)

Record CloudRouteReservation := {
  cr_route_id : string;
  cr_local_route_key : string;
  cr_reservation_id : string;
  cr_generation : N;
  cr_fencing_token : string;
  cr_lease_expires_at : Z
}.
Inductive NativeHandoffOutcome := HandoffAccepted | RejectedBeforeHandoff | Ambiguous.
Record NativeHandoffEvidence := {
  nh_sequence : N;
  nh_route_id : option string;
  nh_local_route_key : string;
  nh_job_id : string;
  nh_reservation_id : string;
  nh_fencing_generation : N;
  nh_fencing_token : string;
  nh_outcome : NativeHandoffOutcome
}.

Inductive JobRouteReservation :=
| ReservationBusy
| ProjectionRequired (destination route : option string)
| Reserved (r : CloudRouteReservation).

(** * External code

    The JSON text of the request that makes a reprint. *)
Class ReprintJson := reprint_request : string → string → string.

Section deliveries.
Context `{CloudExternal} `{Outbox} `{ReprintJson}.
Variable c : Clock.
Variable ulid : string → string.
Variable uuid : string → string.
Variable fencing_token : string → string.
Variable billing_enabled : bool.

(** * Reservation *)

(** The route of the node that the job names; else the only enabled route of its printer. *)
Definition job_route (t : Tenant) (j : Job) (s : Store) : option (string * RouteRow) :=
  let routes := list_all_routes t s in
  let prints (e : string * RouteRow) := e.2.(rt_enabled) && bool_decide (e.2.(rt_printer_id) = j.(j_printer_id)) in
  match List.find (λ e : string * RouteRow, prints e
          && bool_decide (e.2.(rt_agent_id) = default ""%string (j.(j_metadata) !! "piqae.route_agent_id"))) routes with
  | Some e => Some e
  | None => match List.filter prints routes with [e] => Some e | _ => None end
  end.
Definition reserve_job_route (t : Tenant) (j : Job) (lease_until : Z) : Call JobRouteReservation :=
  route ← look (λ p, job_route t j p.(store));
  match route with
  | None => mret (ProjectionRequired (j.(j_metadata) !! "piqae.destination_id") (j.(j_metadata) !! "piqae.route_id"))
  | Some (id, r) =>
    match r.(rt_local_route_key) with
    | None => mret (ProjectionRequired (Some r.(rt_destination_id)) (Some id))
    | Some key =>
      seen ← look (latest_route_observation t id);
      if negb (from_option (accepts_now c) false seen) then mret ReservationBusy else
      destination ← run storage_error (fetch (λ p, p.(store).(topology).(physical_destinations) !! (t, r.(rt_destination_id)))
                                         NotFound);
      if negb (bool_decide (destination.(pd_state) = Available)) then mret ReservationBusy else
      let reservation := uuid ("reservation " +:+ j.(j_id)) in
      let token := fencing_token j.(j_id) in
      started ← try (in_store (begin_delivery_attempt c t
        {| nd_attempt_id := "datt_" +:+ ulid ("attempt " +:+ j.(j_id)); nd_reservation_id := reservation;
           nd_job_id := j.(j_id); nd_destination_id := r.(rt_destination_id); nd_route_id := id;
           nd_lease_until := lease_until |} token));
      match started with
      | Ok (a, rs) => mret (Reserved {| cr_route_id := id; cr_local_route_key := key; cr_reservation_id := reservation;
          cr_generation := Z.to_N a.(at_generation); cr_fencing_token := token;
          cr_lease_expires_at := rs.(rs_lease_until) |})
      | Err ConcurrentStateChange => mret ReservationBusy
      | Err e => fail (storage_error e)
      end
    end
  end.

(** * Evidence of a handoff *)

Definition handoff_state (o : NativeHandoffOutcome) : DeliveryAttemptState :=
  match o with
  | HandoffAccepted => Attempt.AcceptedBySpooler
  | RejectedBeforeHandoff => Attempt.Failed
  | Ambiguous => Attempt.DeliveryUncertain
  end.
Definition get_delivery_attempt_by_reservation (t : Tenant) (reservation : string) (s : Store) : option AttemptRow :=
  r ← s.(route_reservations) !! (t, reservation); s.(delivery_attempts) !! (t, r.(rs_attempt_id)).
(** [attempt] moves on when it is in a given state. *)
Definition advance_from (t : Tenant) (i : NativeHandoffEvidence) (from next : DeliveryAttemptState) (a : AttemptRow) :
    Call AttemptRow :=
  if decide (a.(at_state) = from)
  then run storage_error (in_store (transition_delivery_attempt c t a.(at_id) i.(nh_fencing_generation)
         i.(nh_fencing_token) next))
  else mret a.
(** A read and a write of the destination's row. *)
Definition demand_attention (t : Tenant) (destination : string) : Call unit :=
  d ← run storage_error (fetch (λ p, p.(store).(topology).(physical_destinations) !! (t, destination)) NotFound);
  run storage_error (in_store (upsert_destination t destination d.(pd_identity_confidence) Attention
    (Z.to_N d.(pd_identity_revision)))).
Definition ingest_handoff (t : Tenant) (agent : string) (i : NativeHandoffEvidence) : Call N :=
  match i.(nh_route_id) with
  | None => fail (AppConflict "route_fence_required")
  | Some route =>
    r ← run storage_error (fetch (λ p, get_route t route p.(store)) NotFound);
    _ ← demand (bool_decide (r.(rt_agent_id) = agent)
                && bool_decide (r.(rt_local_route_key) = Some i.(nh_local_route_key))) (AppConflict "stale_route_fence");
    a ← run storage_error (fetch (λ p, get_delivery_attempt_by_reservation t i.(nh_reservation_id) p.(store)) NotFound);
    _ ← demand (bool_decide (a.(at_job_id) = i.(nh_job_id)) && bool_decide (a.(at_route_id) = route)
                && bool_decide (a.(at_generation) = Z.of_N i.(nh_fencing_generation))) (AppConflict "stale_route_fence");
    a ← advance_from t i Attempt.QueuedLocal Attempt.HandingToSpooler a;
    let next := handoff_state i.(nh_outcome) in
    a ← advance_from t i Attempt.HandingToSpooler next a;
    _ ← (if bool_decide (next = Attempt.DeliveryUncertain) && bool_decide (a.(at_state) = next)
         then demand_attention t a.(at_destination_id) else mret ());
    _ ← publish t "attempt.updated" (OfAttempt a);
    mret i.(nh_sequence)
  end.
Fixpoint strictly_ordered (l : list N) : bool :=
  match l with
  | a :: (b :: _) as l => (a <? b)%N && strictly_ordered l
  | _ => true
  end.
(** The sequence that is acknowledged: the last one. *)
Definition ingest_native_handoffs (t : Tenant) (agent : string) (l : list NativeHandoffEvidence) : Call (option N) :=
  _ ← demand ((Z.of_nat (length l) <=? 1000)%Z && strictly_ordered (nh_sequence <$> l))
        (AppInvalid "invalid_handoff_evidence");
  done ← each (ingest_handoff t agent) l;
  mret (last done).

(** * Reports after the spooler *)

Definition reported_attempt_state (st : JobState) : option DeliveryAttemptState :=
  match st with
  | Spooling | Printing | Blocked => Some Attempt.PrintingReported
  | CompletedReported => Some Attempt.CompletedReported
  | FailedTerminal => Some Attempt.Failed
  | Expired => Some Attempt.Cancelled
  | Cancelled | DeliveryUncertain => Some Attempt.DeliveryUncertain
  | _ => None
  end.
Definition already_projected (next now : DeliveryAttemptState) : bool :=
  match next with
  | Attempt.PrintingReported => bool_decide (now ∈ [Attempt.PrintingReported; Attempt.CompletedReported])
  | Attempt.CompletedReported | Attempt.Failed | Attempt.DeliveryUncertain => bool_decide (now = next)
  | _ => false
  end.
Definition settled (now : DeliveryAttemptState) : bool :=
  bool_decide (now ∈ [Attempt.CompletedReported; Attempt.Failed; Attempt.DeliveryUncertain; Attempt.Cancelled;
                      Attempt.Superseded]).
Definition reconcile_post_spooler_event (t : Tenant) (agent : string) (e : JobEvent) : Call (option AttemptRow) :=
  match reported_attempt_state e.(je_state) with
  | None => mret None
  | Some next =>
    current ← run storage_error (fetch (λ p, latest_attempt t (of_job e.(je_job_id)) p.(store)) NotFound);
    route ← run storage_error (fetch (λ p, get_route t current.(at_route_id) p.(store)) NotFound);
    _ ← demand (bool_decide (route.(rt_agent_id) = agent)) (AppConflict "stale_route_event");
    if already_projected next current.(at_state) || settled current.(at_state) then mret (Some current) else
    a ← run storage_error (in_store
      (if decide (next = Attempt.DeliveryUncertain) then mark_post_spooler_attempt_uncertain c t e.(je_job_id)
       else transition_post_spooler_attempt c t e.(je_job_id) agent current.(at_route_id) next));
    _ ← publish t "attempt.updated" (OfAttempt a);
    _ ← (if decide (a.(at_state) = Attempt.DeliveryUncertain)
         then publish t "destination.updated" (OfDestination a.(at_destination_id)) else mret ());
    mret (Some a)
  end.

(** * Reprints *)

Definition get_job (t : Tenant) (id : string) (s : Store) : option Job := job_from_row <$> job_of t id s.
Definition validate_reprintable_job (j : Job) : Call unit :=
  _ ← demand (c.(utc_now) <? j.(j_expires_at))%Z (AppConflict "reprint_content_expired");
  match j.(j_content) with
  | Base64 _ => mret ()
  | Upload upload =>
    u ← run repository_error (fetch (λ p, match p.(store).(topology).(uploads) !! upload with
                                          | Some u => if decide (u.(up_tenant) = j.(j_tenant)) then Some u else None
                                          | None => None
                                          end) NotFound);
    demand u.(up_complete) (AppConflict "reprint_content_unavailable")
  | EncryptedUpload _ _ => fail (AppConflict "encrypted_reprint_requires_new_envelope")
  | Uri _ _ => fail (AppConflict "uri_reprint_requires_new_job")
  end.

Definition replacement_metadata (m : gmap string string) (id : string) (r : ResolutionRow) : gmap string string :=
  <["piqae.reprint_authorization_request_id" := r.(rn_request_id)]>
  (<["piqae.uncertainty_resolution_id" := id]>
  (<["piqae.reprint_of" := r.(rn_job_id)]>
  (filter (λ e, forallb (λ x, negb (String.prefix x e.1))
     ["piqae.delivery_"; "piqae.uncertainty_"; "piqae.attempt_"; "piqae.reprint_"; "spool.delivery_"]%string = true) m))).
(** [chars().take(n)]: bytes that continue a character come with it. *)
Fixpoint take_chars (n : nat) (s : string) : string :=
  match s with
  | String.EmptyString => String.EmptyString
  | String.String a s =>
    if ((128 <=? N_of_ascii a) && (N_of_ascii a <? 192))%N then String.String a (take_chars n s)
    else match n with 0 => String.EmptyString | S n => String.String a (take_chars n s) end
  end.
Definition replacement_job (t : Tenant) (j : Job) (id : string) (r : ResolutionRow) : Job :=
  let d := j.(j_details) in
  {| j_id := ulid ("reprint " +:+ id); j_tenant := t; j_printer_id := j.(j_printer_id);
     j_details := {| title := take_chars 180 ("Reprint: " +:+ d.(title)); source := d.(source);
                     content_kind := d.(content_kind); options := d.(options); deliveries := d.(deliveries) |};
     j_content := j.(j_content); j_metadata := replacement_metadata j.(j_metadata) id r; j_state := Registered;
     j_created_at := c.(utc_now); j_expires_at := c.(utc_now) + seconds 3600; j_delivery_uncertain_since := None |}.

(** The transition of the repository: the next event of the job. *)
Definition transition_job (t : Tenant) (id : string) (next : JobState) (message : string) : Call Job :=
  sequence ← run repository_error (r ← fetch (λ p, job_of t id p.(store)) NotFound;
               pure_result (ok_or (u64_of_i64 r.(jr_life).(state_sequence)) (InvalidData "negative sequence")));
  run repository_error (in_store (append_event c t (server_event c id (sequence + 1) next None message None))).

Definition create_authorized_reprint (t : Tenant) (id : string) (r : ResolutionRow) : Call (option Job) :=
  if negb (bool_decide (r.(rn_resolution) = "reprint_authorized"%string)) then mret None else
  original ← run repository_error (fetch (λ p, get_job t r.(rn_job_id) p.(store)) NotFound);
  _ ← validate_reprintable_job original;
  a ← run storage_error (fetch (λ p, latest_attempt t (of_job r.(rn_job_id)) p.(store)) NotFound);
  route ← run storage_error (fetch (λ p, get_route t a.(at_route_id) p.(store)) NotFound);
  let key := "uncertainty-reprint-" +:+ String.substring 0 32 (hex (sha256 r.(rn_request_id))) in
  made ← run repository_error (in_store (create_cloud_job c (replacement_job t original id r) route.(rt_agent_id)
           (Some key) (reprint_request r.(rn_job_id) r.(rn_request_id)) billing_enabled));
  let j := match made with Created j | Existing j => j end in
  j ← (if decide (j.(j_state) = Registered)
       then transition_job t j.(j_id) WaitingForAgent "Explicit reprint authorized after uncertain delivery"
       else mret j);
  _ ← publish t "job.updated" (OfJob j);
  mret (Some j).

Definition finalize_acknowledged_uncertainty (t : Tenant) (agent : string) : Call unit :=
  resolutions_ ← operation storage_error (finalize_acknowledged_uncertainty_resolutions c
                   (λ q, ulid ("resolution " +:+ q)) t agent 100);
  _ ← each (λ e : string * ResolutionRow,
        replacement ← create_authorized_reprint t e.1 e.2;
        let data := OfResolution e.2.(rn_job_id) e.2.(rn_destination_id) e.2.(rn_request_id) (j_id <$> replacement) in
        _ ← publish t "attempt.updated" data;
        publish t "destination.updated" data) resolutions_;
  mret ().
End deliveries.
