(* ===== verification/ControlOffers.v ===== *)
(** What a node can print, and the content of an offer (crates/control-plane/src/api.rs):
    the capabilities a node reports and their limits, whether a rendered document or a
    printer-native job fits them, and the content descriptor of a job, or why there is none
    yet or never will be.

    The documents of a tenant (documents.rs) and the media checks of routing.rs are behind
    an interface: they answer for a job from tables that are not modelled. *)

From S2P Require Import Prelude Domain CloudStore CloudJobs ControlPlane.

(** * Capabilities (crates/protocol/src/agent.rs) *)

Record PrintPacketLimits := {
  pl_max_template_bytes : N;
  pl_max_input_bytes : N;
  pl_max_output_bytes : N;
  pl_max_pages : N;
  pl_max_resource_count : N;
  pl_max_resource_bytes : N;
  pl_max_total_resource_bytes : N
}.
Inductive PrintPacketOutputProfile :=
| PdfProfile (id media_type : string)
| PrinterNative (id media_type language_profile_id : string).
Record PrinterNativeLanguageProfile := {
  lp_id : string;
  lp_language : string;
  lp_language_version : string;
  lp_profile_version : string;
  lp_media_type : string;
  lp_driver_fingerprint_sha256 : string;
  lp_support_pack_digest_sha256 : string;
  lp_printer_ids : list string
}.
Record PrintPacketCapabilitiesV2 := {
  pp_negotiation_version : N;
  pp_supported_packet_versions : list string;
  pp_feature_ids : list string;
  pp_conformance_profiles : list string;
  pp_output_profiles : list PrintPacketOutputProfile;
  pp_deterministic : bool;
  pp_limits : PrintPacketLimits;
  pp_resource_types : list string;
  pp_native_language_profiles : list PrinterNativeLanguageProfile;
  pp_implementation_version : string
}.
Record DocumentRenderCapabilities := {
  dr_renderer_abi : option string;
  dr_resource_abi : option string;
  dr_font_rendering : bool;
  dr_image_media_types : list string;
  dr_font_media_types : list string;
  dr_cached_resource_digests : list string;
  dr_print_packet : option PrintPacketCapabilitiesV2
}.

Record PrintPacketResourceDescriptor := { rx_digest : string; rx_media_type : string; rx_byte_length : N }.
(** The specification and the input are JSON texts. *)
Record PrintPacketNodeRender := {
  rd_negotiation_version : N;
  rd_packet_version : string;
  rd_required_feature_ids : list string;
  rd_conformance_profile : string;
  rd_output_profile : string;
  rd_renderer_abi : string;
  rd_resource_abi : string;
  rd_specification : string;
  rd_input : string;
  rd_resources : list PrintPacketResourceDescriptor;
  rd_expected_pdf_bytes : N;
  rd_expected_page_count : N
}.
Inductive PrintPacketRenderPolicy := Automatic | CloudOnly | PreferNode | RequireNode.
#[export] Instance PrintPacketRenderPolicy_eq_dec : EqDecision PrintPacketRenderPolicy.
Proof. solve_decision. Defined.

Inductive ContentDescriptor :=
| Download (url sha256_ : string) (bytes : N)
| EncryptedDownload (url sha256_ : string) (bytes : N) (manifest : EncryptedContentManifest)
| InlineBase64 (data sha256_ : string) (bytes : N)
| UriContent (uri : string) (authentication : option UriAuthentication)
| PrintPacket (policy : PrintPacketRenderPolicy) (render : PrintPacketNodeRender) (fallback : ContentDescriptor)
    (fallback_allowed : bool) (decision_reason : string).

(** * Validation *)

Definition is_ascii (s : string) : bool := bytes_all (λ a, (N_of_ascii a <? 128)%N) s.
Definition short_ascii (limit : nat) (s : string) : bool := (String.length s <=? limit) && is_ascii s.
Definition is_lower (a : ascii) : bool := let n := N_of_ascii a in ((97 <=? n) && (n <=? 122))%N.
Definition is_digit (a : ascii) : bool := let n := N_of_ascii a in ((48 <=? n) && (n <=? 57))%N.
Definition one_of (l : list N) (a : ascii) : bool := bool_decide (N_of_ascii a ∈ l).
Definition valid_text (o : option string) : bool :=
  from_option (λ v, negb (bool_decide (v = ""%string)) && short_ascii 128 v) true o.
Definition valid_media (l : list string) : bool := (length l <=? 16) && forallb (short_ascii 64) l.
(** A lowercase identifier, with dots, underscores and hyphens, and slashes if they may be,
    after the first letter. *)
Definition valid_id (slash : bool) (v : string) : bool :=
  (String.length v <=? 128)
  && match v with
     | String.EmptyString => false
     | String.String a rest =>
       is_lower a && bytes_all (λ b, is_lower b || is_digit b || one_of [46; 95; 45]%N b || slash && one_of [47]%N b) rest
     end.
Definition valid_packet_version (v : string) : bool :=
  match Domain.strip_prefix "printpacket/v" v with
  | Some (String.String a rest) =>
    let n := N_of_ascii a in ((49 <=? n) && (n <=? 57))%N && bytes_all is_digit rest
  | _ => false
  end.
Definition valid_sha256 (v : string) : bool :=
  (String.length v =? 64) && bytes_all (λ a, is_digit a || (let n := N_of_ascii a in (97 <=? n) && (n <=? 102))%N) v.
Fixpoint split_once (a : ascii) (s : string) : option (string * string) :=
  match s with
  | String.EmptyString => None
  | String.String b s => if Ascii.eqb a b then Some (String.EmptyString, s)
                         else (λ e, (String.String b e.1, e.2)) <$> split_once a s
  end.
Definition slash : ascii := Ascii.ascii_of_N 47.
Definition valid_media_type (v : string) : bool :=
  match split_once slash v with
  | Some (kind, subtype) =>
    negb (bool_decide (kind = ""%string)) && negb (bool_decide (subtype = ""%string)) && (String.length v <=? 64)
    && bytes_all (λ b, is_lower b || is_digit b || one_of [47; 46; 43; 45]%N b) v
  | None => false
  end.
Definition unique (l : list string) : bool := bool_decide (NoDup l).
Definition between (low n high : N) : bool := ((low <=? n) && (n <=? high))%N.
Definition has_between {A} (low high : nat) (l : list A) : bool := (low <=? length l) && (length l <=? high).

Definition output_id (o : PrintPacketOutputProfile) : string :=
  match o with PdfProfile id _ | PrinterNative id _ _ => id end.
Definition valid_output (languages : list string) (o : PrintPacketOutputProfile) : bool :=
  match o with
  | PdfProfile id media => valid_id true id && bool_decide (media = "application/pdf"%string)
  | PrinterNative id media language =>
    valid_id true id && valid_media_type media && valid_id true language && bool_decide (language ∈ languages)
  end.
Definition valid_limits (l : PrintPacketLimits) : bool :=
  between 1 l.(pl_max_template_bytes) 52428800 && between 1 l.(pl_max_input_bytes) 52428800
  && between 1 l.(pl_max_output_bytes) 524288000 && between 1 l.(pl_max_pages) 100000
  && (l.(pl_max_resource_count) <=? 1000)%N && between 1 l.(pl_max_resource_bytes) 52428800
  && between 1 l.(pl_max_total_resource_bytes) 524288000
  && (l.(pl_max_resource_bytes) <=? l.(pl_max_total_resource_bytes))%N.
Definition valid_version (limit : nat) (v : string) : bool :=
  negb (bool_decide (v = ""%string)) && short_ascii limit v.
Definition valid_language (x : PrinterNativeLanguageProfile) : bool :=
  valid_id true x.(lp_id) && valid_id false x.(lp_language) && valid_version 64 x.(lp_language_version)
  && valid_version 64 x.(lp_profile_version) && valid_media_type x.(lp_media_type)
  && valid_sha256 x.(lp_driver_fingerprint_sha256) && valid_sha256 x.(lp_support_pack_digest_sha256)
  && has_between 1 256 x.(lp_printer_ids) && unique x.(lp_printer_ids)
  && forallb (λ id, valid_version 128 id && String.prefix "ptr_" id) x.(lp_printer_ids).
Definition language_bindings (p : PrintPacketCapabilitiesV2) : list (string * string) :=
  x ← p.(pp_native_language_profiles); (λ printer, (x.(lp_id), printer)) <$> x.(lp_printer_ids).
Definition valid_packet (p : PrintPacketCapabilitiesV2) : bool :=
  (p.(pp_negotiation_version) =? 2)%N && has_between 1 16 p.(pp_supported_packet_versions)
  && unique p.(pp_supported_packet_versions) && forallb valid_packet_version p.(pp_supported_packet_versions)
  && has_between 0 256 p.(pp_feature_ids) && unique p.(pp_feature_ids) && forallb (valid_id false) p.(pp_feature_ids)
  && has_between 0 32 p.(pp_conformance_profiles) && unique p.(pp_conformance_profiles)
  && forallb (valid_id true) p.(pp_conformance_profiles)
  && has_between 1 32 p.(pp_output_profiles) && unique (output_id <$> p.(pp_output_profiles))
  && forallb (valid_output (lp_id <$> p.(pp_native_language_profiles))) p.(pp_output_profiles)
  && valid_limits p.(pp_limits)
  && has_between 0 32 p.(pp_resource_types) && unique p.(pp_resource_types)
  && forallb (λ m, bool_decide (m = "image/jpeg"%string)) p.(pp_resource_types)
  && has_between 0 32 p.(pp_native_language_profiles) && bool_decide (NoDup (language_bindings p))
  && forallb valid_language p.(pp_native_language_profiles) && valid_version 128 p.(pp_implementation_version).
Definition validate_document_render_capabilities (d : DocumentRenderCapabilities) : result AppError unit :=
  if valid_text d.(dr_renderer_abi) && valid_text d.(dr_resource_abi) && valid_media d.(dr_image_media_types)
     && forallb (λ m, bool_decide (m = "image/jpeg"%string)) d.(dr_image_media_types)
     && bool_decide (length d.(dr_font_media_types) = 0) && negb d.(dr_font_rendering)
     && (length d.(dr_cached_resource_digests) <=? 256) && forallb valid_sha256 d.(dr_cached_resource_digests)
     && from_option valid_packet true d.(dr_print_packet)
  then Ok () else Err (AppInvalid "invalid_document_render_capabilities").

(** * Capability checks *)

Definition text_bytes (s : string) : N := N.of_nat (String.length s).
Definition is_pdf_output (id : string) (o : PrintPacketOutputProfile) : bool :=
  match o with
  | PdfProfile i media => bool_decide (i = id) && bool_decide (media = "application/pdf"%string)
  | PrinterNative _ _ _ => false
  end.
Definition resource_fits (d : DocumentRenderCapabilities) (p : PrintPacketCapabilitiesV2) (x : PrintPacketResourceDescriptor) : bool :=
  (x.(rx_byte_length) <=? p.(pp_limits).(pl_max_resource_bytes))%N
  && bool_decide (x.(rx_media_type) ∈ p.(pp_resource_types)) && bool_decide (x.(rx_media_type) ∈ d.(dr_image_media_types)).
Definition within_limits (l : PrintPacketLimits) (r : PrintPacketNodeRender) : bool :=
  (text_bytes r.(rd_specification) <=? l.(pl_max_template_bytes))%N && (text_bytes r.(rd_input) <=? l.(pl_max_input_bytes))%N
  && (r.(rd_expected_pdf_bytes) <=? l.(pl_max_output_bytes))%N && (0 <? r.(rd_expected_page_count))%N
  && (r.(rd_expected_page_count) <=? l.(pl_max_pages))%N && (N.of_nat (length r.(rd_resources)) <=? l.(pl_max_resource_count))%N
  && (foldl (λ n x, u64_saturating_add n x.(rx_byte_length)) 0%N r.(rd_resources) <=? l.(pl_max_total_resource_bytes))%N.
Definition supports_print_packet_offer (d : DocumentRenderCapabilities) (r : PrintPacketNodeRender) : bool :=
  match d.(dr_print_packet) with
  | None => false
  | Some p =>
    (r.(rd_negotiation_version) =? 2)%N && String.prefix "{" r.(rd_input)
    && bool_decide (r.(rd_packet_version) = "printpacket/v1"%string)
    && bool_decide (r.(rd_conformance_profile) = "printpacket.conformance/core-v2"%string)
    && bool_decide (r.(rd_output_profile) = "printpacket.pdf-base14/v1"%string)
    && (p.(pp_negotiation_version) =? r.(rd_negotiation_version))%N
    && bool_decide (r.(rd_packet_version) ∈ p.(pp_supported_packet_versions))
    && forallb (λ f, bool_decide (f ∈ p.(pp_feature_ids))) r.(rd_required_feature_ids)
    && bool_decide (r.(rd_conformance_profile) ∈ p.(pp_conformance_profiles))
    && existsb (is_pdf_output r.(rd_output_profile)) p.(pp_output_profiles) && p.(pp_deterministic)
    && bool_decide (d.(dr_renderer_abi) = Some r.(rd_renderer_abi))
    && bool_decide (d.(dr_resource_abi) = Some r.(rd_resource_abi))
    && within_limits p.(pp_limits) r && forallb (resource_fits d p) r.(rd_resources)
  end.

(** The exact language profile of the job, for this printer. *)
Definition language_matches (m : gmap string string) (printer language : string) (x : PrinterNativeLanguageProfile) : bool :=
  bool_decide (x.(lp_id) = language) && bool_decide (printer ∈ x.(lp_printer_ids))
  && bool_decide (m !! "piqae.printer_native.language" = Some x.(lp_language))
  && bool_decide (m !! "piqae.printer_native.language_version" = Some x.(lp_language_version))
  && bool_decide (m !! "piqae.printer_native.profile_version" = Some x.(lp_profile_version))
  && bool_decide (m !! "piqae.printer_native.media_type" = Some x.(lp_media_type))
  && bool_decide (m !! "piqae.printer_native.driver_fingerprint_sha256" = Some x.(lp_driver_fingerprint_sha256))
  && bool_decide (m !! "piqae.printer_native.support_pack_digest_sha256" = Some x.(lp_support_pack_digest_sha256))
  && bool_decide (m !! "piqae.printer_native.printer_id" = Some printer).
Definition supports_printer_native_offer (d : DocumentRenderCapabilities) (m : gmap string string) (printer : string) : bool :=
  match m !! "piqae.printer_native.output_profile", m !! "piqae.printer_native.language_profile", d.(dr_print_packet) with
  | Some output, Some language, Some p =>
    let found := List.find (language_matches m printer language) p.(pp_native_language_profiles) in
    existsb (λ o, match o with
                  | PrinterNative id media profile =>
                    bool_decide (id = output) && bool_decide (profile = language)
                    && from_option (λ x, bool_decide (x.(lp_media_type) = media)) false found
                  | PdfProfile _ _ => false
                  end) p.(pp_output_profiles)
  | _, _, _ => false
  end.

(** * Content of an offer *)

Inductive AgentOfferPreparation :=
| Ready (content : ContentDescriptor)
| NodeUpdateNeeded
| RetryLater
| PermanentFailure (reason : JobFailureReason) (message : string).

(** The render of a document for a node, and why the media of a document's job no longer
    fit, if they do not. *)
Class Documents := {
  node_render_payload : Tenant → string → result AppError PrintPacketNodeRender;
  printpacket_execution_failure : Tenant → Job → result AppError (option (JobFailureReason * string))
}.

Section content.
Context `{CloudExternal} `{Documents}.

Definition get_upload (t : Tenant) (upload : string) (s : Store) : option UploadRow :=
  match s.(topology).(uploads) !! upload with
  | Some u => if decide (u.(up_tenant) = t) then Some u else None
  | None => None
  end.
Definition uploaded_content (t : Tenant) (upload missing invalid : string) (content : UploadRow → N → ContentDescriptor)
    (s : Store) : AgentOfferPreparation :=
  match get_upload t upload s with
  | None => PermanentFailure ContentUnavailable missing
  | Some u => if negb u.(up_complete) then RetryLater
              else if (u.(up_expected_bytes) <? 0)%Z then PermanentFailure Internal invalid
              else Ready (content u (Z.to_N u.(up_expected_bytes)))
  end.
Definition content_url (j : Job) : string := "/v1/agent/jobs/" +:+ j.(j_id) +:+ "/content".
(** The content of the job as it is stored. *)
Definition stored_content (t : Tenant) (j : Job) (s : Store) : AgentOfferPreparation :=
  match j.(j_content) with
  | Upload upload => uploaded_content t upload "Stored job content is unavailable" "Stored job content length is invalid"
      (λ u n, Download (content_url j) u.(up_expected_sha256) n) s
  | EncryptedUpload upload m => uploaded_content t upload "Stored encrypted job content is unavailable"
      "Stored encrypted job content length is invalid" (λ u n, EncryptedDownload (content_url j) u.(up_expected_sha256) n m) s
  | Base64 data => match base64_decode data with
                   | Some bytes => Ready (InlineBase64 data (hex (sha256 bytes)) (text_bytes bytes))
                   | None => PermanentFailure ContentChecksumMismatch "Stored inline job content is invalid"
                   end
  | Uri uri authentication => Ready (UriContent uri authentication)
  end.

Definition render_policy (m : gmap string string) : PrintPacketRenderPolicy :=
  match m !! "piqae.document.render_policy" with
  | Some p => if decide (p = "cloud_only"%string) then CloudOnly
              else if decide (p = "prefer_node"%string) then PreferNode
              else if decide (p = "require_node"%string) then RequireNode else Automatic
  | None => Automatic
  end.
Definition renders_on_node (m : gmap string string) : bool :=
  bool_decide (m !! "piqae.document.render_mode" = Some "node_render"%string).
Definition is_encrypted (d : ContentDescriptor) : bool := match d with EncryptedDownload _ _ _ _ => true | _ => false end.
(** A job rendered on the node gets the packet beside the stored content, which is its
    fallback; never beside encrypted content. *)
Definition packet_content (t : Tenant) (j : Job) (d : DocumentRenderCapabilities) (content : ContentDescriptor) :
    result AppError AgentOfferPreparation :=
  if negb (renders_on_node j.(j_metadata)) then Ok (Ready content) else
  match j.(j_metadata) !! "piqae.document.render_id" with
  | None => Ok (PermanentFailure Internal "Stored PrintPacket render metadata is incomplete")
  | Some render_id =>
    let policy := render_policy j.(j_metadata) in
    let fallback := negb (bool_decide (policy = RequireNode)) in
    let without := if fallback then Ready content else NodeUpdateNeeded in
    if is_encrypted content then Ok without else
    match node_render_payload t render_id with
    | Err e => Err e
    | Ok render => Ok (if negb (supports_print_packet_offer d render) then without
        else Ready (PrintPacket policy render content fallback
               (default "unspecified"%string (j.(j_metadata) !! "piqae.document.render_decision_reason"))))
    end
  end.
Definition prepare_agent_offer_content (t : Tenant) (j : Job) (d : DocumentRenderCapabilities) (s : Store) :
    result AppError AgentOfferPreparation :=
  if bool_decide (j.(j_details).(content_kind) = Raw)
     && negb (supports_printer_native_offer d j.(j_metadata) j.(j_printer_id))
  then Ok NodeUpdateNeeded else
  match stored_content t j s with
  | Ready content => packet_content t j d content
  | other => Ok other
  end.

(** A job the server blocked can go back to its queue. *)
Definition blocked_job_capability_is_restored (t : Tenant) (j : Job) (d : DocumentRenderCapabilities) : bool :=
  if decide (j.(j_details).(content_kind) = Raw) then supports_printer_native_offer d j.(j_metadata) j.(j_printer_id) else
  if negb (renders_on_node j.(j_metadata))
     || negb (bool_decide (j.(j_metadata) !! "piqae.document.render_policy" = Some "require_node"%string))
     || match j.(j_content) with EncryptedUpload _ _ => true | _ => false end
  then false else
  match j.(j_metadata) !! "piqae.document.render_id" with
  | None => false
  | Some render_id => match node_render_payload t render_id with
                      | Ok render => supports_print_packet_offer d render
                      | Err _ => false
                      end
  end.
End content.
