(* ===== verification/ControlSchedule.v ===== *)
(** Waiting jobs follow a route that became ready ([schedule_waiting_destination_jobs] in
    crates/control-plane/src/api.rs): every job that no node has taken is tried on the ready
    routes of its destination, or of the enabled bindings of its target, in the order of
    their rank, and moved by one transaction to the first that can print it.

    Whether a printer can render a document (documents.rs) and which media a target expects
    and has loaded (routing.rs) are computed from tables that are not modelled, in part in
    floating point.  These computations write nothing; they are functions of the state about
    which nothing is assumed. *)

From S2P Require Import Prelude Domain CloudStore CloudJobs CloudRouting CloudTopology CloudReroute ControlPlane ControlInventory ControlOffers.

(** * Numbers in metadata *)

Fixpoint digits (acc : N) (s : string) : option N :=
  match s with
  | String.EmptyString => Some acc
  | String.String a s => if is_digit a then digits (acc * 10 + (N_of_ascii a - 48)) s else None
  end.
Definition natural (s : string) : option N := match s with String.EmptyString => None | _ => digits 0 s end.
Definition parse_u64 (s : string) : option N :=
  let body := match s with
              | String.String a rest => if (N_of_ascii a =? 43)%N then rest else s
              | _ => s
              end in
  n ← natural body; if (n <=? u64_max)%N then Some n else None.

(** * Media and rendering *)

Definition is_not_found (e : AppError) : bool := match e with AppNotFound => true | _ => false end.
Definition is_conflict (e : AppError) : bool := match e with AppConflict _ => true | _ => false end.

(** Of a [DesignSpecificationResponse]: the readiness, the stock with its revision, and the
    bindings whose printer and profile were found. *)
Record DesignSpecification := {
  ds_specification_revision : string;
  ds_readiness_status : string;
  ds_stock : option (string * N);
  ds_destinations : list string
}.
(** Of a [MediaCompatibility]: the loaded media by their JSON text, [None] when they cannot
    be serialised. *)
Record MediaCompatibility := { mc_status : string; mc_loaded_media : option (option string) }.
Record PrintPacketMediaFence := {
  mf_specification_revision : string;
  mf_stock_id : string;
  mf_stock_revision : N;
  mf_loaded_media_snapshot : string
}.
Class RoutingMedia := {
  Media : Type;
  media_from_json : string → option Media;
  current_design_specification : Tenant → string → Plane → result AppError DesignSpecification;
  evaluate_binding_media : Tenant → DesignSpecification → string → option string → Plane → result AppError MediaCompatibility;
  document_media_compatible : Media → DesignSpecification → MediaCompatibility → bool;
  evaluate_readiness : Tenant → string → string → PrintPacketRenderPolicy → Plane → result AppError bool
}.

Section schedule.
Context `{CloudExternal} `{MediaJson} `{Outbox} `{IdentityMac} `{RoutingMedia}.
Variable c : Clock.

Definition reads {A} (f : Plane → result AppError A) : Call A := λ p, (p, f p).

Definition validate_printpacket_media_fence (t : Tenant) (target binding expected : string) (media : Media)
    (requested_source : option string) : Call PrintPacketMediaFence :=
  spec ← reads (current_design_specification t target);
  _ ← demand (bool_decide (spec.(ds_specification_revision) = expected)) (AppConflict "design_specification_changed");
  _ ← demand (bool_decide (spec.(ds_readiness_status) = "ready"%string)) (AppConflict "target_not_ready");
  _ ← demand (bool_decide (binding ∈ spec.(ds_destinations))) (AppConflict "target_binding_changed");
  match spec.(ds_stock) with
  | None => fail (AppConflict "target_stock_not_configured")
  | Some (stock, revision) =>
    compatibility ← reads (evaluate_binding_media t spec binding requested_source);
    _ ← demand (bool_decide (compatibility.(mc_status) = "ready"%string)) (AppConflict "target_media_not_ready");
    _ ← demand (document_media_compatible media spec compatibility) (AppConflict "document_media_incompatible");
    match compatibility.(mc_loaded_media) with
    | None => fail (AppConflict "target_media_not_ready")
    | Some None => fail (AppUnavailable "loaded_media_serialization_failed")
    | Some (Some text) =>
      mret {| mf_specification_revision := spec.(ds_specification_revision); mf_stock_id := stock;
              mf_stock_revision := revision; mf_loaded_media_snapshot := text |}
    end
  end.

Definition node_policy (m : gmap string string) : option PrintPacketRenderPolicy :=
  match m !! "piqae.document.render_policy" with
  | Some p => if decide (p = "automatic"%string) then Some Automatic
              else if decide (p = "prefer_node"%string) then Some PreferNode
              else if decide (p = "require_node"%string) then Some RequireNode else None
  | None => None
  end.
Definition reroute_candidate_supports_rendered_job (t : Tenant) (j : Job) (printer : string) : Call bool :=
  if negb (renders_on_node j.(j_metadata)) then mret true else
  match j.(j_metadata) !! "piqae.document.render_id", node_policy j.(j_metadata) with
  | Some render_id, Some policy => reads (evaluate_readiness t printer render_id policy)
  | _, _ => mret false
  end.

(** A conflict, or something that is gone, rules the candidate out; other errors are the
    handler's. *)
Definition candidate {A} (m : Call A) : Call (option A) :=
  or_else (a ← m; mret (Some a)) (λ e, if is_conflict e || is_not_found e then mret None else fail e).

(** * The scheduler *)

Definition target_of (j : Job) : option string :=
  match j.(j_metadata) !! "piqae.target_id" with Some x => Some x | None => j.(j_metadata) !! "spool.target_id" end.

(** The ready routes of the enabled bindings, each with its printer and its node. *)
Definition routes_of_bindings (t : Tenant) (bindings : list (string * N * BindingRow)) (p : Plane) : list (string * RouteRow) :=
  b ← List.filter (λ b, bd_enabled b.2) bindings;
  match b.2.(bd_destination_id) with
  | Some destination => List.filter (λ r : string * RouteRow, bool_decide (r.2.(rt_printer_id) = b.2.(bd_printer_id))
                                      && bool_decide (r.2.(rt_agent_id) = b.2.(bd_agent_id)))
                          (ranked_ready_routes c t destination p)
  | None => []
  end.
Definition binding_of (bindings : list (string * N * BindingRow)) (r : RouteRow) : option (string * N * BindingRow) :=
  List.find (λ b, b.2.(bd_enabled) && bool_decide (b.2.(bd_destination_id) = Some r.(rt_destination_id))
                  && bool_decide (b.2.(bd_printer_id) = r.(rt_printer_id))
                  && bool_decide (b.2.(bd_agent_id) = r.(rt_agent_id))) bindings.

(** What the media of a document demand of the binding: [None] rules the route out. *)
Definition media_fence (t : Tenant) (j : Job) (target : option string) (binding : option (string * N * BindingRow)) :
    Call (option (option PrintPacketMediaFence)) :=
  match target, binding, j.(j_metadata) !! "piqae.document.media" with
  | Some target, Some b, Some encoded =>
    match media_from_json encoded, j.(j_metadata) !! "piqae.design_specification_revision" with
    | Some media, Some expected =>
      fence ← candidate (validate_printpacket_media_fence t target b.1.1 expected media j.(j_details).(options).(bin));
      mret (Some <$> fence)
    | _, _ => mret None
    end
  | _, _, _ => mret (Some None)
  end.

Definition reassignment (j : Job) (target : option string) (binding : option (string * N * BindingRow))
    (fence : option PrintPacketMediaFence) (route : string * RouteRow) (capability : option N) (digest : option string) :
    DestinationRouteReassignment :=
  {| dr_job_id := j.(j_id); dr_target_id := target; dr_binding_id := (λ b, b.1.1) <$> binding;
     dr_destination_id := route.2.(rt_destination_id); dr_route_id := route.1;
     dr_printer_id := route.2.(rt_printer_id); dr_agent_id := route.2.(rt_agent_id);
     dr_profile_id := (λ b, b.2.(bd_profile_id)) <$> binding; dr_profile_revision := (λ b, b.1.2) <$> binding;
     dr_stock_revision := mf_stock_revision <$> fence;
     dr_expected_design_specification_revision := j.(j_metadata) !! "piqae.design_specification_revision";
     dr_loaded_media_snapshot := mf_loaded_media_snapshot <$> fence;
     dr_expected_capability_revision := capability; dr_resolved_ticket_digest := digest;
     dr_reason := "standby_recovery" |}.

(** One route for a job: whether the loop over the routes ends with it. *)
Definition try_route (t : Tenant) (j : Job) (target : option string) (bindings : list (string * N * BindingRow))
    (route : string * RouteRow) : Call bool :=
  let binding := match target with Some _ => binding_of bindings route.2 | None => None end in
  if bool_decide (is_Some target) && bool_decide (binding = None) then mret false else
  fence ← media_fence t j target binding;
  match fence with
  | None => mret false
  | Some fence =>
    supported ← candidate (reroute_candidate_supports_rendered_job t j route.2.(rt_printer_id));
    if negb (default false supported) then mret false else
    if bool_decide (j.(j_metadata) !! "piqae.route_id" = Some route.1) then mret true else
    let capability := j.(j_metadata) !! "piqae.capability_revision" ≫= parse_u64 in
    let digest := match j.(j_metadata) !! ("piqae.resolved_ticket_digest." +:+ route.1) with
                  | Some x => Some x
                  | None => j.(j_metadata) !! "piqae.resolved_ticket_digest"
                  end in
    if bool_decide (target = None) && (bool_decide (capability = None) || bool_decide (digest = None)) then mret false else
    rerouted ← try (in_store (reroute_job_to_destination_route_before_acceptance c t
                                (reassignment j target binding fence route capability digest)));
    match rerouted with
    | Ok (Some moved) => _ ← publish t "job.routing_attempted" (OfJob moved); mret true
    | Ok None | Err ConcurrentStateChange => mret false
    | Err e => fail (repository_error e)
    end
  end.
Fixpoint try_routes (t : Tenant) (j : Job) (target : option string) (bindings : list (string * N * BindingRow))
    (routes : list (string * RouteRow)) : Call unit :=
  match routes with
  | [] => mret ()
  | route :: routes =>
    stop ← try_route t j target bindings route;
    if stop : bool then mret () else try_routes t j target bindings routes
  end.

Definition schedule_job (t : Tenant) (j : Job) : Call unit :=
  match j.(j_metadata) !! "piqae.destination_id" with
  | None => mret ()
  | Some destination =>
    let target := target_of j in
    bindings ← (match target with
                | Some id => run repository_error (in_store (list_target_bindings t id))
                | None => mret []
                end);
    routes ← look (λ p, match target with
                        | Some _ => routes_of_bindings t bindings p
                        | None => ranked_ready_routes c t destination p
                        end);
    try_routes t j target bindings routes
  end.
Definition schedule_waiting_destination_jobs (t : Tenant) : Call unit :=
  jobs ← look (λ p, list_reroutable_destination_jobs c t 1000 p.(store));
  _ ← each (schedule_job t) jobs;
  mret ().
End schedule.
