(* ===== verification/ControlSync.v ===== *)
(** The sync of a node ([agent_sync] in crates/control-plane/src/api.rs): its reports are
    checked and projected, the evidence of its handoffs and its events are applied, the
    commands it acknowledged are settled, and it is offered at most one job, under a lease
    and a reservation of the route.

    The signature of the request is checked and its JSON parsed before. *)

From S2P Require Import Prelude Domain CloudStore CloudWake CloudJobs CloudRevoke CloudRouting CloudReroute ControlPlane ControlInventory ControlDeliveries ControlOffers ControlSchedule.

(** * Protocol (crates/protocol/src/agent.rs) *)

Record QueueSnapshot := { qs_queued_jobs : N; qs_active_jobs : N; qs_accepts_jobs : bool }.
Record AgentHealth := {
  ah_started_at : Z;
  ah_observed_at : Z;
  ah_sqlite_integrity_ok : bool;
  ah_executor_crashes : N;
  ah_last_error_code : option string
}.
Record DiagnosticReport := {
  dx_request_id : string;
  dx_observed_at : Z;
  dx_state : string;
  dx_agent_version : string;
  dx_platform : string;
  dx_architecture : string;
  dx_queued_jobs : N;
  dx_active_jobs : N;
  dx_sqlite_integrity_ok : bool;
  dx_executor_crashes : N;
  dx_last_error_code : option string;
  dx_collection_error_code : option string
}.
(** Without the fields the handler does not read. *)
Record AgentSyncRequest := {
  sy_agent_id : string;
  sy_protocol_version : N;
  sy_agent_version : string;
  sy_acknowledged_command_cursor : option string;
  sy_queue : QueueSnapshot;
  sy_health : AgentHealth;
  sy_printers : option (list PrinterSnapshot);
  sy_events : list JobEvent;
  sy_diagnostics : list DiagnosticReport;
  sy_document_render : DocumentRenderCapabilities;
  sy_route_observations : list RouteObservation;
  sy_topology_changes : list RouteTopologyChange;
  sy_native_handoffs : list NativeHandoffEvidence;
  sy_runtime : option NodeRuntimeObservation
}.
Record JobOffer := {
  jo_job : Job;
  jo_expected_capability_revision : option N;
  jo_resolved_ticket_digest : option string;
  jo_lease_id : string;
  jo_lease_token : string;
  jo_lease_expires_at : Z;
  jo_content : ContentDescriptor;
  jo_route_reservation : option CloudRouteReservation
}.
Record AgentSyncResponse := {
  ar_acknowledged_event_cursor : option string;
  ar_command_cursor : option Z;
  ar_commands : list AgentCommand;
  ar_candidate_jobs : list JobOffer;
  ar_next_poll_after_ms : Z;
  ar_acknowledged_diagnostics : list string;
  ar_inventory_projection : option N;
  ar_acknowledged_handoff_sequence : option N;
  ar_wake_hints : list AgentWakeHint
}.

(** * Numbers *)

(** [str::parse]: an optional sign, then digits, within the type. *)
Definition parse_i64 (s : string) : option Z :=
  z ← match s with
      | String.String a rest => if (N_of_ascii a =? 45)%N then (λ n, - Z.of_N n)%Z <$> natural rest
                                else if (N_of_ascii a =? 43)%N then Z.of_N <$> natural rest else Z.of_N <$> natural s
      | String.EmptyString => None
      end;
  if ((i64_min <=? z) && (z <=? i64_max))%Z then Some z else None.

(** ** The next poll *)

Definition adaptive_poll_with_jitter (uptime_seconds : Z) (has_immediate_work : bool) (seed : N) : Z :=
  (if has_immediate_work then 1000 else
   let base := if uptime_seconds <? 15 * 60 then 15000 else 60000 in
   let jitter_percent := Z.of_N (seed mod 41) - 20 in
   let next := base + Z.quot (base * jitter_percent) 100 in
   Z.max 1000 (Z.min (if next <? 0 then 15000 else next) 60000))%Z.
Fixpoint wrapping_fold (seed : N) (s : string) : N :=
  match s with
  | String.EmptyString => seed
  | String.String a s => wrapping_fold ((seed * 31 + N_of_ascii a) mod 2 ^ 64) s
  end.
(** Timestamps are microseconds. *)
Definition adaptive_poll_after_ms (q : AgentSyncRequest) (has_immediate_work : bool) : Z :=
  let h := q.(sy_health) in
  let uptime := Z.quot (h.(ah_observed_at) - h.(ah_started_at)) 1000000 in
  let minute := Z.quot (h.(ah_observed_at) / 1000000)%Z 60 in
  adaptive_poll_with_jitter uptime has_immediate_work (wrapping_fold (Z.to_N (Z.abs minute)) q.(sy_agent_id)).

(** * External code

    The JSON text of a diagnostic report. *)
Class DiagnosticJson := diagnostic_json : DiagnosticReport → string.

(** What a request draws and meets: its time, its random identifiers and secrets, and the
    rows that other transactions hold. *)
Record Turn := {
  clock : Clock;
  ulid : string → string;
  uuid : string → string;
  fencing_token : string → string;
  new_lease : string → string * string;
  locked_job : string → bool;
  locked_hint : Tenant * string * string → bool
}.
Record Deployment := { destination_identity_key : string; billing_enabled : bool }.

Section sync.
Context `{CloudExternal} `{Outbox} `{ReprintJson} `{IdentityMac} `{Documents} `{DiagnosticJson} `{MediaJson} `{RoutingMedia}.
Variable w : Turn.
Variable d : Deployment.

(** * Checks *)

Definition bounded_code (o : option string) : bool := from_option (short_ascii 128) true o.
Definition valid_diagnostic (r : DiagnosticReport) : bool :=
  String.prefix "diag_" r.(dx_request_id) && (String.length r.(dx_request_id) <=? 64)
  && bool_decide (r.(dx_state) ∈ ["complete"; "failed"]%string) && (String.length r.(dx_agent_version) <=? 64)
  && (String.length r.(dx_platform) <=? 32) && (String.length r.(dx_architecture) <=? 32)
  && bounded_code r.(dx_last_error_code) && bounded_code r.(dx_collection_error_code)
  && (Z.of_nat (String.length (diagnostic_json r)) <=? 16384)%Z.
Definition valid_health (h : AgentHealth) : bool :=
  (h.(ah_started_at) <=? h.(ah_observed_at))%Z && (h.(ah_observed_at) <=? w.(clock).(utc_now) + seconds 300)%Z
  && (Z.of_N h.(ah_executor_crashes) <=? i64_max)%Z
  && from_option (λ x, negb (bool_decide (x = ""%string)) && short_ascii 128 x) true h.(ah_last_error_code).
Definition command_cursor (q : AgentSyncRequest) : option Z := q.(sy_acknowledged_command_cursor) ≫= parse_i64.
Definition validate_sync (agent : string) (q : AgentSyncRequest) : result AppError unit :=
  if negb (bool_decide (q.(sy_agent_id) = agent)) then Err (AppUnauthorized "agent_identity_mismatch")
  else if negb ((q.(sy_protocol_version) =? 1)%N && (Z.of_nat (length q.(sy_events)) <=? 1000)%Z)
  then Err (AppInvalid "invalid_agent_sync")
  else if negb ((length q.(sy_diagnostics) <=? 8) && forallb valid_diagnostic q.(sy_diagnostics))
  then Err (AppInvalid "invalid_agent_diagnostics")
  else if negb (valid_health q.(sy_health)) then Err (AppInvalid "invalid_agent_health")
  else if bool_decide (is_Some q.(sy_acknowledged_command_cursor)) && bool_decide (command_cursor q = None)
  then Err (AppInvalid "invalid_agent_command_cursor")
  else validate_document_render_capabilities q.(sy_document_render).
Definition checked {A} (r : result AppError A) : Call A := λ p, (p, r).

(** * Reports *)

Definition receive_inventory (t : Tenant) (agent : string) (q : AgentSyncRequest) : Call (option N * RuntimeAdmission) :=
  _ ← run repository_error (sync_agent_presence w.(clock) t agent q.(sy_printers));
  projection ← project_agent_topology w.(clock) w.(ulid) d.(destination_identity_key) t agent q.(sy_printers)
                 q.(sy_topology_changes) q.(sy_route_observations);
  admission ← record_runtime_availability w.(clock) w.(locked_hint) t agent q.(sy_runtime) q.(sy_queue).(qs_accepts_jobs);
  _ ← (match projection with
       | Some revision => _ ← publish t "route.updated" (OfInventory agent revision);
                          publish t "destination.updated" (OfInventory agent revision)
       | None => mret ()
       end);
  mret (projection, admission).

Definition receive_diagnostic (t : Tenant) (agent : string) (r : DiagnosticReport) : Call string :=
  stored ← try (store_node_diagnostic w.(clock) t agent r.(dx_request_id) r.(dx_state) (diagnostic_json r));
  match stored with
  | Ok _ | Err NotFound => mret r.(dx_request_id)
  | Err e => fail (repository_error e)
  end.

(** An event is projected on the attempt when it was applied now, or before: the state of
    the job is the reported one. *)
Definition apply_event (t : Tenant) (agent : string) (e : JobEvent) : Call bool :=
  applied ← try (in_store (apply_agent_event w.(clock) t agent e));
  match applied with
  | Ok (Some j) =>
    _ ← publish t "job.updated" (OfJob j);
    _ ← (if decide (e.(je_state) = DeliveryUncertain) then publish t "job.delivery_uncertain" (OfJob j) else mret ());
    mret true
  | Ok None => look (λ p, from_option (λ j, bool_decide (j.(j_state) = e.(je_state))) false (get_job t e.(je_job_id) p.(store)))
  | Err ConcurrentStateChange => mret false
  | Err e => fail (repository_error e)
  end.
Definition receive_event (t : Tenant) (agent : string) (e : JobEvent) : Call unit :=
  should_reconcile ← apply_event t agent e;
  if should_reconcile : bool then _ ← reconcile_post_spooler_event w.(clock) t agent e; mret () else mret ().

(** * Commands *)

(** A cancellation of a job the node does not have is not delivered. *)
Definition deliverable (t : Tenant) (agent : string) (k : AgentCommand) : Call (list AgentCommand) :=
  match k with
  | CancelJob job =>
    retire ← run repository_error (in_store (retire_terminal_absent_local_cancellation w.(clock) t agent job));
    mret (if retire : bool then [] else [k])
  | _ => mret [k]
  end.
Definition exchange_commands (t : Tenant) (agent : string) (q : AgentSyncRequest) : Call (option Z * list AgentCommand) :=
  batch ← run repository_error (in_store (sync_agent_commands w.(clock) t agent (command_cursor q) 100));
  commands ← each (deliverable t agent) batch.2;
  mret (batch.1, concat commands).

(** * Offers *)

Definition MAX_CAPABILITY_CANDIDATES_PER_SYNC : Z := 16.
Definition recover_blocked (t : Tenant) (agent : string) (cap : DocumentRenderCapabilities) (j : Job) : Call unit :=
  if negb (blocked_job_capability_is_restored t j cap) then mret () else
  recovered ← run repository_error (in_store (recover_node_update_required_job w.(clock) t agent j.(j_id)));
  match recovered with
  | Some (j, key) => publish_idempotently key t "job.updated" j
  | None => mret ()
  end.
(** A bounded scan of the jobs that wait for an update of the node. *)
Definition recover_capabilities (t : Tenant) (agent : string) (cap : DocumentRenderCapabilities) : Call unit :=
  blocked ← run repository_error (in_store (list_node_update_required_jobs w.(clock) w.(locked_job) t agent
              MAX_CAPABILITY_CANDIDATES_PER_SYNC));
  _ ← each (recover_blocked t agent cap) blocked;
  mret ().

Definition release_lease (t : Tenant) (agent : string) (l : JobLease) : Call unit :=
  run repository_error (in_store (release_agent_lease w.(clock) t agent l.(jl_job).(j_id) l.(jl_lease_id) l.(jl_lease_token))).
(** Every lease is tried; the first error is reported. *)
Fixpoint release_agent_lease_batch (t : Tenant) (agent : string) (leases : list JobLease) : Call unit :=
  match leases with
  | [] => mret ()
  | l :: leases => λ p,
    let '(p1, r1) := release_lease t agent l p in
    let '(p2, r2) := release_agent_lease_batch t agent leases p1 in
    (p2, match r1 with Ok _ => r2 | Err e => Err e end)
  end.
(** An error after the batch was claimed: the leases are released first. *)
Definition releasing {A} (t : Tenant) (agent : string) (leases : list JobLease) (m : Call A) : Call A :=
  or_else m (λ e, _ ← whatever (release_agent_lease_batch t agent leases); fail e).

(** A transition of the server before the handoff, of a job whose lease is the first. *)
Definition transition_lease (t : Tenant) (agent : string) (l : JobLease) (rest : list JobLease)
    (m : Tx PreHandoffTransitionOutcome) (unsafe : Call unit) : Call unit :=
  outcome ← releasing t agent (l :: rest) (run repository_error (in_store m));
  match outcome with
  | Transitioned j key => releasing t agent rest (publish_idempotently key t "job.updated" j)
  | UnsafeLocalResponsibility => unsafe
  end.
Definition fail_lease (t : Tenant) (agent : string) (l : JobLease) (reason : JobFailureReason) (message : string) :
    Tx PreHandoffTransitionOutcome :=
  fail_agent_lease_before_handoff w.(clock) t agent l.(jl_job).(j_id) l.(jl_lease_id) l.(jl_lease_token) reason message.
Definition block_lease (t : Tenant) (agent : string) (l : JobLease) : Tx PreHandoffTransitionOutcome :=
  block_agent_lease_for_node_update w.(clock) t agent l.(jl_job).(j_id) l.(jl_lease_id) l.(jl_lease_token).

(** The first job whose content can be offered; the leases behind it go back. *)
Fixpoint select_offer (t : Tenant) (agent : string) (cap : DocumentRenderCapabilities) (leases : list JobLease) :
    Call (option (JobLease * ContentDescriptor)) :=
  match leases with
  | [] => mret None
  | l :: rest =>
    let give_back := releasing t agent (l :: rest) (release_lease t agent l) in
    failure ← releasing t agent (l :: rest) (checked (printpacket_execution_failure t l.(jl_job)));
    match failure with
    | Some (reason, message) =>
      _ ← transition_lease t agent l rest (fail_lease t agent l reason message) (mret ());
      select_offer t agent cap rest
    | None =>
      preparation ← releasing t agent (l :: rest) (λ p, (p, prepare_agent_offer_content t l.(jl_job) cap p.(store)));
      match preparation with
      | Ready content =>
        _ ← or_else (release_agent_lease_batch t agent rest)
              (λ e, _ ← whatever (release_agent_lease_batch t agent [l]); fail e);
        mret (Some (l, content))
      | NodeUpdateNeeded =>
        _ ← transition_lease t agent l rest (block_lease t agent l) give_back;
        select_offer t agent cap rest
      | RetryLater => _ ← give_back; select_offer t agent cap rest
      | PermanentFailure reason message =>
        _ ← transition_lease t agent l rest (fail_lease t agent l reason message) give_back;
        select_offer t agent cap rest
      end
    end
  end.

Definition offer_of (l : JobLease) (content : ContentDescriptor) (r : CloudRouteReservation) : JobOffer :=
  let m := l.(jl_job).(j_metadata) in
  {| jo_job := l.(jl_job); jo_expected_capability_revision := m !! "piqae.capability_revision" ≫= parse_u64;
     jo_resolved_ticket_digest := m !! "piqae.resolved_ticket_digest"; jo_lease_id := l.(jl_lease_id);
     jo_lease_token := l.(jl_lease_token); jo_lease_expires_at := l.(jl_lease_until); jo_content := content;
     jo_route_reservation := Some r |}.
Definition reserve_offer (t : Tenant) (agent : string) (selected : option (JobLease * ContentDescriptor)) :
    Call (list JobOffer) :=
  match selected with
  | None => mret []
  | Some (l, content) =>
    reservation ← releasing t agent [l] (reserve_job_route w.(clock) w.(ulid) w.(uuid) w.(fencing_token) t l.(jl_job)
                                           l.(jl_lease_until));
    match reservation with
    | Reserved r => mret [offer_of l content r]
    | ReservationBusy => _ ← release_lease t agent l; mret []
    | ProjectionRequired destination route =>
      _ ← release_lease t agent l;
      _ ← publish t "route.updated" (OfRoute agent destination route);
      mret []
    end
  end.
Definition make_offers (t : Tenant) (agent : string) (q : AgentSyncRequest) (can_offer : bool) : Call (list JobOffer) :=
  if negb can_offer then mret [] else
  _ ← recover_capabilities t agent q.(sy_document_render);
  leases ← run repository_error (in_store (claim_jobs w.(clock) w.(locked_job) w.(new_lease) t agent
             (agent +:+ ":" +:+ q.(sy_agent_version)) MAX_CAPABILITY_CANDIDATES_PER_SYNC));
  selected ← select_offer t agent q.(sy_document_render) leases;
  reserve_offer t agent selected.

(** * The handler *)

(** What the sync received before it turns to the offer. *)
Record Received := {
  rc_projection : option N;
  rc_admission : RuntimeAdmission;
  rc_handoffs : option N;
  rc_diagnostics : list string;
  rc_command_cursor : option Z;
  rc_commands : list AgentCommand
}.
Definition receive (t : Tenant) (agent : string) (q : AgentSyncRequest) : Call Received :=
  _ ← checked (validate_sync agent q);
  received ← receive_inventory t agent q;
  handoffs ← ingest_native_handoffs w.(clock) t agent q.(sy_native_handoffs);
  diagnostics ← each (receive_diagnostic t agent) q.(sy_diagnostics);
  _ ← schedule_waiting_destination_jobs w.(clock) t;
  _ ← each (receive_event t agent) q.(sy_events);
  commands ← exchange_commands t agent q;
  _ ← finalize_acknowledged_uncertainty w.(clock) w.(ulid) d.(billing_enabled) t agent;
  mret {| rc_projection := received.1; rc_admission := received.2; rc_handoffs := handoffs;
          rc_diagnostics := diagnostics; rc_command_cursor := commands.1; rc_commands := commands.2 |}.

Definition agent_sync (t : Tenant) (agent : string) (q : AgentSyncRequest) : Call AgentSyncResponse :=
  received ← receive t agent q;
  offers ← make_offers t agent q (q.(sy_queue).(qs_accepts_jobs) && received.(rc_admission).(eligible_for_offers));
  let busy := negb (bool_decide (length q.(sy_events) = 0)) || (0 <? q.(sy_queue).(qs_queued_jobs))%N
              || (0 <? q.(sy_queue).(qs_active_jobs))%N || negb (bool_decide (length received.(rc_commands) = 0))
              || negb (bool_decide (length offers = 0)) in
  mret {| ar_acknowledged_event_cursor := je_id <$> last q.(sy_events);
          ar_command_cursor := received.(rc_command_cursor); ar_commands := received.(rc_commands);
          ar_candidate_jobs := offers; ar_next_poll_after_ms := adaptive_poll_after_ms q busy;
          ar_acknowledged_diagnostics := received.(rc_diagnostics);
          ar_inventory_projection := received.(rc_projection);
          ar_acknowledged_handoff_sequence := received.(rc_handoffs);
          ar_wake_hints := received.(rc_admission).(wake_hints_observed) |}.
End sync.
