(* ===== verification/ControlFacts.v ===== *)
(** What every handler of the control plane does to the store, statement by statement: a
    relation on stores that its transactions respect holds between the store before a call
    and the one after it, whether the call succeeds or fails.  A sync is a run of the
    store's machine. *)

From S2P Require Import Prelude Domain CloudStore CloudWake CloudJobs CloudRevoke CloudRouting CloudReroute CloudMachine ControlPlane ControlInventory ControlDeliveries ControlOffers ControlSchedule ControlSync.

(** * Calls that respect a relation *)

(** ** Taking a call apart *)

Lemma call_bind_Ok {A B} (m : Call A) (f : A → Call B) p p' b :
  (m ≫= f) p = (p', Ok b) ↔ ∃ p1 a, m p = (p1, Ok a) ∧ f a p1 = (p', Ok b).
Proof. unfold mbind, call_bind. destruct (m p) as [p1 [a|e]]; naive_solver. Qed.
Lemma call_bind_Err {A B} (m : Call A) (f : A → Call B) p p' e :
  (m ≫= f) p = (p', Err e) ↔ m p = (p', Err e) ∨ ∃ p1 a, m p = (p1, Ok a) ∧ f a p1 = (p', Err e).
Proof. unfold mbind, call_bind. destruct (m p) as [p1 [a|e']]; naive_solver. Qed.
Lemma run_Ok {A} wrap (m : Txn Plane A) p p' a : run wrap m p = (p', Ok a) ↔ m p = Ok (p', a).
Proof. unfold run. destruct (m p) as [[p1 b]|e]; naive_solver. Qed.
Lemma in_store_Ok {A} (m : Tx A) p p' a :
  in_store m p = Ok (p', a) ↔ ∃ s, m p.(store) = Ok (s, a) ∧ p' = on_store (λ _, s) p.
Proof. unfold in_store. destruct (m p.(store)) as [[s b]|e]; naive_solver. Qed.

Lemma look_Ok {A} (f : Plane → A) p p' a : look f p = (p', Ok a) ↔ p' = p ∧ a = f p.
Proof. unfold look. naive_solver. Qed.
Lemma demand_Ok b e p p' u : demand b e p = (p', Ok u) ↔ p' = p ∧ b = true.
Proof. unfold demand. destruct b, u; naive_solver. Qed.
Lemma publish_Ok `{Outbox} t event data p p' u :
  publish t event data p = (p', Ok u) → outage event = false ∧ p'.(store) = p.(store).
Proof.
  unfold publish. intros (p1 & v & [-> Hb]%demand_Ok & Ha)%call_bind_Ok. apply negb_true_iff in Hb. by injection Ha as <-.
Qed.
Lemma try_Ok {A} (m : Txn Plane A) p p' r :
  try m p = (p', Ok r) ↔ match r with Ok a => m p = Ok (p', a) | Err e => p' = p ∧ m p = Err e end.
Proof. unfold try. destruct (m p) as [[p1 b]|e], r; naive_solver. Qed.

(** ** Relations *)

Create HintDb calls.

(** A relation of stores, on the whole state. *)
Definition on_planes (R : relation Store) : relation Plane := λ p p', R p.(store) p'.(store).
#[export] Instance on_planes_preorder R : PreOrder R → PreOrder (on_planes R).
Proof. unfold on_planes. split; [intros p; done|]. intros p q r H1 H2. by etrans. Qed.

Section moves.
Context (R : relation Store) `{!PreOrder R}.

Definition moves {A} (m : Call A) : Prop := ∀ p, R p.(store) (m p).1.(store).

Lemma steps_in_store {A} (m : Tx A) : preserves R m → preserves (on_planes R) (in_store m).
Proof.
  intros Hm p p' a. unfold in_store. destruct (m p.(store)) as [[s b]|e] eqn:E; intros [= <- <-]. by eapply Hm.
Qed.

Lemma moves_still {A} (m : Call A) : (∀ p, (m p).1 = p) → moves m.
Proof. intros Hm p. by rewrite Hm. Qed.
Lemma moves_bind {A B} (m : Call A) (f : A → Call B) : moves m → (∀ a, moves (f a)) → moves (m ≫= f).
Proof.
  intros Hm Hf p. specialize (Hm p). unfold mbind, call_bind. destruct (m p) as [p1 [a|e]]; simpl in *; [|done].
  etrans; [exact Hm|apply Hf].
Qed.
Lemma moves_ret {A} (a : A) : moves (mret a).
Proof. by apply moves_still. Qed.
Lemma moves_fail {A} e : moves (fail e : Call A).
Proof. by apply moves_still. Qed.
Lemma moves_look {A} (f : Plane → A) : moves (look f).
Proof. by apply moves_still. Qed.
Lemma moves_demand b e : moves (demand b e).
Proof. apply moves_still. intros p. unfold demand. by destruct b. Qed.
Lemma moves_checked {A} (r : result AppError A) : moves (checked r).
Proof. by apply moves_still. Qed.
Lemma moves_run {A} wrap (m : Txn Plane A) : preserves (on_planes R) m → moves (run wrap m).
Proof. intros Hm p. unfold run. destruct (m p) as [[p1 a]|e] eqn:E; simpl; [exact (Hm _ _ _ E)|done]. Qed.
Lemma moves_try {A} (m : Txn Plane A) : preserves (on_planes R) m → moves (try m).
Proof. intros Hm p. unfold try. destruct (m p) as [[p1 a]|e] eqn:E; simpl; [exact (Hm _ _ _ E)|done]. Qed.
Lemma moves_operation {A} wrap (m : Op A) : (∀ s, R s (m s).1) → moves (operation wrap m).
Proof. intros Hm p. unfold operation. specialize (Hm p.(store)). by destruct (m p.(store)) as [s r]. Qed.
Lemma moves_or_else {A} (m : Call A) h : moves m → (∀ e, moves (h e)) → moves (or_else m h).
Proof.
  intros Hm Hh p. specialize (Hm p). unfold or_else. destruct (m p) as [p1 [a|e]]; simpl in *; [done|].
  etrans; [exact Hm|apply Hh].
Qed.
Lemma moves_whatever {A} (m : Call A) : moves m → moves (whatever m).
Proof. intros Hm p. apply Hm. Qed.
Lemma moves_each {A B} (f : A → Call B) l : (∀ a, moves (f a)) → moves (each f l).
Proof.
  intros Hf. induction l as [|a l IH]; simpl; [apply moves_ret|].
  apply moves_bind; [done|]. intros b. apply moves_bind; [done|]. intros bs. apply moves_ret.
Qed.

Context `{Outbox}.
Lemma moves_announce t event data : moves (announce t event data).
Proof. intros p. done. Qed.
Lemma moves_publish t event data : moves (publish t event data).
Proof. apply moves_bind; [apply moves_demand|]. intros u. apply moves_announce. Qed.
End moves.

(** Takes a call apart, along every branch. *)
Ltac walk :=
  repeat first
  [ progress intros
  | lazymatch goal with
    | |- PreOrder _ => apply _
    | |- moves _ (mbind _ _) => apply moves_bind
    | |- moves _ (mret _) => apply moves_ret
    | |- moves _ (fail _) => apply moves_fail
    | |- moves _ (look _) => apply moves_look
    | |- moves _ (demand _ _) => apply moves_demand
    | |- moves _ (checked _) => apply moves_checked
    | |- moves _ (run _ _) => apply moves_run
    | |- moves _ (try _) => apply moves_try
    | |- moves _ (or_else _ _) => apply moves_or_else
    | |- moves _ (whatever _) => apply moves_whatever
    | |- moves _ (each _ _) => apply moves_each
    | |- moves _ (publish _ _ _) => apply moves_publish
    | |- moves _ (announce _ _ _) => apply moves_announce
    | |- moves _ (match ?x with _ => _ end) => destruct x
    | |- moves _ (λ _, (_, _)) => apply moves_still
    | |- preserves _ (in_store _) => apply steps_in_store
    | |- preserves _ (mbind _ _) => apply preserves_bind
    | |- preserves _ (mret _) => apply preserves_ret
    | |- preserves _ (query _) => apply preserves_query
    | |- preserves _ (fetch _ _) => apply preserves_fetch
    | |- preserves _ (ensure _ _) => apply preserves_ensure
    | |- preserves _ (pure_result _) => apply preserves_pure
    | |- preserves _ (for_each _ _) => apply preserves_for_each
    | |- preserves _ (execute _) => apply preserves_execute
    | |- preserves _ (match ?x with _ => _ end) => destruct x
    end
  | solve [eauto with calls]
  | done ].

(** * The offer, for a relation that its transactions respect *)

Section offers.
Context `{CloudExternal} `{Outbox} `{Documents}.
Context (R : relation Store) `{!PreOrder R} (w : Turn) (t : Tenant) (agent : string).
Hypothesis publish_steps : ∀ key event j, preserves R (enqueue_webhook_event_in_transaction key t event j).

Lemma publish_idempotently_moves key event j : moves R (publish_idempotently key t event j).
Proof. unfold publish_idempotently. walk. Qed.
#[local] Hint Resolve publish_idempotently_moves : calls.

Lemma batch_moves l : Forall (λ x, moves R (release_lease w t agent x)) l → moves R (release_agent_lease_batch w t agent l).
Proof.
  induction 1 as [|x l Hx _ IH]; simpl; [apply moves_ret; apply _|]. intros p. specialize (Hx p).
  destruct (release_lease w t agent x p) as [p1 r1]. specialize (IH p1).
  destruct (release_agent_lease_batch w t agent l p1) as [p2 r2]. simpl in *. by etrans.
Qed.
Lemma releasing_moves {A} l (m : Call A) :
  Forall (λ x, moves R (release_lease w t agent x)) l → moves R m → moves R (releasing w t agent l m).
Proof. intros Hl Hm. unfold releasing. walk. by apply batch_moves. Qed.
Lemma transition_moves x l m unsafe :
  moves R (release_lease w t agent x) → Forall (λ x, moves R (release_lease w t agent x)) l →
  preserves R m → moves R unsafe → moves R (transition_lease w t agent x l m unsafe).
Proof.
  intros Hx Hl Hm Hu. unfold transition_lease. apply moves_bind; [done| |].
  - apply releasing_moves; [by constructor|]. by apply moves_run, steps_in_store.
  - intros [j key|]; [|done]. apply releasing_moves; [done|]. apply publish_idempotently_moves.
Qed.

Definition lease_respects (l : JobLease) : Prop :=
  moves R (release_lease w t agent l) ∧ preserves R (block_lease w t agent l)
  ∧ ∀ reason message, preserves R (fail_lease w t agent l reason message).

Lemma select_moves cap l : Forall lease_respects l → moves R (select_offer w t agent cap l).
Proof.
  induction 1 as [|x l (Hr & Hb & Hf) Hl IH]; cbn [select_offer]; [apply moves_ret; apply _|].
  assert (Forall (λ x, moves R (release_lease w t agent x)) l) as Hrl.
  { eapply Forall_impl; [exact Hl|]. by intros y (? & _). }
  assert (Forall (λ x, moves R (release_lease w t agent x)) (x :: l)) as Hrx by by constructor.
  apply moves_bind; [done|by apply releasing_moves; [|apply moves_checked]|].
  intros [[reason message]|].
  - apply moves_bind; [done| |done]. apply transition_moves; [done..|by apply moves_ret].
  - apply moves_bind; [done|by apply releasing_moves; [|apply moves_still]|].
    intros [content| | |reason message]; (apply moves_bind; [done| |by walk]).
    + apply moves_or_else; [done|by apply batch_moves|]. intros e. apply moves_bind; [done| |by intros; apply moves_fail].
      apply moves_whatever, batch_moves. by constructor.
    + apply transition_moves; [done..|]. by apply releasing_moves.
    + by apply releasing_moves.
    + apply transition_moves; [done..|]. by apply releasing_moves.
Qed.
End offers.

(** * Syncs as runs of the store *)

Section runs.
Context `{CloudExternal} `{Outbox} `{ReprintJson} `{IdentityMac} `{Documents} `{DiagnosticJson} `{MediaJson} `{RoutingMedia}.

#[local] Instance runs_preorder : PreOrder runs.
Proof. unfold runs. apply _. Qed.

Lemma commit_steps {A} (m : Tx A) : committed A m → preserves runs m.
Proof. intros Hc s s' a Hm. apply rtc_once. by eapply step_commit. Qed.
(** Statements on nodes, printers, routes and destinations. *)
Lemma topology_runs f s : runs s (on_topology f s).
Proof. apply rtc_once. exact (step_topology s (f s.(topology))). Qed.
#[local] Hint Extern 1 (preserves runs _) => apply commit_steps; by constructor : calls.
#[local] Hint Extern 1 (runs _ _) => first [apply topology_runs | apply rtc_refl] : calls.
#[local] Hint Extern 1 (on_planes runs _ _) => first [apply topology_runs | apply rtc_refl] : calls.

(** ** The inventory *)

Lemma presence_steps c t agent l : preserves (on_planes runs) (sync_agent_presence c t agent l).
Proof. unfold sync_agent_presence, upsert_printer. walk. Qed.
Lemma upsert_route_steps t id r n m : preserves runs (upsert_route t id r n m).
Proof. unfold upsert_route. walk. Qed.
Lemma upsert_destination_steps t id confidence st n : preserves runs (upsert_destination t id confidence st n).
Proof. unfold upsert_destination. walk. Qed.
Lemma membership_steps t a agent : preserves runs (upsert_site_membership t a agent).
Proof. unfold upsert_site_membership. walk. Qed.
Lemma evidence_steps t id destination route e :
  preserves (on_planes runs) (record_identity_evidence t id destination route e).
Proof. unfold record_identity_evidence. walk. Qed.
Lemma acknowledge_steps t agent route n m x y :
  preserves (on_planes runs) (acknowledge_projection t agent route n m x y).
Proof. unfold acknowledge_projection. walk. Qed.
Lemma observation_steps t route n o : preserves (on_planes runs) (record_route_observation t route n o).
Proof. unfold record_route_observation. walk. Qed.
Lemma runtime_steps t agent o : preserves (on_planes runs) (record_node_runtime_observation t agent o).
Proof. unfold record_node_runtime_observation. walk. Qed.
#[local] Hint Resolve presence_steps upsert_route_steps upsert_destination_steps membership_steps evidence_steps
  acknowledge_steps observation_steps runtime_steps : calls.

Lemma project_printers_moves c ulid key t agent l done :
  moves runs (project_printers c ulid key t agent l done).
Proof.
  revert done. induction l as [|x l IH]; intros done; simpl; [walk|].
  unfold project_route, touch_destination. walk.
Qed.
Lemma remove_route_moves t agent x : moves runs (remove_route t agent x).
Proof. unfold remove_route. walk. Qed.
Lemma observe_route_moves c t agent known o : moves runs (observe_route c t agent known o).
Proof. unfold observe_route. walk. Qed.
#[local] Hint Resolve project_printers_moves remove_route_moves observe_route_moves : calls.
Lemma project_topology_moves c ulid key t agent l changes seen :
  moves runs (project_agent_topology c ulid key t agent l changes seen).
Proof. unfold project_agent_topology. walk. Qed.
Lemma availability_moves c locked t agent runtime accepts :
  moves runs (record_runtime_availability c locked t agent runtime accepts).
Proof. unfold record_runtime_availability. walk. Qed.
#[local] Hint Resolve project_topology_moves availability_moves : calls.

(** ** Deliveries *)

Lemma reserve_moves c ulid uuid token t j until : moves runs (reserve_job_route c ulid uuid token t j until).
Proof. unfold reserve_job_route. walk. Qed.
Lemma ingest_one_moves c t agent i : moves runs (ingest_handoff c t agent i).
Proof. unfold ingest_handoff, advance_from, demand_attention. walk. Qed.
#[local] Hint Resolve ingest_one_moves : calls.
Lemma ingest_moves c t agent l : moves runs (ingest_native_handoffs c t agent l).
Proof. unfold ingest_native_handoffs. walk. Qed.
Lemma reconcile_moves c t agent e : moves runs (reconcile_post_spooler_event c t agent e).
Proof. unfold reconcile_post_spooler_event. walk. Qed.
Lemma reprint_moves c ulid billing t id r : moves runs (create_authorized_reprint c ulid billing t id r).
Proof. unfold create_authorized_reprint, validate_reprintable_job, transition_job. walk. Qed.
#[local] Hint Resolve reserve_moves ingest_moves reconcile_moves reprint_moves : calls.
Lemma finalize_moves c ulid billing t agent : moves runs (finalize_acknowledged_uncertainty c ulid billing t agent).
Proof.
  unfold finalize_acknowledged_uncertainty. apply moves_bind; [apply _| |walk].
  apply moves_operation. intros s. apply finalize_acknowledged_runs.
Qed.

(** ** The offer *)

#[local] Hint Resolve finalize_moves : calls.
Lemma release_lease_moves w t agent l : moves runs (release_lease w t agent l).
Proof. unfold release_lease. walk. Qed.
#[local] Hint Resolve release_lease_moves : calls.

Lemma select_runs w t agent cap l : moves runs (select_offer w t agent cap l).
Proof.
  apply select_moves; [apply _| |]; [eauto with calls|]. apply Forall_true. intros x.
  split_and!; eauto with calls.
Qed.
Lemma publish_runs key t event j : moves runs (publish_idempotently key t event j).
Proof. apply publish_idempotently_moves; [apply _|]. eauto with calls. Qed.
#[local] Hint Resolve select_runs publish_runs : calls.
Lemma recover_capabilities_runs w t agent cap : moves runs (recover_capabilities w t agent cap).
Proof. unfold recover_capabilities, recover_blocked. walk. Qed.
#[local] Hint Resolve recover_capabilities_runs : calls.
Lemma make_offers_runs w t agent q b : moves runs (make_offers w t agent q b).
Proof.
  unfold make_offers, reserve_offer. walk. apply releasing_moves; [apply _| |eauto with calls].
  apply Forall_singleton, release_lease_moves.
Qed.
#[local] Hint Resolve make_offers_runs : calls.

(** ** The handler *)

Lemma receive_inventory_runs w d t agent q : moves runs (receive_inventory w d t agent q).
Proof. unfold receive_inventory. walk. Qed.
Lemma receive_diagnostic_runs w t agent r : moves runs (receive_diagnostic w t agent r).
Proof. unfold receive_diagnostic, store_node_diagnostic. walk. Qed.
Lemma receive_event_runs w t agent e : moves runs (receive_event w t agent e).
Proof. unfold receive_event, apply_event. walk. Qed.
Lemma exchange_commands_runs w t agent q : moves runs (exchange_commands w t agent q).
Proof. unfold exchange_commands, deliverable. walk. Qed.
#[local] Hint Resolve receive_inventory_runs receive_diagnostic_runs receive_event_runs exchange_commands_runs : calls.

(** ** The scheduler of waiting jobs *)

Lemma media_fence_runs t j target binding : moves runs (media_fence t j target binding).
Proof. unfold media_fence, candidate, validate_printpacket_media_fence, reads. walk. Qed.
Lemma supports_runs t j printer : moves runs (candidate (reroute_candidate_supports_rendered_job t j printer)).
Proof. unfold candidate, reroute_candidate_supports_rendered_job, reads. walk. Qed.
#[local] Hint Resolve media_fence_runs supports_runs : calls.
Lemma try_route_runs c t j target bindings route : moves runs (try_route c t j target bindings route).
Proof. unfold try_route. walk. Qed.
#[local] Hint Resolve try_route_runs : calls.
Lemma try_routes_runs c t j target bindings routes : moves runs (try_routes c t j target bindings routes).
Proof. induction routes as [|route routes IH]; simpl; walk. Qed.
Lemma list_bindings_runs t target : preserves runs (list_target_bindings t target).
Proof. unfold list_target_bindings, numbered_binding. walk. Qed.
#[local] Hint Resolve try_routes_runs list_bindings_runs : calls.
Lemma schedule_runs c t : moves runs (schedule_waiting_destination_jobs c t).
Proof. unfold schedule_waiting_destination_jobs, schedule_job. walk. Qed.
#[local] Hint Resolve schedule_runs : calls.

Lemma receive_runs w d t agent q : moves runs (receive w d t agent q).
Proof. unfold receive. walk. Qed.
#[local] Hint Resolve receive_runs : calls.
Lemma agent_sync_moves w d t agent q : moves runs (agent_sync w d t agent q).
Proof. unfold agent_sync. walk. Qed.

(** The two parts of a sync that succeeds. *)
Lemma sync_parts w d t agent q p p' r :
  agent_sync w d t agent q p = (p', Ok r) →
  ∃ p1 received, receive w d t agent q p = (p1, Ok received) ∧ runs p.(store) p1.(store)
    ∧ make_offers w t agent q (q.(sy_queue).(qs_accepts_jobs) && received.(rc_admission).(eligible_for_offers)) p1
      = (p', Ok r.(ar_candidate_jobs)).
Proof.
  unfold agent_sync. intros (p1 & received & Hc & (p2 & offers & Ho & Hr)%call_bind_Ok)%call_bind_Ok.
  injection Hr as <- <-. pose proof (receive_runs w d t agent q p) as Hm. rewrite Hc in Hm. by exists p1, received.
Qed.
End runs.
