(* ===== verification/ControlLeases.v ===== *)
(** What the offer of a job does to the leases of the batch it was claimed in: every lease
    is given back, but for the one that is offered and for the jobs a node has taken over;
    and the row of the job that is offered is left alone. *)

From S2P Require Import Prelude Domain CloudStore CloudWake CloudJobs CloudRouting CloudReroute CloudFacts CloudSystem CloudSteps CloudMachine ControlPlane ControlInventory ControlDeliveries ControlOffers ControlSchedule ControlSync ControlFacts.

(** * Giving back *)

(** A row keeps its tenant, its node and its lease, or loses the lease. *)
Definition row_gives_back (r r' : JobRow) : Prop :=
  r'.(jr_tenant) = r.(jr_tenant) ∧ r'.(jr_place).(agent_id) = r.(jr_place).(agent_id)
  ∧ (r'.(jr_lease) = r.(jr_lease) ∨ r'.(jr_lease) = no_lease).
(** An attempt that some node works on. *)
Definition works_on (a : AttemptRow) : Prop := a.(at_state) ≠ Attempt.RouteLeased ∧ a.(at_final_at) = None.
(** No job gets a lease, and no node takes a job over. *)
Record gives_back (s s' : Store) : Prop := {
  gb_jobs id r' : s'.(jobs) !! id = Some r' → ∃ r, s.(jobs) !! id = Some r ∧ row_gives_back r r';
  gb_attempts k a : s'.(delivery_attempts) !! k = Some a → works_on a → s.(delivery_attempts) !! k = Some a
}.
#[export] Instance gives_back_preorder : PreOrder gives_back.
Proof.
  split.
  - intros s. split; [|done]. intros id r Hr. exists r. split; [done|]. split_and!; [done..|by left].
  - intros s1 s2 s3 [H1 A1] [H2 A2]. split; [|naive_solver].
    intros id r3 (r2 & Hr2 & Ht & Ha & Hl)%H2. destruct (H1 _ _ Hr2) as (r1 & Hr1 & Ht' & Ha' & Hl').
    exists r1. split; [done|]. split_and!; [congruence..|]. destruct Hl as [->| ->]; [done|by right].
Qed.

Lemma gives_back_quiet s s' :
  s'.(jobs) = s.(jobs) → s'.(delivery_attempts) = s.(delivery_attempts) → gives_back s s'.
Proof. intros Hj Ha. destruct (reflexivity s : gives_back s s) as [H1 H2]. split; rewrite ?Hj, ?Ha; done. Qed.
Lemma gives_back_job f id s : (∀ r, row_gives_back r (f r)) → gives_back s (on_jobs (alter f id) s).
Proof.
  intros Hf. split; [|done]. simpl. intros id' r'. rewrite lookup_alter_row.
  intros (r & Hr & ->)%fmap_Some. exists r. split; [done|]. case_decide; [apply Hf|]. split_and!; [done..|by left].
Qed.
Lemma gives_back_attempts p f s : (∀ a, ¬ works_on (f a)) → gives_back s (on_delivery_attempts (update_where p f) s).
Proof.
  intros Hf. split; [intros id r Hr; by apply (reflexivity s : gives_back s s)|].
  simpl. intros k a'. rewrite lookup_update_where. intros (a & Ha & ->)%fmap_Some Hw.
  destruct (p a); [by apply Hf in Hw|done].
Qed.
Lemma gives_back_insert k a s : ¬ works_on a → gives_back s (on_delivery_attempts <[k := a]> s).
Proof.
  intros Hf. split; [intros id r Hr; by apply (reflexivity s : gives_back s s)|].
  simpl. intros k' a' [[<- <-]|[Hne Ha]]%lookup_insert_Some Hw; [done|done].
Qed.
Lemma finish_gives_back t p st now s : gives_back s (finish_attempts t p st now s).
Proof. apply gives_back_attempts. intros a [_ Hw]. done. Qed.
Lemma supersede_gives_back t ids now s : gives_back s (supersede t ids now s).
Proof. unfold supersede. etrans; [apply finish_gives_back|by apply gives_back_quiet]. Qed.

#[local] Hint Extern 1 (gives_back _ (on_jobs (alter _ _) _)) =>
  apply gives_back_job; intros; split_and!; [done..|by eauto] : calls.
#[local] Hint Extern 1 (gives_back _ _) => by apply gives_back_quiet : calls.
#[local] Hint Resolve finish_gives_back supersede_gives_back : calls.

Section batch.
Context `{CloudExternal} `{Outbox} `{Documents}.
Variable w : Turn.
Variable t : Tenant.
Variable agent : string.

Lemma supersede_steps id : preserves gives_back (supersede_pre_handoff_delivery_attempts w.(clock) t id).
Proof. unfold supersede_pre_handoff_delivery_attempts. walk. Qed.
Lemma enqueue_steps key event j : preserves gives_back (enqueue_webhook_event_in_transaction key t event j).
Proof. unfold enqueue_webhook_event_in_transaction. walk. case_match; [done|by apply gives_back_quiet]. Qed.
#[local] Hint Resolve supersede_steps enqueue_steps : calls.
Lemma block_steps id lease token : preserves gives_back (block_agent_lease_for_node_update w.(clock) t agent id lease token).
Proof. unfold block_agent_lease_for_node_update, insert_event, update_job, notify. walk. Qed.
Lemma fail_steps id lease token reason message :
  preserves gives_back (fail_agent_lease_before_handoff w.(clock) t agent id lease token reason message).
Proof. unfold fail_agent_lease_before_handoff, insert_event, update_job, notify. walk. Qed.
Lemma release_steps id lease token : preserves gives_back (release_agent_lease w.(clock) t agent id lease token).
Proof. unfold release_agent_lease, update_job. walk. Qed.
Lemma recover_steps id : preserves gives_back (recover_node_update_required_job w.(clock) t agent id).
Proof. unfold recover_node_update_required_job, insert_event, update_job, notify. walk. Qed.
Lemma list_required_steps locked limit : preserves gives_back (list_node_update_required_jobs w.(clock) locked t agent limit).
Proof. unfold list_node_update_required_jobs. walk. Qed.
Lemma begin_steps q token : preserves gives_back (begin_delivery_attempt w.(clock) t q token).
Proof.
  unfold begin_delivery_attempt, check_delivery, check_against, reserve_delivery, retire_own_attempt, insert_attempt,
    insert_reservation, update_job. walk. apply gives_back_insert. by intros [? _].
Qed.
#[local] Hint Resolve block_steps fail_steps release_steps recover_steps list_required_steps begin_steps : calls.

(** ** Leases that are held *)

Definition held (l : JobLease) (s : Store) : Prop :=
  is_Some (holds_lease w.(clock) t agent l.(jl_job).(j_id) l.(jl_lease_id) l.(jl_lease_token) s).
Definition taken_over (id : string) (s : Store) : Prop :=
  ∃ k a, s.(delivery_attempts) !! k = Some a ∧ a.(at_tenant) = t ∧ a.(at_job_id) = id ∧ works_on a.

Lemma holds_lease_iff id lease token s r :
  holds_lease w.(clock) t agent id lease token s = Some r ↔
  s.(jobs) !! id = Some r ∧ r.(jr_tenant) = t ∧ r.(jr_place).(agent_id) = agent
  ∧ r.(jr_lease).(lease_id) = Some lease ∧ r.(jr_lease).(lease_token_hash) = Some (sha256 token)
  ∧ time_after r.(jr_lease).(lease_until) w.(clock).(sql_now) = true.
Proof.
  split; [apply holds_lease_Some|]. unfold holds_lease, job_of.
  intros (-> & Ht & Ha & Hi & Hh & Hu). rewrite decide_True by done. by rewrite !bool_decide_eq_true_2, Hu.
Qed.
Lemma holds_back id lease token s s' :
  gives_back s s' → is_Some (holds_lease w.(clock) t agent id lease token s') →
  is_Some (holds_lease w.(clock) t agent id lease token s).
Proof.
  intros [Hj _] [r (Hr & Ht & Ha & Hi & Hh & Hu)%holds_lease_iff]. destruct (Hj _ _ Hr) as (r0 & Hr0 & Ht0 & Ha0 & Hl).
  exists r0. apply holds_lease_iff. destruct Hl as [Hl|Hl]; rewrite Hl in *; [|done]. split_and!; congruence.
Qed.
Lemma held_back l s s' : gives_back s s' → held l s' → held l s.
Proof. apply holds_back. Qed.
Lemma taken_over_back id s s' : gives_back s s' → taken_over id s' → taken_over id s.
Proof. intros [_ Ha] (k & a & Hk & Ht & Hi & Hw). exists k, a. eauto. Qed.

Lemma release_lease_respects l : moves gives_back (release_lease w t agent l).
Proof. unfold release_lease. walk. Qed.
Lemma lease_respects_all l : lease_respects gives_back w t agent l.
Proof. split_and!; [apply release_lease_respects|apply block_steps|intros; apply fail_steps]. Qed.
Lemma batch_gives_back ls : moves gives_back (release_agent_lease_batch w t agent ls).
Proof. apply batch_moves; [apply _|]. apply Forall_true, release_lease_respects. Qed.
Lemma releasing_gives_back {A} ls (m : Call A) : moves gives_back m → moves gives_back (releasing w t agent ls m).
Proof. intros Hm. apply releasing_moves; [apply _| |done]. apply Forall_true, release_lease_respects. Qed.
Lemma select_gives_back cap ls : moves gives_back (select_offer w t agent cap ls).
Proof. apply select_moves; [apply _|apply enqueue_steps|]. apply Forall_true, lease_respects_all. Qed.
Lemma publish_gives_back key event j : moves gives_back (publish_idempotently key t event j).
Proof. apply publish_idempotently_moves; [apply _|apply enqueue_steps]. Qed.
Lemma reserve_gives_back ulid uuid token j until :
  moves gives_back (reserve_job_route w.(clock) ulid uuid token t j until).
Proof. unfold reserve_job_route. walk. Qed.
Lemma reserve_offer_gives_back selected : moves gives_back (reserve_offer w t agent selected).
Proof.
  unfold reserve_offer. destruct selected as [[l content]|]; [|walk].
  apply moves_bind; [apply _|apply releasing_gives_back, reserve_gives_back|]. intros [|d r|r]; walk; apply release_lease_respects.
Qed.

(** A release that failed had nothing to release. *)
Lemma released l p : ¬ held l (release_lease w t agent l p).1.(store).
Proof.
  unfold release_lease, run, in_store, release_agent_lease, mbind, tx_bind, fetch.
  destruct (holds_lease _ _ _ _ _ _ p.(store)) as [r|] eqn:Hh; cbn -[held]; unfold held; [|by rewrite Hh; intros []].
  apply holds_lease_iff in Hh as (Hr & _). intros [r' (Hr' & _ & _ & Hi & _)%holds_lease_iff]. simpl in Hr'.
  rewrite lookup_alter_eq, Hr in Hr'. by simplify_eq/=.
Qed.
Lemma batch_released l ls p : l ∈ ls → ¬ held l (release_agent_lease_batch w t agent ls p).1.(store).
Proof.
  revert p. induction ls as [|x ls IH]; intros p Hl; [by apply elem_of_nil in Hl|]. cbn [release_agent_lease_batch].
  pose proof (released x p) as Hx. destruct (release_lease w t agent x p) as [p1 r1]. specialize (IH p1).
  pose proof (batch_gives_back ls p1) as Hb. destruct (release_agent_lease_batch w t agent ls p1) as [p2 r2]. simpl in *.
  apply elem_of_cons in Hl as [->|Hl]; [|by apply IH]. intros Hh. by apply Hx, (held_back _ _ _ Hb).
Qed.

Lemma releasing_Ok {A} ls (m : Call A) p p' a : releasing w t agent ls m p = (p', Ok a) ↔ m p = (p', Ok a).
Proof. unfold releasing, or_else. destruct (m p) as [p1 [b|e]]; [done|]. split; [|done]. by unfold mbind, call_bind. Qed.
Lemma releasing_Err {A} ls (m : Call A) p p' e l :
  releasing w t agent ls m p = (p', Err e) → l ∈ ls → ¬ held l p'.(store).
Proof.
  unfold releasing, or_else. destruct (m p) as [p1 [b|e']]; [done|]. unfold mbind, call_bind. cbn. intros [= <- _] Hl.
  by apply batch_released.
Qed.

(** ** Transitions of the server *)

(** The lease ends with the transition; without one, a node works on the job. *)
Definition ends_lease (l : JobLease) (m : Tx PreHandoffTransitionOutcome) : Prop :=
  preserves gives_back m ∧ ∀ s s' o, m s = Ok (s', o) →
  match o with Transitioned _ _ => ¬ held l s' | UnsafeLocalResponsibility => taken_over l.(jl_job).(j_id) s end.

Lemma supersede_false id s s' : supersede_pre_handoff_delivery_attempts w.(clock) t id s = Ok (s', false) → taken_over id s.
Proof.
  unfold supersede_pre_handoff_delivery_attempts. intros Hm. tx Hm.
  destruct (existsb _ _) eqn:He; cycle 1.
  { destruct (bool_decide _); [by apply tx_ret_Ok in Hm as [_ ?]|]. unfold mbind, tx_bind in Hm. by simplify_eq/=. }
  apply existsb_exists in He as ([k a] & Hin%list_elem_of_In & Hs). apply elem_of_select_rows in Hin as [Hk Hp].
  unfold of_job in Hp. checks. apply bool_decide_eq_false in Hs. by exists k, a.
Qed.
Lemma cleared_row l s s' f :
  s'.(jobs) = alter f l.(jl_job).(j_id) s.(jobs) → (∀ r, (f r).(jr_lease) = no_lease) → ¬ held l s'.
Proof.
  intros Hj Hf [r' (Hr' & _ & _ & Hi & _)%holds_lease_iff]. rewrite Hj, lookup_alter_eq in Hr'.
  apply fmap_Some in Hr' as (r & _ & ->). by rewrite Hf in Hi.
Qed.
Lemma notify_jobs key j s s' u : notify key t j s = Ok (s', u) → s'.(jobs) = s.(jobs).
Proof. unfold notify, enqueue_webhook_event_in_transaction. intros Hm. tx Hm. by case_match. Qed.
Lemma fail_ends l reason message : ends_lease l (fail_lease w t agent l reason message).
Proof.
  split; [apply fail_steps|]. intros s s' o. unfold fail_lease, fail_agent_lease_before_handoff. intros Hm. tx Hm.
  destruct x0; cbn [negb] in Hm; [|tx Hm; by eapply supersede_false].
  tx Hm. subst s2. eapply (cleared_row l s1); [by rewrite (notify_jobs _ _ _ _ _ Hx4)|done].
Qed.
Lemma block_ends l : ends_lease l (block_lease w t agent l).
Proof.
  split; [apply block_steps|]. intros s s' o. unfold block_lease, block_agent_lease_for_node_update. intros Hm. tx Hm.
  destruct x0; cbn [negb] in Hm; [|tx Hm; by eapply supersede_false].
  tx Hm. subst s2. eapply (cleared_row l s1); [by rewrite (notify_jobs _ _ _ _ _ Hx4)|done].
Qed.

Lemma transition_done l ls m unsafe p p' :
  ends_lease l m → moves gives_back unsafe → transition_lease w t agent l ls m unsafe p = (p', Ok ()) →
  ¬ held l p'.(store)
  ∨ taken_over l.(jl_job).(j_id) p.(store) ∧ ∃ p1, unsafe p1 = (p', Ok ()).
Proof.
  intros [_ Hm] Hu (p1 & o & Hc1 & Hc2)%call_bind_Ok. apply releasing_Ok, run_Ok, in_store_Ok in Hc1 as (s & Hs & ->).
  specialize (Hm _ _ _ Hs). destruct o as [j key|]; [left|right; by eauto].
  apply releasing_Ok in Hc2. pose proof (publish_gives_back key "job.updated" j (on_store (λ _, s) p)) as Hp.
  rewrite Hc2 in Hp. intros Hh. by apply Hm, (held_back _ _ _ Hp).
Qed.
Lemma transition_failed l ls m unsafe p p' e x :
  ends_lease l m → (∀ p p' e, unsafe p = (p', Err e) → x ∈ l :: ls → ¬ held x p'.(store)) →
  transition_lease w t agent l ls m unsafe p = (p', Err e) → x ∈ l :: ls → ¬ held x p'.(store).
Proof.
  intros [_ Hm] Hu [Hc1|(p1 & o & Hc1 & Hc2)]%call_bind_Err Hx; [by eapply releasing_Err|].
  apply releasing_Ok, run_Ok, in_store_Ok in Hc1 as (s & Hs & ->).
  specialize (Hm _ _ _ Hs). destruct o as [j key|]; [|by eapply Hu].
  apply elem_of_cons in Hx as [->|Hx]; [|by eapply releasing_Err].
  pose proof (releasing_gives_back ls _ (publish_gives_back key "job.updated" j) (on_store (λ _, s) p)) as Hp.
  rewrite Hc2 in Hp. intros Hh. by apply Hm, (held_back _ _ _ Hp).
Qed.

(** ** The batch *)

(** A lease that is not offered is done with: it is gone, or a node works on the job; an
    error gives all of them back. *)
Record disposes (l : JobLease) (ls : list JobLease) (m : Call unit) : Prop := {
  ds_back : moves gives_back m;
  ds_done p p' : m p = (p', Ok ()) → ¬ held l p'.(store) ∨ taken_over l.(jl_job).(j_id) p.(store);
  ds_failed p p' e x : m p = (p', Err e) → x ∈ l :: ls → ¬ held x p'.(store)
}.
Lemma give_back_disposes l ls : disposes l ls (releasing w t agent (l :: ls) (release_lease w t agent l)).
Proof.
  split.
  - apply releasing_gives_back, release_lease_respects.
  - intros p p' Hr%releasing_Ok. left. pose proof (released l p) as Hn. by rewrite Hr in Hn.
  - intros p p' e x. apply releasing_Err.
Qed.
Lemma transition_disposes l ls m unsafe :
  ends_lease l m → disposes l ls unsafe ∨ unsafe = mret () → disposes l ls (transition_lease w t agent l ls m unsafe).
Proof.
  intros Hm Hu. assert (moves gives_back unsafe) as Hb.
  { destruct Hu as [Hu| ->]; [apply Hu|apply moves_ret, _]. }
  split.
  - apply transition_moves; [apply _|apply enqueue_steps|apply release_lease_respects| |apply Hm|done].
    apply Forall_true, release_lease_respects.
  - intros p p' Hr. apply transition_done in Hr as [Hr|[Hr _]]; [by left|by right|done..].
  - intros p p' e x Hr Hx. eapply transition_failed in Hr; [done|done| |done].
    intros p1 p2 e' Hp _. destruct Hu as [Hu| ->]; [by eapply Hu|done].
Qed.

(** The leases that are still held after a selection. *)
Definition left_held (ls : list JobLease) (p p' : Plane) (r : result AppError (option (JobLease * ContentDescriptor))) : Prop :=
  ∀ x, x ∈ ls → held x p'.(store) →
  (∃ content, r = Ok (Some (x, content))) ∨ taken_over x.(jl_job).(j_id) p.(store).
Lemma dispose_left l ls cap m p p' r :
  disposes l ls m → (∀ p p' r, select_offer w t agent cap ls p = (p', r) → left_held ls p p' r) →
  (_ ← m; select_offer w t agent cap ls) p = (p', r) → left_held (l :: ls) p p' r.
Proof.
  intros [Hb Hd Hf] IH Hr x Hx Hh. unfold mbind, call_bind in Hr. specialize (Hb p).
  destruct (m p) as [p1 [[]|e]] eqn:Em; simplify_eq; [|by eapply Hf in Hx].
  apply elem_of_cons in Hx as [->|Hx].
  - right. destruct (Hd _ _ Em) as [Hn|?]; [|done]. destruct Hn.
    eapply held_back; [|done]. pose proof (select_gives_back cap ls p1) as Hs. by rewrite Hr in Hs.
  - destruct (IH _ _ _ Hr x Hx Hh) as [?|Ht]; [by left|right]. by eapply taken_over_back.
Qed.
Lemma chosen_left l ls content p p' r :
  (_ ← or_else (release_agent_lease_batch w t agent ls)
         (λ e, _ ← whatever (release_agent_lease_batch w t agent [l]); fail e);
   mret (Some (l, content))) p = (p', r) → left_held (l :: ls) p p' r.
Proof.
  unfold mbind at 1, call_bind at 1, or_else. intros Hr x Hx Hh.
  destruct (release_agent_lease_batch w t agent ls p) as [p1 [[]|e]] eqn:Eb.
  - injection Hr as <- <-. apply elem_of_cons in Hx as [->|Hx]; [left; by eexists|].
    pose proof (batch_released x ls p Hx) as Hn. by rewrite Eb in Hn.
  - unfold mbind, call_bind, whatever in Hr. injection Hr as <- <-. apply elem_of_cons in Hx as [->|Hx].
    + by eapply (batch_released l [l]) in Hh; [|left].
    + pose proof (batch_released x ls p Hx) as Hn. rewrite Eb in Hn. destruct Hn.
      eapply held_back; [|done]. apply (batch_gives_back [l]).
Qed.
Lemma select_left cap ls p p' r : select_offer w t agent cap ls p = (p', r) → left_held ls p p' r.
Proof.
  revert p p' r. induction ls as [|l ls IH]; intros p p' r; cbn [select_offer].
  { intros _ x Hx. by apply elem_of_nil in Hx. }
  unfold checked. unfold mbind at 1, call_bind at 1.
  destruct (releasing _ _ _ _ _ p) as [p1 [failure|e]] eqn:Hf; cycle 1.
  { intros [= <- <-] x Hx Hh. by eapply releasing_Err in Hx. }
  apply releasing_Ok in Hf as [= <- _]. destruct failure as [[reason message]|].
  { apply dispose_left; [|done]. apply transition_disposes; [apply fail_ends|by right]. }
  unfold mbind at 1, call_bind at 1.
  destruct (releasing _ _ _ _ _ p) as [p2 [preparation|e]] eqn:Hp; cycle 1.
  { intros [= <- <-] x Hx Hh. by eapply releasing_Err in Hx. }
  apply releasing_Ok in Hp as [= <- _]. destruct preparation as [content| | |reason message].
  - by apply chosen_left.
  - apply dispose_left; [|done]. apply transition_disposes; [apply block_ends|]. left. apply give_back_disposes.
  - apply dispose_left; [|done]. apply give_back_disposes.
  - apply dispose_left; [|done]. apply transition_disposes; [apply fail_ends|]. left. apply give_back_disposes.
Qed.

Lemma reserve_left l content p p' r :
  reserve_offer w t agent (Some (l, content)) p = (p', r) → held l p'.(store) → ∃ rv, r = Ok [offer_of l content rv].
Proof.
  unfold reserve_offer. unfold mbind at 1, call_bind at 1.
  destruct (releasing _ _ _ _ _ p) as [p1 [rv|e]] eqn:Hr; cycle 1.
  { intros [= <- <-] Hh. eapply releasing_Err in Hr; [done|left]. }
  pose proof (released l p1) as Hn. destruct rv as [|d route|rv].
  - unfold mbind, call_bind. destruct (release_lease w t agent l p1) as [p2 [u|e]]; by intros [= <- <-].
  - unfold mbind, call_bind. destruct (release_lease w t agent l p1) as [p2 [u|e]]; [|by intros [= <- <-]].
    pose proof (moves_publish gives_back t "route.updated" (OfRoute agent d route) p2) as Hp.
    destruct (publish t _ _ p2) as [p3 [v|e]]; intros [= <- <-] Hh; destruct Hn; by eapply held_back.
  - intros [= <- <-] _. by eexists.
Qed.

(** ** The claim *)

Definition lease_columns (owner id : string) : LeaseColumns :=
  {| lease_owner := Some owner; lease_id := Some (w.(new_lease) id).1;
     lease_token_hash := Some (sha256 (w.(new_lease) id).2);
     lease_until := Some (w.(clock).(utc_now) + seconds 30)%Z |}.
Definition lease_of (e : string * JobRow) : JobLease :=
  {| jl_job := job_from_row e.2; jl_lease_id := (w.(new_lease) e.1).1; jl_lease_token := (w.(new_lease) e.1).2;
     jl_lease_until := (w.(clock).(utc_now) + seconds 30)%Z |}.
Lemma claim_rows owner rows s s' ls :
  for_each (claim_job w.(clock) owner w.(new_lease)) rows s = Ok (s', ls) →
  ls = lease_of <$> rows ∧ s'.(delivery_attempts) = s.(delivery_attempts)
  ∧ ∀ id, s'.(jobs) !! id = (λ r, if decide (id ∈ rows.*1) then with_lease (lease_columns owner id) r else r) <$> s.(jobs) !! id.
Proof.
  revert s s' ls. induction rows as [|[id0 r0] rows IH]; intros s s' ls; cbn [for_each].
  { intros [-> ->]%tx_ret_Ok. split_and!; [done..|]. intros id. by destruct (s.(jobs) !! id). }
  intros (s1 & l & Hl & (s2 & ls' & Hls & [-> ->]%tx_ret_Ok)%tx_bind_Ok)%tx_bind_Ok.
  apply IH in Hls as (-> & Ha & Hj). unfold claim_job in Hl. destruct (w.(new_lease) (id0, r0).1) as [lease token] eqn:En.
  tx Hl. subst s0.
  split_and!; [by unfold lease_of; simpl in *; rewrite En|done|].
  intros id. rewrite Hj. cbn [on_jobs jobs]. rewrite lookup_alter_row. rewrite fmap_cons.
  destruct (s.(jobs) !! id) as [r|]; [|done]. cbn [fmap option_fmap option_map fst]. f_equal.
  destruct (decide (id = id0)) as [->|Hne].
  - rewrite (decide_True (P := id0 ∈ id0 :: rows.*1)) by left. cbn [fst] in En. unfold lease_columns. rewrite En. by case_decide.
  - rewrite (decide_ext (id ∈ id0 :: rows.*1) (id ∈ rows.*1)); [done|]. rewrite elem_of_cons. naive_solver.
Qed.
Lemma claim_shape owner limit s s' ls :
  claim_jobs w.(clock) w.(locked_job) w.(new_lease) t agent owner limit s = Ok (s', ls) →
  ∃ rows, still rows s ∧ (∀ id r, (id, r) ∈ rows → claimable w.(clock) t agent r = true) ∧ ls = lease_of <$> rows
    ∧ s'.(delivery_attempts) = s.(delivery_attempts)
    ∧ ∀ id, s'.(jobs) !! id = (λ r, if decide (id ∈ rows.*1) then with_lease (lease_columns owner id) r else r) <$> s.(jobs) !! id.
Proof.
  unfold claim_jobs. intros (s1 & rows & [-> ->]%query_Ok & Hr)%tx_bind_Ok. eexists. split; [apply still_sorted|].
  split; [|by apply claim_rows]. intros id r Hin. apply elem_of_take in Hin as (i & Hi & _).
  apply list_elem_of_lookup_2, elem_of_sort_by, elem_of_select_rows in Hi as [_ Hi]. by apply andb_true_iff in Hi as [? _].
Qed.

(** The lease the sync draws for a job. *)
Definition drawn (id : string) (s : Store) : Prop :=
  is_Some (holds_lease w.(clock) t agent id (w.(new_lease) id).1 (w.(new_lease) id).2 s).
Lemma drawn_back id s s' : gives_back s s' → drawn id s' → drawn id s.
Proof. apply holds_back. Qed.
Lemma claim_drawn owner limit s s' ls id :
  cloud_wf s → claim_jobs w.(clock) w.(locked_job) w.(new_lease) t agent owner limit s = Ok (s', ls) → drawn id s' →
  drawn id s ∨ ∃ l, l ∈ ls ∧ l.(jl_job).(j_id) = id ∧ held l s'.
Proof.
  intros Hwf (rows & [_ Hst] & _ & -> & _ & Hj)%claim_shape Hd.
  destruct (decide (id ∈ rows.*1)) as [Hin|Hn]; [right|left].
  - apply list_elem_of_fmap in Hin as ([i r] & -> & Hin). exists (lease_of (i, r)).
    assert (Hi : (lease_of (i, r)).(jl_job).(j_id) = i) by exact (rw_id _ _ (row_of _ _ _ Hwf (Hst _ _ Hin))).
    split_and!; [apply list_elem_of_fmap; by eexists|done|]. unfold held. by rewrite Hi.
  - destruct Hd as [r (Hr & Hrest)%holds_lease_iff]. exists r. apply holds_lease_iff. split; [|done].
    rewrite Hj in Hr. apply fmap_Some in Hr as (r0 & Hr0 & ->). by rewrite decide_False in Hrest |- *.
Qed.

Lemma recover_capabilities_back cap : moves gives_back (recover_capabilities w t agent cap).
Proof. unfold recover_capabilities, recover_blocked. walk; apply publish_gives_back. Qed.

Lemma offer_left owner limit cap p p' r id :
  cloud_wf p.(store) →
  (leases ← run repository_error (in_store (claim_jobs w.(clock) w.(locked_job) w.(new_lease) t agent owner limit));
   selected ← select_offer w t agent cap leases;
   reserve_offer w t agent selected) p = (p', r) → drawn id p'.(store) →
  drawn id p.(store) ∨ taken_over id p.(store) ∨ ∃ o, r = Ok [o] ∧ o.(jo_job).(j_id) = id.
Proof.
  intros Hwf. unfold mbind at 1, call_bind at 1.
  destruct (run _ _ p) as [p1 [ls|e]] eqn:Hc; cycle 1.
  { unfold run in Hc. destruct (in_store _ p) as [[]|]; simplify_eq. intros [= <- <-]. auto. }
  apply run_Ok, in_store_Ok in Hc as (s1 & Hc & ->). intros Hm Hd.
  set (p1 := on_store (λ _, s1) p) in *. unfold mbind, call_bind in Hm.
  pose proof (select_gives_back cap ls p1) as Hsb. destruct (select_offer w t agent cap ls p1) as [p2 rs] eqn:Hs.
  assert (drawn id p2.(store) ∧ gives_back p2.(store) p'.(store)) as [Hd2 Hg].
  { destruct rs as [selected|e]; [|by simplify_eq].
    pose proof (reserve_offer_gives_back selected p2) as Hrb. rewrite Hm in Hrb. split; [|done]. by eapply drawn_back. }
  destruct (claim_drawn _ _ _ _ _ id Hwf Hc) as [?|(l & Hl & <- & _)]; [by eapply drawn_back|by left|]. right.
  assert (Hh : held l p'.(store)).
  { destruct (claim_shape _ _ _ _ _ Hc) as (rows & [_ Hst] & _ & -> & _). apply list_elem_of_fmap in Hl as ([i x] & -> & Hin).
    assert (Hi : (lease_of (i, x)).(jl_job).(j_id) = i) by exact (rw_id _ _ (row_of _ _ _ Hwf (Hst _ _ Hin))).
    unfold held, drawn in *. by rewrite Hi in Hd |- *. }
  destruct (select_left _ _ _ _ _ Hs l Hl) as [[content ->]|(k & a & Hk & Hrest)]; [by eapply held_back| |].
  - right. apply reserve_left in Hm as [rv ->]; [|done]. by eexists.
  - left. exists k, a. split; [|done]. destruct (claim_shape _ _ _ _ _ Hc) as (rows & _ & _ & _ & Ha & _).
    by rewrite <- Ha.
Qed.
(** No lease that the sync draws is left behind. *)
Lemma offers_left q b p p' r id :
  cloud_wf p.(store) → make_offers w t agent q b p = (p', r) → drawn id p'.(store) →
  drawn id p.(store) ∨ taken_over id p.(store) ∨ ∃ o, r = Ok [o] ∧ o.(jo_job).(j_id) = id.
Proof.
  intros Hwf. unfold make_offers. destruct b; cbn [negb]; [|by intros [= <- <-] ?; left].
  unfold mbind at 1, call_bind at 1. pose proof (recover_capabilities_back q.(sy_document_render) p) as Hg.
  pose proof (recover_capabilities_runs w t agent q.(sy_document_render) p) as Hr.
  apply runs_evolves in Hr as [_ Hwf1]; [|done].
  destruct (recover_capabilities _ _ _ _ p) as [p1 [u|e]]; [|intros [= <- <-] Hd; left; by eapply drawn_back].
  intros Hm Hd. destruct (offer_left _ _ _ _ _ _ _ Hwf1 Hm Hd) as [?|[?|?]].
  - left. by eapply drawn_back.
  - right. left. by eapply taken_over_back.
  - by right; right.
Qed.
End batch.
