(* ===== verification/ControlOfferFacts.v ===== *)
(** What backs an offer: the job that is offered keeps its row while the batch is looked
    through, and its reservation is an attempt on a route that can print. *)

From S2P Require Import Prelude Domain CloudStore CloudWake CloudJobs CloudRouting CloudReroute CloudFacts CloudSystem CloudSteps CloudMachine ControlPlane ControlInventory ControlDeliveries ControlOffers ControlSchedule ControlSync ControlFacts ControlLeases.

(** * The row of a job *)

Definition same_row (id : string) (s s' : Store) : Prop := s'.(jobs) !! id = s.(jobs) !! id.
#[export] Instance same_row_preorder id : PreOrder (same_row id).
Proof. split; [done|]. intros s1 s2 s3. unfold same_row. congruence. Qed.
Lemma same_row_other id i f s : i ≠ id → same_row id s (on_jobs (alter f i) s).
Proof. intros Hi. by apply lookup_alter_ne. Qed.
#[local] Hint Extern 1 (same_row _ _ (on_jobs _ _)) => by apply same_row_other : calls.
#[local] Hint Extern 2 (same_row _ _ _) => reflexivity : calls.

(** ** The tables of nodes, routes and uploads *)

Definition same_topology (s s' : Store) : Prop := s'.(topology) = s.(topology).
#[export] Instance same_topology_preorder : PreOrder same_topology.
Proof. split; [done|]. intros s1 s2 s3. unfold same_topology. congruence. Qed.
#[local] Hint Extern 1 (same_topology _ _) => reflexivity : calls.

Section row.
Context `{CloudExternal} `{Outbox} `{Documents}.
Variable w : Turn.
Variable t : Tenant.
Variable agent : string.

Lemma enqueue_row id key event j : preserves (same_row id) (enqueue_webhook_event_in_transaction key t event j).
Proof. unfold enqueue_webhook_event_in_transaction. walk. by case_match. Qed.
Lemma supersede_row id i : preserves (same_row id) (supersede_pre_handoff_delivery_attempts w.(clock) t i).
Proof. unfold supersede_pre_handoff_delivery_attempts. walk. Qed.
#[local] Hint Resolve enqueue_row supersede_row : calls.
Lemma fail_row id l reason message :
  l.(jl_job).(j_id) ≠ id → preserves (same_row id) (fail_lease w t agent l reason message).
Proof. intros Hi. unfold fail_lease, fail_agent_lease_before_handoff, insert_event, update_job, notify. walk. Qed.
Lemma block_row id l : l.(jl_job).(j_id) ≠ id → preserves (same_row id) (block_lease w t agent l).
Proof. intros Hi. unfold block_lease, block_agent_lease_for_node_update, insert_event, update_job, notify. walk. Qed.
Lemma release_row id l : l.(jl_job).(j_id) ≠ id → moves (same_row id) (release_lease w t agent l).
Proof. intros Hi. unfold release_lease, release_agent_lease, update_job. walk. Qed.
Lemma batch_row id ls : (∀ l, l ∈ ls → l.(jl_job).(j_id) ≠ id) → moves (same_row id) (release_agent_lease_batch w t agent ls).
Proof. intros Hl. apply batch_moves; [apply _|]. apply Forall_forall. intros l Hin. by apply release_row, Hl. Qed.

(** Where the call succeeds. *)
Definition keeps_row (id : string) (m : Call unit) : Prop := ∀ p p', m p = (p', Ok ()) → same_row id p.(store) p'.(store).
Lemma give_back_row id l ls :
  l.(jl_job).(j_id) ≠ id → keeps_row id (releasing w t agent ls (release_lease w t agent l)).
Proof. intros Hi p p' Hr%releasing_Ok. pose proof (release_row id l Hi p) as Hm. by rewrite Hr in Hm. Qed.
Lemma transition_row id l ls m unsafe :
  preserves (same_row id) m → keeps_row id unsafe → keeps_row id (transition_lease w t agent l ls m unsafe).
Proof.
  intros Hm Hu p p' (p1 & o & Hr & Ho)%call_bind_Ok. apply releasing_Ok, run_Ok, in_store_Ok in Hr as (s & Hs & ->).
  apply Hm in Hs. destruct o as [j key|]; [|by etrans; [exact Hs|exact (Hu _ _ Ho)]].
  apply releasing_Ok in Ho. etrans; [exact Hs|].
  pose proof (publish_idempotently_moves (same_row id) t (enqueue_row id) key "job.updated" j (on_store (λ _, s) p)) as Hp.
  by rewrite Ho in Hp.
Qed.

(** ** The topology *)

Lemma enqueue_topology key event j : preserves same_topology (enqueue_webhook_event_in_transaction key t event j).
Proof. unfold enqueue_webhook_event_in_transaction. walk. by case_match. Qed.
Lemma supersede_topology i : preserves same_topology (supersede_pre_handoff_delivery_attempts w.(clock) t i).
Proof. unfold supersede_pre_handoff_delivery_attempts. walk. Qed.
#[local] Hint Resolve enqueue_topology supersede_topology : calls.
Lemma release_topology l : moves same_topology (release_lease w t agent l).
Proof. unfold release_lease, release_agent_lease, update_job. walk. Qed.
Lemma block_topology l : preserves same_topology (block_lease w t agent l).
Proof. unfold block_lease, block_agent_lease_for_node_update, insert_event, update_job, notify. walk. Qed.
Lemma fail_topology l reason message : preserves same_topology (fail_lease w t agent l reason message).
Proof. unfold fail_lease, fail_agent_lease_before_handoff, insert_event, update_job, notify. walk. Qed.
Lemma lease_topology l : lease_respects same_topology w t agent l.
Proof. split_and!; [apply release_topology|apply block_topology|intros; apply fail_topology]. Qed.
Lemma select_topology cap ls : moves same_topology (select_offer w t agent cap ls).
Proof. apply select_moves; [apply _|apply enqueue_topology|]. apply Forall_true, lease_topology. Qed.
Lemma begin_topology q token : preserves same_topology (begin_delivery_attempt w.(clock) t q token).
Proof.
  unfold begin_delivery_attempt, check_delivery, check_against, reserve_delivery, retire_own_attempt, insert_attempt,
    insert_reservation, update_job. walk.
Qed.
Lemma prepare_topology j cap s s' :
  same_topology s s' → prepare_agent_offer_content t j cap s' = prepare_agent_offer_content t j cap s.
Proof. intros Ht. unfold prepare_agent_offer_content, stored_content, uploaded_content, get_upload. by rewrite Ht. Qed.

(** * The job that is chosen *)

Record chosen (cap : DocumentRenderCapabilities) (ls : list JobLease) (p p' : Plane) (l : JobLease)
    (content : ContentDescriptor) : Prop := {
  ch_claimed : l ∈ ls;
  ch_row : same_row l.(jl_job).(j_id) p.(store) p'.(store);
  ch_content : prepare_agent_offer_content t l.(jl_job) cap p.(store) = Ok (Ready content)
}.
Lemma chosen_later cap h ls m p p' l content :
  (∀ l, l ∈ ls → l.(jl_job).(j_id) ≠ h.(jl_job).(j_id)) →
  (∀ id, h.(jl_job).(j_id) ≠ id → keeps_row id m) → moves same_topology m →
  (∀ p, select_offer w t agent cap ls p = (p', Ok (Some (l, content))) → chosen cap ls p p' l content) →
  (_ ← m; select_offer w t agent cap ls) p = (p', Ok (Some (l, content))) → chosen cap (h :: ls) p p' l content.
Proof.
  intros Hne Hm Ht IH (p1 & [] & Hd & [Hl Hr Hc]%IH)%call_bind_Ok. specialize (Ht p). rewrite Hd in Ht.
  split; [by right| |by rewrite <- (prepare_topology _ _ _ _ Ht)].
  etrans; [|exact Hr]. eapply Hm; [|exact Hd]. by apply not_eq_sym, Hne.
Qed.
Lemma releases_topology ls : Forall (λ x, moves same_topology (release_lease w t agent x)) ls.
Proof. apply Forall_true, release_topology. Qed.
Lemma give_back_topology l ls : moves same_topology (releasing w t agent ls (release_lease w t agent l)).
Proof. apply releasing_moves; [apply _|apply releases_topology|apply release_topology]. Qed.
Lemma transition_topology l ls m unsafe :
  preserves same_topology m → moves same_topology unsafe → moves same_topology (transition_lease w t agent l ls m unsafe).
Proof. intros Hm Hu. apply transition_moves; [apply _|apply enqueue_topology|apply release_topology|apply releases_topology|done..]. Qed.
Lemma chosen_now cap h ls p p' l content found :
  (∀ l, l ∈ ls → l.(jl_job).(j_id) ≠ h.(jl_job).(j_id)) →
  prepare_agent_offer_content t h.(jl_job) cap p.(store) = Ok (Ready found) →
  (_ ← or_else (release_agent_lease_batch w t agent ls)
         (λ e, _ ← whatever (release_agent_lease_batch w t agent [h]); fail e);
   mret (Some (h, found))) p = (p', Ok (Some (l, content))) → chosen cap (h :: ls) p p' l content.
Proof.
  intros Hne Hc (p1 & u & Hb & Hr)%call_bind_Ok. injection Hr as -> -> ->.
  unfold or_else in Hb. pose proof (batch_row l.(jl_job).(j_id) ls Hne p) as Hrow.
  destruct (release_agent_lease_batch w t agent ls p) as [p2 [v|e]]; [|done]. injection Hb as -> _. by split; [left| |].
Qed.
Lemma select_chosen cap ls p p' l content :
  NoDup (j_id ∘ jl_job <$> ls) → select_offer w t agent cap ls p = (p', Ok (Some (l, content))) →
  chosen cap ls p p' l content.
Proof.
  revert p. induction ls as [|h ls IH]; intros p Hnd; cbn [select_offer]; [done|].
  rewrite fmap_cons, NoDup_cons in Hnd. destruct Hnd as [Hn Hnd].
  assert (Hne : ∀ l, l ∈ ls → l.(jl_job).(j_id) ≠ h.(jl_job).(j_id)).
  { intros x Hx He. destruct Hn. apply list_elem_of_fmap. by exists x. }
  intros (p1 & failure & Hf & Hs)%call_bind_Ok. apply releasing_Ok in Hf. injection Hf as -> _.
  destruct failure as [[reason message]|].
  { revert Hs. apply chosen_later; [done| | |by intros; apply IH].
    - intros id Hi. apply transition_row; [by apply fail_row|by intros q q' [= ->]].
    - apply transition_topology; [apply fail_topology|by apply moves_ret, _]. }
  apply call_bind_Ok in Hs as (p2 & preparation & Hp & Hs). apply releasing_Ok in Hp. injection Hp as -> Hp.
  destruct preparation as [found| | |reason message]; [by eapply chosen_now| | |]; revert Hs;
    (apply chosen_later; [done| | |by intros; apply IH]).
  - intros id Hi. apply transition_row; [by apply block_row|by apply give_back_row].
  - apply transition_topology; [apply block_topology|apply give_back_topology].
  - intros id Hi. by apply give_back_row.
  - apply give_back_topology.
  - intros id Hi. apply transition_row; [by apply fail_row|by apply give_back_row].
  - apply transition_topology; [apply fail_topology|apply give_back_topology].
Qed.

(** * The reservation *)

Lemma job_route_prints j s id r :
  job_route t j s = Some (id, r) →
  s.(topology).(printer_routes) !! (t, id) = Some r ∧ r.(rt_enabled) = true ∧ r.(rt_printer_id) = j.(j_printer_id)
  ∧ r.(rt_retired_at) = None.
Proof.
  intros Hr. assert (Hin : (id, r) ∈ list_all_routes t s ∧ r.(rt_enabled) && bool_decide (r.(rt_printer_id) = j.(j_printer_id)) = true).
  { unfold job_route in Hr. destruct (List.find _ _) as [e|] eqn:Hf.
    - simplify_eq. apply find_some in Hf as [Hin Hp%andb_true_iff]. split; [by apply list_elem_of_In|by destruct Hp].
    - destruct (List.filter _ _) as [|e [|]] eqn:Hf'; simplify_eq.
      assert (Hin : In (id, r) [(id, r)]) by by left. rewrite <- Hf' in Hin. apply filter_In in Hin as [Hin Hp].
      split; [by apply list_elem_of_In|done]. }
  destruct Hin as [Hin Hp]. apply elem_of_sort_by in Hin. unfold current_routes in Hin.
  apply list_elem_of_fmap in Hin as ([[t' i] x] & [= -> ->] & Hin). apply elem_of_select_rows in Hin as [Hk Hq].
  simpl in Hq. checks. by subst.
Qed.

Definition placed (s : Store) (q : NewDeliveryAttempt) (r : JobRow) : Prop :=
  ∃ r0, s.(jobs) !! q.(nd_job_id) = Some r0 ∧ r.(jr_tenant) = r0.(jr_tenant) ∧ r.(jr_lease) = r0.(jr_lease)
  ∧ r.(jr_place).(agent_id) = r0.(jr_place).(agent_id) ∧ r.(jr_place).(destination_id) = Some q.(nd_destination_id).
Lemma check_placed q s s' u :
  check_delivery w.(clock) t q s = Ok (s', u) → ∃ r, s'.(jobs) !! q.(nd_job_id) = Some r ∧ placed s q r.
Proof.
  unfold check_delivery, check_against. intros Hc. tx Hc. apply job_of_Some in Hx3 as [Hr Ht].
  destruct (x3.(jr_place).(destination_id)) as [d|] eqn:Hd.
  - tx Hx5. apply bool_decide_eq_true in Hx5 as ->. exists x3. split; [done|]. by exists x3.
  - tx Hx5. subst s0. simpl. rewrite lookup_alter_eq, Hr. eexists. split; [done|]. by exists x3.
Qed.
Lemma reserve_jobs q token s s' x :
  reserve_delivery w.(clock) t q token s = Ok (s', x) →
  s'.(jobs) = s.(jobs) ∧ ∃ g, x = (new_attempt w.(clock) t q g (token_digest token), new_reservation w.(clock) t q g (token_digest token))
  ∧ s'.(delivery_attempts) !! (t, q.(nd_attempt_id)) = Some x.1
  ∧ s'.(route_reservations) !! (t, q.(nd_reservation_id)) = Some x.2.
Proof.
  unfold reserve_delivery. intros Hm. tx Hm. unfold insert_attempt in *. unfold insert_reservation in *.
  tx Hx3. tx Hx4. subst. split.
  - simpl. unfold retire_own_attempt in Hx2. txs Hx; txs Hx2; done.
  - eexists. split; [done|]. simpl. by rewrite !lookup_insert_eq.
Qed.

(** A route of the job's printer that can print now. *)
Definition can_print (j : Job) (rv : CloudRouteReservation) (p : Plane) : Prop :=
  ∃ r dest seen, p.(store).(topology).(printer_routes) !! (t, rv.(cr_route_id)) = Some r
  ∧ r.(rt_enabled) = true ∧ r.(rt_retired_at) = None ∧ r.(rt_printer_id) = j.(j_printer_id)
  ∧ r.(rt_local_route_key) = Some rv.(cr_local_route_key)
  ∧ p.(store).(topology).(physical_destinations) !! (t, r.(rt_destination_id)) = Some dest ∧ dest.(pd_state) = Available
  ∧ latest_route_observation t rv.(cr_route_id) p = Some seen ∧ accepts_now w.(clock) seen = true.
(** The attempt of the job that holds the route, under the fencing token. *)
Definition fences (j : Job) (rv : CloudRouteReservation) (s : Store) : Prop :=
  ∃ rs a, s.(route_reservations) !! (t, rv.(cr_reservation_id)) = Some rs
  ∧ s.(delivery_attempts) !! (t, rs.(rs_attempt_id)) = Some a
  ∧ rs.(rs_state) = Active ∧ a.(at_state) = Attempt.RouteLeased ∧ a.(at_job_id) = j.(j_id)
  ∧ a.(at_route_id) = rv.(cr_route_id) ∧ a.(at_generation) = rs.(rs_generation)
  ∧ rv.(cr_generation) = Z.to_N a.(at_generation)
  ∧ a.(at_fencing_token_hash) = token_digest rv.(cr_fencing_token)
  ∧ rs.(rs_fencing_token_hash) = token_digest rv.(cr_fencing_token)
  ∧ rs.(rs_lease_until) = rv.(cr_lease_expires_at).
(** The job of an offer is leased to the node, and a route is held for it. *)
Record offer_backed (cap : DocumentRenderCapabilities) (o : JobOffer) (p : Plane) : Prop := {
  of_lease : is_Some (holds_lease w.(clock) t agent o.(jo_job).(j_id) o.(jo_lease_id) o.(jo_lease_token) p.(store));
  of_content : prepare_agent_offer_content t o.(jo_job) cap p.(store) = Ok (Ready o.(jo_content));
  of_route : ∃ rv, o.(jo_route_reservation) = Some rv ∧ can_print o.(jo_job) rv p ∧ fences o.(jo_job) rv p.(store)
               ∧ rv.(cr_lease_expires_at) = o.(jo_lease_expires_at)
}.

Lemma begin_holds q token s s' x lease secret :
  begin_delivery_attempt w.(clock) t q token s = Ok (s', x) →
  is_Some (holds_lease w.(clock) t agent q.(nd_job_id) lease secret s) →
  is_Some (holds_lease w.(clock) t agent q.(nd_job_id) lease secret s').
Proof.
  unfold begin_delivery_attempt. intros (s1 & u & Hc & [Hj _]%reserve_jobs)%tx_bind_Ok [r0 Hh].
  apply check_placed in Hc as (r & Hr & r1 & Hr1 & Ht & Hl & Ha & _).
  apply holds_lease_iff in Hh as (Hr0 & Hh). rewrite Hr0 in Hr1. injection Hr1 as ->.
  exists r. apply holds_lease_iff. rewrite Hj, Hl, Ha, Ht. done.
Qed.

Lemma reserve_backed j until p p' rv :
  reserve_job_route w.(clock) w.(ulid) w.(uuid) w.(fencing_token) t j until p = (p', Ok (Reserved rv)) →
  can_print j rv p' ∧ fences j rv p'.(store) ∧ rv.(cr_lease_expires_at) = until ∧ same_topology p.(store) p'.(store)
  ∧ ∀ lease secret, is_Some (holds_lease w.(clock) t agent j.(j_id) lease secret p.(store)) →
      is_Some (holds_lease w.(clock) t agent j.(j_id) lease secret p'.(store)).
Proof.
  unfold reserve_job_route. intros (p0 & route & [-> ->]%look_Ok & Hr)%call_bind_Ok.
  destruct (job_route t j p.(store)) as [[id r]|] eqn:Hj; [|done]. destruct (r.(rt_local_route_key)) as [key|] eqn:Hk; [|done].
  apply call_bind_Ok in Hr as (p0 & seen & [-> ->]%look_Ok & Hr).
  destruct (latest_route_observation t id p) as [seen|] eqn:Hs; [|done]. cbn [from_option] in Hr.
  destruct (accepts_now w.(clock) seen) eqn:Ha; [|done]. cbn [negb] in Hr.
  apply call_bind_Ok in Hr as (p0 & dest & [-> Hd]%run_Ok%fetch_Ok & Hr).
  destruct (bool_decide (dest.(pd_state) = Available)) eqn:Hav; [|done]. cbn [negb] in Hr. apply bool_decide_eq_true in Hav.
  apply call_bind_Ok in Hr as (p1 & started & Ht%try_Ok & Hr). destruct started as [[a rs]|[]]; try done.
  injection Hr as <- <-. apply in_store_Ok in Ht as (s1 & Hb & ->).
  apply job_route_prints in Hj as (Hroute & Hen & Hpr & Hret).
  pose proof (begin_topology _ _ _ _ _ Hb) as Htop. pose proof Hb as Hb'. unfold begin_delivery_attempt in Hb'.
  apply tx_bind_Ok in Hb' as (s0 & u & _ & Hb'). apply reserve_jobs in Hb' as (_ & g & Hx & Hat & Hrs). injection Hx as -> ->.
  split_and!; [| |done|done|].
  - exists r, dest, seen. cbn. rewrite Htop. done.
  - eexists _, _. cbn. split_and!; [exact Hrs|exact Hat|done..].
  - intros lease secret Hh. by eapply (begin_holds _ _ _ _ _ _ _ Hb).
Qed.

(** ** The claim *)

Lemma claimed_held owner limit s s' ls l :
  cloud_wf s → (w.(clock).(sql_now) < w.(clock).(utc_now) + seconds 30)%Z →
  claim_jobs w.(clock) w.(locked_job) w.(new_lease) t agent owner limit s = Ok (s', ls) → l ∈ ls →
  held w t agent l s' ∧ l.(jl_lease_until) = (w.(clock).(utc_now) + seconds 30)%Z.
Proof.
  intros Hwf Hclock (rows & [_ Hst] & Hcl & -> & _ & Hj)%claim_shape ([id r] & -> & Hin)%list_elem_of_fmap. split; [|done].
  assert (Hi : (lease_of w (id, r)).(jl_job).(j_id) = id) by exact (rw_id _ _ (row_of _ _ _ Hwf (Hst _ _ Hin))).
  specialize (Hcl _ _ Hin). unfold claimable in Hcl. checks.
  eexists. apply holds_lease_iff. rewrite Hi, Hj, (Hst _ _ Hin). cbn [fmap option_fmap option_map].
  rewrite decide_True by (apply list_elem_of_fmap; by exists (id, r)).
  split_and!; [done..|]. simpl. by apply Z.ltb_lt.
Qed.
Lemma claimed_ids owner limit s s' ls :
  cloud_wf s → claim_jobs w.(clock) w.(locked_job) w.(new_lease) t agent owner limit s = Ok (s', ls) →
  NoDup (j_id ∘ jl_job <$> ls).
Proof.
  intros Hwf (rows & [Hnd Hst] & _ & -> & _)%claim_shape.
  enough (j_id ∘ jl_job <$> (lease_of w <$> rows) = rows.*1) as -> by done.
  rewrite <- list_fmap_compose. apply list_fmap_ext. intros i [id r] Hi.
  exact (rw_id _ _ (row_of _ _ _ Hwf (Hst _ _ (list_elem_of_lookup_2 _ _ _ Hi)))).
Qed.

Lemma make_offers_backed q b p p' offers o :
  cloud_wf p.(store) → (w.(clock).(sql_now) < w.(clock).(utc_now) + seconds 30)%Z →
  make_offers w t agent q b p = (p', Ok offers) → o ∈ offers → offer_backed q.(sy_document_render) o p'.
Proof.
  intros Hwf Hclock. unfold make_offers. destruct b; cbn [negb]; [|by intros [= <- <-] Ho%elem_of_nil].
  intros (p1 & u & Hc & (p2 & ls & Hl & (p3 & [[l content]|] & Hs & Hr)%call_bind_Ok)%call_bind_Ok)%call_bind_Ok;
    [|injection Hr as <- <-; by intros Ho%elem_of_nil].
  pose proof (recover_capabilities_runs w t agent q.(sy_document_render) p) as Hwf1. rewrite Hc in Hwf1.
  apply runs_evolves in Hwf1 as [_ Hwf1]; [|done]. apply run_Ok, in_store_Ok in Hl as (s2 & Hl & ->).
  pose proof (select_topology q.(sy_document_render) ls (on_store (λ _, s2) p1)) as Htop. rewrite Hs in Htop.
  apply select_chosen in Hs as [Hin Hrow Hcontent]; [|by eapply claimed_ids].
  destruct (claimed_held _ _ _ _ _ l Hwf1 Hclock Hl Hin) as [[r Hh] Hu].
  apply holds_lease_iff in Hh. cbn in Hrow. unfold same_row in Hrow. rewrite <- Hrow in Hh. apply holds_lease_iff in Hh.
  unfold reserve_offer in Hr. apply call_bind_Ok in Hr as (p4 & rv & Hv%releasing_Ok & Hr).
  destruct rv as [|d route|rv]; [by apply call_bind_Ok in Hr as (? & ? & _ & [= <- <-]); intros Ho%elem_of_nil| |].
  { apply call_bind_Ok in Hr as (? & ? & _ & (? & ? & _ & [= <- <-])%call_bind_Ok). by intros Ho%elem_of_nil. }
  injection Hr as <- <-. intros ->%list_elem_of_singleton.
  apply reserve_backed in Hv as (Hprint & Hf & He & Ht & Hk). split.
  - apply Hk. by eexists.
  - rewrite (prepare_topology _ _ _ _ Ht), (prepare_topology _ _ _ _ Htop). done.
  - by exists rv.
Qed.

Lemma make_offers_one q b p p' offers : make_offers w t agent q b p = (p', Ok offers) → length offers ≤ 1.
Proof.
  unfold make_offers. destruct b; cbn [negb]; [|intros [= <- <-]; simpl; lia].
  intros (p1 & u & _ & (p2 & ls & _ & (p3 & selected & _ & Hr)%call_bind_Ok)%call_bind_Ok)%call_bind_Ok.
  unfold reserve_offer in Hr. destruct selected as [[l content]|]; [|injection Hr as <- <-; simpl; lia].
  apply call_bind_Ok in Hr as (p4 & rv & _ & Hr). destruct rv as [|de route|rv].
  - apply call_bind_Ok in Hr as (? & ? & _ & [= <- <-]). simpl. lia.
  - apply call_bind_Ok in Hr as (? & ? & _ & (? & ? & _ & [= <- <-])%call_bind_Ok). simpl. lia.
  - injection Hr as <- <-. simpl. lia.
Qed.
End row.

(** * Content and admission *)

Lemma encrypted_prepared `{CloudExternal} `{Documents} t j cap s content upload m :
  j.(j_content) = EncryptedUpload upload m → prepare_agent_offer_content t j cap s = Ok (Ready content) →
  ∃ u, get_upload t upload s = Some u ∧ u.(up_complete) = true
  ∧ content = EncryptedDownload (content_url j) u.(up_expected_sha256) (Z.to_N u.(up_expected_bytes)) m.
Proof.
  unfold prepare_agent_offer_content. intros Hj Hp. destruct (_ && _); [done|].
  unfold stored_content in Hp. rewrite Hj in Hp. unfold uploaded_content in Hp.
  destruct (get_upload t upload s) as [u|]; [|done]. destruct (u.(up_complete)) eqn:Hc; [|done]. cbn [negb] in Hp.
  destruct (u.(up_expected_bytes) <? 0)%Z; [done|]. exists u. split_and!; [done..|]. unfold packet_content in Hp. cbn [is_encrypted] in Hp.
  repeat case_match; by simplify_eq.
Qed.

Section admission.
Context `{CloudExternal} `{Outbox} `{ReprintJson} `{IdentityMac} `{Documents} `{DiagnosticJson} `{MediaJson} `{RoutingMedia}.

Definition fit_for_offers (now : Z) (o : NodeRuntimeObservation) : bool :=
  safe_for_cloud_offers o && o.(nr_accepts_cloud_jobs) && (now <=? o.(nr_fresh_until))%Z
  && accepting_lifecycle o.(nr_lifecycle_state).
Lemma admitted_runtime w d t agent q p p1 received run :
  receive w d t agent q p = (p1, Ok received) → q.(sy_runtime) = Some run →
  received.(rc_admission).(eligible_for_offers) = true → fit_for_offers w.(clock).(utc_now) run = true.
Proof.
  unfold receive, receive_inventory. intros Hr Hrun He.
  apply call_bind_Ok in Hr as (pa & ua & _ & (pb & [projection admission] & Hi & Hr)%call_bind_Ok).
  apply call_bind_Ok in Hi as (pc & uc & _ & (pd & pr & _ & (pe & adm & Ha & (pf & uf & _ & Hi)%call_bind_Ok)%call_bind_Ok)%call_bind_Ok).
  injection Hi as <- <- <-.
  assert (received.(rc_admission) = adm) as Hadm.
  { repeat (apply call_bind_Ok in Hr as (? & ? & _ & Hr)). by injection Hr as <- <-. }
  rewrite Hadm in He. unfold record_runtime_availability in Ha. rewrite Hrun in Ha.
  apply call_bind_Ok in Ha as (pg & eligible & Hel & (ph & hints & _ & Ha)%call_bind_Ok). injection Ha as <- <-. simpl in He. subst.
  apply call_bind_Ok in Hel as (pi & ui & _ & (pj & uj & _ & Hel)%call_bind_Ok). by injection Hel as _ Hel.
Qed.
Lemma safe_runtime now o :
  fit_for_offers now o = true →
  o.(nr_accepts_cloud_jobs) = true ∧ safe_for_cloud_offers o = true
  ∧ (now ≤ o.(nr_fresh_until))%Z ∧ o.(nr_host_mode) ≠ AttachedClient
  ∧ o.(nr_lifecycle_state) ∈ [NodeAvailable; Foreground; Background]
  ∧ (o.(nr_availability_class) = ForegroundOnly → o.(nr_lifecycle_state) = Foreground)
  ∧ (o.(nr_availability_class) = BackgroundOpportunistic →
     ∃ n, o.(nr_execution_budget_ms) = Some n ∧ (30000 ≤ n)%N).
Proof.
  unfold fit_for_offers. intros [[[Hsafe Ha]%andb_true_iff Hf%Z.leb_le]%andb_true_iff Hl]%andb_true_iff.
  split_and!; [done..| | | |]; revert Hsafe; unfold safe_for_cloud_offers; rewrite Ha;
    intros [[[Hb Hh]%andb_true_iff _]%andb_true_iff Hg]%andb_true_iff.
  - intros Hm. by rewrite Hm in Hh.
  - by apply bool_decide_eq_true in Hl.
  - intros Hm. rewrite Hm in Hg. by apply bool_decide_eq_true in Hg.
  - intros Hm. rewrite Hm in Hb. destruct (o.(nr_execution_budget_ms)) as [n|]; [|done]. apply N.leb_le in Hb. by exists n.
Qed.
End admission.
