(* ===== verification/ControlReports.v ===== *)
(** Reports of a node that come again: the evidence of a handoff, and an event that was
    applied before but whose attempt did not follow. *)

From S2P Require Import Prelude Domain CloudStore CloudWake CloudJobs CloudRouting CloudReroute CloudFacts CloudDeliveries CloudSystem CloudSteps CloudRouteSteps CloudMachine ControlPlane ControlInventory ControlDeliveries ControlOffers ControlSchedule ControlSync ControlFacts.

Section reports.
Context `{CloudExternal} `{Outbox}.

(** * A local expiry *)

(** An attempt cannot be cancelled after the fact. *)
Lemma reconcile_expired c t agent e p a :
  e.(je_state) = Expired → latest_attempt t (of_job e.(je_job_id)) p.(store) = Some a → settled a.(at_state) = false →
  ∃ x, reconcile_post_spooler_event c t agent e p = (p, Err x).
Proof.
  intros He Ha Hs. unfold reconcile_post_spooler_event. rewrite He. cbn [reported_attempt_state].
  unfold mbind, call_bind, run, fetch. rewrite Ha. destruct (get_route t a.(at_route_id) p.(store)) as [r|]; [|by eexists].
  unfold demand. destruct (bool_decide (r.(rt_agent_id) = agent)); [|by eexists].
  rewrite Hs. cbn [already_projected orb]. rewrite decide_False by done. by eexists.
Qed.
Lemma apply_event_attempts c t agent e s s' o :
  apply_agent_event c t agent e s = Ok (s', o) → s'.(delivery_attempts) = s.(delivery_attempts).
Proof.
  unfold apply_agent_event. intros Hm. txs Hm; [done|]. apply insert_event_Ok in Hx4 as [-> _]. subst.
  txs Hx6; [|by subst]. unfold record_reported_complete_usage, lock_billing_period in Hx6. txs Hx6. by repeat case_match.
Qed.
Lemma apply_event_None c t agent e s s' : apply_agent_event c t agent e s = Ok (s', None) → s' = s.
Proof.
  unfold apply_agent_event. intros (s1 & seen & [-> ->]%query_Ok & Hm)%tx_bind_Ok.
  case_match; [by apply tx_ret_Ok in Hm as [-> _]|]. exfalso.
  repeat (apply tx_bind_Ok in Hm as (? & ? & _ & Hm)). by apply tx_ret_Ok in Hm as [_ ?].
Qed.
Lemma expired_again c t agent e s j :
  e.(je_state) = Expired → get_job t e.(je_job_id) s = Some j → j.(j_state) = Expired →
  apply_agent_event c t agent e s = Ok (s, None)
  ∨ ∃ x, apply_agent_event c t agent e s = Err x ∧ x ≠ ConcurrentStateChange.
Proof.
  intros He Hj Hst. unfold get_job in Hj. apply fmap_Some in Hj as (r & Hr & ->). simpl in Hst.
  destruct (decide ((agent, e.(je_id)) ∈ s.(agent_event_receipts))) as [Hin|Hn].
  { left. by apply apply_agent_event_again. }
  right. unfold apply_agent_event, mbind, tx_bind, query. rewrite bool_decide_false by done.
  unfold ensure, execute, fetch. destruct (bool_decide (is_Some _)); [|by eexists].
  change (job_of t e.(je_job_id) (on_agent_event_receipts _ s)) with (job_of t e.(je_job_id) s). rewrite Hr.
  destruct (bool_decide (r.(jr_place).(agent_id) = agent)); [|by eexists]. rewrite He. unfold allowed, ensure. rewrite Hst.
  by eexists.
Qed.

(** The state is durable and the attempt is not settled: the event is refused, and nothing changes. *)
Lemma expiry_stuck w t agent e p j a :
  e.(je_state) = Expired → get_job t e.(je_job_id) p.(store) = Some j → j.(j_state) = Expired →
  latest_attempt t (of_job e.(je_job_id)) p.(store) = Some a → settled a.(at_state) = false →
  ∃ x, receive_event w t agent e p = (p, Err x).
Proof.
  intros He Hj Hst Ha Hs. unfold receive_event, apply_event, mbind, call_bind, try, in_store.
  destruct (expired_again w.(clock) t agent e p.(store) j He Hj Hst) as [-> | (x & -> & Hx)].
  - replace (on_store (λ _, p.(store)) p) with p by by destruct p.
    unfold look. rewrite Hj. cbn [from_option]. rewrite bool_decide_true by congruence.
    destruct (reconcile_expired w.(clock) t agent e p a He Ha Hs) as [x Hx]. rewrite Hx. by eexists.
  - destruct x; first [done|by eexists].
Qed.
Lemma expiry_refused w t agent e p p' r j a :
  e.(je_state) = Expired → latest_attempt t (of_job e.(je_job_id)) p.(store) = Some a → settled a.(at_state) = false →
  receive_event w t agent e p = (p', r) → get_job t e.(je_job_id) p'.(store) = Some j → j.(j_state) = Expired →
  (∃ x, r = Err x) ∧ latest_attempt t (of_job e.(je_job_id)) p'.(store) = Some a.
Proof.
  intros He Ha Hs Hr Hj Hst.
  destruct (apply_agent_event w.(clock) t agent e p.(store)) as [[s1 [j1|]]|x] eqn:Hap.
  - revert Hr. unfold receive_event, apply_event. unfold mbind, call_bind, try, in_store. rewrite Hap.
    pose proof (apply_event_attempts _ _ _ _ _ _ _ Hap) as Hat. unfold latest_attempt in Ha |- *.
    unfold publish, mbind, call_bind, demand. destruct (negb (outage "job.updated")).
    + rewrite decide_False by congruence. cbn [announce mret call_ret].
      match goal with |- context [reconcile_post_spooler_event ?c ?t ?g ?e ?q] =>
        destruct (reconcile_expired c t g e q a) as [x Hx]; [done| |done|] end.
      { unfold latest_attempt. simpl. by rewrite Hat. }
      rewrite Hx. intros [= <- <-]. split; [by eexists|]. simpl. by rewrite Hat.
    + intros [= <- <-]. split; [by eexists|]. simpl. by rewrite Hat.
  - assert (s1 = p.(store)) as -> by by apply apply_event_None in Hap.
    enough (p' = p) as ->; [destruct (expiry_stuck w t agent e p j a) as [x Hx]; [done..|];
      rewrite Hx in Hr; injection Hr as <-; split; [by eexists|done]|].
    revert Hr. unfold receive_event, apply_event, mbind, call_bind, try, in_store. rewrite Hap.
    replace (on_store (λ _, p.(store)) p) with p by by destruct p. unfold look.
    destruct (reconcile_expired w.(clock) t agent e p a He Ha Hs) as [x Hx]. destruct (from_option _ _ _); [rewrite Hx|]; by intros [= <- _].
  - enough (p' = p) as ->; [destruct (expiry_stuck w t agent e p j a) as [y Hy]; [done..|];
      rewrite Hy in Hr; injection Hr as <-; split; [by eexists|done]|].
    revert Hr. unfold receive_event, apply_event, mbind, call_bind, try, in_store. rewrite Hap.
    destruct x; by intros [= <- _].
Qed.
End reports.
