(* ===== verification/ControlHandoffs.v ===== *)
(** The evidence of a handoff that a node sends again, because the answer to the first one
    was lost: it is acknowledged alike, and the store stays as it is. *)

From S2P Require Import Prelude Domain CloudStore CloudWake CloudJobs CloudRouting CloudReroute CloudFacts CloudDeliveries CloudSystem CloudSteps CloudRouteSteps CloudMachine ControlPlane ControlInventory ControlDeliveries ControlOffers ControlSchedule ControlSync ControlFacts.

(** An attempt that evidence of a handoff still moves. *)
Definition awaits_handoff (st : DeliveryAttemptState) : bool :=
  bool_decide (st ∈ [Attempt.QueuedLocal; Attempt.HandingToSpooler]).
(** A destination that needs attention, as the statement writes it. *)
Definition flagged (d : DestinationRow) : Prop :=
  d.(pd_state) = Attention ∧ i64_of_u64 (Z.to_N d.(pd_identity_revision)) = Some d.(pd_identity_revision).

(** What evidence leaves alone. *)
Record leaves (s s' : Store) : Prop := {
  lv_routes : s'.(topology).(printer_routes) = s.(topology).(printer_routes);
  lv_reservations k r : s.(route_reservations) !! k = Some r →
    ∃ r', s'.(route_reservations) !! k = Some r' ∧ r'.(rs_attempt_id) = r.(rs_attempt_id);
  lv_attempts k a : s.(delivery_attempts) !! k = Some a → awaits_handoff a.(at_state) = false →
    s'.(delivery_attempts) !! k = Some a;
  lv_destinations k d : s.(topology).(physical_destinations) !! k = Some d → flagged d →
    ∃ d', s'.(topology).(physical_destinations) !! k = Some d' ∧ flagged d'
}.
#[export] Instance leaves_preorder : PreOrder leaves.
Proof.
  split.
  - intros s. split; eauto.
  - intros s1 s2 s3 [R1 V1 A1 D1] [R2 V2 A2 D2]. split; [congruence| |by eauto|].
    + intros k r (r' & Hr' & He)%V1. apply V2 in Hr' as (r'' & Hr'' & He'). exists r''. split; congruence.
    + intros k d Hd Hf. destruct (D1 _ _ Hd Hf) as (d' & Hd' & Hf'). eauto.
Qed.

Lemma leaves_attempt f k s :
  (∀ a, s.(delivery_attempts) !! k = Some a → awaits_handoff a.(at_state) = true) →
  leaves s (on_delivery_attempts (alter f k) s).
Proof.
  intros Hk. split; [done|by eauto| |by eauto]. simpl. intros k' a Ha Hn. rewrite lookup_alter_row, Ha. simpl.
  case_decide as Hkk; [|done]. subst. by rewrite (Hk _ Ha) in Hn.
Qed.
Lemma leaves_release t p st now s : leaves s (release_reservations t p st now s).
Proof.
  split; [done| |done|by eauto]. simpl. intros k r Hr. eexists. rewrite lookup_update_where, Hr.
  split; [done|]. by case_match.
Qed.
Lemma leaves_destination f k s : (∀ d, flagged d → flagged (f d)) → leaves s (on_physical_destinations (alter f k) s).
Proof.
  intros Hf. split; [done|by eauto|done|]. simpl. intros k' d Hd Hfl. eexists. rewrite lookup_alter_row, Hd.
  split; [done|]. case_decide; auto.
Qed.

Section handoffs.
Context `{CloudExternal} `{Outbox}.

Lemma transition_leaves c t id g token next s s' a b :
  s.(delivery_attempts) !! (t, id) = Some a → awaits_handoff a.(at_state) = true →
  transition_delivery_attempt c t id g token next s = Ok (s', b) →
  leaves s s' ∧ s'.(delivery_attempts) !! (t, id) = Some b ∧ b.(at_state) = next ∧ same_attempt a b.
Proof.
  intros Ha Hw Hm. unfold transition_delivery_attempt in Hm. tx Hm. simplify_eq.
  set (sM := on_delivery_attempts _ s) in *.
  assert (leaves s sM) as L1 by (apply leaves_attempt; intros; by simplify_eq).
  assert (leaves sM s0 ∧ s0.(delivery_attempts) = sM.(delivery_attempts)) as [L2 E2].
  { txs Hx2; [|done]. split; [apply leaves_release|done]. }
  assert (leaves s0 s1 ∧ s1.(delivery_attempts) = s0.(delivery_attempts)) as [L3 E3].
  { txs Hx3; [|done]. split; [|done]. apply leaves_destination. by intros d' [_ Hr]. }
  split; [by etrans; [|etrans]|]. split; [done|]. rewrite E3, E2 in Hm. subst sM. simpl in Hm.
  rewrite lookup_alter_eq, Ha in Hm. by simplify_eq/=.
Qed.

(** One step of an attempt that is found by its reservation. *)
Lemma advance_leaves c t i from next a p p' b :
  cloud_wf p.(store) → get_delivery_attempt_by_reservation t i.(nh_reservation_id) p.(store) = Some a →
  awaits_handoff from = true → advance_from c t i from next a p = (p', Ok b) →
  leaves p.(store) p'.(store) ∧ cloud_wf p'.(store)
  ∧ get_delivery_attempt_by_reservation t i.(nh_reservation_id) p'.(store) = Some b
  ∧ b.(at_state) = (if decide (a.(at_state) = from) then next else a.(at_state)) ∧ same_attempt a b.
Proof.
  intros Hwf Ha Hf. unfold advance_from. case_decide as Hst; [|by intros [= <- <-]].
  intros (s & Hm & ->)%run_Ok%in_store_Ok.
  unfold get_delivery_attempt_by_reservation in Ha. apply bind_Some in Ha as (r & Hr & Ha).
  destruct (dw_attempt _ _ (cw_deliveries _ Hwf) _ _ Ha) as [Hk _ _ _]. injection Hk as Ht Hid.
  assert (cloud_wf s) as Hwf'.
  { eapply store_evolves_wf; [exact Hwf|]. by eapply (committed_sound _ _ (t_transition _ _ _ _ _ _)). }
  rewrite <- Hid in Hm. eapply transition_leaves in Hm as (HL & Hb & Hn & Hsame); [|done|by rewrite Hst].
  split_and!; [done|done| |done|done].
  unfold get_delivery_attempt_by_reservation. cbn. destruct (lv_reservations _ _ HL _ _ Hr) as (r' & -> & He).
  cbn. by rewrite He.
Qed.

Lemma upsert_leaves t destination confidence n s s' u :
  upsert_destination t destination confidence Attention n s = Ok (s', u) →
  leaves s s' ∧ ∃ d, s'.(topology).(physical_destinations) !! (t, destination) = Some d ∧ flagged d.
Proof.
  unfold upsert_destination. intros Hm. tx Hm.
  assert (i64_of_u64 (Z.to_N x) = Some x) as Hx'.
  { unfold i64_of_u64 in Hx |- *. destruct (i64_max <? Z.of_N n)%Z eqn:E; simplify_eq/=. by rewrite N2Z.id, E. }
  split; cycle 1. { eexists. simpl. rewrite lookup_partial_alter_eq. by split; [|split]. }
  split; [done|by eauto|done|]. simpl. intros k d Hd Hf. destruct (decide (k = (t, destination))) as [->|Hne].
  - eexists. rewrite lookup_partial_alter_eq. by split; [|split].
  - exists d. by rewrite lookup_partial_alter_ne.
Qed.
Lemma attention_leaves t destination p p' :
  demand_attention t destination p = (p', Ok ()) →
  leaves p.(store) p'.(store) ∧ p'.(store).(delivery_attempts) = p.(store).(delivery_attempts)
  ∧ p'.(store).(route_reservations) = p.(store).(route_reservations)
  ∧ ∃ d, p'.(store).(topology).(physical_destinations) !! (t, destination) = Some d ∧ flagged d.
Proof.
  unfold demand_attention. intros (p1 & d & [-> _]%run_Ok%fetch_Ok & (s & Hm & ->)%run_Ok%in_store_Ok)%call_bind_Ok.
  destruct (upsert_leaves _ _ _ _ _ _ _ Hm) as [HL Hd]. unfold upsert_destination in Hm. by tx Hm.
Qed.
(** What is flagged is written as it is. *)
Lemma attention_again t destination p d :
  p.(store).(topology).(physical_destinations) !! (t, destination) = Some d → flagged d →
  demand_attention t destination p = (p, Ok ()).
Proof.
  intros Hd [Hs Hr]. unfold demand_attention, mbind, call_bind, run, fetch. rewrite Hd.
  unfold in_store, upsert_destination, mbind, tx_bind, pure_result. rewrite Hr. cbn [ok_or execute]. f_equal.
  unfold on_store, on_physical_destinations, on_topology.
  match goal with |- context [partial_alter ?f ?k ?m] => assert (partial_alter f k m = m) as -> end.
  { apply map_eq. intros k. destruct (decide (k = (t, destination))) as [->|Hne]; [|by rewrite lookup_partial_alter_ne].
    rewrite lookup_partial_alter_eq, Hd. simpl. rewrite <- Hs. by destruct d. }
  by destruct p as [[[]]].
Qed.

(** ** Evidence that was taken in *)

Record taken_in (t : Tenant) (agent : string) (i : NativeHandoffEvidence) (s : Store) : Prop := {
  ti_route : ∃ route r, i.(nh_route_id) = Some route ∧ get_route t route s = Some r ∧ r.(rt_agent_id) = agent
    ∧ r.(rt_local_route_key) = Some i.(nh_local_route_key)
    ∧ ∃ a, get_delivery_attempt_by_reservation t i.(nh_reservation_id) s = Some a ∧ a.(at_job_id) = i.(nh_job_id)
      ∧ a.(at_route_id) = route ∧ a.(at_generation) = Z.of_N i.(nh_fencing_generation)
      ∧ awaits_handoff a.(at_state) = false
      ∧ (handoff_state i.(nh_outcome) = Attempt.DeliveryUncertain → a.(at_state) = Attempt.DeliveryUncertain →
         ∃ d, s.(topology).(physical_destinations) !! (t, a.(at_destination_id)) = Some d ∧ flagged d)
}.
Lemma taken_in_leaves t agent i s s' : leaves s s' → taken_in t agent i s → taken_in t agent i s'.
Proof.
  intros [HR HV HA HD] [(route & r & Hi & Hr & Hag & Hk & a & Ha & Hj & Hro & Hg & Hw & Hd)]. split.
  exists route, r. split_and!; [done|by unfold get_route; rewrite HR|done..|]. exists a. split_and!; [|done..|].
  - unfold get_delivery_attempt_by_reservation in Ha |- *. apply bind_Some in Ha as (rs & Hrs & Ha).
    destruct (HV _ _ Hrs) as (rs' & -> & He). cbn. rewrite He. by apply HA.
  - intros H1 H2. destruct (Hd H1 H2) as (d & Hdd & Hf). by eapply HD.
Qed.

(** Both steps of the evidence end before the spooler, or behind it. *)
Lemma handed_over st st1 st2 o :
  st1 = (if decide (st = Attempt.QueuedLocal) then Attempt.HandingToSpooler else st) →
  st2 = (if decide (st1 = Attempt.HandingToSpooler) then handoff_state o else st1) → awaits_handoff st2 = false.
Proof. intros -> ->. by destruct st, o. Qed.

Lemma ingest_takes_in c t agent i p p' n :
  cloud_wf p.(store) → ingest_handoff c t agent i p = (p', Ok n) →
  leaves p.(store) p'.(store) ∧ taken_in t agent i p'.(store) ∧ n = i.(nh_sequence) ∧ outage "attempt.updated" = false.
Proof.
  intros Hwf. unfold ingest_handoff. destruct (i.(nh_route_id)) as [route|] eqn:Hi; [|done].
  intros (p0 & r & [-> Hr]%run_Ok%fetch_Ok & (p1 & u & [-> Hown]%demand_Ok & (p2 & a & [-> Ha]%run_Ok%fetch_Ok
    & (p3 & v & [-> Hmatch]%demand_Ok & (p4 & a1 & H1 & (p5 & a2 & H2 & (p6 & x & H3 & (p7 & y & H4 & H5)%call_bind_Ok)
    %call_bind_Ok)%call_bind_Ok)%call_bind_Ok)%call_bind_Ok)%call_bind_Ok)%call_bind_Ok)%call_bind_Ok.
  checks. injection H5 as <- <-. apply publish_Ok in H4 as [Ho E7].
  destruct (advance_leaves _ _ _ Attempt.QueuedLocal _ _ _ _ _ Hwf Ha eq_refl H1) as (L1 & Hwf1 & Ha1 & St1 & Sa1).
  destruct (advance_leaves _ _ _ Attempt.HandingToSpooler _ _ _ _ _ Hwf1 Ha1 eq_refl H2) as (L2 & _ & Ha2 & St2 & Sa2).
  assert (awaits_handoff a2.(at_state) = false) as Hw by (eapply handed_over; eauto).
  set (next := handoff_state i.(nh_outcome)) in *.
  assert (leaves p5.(store) p6.(store) ∧ get_delivery_attempt_by_reservation t i.(nh_reservation_id) p6.(store) = Some a2
    ∧ (next = Attempt.DeliveryUncertain → a2.(at_state) = Attempt.DeliveryUncertain →
       ∃ d, p6.(store).(topology).(physical_destinations) !! (t, a2.(at_destination_id)) = Some d ∧ flagged d)) as (L3 & Ha3 & Hd).
  { destruct (bool_decide (next = Attempt.DeliveryUncertain) && bool_decide (a2.(at_state) = next)) eqn:Hb.
    - destruct x. apply attention_leaves in H3 as (L3 & Ea & Er & Hd). split_and!; [done| |done].
      unfold get_delivery_attempt_by_reservation in *. by rewrite Er, Ea.
    - injection H3 as <-. split_and!; [done|done|]. intros Hn Hs. rewrite Hn, Hs, !bool_decide_true in Hb by done. done. }
  assert (leaves p.(store) p7.(store)) as L by (rewrite E7; etrans; [exact L1|]; by etrans). split_and!; [done| |done|done].
  destruct Sa1, Sa2. split. exists route, r.
  split_and!; [done|by unfold get_route in *; rewrite (lv_routes _ _ L)|done..|]. exists a2. rewrite E7. split_and!; try done; congruence.
Qed.
Lemma ingest_again c t agent i p :
  taken_in t agent i p.(store) → outage "attempt.updated" = false →
  ∃ p', ingest_handoff c t agent i p = (p', Ok i.(nh_sequence)) ∧ p'.(store) = p.(store).
Proof.
  intros [(route & r & Hi & Hr & Hag & Hk & a & Ha & Hj & Hro & Hg & Hw & Hd)] Ho.
  unfold ingest_handoff. rewrite Hi. unfold mbind, call_bind, run, fetch. rewrite Hr.
  unfold demand. rewrite !bool_decide_true by done. cbn [andb]. rewrite Ha. rewrite Hj, Hro, Hg, !bool_decide_true by done.
  cbn [andb]. unfold advance_from. unfold awaits_handoff in Hw. apply bool_decide_eq_false in Hw.
  rewrite (decide_False (P := a.(at_state) = Attempt.QueuedLocal)) by set_solver. cbn [mret call_ret].
  rewrite (decide_False (P := a.(at_state) = Attempt.HandingToSpooler)) by set_solver. cbn [mret call_ret].
  destruct (bool_decide (handoff_state i.(nh_outcome) = Attempt.DeliveryUncertain)
    && bool_decide (a.(at_state) = handoff_state i.(nh_outcome))) eqn:Hb.
  - checks. destruct (Hd ltac:(done) ltac:(congruence)) as (dd & Hdd & Hf). rewrite (attention_again _ _ _ _ Hdd Hf).
    unfold publish, mbind, call_bind, demand. rewrite Ho. by eexists.
  - unfold publish, mbind, call_bind, demand. rewrite Ho. by eexists.
Qed.

(** ** A batch *)

Lemma ingest_wf c t agent i p : cloud_wf p.(store) → cloud_wf (ingest_handoff c t agent i p).1.(store).
Proof. intros Hwf. by eapply (runs_evolves _ _ Hwf), ingest_one_moves. Qed.
Lemma batch_takes_in c t agent l p p' ns :
  cloud_wf p.(store) → each (ingest_handoff c t agent) l p = (p', Ok ns) →
  leaves p.(store) p'.(store) ∧ Forall (λ i, taken_in t agent i p'.(store)) l ∧ ns = nh_sequence <$> l
  ∧ (l ≠ [] → outage "attempt.updated" = false).
Proof.
  revert p ns. induction l as [|i l IH]; intros p ns Hwf; cbn [each]; [by intros [= <- <-]|].
  intros (p1 & n & Hi & (p2 & ns' & Hl & Hr)%call_bind_Ok)%call_bind_Ok. injection Hr as <- <-.
  pose proof (ingest_wf c t agent i p Hwf) as Hwf1. rewrite Hi in Hwf1.
  apply ingest_takes_in in Hi as (L1 & Ht & -> & Ho); [|done]. apply IH in Hl as (L2 & Hts & -> & _); [|done].
  split_and!; [by etrans| |done|done]. constructor; [|done]. by eapply taken_in_leaves.
Qed.
Lemma batch_again c t agent l p :
  Forall (λ i, taken_in t agent i p.(store)) l → (l ≠ [] → outage "attempt.updated" = false) →
  ∃ p', each (ingest_handoff c t agent) l p = (p', Ok (nh_sequence <$> l)) ∧ p'.(store) = p.(store).
Proof.
  revert p. induction l as [|i l IH]; intros p Hl Ho; cbn [each]; [by eexists|]. apply Forall_cons in Hl as [Hi Hl].
  specialize (Ho ltac:(done)). destruct (ingest_again c t agent i p Hi Ho) as (p1 & H1 & E1).
  rewrite <- E1 in Hl. destruct (IH p1 Hl ltac:(done)) as (p2 & H2 & E2).
  exists p2. split; [|congruence]. unfold mbind, call_bind. by rewrite H1, H2.
Qed.
End handoffs.
