(* ===== verification/ControlClaims.v ===== *)
(** Theorems about the sync of a node: it is a run of the store on every path; an offer is
    backed by a lease, a fenced attempt and a route that can print, and names the content
    that is stored; no lease of the batch is left behind; evidence that is sent again
    changes nothing; and a report of a local expiry is refused for ever. *)

From S2P Require Import Prelude Domain CloudStore CloudWake CloudJobs CloudRevoke CloudRouting CloudReroute CloudFacts CloudSystem CloudSteps CloudRouteSteps CloudMachine ControlPlane ControlInventory ControlDeliveries ControlOffers ControlSchedule ControlSync ControlFacts ControlLeases ControlOfferFacts ControlReports ControlHandoffs.

Section claims.
Context `{CloudExternal} `{Outbox} `{ReprintJson} `{IdentityMac} `{Documents} `{DiagnosticJson} `{MediaJson} `{RoutingMedia}.

(** C11: a sync refines the machine of the store: whatever it answers, the store it leaves is
    reached by committed transactions, so that every invariant of the store holds after it. *)
Theorem sync_is_a_run w d t agent q p :
  reachable p.(store) →
  runs p.(store) (agent_sync w d t agent q p).1.(store) ∧ reachable (agent_sync w d t agent q p).1.(store)
  ∧ cloud_wf (agent_sync w d t agent q p).1.(store).
Proof.
  intros Hr. pose proof (agent_sync_moves w d t agent q p) as Hm. split; [done|].
  assert (reachable (agent_sync w d t agent q p).1.(store)) as Hr' by (destruct Hr as [T Hr]; exists T; by etrans).
  split; [done|by apply reachable_wf].
Qed.

(** C12: an offer of a sync is backed by the store the sync leaves: the job is leased to the
    node under the lease and the token of the offer, its content is the one that is stored,
    and an active reservation under the fencing token of the offer holds an enabled route of
    the job's printer, whose destination is available and whose last observation is fresh
    and accepts jobs.  There is at most one offer.  The database's clock is less than thirty
    seconds ahead of the server's, so that a lease of thirty seconds drawn by the server has
    not run out in the database. *)
Theorem offers_are_backed w d t agent q p p' r :
  reachable p.(store) → (w.(clock).(sql_now) < w.(clock).(utc_now) + seconds 30)%Z →
  agent_sync w d t agent q p = (p', Ok r) →
  length r.(ar_candidate_jobs) ≤ 1
  ∧ ∀ o, o ∈ r.(ar_candidate_jobs) → offer_backed w t agent q.(sy_document_render) o p'.
Proof.
  intros Hr%reachable_wf Hc Ha. apply sync_parts in Ha as (p1 & received & _ & Hp & Ho).
  apply runs_evolves in Hp as [_ Hwf]; [|done]. split; [by eapply make_offers_one|]. intros o. by eapply make_offers_backed.
Qed.

(** C13: no lease of a batch is left behind, whatever goes wrong on the way: a lease that a
    sync drew for a job and that is held when the offers are made, or could not be made, was
    held before, or is the lease of the offer, or belongs to a job that a node works on. *)
Theorem no_lease_is_left_behind w t agent q b p id :
  reachable p.(store) → drawn w t agent id (make_offers w t agent q b p).1.(store) →
  drawn w t agent id p.(store) ∨ taken_over t id p.(store)
  ∨ ∃ o, (make_offers w t agent q b p).2 = Ok [o] ∧ o.(jo_job).(j_id) = id.
Proof.
  intros Hwf%reachable_wf. destruct (make_offers w t agent q b p) as [p' r] eqn:Hm. by eapply offers_left.
Qed.

(** C25: only a node that can take a job now is offered one: its queue accepts jobs, and the
    runtime report it sent, if any, is fresh, accepts cloud jobs and is safe for them: in an
    accepting state, in front where its host runs only there, with thirty seconds of
    execution where it runs in the background, and not merely attached to another node. *)
Theorem offers_need_a_safe_runtime w d t agent q p p' r o :
  agent_sync w d t agent q p = (p', Ok r) → o ∈ r.(ar_candidate_jobs) →
  q.(sy_queue).(qs_accepts_jobs) = true
  ∧ ∀ run, q.(sy_runtime) = Some run →
      run.(nr_accepts_cloud_jobs) = true ∧ safe_for_cloud_offers run = true
      ∧ (w.(clock).(utc_now) ≤ run.(nr_fresh_until))%Z ∧ run.(nr_host_mode) ≠ AttachedClient
      ∧ run.(nr_lifecycle_state) ∈ [NodeAvailable; Foreground; Background]
      ∧ (run.(nr_availability_class) = ForegroundOnly → run.(nr_lifecycle_state) = Foreground)
      ∧ (run.(nr_availability_class) = BackgroundOpportunistic →
         ∃ n, run.(nr_execution_budget_ms) = Some n ∧ (30000 ≤ n)%N).
Proof.
  intros Ha Ho. apply sync_parts in Ha as (p1 & received & Hr & _ & Hm).
  destruct (q.(sy_queue).(qs_accepts_jobs) && received.(rc_admission).(eligible_for_offers)) eqn:Hb;
    [|injection Hm as _ Hm; rewrite <- Hm in Ho; by apply elem_of_nil in Ho].
  apply andb_true_iff in Hb as [Hq He]. split; [done|]. intros run Hrun. apply safe_runtime.
  eapply admitted_runtime; [|exact Hrun|exact He]. exact Hr.
Qed.

(** C26: encrypted content stays encrypted: the offer of a job whose content was uploaded
    under an envelope carries that envelope and nothing else, never a packet to render and
    never the content in clear.  The clocks are as for the offers above. *)
Theorem encrypted_content_stays_encrypted w d t agent q p p' r o upload m :
  reachable p.(store) → (w.(clock).(sql_now) < w.(clock).(utc_now) + seconds 30)%Z →
  agent_sync w d t agent q p = (p', Ok r) → o ∈ r.(ar_candidate_jobs) →
  o.(jo_job).(j_content) = EncryptedUpload upload m →
  ∃ u, get_upload t upload p'.(store) = Some u ∧ u.(up_complete) = true
  ∧ o.(jo_content) = EncryptedDownload (content_url o.(jo_job)) u.(up_expected_sha256) (Z.to_N u.(up_expected_bytes)) m.
Proof.
  intros Hr%reachable_wf Hc Ha Ho Hu. apply sync_parts in Ha as (p1 & received & _ & Hp & Hm).
  apply runs_evolves in Hp as [_ Hwf]; [|done]. eapply make_offers_backed in Hm as [_ Hcontent _]; [|done..].
  by eapply encrypted_prepared.
Qed.


(** C39: a report that a job expired in the queue of its node can never be projected on an
    attempt that is not settled: once the job is expired in the store, the sync that
    carries the report fails, the attempt stays as it is, and every later sync with the
    report fails alike. *)
Theorem local_expiry_is_never_projected w w' t agent e p p' r j a :
  e.(je_state) = Expired → latest_attempt t (of_job e.(je_job_id)) p.(store) = Some a → settled a.(at_state) = false →
  receive_event w t agent e p = (p', r) → get_job t e.(je_job_id) p'.(store) = Some j → j.(j_state) = Expired →
  (∃ x, r = Err x) ∧ latest_attempt t (of_job e.(je_job_id)) p'.(store) = Some a
  ∧ ∃ x, receive_event w' t agent e p' = (p', Err x).
Proof.
  intros He Ha Hs Hr Hj Hst. destruct (expiry_refused w t agent e p p' r j a He Ha Hs Hr Hj Hst) as [Hx Ha'].
  split_and!; [done..|]. by eapply expiry_stuck.
Qed.

(** The next sync comes after one second when there is work; else after fifteen seconds
    in the first quarter of an hour of the node and after a minute later, a fifth sooner or
    later, and never after more than a minute. *)
Theorem poll_is_bounded q busy :
  let h := q.(sy_health) in
  let uptime := Z.quot (h.(ah_observed_at) - h.(ah_started_at)) 1000000 in
  let ms := adaptive_poll_after_ms q busy in
  if busy then ms = 1000%Z
  else if (uptime <? 900)%Z then (12000 ≤ ms ≤ 18000)%Z else (48000 ≤ ms ≤ 60000)%Z.
Proof.
  cbv zeta. unfold adaptive_poll_after_ms, adaptive_poll_with_jitter. destruct busy; [done|].
  set (seed := wrapping_fold _ _). assert (seed `mod` 41 < 41)%N as Hm by (by apply N.mod_lt).
  change (15 * 60)%Z with 900%Z. generalize dependent (seed `mod` 41)%N. intros n Hm. set (k := (Z.of_N n - 20)%Z).
  assert (-20 ≤ k ≤ 20)%Z as Hk by (unfold k; lia). clearbody k.
  destruct (_ <? 900)%Z; cbv zeta.
  - replace (15000 * k)%Z with (150 * k * 100)%Z by lia. rewrite Z.quot_mul by done.
    rewrite (proj2 (Z.ltb_ge _ _)) by lia. lia.
  - replace (60000 * k)%Z with (600 * k * 100)%Z by lia. rewrite Z.quot_mul by done.
    rewrite (proj2 (Z.ltb_ge _ _)) by lia. lia.
Qed.

(** C40: the observation of a route whose queue was not counted is never recorded: its
    privacy level is none that the table admits, so that the report is an error, and the
    sync that carries it with it. *)
Theorem uncounted_queues_are_rejected c t agent known o p route :
  o.(ro_queue) = None →
  match known !! o.(ro_local_route_key) with
  | Some id => (λ _, id) <$> get_route t id p.(store)
  | None => fst <$> get_route_by_local_key t agent o.(ro_local_route_key) p.(store)
  end = Some route →
  p.(inventory).(route_observations) !! (t, route, o.(ro_sequence)) = None →
  ∃ x, observe_route c t agent known o p = (p, Err x).
Proof.
  intros Hq Hf Hn. unfold observe_route, mbind, call_bind, look. rewrite Hf. unfold demand.
  destruct (valid_reasons _); [|by eexists]. destruct (valid_observation c o); [|by eexists].
  unfold run, record_route_observation, mbind, tx_bind, fetch, pure_result, query, ensure.
  destruct (p.(store).(topology).(printer_routes) !! (t, route)); [|by eexists].
  destruct (ok_or _ _); [|by eexists]. rewrite Hn. destruct (_ <? _)%N; [|by eexists]. destruct (counts_fit _); [|by eexists].
  assert (observation_checks (observation_row o) = false) as ->; [|rewrite andb_false_r; by eexists].
  unfold observation_checks, observation_row. rewrite Hq. cbn [ob_privacy_level is_Some].
  rewrite (bool_decide_false (is_Some None)) by (by intros []). rewrite (bool_decide_false ("not_reported"%string ∈ _)) by set_solver.
  by rewrite andb_false_r.
Qed.
End claims.
