(* ===== verification/ControlDemo.v ===== *)
(** A sync on concrete data: a node with one printer reports its queue and its runtime, is
    offered the first of two waiting jobs, and sends reports again.  The theorems about the
    sync are applied along it. *)

From S2P Require Import Prelude Domain CloudStore CloudWake CloudJobs CloudRevoke CloudRouting CloudReroute CloudMachine CloudDemo ControlPlane ControlInventory ControlDeliveries ControlOffers ControlSchedule ControlSync ControlFacts ControlLeases ControlOfferFacts ControlReports ControlHandoffs ControlClaims.

Module ControlDemo.
#[local] Existing Instance CloudDemo.external.

(** No document is rendered on a node, nothing waits for a route, and events get out. *)
#[local] Instance outbox : Outbox := λ _, false.
#[local] Instance reprint_json : ReprintJson := λ job request, "{}"%string.
#[local] Instance identity_mac : IdentityMac := λ key text, CloudDemo.pad (key +:+ text).
#[local] Instance documents : Documents :=
  {| node_render_payload := λ _ _, Err AppNotFound; printpacket_execution_failure := λ _ _, Ok None |}.
#[local] Instance diagnostic_text : DiagnosticJson := λ _, "{}"%string.
#[local] Instance media_json : MediaJson :=
  {| CloudReroute.snapshot_from_json := λ _, None; parse_rfc3339 := λ _, None; projection_json := λ _, "{}"%string |}.
#[local] Instance routing_media : RoutingMedia :=
  {| Media := string; media_from_json := Some; current_design_specification := λ _ _ _, Err AppNotFound;
     evaluate_binding_media := λ _ _ _ _ _, Err AppNotFound; document_media_compatible := λ _ _ _, false;
     evaluate_readiness := λ _ _ _ _ _, Ok false |}.

(** ** The store *)

Definition t : Tenant := CloudDemo.t.
Definition manifest : EncryptedContentManifest :=
  {| manifest_version := "3"; manifest_suite := "A256GCM";
     manifest_binding := {| envelope_id := "env_aaaaaaaaaaaaaaaaaaaaaaaa"; bound_workspace_id := "workspace";
       bound_environment_id := "environment"; bound_content_type := Pdf; bound_printer_id := "p1"; bound_target_id := "";
       bound_profile_revision := ""; bound_options := default_options; bound_deliveries := 1; bound_expires_at := "later";
       raw_authorized := false |};
     ciphertext_sha256 := "digest"; manifest_iv := "iv";
     recipients := [{| recipient_key_id := "ck"; recipient_algorithm := ENCRYPTED_JOB_V3_RECIPIENT_ALGORITHM;
       ephemeral_public_key := "key"; hkdf_salt := "salt"; key_wrap_iv := "iv"; encrypted_content_key := "wrapped" |}] |}%string.
Definition T : Topology :=
  let T := CloudDemo.T in
  {| agents := T.(agents); node_connectors := T.(node_connectors); printer_routes := T.(printer_routes);
     physical_destinations := T.(physical_destinations); printers := T.(printers); targets := T.(targets);
     target_bindings := T.(target_bindings);
     uploads := {["upload" := {| up_tenant := t; up_expected_sha256 := "digest"; up_expected_bytes := 512; up_complete := true |}]};
     content_keys := {[(t, "a1", "ck") := {| ck_algorithm := "ECDH-P256-HKDF-SHA256"; ck_lifecycle_state := "active";
                                             ck_state_changed_at := 0 |}]};
     environments := T.(environments); platform_accounts := T.(platform_accounts); workspaces := T.(workspaces);
     subscriptions := T.(subscriptions); site_memberships := T.(site_memberships);
     identity_evidence := T.(identity_evidence); identity_decisions := T.(identity_decisions); catalogue := T.(catalogue) |}%string.
Definition secret_job : Job :=
  let j := CloudDemo.job "j1" 0 in
  {| j_id := j.(j_id); j_tenant := j.(j_tenant); j_printer_id := j.(j_printer_id); j_details := j.(j_details);
     j_content := EncryptedUpload "upload" manifest; j_metadata := j.(j_metadata); j_state := j.(j_state);
     j_created_at := j.(j_created_at); j_expires_at := j.(j_expires_at);
     j_delivery_uncertain_since := j.(j_delivery_uncertain_since) |}.
Definition create_secret : Tx CreateJobResult :=
  create_cloud_job (CloudDemo.clock 0) secret_job "a1" (Some "key-j1"%string) "body" true.

Definition s1 : Store := CloudDemo.next create_secret (empty_store T).
Definition s2 : Store := CloudDemo.next (CloudDemo.queue "j1") s1.
Definition s3 : Store := CloudDemo.next (CloudDemo.create "j2" 1) s2.
Definition s4 : Store := CloudDemo.next (CloudDemo.queue "j2") s3.
Lemma leased_reachable : reachable s4.
Proof.
  unfold s4, s3, s2, s1, CloudDemo.queue. apply CloudDemo.reachable_next; [apply t_append|].
  apply CloudDemo.reachable_next; [apply CloudDemo.create_committed|]. apply CloudDemo.reachable_next; [apply t_append|].
  apply CloudDemo.reachable_next; [by apply t_create|]. exists T. apply rtc_refl.
Qed.

(** ** The request *)

Definition observation (n : N) (queue : option PrivacySafeQueueObservation) : RouteObservation :=
  {| ro_local_route_key := "key-p1"; ro_sequence := n; ro_observed_at := seconds 2; ro_state := Online;
     ro_accepts_jobs := true; ro_state_reasons := []; ro_queue := queue; ro_profile_observed_at := None;
     ro_stock_observed_at := None |}.
Definition empty_inventory : Inventory :=
  {| native_ids := ∅; evidence_values := ∅; route_observations := ∅; runtime_observations := ∅;
     projection_acknowledgements := ∅; node_diagnostics := ∅ |}.
Definition plane (s : Store) : Plane := {| store := s; inventory := empty_inventory; published := [] |}.

Definition turn (now : Z) : Turn :=
  {| clock := CloudDemo.clock now; ulid := λ x, "01-" +:+ x; uuid := λ x, "uuid-" +:+ x; fencing_token := λ x, "token-" +:+ x;
     new_lease := CloudDemo.new_lease; locked_job := λ _, false; locked_hint := λ _, false |}.
Definition deployment : Deployment := {| destination_identity_key := "key"; billing_enabled := true |}.
Definition no_rendering : DocumentRenderCapabilities :=
  {| dr_renderer_abi := None; dr_resource_abi := None; dr_font_rendering := false; dr_image_media_types := [];
     dr_font_media_types := []; dr_cached_resource_digests := []; dr_print_packet := None |}.
Definition runtime : NodeRuntimeObservation :=
  {| nr_sequence := 1; nr_host_mode := EmbeddedApplication; nr_availability_class := BackgroundOpportunistic;
     nr_lifecycle_state := Background; nr_accepts_cloud_jobs := true; nr_observed_at := seconds 2;
     nr_fresh_until := seconds 60; nr_execution_budget_ms := Some 30000%N; nr_wake_mechanisms := [] |}.
Definition request (events : list JobEvent) : AgentSyncRequest :=
  {| sy_agent_id := "a1"; sy_protocol_version := 1; sy_agent_version := "1.0"; sy_acknowledged_command_cursor := None;
     sy_queue := {| qs_queued_jobs := 0; qs_active_jobs := 0; qs_accepts_jobs := true |};
     sy_health := {| ah_started_at := 0; ah_observed_at := seconds 2; ah_sqlite_integrity_ok := true;
                     ah_executor_crashes := 0; ah_last_error_code := None |};
     sy_printers := None; sy_events := events; sy_diagnostics := []; sy_document_render := no_rendering;
     sy_route_observations := [observation 1 (Some empty_queue)]; sy_topology_changes := []; sy_native_handoffs := [];
     sy_runtime := Some runtime |}.

Definition synced : Plane * result AppError AgentSyncResponse :=
  agent_sync (turn 2) deployment t "a1" (request []) (plane s4).
(** The first job is offered. *)
Definition offers_secret (r : AgentSyncResponse) : bool :=
  match r.(ar_candidate_jobs) with
  | [o] => bool_decide (o.(jo_job).(j_id) = "j1"%string)
           && match o.(jo_job).(j_content) with EncryptedUpload u _ => bool_decide (u = "upload"%string) | _ => false end
  | _ => false
  end.
Lemma synced_offers : match synced.2 with Ok r => offers_secret r | Err _ => false end = true.
Proof. vm_compute. reflexivity. Qed.
Lemma synced_Ok : ∃ p' r o m, agent_sync (turn 2) deployment t "a1" (request []) (plane s4) = (p', Ok r)
  ∧ r.(ar_candidate_jobs) = [o] ∧ o.(jo_job).(j_content) = EncryptedUpload "upload" m.
Proof.
  pose proof synced_offers as Hs. unfold synced in Hs.
  destruct (agent_sync (turn 2) deployment t "a1" (request []) (plane s4)) as [p [r|e]]; cbn [fst snd] in *; [|done].
  unfold offers_secret in Hs. destruct (r.(ar_candidate_jobs)) as [|o [|]] eqn:Hc; try done.
  apply andb_true_iff in Hs as [_ Hu]. destruct (o.(jo_job).(j_content)) as [| | |u m] eqn:Ho; try done.
  apply bool_decide_eq_true in Hu as ->. by exists p, r, o, m.
Qed.
Lemma clocks_agree : ((turn 2).(clock).(sql_now) < (turn 2).(clock).(utc_now) + seconds 30)%Z.
Proof. done. Qed.

Lemma sync_is_a_run_witness :
  reachable (plane s4).(store) ∧ runs s4 synced.1.(store) ∧ reachable synced.1.(store).
Proof.
  destruct (sync_is_a_run (turn 2) deployment t "a1" (request []) (plane s4)  leased_reachable) as (H1 & H2 & _).
  exact (conj leased_reachable (conj H1 H2)).
Defined.

Lemma offers_are_backed_witness :
  ∃ p' r o, agent_sync (turn 2) deployment t "a1" (request []) (plane s4) = (p', Ok r) ∧ o ∈ r.(ar_candidate_jobs)
  ∧ offer_backed (turn 2) t "a1" (request []).(sy_document_render) o p'.
Proof.
  destruct synced_Ok as (p' & r & o & m & Hs & Hc & _).
  destruct (offers_are_backed (turn 2) deployment t "a1" (request []) (plane s4) p' r  leased_reachable
    clocks_agree Hs) as [_ Ho].
  assert (o ∈ r.(ar_candidate_jobs)) as Hin by (rewrite Hc; left).
  exists p', r, o. exact (conj Hs (conj Hin (Ho o Hin))).
Defined.

Lemma offers_need_a_safe_runtime_witness :
  ∃ p' r o, agent_sync (turn 2) deployment t "a1" (request []) (plane s4) = (p', Ok r) ∧ o ∈ r.(ar_candidate_jobs)
  ∧ ((turn 2).(clock).(utc_now) ≤ runtime.(nr_fresh_until))%Z.
Proof.
  destruct synced_Ok as (p' & r & o & m & Hs & Hc & _). assert (o ∈ r.(ar_candidate_jobs)) as Hin by (rewrite Hc; left).
  destruct (offers_need_a_safe_runtime (turn 2) deployment t "a1" (request []) (plane s4) p' r o 
    Hs Hin) as [_ Hr]. destruct (Hr runtime eq_refl) as (_ & _ & Hf & _).
  exists p', r, o. exact (conj Hs (conj Hin Hf)).
Defined.

Lemma encrypted_content_stays_encrypted_witness :
  ∃ p' r o m u, agent_sync (turn 2) deployment t "a1" (request []) (plane s4) = (p', Ok r) ∧ o ∈ r.(ar_candidate_jobs)
  ∧ o.(jo_content) = EncryptedDownload (content_url o.(jo_job)) u.(up_expected_sha256) (Z.to_N u.(up_expected_bytes)) m.
Proof.
  destruct synced_Ok as (p' & r & o & m & Hs & Hc & Hj). assert (o ∈ r.(ar_candidate_jobs)) as Hin by (rewrite Hc; left).
  destruct (encrypted_content_stays_encrypted (turn 2) deployment t "a1" (request []) (plane s4) p' r o "upload" m
     leased_reachable clocks_agree Hs Hin Hj) as (u & _ & _ & Ho).
  exists p', r, o, m, u. exact (conj Hs (conj Hin Ho)).
Defined.

(** ** The batch *)

(** The plane the offers are made in, with the route's observation. *)
Definition ready_plane : Plane := (receive (turn 2) deployment t "a1" (request []) (plane s4)).1.
Lemma ready_reachable : reachable ready_plane.(store).
Proof.
  destruct leased_reachable as [T0 Hr]. exists T0. etrans; [exact Hr|].
  exact (receive_runs (turn 2) deployment t "a1" (request [])  (plane s4)).
Qed.
Lemma offered_drawn : drawn (turn 2) t "a1" "j1" (make_offers (turn 2) t "a1" (request []) true ready_plane).1.(store).
Proof. unfold drawn. apply (bool_decide_eq_true (is_Some _)). vm_compute. reflexivity. Qed.
(** The lease of the second job is gone. *)
Lemma other_given_back : bool_decide (drawn (turn 2) t "a1" "j2" (make_offers (turn 2) t "a1" (request []) true ready_plane).1.(store)) = false.
Proof. vm_compute. reflexivity. Qed.
Lemma no_lease_is_left_behind_witness :
  drawn (turn 2) t "a1" "j1" (make_offers (turn 2) t "a1" (request []) true ready_plane).1.(store)
  ∧ (drawn (turn 2) t "a1" "j1" ready_plane.(store) ∨ taken_over t "j1" ready_plane.(store)
     ∨ ∃ o, (make_offers (turn 2) t "a1" (request []) true ready_plane).2 = Ok [o] ∧ o.(jo_job).(j_id) = "j1"%string).
Proof.
  exact (conj offered_drawn (no_lease_is_left_behind (turn 2) t "a1" (request []) true ready_plane "j1" ready_reachable
    offered_drawn)).
Defined.

(** ** Reports that come again *)


(** The job expires in the queue of the node. *)
Definition expiry : JobEvent := CloudDemo.report "j1" "e9" Expired.
Definition after_expiry : Plane := (receive_event (turn 9) t "a1" expiry (plane CloudDemo.c1)).1.
Lemma expiry_rows :
  from_option (λ a, negb (settled a.(at_state))) false (latest_attempt t (of_job "j1") CloudDemo.c1)
  && from_option (λ j, bool_decide (j.(j_state) = Expired)) false (get_job t "j1" after_expiry.(store)) = true.
Proof. vm_compute. reflexivity. Qed.
Lemma expiry_found : ∃ a j, latest_attempt t (of_job "j1") CloudDemo.c1 = Some a ∧ settled a.(at_state) = false
  ∧ get_job t "j1" (receive_event (turn 9) t "a1" expiry (plane CloudDemo.c1)).1.(store) = Some j ∧ j.(j_state) = Expired.
Proof.
  pose proof expiry_rows as Hr. apply andb_true_iff in Hr as [Ha Hj]. unfold after_expiry in Hj.
  destruct (latest_attempt t (of_job "j1") CloudDemo.c1) as [a|] eqn:Ea; [|discriminate Ha].
  destruct (get_job t "j1" (receive_event (turn 9) t "a1" expiry (plane CloudDemo.c1)).1.(store)) as [j|] eqn:Ej; [|discriminate Hj].
  cbn [from_option] in *. apply negb_true_iff in Ha. apply bool_decide_eq_true in Hj. exists a, j.
  exact (conj eq_refl (conj Ha (conj eq_refl Hj))).
Qed.
Lemma local_expiry_is_never_projected_witness :
  ∃ p' r x, receive_event (turn 9) t "a1" expiry (plane CloudDemo.c1) = (p', r)
  ∧ receive_event (turn 99) t "a1" expiry p' = (p', Err x).
Proof.
  destruct expiry_found as (a & j & Ha & Hs & Hj & Hst).
  destruct (receive_event (turn 9) t "a1" expiry (plane CloudDemo.c1)) as [p' r] eqn:Hr. cbn [fst] in Hj.
  destruct (local_expiry_is_never_projected (turn 9) (turn 99) t "a1" expiry (plane CloudDemo.c1) p' r j a
    eq_refl Ha Hs Hr Hj Hst) as (_ & _ & x & Hx).
  exists p', r, x. exact (conj eq_refl Hx).
Defined.

Lemma uncounted_queues_are_rejected_witness :
  ∃ x, observe_route (CloudDemo.clock 2) t "a1" ∅ (observation 1 None) (plane s4) = (plane s4, Err x).
Proof.
  refine (uncounted_queues_are_rejected (CloudDemo.clock 2) t "a1" ∅ (observation 1 None) (plane s4) "r1" eq_refl _ eq_refl).
  vm_compute. reflexivity.
Defined.
End ControlDemo.
